(* ===== verification/_CoqProject ===== *)
-Q . S2P
Prelude.v
Sha256.v
Decimal.v
Money.v
Contracts.v
GoFloat.v
Chooser.v
ChooserFacts.v
Numeric.v
GoTime.v
Cursor.v
Db.v
Billing.v
Reconcile.v
BillingFacts.v
MoneyInvariant.v
BillingClaims.v
ReconcileFacts.v
Held.v
Console.v
Ledger.v
LedgerFacts.v
Fencing.v
ConsoleAccounts.v
ConsoleRoutes.v
ConsoleFacts.v
ConsolePages.v
System.v
Redis.v
Limiter.v
LimiterFacts.v
Snapshot.v
SnapshotFacts.v
Auth.v
Effects.v
Utf8.v
GoJson.v
GoJsonParse.v
GoJsonFacts.v
Protokit.v
GoStruct.v
FloatText.v
GoUrl.v
Codecs.v
Trim.v
GoAny.v
ProtokitData.v
ProtokitContent.v
ImageFacts.v
ProtokitConvert.v
ProtokitReplies.v
ReplyFacts.v
ChatRequest.v
Stream.v
StreamFacts.v
StreamConvert.v
Server.v
ServerFacts.v
Gateway.v
Streaming.v
Events.v
EventsFacts.v
Metering.v
Cipher.v
Provider.v
RefreshData.v
Refresh.v
RefreshStore.v
RefreshFacts.v
RefreshInvariant.v
RefreshCalm.v
RefreshClaims.v
WrapperQueue.v
QueueFacts.v
QueueClaims.v
