(* ===== verification/Prelude.v ===== *)
(** * gateway-platform: a verification library

    gateway-platform puts a fleet of LLM gateways in front of upstream
    accounts and bills tenants for what they use.  A gateway (internal/gateway)
    authenticates a tenant, admits the request under its limits, leases an
    account from an in-memory pool, forwards the request, and writes two events
    to a Redis stream: the attempt started, and the attempt's release with its
    usage.  Control (internal/control) consumes that stream into a PostgreSQL
    ledger, prices and deducts the ledger's rows from prepaid wallets, lets an
    operator rule on rows it would not price and manage wallets, prices and
    accounts through a console, reconciles the books, and publishes snapshots
    of accounts and tokens (internal/snapshot) back to the gateways through
    Redis.  This library translates that core from the Go source, the SQL and
    the Lua it contains, and proves what makes it correct.

    ** The files

    Shared ground.
    - Prelude.v: the [result] monad and its guards, instants and durations
      (nanoseconds since Go's zero time), 64-bit wrap-around, Go's byte strings,
      sorted traversal, tactics and hint databases.
    - Sha256.v: crypto/sha256 and hex, checked on test vectors.
    - Decimal.v, Money.v, Numeric.v: contracts.Decimal and the part of
      strconv and math/big behind it; the money guards of billing.go; the
      NUMERIC(38,12) column with its casts, rounding, overflow and text.
    - GoFloat.v: float64 rounding, for Duration.Seconds.  GoTime.v: RFC 3339
      text of instants.
    - Contracts.v: pkg/contracts, the data that crosses processes and every
      Validate method.
    - Db.v: control's tables (migrations/*.sql) and the monad [DB] of code that
      talks to PostgreSQL, with weakest-precondition rules.  Redis.v: a keyspace
      with expiries and the monad [R] of Lua scripts and commands.
    - Effects.v: the free monad [prog] of code that calls components over which
      it has no control, its finite runs, and the class [Monitor], a
      specification of which calls may follow which; [must] is the weakest
      precondition of a program under a monitor.

    Components: definitions, then the file of their proofs.
    - Chooser.v, ChooserFacts.v: internal/gateway/chooser.go, the account pool.
      The state is the record [Chooser] (accounts, buckets, owner, cooldowns,
      egress signals), with one function per method; [acquire_from] takes the
      map traversal order as an argument.
    - Limiter.v, LimiterFacts.v: limiter.go (both Lua scripts, [Acquire],
      [AcquireTenant], release) and sticky.go.
    - Snapshot.v, SnapshotFacts.v: internal/snapshot/redis.go, publication under
      an epoch, the bucket registry, the four reads of [Load], the last-good
      store.  Auth.v: snapshot/auth.go and gateway/auth.go.
    - Server.v, ServerFacts.v, Gateway.v: server.go and run.go of
      the gateway, from the router to the events of an attempt, as programs in
      [gw]; the monitor of ServerFacts.v says what a well-behaved request does.
    - Billing.v, BillingFacts.v, MoneyInvariant.v, BillingClaims.v: billing.go,
      billing_policy.go, billing_job.go.  A Go function that runs SQL is a
      function in [DB] of the same name; each statement is one [query] or
      [exec] whose effect is the statement's.
    - Reconcile.v, ReconcileFacts.v: billing_reconcile.go.
    - Held.v: [resolveHeld] and [heldReason] of console_held.go.
    - Console.v, ConsoleAccounts.v, ConsoleRoutes.v, ConsoleFacts.v: the
      operator console (console*.go): top-ups with replay protection, prices,
      account actions, the token check and its rate limit, every route.
      Cursor.v, ConsolePages.v: its paged lists.
    - Ledger.v, LedgerFacts.v: ledger.go, health.go and state.go.
    - Fencing.v: epochs and fenced credential writes.
    - Events.v, EventsFacts.v: internal/events/stream.go, producer and consumer,
      against the [Handler] interface as in the source; the class
      [HandlerLaws] is what the consumer may expect of its handler.
    - WrapperQueue.v, QueueFacts.v, QueueClaims.v: the job queue of
      internal/control/wrapper, clients and workers interleaved call by call.
    - Cipher.v: credentials/cipher.go around AES-GCM (the class [Gcm]).
      Provider.v: the provider registry, the endpoint profiles and the
      validation of quotas (control/provider).
    - RefreshData.v, Refresh.v: refresh.go, quota_refresh.go, refresh_loop.go
      and the singleton lock of fencing.go: the SQL in [DB], the services, the
      reconciler and the loops as programs over their calls [rE].
      RefreshStore.v: what each statement does whatever fails, and the store they
      share, with sessions that may die and the advisory locks they hold;
      [exec] gives every call its meaning, [moves] is what happens by itself.
      RefreshFacts.v is the monitor every operation obeys, RefreshInvariant.v
      the invariants of store and clients, RefreshCalm.v what programs come to
      when nothing disturbs them, RefreshClaims.v the properties.
    - Utf8.v, GoJson.v, GoJsonParse.v, GoJsonFacts.v: runes and their repair;
      encoding/json: the syntax tree, [Parse], decoding into Go types,
      [marshal], and the round trip of the two; a [RawMessage] that was
      marshalled is written unchanged.  GoStruct.v: float64 (a number read from
      JSON is kept as the text it would be written as, which FloatText.v shows
      to be a JSON number again), and the [codec] of a struct from its tags.
      GoAny.v is [any] and [map[string]any] and what it is written as; GoUrl.v
      the part of net/url in use.  Codecs.v: the class [CodecSpec], what a
      codec reads back of what it wrote.  Trim.v: [strings.TrimSpace].
    - Protokit.v: [ParseUsage] of pkg/protokit, and the helpers of server.go
      that look into a body.
    - ProtokitData.v, ProtokitContent.v, ProtokitConvert.v, ProtokitReplies.v:
      the conversions of pkg/protokit: its structs, the pieces of a message,
      [ConvertRequest] and [ConvertResponse].  ImageFacts.v, ReplyFacts.v: what
      a client of each protocol reads in a reply ([told]).  ChatRequest.v: how server.go
      binds, marshals and checks a chat request, and chooses its transport.
    - Stream.v, StreamFacts.v, StreamConvert.v: the event streams of server.go:
      the usage accumulator, the stream decoder, the converters and the drain
      with a client that may leave.  Streaming.v composes the drain with the
      request path of Server.v.

    The program as a whole.
    - System.v: [control_op] lists the operations of control that write the
      database; [reachable] are the tables any sequence of them can produce
      under any schedule of faults; [control_ok] is the joint invariant.
    - Metering.v: events_adapter.go.  The ledger is an instance of [Handler] and
      of [HandlerLaws], so what EventsFacts.v proves of the stream and System.v
      of the database holds of the two together ([metering_reachable]).

    ** What the theorems show

    - Money.  On every reachable state the books reconcile, wallets equal their
      journals and runs debit what their rows were billed (C1, C3); a
      settlement is all or nothing, can be repeated, and prices a row exactly
      (C2, C5); the reconciliation report is balanced exactly
      when the declarative audit of the tables holds (C9); rulings on held
      rows charge like the job and only once (C13, [resolveHeld_once]); prices never
      reach back ([InsertModelPrice_forward_only]).
    - Metering.  An attempt is metered exactly once over all reachable states
      (C4), per handler call (C11), through the recovery of what is not locked
      (C28), and end to end from the stream (C18); no event is
      lost on the way (C19), the last two as long as retention only removes what
      was read; and
      producer and consumer agree on its form (C22).  The in-memory ledger
      simulates the PostgreSQL one on persisted attempts (C40).
    - Requests.  Every run of the router is disciplined: one attempt at a time,
      slots held while it lasts and given back, both of its events written,
      nobody called after a failed write (C7); a run that answers charges at
      most one attempt, the one it answered with (C8); its events are well formed
      unless a name is blank or a count negative (C23).
    - Leasing.  [AcquirePreferring] refines a contract stated without its guards, which are
      shown to decide the contract's words (C6); pool
      ownership is invariant (C10).
    - Console.  A top-up whose amount has no white space around it is credited once
      whatever is retried (C14); nothing is
      written without the token (C15); account actions fence the account
      ([account_action_fences]); paging shows every row once and ends (C16, C17).
    - Coordination.  Fenced writes (C12), epoch-owned publication and untorn
      loads (C20, C21), admission ceilings under arbitrary
      interleavings, with clocks within 30 s of Redis's and, for the concurrency of
      an account, a policy other than fail_open (C25, C26), tokens (C27), the wrapper queue
      (C34, C33).
    - Refreshing.  A rotation is never laid over another (C29); one run at a
      time for an account, unless a session dies (C32); a queued quota is never
      lost (C30), and the outbox drains when left alone and everything
      in it can be published (C31).
    - Streams.  The usage of a stream is what its upstream last reported in the
      lines that were read (C37),
      a client that leaves changes nothing about it, nor about the charge (C35);
      a client of another protocol hears the upstream's text, ending and reason (C36).
    - Conversions.  A whole reply tells a client of another protocol the same:
      text and images in order, tool calls, tokens, names, and whether it was cut
      off unless tool calls hide it (C38); an image comes back from the other shapes (C39).
    - Limits of the code: a local conversion failure blames the account (C24).
      Outside the list: [MarkFailure_overflow_loses_cooldown], an overflow that
      loses a cooldown; [replay_check_misses], the replay check that misses an
      older key; [concurrency_window_outlived], the counter that
      expires under its holders; [long_reason_blocks_action], the reason too long
      for its column; [Trim_drops_undelivered], retention that drops undelivered
      events; [unconvertible_loses_usage], usage reported after an event that can
      not be converted; [cut_call_called_whole], a reply cut off in a tool call
      that is passed on as complete.

    ** Modelling decisions

    - Faults.  Every statement, begin, commit, Redis call and stream command may
      fail before it ran or after it took effect, as the fault schedule of the
      state says; theorems quantify over schedules.
    - Concurrency.  A transaction's row locks, a Lua script, a mutex make their
      body atomic, so concurrent executions are sequences of steps: [reachable],
      [limit_step], the trace between the four reads of a load, [stream_step],
      [interleaving] for the wrapper queue, where every Redis call is a step of
      its own.  One call of the consumer's [RunOnce] is one step of
      [stream_step]; the commands inside it fail independently.  Retention is a
      step of [stream_step] only when nothing undelivered has aged out; without
      that, [Trim_drops_undelivered].  Where a statement skips locked rows, the
      rows that others hold locked are an argument, any set of them.
    - The request path calls components whose state it does not own.  Its
      theorems hold for every answer those calls may give; where they need one
      to be sensible, that is a hypothesis ([answers]) which the component's own
      file discharges (Gateway.AcquirePreferring_answers).
    - Recursion is structural but for a few helpers that take the length of
      their text as fuel, each step removing a byte ([trim_left_fuel_enough]);
      the chunking of SHA-256 takes the number of bytes.  big.Rat's own bound on
      exponents (10^6) is kept by the parser.  The worker's search for a lease
      is bounded by 32 in the source.
    - Integers: Go's int and int64 arithmetic wraps where the source can
      overflow (cooldowns, parsing), INTEGER columns reject what does not fit;
      Lua's numbers are exact below 2^53, which counters do not reach.
    - Instants are exact nanoseconds; TIMESTAMPTZ's rounding to microseconds is
      not modelled, and its text input is a parameter.  Text is compared
      bytewise, as under the C collation; what is written to PostgreSQL is
      taken to be valid UTF-8, except in audit rows, where the code's own
      repair is modelled.  Gaps in id sequences are not modelled.
    - The wrapper stream is never trimmed by the program, so the position of
      its consumer group is a count; [records_survive] says that
      a lease record keeps its ids through encoding/json.
    - [collision_free P] says that SHA-256 does not collide on the attempt ids
      [P] in use; [one_attempt] and the other witnesses instantiate it.
    - encoding/json is modelled by GoJson.v where a body is taken apart.  Where
      only whole records are written and read back (snapshots, events, leases)
      it is a parameter ([Codec]); what a theorem asks of it is the round trip
      of the values at hand.  The class [Conversions] of Server.v holds what
      the request path takes from the Kiro adapter and two parsers of the
      package time.

    ** Not modelled

    Metrics, gauges and logs; texts of errors and of discrepancy details; JSON
    around HTTP bodies; timers, configuration and wiring (run.go, the loops of
    snapshots and reconciliation, cmd/), which call operations that are modelled;
    code that talks to third parties: the provider adapters, the Kiro event
    stream, the OAuth and device flows of the wrapper, TLS fingerprints; the
    administration of tenants and the importer, whose tables are left free in the
    model; the New API migration, a one-off tool; request details, a side channel
    to ClickHouse that may drop what it is given.
*)

From stdpp Require Export base tactics list gmap strings sorting fin_maps option.
From Stdlib Require Export ZArith Lia.

#[global] Set Default Goal Selector "!".
#[global] Set Warnings "-clear-no-such-hyp".

(** ** Notation scope and the error monad

    Go functions that return [(value, error)] become [result E A]: [Ok] carries
    the value of a nil error, [Err] the error.  The instances below give the
    stdpp notation [x ← e; k] its Go meaning: if err != nil { return err }. *)

Declare Scope gateway_scope.
Delimit Scope gateway_scope with gateway.
Open Scope gateway_scope.

Inductive result (E A : Type) : Type :=
| Ok (a : A)
| Err (e : E).
Arguments Ok {E A} a.
Arguments Err {E A} e.

#[export] Instance result_ret {E} : MRet (result E) := fun A a => Ok a.
#[export] Instance result_bind {E} : MBind (result E) := fun A B f r =>
  match r with Ok a => f a | Err e => Err e end.

Notation "'guardE' b 'else' e ; k" := (if b : bool then k else Err e)
  (at level 10, b at level 100, e at level 100, k at level 200,
   format "'guardE'  b  'else'  e ; '//' k") : gateway_scope.

Definition is_ok {E A} (r : result E A) : bool :=
  match r with Ok _ => true | Err _ => false end.

Lemma result_bind_Ok {E A B} (r : result E A) (f : A → result E B) (b : B) :
  (r ≫= f) = Ok b ↔ ∃ a, r = Ok a ∧ f a = Ok b.
Proof.
  destruct r as [a|e]; cbn; split.
  - intros Hf. by exists a.
  - by intros (? & [= <-] & ?).
  - done.
  - by intros (? & ? & ?).
Qed.

(** ** Instants and durations

    [time.Time] is the number of nanoseconds since Go's zero instant
    (January 1, year 1, UTC), so that [IsZero] is a comparison with 0;
    [time.Duration] is a number of nanoseconds of 64 bits. *)

Abbreviation time := Z.
Abbreviation duration := Z.

Definition nanosecond : duration := 1%Z.
Definition second : duration := 1000000000%Z.
Definition minute : duration := (60 * second)%Z.
Definition hour : duration := (60 * minute)%Z.

Definition is_zero_time (t : time) : bool := Z.eqb t 0.
Definition after (t u : time) : bool := Z.ltb u t.
Definition before (t u : time) : bool := Z.ltb t u.

(** ** 64-bit integers *)

Definition min_int64 : Z := (- 2 ^ 63)%Z.
Definition max_int64 : Z := (2 ^ 63 - 1)%Z.
Definition wrap64 (z : Z) : Z := ((z + 2 ^ 63) mod 2 ^ 64 - 2 ^ 63)%Z.
Definition in_int64 (z : Z) : Prop := (min_int64 <= z <= max_int64)%Z.

(** [Time.Sub] saturates instead of wrapping. *)
Definition clamp64 (z : Z) : Z := Z.max min_int64 (Z.min max_int64 z).
Definition time_sub (t u : time) : duration := clamp64 (t - u).

Lemma wrap64_id z : in_int64 z → wrap64 z = z.
Proof.
  unfold in_int64, min_int64, max_int64, wrap64. intros Hz.
  rewrite Z.mod_small; lia.
Qed.

Lemma wrap64_range z : in_int64 (wrap64 z).
Proof.
  unfold in_int64, min_int64, max_int64, wrap64.
  pose proof (Z.mod_pos_bound (z + 2 ^ 63) (2 ^ 64)). lia.
Qed.

Lemma clamp64_range z : in_int64 (clamp64 z).
Proof. unfold clamp64, in_int64, min_int64, max_int64. lia. Qed.

Lemma clamp64_id z : in_int64 z → clamp64 z = z.
Proof. unfold clamp64, in_int64, min_int64, max_int64. lia. Qed.

Lemma after_true t u : after t u = true ↔ (u < t)%Z.
Proof. apply Z.ltb_lt. Qed.
Lemma after_false t u : after t u = false ↔ (t <= u)%Z.
Proof. apply Z.ltb_ge. Qed.
Lemma before_true t u : before t u = true ↔ (t < u)%Z.
Proof. apply Z.ltb_lt. Qed.
Lemma before_false t u : before t u = false ↔ (u <= t)%Z.
Proof. apply Z.ltb_ge. Qed.

(** ** Go strings: byte strings *)

Abbreviation str_len s := (Z.of_nat (String.length s)).

Fixpoint has_prefix (p s : string) : bool :=
  match p, s with
  | EmptyString, _ => true
  | String a p', String b s' => bool_decide (a = b) && has_prefix p' s'
  | _, EmptyString => false
  end.

(** [strings.IndexByte]: [None] stands for -1. *)
Fixpoint index_byte (c : Ascii.ascii) (s : string) : option nat :=
  match s with
  | EmptyString => None
  | String a s' => if bool_decide (a = c) then Some 0 else S <$> index_byte c s'
  end.

Fixpoint str_take (n : nat) (s : string) : string :=
  match n, s with
  | S n', String a s' => String a (str_take n' s')
  | _, _ => EmptyString
  end.

Fixpoint str_drop (n : nat) (s : string) : string :=
  match n, s with
  | 0, _ => s
  | S n', String _ s' => str_drop n' s'
  | S _, EmptyString => EmptyString
  end.

Fixpoint str_forallb (f : Ascii.ascii → bool) (s : string) : bool :=
  match s with
  | EmptyString => true
  | String a s' => f a && str_forallb f s'
  end.

(** The byte with the given code, so that separators read as in the source. *)
Definition byte_of (n : nat) : Ascii.ascii := Ascii.ascii_of_nat n.
Definition chr (n : nat) : string := String (byte_of n) EmptyString.

Definition byte_val (a : Ascii.ascii) : Z := Z.of_nat (Ascii.nat_of_ascii a).
Definition val_byte (z : Z) : Ascii.ascii := byte_of (Z.to_nat (z mod 256)).

Lemma byte_val_range a : (0 <= byte_val a < 256)%Z.
Proof. unfold byte_val. pose proof (Ascii.nat_ascii_bounded a). lia. Qed.

Lemma val_byte_val z a : (z mod 256)%Z = byte_val a → val_byte z = a.
Proof. intros E. unfold val_byte. rewrite E. unfold byte_val, byte_of. rewrite Nat2Z.id. apply Ascii.ascii_nat_embedding. Qed.

(** The UTF-8 encodings of the white space of [unicode.IsSpace], which is
    what [strings.TrimSpace] removes at both ends. *)
Definition space_encodings : list (list nat) :=
  [[9]; [10]; [11]; [12]; [13]; [32]; [194; 133]; [194; 160]; [225; 154; 128];
   [226; 128; 128]; [226; 128; 129]; [226; 128; 130]; [226; 128; 131];
   [226; 128; 132]; [226; 128; 133]; [226; 128; 134]; [226; 128; 135];
   [226; 128; 136]; [226; 128; 137]; [226; 128; 138]; [226; 128; 168];
   [226; 128; 169]; [226; 128; 175]; [226; 129; 159]; [227; 128; 128]].

Definition space_strings : list string :=
  (fun bs => foldr (fun n s => String (byte_of n) s) EmptyString bs) <$> space_encodings.

(** Strip one encoding of [encs] from the front of [s], if one is there. *)
Definition strip_one (encs : list string) (s : string) : option string :=
  foldr (fun e acc => if has_prefix e s then Some (str_drop (String.length e) s) else acc)
        None encs.

Fixpoint trim_left_fuel (fuel : nat) (encs : list string) (s : string) : string :=
  match fuel with
  | 0 => s
  | S fuel' => match strip_one encs s with
               | Some s' => trim_left_fuel fuel' encs s'
               | None => s
               end
  end.
Definition trim_left_of (encs : list string) (s : string) : string :=
  trim_left_fuel (String.length s) encs s.

Definition str_rev (s : string) : string := String.rev s.

Definition trim_space (s : string) : string :=
  let s := trim_left_of space_strings s in
  str_rev (trim_left_of (str_rev <$> space_strings) (str_rev s)).

(** stdpp keeps [String.append] folded. *)
Lemma str_app_cons a (s t : string) : (String a s +:+ t = String a (s +:+ t))%string.
Proof. reflexivity. Qed.
Lemma str_app_empty (s : string) : ("" +:+ s = s)%string.
Proof. reflexivity. Qed.
Create Rewrite HintDb gw_str.
#[export] Hint Rewrite str_app_cons str_app_empty : gw_str.

Lemma str_app_assoc (a b c : string) : ((a +:+ b) +:+ c = a +:+ b +:+ c)%string.
Proof. induction a; autorewrite with gw_str; congruence. Qed.

Lemma str_app_nil_r (a : string) : (a +:+ "" = a)%string.
Proof. induction a; autorewrite with gw_str; congruence. Qed.

Lemma str_length_app (a b : string) :
  String.length (a +:+ b) = (String.length a + String.length b)%nat.
Proof. induction a; autorewrite with gw_str; cbn; congruence. Qed.

Lemma str_drop_length n s : String.length (str_drop n s) <= String.length s.
Proof. revert s. induction n as [|n IH]; intros [|a s]; cbn; [lia..|]. specialize (IH s). lia. Qed.

Lemma strip_one_length encs s s' :
  strip_one encs s = Some s' → String.length s' <= String.length s.
Proof.
  induction encs as [|e encs IH]; cbn; [done|].
  destruct (has_prefix e s); [|exact IH]. intros [= <-]. apply str_drop_length.
Qed.

Lemma trim_left_of_length encs s : String.length (trim_left_of encs s) <= String.length s.
Proof.
  unfold trim_left_of. generalize (String.length s) at 1 as fuel. intros fuel.
  revert s. induction fuel as [|fuel IH]; intros s; cbn; [lia|].
  destruct (strip_one encs s) as [s'|] eqn:E; [|lia].
  apply strip_one_length in E. specialize (IH s'). lia.
Qed.

Lemma rev_app_length s : ∀ t, String.length (String.rev_app s t) = String.length s + String.length t.
Proof. induction s as [|a s IH]; intros t; cbn; [done|]. rewrite IH. cbn. lia. Qed.

Lemma trim_space_length s : String.length (trim_space s) <= String.length s.
Proof.
  unfold trim_space, str_rev, String.rev. rewrite rev_app_length. cbn. rewrite Nat.add_0_r.
  etransitivity; [apply trim_left_of_length|]. rewrite rev_app_length. cbn.
  rewrite Nat.add_0_r. apply trim_left_of_length.
Qed.

Definition blank (s : string) : bool := String.eqb (trim_space s) EmptyString.

Example trim_space_both : trim_space "  a b	 " = "a b"%string.
Proof. vm_compute. reflexivity. Qed.
Example trim_space_wide : trim_space (chr 194 +:+ chr 160 +:+ "x") = "x"%string.
Proof. vm_compute. reflexivity. Qed.

(** [strings.ToLower] of ASCII letters. *)
Definition lower_ascii (a : Ascii.ascii) : Ascii.ascii :=
  let n := Ascii.nat_of_ascii a in
  if (Nat.leb 65 n) && (Nat.leb n 90) then byte_of (n + 32) else a.

Fixpoint to_lower (s : string) : string :=
  match s with EmptyString => EmptyString | String a s' => String (lower_ascii a) (to_lower s') end.

(** [sort.Strings]. *)
Definition sort_strings (l : list string) : list string := merge_sort String.le l.

Lemma sort_strings_perm l : sort_strings l ≡ₚ l.
Proof. apply merge_sort_Permutation. Qed.

Lemma sort_strings_sorted l : StronglySorted String.le (sort_strings l).
Proof. apply StronglySorted_merge_sort; apply _. Qed.

(** Sorting forgets the order in which a Go map was traversed. *)
Lemma sort_strings_perm_eq l1 l2 : l1 ≡ₚ l2 → sort_strings l1 = sort_strings l2.
Proof.
  intros Hp. apply (StronglySorted_unique String.le); [apply sort_strings_sorted..|].
  by rewrite !sort_strings_perm.
Qed.

Lemma elem_of_sort_strings x l : x ∈ sort_strings l ↔ x ∈ l.
Proof. by rewrite sort_strings_perm. Qed.

Lemma sort_strings_head l x rest :
  sort_strings l = x :: rest → x ∈ l ∧ ∀ y, y ∈ l → String.le x y.
Proof.
  intros Hs. pose proof (sort_strings_sorted l) as Hso. rewrite Hs in Hso.
  apply StronglySorted_cons in Hso as [Hle _].
  split.
  - rewrite <-elem_of_sort_strings, Hs. apply list_elem_of_here.
  - intros y Hy. rewrite <-elem_of_sort_strings, Hs in Hy.
    apply elem_of_cons in Hy as [->|Hy]; [reflexivity|].
    by apply (proj1 (list.Forall_forall _ _) Hle).
Qed.

Lemma sort_strings_nil l : sort_strings l = [] ↔ l = [].
Proof.
  split; [|intros ->; done]. intros Hs. apply Permutation_nil.
  rewrite <-Hs. apply sort_strings_perm.
Qed.

(** ** Lists and maps *)

Definition opt_default {A} (d : A) (o : option A) : A := default d o.

(** Deleting map entries while ranging over the map, as Go allows. *)
Definition map_remove_if {K V} `{Countable K} (f : K → V → bool) (m : gmap K V) : gmap K V :=
  filter (fun kv => f kv.1 kv.2 = false) m.

Lemma lookup_map_remove_if {K V} `{Countable K} (f : K → V → bool) (m : gmap K V) k v :
  map_remove_if f m !! k = Some v ↔ m !! k = Some v ∧ f k v = false.
Proof. apply map_lookup_filter_Some. Qed.

Lemma map_remove_if_None {K V} `{Countable K} (f : K → V → bool) (m : gmap K V) k :
  m !! k = None → map_remove_if f m !! k = None.
Proof. intros Hm. apply map_lookup_filter_None. by left. Qed.

Lemma lookup_map_remove_if_false {K V} `{Countable K} (f : K → V → bool) (m : gmap K V) k v :
  m !! k = Some v → f k v = false → map_remove_if f m !! k = Some v.
Proof. intros. by apply lookup_map_remove_if. Qed.

Lemma map_remove_if_subseteq {K V} `{Countable K} (f : K → V → bool) (m : gmap K V) :
  map_remove_if f m ⊆ m.
Proof. apply map_filter_subseteq. Qed.

(** An invariant of a loop is an invariant of its result. *)
Lemma foldl_inv {A B} (P : A → Prop) (f : A → B → A) (l : list B) (a : A) :
  P a → (∀ a b, b ∈ l → P a → P (f a b)) → P (foldl f a l).
Proof.
  revert a. induction l as [|b l IH]; intros a Ha Hf; cbn; [done|].
  apply IH; [apply Hf; [apply list_elem_of_here|done]|].
  intros a' b' Hin. apply Hf. by apply list_elem_of_further.
Qed.

Lemma forallb_Forall {A} (f : A → bool) l : forallb f l = true ↔ Forall (fun x => f x = true) l.
Proof.
  induction l as [|x l IH]; cbn; [split; auto|].
  rewrite andb_true_iff, IH. split; [intros []; auto|inv 1; auto].
Qed.

Lemma existsb_Exists {A} (f : A → bool) l : existsb f l = true ↔ ∃ x, x ∈ l ∧ f x = true.
Proof.
  rewrite existsb_exists. by setoid_rewrite list_elem_of_In.
Qed.

(** ** Automation *)

Create HintDb gw discriminated.
Create Rewrite HintDb gw_bool.
#[export] Hint Rewrite after_true after_false before_true before_false
  Z.ltb_lt Z.ltb_ge Z.leb_le Z.leb_gt Z.eqb_eq Z.eqb_neq
  andb_true_iff orb_false_iff negb_true_iff negb_false_iff : gw_bool.

(** Turn boolean hypotheses into the propositions they decide. *)
Ltac breflect :=
  repeat first
    [ progress autorewrite with gw_bool in *
    | match goal with
      | H : _ ∧ _ |- _ => destruct H
      | H : bool_decide _ = true |- _ => apply bool_decide_eq_true in H
      | H : bool_decide _ = false |- _ => apply bool_decide_eq_false in H
      | H : String.eqb _ _ = true |- _ => apply String.eqb_eq in H
      | H : String.eqb _ _ = false |- _ => apply String.eqb_neq in H
      end ].

(** Case analysis on the first test of the goal. *)
Ltac case_if_goal :=
  match goal with |- context [if ?b then _ else _] => destruct b eqn:? end.

(** Case analysis on every match of a hypothesis that equates results. *)
Ltac split_match_in H :=
  repeat (case_match; simplify_eq/=; try (discriminate H)).

Ltac inv_result :=
  repeat match goal with
  | H : Ok _ = Ok _ |- _ => injection H as H
  | H : Err _ = Err _ |- _ => injection H as H
  | H : Ok _ = Err _ |- _ => discriminate H
  | H : Err _ = Ok _ |- _ => discriminate H
  | H : (_ ≫= _) = Ok _ |- _ => apply result_bind_Ok in H as (? & ? & ?)
  end; subst.
