(* ===== verification/Sha256.v ===== *)
(** * SHA-256

    crypto/sha256 and encoding/hex, as far as the program uses them:
    [sha256.Sum256] of a byte string and the lower-case hex rendering.  Token
    lookup keys, snapshot bucket ids, sticky keys and terminal event ids are
    derived through it.  Words are 32-bit values in [Z]. *)

From S2P Require Import Prelude.

Open Scope Z_scope.

Definition w32 (z : Z) : Z := z mod 2 ^ 32.
Definition rotr (n x : Z) : Z := Z.lor (Z.shiftr x n) (w32 (Z.shiftl x (32 - n))).
Definition not32 (x : Z) : Z := Z.lxor x (2 ^ 32 - 1).

Definition ch (x y z : Z) : Z := Z.lxor (Z.land x y) (Z.land (not32 x) z).
Definition maj (x y z : Z) : Z := Z.lxor (Z.lxor (Z.land x y) (Z.land x z)) (Z.land y z).
Definition big_sigma0 (x : Z) : Z := Z.lxor (Z.lxor (rotr 2 x) (rotr 13 x)) (rotr 22 x).
Definition big_sigma1 (x : Z) : Z := Z.lxor (Z.lxor (rotr 6 x) (rotr 11 x)) (rotr 25 x).
Definition small_sigma0 (x : Z) : Z := Z.lxor (Z.lxor (rotr 7 x) (rotr 18 x)) (Z.shiftr x 3).
Definition small_sigma1 (x : Z) : Z := Z.lxor (Z.lxor (rotr 17 x) (rotr 19 x)) (Z.shiftr x 10).

(** The constants are fractional bits of roots of the first primes; they are
    computed from that definition rather than listed. *)
Definition is_prime (n : nat) : bool :=
  forallb (λ d, negb (Nat.eqb (Nat.modulo n d) 0)) (seq 2 (n - 2)).
Definition primes (count : nat) : list Z :=
  firstn count (List.map Z.of_nat (List.filter is_prime (seq 2 320))).

(** The largest x below 2^bits with x^k <= n. *)
Fixpoint root_bits (k : Z) (bits : nat) (n x : Z) : Z :=
  match bits with
  | O => x
  | S b => let y := x + 2 ^ Z.of_nat b in root_bits k b n (if y ^ k <=? n then y else x)
  end.

(** The first 32 fractional bits of the k-th root of p. *)
Definition root_fraction (k p : Z) : Z := w32 (root_bits k 40 (p * 2 ^ (32 * k)) 0).

Definition round_constants : list Z :=
  Eval vm_compute in List.map (root_fraction 3) (primes 64).

Definition initial_hash : list Z :=
  Eval vm_compute in List.map (root_fraction 2) (primes 8).

(** The message schedule, last word first. *)
Fixpoint extend (n : nat) (w : list Z) : list Z :=
  match n with
  | O => w
  | S n' =>
      let g i := nth i w 0 in
      extend n' (w32 (small_sigma1 (g 1%nat) + g 6%nat + small_sigma0 (g 14%nat) + g 15%nat) :: w)
  end.

Definition sha_round (h : list Z) (kw : Z * Z) : list Z :=
  match h with
  | [a; b; c; d; e; f; g; hh] =>
      let t1 := hh + big_sigma1 e + ch e f g + kw.1 + kw.2 in
      let t2 := big_sigma0 a + maj a b c in
      [w32 (t1 + t2); a; b; c; w32 (d + t1); e; f; g]
  | _ => h
  end.

Definition compress (h block : list Z) : list Z :=
  let w := rev (extend 48 (rev block)) in
  zip_with (λ x y, w32 (x + y)) h (foldl sha_round h (zip_with pair round_constants w)).

Fixpoint words_of (fuel : nat) (bs : list Z) : list Z :=
  match fuel, bs with
  | S f, a :: b :: c :: d :: bs' => (a * 2 ^ 24 + b * 2 ^ 16 + c * 2 ^ 8 + d) :: words_of f bs'
  | _, _ => []
  end.

Fixpoint blocks_of (fuel : nat) (ws : list Z) : list (list Z) :=
  match fuel, ws with
  | S f, _ :: _ => firstn 16 ws :: blocks_of f (skipn 16 ws)
  | _, _ => []
  end.

Definition bytes_be (n : nat) (z : Z) : list Z :=
  List.map (λ i, Z.shiftr z (8 * Z.of_nat (n - 1 - i)) mod 256) (seq 0 n).

Definition pad (bs : list Z) : list Z :=
  let n := length bs in
  let zeros := Z.to_nat ((55 - Z.of_nat n) mod 64) in
  bs ++ [128] ++ repeat 0 zeros ++ bytes_be 8 (8 * Z.of_nat n).

Definition bytes_of (s : string) : list Z :=
  List.map (λ a, Z.of_nat (Ascii.nat_of_ascii a)) (String.list_ascii_of_string s).

Definition hex_digit (z : Z) : Ascii.ascii :=
  byte_of (Z.to_nat (if z <? 10 then 48 + z else 87 + z)).

Definition hex_bytes (bs : list Z) : string :=
  foldr (λ b acc, String (hex_digit (b / 16)) (String (hex_digit (b mod 16)) acc)) EmptyString bs.

(** [sha256.Sum256([]byte(s))] *)
Definition sha256 (s : string) : list Z :=
  let bs := pad (bytes_of s) in
  let ws := words_of (length bs) bs in
  let h := foldl compress initial_hash (blocks_of (length ws) ws) in
  h ≫= bytes_be 4.

(** [sum := sha256.Sum256([]byte(s)); hex.EncodeToString(sum[:])]. *)
Definition sha256_hex (s : string) : string := hex_bytes (sha256 s).

(** The first test vector of FIPS 180-4. *)
Example sha256_abc :
  sha256_hex "abc" = "ba7816bf8f01cfea414140de5dae2223b00361a396177a9cb410ff61f20015ad"%string.
Proof. vm_compute. reflexivity. Qed.

Example sha256_empty :
  sha256_hex "" = "e3b0c44298fc1c149afbf4c8996fb92427ae41e4649b934ca495991b7852b855"%string.
Proof. vm_compute. reflexivity. Qed.

(** ** Lengths *)

Lemma sha_round_length h kw : length h = 8%nat → length (sha_round h kw) = 8%nat.
Proof.
  intros H. destruct kw as [k w].
  do 8 (destruct h as [|? h]; [discriminate H|]). destruct h; [done|discriminate H].
Qed.

Lemma compress_length h block : length h = 8%nat → length (compress h block) = 8%nat.
Proof.
  intros Hh. unfold compress. rewrite length_zip_with, Hh.
  rewrite (foldl_inv (λ h, length h = 8%nat)); [done|done|]. intros h' kw _. apply sha_round_length.
Qed.

Lemma hex_bytes_length bs : String.length (hex_bytes bs) = (2 * length bs)%nat.
Proof. unfold hex_bytes. induction bs as [|b bs IH]; [done|]. cbn [foldr String.length length]. rewrite IH. lia. Qed.

Lemma sha256_hex_length s : String.length (sha256_hex s) = 64%nat.
Proof.
  unfold sha256_hex, sha256. rewrite hex_bytes_length. set (h := foldl _ _ _).
  assert (length h = 8%nat) as Hh.
  { unfold h. apply (foldl_inv (λ h, length h = 8%nat)); [done|]. intros h' b _. apply compress_length. }
  clearbody h. do 8 (destruct h as [|? h]; [discriminate Hh|]). by destruct h.
Qed.

Lemma str_take_length n s : (n <= String.length s)%nat → String.length (str_take n s) = n.
Proof. revert s. induction n as [|n IH]; intros [|a s] H; cbn in *; [done|done|lia|]. f_equal. apply IH. lia. Qed.

(** ** Digits *)

Definition is_hex (a : Ascii.ascii) : bool :=
  let n := Ascii.nat_of_ascii a in (Nat.leb 48 n && Nat.leb n 57) || (Nat.leb 97 n && Nat.leb n 102).

Lemma hex_digit_is_hex z : 0 <= z < 16 → is_hex (hex_digit z) = true.
Proof.
  intros Hz. assert (z ∈ List.map Z.of_nat (seq 0 16)) as Hin.
  { apply list_elem_of_In, in_map_iff. exists (Z.to_nat z). split; [lia|]. apply in_seq. lia. }
  revert Hin. cbn. rewrite !elem_of_cons. intros Hin.
  repeat (destruct Hin as [->|Hin]; [reflexivity|]). by apply elem_of_nil in Hin.
Qed.

Lemma hex_bytes_digits bs : Forall (λ b, 0 <= b < 256) bs → str_forallb is_hex (hex_bytes bs) = true.
Proof.
  induction 1 as [|b bs Hb _ IH]; [done|].
  change (is_hex (hex_digit (b / 16)) && (is_hex (hex_digit (b mod 16)) && str_forallb is_hex (hex_bytes bs)) = true).
  rewrite IH, !hex_digit_is_hex; [done|apply Z.mod_pos_bound; lia|].
  split; [apply Z.div_pos; lia|apply Z.div_lt_upper_bound; lia].
Qed.

Lemma sha256_hex_digits s : str_forallb is_hex (sha256_hex s) = true.
Proof.
  unfold sha256_hex, sha256. set (h := foldl _ _ _). apply hex_bytes_digits, list.Forall_forall.
  intros b Hb. apply list_elem_of_bind in Hb as (w & Hb & _).
  unfold bytes_be in Hb. apply list_elem_of_In, in_map_iff in Hb as (i & <- & _). apply Z.mod_pos_bound. lia.
Qed.
