(* ===== verification/Decimal.v ===== *)
(** * Exact decimals

    [contracts.Decimal] (pkg/contracts/contracts.go) keeps a provider's decimal
    spelling as a string; its arithmetic goes through [big.Rat].  This file
    models the part of strconv and math/big the program uses (section [Go]),
    the methods of [Decimal], and the money guards of
    internal/control/billing.go that decide what a NUMERIC(38,12) column can
    store.  The theorems relate the spelling, the guards and the exact value. *)

From S2P Require Import Prelude.
From Stdlib Require Import QArith.

Open Scope Z_scope.

(** ** Digit strings *)

Definition is_digit (a : Ascii.ascii) : bool :=
  (48 <=? Z.of_nat (Ascii.nat_of_ascii a)) && (Z.of_nat (Ascii.nat_of_ascii a) <=? 57).
Definition digit_val (a : Ascii.ascii) : Z := Z.of_nat (Ascii.nat_of_ascii a) - 48.
Definition digit_char (d : Z) : Ascii.ascii := byte_of (Z.to_nat (d mod 10 + 48)).

Fixpoint span_digits (s : string) : string * string :=
  match s with
  | String a s' => if is_digit a then let '(d, r) := span_digits s' in (String a d, r)
                   else (EmptyString, s)
  | EmptyString => (EmptyString, EmptyString)
  end.

Fixpoint digits_acc (acc : Z) (s : string) : Z :=
  match s with
  | EmptyString => acc
  | String a s' => digits_acc (10 * acc + digit_val a) s'
  end.
Definition digits_val (s : string) : Z := digits_acc 0 s.
Abbreviation all_digits s := (str_forallb is_digit s = true).

(** [w] decimal digits of [n], most significant first. *)
Fixpoint digits_fixed (w : nat) (n : Z) : string :=
  match w with
  | O => EmptyString
  | S w' => digits_fixed w' (n / 10) +:+ String (digit_char n) EmptyString
  end.

Fixpoint drop_zeros (s : string) : string :=
  match s with
  | String a s' => if bool_decide (a = byte_of 48) then drop_zeros s' else s
  | EmptyString => EmptyString
  end.

(** Decimal digits of a non-negative integer, without leading zeros. *)
Definition show_nonneg (n : Z) : string :=
  match drop_zeros (digits_fixed (S (Z.to_nat (Z.log2 n))) n) with
  | EmptyString => "0"
  | s => s
  end.

(** [strconv.FormatInt(z, 10)]. *)
Definition format_int (z : Z) : string :=
  if z <? 0 then "-" +:+ show_nonneg (- z) else show_nonneg z.

(** ** Go's strconv and math/big *)

(** [strconv.ParseInt(s, 10, 64)]: the value Go returns together with the
    error flag.  A range error still returns the nearest int64. *)
Definition parse_int (s : string) : Z * bool :=
  let '(neg, body) := match s with
    | String a r => if bool_decide (a = byte_of 45) then (true, r)
                    else if bool_decide (a = byte_of 43) then (false, r) else (false, s)
    | EmptyString => (false, EmptyString)
    end in
  if String.eqb body EmptyString then (0, false)
  else if str_forallb is_digit body then
    let v := if neg then - digits_val body else digits_val body in
    (clamp64 v, bool_decide (clamp64 v = v))
  else (0, false).

(** [n, _ := strconv.Atoi(s)]. *)
Definition atoi (s : string) : Z := (parse_int s).1.

(** A decimal literal: sign, digits before and after the point, exponent. *)
Record literal := Literal {
  lit_neg : bool;
  lit_int : string;
  lit_frac : string;
  lit_point : bool;
  lit_exp : option string   (* the digits after e or E, with their sign *)
}.

Definition exp_mark (a : Ascii.ascii) : bool :=
  bool_decide (a = byte_of 101) || bool_decide (a = byte_of 69).

Definition sign_mark (a : Ascii.ascii) : bool :=
  bool_decide (a = byte_of 45) || bool_decide (a = byte_of 43).

(** The optional exponent at the end of a literal: [Some None] when there is
    none, [None] when what is left is not an exponent. *)
Definition scan_exponent (s : string) : option (option string) :=
  match s with
  | EmptyString => Some None
  | String a r =>
      if exp_mark a then
        let body := match r with
          | String b r' => if sign_mark b then r' else r
          | EmptyString => r
          end in
        if negb (String.eqb body EmptyString) && str_forallb is_digit body
        then Some (Some r) else None
      else None
  end.

(** Digits, an optional point with digits, an optional exponent. *)
Definition scan_unsigned (neg : bool) (s : string) : option literal :=
  let '(i, r) := span_digits s in
  match r with
  | String a r' =>
      if bool_decide (a = byte_of 46) then
        let '(f, r'') := span_digits r' in
        e ← scan_exponent r''; Some (Literal neg i f true e)
      else e ← scan_exponent r; Some (Literal neg i EmptyString false e)
  | EmptyString => Some (Literal neg i EmptyString false None)
  end.

(** [big.Rat.SetString] on decimal spellings.  The fractions, base prefixes and
    underscores it also accepts are outside this function: every string the
    program hands to it is a validated [Decimal], the output of [FloatString]
    or a NUMERIC rendered by PostgreSQL. *)
Definition rat_of (m e : Z) : Q :=
  if 0 <=? e then inject_Z (m * 10 ^ e) else m # Z.to_pos (10 ^ (- e)).

Definition literal_mantissa (l : literal) : Z :=
  let v := digits_val (lit_int l +:+ lit_frac l) in if lit_neg l then - v else v.

Definition max_rat_exponent : Z := 1000000.

Definition rat_of_literal (l : literal) : option Q :=
  if String.eqb (lit_int l +:+ lit_frac l) EmptyString then None else
  let '(x, ok) := match lit_exp l with Some e => parse_int e | None => (0, true) end in
  if negb ok then None else
  let m := literal_mantissa l in
  if m =? 0 then Some (inject_Z 0) else
  let e := x - str_len (lit_frac l) in
  if Z.abs e <=? max_rat_exponent then Some (rat_of m e) else None.

Definition rat_set_string (s : string) : option Q :=
  l ← (match s with
       | String a r => if bool_decide (a = byte_of 45) then scan_unsigned true r
                       else if bool_decide (a = byte_of 43) then scan_unsigned false r
                       else scan_unsigned false s
       | EmptyString => None
       end);
  rat_of_literal l.

(** The value [FloatString(prec)] prints, in units of 10^-prec: rounded to
    nearest, halves away from zero. *)
Definition round_abs (prec : nat) (q : Q) : Z :=
  (2 * Z.abs (Qnum q) * 10 ^ Z.of_nat prec + QDen q) / (2 * QDen q).
Definition rat_round (prec : nat) (q : Q) : Z := Z.sgn (Qnum q) * round_abs prec q.

Definition show_scaled (prec : nat) (neg : bool) (n : Z) : string :=
  (if neg then "-" else "") +:+ show_nonneg (n / 10 ^ Z.of_nat prec) +:+
  match prec with
  | O => ""
  | S _ => "." +:+ digits_fixed prec (n mod 10 ^ Z.of_nat prec)
  end.

(** [big.Rat.FloatString]. *)
Definition float_string (prec : nat) (q : Q) : string :=
  show_scaled prec (Qnum q <? 0) (round_abs prec q).

(** ** contracts.Decimal *)

Abbreviation Decimal := string.

(** What [decimalPattern] asks of the part before the point: a single 0, or
    digits that do not start with 0. *)
Definition integer_part_ok (i : string) : bool :=
  match i with
  | EmptyString => false
  | String a r => negb (bool_decide (a = byte_of 48)) || String.eqb r EmptyString
  end.

Definition decimalPattern (s : string) : option literal :=
  l ← (match s with
       | String a r => if bool_decide (a = byte_of 45) then scan_unsigned true r
                       else scan_unsigned false s
       | EmptyString => None
       end);
  if integer_part_ok (lit_int l)
     && (negb (lit_point l) || negb (String.eqb (lit_frac l) EmptyString))
  then Some l else None.

Definition Decimal_Valid (d : Decimal) : bool :=
  let raw := trim_space d in
  if String.eqb raw EmptyString then false
  else match decimalPattern raw with Some _ => true | None => false end.

Definition rat_sign (q : Q) : Z := Z.sgn (Qnum q).

(** The second result of the Go function is false exactly on [None]. *)
Definition Decimal_Sign (d : Decimal) : option Z :=
  if negb (Decimal_Valid d) then None
  else v ← rat_set_string (trim_space d); Some (rat_sign v).

(** [raw[:index], raw[index+1:]] at the first e or E. *)
Fixpoint cut_exponent (raw : string) : string * option string :=
  match raw with
  | EmptyString => (EmptyString, None)
  | String a r => if exp_mark a then (EmptyString, Some r)
                  else let '(m, e) := cut_exponent r in (String a m, e)
  end.

Definition exponent_of (e : option string) : Z :=
  match e with Some x => atoi x | None => 0 end.

Definition decimalPlaces (d : Decimal) : Z :=
  let '(raw, e) := cut_exponent (trim_space d) in
  let exponent := exponent_of e in
  match index_byte (byte_of 46) raw with
  | Some dot =>
      let places := wrap64 (str_len raw - Z.of_nat dot - 1 - exponent) in
      if 0 <? places then places else 0
  | None => if exponent <? 0 then wrap64 (- exponent) else 0
  end.

Definition Decimal_Sub (d other : Decimal) : option Decimal :=
  if negb (Decimal_Valid d) || negb (Decimal_Valid other) then None
  else
    left ← rat_set_string (trim_space d);
    right ← rat_set_string (trim_space other);
    let precision := decimalPlaces d in
    let precision := if precision <? decimalPlaces other then decimalPlaces other else precision in
    Some (float_string (Z.to_nat precision) (Qminus left right)).

(** [MarshalJSON]: the JSON number is the trimmed spelling. *)
Definition Decimal_MarshalJSON (d : Decimal) : option string :=
  if Decimal_Valid d then Some (trim_space d) else None.

Example valid_cases :
  List.map Decimal_Valid ["0"; "-0.50"; "1e30"; " 12.5e-3 "; "01"; "1."; ".5"; "1e"; "+1"; ""]
  = [true; true; true; true; false; false; false; false; false; false].
Proof. vm_compute. reflexivity. Qed.

Example sub_case : Decimal_Sub "1.5" "0.125" = Some "1.375"%string.
Proof. vm_compute. reflexivity. Qed.

Example float_case : float_string 2 (-1 # 3) = "-0.33"%string.
Proof. vm_compute. reflexivity. Qed.

(** ** Lemmas: digit strings *)

Lemma str_app_prefix p a b : p +:+ a = p +:+ b → a = b.
Proof. induction p as [|c p IH]; intros H; [done|]. apply IH. by injection H. Qed.

Lemma str_app_same_tail a b x y :
  String.length x = String.length y → a +:+ x = b +:+ y → a = b ∧ x = y.
Proof.
  intros Hlen. revert b. induction a as [|c a IH]; intros [|d b] H.
  - done.
  - exfalso. change (x = String d b +:+ y) in H. subst x. rewrite str_length_app in Hlen. cbn in Hlen. lia.
  - exfalso. change (String c a +:+ x = y) in H. subst y. rewrite str_length_app in Hlen. cbn in Hlen. lia.
  - injection H as -> H. by destruct (IH b H) as [-> ->].
Qed.

Lemma str_app_same_head a b x y :
  String.length a = String.length b → a +:+ x = b +:+ y → a = b ∧ x = y.
Proof.
  revert b. induction a as [|c a IH]; intros [|d b] Hl H; [done|discriminate..|].
  injection Hl as Hl. injection H as -> H. by destruct (IH b Hl H) as [-> ->].
Qed.

Lemma str_forallb_app f a b : str_forallb f (a +:+ b) = str_forallb f a && str_forallb f b.
Proof. induction a as [|c a IH]; autorewrite with gw_str; cbn; [done|]. by rewrite IH, andb_assoc. Qed.

Lemma is_digit_bound a : is_digit a = true → 0 <= digit_val a <= 9.
Proof. unfold is_digit, digit_val. intros. breflect. lia. Qed.

Lemma digits_acc_spec s : ∀ acc,
  digits_acc acc s = acc * 10 ^ str_len s + digits_val s.
Proof.
  unfold digits_val. induction s as [|a s IH]; intros acc; cbn [digits_acc String.length].
  - rewrite Z.pow_0_r. lia.
  - rewrite IH, (IH (10 * 0 + digit_val a)), Nat2Z.inj_succ, Z.pow_succ_r by lia. lia.
Qed.

Lemma digits_val_cons a s :
  digits_val (String a s) = digit_val a * 10 ^ str_len s + digits_val s.
Proof. unfold digits_val at 1. cbn [digits_acc]. rewrite digits_acc_spec. f_equal. Qed.

Lemma digits_val_app a b :
  digits_val (a +:+ b) = digits_val a * 10 ^ str_len b + digits_val b.
Proof.
  induction a as [|c a IH]; autorewrite with gw_str.
  - change (digits_val "") with 0. lia.
  - rewrite !digits_val_cons, IH, str_length_app, Nat2Z.inj_add, Z.pow_add_r by lia. lia.
Qed.

Lemma digits_val_bound s : all_digits s → 0 <= digits_val s < 10 ^ str_len s.
Proof.
  induction s as [|a s IH]; intros Hd; cbn [str_forallb] in Hd.
  - cbn. lia.
  - apply andb_true_iff in Hd as [Ha Hs]. specialize (IH Hs).
    pose proof (is_digit_bound _ Ha). rewrite digits_val_cons.
    cbn [String.length]. rewrite Nat2Z.inj_succ, Z.pow_succ_r by lia. nia.
Qed.

Lemma digit_char_val d : 0 <= d <= 9 → digit_val (digit_char d) = d ∧ is_digit (digit_char d) = true.
Proof.
  intros Hd.
  assert (d = 0 ∨ d = 1 ∨ d = 2 ∨ d = 3 ∨ d = 4 ∨ d = 5 ∨ d = 6 ∨ d = 7 ∨ d = 8 ∨ d = 9)
    as Hc by lia.
  destruct_or!; subst; split; reflexivity.
Qed.

Lemma digit_char_mod n : digit_char n = digit_char (n mod 10).
Proof. unfold digit_char. by rewrite Z.mod_mod by lia. Qed.

Lemma digits_fixed_length w n : String.length (digits_fixed w n) = w.
Proof.
  revert n. induction w as [|w IH]; intros n; cbn; [done|].
  rewrite str_length_app, IH. cbn. lia.
Qed.

Lemma digits_fixed_digits w n : all_digits (digits_fixed w n).
Proof.
  revert n. induction w as [|w IH]; intros n; cbn [digits_fixed]; [done|].
  rewrite str_forallb_app, IH. cbn [str_forallb andb]. rewrite digit_char_mod.
  pose proof (Z.mod_pos_bound n 10). by rewrite (proj2 (digit_char_val (n mod 10) ltac:(lia))).
Qed.

Lemma digits_fixed_val w n : 0 <= n → digits_val (digits_fixed w n) = n mod 10 ^ Z.of_nat w.
Proof.
  revert n. induction w as [|w IH]; intros n Hn; cbn [digits_fixed].
  - cbn. by rewrite Z.mod_1_r.
  - rewrite digits_val_app, IH by (apply Z.div_pos; lia).
    rewrite digits_val_cons, digit_char_mod.
    pose proof (Z.mod_pos_bound n 10).
    rewrite (proj1 (digit_char_val (n mod 10) ltac:(lia))).
    change (str_len (String _ "")) with 1. change (str_len "") with 0.
    change (digits_val "") with 0.
    rewrite Nat2Z.inj_succ, Z.pow_succ_r, (Z.rem_mul_r n 10) by lia. lia.
Qed.

Lemma drop_zeros_val s : digits_val (drop_zeros s) = digits_val s.
Proof.
  induction s as [|a s IH]; cbn [drop_zeros]; [done|].
  case_bool_decide; [|done]. subst. rewrite IH, digits_val_cons.
  change (digit_val (byte_of 48)) with 0. lia.
Qed.

Lemma drop_zeros_digits s : all_digits s → all_digits (drop_zeros s).
Proof.
  induction s as [|a s IH]; cbn [drop_zeros str_forallb]; [done|].
  intros [Ha Hs]%andb_true_iff. case_bool_decide; [auto|].
  cbn. by rewrite Ha, Hs.
Qed.

Lemma drop_zeros_length s : (String.length (drop_zeros s) <= String.length s)%nat.
Proof.
  induction s as [|a s IH]; cbn [drop_zeros String.length]; [done|].
  case_bool_decide; cbn; lia.
Qed.

(** Without leading zeros the number of digits is the magnitude. *)
Lemma drop_zeros_low s :
  all_digits s → drop_zeros s ≠ EmptyString →
  10 ^ (str_len (drop_zeros s) - 1) <= digits_val s.
Proof.
  induction s as [|a s IH]; cbn [drop_zeros str_forallb]; [done|].
  intros [Ha Hs]%andb_true_iff. case_bool_decide as E.
  - intros Hne. rewrite digits_val_cons. subst.
    change (digit_val (byte_of 48)) with 0. rewrite Z.mul_0_l, Z.add_0_l. by apply IH.
  - intros _. rewrite digits_val_cons. cbn [String.length].
    rewrite Nat2Z.inj_succ. replace (Z.succ _ - 1) with (str_len s) by lia.
    pose proof (digits_val_bound s Hs). pose proof (is_digit_bound a Ha).
    assert (digit_val a ≠ 0).
    { intros Hz. apply E. unfold digit_val in Hz. unfold byte_of.
      rewrite <-(Ascii.ascii_nat_embedding a). f_equal. lia. }
    nia.
Qed.

Lemma drop_zeros_empty s : all_digits s → drop_zeros s = EmptyString ↔ digits_val s = 0.
Proof.
  intros Hs. split; intros H.
  - by rewrite <-drop_zeros_val, H.
  - destruct (decide (drop_zeros s = EmptyString)) as [|Hne]; [done|].
    pose proof (drop_zeros_low s Hs Hne) as Hlow. destruct (drop_zeros s) as [|b r]; [done|].
    cbn [String.length] in Hlow. rewrite Nat2Z.inj_succ in Hlow.
    assert (0 < 10 ^ (Z.succ (str_len r) - 1)) by (apply Z.pow_pos_nonneg; lia). lia.
Qed.

Lemma show_nonneg_val n : 0 <= n → digits_val (show_nonneg n) = n.
Proof.
  intros Hn. unfold show_nonneg.
  assert (n < 10 ^ Z.of_nat (S (Z.to_nat (Z.log2 n)))) as Hlt.
  { destruct (Z.eq_dec n 0) as [->|]; [reflexivity|].
    rewrite Nat2Z.inj_succ, Z2Nat.id by apply Z.log2_nonneg.
    pose proof (Z.log2_spec n ltac:(lia)).
    pose proof (Z.pow_le_mono_l 2 10 (Z.succ (Z.log2 n)) ltac:(lia)). lia. }
  assert (digits_val (drop_zeros (digits_fixed (S (Z.to_nat (Z.log2 n))) n)) = n) as Hv.
  { by rewrite drop_zeros_val, digits_fixed_val, Z.mod_small. }
  destruct (drop_zeros _) eqn:E; [|done]. exact Hv.
Qed.

Lemma show_nonneg_digits n : all_digits (show_nonneg n).
Proof.
  unfold show_nonneg.
  pose proof (drop_zeros_digits _ (digits_fixed_digits (S (Z.to_nat (Z.log2 n))) n)) as H.
  by destruct (drop_zeros _).
Qed.

Lemma show_nonneg_nonempty n : show_nonneg n ≠ EmptyString.
Proof. unfold show_nonneg. by destruct (drop_zeros _). Qed.

(** ** Lemmas: the shape of a valid literal *)

Definition point_part (l : literal) : string :=
  if lit_point l then "." +:+ lit_frac l else EmptyString.

(** [s] is the unsigned spelling of [l]. *)
Definition spells (l : literal) (s : string) : Prop :=
  all_digits (lit_int l) ∧ all_digits (lit_frac l) ∧
  (lit_point l = false → lit_frac l = EmptyString) ∧
  ∃ tail, s = lit_int l +:+ point_part l +:+ tail ∧
    match lit_exp l with
    | None => tail = EmptyString
    | Some e => ∃ a, exp_mark a = true ∧ tail = String a e
    end.

Lemma span_digits_spec s : ∀ d r, span_digits s = (d, r) →
  s = (d +:+ r)%string ∧ all_digits d ∧
  match r with EmptyString => True | String a _ => is_digit a = false end.
Proof.
  induction s as [|a s IH]; cbn [span_digits]; intros d r E; [by simplify_eq|].
  destruct (is_digit a) eqn:Ha.
  - destruct (span_digits s) as [d' r'] eqn:Es. simplify_eq.
    destruct (IH _ _ eq_refl) as (-> & Hd & Hr). cbn [str_forallb].
    by rewrite Ha, Hd, str_app_cons.
  - simplify_eq. done.
Qed.

Lemma scan_exponent_spec s e : scan_exponent s = Some e →
  match e with
  | None => s = EmptyString
  | Some x => ∃ a, exp_mark a = true ∧ s = String a x
  end.
Proof.
  destruct s as [|a r]; cbn [scan_exponent]; [by intros [= <-]|].
  destruct (exp_mark a) eqn:Ea; [|done].
  destruct (_ && _); [|done]. intros [= <-]. eauto.
Qed.

Lemma scan_unsigned_spells neg s l :
  scan_unsigned neg s = Some l → spells l s ∧ lit_neg l = neg.
Proof.
  unfold scan_unsigned. destruct (span_digits s) as [i r] eqn:Ei.
  apply span_digits_spec in Ei as (-> & Hi & Hr). intros H.
  destruct r as [|a r'].
  { simplify_eq. unfold spells, point_part. cbn. naive_solver. }
  case_bool_decide as Ea.
  - subst a. destruct (span_digits r') as [f r''] eqn:Ef.
    apply span_digits_spec in Ef as (-> & Hf & _).
    apply bind_Some in H as (e & He & [= <-]). apply scan_exponent_spec in He.
    unfold spells, point_part. cbn. split; [|done]. repeat split; [done..|].
    exists r''. autorewrite with gw_str. split; [done|exact He].
  - apply bind_Some in H as (e & He & [= <-]). apply scan_exponent_spec in He.
    unfold spells, point_part. cbn. split; [|done]. repeat split; [done..|].
    exists (String a r'). split; [done|exact He].
Qed.

(** A valid decimal, read: its sign, its spelling and its value. *)
Record reads (raw : string) (l : literal) : Prop := {
  reads_shape : ∃ body, spells l body ∧
    raw = ((if lit_neg l then "-" else "") +:+ body)%string;
  reads_int : lit_int l ≠ EmptyString;
  reads_value : rat_set_string raw = rat_of_literal l
}.

Lemma is_digit_not_sign a : is_digit a = true → sign_mark a = false ∧ exp_mark a = false
  ∧ a ≠ byte_of 46.
Proof.
  intros Ha. unfold sign_mark, exp_mark. rewrite !orb_false_iff, !bool_decide_eq_false.
  repeat split; intros ->; discriminate Ha.
Qed.

Lemma decimalPattern_reads raw l : decimalPattern raw = Some l → reads raw l.
Proof.
  unfold decimalPattern. destruct raw as [|a r]; [done|].
  intros (l' & Hl & Hif)%bind_Some.
  destruct (integer_part_ok (lit_int l')) eqn:Hi; [|done].
  destruct (negb (lit_point l') || _); [|done]. simplify_eq/=.
  assert (lit_int l ≠ EmptyString) as Hne by (intros E; by rewrite E in Hi).
  destruct (bool_decide (a = byte_of 45)) eqn:Ea.
  - pose proof Hl as (Hs & Hn)%scan_unsigned_spells.
    split; [|done|]; [|by unfold rat_set_string; rewrite Ea, Hl]. exists r. split; [done|]. rewrite Hn.
    apply bool_decide_eq_true in Ea as ->. done.
  - pose proof Hl as (Hs & Hn)%scan_unsigned_spells. split; [|done|].
    + exists (String a r). split; [done|]. by rewrite Hn.
    + unfold rat_set_string. rewrite Ea.
      destruct (bool_decide (a = byte_of 43)) eqn:Ep; [|by rewrite Hl].
      destruct Hs as (Hid & _ & _ & tail & Heq & _). exfalso.
      destruct (lit_int l) as [|b i]; [done|]. autorewrite with gw_str in Heq.
      injection Heq as -> _. cbn in Hid. apply andb_true_iff in Hid as [Hb _].
      apply bool_decide_eq_true in Ep. subst. discriminate Hb.
Qed.

Lemma Decimal_Valid_reads d :
  Decimal_Valid d = true → ∃ l, decimalPattern (trim_space d) = Some l ∧ reads (trim_space d) l.
Proof.
  unfold Decimal_Valid. destruct (String.eqb _ _); [done|].
  destruct (decimalPattern _) as [l|] eqn:E; [|done].
  intros _. exists l. split; [done|]. by apply decimalPattern_reads.
Qed.

Lemma Decimal_Sign_inv d s : Decimal_Sign d = Some s →
  ∃ l q, reads (trim_space d) l ∧ rat_of_literal l = Some q ∧
         rat_set_string (trim_space d) = Some q ∧ rat_sign q = s.
Proof.
  unfold Decimal_Sign. destruct (Decimal_Valid d) eqn:Hv; cbn [negb]; [|done].
  intros (q & Hq & [= <-])%bind_Some.
  destruct (Decimal_Valid_reads d Hv) as (l & _ & Hr).
  exists l, q. split_and!; [done| |done..]. by rewrite <-(reads_value _ _ Hr).
Qed.
