(* ===== verification/Money.v ===== *)
(** * Money guards

    internal/control/billing.go: what a NUMERIC(38,12) money column can store,
    decided on the spelling of a [Decimal] ([moneyPlaces],
    [moneyIntegerDigits], [checkMoney]) and the sign discipline of wallet
    movements ([checkMovementKind]).  The theorems say the guards are exact:
    what passes is stored without rounding or overflow, and the digit count is
    the magnitude of the value. *)

From S2P Require Import Prelude Decimal.
From Stdlib Require Import QArith Qabs.

Open Scope Z_scope.

Inductive money_error :=
| NotDecimal (column : string) (amount : Decimal)
| TooManyPlaces (column : string) (places : Z) (amount : Decimal)
| TooManyDigits (column : string) (digits : Z) (amount : Decimal)
| TopupNotPositive (amount : Decimal)
| DebitNotNegative (amount : Decimal)
| AdjustmentZero
| UnsupportedKind (kind : string).

Definition moneyScale : Z := 12.
Definition moneyPrecision : Z := 38.

Definition moneyPlaces (amount : Decimal) : Z :=
  let '(raw, e) := cut_exponent (trim_space amount) in
  let exponent := exponent_of e in
  let places := match index_byte (byte_of 46) raw with
                | Some dot => str_len raw - Z.of_nat dot - 1
                | None => 0
                end in
  let places := wrap64 (places - exponent) in
  if 0 <? places then places else 0.

(** [strings.TrimLeft(raw, "+-")]. *)
Fixpoint trim_signs (raw : string) : string :=
  match raw with
  | String a r => if sign_mark a then trim_signs r else raw
  | EmptyString => EmptyString
  end.

Definition moneyIntegerDigits (amount : Decimal) : Z :=
  let raw := trim_signs (trim_space amount) in
  let '(raw, e) := cut_exponent raw in
  let exponent := exponent_of e in
  let '(integer, fraction) := match index_byte (byte_of 46) raw with
    | Some dot => (str_take dot raw, str_drop (S dot) raw)
    | None => (raw, EmptyString)
    end in
  let all := integer +:+ fraction in
  let significant := drop_zeros all in
  if String.eqb significant EmptyString then 0 else
  let digits := wrap64 (str_len integer + exponent - (str_len all - str_len significant)) in
  if 0 <? digits then digits else 0.

Definition checkMoney (column : string) (amount : Decimal) : result money_error unit :=
  if negb (Decimal_Valid amount) then Err (NotDecimal column amount)
  else if moneyScale <? moneyPlaces amount then
    Err (TooManyPlaces column (moneyPlaces amount) amount)
  else if moneyPrecision - moneyScale <? moneyIntegerDigits amount then
    Err (TooManyDigits column (moneyIntegerDigits amount) amount)
  else Ok tt.

Definition checkMovementKind (kind : string) (amount : Decimal) : result money_error unit :=
  match Decimal_Sign amount with
  | None => Err (NotDecimal "amount" amount)
  | Some sign =>
      if bool_decide (kind = "topup") then
        if sign <=? 0 then Err (TopupNotPositive amount) else Ok tt
      else if bool_decide (kind = "debit") then
        if 0 <=? sign then Err (DebitNotNegative amount) else Ok tt
      else if bool_decide (kind = "adjustment") then
        if sign =? 0 then Err AdjustmentZero else Ok tt
      else Err (UnsupportedKind kind)
  end.

(** The A20 and A30 cases quoted in the source. *)
Example integer_digits_cases :
  List.map moneyIntegerDigits ["1.5e3"; "0.001e28"; "1e30"; "0e30"; "0.05"] = [4; 26; 31; 0; 0].
Proof. vm_compute. reflexivity. Qed.
Example places_cases : List.map moneyPlaces ["1.5e-3"; "1.50"; "15e1"] = [4; 2; 0].
Proof. vm_compute. reflexivity. Qed.

(** ** Reading the guards off the literal *)

Definition no_exp (s : string) : bool := str_forallb (λ a, negb (exp_mark a)) s.

Lemma cut_exponent_app pre tail :
  no_exp pre = true →
  cut_exponent (pre +:+ tail) = (pre +:+ (cut_exponent tail).1, (cut_exponent tail).2)%string.
Proof.
  unfold no_exp. induction pre as [|a pre IH]; autorewrite with gw_str; cbn.
  { by destruct (cut_exponent tail). }
  intros [Ha Hp]%andb_true_iff. apply negb_true_iff in Ha. rewrite Ha, IH by done. done.
Qed.

Lemma digits_no_exp s : all_digits s → no_exp s = true.
Proof.
  unfold no_exp. induction s as [|a s IH]; cbn; [done|].
  intros [Ha Hs]%andb_true_iff. destruct (is_digit_not_sign a Ha) as (_ & -> & _).
  by rewrite IH.
Qed.

Lemma index_byte_digits s tail :
  all_digits s →
  index_byte (byte_of 46) (s +:+ tail) =
  (λ n, (String.length s + n)%nat) <$> index_byte (byte_of 46) tail.
Proof.
  induction s as [|a s IH]; autorewrite with gw_str; cbn.
  { by destruct (index_byte _ tail). }
  intros [Ha Hs]%andb_true_iff. destruct (is_digit_not_sign a Ha) as (_ & _ & Hne).
  rewrite bool_decide_eq_false_2 by done. rewrite IH by done.
  by destruct (index_byte _ tail).
Qed.

Lemma str_take_app a b : str_take (String.length a) (a +:+ b) = a.
Proof. induction a; autorewrite with gw_str; cbn; [by destruct b|congruence]. Qed.
Lemma str_drop_app a b : str_drop (String.length a) (a +:+ b) = b.
Proof. induction a; autorewrite with gw_str; cbn; done. Qed.

Section reading.
  Context (raw : string) (l : literal) (Hr : reads raw l).

Abbreviation sign_part := (if lit_neg l then "-" else "")%string.

Lemma reads_spells : ∃ body, spells l body ∧ raw = (sign_part +:+ body)%string.
  Proof. apply reads_shape, Hr. Qed.

Lemma reads_digits : all_digits (lit_int l +:+ lit_frac l).
  Proof.
    destruct reads_spells as (body & (Hi & Hf & _) & _). by rewrite str_forallb_app, Hi, Hf.
  Qed.

Lemma body_cut body : spells l body →
    cut_exponent body = (lit_int l +:+ point_part l, lit_exp l)%string.
  Proof.
    intros (Hi & Hf & _ & tail & -> & Ht).
    rewrite cut_exponent_app by (by apply digits_no_exp).
    rewrite cut_exponent_app.
    - destruct (lit_exp l) as [e|].
      + destruct Ht as (a & Ha & ->). cbn. rewrite Ha. cbn. by rewrite !str_app_nil_r.
      + subst tail. cbn. by rewrite !str_app_nil_r.
    - unfold point_part. destruct (lit_point l); [|done]. autorewrite with gw_str.
      cbn. by apply digits_no_exp.
  Qed.

Lemma reads_cut :
    cut_exponent raw = (sign_part +:+ lit_int l +:+ point_part l, lit_exp l)%string.
  Proof.
    destruct reads_spells as (body & Hs & ->).
    rewrite cut_exponent_app by (by destruct (lit_neg l)). by rewrite (body_cut _ Hs).
  Qed.

Lemma reads_trim_signs : ∃ body, spells l body ∧ trim_signs raw = body.
  Proof.
    destruct reads_spells as (body & Hs & Hraw). exists body. split; [done|].
    assert (trim_signs body = body) as Hb.
    { destruct Hs as (Hi & _ & _ & tail & -> & _).
      destruct (lit_int l) as [|a i] eqn:E; [by destruct (reads_int _ _ Hr)|].
      autorewrite with gw_str. cbn. cbn in Hi. apply andb_true_iff in Hi as [Ha _].
      by destruct (is_digit_not_sign a Ha) as (-> & _). }
    rewrite Hraw. destruct (lit_neg l); autorewrite with gw_str; [|done]. cbn. exact Hb.
  Qed.

Lemma point_index pre :
    index_byte (byte_of 46) (lit_int l +:+ point_part l) =
    (if lit_point l then Some (String.length (lit_int l)) else None) ∧
    (pre = ""%string ∨ pre = "-"%string →
     index_byte (byte_of 46) (pre +:+ lit_int l +:+ point_part l) =
     if lit_point l then Some (String.length pre + String.length (lit_int l))%nat else None).
  Proof.
    destruct reads_spells as (body & (Hi & _) & _).
    assert (index_byte (byte_of 46) (lit_int l +:+ point_part l) =
      if lit_point l then Some (String.length (lit_int l)) else None) as Hx.
    { rewrite index_byte_digits by done. unfold point_part.
      destruct (lit_point l); [|done]. autorewrite with gw_str.
      change (Some (String.length (lit_int l) + 0)%nat = Some (String.length (lit_int l))).
      by rewrite Nat.add_0_r. }
    split; [exact Hx|]. intros [-> | ->]; [exact Hx|].
    autorewrite with gw_str. cbn [index_byte]. rewrite bool_decide_eq_false_2 by done.
    rewrite Hx. by destruct (lit_point l).
  Qed.

Lemma frac_length : lit_point l = false → lit_frac l = EmptyString.
  Proof. destruct reads_spells as (body & (_ & _ & Hp & _) & _). exact Hp. Qed.

End reading.

Lemma moneyPlaces_reads amount l :
  reads (trim_space amount) l →
  moneyPlaces amount = Z.max 0 (wrap64 (str_len (lit_frac l) - exponent_of (lit_exp l))).
Proof.
  intros Hr. unfold moneyPlaces. rewrite (reads_cut _ _ Hr).
  destruct (point_index _ _ Hr (if lit_neg l then "-" else "")) as [_ Hx].
  rewrite Hx by (destruct (lit_neg l); auto).
  pose proof (frac_length _ _ Hr). unfold point_part.
  destruct (lit_point l).
  - rewrite !str_length_app. autorewrite with gw_str. cbn [String.length].
    replace (Z.of_nat _ - Z.of_nat _ - 1) with (str_len (lit_frac l)) by lia.
    destruct (Z.ltb_spec 0 (wrap64 (str_len (lit_frac l) - exponent_of (lit_exp l)))); lia.
  - rewrite H by done. cbn [String.length].
    destruct (Z.ltb_spec 0 (wrap64 (0 - exponent_of (lit_exp l))));
      change (Z.of_nat 0) with 0; lia.
Qed.

Definition literal_significant (l : literal) : string := drop_zeros (lit_int l +:+ lit_frac l).

Lemma moneyIntegerDigits_reads amount l :
  reads (trim_space amount) l →
  moneyIntegerDigits amount =
    if String.eqb (literal_significant l) EmptyString then 0 else
    Z.max 0 (wrap64 (exponent_of (lit_exp l) - str_len (lit_frac l)
                     + str_len (literal_significant l))).
Proof.
  intros Hr. unfold moneyIntegerDigits, literal_significant.
  destruct (reads_trim_signs _ _ Hr) as (body & Hs & ->).
  rewrite (body_cut _ _ Hs). destruct (point_index _ _ Hr "") as [-> _].
  pose proof (frac_length _ _ Hr) as Hf. unfold point_part.
  destruct (lit_point l).
  - rewrite str_take_app. replace (S (String.length (lit_int l))) with
      (String.length (lit_int l +:+ ".")) by (rewrite str_length_app; cbn; lia).
    replace (lit_int l +:+ "." +:+ lit_frac l)%string with
      ((lit_int l +:+ ".") +:+ lit_frac l)%string by apply str_app_assoc.
    rewrite str_drop_app, str_length_app.
    destruct (String.eqb _ _); [done|].
    replace (_ - (_ - _)) with (exponent_of (lit_exp l) - str_len (lit_frac l)
      + str_len (drop_zeros (lit_int l +:+ lit_frac l))) by lia.
    destruct (Z.ltb_spec 0 (wrap64 (exponent_of (lit_exp l) - str_len (lit_frac l)
      + str_len (drop_zeros (lit_int l +:+ lit_frac l))))); lia.
  - rewrite Hf, !str_app_nil_r by done.
    destruct (String.eqb _ _); [done|]. cbn [String.length].
    replace (_ - (_ - _)) with (exponent_of (lit_exp l) - Z.of_nat 0
      + str_len (drop_zeros (lit_int l))) by lia.
    destruct (Z.ltb_spec 0 (wrap64 (exponent_of (lit_exp l) - Z.of_nat 0
      + str_len (drop_zeros (lit_int l))))); lia.
Qed.

(** ** The value behind a spelling *)

(** Every Go string fits in memory; 2^62 is far above any allocation. *)
Definition go_string (s : string) : Prop := str_len s < 2 ^ 62.

Lemma rat_of_literal_inv l q :
  rat_of_literal l = Some q →
  let e := exponent_of (lit_exp l) - str_len (lit_frac l) in
  (digits_val (lit_int l +:+ lit_frac l) = 0 ∧ q = inject_Z 0) ∨
  (digits_val (lit_int l +:+ lit_frac l) ≠ 0 ∧ Z.abs e <= max_rat_exponent ∧
   q = rat_of (literal_mantissa l) e).
Proof.
  unfold rat_of_literal. destruct (String.eqb _ _); [done|].
  set (xo := match lit_exp l with Some e => parse_int e | None => _ end).
  assert (xo.1 = exponent_of (lit_exp l)) as Hx by (subst xo; by destruct (lit_exp l)).
  destruct xo as [x ok]. cbn in Hx. subst x. destruct ok; cbn [negb]; [|done].
  intros H. cbn zeta. unfold literal_mantissa in *.
  destruct (lit_neg l); case_match eqn:Em; simplify_eq; breflect.
  all: try (left; split; [lia|done]).
  all: case_match; simplify_eq; breflect; right; split; [lia|done].
Qed.

Lemma reads_length raw l : reads raw l → str_len (lit_int l +:+ lit_frac l) <= str_len raw.
Proof.
  intros [(body & (_ & _ & Hp & tail & -> & _) & ->) _ _].
  rewrite !str_length_app. unfold point_part.
  destruct (lit_point l); [autorewrite with gw_str; cbn [String.length]; lia|].
  rewrite Hp by done. cbn [String.length]. lia.
Qed.

(** A number written with [n] significant digits is below 10^k exactly when
    it has at most k of them. *)
Lemma digits_magnitude m n k :
  1 <= n → 10 ^ (n - 1) <= m < 10 ^ n → m < 10 ^ k ↔ n <= k.
Proof.
  intros Hn Hm. split.
  - intros Hk. destruct (Z.le_gt_cases n k) as [|Hgt]; [done|].
    destruct (Z.le_gt_cases 0 k).
    + pose proof (Z.pow_le_mono_r 10 k (n - 1) ltac:(lia) ltac:(lia)). lia.
    + rewrite Z.pow_neg_r in Hk by lia. pose proof (Z.pow_pos_nonneg 10 (n - 1)). lia.
  - intros Hk. pose proof (Z.pow_le_mono_r 10 n k ltac:(lia) ltac:(lia)). lia.
Qed.

Lemma Qlt_abs_inject q b : (Qabs q < inject_Z b)%Q ↔ Z.abs (Qnum q) < b * QDen q.
Proof. destruct q as [a d]. unfold Qabs, Qlt, inject_Z. cbn. lia. Qed.

Lemma rat_of_below m e n k :
  1 <= n → 0 <= k → 10 ^ (n - 1) <= Z.abs m < 10 ^ n →
  (Qabs (rat_of m e) < inject_Z (10 ^ k))%Q ↔ n + e <= k.
Proof.
  intros Hn Hk Hm. rewrite Qlt_abs_inject. unfold rat_of.
  destruct (Z.leb_spec 0 e) as [He|He]; cbn [Qnum Qden inject_Z].
  - rewrite Z.mul_1_r, Z.abs_mul, (Z.abs_eq (10 ^ e)) by (apply Z.pow_nonneg; lia).
    pose proof (Z.pow_pos_nonneg 10 e ltac:(lia) He).
    destruct (Z.le_gt_cases e k) as [Hek|Hek].
    + replace (10 ^ k) with (10 ^ (k - e) * 10 ^ e)
        by (rewrite <-Z.pow_add_r by lia; f_equal; lia).
      rewrite <-Z.mul_lt_mono_pos_r by done.
      rewrite (digits_magnitude (Z.abs m) n) by done. lia.
    + pose proof (Z.pow_le_mono_r 10 k e ltac:(lia) ltac:(lia)).
      pose proof (Z.pow_pos_nonneg 10 (n - 1) ltac:(lia) ltac:(lia)). nia.
  - rewrite Z2Pos.id by (apply Z.pow_pos_nonneg; lia).
    rewrite <-Z.pow_add_r by lia.
    rewrite (digits_magnitude (Z.abs m) n) by done. lia.
Qed.

Lemma literal_significant_spec l :
  all_digits (lit_int l +:+ lit_frac l) →
  let n := str_len (literal_significant l) in
  if String.eqb (literal_significant l) EmptyString
  then digits_val (lit_int l +:+ lit_frac l) = 0
  else 1 <= n ∧ 10 ^ (n - 1) <= digits_val (lit_int l +:+ lit_frac l) < 10 ^ n.
Proof.
  intros Hd. unfold literal_significant. cbn zeta.
  pose proof (drop_zeros_digits _ Hd) as Hsd.
  destruct (String.eqb_spec (drop_zeros (lit_int l +:+ lit_frac l)) EmptyString) as [E|E].
  - by apply drop_zeros_empty.
  - split.
    + destruct (drop_zeros _); [done|]. cbn [String.length]. lia.
    + split; [by apply drop_zeros_low|]. rewrite <-drop_zeros_val. by apply digits_val_bound.
Qed.

Lemma literal_mantissa_abs l :
  all_digits (lit_int l +:+ lit_frac l) →
  Z.abs (literal_mantissa l) = digits_val (lit_int l +:+ lit_frac l).
Proof.
  intros Hd. pose proof (digits_val_bound _ Hd). unfold literal_mantissa.
  destruct (lit_neg l); lia.
Qed.

Lemma literal_significant_length l :
  str_len (literal_significant l) <= str_len (lit_int l +:+ lit_frac l).
Proof. unfold literal_significant. pose proof (drop_zeros_length (lit_int l +:+ lit_frac l)). lia. Qed.

(** The digit count of a decimal with a value is the magnitude of the value. *)
Lemma integer_digits_below amount l q k :
  go_string amount → 0 <= k →
  reads (trim_space amount) l → rat_of_literal l = Some q →
  moneyIntegerDigits amount <= k ↔ (Qabs q < inject_Z (10 ^ k))%Q.
Proof.
  intros Hlen Hk Hr Hq.
  pose proof (reads_digits _ _ Hr) as Hd.
  pose proof (reads_length _ _ Hr). pose proof (trim_space_length amount).
  pose proof (literal_significant_length l). unfold go_string in Hlen.
  rewrite (moneyIntegerDigits_reads _ _ Hr).
  pose proof (literal_significant_spec l Hd) as Hs. cbn zeta in Hs.
  destruct (rat_of_literal_inv _ _ Hq) as [[Hz ->]|(Hnz & He & ->)].
  - destruct (String.eqb _ _).
    + rewrite Qlt_abs_inject. cbn [Qnum Qden inject_Z Z.abs].
      pose proof (Z.pow_pos_nonneg 10 k). lia.
    + destruct Hs as (Hn & Hlow & _). rewrite Hz in Hlow.
      pose proof (Z.pow_pos_nonneg 10 (str_len (literal_significant l) - 1)). lia.
  - destruct (String.eqb _ _); [lia|]. destruct Hs as (Hn & Hm).
    rewrite <-(literal_mantissa_abs l Hd) in Hm.
    rewrite (rat_of_below _ _ _ _ Hn Hk Hm).
    unfold max_rat_exponent in He. rewrite wrap64_id; [lia|].
    unfold in_int64, min_int64, max_int64. lia.
Qed.

(** With at most 12 places the value is a whole number of 10^-12 units. *)
Lemma places_scaled amount l q k :
  0 <= k → reads (trim_space amount) l → rat_of_literal l = Some q →
  moneyPlaces amount <= k → ∃ z, (q == z # Z.to_pos (10 ^ k))%Q.
Proof.
  intros Hk Hr Hq Hp. rewrite (moneyPlaces_reads _ _ Hr) in Hp.
  pose proof (Z.pow_pos_nonneg 10 k ltac:(lia) Hk).
  destruct (rat_of_literal_inv _ _ Hq) as [[Hz ->]|(Hnz & He & ->)].
  { exists 0. unfold Qeq. cbn. lia. }
  unfold max_rat_exponent in He.
  set (e := exponent_of (lit_exp l) - str_len (lit_frac l)) in *.
  replace (str_len (lit_frac l) - exponent_of (lit_exp l)) with (- e) in Hp by lia.
  rewrite wrap64_id in Hp by (unfold in_int64, min_int64, max_int64; lia).
  exists (literal_mantissa l * 10 ^ (k + e)). unfold rat_of.
  destruct (Z.leb_spec 0 e); unfold Qeq; cbn [Qnum Qden inject_Z].
  - rewrite Z2Pos.id by done. rewrite Z.pow_add_r by lia. lia.
  - rewrite !Z2Pos.id by (apply Z.pow_pos_nonneg; lia).
    rewrite <-Z.mul_assoc, <-Z.pow_add_r by lia. f_equal. f_equal. lia.
Qed.

(** Places and digits together: the value is a storable number of units. *)
Lemma checkMoney_units column amount s :
  go_string amount →
  checkMoney column amount = Ok tt →
  Decimal_Sign amount = Some s →
  ∃ q z, rat_set_string (trim_space amount) = Some q ∧
         (q == z # 10 ^ 12)%Q ∧ Z.abs z < 10 ^ moneyPrecision ∧ Z.sgn z = s.
Proof.
  intros Hlen Hc Hs. destruct (Decimal_Sign_inv _ _ Hs) as (l & q & Hr & Hq & Hv & Hsg).
  unfold checkMoney in Hc. destruct (negb _); [done|].
  destruct (Z.ltb_spec moneyScale (moneyPlaces amount)); [done|].
  destruct (Z.ltb_spec (moneyPrecision - moneyScale) (moneyIntegerDigits amount)) as [|Hd]; [done|].
  apply (integer_digits_below amount l q (moneyPrecision - moneyScale) Hlen) in Hd; [|done..].
  destruct (places_scaled amount l q moneyScale) as [z Hz]; [done..|].
  exists q, z. split_and!; [done|exact Hz| |].
  - rewrite Hz in Hd. apply Qlt_abs_inject in Hd. revert Hd. cbn [Qnum Qden].
    change (QDen (z # _)) with (10 ^ 12). unfold moneyPrecision, moneyScale. lia.
  - rewrite <-Hsg. unfold rat_sign. unfold Qeq in Hz. cbn [Qnum Qden] in Hz.
    change (Z.pos (Z.to_pos (10 ^ moneyScale))) with (10 ^ 12) in Hz.
    destruct q as [a d]. cbn [Qnum Qden] in *. nia.
Qed.

(** ** The properties *)

(** C34 What passes [checkMoney] and has a sign (the two guards every caller
    applies) is stored exactly by a NUMERIC(38,12) column: it is a whole number
    of 10^-12 units below 10^38, so neither rounding nor "numeric field
    overflow" can happen, and the sign reported is the sign of the value. *)
Theorem checkMoney_storable column amount s :
  go_string amount →
  checkMoney column amount = Ok tt →
  Decimal_Sign amount = Some s →
  ∃ q z, rat_set_string (trim_space amount) = Some q ∧
         (q == z # 10 ^ 12)%Q ∧ Z.abs z < 10 ^ moneyPrecision ∧ Z.sgn z = s.
Proof. apply checkMoney_units. Qed.

Lemma checkMoney_storable_witness :
  ∃ q z, rat_set_string (trim_space "-0.001e28") = Some q ∧
         (q == z # 10 ^ 12)%Q ∧ Z.abs z < 10 ^ moneyPrecision ∧ Z.sgn z = -1.
Proof.
  apply (checkMoney_storable "amount" "-0.001e28" (-1)).
  - reflexivity.
  - vm_compute. reflexivity.
  - vm_compute. reflexivity.
Defined.

(** [moneyIntegerDigits] is exact (A30): for every decimal with a value,
    whatever its exponent or leading zeros, it is at most [k] exactly when the
    value is below 10^k in magnitude. *)
Lemma moneyIntegerDigits_exact amount s q k :
  go_string amount → 0 <= k →
  Decimal_Sign amount = Some s → rat_set_string (trim_space amount) = Some q →
  moneyIntegerDigits amount <= k ↔ (Qabs q < inject_Z (10 ^ k))%Q.
Proof.
  intros Hlen Hk Hs Hq. destruct (Decimal_Sign_inv _ _ Hs) as (l & q' & Hr & Hq' & Hv & _).
  simplify_eq. by apply (integer_digits_below _ _ _ _ Hlen Hk Hr Hq').
Qed.

Example moneyIntegerDigits_padded :
  moneyIntegerDigits "0.001e28" <= 26 ↔ (Qabs (inject_Z (10 ^ 25)) < inject_Z (10 ^ 26))%Q.
Proof.
  apply (moneyIntegerDigits_exact "0.001e28" 1 (inject_Z (10 ^ 25)) 26); [reflexivity|lia|..].
  - vm_compute. reflexivity.
  - vm_compute. reflexivity.
Qed.
