(* ===== verification/Contracts.v ===== *)
(** * Contracts shared by the gateway and control

    pkg/contracts: the data that crosses process boundaries (accounts, leases,
    releases, attempts, wrapper jobs) with its constants and validation. *)

From S2P Require Import Prelude Sha256 Decimal.

Open Scope Z_scope.

Definition SchemaVersion : Z := 1.
Definition UsageSourceUpstream : string := "upstream".
Definition UsageSourceEstimated : string := "estimated".
Definition UsageSourceMissing : string := "missing".
Definition DegradeFailClosed : string := "fail_closed".
Definition DegradeFailOpen : string := "fail_open".

(** ** Error classes *)

Abbreviation ErrorClass := string.
Definition ErrorOK : ErrorClass := "ok".
Definition ErrorAuthExpired : ErrorClass := "auth_expired".
Definition ErrorAuthInvalid : ErrorClass := "auth_invalid".
Definition ErrorForbiddenTransport : ErrorClass := "forbidden_transport".
Definition ErrorForbiddenCapability : ErrorClass := "forbidden_capability".
Definition ErrorRateLimitedKnown : ErrorClass := "rate_limited_known".
Definition ErrorRateLimitedUnknown : ErrorClass := "rate_limited_unknown".
Definition ErrorUpstream5xx : ErrorClass := "upstream_5xx".
Definition ErrorBlocked : ErrorClass := "blocked".
Definition ErrorNetwork : ErrorClass := "network_error".
Definition ErrorUsageMissing : ErrorClass := "usage_missing".

Definition ErrorClass_Valid (e : ErrorClass) : bool :=
  bool_decide (e ∈ [ErrorOK; ErrorAuthExpired; ErrorAuthInvalid;
    ErrorForbiddenTransport; ErrorForbiddenCapability; ErrorRateLimitedKnown;
    ErrorRateLimitedUnknown; ErrorUpstream5xx; ErrorBlocked; ErrorNetwork;
    ErrorUsageMissing]).

Abbreviation UsageIntegrity := string.
Definition UsageIntegrityFailover : UsageIntegrity := "failover".
Definition UsageIntegrityZero : UsageIntegrity := "zero".
Definition UsageIntegrityEstimated : UsageIntegrity := "estimated".

Definition UsageIntegrity_Valid (u : UsageIntegrity) : bool :=
  bool_decide (u ∈ [UsageIntegrityFailover; UsageIntegrityZero; UsageIntegrityEstimated]).

(** ** Accounts and leases *)

Record Criteria := MkCriteria {
  cr_Platform : string;
  cr_Model : string;
  cr_Group : string;
  cr_SessionKey : string
}.

Record Credential := MkCredential {
  cred_Kind : string;
  cred_AccessToken : string;
  cred_Proxy : string;
  cred_Metadata : gmap string string;
  cred_ExpiresAt : time;
  cred_Version : Z
}.

(** [tb_Metadata]: a nil map reads as an empty one. *)
Record TokenBundle := MkTokenBundle {
  tb_AccessToken : string;
  tb_RefreshToken : string;
  tb_IDToken : string;
  tb_ExpiresAt : time;
  tb_Scopes : list string;
  tb_AccountID : string;
  tb_Email : string;
  tb_Metadata : gmap string string
}.

Definition zeroTokenBundle : TokenBundle := MkTokenBundle "" "" "" 0 [] "" "" ∅.

Definition zeroCredential : Credential := MkCredential "" "" "" ∅ 0 0.

Record UpstreamProfile := MkProfile {
  prof_BaseURL : string;
  prof_Proxy : string;
  prof_Protocol : string;
  prof_InferencePath : string;
  prof_TLSFingerprint : string;
  prof_UserAgent : string;
  prof_ExtraHeaders : gmap string string;
  prof_Metadata : gmap string string;
  prof_WS : bool
}.

Definition zeroProfile : UpstreamProfile := MkProfile "" "" "" "" "" "" ∅ ∅ false.

Record AccountLimits := MkLimits {
  lim_MaxConcurrency : Z;
  lim_RPM : Z;
  lim_StickyTTL : Z;
  lim_DegradePolicy : string
}.

Definition WithDefaults (l : AccountLimits) : AccountLimits :=
  if bool_decide (lim_DegradePolicy l = "")
  then MkLimits (lim_MaxConcurrency l) (lim_RPM l) (lim_StickyTTL l) DegradeFailClosed
  else l.

Definition AccountLimits_Valid (l : AccountLimits) : bool :=
  let l := WithDefaults l in
  (0 <=? lim_MaxConcurrency l) && (0 <=? lim_RPM l) && (0 <=? lim_StickyTTL l) &&
  (bool_decide (lim_DegradePolicy l = DegradeFailClosed)
   || bool_decide (lim_DegradePolicy l = DegradeFailOpen)).

Record Lease := MkLease {
  ls_AccountID : string;
  ls_Provider : string;
  ls_Credential : Credential;
  ls_Profile : UpstreamProfile;
  ls_Limits : AccountLimits;
  ls_TTL : Z;
  ls_UsageIntegrity : UsageIntegrity
}.

Record QuotaPrecision := MkPrecision {
  qp_Used : option Decimal;
  qp_Limit : option Decimal;
  qp_Remaining : option Decimal;
  qp_OverageRate : option Decimal;
  qp_OverageCap : option Decimal;
  qp_Overages : option Decimal
}.

Record QuotaItem := MkQuotaItem {
  qi_Scope : string;
  qi_Model : string;
  qi_Unit : string;
  qi_Limit : option Z;
  qi_Remaining : option Z;
  qi_LimitExact : option Decimal;
  qi_RemainingExact : option Decimal;
  qi_RemainingFraction : option Decimal;
  qi_Precision : option QuotaPrecision;
  qi_ResetAt : option time
}.

(** [None] is a nil [Items]. *)
Definition QuotaInfo : Type := option (list QuotaItem).

Record ImportRequest := MkImportRequest {
  ir_SourceSystem : string;
  ir_SourceID : string;
  ir_Provider : string;
  ir_AuthMode : string;
  ir_StaticKey : string;
  ir_TokenBundle : option TokenBundle;
  ir_Metadata : gmap string string;
  ir_DryRun : bool
}.

Record Account := MkAccount {
  acc_ID : string;
  acc_Provider : string;
  acc_Platform : string;
  acc_Group : string;
  acc_Credential : Credential;
  acc_Profile : UpstreamProfile;
  acc_Limits : AccountLimits;
  acc_Status : string;
  acc_FenceEpoch : Z;
  acc_Quota : list QuotaItem;
  acc_Capabilities : list string;
  acc_ExcludedModels : list string;
  acc_UsageIntegrity : UsageIntegrity
}.

(** [account.Limits = account.Limits.WithDefaults()] on a copy. *)
Definition with_default_limits (a : Account) : Account :=
  MkAccount (acc_ID a) (acc_Provider a) (acc_Platform a) (acc_Group a) (acc_Credential a)
    (acc_Profile a) (WithDefaults (acc_Limits a)) (acc_Status a) (acc_FenceEpoch a)
    (acc_Quota a) (acc_Capabilities a) (acc_ExcludedModels a) (acc_UsageIntegrity a).

(** ** Events *)

Record Release := MkRelease {
  rel_SchemaVersion : Z;
  rel_EventID : string;
  rel_RequestID : string;
  rel_AttemptID : string;
  rel_AttemptNo : Z;
  rel_ProducerID : string;
  rel_OccurredAt : time;
  rel_AccountID : string;
  rel_Provider : string;
  rel_StatusCode : Z;
  rel_LatencyMS : Z;
  rel_TokensIn : Z;
  rel_TokensOut : Z;
  rel_CacheReadTokens : Z;
  rel_CacheWriteTokens : Z;
  rel_Model : string;
  rel_TenantID : string;
  rel_ErrorClass : ErrorClass;
  rel_UsageSource : string;
  rel_Partial : bool;
  rel_InboundProtocol : string
}.

Record AttemptStarted := MkAttemptStarted {
  as_SchemaVersion : Z;
  as_EventID : string;
  as_RequestID : string;
  as_AttemptID : string;
  as_AttemptNo : Z;
  as_ProducerID : string;
  as_OccurredAt : time;
  as_AccountID : string;
  as_Provider : string;
  as_Model : string;
  as_TenantID : string;
  as_DeadlineAt : time
}.

Definition EventTypeAttemptStarted : string := "attempt_started".
Definition EventTypeRelease : string := "release".

Record StreamEvent := MkStreamEvent {
  ev_EventType : string;
  ev_SchemaVersion : Z;
  ev_EventID : string;
  ev_RequestID : string;
  ev_AttemptID : string;
  ev_ProducerID : string;
  ev_OccurredAt : time;
  ev_Payload : string
}.

(** Every error below wraps Go's [ErrInvalidContract].  [MissingField] does not
    name the field: the source ranges over a map, so which of several missing
    fields is reported is not determined. *)
Inductive contract_error :=
| UnsupportedSchemaVersion (version : Z)
| MissingField
| UnknownEventType
| InvalidPayload
| MissingOccurredAt
| InvalidAttemptTiming
| TerminalEventIDNotDerived
| InvalidReleaseValues
| InvalidReleaseClassification
| IncompleteWrapperJob
| InvalidWrapperJobFence
| RefreshRequiresFence
| InvalidWrapperClaim
| InvalidWrapperLease
| InvalidWrapperCompletion
| InvalidWrapperFailure
| WrapperResultMismatch.

Definition supportedSchemaVersion (version : Z) : bool :=
  (0 <? version) && ((version =? SchemaVersion) || (Z.quot version 100 =? Z.quot SchemaVersion 100)).

Definition TerminalEventID (attemptID : string) : string := sha256_hex (attemptID +:+ ":terminal").

(** [valid] is json.Valid. *)
Definition StreamEvent_Validate (valid : string → bool) (e : StreamEvent) : result contract_error unit :=
  if negb (supportedSchemaVersion (ev_SchemaVersion e))
  then Err (UnsupportedSchemaVersion (ev_SchemaVersion e))
  else if negb (bool_decide (ev_EventType e = EventTypeAttemptStarted))
          && negb (bool_decide (ev_EventType e = EventTypeRelease))
  then Err UnknownEventType
  else if existsb blank [ev_EventID e; ev_RequestID e; ev_AttemptID e; ev_ProducerID e]
  then Err MissingField
  else if (str_len (ev_Payload e) =? 0) || negb (valid (ev_Payload e)) then Err InvalidPayload
  else if is_zero_time (ev_OccurredAt e) then Err MissingOccurredAt
  else Ok tt.

Definition AttemptStarted_Validate (a : AttemptStarted) : result contract_error unit :=
  if negb (supportedSchemaVersion (as_SchemaVersion a))
  then Err (UnsupportedSchemaVersion (as_SchemaVersion a))
  else if existsb blank [as_EventID a; as_RequestID a; as_AttemptID a; as_ProducerID a;
                         as_AccountID a; as_Provider a; as_Model a; as_TenantID a]
  then Err MissingField
  else if (as_AttemptNo a <=? 0) || is_zero_time (as_OccurredAt a)
          || negb (after (as_DeadlineAt a) (as_OccurredAt a))
  then Err InvalidAttemptTiming
  else Ok tt.

Definition Release_Validate (r : Release) : result contract_error unit :=
  if negb (supportedSchemaVersion (rel_SchemaVersion r))
  then Err (UnsupportedSchemaVersion (rel_SchemaVersion r))
  else if existsb blank [rel_EventID r; rel_RequestID r; rel_AttemptID r; rel_ProducerID r;
                         rel_AccountID r; rel_Provider r; rel_Model r; rel_TenantID r]
  then Err MissingField
  else if negb (bool_decide (rel_EventID r = TerminalEventID (rel_AttemptID r)))
  then Err TerminalEventIDNotDerived
  else if (rel_AttemptNo r <? 0) || is_zero_time (rel_OccurredAt r)
          || (rel_StatusCode r <? 0) || (rel_LatencyMS r <? 0)
          || (rel_TokensIn r <? 0) || (rel_TokensOut r <? 0)
          || (rel_CacheReadTokens r <? 0) || (rel_CacheWriteTokens r <? 0)
  then Err InvalidReleaseValues
  else if negb (ErrorClass_Valid (rel_ErrorClass r))
          || negb (bool_decide (rel_UsageSource r ∈
                     [UsageSourceUpstream; UsageSourceEstimated; UsageSourceMissing]))
  then Err InvalidReleaseClassification
  else Ok tt.

(** ** Wrapper jobs (pkg/contracts/wrapper.go) *)

Definition MaxWrapperEnvelopeBytes : Z := 2 ^ 20.
Abbreviation WrapperOperation := string.
Definition WrapperAuthorize : WrapperOperation := "authorize".
Definition WrapperRefresh : WrapperOperation := "refresh".

Definition WrapperOperation_Valid (o : WrapperOperation) : bool :=
  bool_decide (o = WrapperAuthorize) || bool_decide (o = WrapperRefresh).

Record WrapperJob := MkWrapperJob {
  wj_SchemaVersion : Z;
  wj_JobID : string;
  wj_Provider : string;
  wj_Operation : WrapperOperation;
  wj_AccountID : string;
  wj_FenceEpoch : Z;
  wj_EncryptedInput : string
}.

Record WrapperClaim := MkWrapperClaim {
  wc_SchemaVersion : Z;
  wc_WorkerID : string;
  wc_LeaseTTLSeconds : Z
}.

Record WrapperLease := MkWrapperLease {
  wl_SchemaVersion : Z;
  wl_JobID : string;
  wl_LeaseID : string;
  wl_WorkerID : string;
  wl_AccountID : string;
  wl_FenceEpoch : Z;
  wl_ExpiresAt : time
}.

Record WrapperCompletion := MkWrapperCompletion {
  wcp_SchemaVersion : Z;
  wcp_JobID : string;
  wcp_LeaseID : string;
  wcp_WorkerID : string;
  wcp_AccountID : string;
  wcp_FenceEpoch : Z;
  wcp_EncryptedOutput : string
}.

Record WrapperFailure := MkWrapperFailure {
  wf_SchemaVersion : Z;
  wf_JobID : string;
  wf_LeaseID : string;
  wf_WorkerID : string;
  wf_AccountID : string;
  wf_FenceEpoch : Z;
  wf_Code : string;
  wf_Retryable : bool
}.

Definition validFenceIdentity (accountID : string) (fenceEpoch : Z) : bool :=
  if blank accountID then fenceEpoch =? 0
  else (str_len accountID <=? 256) && (0 <? fenceEpoch).

Definition validWrapperID (value : string) : bool :=
  negb (blank value) && (str_len value <=? 256).

Definition validWrapperResult (schemaVersion : Z) (jobID leaseID workerID accountID : string)
    (fenceEpoch : Z) : bool :=
  supportedSchemaVersion schemaVersion && validWrapperID jobID && validWrapperID leaseID
  && validWrapperID workerID && validFenceIdentity accountID fenceEpoch.

Definition WrapperJob_Validate (j : WrapperJob) : result contract_error unit :=
  if negb (supportedSchemaVersion (wj_SchemaVersion j))
  then Err (UnsupportedSchemaVersion (wj_SchemaVersion j))
  else if negb (validWrapperID (wj_JobID j)) || blank (wj_Provider j)
          || (64 <? str_len (wj_Provider j)) || negb (WrapperOperation_Valid (wj_Operation j))
          || (str_len (wj_EncryptedInput j) =? 0)
          || (MaxWrapperEnvelopeBytes <? str_len (wj_EncryptedInput j))
  then Err IncompleteWrapperJob
  else if negb (validFenceIdentity (wj_AccountID j) (wj_FenceEpoch j))
  then Err InvalidWrapperJobFence
  else if bool_decide (wj_Operation j = WrapperRefresh)
          && (blank (wj_AccountID j) || (wj_FenceEpoch j <=? 0))
  then Err RefreshRequiresFence
  else Ok tt.

Definition WrapperClaim_Validate (c : WrapperClaim) : result contract_error unit :=
  if negb (supportedSchemaVersion (wc_SchemaVersion c)) || negb (validWrapperID (wc_WorkerID c))
     || (wc_LeaseTTLSeconds c <=? 0)
  then Err InvalidWrapperClaim else Ok tt.

Definition WrapperLease_Validate (l : WrapperLease) : result contract_error unit :=
  if negb (supportedSchemaVersion (wl_SchemaVersion l)) || negb (validWrapperID (wl_JobID l))
     || negb (validWrapperID (wl_LeaseID l)) || negb (validWrapperID (wl_WorkerID l))
     || is_zero_time (wl_ExpiresAt l)
     || negb (validFenceIdentity (wl_AccountID l) (wl_FenceEpoch l))
  then Err InvalidWrapperLease else Ok tt.

Definition WrapperCompletion_Validate (c : WrapperCompletion) : result contract_error unit :=
  if negb (validWrapperResult (wcp_SchemaVersion c) (wcp_JobID c) (wcp_LeaseID c)
             (wcp_WorkerID c) (wcp_AccountID c) (wcp_FenceEpoch c))
     || (str_len (wcp_EncryptedOutput c) =? 0)
     || (MaxWrapperEnvelopeBytes <? str_len (wcp_EncryptedOutput c))
  then Err InvalidWrapperCompletion else Ok tt.

Definition WrapperFailure_Validate (f : WrapperFailure) : result contract_error unit :=
  if negb (validWrapperResult (wf_SchemaVersion f) (wf_JobID f) (wf_LeaseID f)
             (wf_WorkerID f) (wf_AccountID f) (wf_FenceEpoch f))
     || blank (wf_Code f) || (128 <? str_len (wf_Code f))
  then Err InvalidWrapperFailure else Ok tt.

Definition validateWrapperLeaseResult (lease : WrapperLease)
    (jobID leaseID workerID accountID : string) (fenceEpoch : Z) : result contract_error unit :=
  _ ← WrapperLease_Validate lease;
  if negb (bool_decide (jobID = wl_JobID lease)) || negb (bool_decide (leaseID = wl_LeaseID lease))
     || negb (bool_decide (workerID = wl_WorkerID lease))
     || negb (bool_decide (accountID = wl_AccountID lease))
     || negb (fenceEpoch =? wl_FenceEpoch lease)
  then Err WrapperResultMismatch else Ok tt.

Definition WrapperCompletion_ValidateLease (c : WrapperCompletion) (lease : WrapperLease)
    : result contract_error unit :=
  _ ← WrapperCompletion_Validate c;
  validateWrapperLeaseResult lease (wcp_JobID c) (wcp_LeaseID c) (wcp_WorkerID c)
    (wcp_AccountID c) (wcp_FenceEpoch c).

Definition WrapperFailure_ValidateLease (f : WrapperFailure) (lease : WrapperLease)
    : result contract_error unit :=
  _ ← WrapperFailure_Validate f;
  validateWrapperLeaseResult lease (wf_JobID f) (wf_LeaseID f) (wf_WorkerID f)
    (wf_AccountID f) (wf_FenceEpoch f).

(** ** Lemmas *)

Lemma WithDefaults_policy l : lim_DegradePolicy (WithDefaults l) ≠ "".
Proof. unfold WithDefaults. by case_bool_decide. Qed.

Lemma WithDefaults_idem l : WithDefaults (WithDefaults l) = WithDefaults l.
Proof.
  pose proof (WithDefaults_policy l). unfold WithDefaults at 1.
  by rewrite bool_decide_eq_false_2.
Qed.

Lemma with_default_limits_ID a : acc_ID (with_default_limits a) = acc_ID a.
Proof. done. Qed.

#[export] Hint Rewrite WithDefaults_idem with_default_limits_ID : gw_str.
