(* ===== verification/GoFloat.v ===== *)
(** * float64, where the program lets one through

    [Duration.Seconds] and the console's token bucket compute in float64.  A
    float64 is represented by the rational it denotes; an operation is the
    exact operation followed by [f64], round-to-nearest-even to 53 significant
    bits.  The values met here (durations in seconds, token counts) stay in the
    normal range, so overflow and subnormals do not arise. *)

From S2P Require Import Prelude.
From Stdlib Require Import QArith Qabs.

Open Scope Z_scope.

(** The nearest integer to n/d, ties to even. *)
Definition round_half_even (n d : Z) : Z :=
  let q := n / d in
  let r := n mod d in
  if 2 * r <? d then q
  else if d <? 2 * r then q + 1
  else if Z.even q then q else q + 1.

(** The exponent that leaves 53 bits in front of the point. *)
Definition f64_exponent (n d : Z) : Z := Z.log2 n - Z.log2 d - 53.

Definition f64_pos (n d : Z) : Q :=
  let round e := if 0 <=? e then inject_Z (round_half_even n (d * 2 ^ e) * 2 ^ e)
                 else round_half_even (n * 2 ^ (- e)) d # Z.to_pos (2 ^ (- e)) in
  (* log2 n - log2 d is the exponent of n/d or one more *)
  let e := f64_exponent n d in
  let bits := if 0 <=? e then n / (d * 2 ^ e) else (n * 2 ^ (- e)) / d in
  if bits <? 2 ^ 53 then round e else round (e + 1).

Definition f64 (q : Q) : Q :=
  Qred (if Qnum q =? 0 then inject_Z 0
        else if Qnum q <? 0 then Qopp (f64_pos (- Qnum q) (QDen q))
        else f64_pos (Qnum q) (QDen q)).

(** [Duration.Seconds]: float64(d / Second) + float64(d % Second) / 1e9. *)
Definition seconds (d : duration) : Q :=
  f64 (Qplus (f64 (inject_Z (Z.quot d second))) (f64 (Qdiv (inject_Z (Z.rem d second)) (inject_Z second)))).

(** Conversion of a float64 to an integer type truncates toward zero. *)
Definition trunc (q : Q) : Z := Z.quot (Qnum q) (QDen q).

Example f64_tenth : f64 (1 # 10) = (3602879701896397 # 36028797018963968)%Q.
Proof. vm_compute. reflexivity. Qed.
Example seconds_case : trunc (seconds (90 * second + 500000000)) = 90.
Proof. vm_compute. reflexivity. Qed.
(** The conversion can round up: 2^24 s less one nanosecond reads as 2^24 s. *)
Example seconds_rounds : trunc (seconds (2 ^ 25 * second - 1)) = 2 ^ 25.
Proof. vm_compute. reflexivity. Qed.

(** ** Rounding does not cross a whole number *)

Lemma round_half_even_between n d lo hi :
  0 < d → lo * d <= n → n <= hi * d → lo <= round_half_even n d <= hi.
Proof.
  intros Hd Hlo Hhi. unfold round_half_even. pose proof (Z.div_mod n d). pose proof (Z.mod_pos_bound n d).
  assert (lo <= n / d) by (apply Z.div_le_lower_bound; lia).
  assert (n mod d ≠ 0 → n / d < hi) by nia. assert (n / d <= hi) by (apply Z.div_le_upper_bound; lia).
  destruct (Z.ltb_spec (2 * (n mod d)) d); [lia|]. destruct (Z.ltb_spec d (2 * (n mod d))); [lia|].
  destruct (Z.even _); lia.
Qed.

(** [m] is within the two whole numbers. *)
Definition between (lo hi : Z) (q : Q) : Prop := lo * QDen q <= Qnum q <= hi * QDen q.

Lemma between_Qle lo hi q : between lo hi q ↔ (inject_Z lo <= q <= inject_Z hi)%Q.
Proof. unfold between, Qle. cbn. lia. Qed.

Lemma rounded_scaled n d k lo hi :
  0 < d → 0 <= k → lo * d <= n <= hi * d →
  between lo hi (round_half_even (n * 2 ^ k) d # Z.to_pos (2 ^ k)).
Proof.
  intros Hd Hk H. unfold between. cbn [Qnum Qden]. rewrite Z2Pos.id by lia.
  apply round_half_even_between; nia.
Qed.

Lemma f64_pos_between n d lo hi :
  0 < n → 0 < d → hi < 2 ^ 53 → lo * d <= n <= hi * d → between lo hi (f64_pos n d).
Proof.
  intros Hn Hd Hhi H. unfold f64_pos.
  assert (∀ e, e <= 0 → between lo hi
    (if 0 <=? e then inject_Z (round_half_even n (d * 2 ^ e) * 2 ^ e)
     else round_half_even (n * 2 ^ (- e)) d # Z.to_pos (2 ^ (- e)))) as Hround.
  { intros e He. destruct (Z.leb_spec 0 e).
    - assert (e = 0) as -> by lia. unfold between. cbn. rewrite !Z.mul_1_r.
      pose proof (round_half_even_between n d lo hi). lia.
    - apply rounded_scaled; lia. }
  set (e := f64_exponent n d). cbv zeta.
  destruct (Z.ltb_spec (if 0 <=? e then n / (d * 2 ^ e) else (n * 2 ^ (- e)) / d) (2 ^ 53)) as [Hb|Hb].
  - apply Hround. apply Z.nlt_ge. intros He.
    destruct (Z.log2_spec n Hn) as [Hl _], (Z.log2_spec d Hd) as [_ Hu].
    pose proof (Z.log2_nonneg d). unfold e, f64_exponent in He.
    assert (2 ^ 53 * 2 ^ Z.succ (Z.log2 d) <= 2 ^ Z.log2 n) as Hp
      by (rewrite <-Z.pow_add_r by lia; apply Z.pow_le_mono_r; lia).
    nia.
  - apply Hround. apply Z.nlt_ge. intros He. destruct (Z.leb_spec 0 e); [|lia].
    assert (1 <= 2 ^ e) by (change 1 with (2 ^ 0); apply Z.pow_le_mono_r; lia).
    assert (2 ^ 53 * (d * 2 ^ e) <= n).
    { etransitivity; [apply Z.mul_le_mono_nonneg_r; [nia|exact Hb]|]. rewrite Z.mul_comm.
      apply Z.mul_div_le. nia. }
    nia.
Qed.

Lemma f64_between lo hi q : 0 <= lo → hi < 2 ^ 53 → between lo hi q → between lo hi (f64 q).
Proof.
  intros Hlo Hhi H. apply (proj2 (between_Qle _ _ _)). unfold f64. rewrite Qred_correct. unfold between in H.
  pose proof (Pos2Z.is_pos (Qden q)) as Hden.
  destruct (Z.eqb_spec (Qnum q) 0) as [E|Hne].
  - rewrite E in H. split; unfold Qle; cbn; nia.
  - destruct (Z.ltb_spec (Qnum q) 0); [nia|].
    apply (proj1 (between_Qle _ _ _)), f64_pos_between; lia.
Qed.

Lemma f64_nonpos q : Qnum q <= 0 → (f64 q <= 0)%Q.
Proof.
  intros H. unfold f64. rewrite Qred_correct.
  destruct (Z.eqb_spec (Qnum q) 0) as [_|Hne]; [done|]. destruct (Z.ltb_spec (Qnum q) 0) as [Hq|]; [|lia].
  enough (0 <= f64_pos (- Qnum q) (QDen q))%Q as Hf by (unfold Qle in *; cbn in *; lia).
  assert (∀ n d, 0 < d → 0 <= n → 0 <= round_half_even n d) as Hr.
  { intros n d Hd Hn. apply (round_half_even_between n d 0 n); nia. }
  unfold f64_pos, Qle. cbv zeta. destruct (_ <? 2 ^ 53).
  - destruct (Z.leb_spec 0 (f64_exponent (- Qnum q) (QDen q))); cbn [Qnum Qden inject_Z];
      rewrite ?Z.mul_1_r; [apply Z.mul_nonneg_nonneg; [|lia]|]; apply Hr; nia.
  - destruct (Z.leb_spec 0 (f64_exponent (- Qnum q) (QDen q) + 1)); cbn [Qnum Qden inject_Z];
      rewrite ?Z.mul_1_r; [apply Z.mul_nonneg_nonneg; [|lia]|]; apply Hr; nia.
Qed.

(** A positive duration in whole seconds, truncated: at most a second off. *)
Lemma trunc_seconds d :
  0 <= d <= max_int64 → d - second < trunc (seconds d) * second <= d + second.
Proof.
  intros Hd. unfold max_int64 in Hd. pose proof (Z.quot_rem' d second) as Hq.
  pose proof (Z.rem_bound_pos d second ltac:(lia) ltac:(reflexivity)) as Hr.
  change second with 1000000000 in Hr, Hq |- *. unfold seconds. change second with 1000000000.
  set (n := Z.quot d 1000000000) in *. set (r := Z.rem d 1000000000) in *.
  assert (0 <= n < 2 ^ 53 - 1) as Hn by lia.
  assert (between n n (f64 (inject_Z n))) as H1
    by (apply f64_between; [lia..|unfold between; cbn; lia]).
  assert (between 0 1 (f64 (inject_Z r / inject_Z 1000000000))) as H2.
  { apply f64_between; [lia..|]. apply (proj2 (between_Qle _ _ _)). split; [apply Qle_shift_div_l|apply Qle_shift_div_r];
      unfold Qlt, Qle; cbn; lia. }
  assert (between n (n + 1) (f64 (f64 (inject_Z n) + f64 (inject_Z r / inject_Z 1000000000)))) as H3.
  { apply f64_between; [lia..|]. apply (proj2 (between_Qle _ _ _)). apply (proj1 (between_Qle _ _ _)) in H1, H2.
    rewrite inject_Z_plus. destruct H1, H2. split; [|by apply Qplus_le_compat].
    apply Qle_trans with (inject_Z n + 0)%Q; [unfold Qle; cbn; lia|by apply Qplus_le_compat]. }
  unfold between in H3. unfold trunc. set (q := f64 (_ + _)) in *.
  assert (n <= Z.quot (Qnum q) (QDen q) <= n + 1); [|lia]. rewrite Z.quot_div_nonneg by nia. split.
  - apply Z.div_le_lower_bound; nia.
  - apply Z.div_le_upper_bound; nia.
Qed.

Lemma trunc_seconds_nonpos d : d <= 0 → trunc (seconds d) <= 0.
Proof.
  intros Hd. assert (∀ q, (q <= 0)%Q → Qnum q <= 0) as Hnum by (unfold Qle; cbn; lia).
  enough (Qnum (seconds d) <= 0) as H.
  { unfold trunc. pose proof (Z.quot_opp_l (Qnum (seconds d)) (QDen (seconds d)) ltac:(lia)) as E.
    pose proof (Z.quot_pos (- Qnum (seconds d)) (QDen (seconds d)) ltac:(lia) ltac:(lia)). lia. }
  apply Hnum. unfold seconds. apply f64_nonpos, Hnum. change second with 1000000000.
  assert (Z.quot d 1000000000 <= 0).
  { pose proof (Z.quot_opp_l d 1000000000). pose proof (Z.quot_pos (- d) 1000000000). lia. }
  assert (Z.rem d 1000000000 <= 0) by (pose proof (Z.rem_opp_l d 1000000000);
    pose proof (Z.rem_nonneg (- d) 1000000000); lia).
  apply (Qplus_le_compat _ 0 _ 0); apply f64_nonpos; cbn; lia.
Qed.
