(* ===== verification/Chooser.v ===== *)
(** * The gateway's account chooser

    internal/gateway/chooser.go: the in-memory pool of leasable accounts, fed
    by snapshot buckets, with local cooldowns and egress short circuits.  Each
    method is a function of the chooser's state and of the instant [c.now()]
    returns; the mutex makes them atomic.  A Go map that is ranged over is a
    [gmap], and the traversal order is an explicit argument where it could
    matter ([acquire_from]). *)

From S2P Require Import Prelude Decimal Contracts GoFloat.

Open Scope Z_scope.

(** ** State *)

Record cooldownKey := CooldownKey { ck_accountID : string; ck_model : string }.
Record cooldown := Cooldown { cd_until : time; cd_credentialVersion : Z }.

#[export] Instance cooldownKey_eq_dec : EqDecision cooldownKey.
Proof. solve_decision. Defined.
#[export] Instance cooldownKey_countable : Countable cooldownKey.
Proof.
  apply (inj_countable' (λ k, (ck_accountID k, ck_model k)) (λ p, CooldownKey p.1 p.2)).
  by intros [].
Defined.

Record bucketState := BucketState {
  bs_epoch : Z;
  bs_validUntil : time;
  bs_ids : gset string
}.

Definition zeroBucket : bucketState := BucketState 0 0 ∅.

Record Chooser := MkChooser {
  accounts : gmap string Account;
  buckets : gmap string bucketState;
  owner : gmap string string;
  cooling : gmap cooldownKey cooldown;
  failures : gmap cooldownKey Z;
  egress : gmap string time;
  egressSeen : gmap string (gmap string time);
  epoch : Z
}.

Definition NewChooser : Chooser := MkChooser ∅ ∅ ∅ ∅ ∅ ∅ ∅ 0.

Definition bucketKey (platform group : string) : string := platform +:+ chr 0 +:+ group.

(** ** Installing snapshots *)

(** The loop variables of [ReplaceBucket] over the new accounts. *)
Record install := Install {
  in_accounts : gmap string Account;
  in_owner : gmap string string;
  in_ids : gset string;
  in_cooling : gmap cooldownKey cooldown;
  in_failures : gmap cooldownKey Z
}.

(** Cooldowns of [account] that were earned by another credential version. *)
Definition stale_credential (account : Account) (k : cooldownKey) (v : cooldown) : bool :=
  bool_decide (ck_accountID k = acc_ID account)
  && negb (cd_credentialVersion v =? cred_Version (acc_Credential account)).

(** [delete(c.cooling, k); delete(c.failures, k)] for every cooling [k] with [f]. *)
Definition drop_failures (f : cooldownKey → cooldown → bool)
    (cooling : gmap cooldownKey cooldown) (failures : gmap cooldownKey Z) : gmap cooldownKey Z :=
  map_remove_if (λ k _, match cooling !! k with Some v => f k v | None => false end) failures.

Definition install_account (platform group key : string) (st : install) (account : Account)
    : install :=
  if negb (bool_decide (acc_Platform account = platform))
     || negb (bool_decide (acc_Group account = group)) then st
  else
    let account := with_default_limits account in
    let taken := match in_owner st !! acc_ID account with
                 | Some o => negb (bool_decide (o = key))
                 | None => false
                 end in
    if taken then st
    else Install (<[acc_ID account := account]> (in_accounts st))
                 (<[acc_ID account := key]> (in_owner st))
                 ({[acc_ID account]} ∪ in_ids st)
                 (map_remove_if (stale_credential account) (in_cooling st))
                 (drop_failures (stale_credential account) (in_cooling st) (in_failures st)).

Definition delete_ids {V} (ids : gset string) (m : gmap string V) : gmap string V :=
  map_remove_if (λ id _, bool_decide (id ∈ ids)) m.

Definition ReplaceBucket (platform group : string) (accs : list Account) (ep : Z)
    (validUntil : time) (c : Chooser) : Chooser :=
  let key := bucketKey platform group in
  let previous := default zeroBucket (buckets c !! key) in
  let existed := bool_decide (is_Some (buckets c !! key)) in
  let changed := existed && (0 <? ep) && (0 <? bs_epoch previous) && negb (ep =? bs_epoch previous) in
  let mine (k : cooldownKey) (_ : cooldown) := changed && bool_decide (ck_accountID k ∈ bs_ids previous) in
  let st := Install (delete_ids (bs_ids previous) (accounts c))
                    (delete_ids (bs_ids previous) (owner c)) ∅
                    (map_remove_if mine (cooling c))
                    (drop_failures mine (cooling c) (failures c)) in
  let st := foldl (install_account platform group key) st accs in
  MkChooser (in_accounts st)
            (<[key := BucketState ep validUntil (in_ids st)]> (buckets c))
            (in_owner st) (in_cooling st) (in_failures st)
            (egress c) (egressSeen c) (epoch c).

Definition RemoveBucket (platform group : string) (c : Chooser) : Chooser :=
  let key := bucketKey platform group in
  let ids := bs_ids (default zeroBucket (buckets c !! key)) in
  MkChooser (delete_ids ids (accounts c)) (delete key (buckets c)) (delete_ids ids (owner c))
            (cooling c) (failures c) (egress c) (egressSeen c) (epoch c).

Definition ReplaceAtEpoch (snapshot : list Account) (ep : Z) (c : Chooser) : Chooser :=
  let changed := (0 <? ep) && (0 <? epoch c) && negb (ep =? epoch c) in
  let cooling0 := if changed then ∅ else cooling c in
  let failures0 := if changed then ∅ else failures c in
  let step (st : gmap string Account * gmap cooldownKey cooldown * gmap cooldownKey Z) account :=
    let '(next, cool, fails) := st in
    let account := with_default_limits account in
    (<[acc_ID account := account]> next,
     map_remove_if (stale_credential account) cool,
     drop_failures (stale_credential account) cool fails) in
  let '(next, cool, fails) := foldl step (∅, cooling0, failures0) snapshot in
  MkChooser next ∅ ∅ cool fails (egress c) (egressSeen c)
            (if 0 <? ep then ep else epoch c).

Definition Replace (snapshot : list Account) (c : Chooser) : Chooser := ReplaceAtEpoch snapshot 0 c.

(** ** Eligibility tests *)

Definition supports (account : Account) (model : string) : bool :=
  if negb (bool_decide (model = "")) && bool_decide (model ∈ acc_ExcludedModels account)
  then false
  else if bool_decide (model = "") || bool_decide (acc_Capabilities account = []) then true
  else bool_decide (model ∈ acc_Capabilities account).

Definition quotaApplies (item : QuotaItem) (model : string) : bool :=
  if bool_decide (qi_Scope item = "account") then true
  else if bool_decide (qi_Scope item = "model")
  then negb (bool_decide (qi_Model item = "")) && bool_decide (qi_Model item = model)
  else false.

Definition precision_remaining (item : QuotaItem) : option Decimal :=
  qi_Precision item ≫= qp_Remaining.

(** The first of the three decimal readings that parses decides; the integer
    reading is the last resort. *)
Definition quotaRemainingPositive (item : QuotaItem) : bool :=
  match qi_RemainingExact item ≫= Decimal_Sign with
  | Some sign => 0 <? sign
  | None =>
    match qi_RemainingFraction item ≫= Decimal_Sign with
    | Some sign => 0 <? sign
    | None =>
      match precision_remaining item ≫= Decimal_Sign with
      | Some sign => 0 <? sign
      | None => match qi_Remaining item with None => true | Some r => 0 <? r end
      end
    end
  end.

Definition reports_remaining (item : QuotaItem) : bool :=
  bool_decide (is_Some (qi_RemainingExact item)) || bool_decide (is_Some (qi_RemainingFraction item))
  || bool_decide (is_Some (precision_remaining item)) || bool_decide (is_Some (qi_Remaining item)).

Definition hasQuota (account : Account) (model : string) : bool :=
  forallb (λ item, negb (quotaApplies item model) || quotaRemainingPositive item
                   || negb (reports_remaining item)) (acc_Quota account).

Definition egressKey (profile : UpstreamProfile) : string := trim_space (prof_Proxy profile).

(** ** Acquiring a lease *)

Inductive chooser_error := ErrQuotaExhausted | ErrSnapshotStale | ErrEgressBlocked | ErrNoAccount.

#[export] Instance chooser_error_eq_dec : EqDecision chooser_error.
Proof. solve_decision. Defined.

(** What one iteration of the selection loop does with an account. *)
Inductive verdict := Skip | Stale | BehindBlockedEgress | NoQuota | Candidate.

#[export] Instance verdict_eq_dec : EqDecision verdict.
Proof. solve_decision. Defined.

Definition bucket_stale (c : Chooser) (now : time) (id : string) : bool :=
  match owner c !! id with
  | Some o =>
      let bucket := default zeroBucket (buckets c !! o) in
      negb (is_zero_time (bs_validUntil bucket)) && negb (after (bs_validUntil bucket) now)
  | None => false
  end.

Definition credential_expired (account : Account) (now : time) : bool :=
  let cred := acc_Credential account in
  negb (bool_decide (cred_Kind cred = "static")) && negb (is_zero_time (cred_ExpiresAt cred))
  && negb (after (cred_ExpiresAt cred) now).

Definition is_cooling (c : Chooser) (now : time) (id model : string) : bool :=
  match cooling c !! CooldownKey id model with
  | Some blocked => after (cd_until blocked) now
  | None => false
  end.

Definition egress_blocked (c : Chooser) (now : time) (profile : UpstreamProfile) : bool :=
  match egress c !! egressKey profile with
  | Some until => after until now
  | None => false
  end.

Definition judge (c : Chooser) (now : time) (criteria : Criteria) (excluded : gset string)
    (id : string) (account : Account) : verdict :=
  if bool_decide (id ∈ excluded) then Skip
  else if bucket_stale c now id then Stale
  else if negb (bool_decide (cr_Platform criteria = ""))
          && negb (bool_decide (acc_Provider account = cr_Platform criteria))
          && negb (bool_decide (acc_Platform account = cr_Platform criteria)) then Skip
  else if negb (bool_decide (acc_Group account = cr_Group criteria))
          || negb (bool_decide (acc_Status account = "active")) then Skip
  else if credential_expired account now then Skip
  else if negb (supports account (cr_Model criteria)) then Skip
  else if is_cooling c now id (cr_Model criteria) then Skip
  else if egress_blocked c now (acc_Profile account) then BehindBlockedEgress
  else if negb (hasQuota account (cr_Model criteria)) then NoQuota
  else Candidate.

(** ids, quotaExcluded, staleExcluded, egressExcluded. *)
Record selection := Selection {
  sel_ids : list string;
  sel_quota : bool;
  sel_stale : bool;
  sel_egress : bool
}.

Definition select_step (c : Chooser) (now : time) (criteria : Criteria) (excluded : gset string)
    (st : selection) (entry : string * Account) : selection :=
  match judge c now criteria excluded entry.1 entry.2 with
  | Skip => st
  | Stale => Selection (sel_ids st) (sel_quota st) true (sel_egress st)
  | BehindBlockedEgress => Selection (sel_ids st) (sel_quota st) (sel_stale st) true
  | NoQuota => Selection (sel_ids st) true (sel_stale st) (sel_egress st)
  | Candidate => Selection (sel_ids st ++ [entry.1]) (sel_quota st) (sel_stale st) (sel_egress st)
  end.

Definition lease_ttl (account : Account) (now : time) : Z :=
  let expires := cred_ExpiresAt (acc_Credential account) in
  if is_zero_time expires then 0
  else Z.max 0 (trunc (seconds (time_sub expires now))).

Definition lease_of (account : Account) (now : time) : Lease :=
  MkLease (acc_ID account) (acc_Provider account) (acc_Credential account) (acc_Profile account)
    (WithDefaults (acc_Limits account)) (lease_ttl account now) (acc_UsageIntegrity account).

Definition zeroAccount : Account :=
  MkAccount "" "" "" "" zeroCredential zeroProfile (MkLimits 0 0 0 "") "" 0 [] [] [] "".

(** [AcquirePreferring] with the order in which Go ranges over [c.accounts]. *)
Definition acquire_from (order : list (string * Account)) (c : Chooser) (now : time)
    (criteria : Criteria) (preferred : string) (excluded : gset string)
    : result chooser_error Lease :=
  let st := foldl (select_step c now criteria excluded) (Selection [] false false false) order in
  match sort_strings (sel_ids st) with
  | [] =>
      if sel_quota st then Err ErrQuotaExhausted
      else if sel_stale st then Err ErrSnapshotStale
      else if sel_egress st then Err ErrEgressBlocked
      else Err ErrNoAccount
  | first :: _ =>
      let chosen := if negb (bool_decide (preferred = "")) && bool_decide (preferred ∈ sel_ids st)
                    then preferred else first in
      Ok (lease_of (default zeroAccount (accounts c !! chosen)) now)
  end.

Definition AcquirePreferring (c : Chooser) (now : time) (criteria : Criteria)
    (preferred : string) (excluded : gset string) : result chooser_error Lease :=
  acquire_from (map_to_list (accounts c)) c now criteria preferred excluded.

Definition AcquireExcluding c now criteria excluded := AcquirePreferring c now criteria "" excluded.
Definition Acquire c now criteria := AcquireExcluding c now criteria ∅.

(** ** Cooldowns and egress short circuits *)

Definition egressShortCircuit : duration := 7 * second.
Definition egressSignalWindow : duration := 60 * second.
Definition egressSignalAccounts : Z := 2.

(** [raw] is the byte rand.Read delivered, or [None] when it failed. *)
Definition withJitter (raw : option Z) (base : duration) : duration :=
  if base <=? 0 then base
  else match raw with
       | None => base
       | Some b => Z.quot (wrap64 (base * (100 + (Z.rem b 41 - 20)))) 100
       end.

Definition cooldownDuration (class : ErrorClass) : duration :=
  if bool_decide (class = ErrorAuthExpired) then 60 * second
  else if bool_decide (class = ErrorRateLimitedKnown) then 30 * second
  else if bool_decide (class = ErrorRateLimitedUnknown) then 15 * second
  else if bool_decide (class = ErrorUpstream5xx) then 3 * second
  else if bool_decide (class = ErrorBlocked) then 60 * second
  else 0.

Definition with_egress (c : Chooser) (eg : gmap string time) (seen : gmap string (gmap string time))
    : Chooser :=
  MkChooser (accounts c) (buckets c) (owner c) (cooling c) (failures c) eg seen (epoch c).

Definition with_cooling (c : Chooser) (cool : gmap cooldownKey cooldown)
    (fails : gmap cooldownKey Z) : Chooser :=
  MkChooser (accounts c) (buckets c) (owner c) cool fails (egress c) (egressSeen c) (epoch c).

Definition MarkEgressRejected (lease : Lease) (now : time) (raw : option Z) (c : Chooser)
    : bool * Chooser :=
  let key := egressKey (ls_Profile lease) in
  let seen := <[ls_AccountID lease := now]> (default ∅ (egressSeen c !! key)) in
  let seen := map_remove_if (λ _ at_, egressSignalWindow <? time_sub now at_) seen in
  let seen_all := <[key := seen]> (egressSeen c) in
  if Z.of_nat (size seen) <? egressSignalAccounts then (false, with_egress c (egress c) seen_all)
  else
    let until := now + withJitter raw egressShortCircuit in
    match egress c !! key with
    | Some current => if after current until then (true, with_egress c (egress c) seen_all)
                      else (true, with_egress c (<[key := until]> (egress c)) seen_all)
    | None => (true, with_egress c (<[key := until]> (egress c)) seen_all)
    end.

(** [MarkFailure] reads the clock again for auth_invalid: [now'].  The failure
    count and the cooldown are two critical sections of the same mutex. *)
Definition count_failure (key : cooldownKey) (c : Chooser) : Z * Chooser :=
  let count := default 0 (failures c !! key) + 1 in
  (count, with_cooling c (cooling c) (<[key := count]> (failures c))).

Definition backoff (count : Z) : duration :=
  if count =? 1 then 5 * second else if count =? 2 then 15 * second else 60 * second.

Definition set_cooldown (key : cooldownKey) (until : time) (c : Chooser) : Chooser :=
  let version := cred_Version (acc_Credential (default zeroAccount (accounts c !! ck_accountID key))) in
  with_cooling c (<[key := Cooldown until version]> (cooling c)) (failures c).

Definition MarkFailure (accountID model : string) (class : ErrorClass) (reset : duration)
    (now now' : time) (raw : option Z) (c : Chooser) : Chooser :=
  if bool_decide (class = ErrorForbiddenTransport) || bool_decide (class = ErrorNetwork) then c
  else
    let key := CooldownKey accountID model in
    let '(base, c) := if bool_decide (class = ErrorRateLimitedUnknown)
                      then let '(count, c) := count_failure key c in (backoff count, c)
                      else (cooldownDuration class, c) in
    let base := if 0 <? reset then reset else base in
    let base := withJitter raw base in
    let until := if bool_decide (class = ErrorAuthInvalid) then now' + 365 * 24 * hour
                 else now + base in
    set_cooldown key until c.

Definition ClearAccount (accountID : string) (version : Z) (c : Chooser) : Chooser :=
  with_cooling c
    (map_remove_if (λ k v, bool_decide (ck_accountID k = accountID)
                           && negb (cd_credentialVersion v =? version)) (cooling c))
    (failures c).
