(* ===== verification/ChooserFacts.v ===== *)
(** * Properties of the account chooser

    The ownership invariant of the pool, the exact specification of
    [AcquirePreferring], isolation between buckets, and the effect of cooldowns
    and egress short circuits on later selections. *)

From S2P Require Import Prelude Decimal Contracts GoFloat Chooser.

Open Scope Z_scope.

(** ** Selection, independent of the traversal order *)

Definition some_account_is (c : Chooser) (now : time) (criteria : Criteria)
    (excluded : gset string) (v : verdict) : Prop :=
  ∃ id a, accounts c !! id = Some a ∧ judge c now criteria excluded id a = v.

Section selection.
  Context (c : Chooser) (now : time) (criteria : Criteria) (excluded : gset string).

Abbreviation judged v := (λ e : string * Account,
    bool_decide (judge c now criteria excluded e.1 e.2 = v)).

Lemma select_loop order : ∀ st,
    foldl (select_step c now criteria excluded) st order =
    Selection (sel_ids st ++ (List.filter (judged Candidate) order).*1)
              (sel_quota st || existsb (judged NoQuota) order)
              (sel_stale st || existsb (judged Stale) order)
              (sel_egress st || existsb (judged BehindBlockedEgress) order).
  Proof.
    induction order as [|e order IH]; intros st; cbn [foldl List.filter existsb].
    { rewrite app_nil_r, !orb_false_r. by destruct st. }
    rewrite IH. unfold select_step at 1 2 3 4.
    destruct (judge c now criteria excluded e.1 e.2) eqn:E;
      repeat (first [rewrite bool_decide_eq_true_2 by done | rewrite bool_decide_eq_false_2 by done]);
      cbn; rewrite ?orb_true_r, ?orb_true_l, <-?app_assoc; done.
  Qed.

Definition candidate (id : string) : Prop :=
    ∃ a, accounts c !! id = Some a ∧ judge c now criteria excluded id a = Candidate.

Lemma candidates_spec id :
    id ∈ (List.filter (judged Candidate) (map_to_list (accounts c))).*1 ↔ candidate id.
  Proof.
    rewrite list_elem_of_fmap. unfold candidate. split.
    - intros ([i a] & -> & Hin). rewrite list_elem_of_In, filter_In, <-list_elem_of_In in Hin.
      destruct Hin as [Hin Hj]. apply elem_of_map_to_list in Hin. cbn in *.
      apply bool_decide_eq_true in Hj. by exists a.
    - intros (a & Ha & Hj). exists (id, a). split; [done|].
      rewrite list_elem_of_In, filter_In, <-list_elem_of_In, elem_of_map_to_list. cbn.
      by rewrite bool_decide_eq_true_2.
  Qed.

Lemma judged_exists v :
    existsb (judged v) (map_to_list (accounts c)) = true ↔
    some_account_is c now criteria excluded v.
  Proof.
    rewrite existsb_Exists. unfold some_account_is. split.
    - intros ([i a] & Hin & Hj%bool_decide_eq_true). apply elem_of_map_to_list in Hin. eauto.
    - intros (i & a & Hin & Hj). exists (i, a). rewrite elem_of_map_to_list.
      by rewrite bool_decide_eq_true_2.
  Qed.
End selection.

Lemma filter_perm {A} (f : A → bool) l1 l2 : l1 ≡ₚ l2 → List.filter f l1 ≡ₚ List.filter f l2.
Proof.
  induction 1 as [|x l1 l2 _ IH|x y l|l1 l2 l3 _ IH1 _ IH2]; cbn.
  - done.
  - destruct (f x); [by constructor|done].
  - destruct (f x), (f y); try done. constructor.
  - by rewrite IH1.
Qed.

Lemma existsb_perm {A} (f : A → bool) l1 l2 : l1 ≡ₚ l2 → existsb f l1 = existsb f l2.
Proof.
  intros Hp. apply eq_true_iff_eq. rewrite !existsb_Exists. by setoid_rewrite Hp.
Qed.

Lemma elem_of_perm (l1 l2 : list string) x :
  l1 ≡ₚ l2 → bool_decide (x ∈ l1) = bool_decide (x ∈ l2).
Proof. intros Hp. apply bool_decide_ext. by rewrite Hp. Qed.

(** C29 Go ranges over the account map in a random order; the outcome of
    [AcquirePreferring], lease or error, does not depend on it. *)
Theorem acquire_order_irrelevant order1 order2 c now criteria preferred excluded :
  order1 ≡ₚ order2 →
  acquire_from order1 c now criteria preferred excluded =
  acquire_from order2 c now criteria preferred excluded.
Proof.
  intros Hp. unfold acquire_from. rewrite !select_loop.
  cbn [sel_ids sel_quota sel_stale sel_egress].
  rewrite (existsb_perm _ _ _ Hp), (existsb_perm _ _ _ Hp), (existsb_perm _ _ _ Hp).
  pose proof (filter_perm (λ e, bool_decide (judge c now criteria excluded e.1 e.2 = Candidate))
                _ _ Hp) as Hf.
  rewrite !app_nil_l. rewrite (sort_strings_perm_eq _ _ (fmap_Permutation fst _ _ Hf)).
  destruct (sort_strings _); [done|].
  by rewrite (elem_of_perm _ _ preferred (fmap_Permutation fst _ _ Hf)).
Qed.

(** ** What the chooser promises

    The contract, without the code's guard list: which accounts may serve a
    request, which one is taken, what a refusal means. *)

Section promise.
  Context (c : Chooser) (now : time) (criteria : Criteria) (excluded : gset string).

(** The snapshot bucket that owns the account has run out. *)
Definition bucket_ran_out (id : string) : Prop :=
  ∃ o, owner c !! id = Some o ∧
    let until := bs_validUntil (default zeroBucket (buckets c !! o)) in until ≠ 0 ∧ until <= now.

(** The account is of the platform and the group asked for, and in service. *)
Definition belongs (a : Account) : Prop :=
  (cr_Platform criteria = "" ∨ acc_Provider a = cr_Platform criteria ∨
   acc_Platform a = cr_Platform criteria) ∧
  acc_Group a = cr_Group criteria ∧ acc_Status a = "active"%string.

Definition credential_live (a : Account) : Prop :=
  cred_Kind (acc_Credential a) = "static"%string ∨ cred_ExpiresAt (acc_Credential a) = 0 ∨
  now < cred_ExpiresAt (acc_Credential a).

Definition serves_model (a : Account) : Prop :=
  cr_Model criteria = "" ∨
  (cr_Model criteria ∉ acc_ExcludedModels a) ∧
  (acc_Capabilities a = [] ∨ cr_Model criteria ∈ acc_Capabilities a).

Definition rested (id : string) : Prop :=
  ∀ blocked, cooling c !! CooldownKey id (cr_Model criteria) = Some blocked → cd_until blocked <= now.

(** The proxy the account goes through was turned away lately. *)
Definition egress_shut (a : Account) : Prop :=
  ∃ until, egress c !! egressKey (acc_Profile a) = Some until ∧ now < until.

(** A quota that covers the model has nothing left.  Of the decimal readings the
    first that parses counts; the integer one only when none does; a quota
    without any reading is not exhausted. *)
Definition used_up (item : QuotaItem) : Prop :=
  match omap (λ reading, reading ≫= Decimal_Sign)
          [qi_RemainingExact item; qi_RemainingFraction item; precision_remaining item] with
  | sign :: _ => sign <= 0
  | [] => ∃ left, qi_Remaining item = Some left ∧ left <= 0
  end.

Definition quota_covers (item : QuotaItem) : Prop :=
  qi_Scope item = "account"%string ∨
  qi_Scope item = "model"%string ∧ qi_Model item ≠ "" ∧ qi_Model item = cr_Model criteria.

Definition out_of_quota (a : Account) : Prop := ∃ item, item ∈ acc_Quota a ∧ quota_covers item ∧ used_up item.

(** All that is asked of an account but the way out and the quota. *)
Definition fit (id : string) (a : Account) : Prop :=
  accounts c !! id = Some a ∧ (id ∉ excluded) ∧ ¬ bucket_ran_out id ∧ belongs a ∧
  credential_live a ∧ serves_model a ∧ rested id.

Definition eligible (id : string) : Prop :=
  ∃ a, fit id a ∧ ¬ egress_shut a ∧ ¬ out_of_quota a.

(** The account a selection takes. *)
Definition selects (preferred id : string) : Prop :=
  eligible id ∧
  (preferred ≠ "" ∧ eligible preferred → id = preferred) ∧
  (preferred = "" ∨ ¬ eligible preferred → ∀ other, eligible other → String.le id other).

(** The lease hands over the account's data; its time to live is what is left of
    the credential, in seconds, to within a second. *)
Definition leases (a : Account) (lease : Lease) : Prop :=
  ls_AccountID lease = acc_ID a ∧ ls_Provider lease = acc_Provider a ∧
  ls_Credential lease = acc_Credential a ∧ ls_Profile lease = acc_Profile a ∧
  ls_Limits lease = WithDefaults (acc_Limits a) ∧
  ls_UsageIntegrity lease = acc_UsageIntegrity a ∧
  let expires := cred_ExpiresAt (acc_Credential a) in
  (expires = 0 ∨ expires <= now → ls_TTL lease = 0) ∧
  (expires ≠ 0 → now < expires → expires - now <= max_int64 →
   Z.abs (ls_TTL lease * second - (expires - now)) <= second).

(** The three causes of a refusal. *)
Definition quota_exhausted : Prop := ∃ id a, fit id a ∧ ¬ egress_shut a ∧ out_of_quota a.
Definition snapshot_stale : Prop :=
  ∃ id a, accounts c !! id = Some a ∧ (id ∉ excluded) ∧ bucket_ran_out id.
Definition way_out_shut : Prop := ∃ id a, fit id a ∧ egress_shut a.

Definition acquire_promise (preferred : string) (r : result chooser_error Lease) : Prop :=
  match r with
  | Ok lease => ∃ id a, selects preferred id ∧ accounts c !! id = Some a ∧ leases a lease
  | Err e => (∀ id, ¬ eligible id) ∧
      match e with
      | ErrQuotaExhausted => quota_exhausted
      | ErrSnapshotStale => ¬ quota_exhausted ∧ snapshot_stale
      | ErrEgressBlocked => ¬ quota_exhausted ∧ ¬ snapshot_stale ∧ way_out_shut
      | ErrNoAccount => ¬ quota_exhausted ∧ ¬ snapshot_stale ∧ ¬ way_out_shut
      end
  end.

(** *** The guards decide the contract's words *)

Lemma bucket_stale_spec id : bucket_stale c now id = true ↔ bucket_ran_out id.
Proof.
  unfold bucket_stale, bucket_ran_out, is_zero_time, after.
  destruct (owner c !! id) as [o|]; [|naive_solver]. cbv zeta.
  rewrite andb_true_iff, !negb_true_iff, Z.eqb_neq, Z.ltb_ge. naive_solver.
Qed.

Lemma credential_expired_spec a : credential_expired a now = false ↔ credential_live a.
Proof.
  unfold credential_expired, credential_live, is_zero_time, after.
  rewrite !andb_false_iff, !negb_false_iff, bool_decide_eq_true, Z.eqb_eq, Z.ltb_lt. tauto.
Qed.

Lemma supports_spec a : supports a (cr_Model criteria) = true ↔ serves_model a.
Proof.
  unfold supports, serves_model. destruct (decide (cr_Model criteria = "")) as [->|Hne]; [naive_solver|].
  rewrite (bool_decide_eq_false_2 (_ = "")) by done. cbn.
  repeat case_bool_decide; cbn; naive_solver.
Qed.

Lemma is_cooling_spec id : is_cooling c now id (cr_Model criteria) = false ↔ rested id.
Proof.
  unfold is_cooling, rested, after. destruct (cooling c !! _); [|naive_solver].
  rewrite Z.ltb_ge. naive_solver.
Qed.

Lemma egress_blocked_spec a : egress_blocked c now (acc_Profile a) = true ↔ egress_shut a.
Proof.
  unfold egress_blocked, egress_shut, after. destruct (egress c !! _); [|naive_solver].
  rewrite Z.ltb_lt. naive_solver.
Qed.

Lemma quotaApplies_spec item : quotaApplies item (cr_Model criteria) = true ↔ quota_covers item.
Proof.
  unfold quotaApplies, quota_covers. case_bool_decide as H1; [tauto|]. case_bool_decide as H2.
  - rewrite andb_true_iff, negb_true_iff, bool_decide_eq_false, bool_decide_eq_true. tauto.
  - split; [done|tauto].
Qed.

Lemma used_up_spec item :
  quotaRemainingPositive item || negb (reports_remaining item) = false ↔ used_up item.
Proof.
  assert (quotaRemainingPositive item = false ↔ used_up item) as Hu.
  { unfold quotaRemainingPositive, used_up. cbn.
    destruct (qi_RemainingExact item ≫= Decimal_Sign); [apply Z.ltb_ge|].
    destruct (qi_RemainingFraction item ≫= Decimal_Sign); [apply Z.ltb_ge|].
    destruct (precision_remaining item ≫= Decimal_Sign); [apply Z.ltb_ge|].
    destruct (qi_Remaining item); [rewrite Z.ltb_ge|]; naive_solver. }
  rewrite orb_false_iff, Hu. split; [by intros [? _]|]. intros H. split; [done|].
  apply negb_false_iff. apply Hu in H. revert H. unfold quotaRemainingPositive, reports_remaining.
  destruct (qi_RemainingExact item); [done|]. destruct (qi_RemainingFraction item); [done|].
  destruct (precision_remaining item); [done|]. by destruct (qi_Remaining item).
Qed.

Lemma hasQuota_spec a : hasQuota a (cr_Model criteria) = false ↔ out_of_quota a.
Proof.
  unfold hasQuota, out_of_quota. induction (acc_Quota a) as [|item l IH]; cbn.
  { split; [done|]. intros (? & H & _). by apply elem_of_nil in H. }
  rewrite andb_false_iff, IH, <-orb_assoc, orb_false_iff, negb_false_iff, quotaApplies_spec, used_up_spec.
  setoid_rewrite elem_of_cons. naive_solver.
Qed.

Lemma belongs_spec a :
  (negb (bool_decide (cr_Platform criteria = ""))
   && negb (bool_decide (acc_Provider a = cr_Platform criteria))
   && negb (bool_decide (acc_Platform a = cr_Platform criteria)))
  || (negb (bool_decide (acc_Group a = cr_Group criteria))
      || negb (bool_decide (acc_Status a = "active"))) = false ↔ belongs a.
Proof.
  unfold belongs. rewrite !orb_false_iff, !andb_false_iff, !negb_false_iff, !bool_decide_eq_true. tauto.
Qed.

(** The selection loop's verdict on an account, in the contract's words. *)
Lemma judge_spec id a :
  accounts c !! id = Some a →
  match judge c now criteria excluded id a with
  | Candidate => fit id a ∧ ¬ egress_shut a ∧ ¬ out_of_quota a
  | NoQuota => fit id a ∧ ¬ egress_shut a ∧ out_of_quota a
  | BehindBlockedEgress => fit id a ∧ egress_shut a
  | Stale => (id ∉ excluded) ∧ bucket_ran_out id
  | Skip => ¬ fit id a ∧ ¬ ((id ∉ excluded) ∧ bucket_ran_out id)
  end.
Proof.
  intros Ha. unfold judge, fit. pose proof (belongs_spec a) as Hbel.
  pose proof (bucket_stale_spec id) as Hst. pose proof (credential_expired_spec a) as Hcr.
  pose proof (supports_spec a) as Hsu. pose proof (is_cooling_spec id) as Hco.
  pose proof (egress_blocked_spec a) as Heg. pose proof (hasQuota_spec a) as Hqu.
  destruct (bool_decide_reflect (id ∈ excluded)) as [Hex|Hex]; [tauto|].
  destruct (bucket_stale c now id); [tauto|].
  assert (¬ bucket_ran_out id) as Hnb by (rewrite <-Hst; done).
  destruct (_ && _ && _); [cbn in Hbel; assert (¬ belongs a) by (rewrite <-Hbel; done); tauto|].
  cbn [orb] in Hbel.
  destruct (_ || _); [assert (¬ belongs a) by (rewrite <-Hbel; done); tauto|].
  destruct (credential_expired a now); [assert (¬ credential_live a) by (rewrite <-Hcr; done); tauto|].
  destruct (supports a _); cbn [negb]; [|assert (¬ serves_model a) by (rewrite <-Hsu; done); tauto].
  destruct (is_cooling _ _ _ _); [assert (¬ rested id) by (rewrite <-Hco; done); tauto|].
  destruct (egress_blocked _ _ _); [tauto|]. assert (¬ egress_shut a) by (rewrite <-Heg; done).
  destruct (hasQuota a _); cbn [negb]; [|tauto].
  assert (¬ out_of_quota a) by (rewrite <-Hqu; done). tauto.
Qed.

Ltac judged id a Ha :=
  let Hs := fresh in pose proof (judge_spec id a Ha) as Hs;
  destruct (judge c now criteria excluded id a).

Lemma candidate_eligible id : candidate c now criteria excluded id ↔ eligible id.
Proof.
  unfold candidate, eligible. split; intros (a & H).
  - destruct H as [Ha Hj]. exists a. pose proof (judge_spec id a Ha) as Hs. by rewrite Hj in Hs.
  - exists a. destruct H as (Hf & He & Hq). pose proof (proj1 Hf) as Ha. split; [done|].
    judged id a Ha; unfold fit in *; tauto.
Qed.

Lemma some_NoQuota : some_account_is c now criteria excluded NoQuota ↔ quota_exhausted.
Proof.
  unfold some_account_is, quota_exhausted. split; intros (id & a & H).
  - destruct H as [Ha Hj]. exists id, a. pose proof (judge_spec id a Ha) as Hs. by rewrite Hj in Hs.
  - exists id, a. destruct H as (Hf & He & Hq). pose proof (proj1 Hf) as Ha. split; [done|].
    judged id a Ha; unfold fit in *; tauto.
Qed.

Lemma some_Stale : some_account_is c now criteria excluded Stale ↔ snapshot_stale.
Proof.
  unfold some_account_is, snapshot_stale. split; intros (id & a & Ha & H); exists id, a.
  - pose proof (judge_spec id a Ha) as Hs. by rewrite H in Hs.
  - split; [done|]. judged id a Ha; unfold fit in *; tauto.
Qed.

Lemma some_Behind : some_account_is c now criteria excluded BehindBlockedEgress ↔ way_out_shut.
Proof.
  unfold some_account_is, way_out_shut. split; intros (id & a & H); exists id, a.
  - destruct H as [Ha Hj]. pose proof (judge_spec id a Ha) as Hs. by rewrite Hj in Hs.
  - destruct H as [Hf He]. pose proof (proj1 Hf) as Ha. split; [done|].
    judged id a Ha; unfold fit in *; tauto.
Qed.

Lemma lease_of_leases a : leases a (lease_of a now).
Proof.
  unfold leases. split_and!; try done; cbn [ls_TTL lease_of]; unfold lease_ttl, is_zero_time, time_sub.
  - intros H. destruct (Z.eqb_spec (cred_ExpiresAt (acc_Credential a)) 0); [done|].
    destruct H as [|H]; [done|]. apply Z.max_l, trunc_seconds_nonpos.
    unfold clamp64, min_int64, max_int64. lia.
  - intros Hne Hlt Hmax. rewrite (proj2 (Z.eqb_neq _ _) Hne).
    assert (clamp64 (cred_ExpiresAt (acc_Credential a) - now) = cred_ExpiresAt (acc_Credential a) - now) as ->.
    { unfold clamp64, min_int64, max_int64 in *. lia. }
    pose proof (trunc_seconds (cred_ExpiresAt (acc_Credential a) - now)) as Ht.
    change second with 1000000000 in Ht |- *. lia.
Qed.
End promise.

Lemma not_some_account c now criteria excluded v :
  existsb (λ e : string * Account, bool_decide (judge c now criteria excluded e.1 e.2 = v))
    (map_to_list (accounts c)) = false →
  ¬ some_account_is c now criteria excluded v.
Proof. intros H Hs. apply (judged_exists c now criteria excluded v) in Hs. congruence. Qed.

(** C6 [AcquirePreferring] keeps its contract: it leases the preferred account when
    that one is eligible and otherwise the lexicographically least eligible one.
    Eligible is an account of the pool that is not excluded, whose snapshot bucket
    has not run out, of the platform and group asked for and active, with a live
    credential, that serves the model, is not cooling for it, whose egress is not
    shut and whose quotas for the model are not used up.  The lease carries that
    account's data, its limits with their defaults, and the credential's remaining
    seconds, to within one.  It fails only when no account is eligible, with the first of used-up
    quota, stale snapshot and shut egress that has a cause, else "no account". *)
Theorem AcquirePreferring_refines_promise c now criteria preferred excluded :
  acquire_promise c now criteria excluded preferred
    (AcquirePreferring c now criteria preferred excluded).
Proof.
  unfold AcquirePreferring, acquire_from, acquire_promise. rewrite select_loop.
  cbn [sel_ids sel_quota sel_stale sel_egress]. rewrite app_nil_l, !orb_false_l.
  destruct (sort_strings _) as [|first rest] eqn:Es.
  - apply (proj1 (sort_strings_nil _)) in Es.
    assert (∀ id, ¬ eligible c now criteria excluded id) as Hno.
    { intros id He%candidate_eligible. apply candidates_spec in He. rewrite Es in He. by inv He. }
    repeat case_if_goal;
      cbv zeta iota beta; rewrite <-?some_NoQuota, <-?some_Stale, <-?some_Behind; split_and?;
      first [exact Hno | by apply (judged_exists c now criteria excluded _)
                  | by apply not_some_account].
  - apply sort_strings_head in Es as [Hin Hle].
    pose proof Hin as He. apply candidates_spec in He.
    set (pre := bool_decide (preferred = "")).
    set (mem := bool_decide (preferred ∈ _)).
    assert (mem = true ↔ candidate c now criteria excluded preferred) as Hmem.
    { unfold mem. rewrite bool_decide_eq_true. apply candidates_spec. }
    assert (pre = true ↔ preferred = "") as Hpre by apply bool_decide_eq_true.
    unfold selects. setoid_rewrite <-candidate_eligible.
    destruct (negb pre && mem) eqn:Ep.
    + apply andb_true_iff in Ep as [Ep1%negb_true_iff Ep2]. rewrite Hmem in Ep2.
      pose proof Ep2 as (a & Ha & Hj). exists preferred, a. rewrite Ha.
      split_and!; [done..| |done|apply lease_of_leases].
      intros [->|]; [|done]. unfold pre in Ep1. by rewrite bool_decide_eq_true_2 in Ep1.
    + pose proof He as (a & Ha & Hj). exists first, a. rewrite Ha.
      split_and!; [done| | |done|apply lease_of_leases].
      * intros [Hne Hpr]. exfalso. apply Hmem in Hpr. rewrite Hpr, andb_true_r in Ep.
        apply negb_false_iff in Ep. by apply Hpre in Ep.
      * intros _ other Ho. apply Hle. by apply candidates_spec.
Qed.

(** ** The ownership invariant *)

Definition bucket_ids (c : Chooser) (k : string) : gset string :=
  bs_ids (default zeroBucket (buckets c !! k)).

Definition account_ok (id : string) (a : Account) : Prop :=
  acc_ID a = id ∧ lim_DegradePolicy (acc_Limits a) ≠ "".

Record chooser_wf (c : Chooser) : Prop := {
  wf_account : ∀ id a, accounts c !! id = Some a → account_ok id a;
  wf_owner : ∀ id k, owner c !! id = Some k ↔ id ∈ bucket_ids c k;
  wf_bucket : ∀ id k, owner c !! id = Some k →
    ∃ a, accounts c !! id = Some a ∧ bucketKey (acc_Platform a) (acc_Group a) = k
}.

Lemma lookup_delete_ids {V} (ids : gset string) (m : gmap string V) id v :
  delete_ids ids m !! id = Some v ↔ m !! id = Some v ∧ id ∉ ids.
Proof.
  unfold delete_ids. rewrite lookup_map_remove_if. by rewrite bool_decide_eq_false.
Qed.

(** What holds of the loop of [ReplaceBucket] for the bucket [key] when the
    other buckets own [others] of the accounts [rest]. *)
Record install_inv (key : string) (rest : gmap string Account) (others : gmap string string)
    (st : install) : Prop := {
  ii_account : ∀ id a, in_accounts st !! id = Some a → account_ok id a;
  ii_owner : ∀ id k, in_owner st !! id = Some k ↔
    (k = key ∧ id ∈ in_ids st) ∨ (k ≠ key ∧ others !! id = Some k);
  ii_mine : ∀ id, id ∈ in_ids st →
    ∃ a, in_accounts st !! id = Some a ∧ bucketKey (acc_Platform a) (acc_Group a) = key;
  ii_others : ∀ id k, others !! id = Some k → in_accounts st !! id = rest !! id
}.

Lemma install_account_inv platform group rest others st a :
  (∀ id, others !! id ≠ Some (bucketKey platform group)) →
  install_inv (bucketKey platform group) rest others st →
  install_inv (bucketKey platform group) rest others
    (install_account platform group (bucketKey platform group) st a).
Proof.
  intros Hfresh [Ha Ho Hm Hr]. unfold install_account.
  destruct (negb _ || negb _) eqn:Eb; [done|].
  rewrite orb_false_iff, !negb_false_iff, !bool_decide_eq_true in Eb. destruct Eb as [Hp Hg].
  set (acc := with_default_limits a). set (id := acc_ID acc). set (key := bucketKey platform group).
  destruct (match in_owner st !! id with Some o => _ | None => _ end) eqn:Et; [done|].
  assert (∀ k, others !! id ≠ Some k) as Hfree.
  { intros k Hk. destruct (decide (k = key)) as [->|Hne]; [by apply (Hfresh id)|].
    rewrite (proj2 (Ho id k)) in Et by auto.
    rewrite bool_decide_eq_false_2 in Et by done. discriminate Et. }
  split; cbn [in_accounts in_owner in_ids].
  - intros i b. rewrite lookup_insert. case_decide as E; [|by apply Ha].
    intros [= <-]. split; [done|]. apply WithDefaults_policy.
  - intros i k. rewrite lookup_insert. case_decide as E.
    + subst i. split.
      * intros [= <-]. left. split; [done|]. set_solver.
      * intros [[-> _]|[_ Hk]]; [done|]. by destruct (Hfree k).
    + rewrite Ho. set_solver.
  - intros i [->%elem_of_singleton|Hi]%elem_of_union.
    + rewrite lookup_insert_eq. exists acc. split; [done|]. cbn. by rewrite Hp, Hg.
    + destruct (decide (i = id)) as [->|Hne].
      * rewrite lookup_insert_eq. exists acc. split; [done|]. cbn. by rewrite Hp, Hg.
      * rewrite lookup_insert_ne by done. by apply Hm.
  - intros i k Hk. rewrite lookup_insert_ne; [by eapply Hr|]. intros <-. by destruct (Hfree k).
Qed.

Lemma ReplaceBucket_installed platform group accs ep v c :
  chooser_wf c →
  let key := bucketKey platform group in
  let ids := bucket_ids c key in
  install_inv key (delete_ids ids (accounts c)) (delete_ids ids (owner c))
    (Install (accounts (ReplaceBucket platform group accs ep v c))
             (owner (ReplaceBucket platform group accs ep v c))
             (bucket_ids (ReplaceBucket platform group accs ep v c) key)
             (cooling (ReplaceBucket platform group accs ep v c))
             (failures (ReplaceBucket platform group accs ep v c))).
Proof.
  intros [Ha Ho Hb] key ids. unfold bucket_ids at 1, ReplaceBucket.
  cbn [accounts owner buckets cooling failures]. rewrite lookup_insert_eq.
  fold (bucket_ids c (bucketKey platform group)). fold key. fold ids.
  match goal with |- install_inv _ _ _ (Install (in_accounts ?s) _ _ _ _) =>
    enough (install_inv key (delete_ids ids (accounts c)) (delete_ids ids (owner c)) s)
      by (by destruct s) end.
  apply foldl_inv.
  - split; cbn [in_accounts in_owner in_ids].
    + intros id a [Hid _]%lookup_delete_ids. by apply Ha.
    + intros id k. split.
      * intros H. right. split; [|done]. intros ->.
        apply lookup_delete_ids in H as [Hid Hni]. by apply Ho in Hid.
      * intros [[_ []%elem_of_empty]|[_ H]]. done.
    + intros id []%elem_of_empty.
    + done.
  - intros st a _. apply install_account_inv. intros id [H Hni]%lookup_delete_ids.
    apply Ho in H. by apply Hni.
Qed.

Lemma ReplaceBucket_wf platform group accs ep v c :
  chooser_wf c → chooser_wf (ReplaceBucket platform group accs ep v c).
Proof.
  intros Hwf. pose proof Hwf as [Ha Ho Hb].
  destruct (ReplaceBucket_installed platform group accs ep v c Hwf) as [Ia Io Im Ir].
  cbn [in_accounts in_owner in_ids] in *.
  set (c' := ReplaceBucket _ _ _ _ _ _) in *. set (key := bucketKey platform group) in *.
  assert (∀ k, k ≠ key → bucket_ids c' k = bucket_ids c k) as Hk.
  { intros k Hne. unfold bucket_ids, c', ReplaceBucket. cbn [buckets].
    by rewrite lookup_insert_ne. }
  split.
  - exact Ia.
  - intros id k. rewrite Io. destruct (decide (k = key)) as [->|Hne].
    + naive_solver.
    + rewrite (Hk k) by done. split.
      * intros [[? _]|[_ [H _]%lookup_delete_ids]]; [done|]. by apply Ho.
      * intros Hid. right. split; [done|]. apply Ho in Hid as Hid1.
        apply lookup_delete_ids. split; [done|]. intros Hid2%Ho. congruence.
  - intros id k Hid. pose proof Hid as Hc. apply Io in Hc as [[-> Hin]|[Hne H]]; [by apply Im|].
    rewrite (Ir _ _ H). apply lookup_delete_ids in H as [H Hni].
    destruct (Hb _ _ H) as (a & Hacc & Hkey). exists a. split; [|done].
    by apply lookup_delete_ids.
Qed.

Lemma RemoveBucket_wf platform group c : chooser_wf c → chooser_wf (RemoveBucket platform group c).
Proof.
  intros [Ha Ho Hb]. set (key := bucketKey platform group).
  split; unfold RemoveBucket; fold key; fold (bucket_ids c key); cbn [accounts owner].
  - intros id a [H _]%lookup_delete_ids. by apply Ha.
  - intros id k. unfold bucket_ids at 2. cbn [buckets]. rewrite lookup_delete_ids, lookup_delete.
    case_decide as E; cbn [default].
    + subst k. rewrite Ho. cbn. set_solver.
    + fold (bucket_ids c k). split; [intros [H _]; by apply Ho|].
      intros Hid%Ho. split; [done|]. intros Hid'%Ho. congruence.
  - intros id k [H Hni]%lookup_delete_ids. destruct (Hb _ _ H) as (a & Hacc & Hkey).
    exists a. split; [|done]. by apply lookup_delete_ids.
Qed.

Lemma ReplaceAtEpoch_wf snapshot ep c : chooser_wf (ReplaceAtEpoch snapshot ep c).
Proof.
  unfold ReplaceAtEpoch.
  match goal with |- context [foldl ?f ?i snapshot] =>
    assert (∀ id a, (foldl f i snapshot).1.1 !! id = Some a → account_ok id a) as H end.
  { apply (foldl_inv (λ st, ∀ id a, st.1.1 !! id = Some a → account_ok id a)).
    - intros id a. cbn. by rewrite lookup_empty.
    - intros [[next cool] fails] b _ IH id a. cbn [fst snd]. rewrite lookup_insert.
      case_decide as E; [|by apply IH]. intros [= <-].
      split; [done|apply WithDefaults_policy]. }
  destruct (foldl _ _ snapshot) as [[next cool] fails]. cbn [fst] in H.
  split; cbn [accounts owner].
  - exact H.
  - intros id k. unfold bucket_ids. cbn [buckets]. rewrite !lookup_empty. cbn. set_solver.
  - intros id k. by rewrite lookup_empty.
Qed.

(** ** Reachable states *)

Inductive chooser_step (c : Chooser) : Chooser → Prop :=
| step_replace_bucket platform group accs ep v :
    chooser_step c (ReplaceBucket platform group accs ep v c)
| step_remove_bucket platform group : chooser_step c (RemoveBucket platform group c)
| step_replace snapshot ep : chooser_step c (ReplaceAtEpoch snapshot ep c)
| step_mark_egress lease now raw : chooser_step c (MarkEgressRejected lease now raw c).2
| step_count_failure key : chooser_step c (count_failure key c).2
| step_set_cooldown key until : chooser_step c (set_cooldown key until c)
| step_clear id version : chooser_step c (ClearAccount id version c).

Lemma chooser_wf_frame c c' :
  accounts c' = accounts c → buckets c' = buckets c → owner c' = owner c →
  chooser_wf c → chooser_wf c'.
Proof.
  intros Ea Eb Eo [Ha Ho Hb]. split; unfold bucket_ids in *; rewrite ?Ea, ?Eb, ?Eo; auto.
Qed.

Lemma MarkEgressRejected_frame lease now raw c :
  let c' := (MarkEgressRejected lease now raw c).2 in
  accounts c' = accounts c ∧ buckets c' = buckets c ∧ owner c' = owner c ∧ cooling c' = cooling c.
Proof.
  unfold MarkEgressRejected. case_if_goal; [done|].
  case_match; [case_if_goal|]; done.
Qed.

Lemma chooser_step_wf c c' : chooser_step c c' → chooser_wf c → chooser_wf c'.
Proof.
  destruct 1; intros Hwf.
  - by apply ReplaceBucket_wf.
  - by apply RemoveBucket_wf.
  - apply ReplaceAtEpoch_wf.
  - destruct (MarkEgressRejected_frame lease now raw c) as (? & ? & ? & _).
    by eapply chooser_wf_frame.
  - by apply (chooser_wf_frame c).
  - by apply (chooser_wf_frame c).
  - by apply (chooser_wf_frame c).
Qed.

Lemma NewChooser_wf : chooser_wf NewChooser.
Proof.
  split; unfold bucket_ids; cbn.
  - intros id a. by rewrite lookup_empty.
  - intros id k. rewrite !lookup_empty. cbn. set_solver.
  - intros id k. by rewrite lookup_empty.
Qed.

(** C10 In every state the chooser can reach, an account is filed under its own
    ID with its limits defaulted; the owner table and the buckets agree (an
    account belongs to at most one bucket, and to exactly the bucket that lists
    it); an owned account is installed and carries the platform and group of its
    bucket.  Both critical sections of [MarkFailure] count as steps, so the
    invariant also holds between them. *)
Theorem reachable_chooser_wf c : rtc chooser_step NewChooser c → chooser_wf c.
Proof.
  intros Hr. pose proof NewChooser_wf as Hwf. revert Hwf.
  induction Hr as [|c1 c2 c3 Hs _ IH]; [done|]. intros Hwf. apply IH. by eapply chooser_step_wf.
Qed.

(** ** Isolation *)

(** [id] is owned by the bucket [k] and keeps account, owner and cooldowns. *)
Record kept (c : Chooser) (id k : string) (st : install) : Prop := {
  kept_account : in_accounts st !! id = accounts c !! id;
  kept_owner : in_owner st !! id = Some k;
  kept_cooling : ∀ m, in_cooling st !! CooldownKey id m = cooling c !! CooldownKey id m;
  kept_failures : ∀ m, in_failures st !! CooldownKey id m = failures c !! CooldownKey id m
}.

Lemma map_remove_if_keep {K V} `{Countable K} (f : K → V → bool) (m : gmap K V) k :
  (∀ v, m !! k = Some v → f k v = false) → map_remove_if f m !! k = m !! k.
Proof.
  intros Hf. destruct (m !! k) as [v|] eqn:E; [|by apply map_remove_if_None].
  apply lookup_map_remove_if. auto.
Qed.

Lemma drop_failures_keep f cool fails k :
  (∀ v, cool !! k = Some v → f k v = false) → drop_failures f cool fails !! k = fails !! k.
Proof.
  intros Hf. apply map_remove_if_keep. intros n _. destruct (cool !! k) eqn:E; auto.
Qed.

Lemma install_account_kept c id k platform group st a :
  k ≠ bucketKey platform group → kept c id k st →
  kept c id k (install_account platform group (bucketKey platform group) st a).
Proof.
  intros Hk [Ka Ko Kc Kf]. unfold install_account. case_if_goal; [done|].
  rewrite with_default_limits_ID.
  destruct (decide (acc_ID a = id)) as [->|Hne].
  { rewrite Ko, bool_decide_eq_false_2 by done. done. }
  case_if_goal; [done|].
  assert (∀ m v, stale_credential (with_default_limits a) (CooldownKey id m) v = false) as Hs.
  { intros m v. unfold stale_credential. rewrite bool_decide_eq_false_2; [done|]. cbn. congruence. }
  split; cbn [in_accounts in_owner in_cooling in_failures].
  - by rewrite lookup_insert_ne.
  - by rewrite lookup_insert_ne.
  - intros m. by rewrite map_remove_if_keep.
  - intros m. by rewrite drop_failures_keep.
Qed.

Lemma ReplaceBucket_kept platform group accs ep v c id k :
  chooser_wf c → owner c !! id = Some k → k ≠ bucketKey platform group →
  let c' := ReplaceBucket platform group accs ep v c in
  kept c id k (Install (accounts c') (owner c') ∅ (cooling c') (failures c')).
Proof.
  intros [Ha Ho Hb] Hown Hk c'.
  assert (id ∉ bucket_ids c (bucketKey platform group)) as Hni by (intros H%Ho; congruence).
  unfold c', ReplaceBucket. cbn [accounts owner cooling failures].
  match goal with |- context [foldl ?f ?i accs] => assert (kept c id k (foldl f i accs)) as H end.
  { apply foldl_inv; [|intros; by apply install_account_kept].
    split; cbn [in_accounts in_owner in_cooling in_failures].
    - unfold delete_ids. apply map_remove_if_keep. intros. by apply bool_decide_eq_false.
    - by apply lookup_delete_ids.
    - intros m. apply map_remove_if_keep. intros. cbn [ck_accountID].
      by rewrite (bool_decide_eq_false_2 (id ∈ _)), andb_false_r.
    - intros m. apply drop_failures_keep. intros. cbn [ck_accountID].
      by rewrite (bool_decide_eq_false_2 (id ∈ _)), andb_false_r. }
  by destruct H.
Qed.

(** Refreshing one bucket is invisible to the accounts of every other
    bucket: they stay installed and owned, and whether the chooser would lease
    them, for any request at any instant, is exactly what it was before. *)
Theorem ReplaceBucket_isolated platform group accs ep v c id k now criteria excluded a :
  chooser_wf c → owner c !! id = Some k → k ≠ bucketKey platform group →
  let c' := ReplaceBucket platform group accs ep v c in
  accounts c' !! id = accounts c !! id ∧ owner c' !! id = Some k ∧
  judge c' now criteria excluded id a = judge c now criteria excluded id a.
Proof.
  intros Hwf Hown Hk c'.
  destruct (ReplaceBucket_kept platform group accs ep v c id k Hwf Hown Hk) as [Ka Ko Kc _].
  cbn [in_accounts in_owner in_cooling] in *. fold c' in Ka, Ko, Kc.
  split_and!; [done..|]. unfold judge, is_cooling, bucket_stale, egress_blocked.
  rewrite Ko, Hown, Kc. unfold c' at 1 2, ReplaceBucket. cbn [buckets egress].
  by rewrite lookup_insert_ne.
Qed.

(** ** Jitter *)

Definition is_byte (raw : option Z) : Prop :=
  match raw with Some b => 0 <= b < 256 | None => True end.

(** 120 % of the base still fits in a Duration. *)
Definition jitter_safe (base : duration) : Prop := base * 120 <= max_int64.

Lemma withJitter_range raw base :
  is_byte raw → 0 < base → jitter_safe base →
  base * 80 / 100 <= withJitter raw base <= base * 120 / 100.
Proof.
  unfold withJitter, jitter_safe. intros Hb Hpos Hs.
  destruct (Z.leb_spec base 0); [lia|].
  destruct raw as [b|].
  - cbn in Hb. rewrite Z.rem_mod_nonneg by lia. pose proof (Z.mod_pos_bound b 41 ltac:(lia)).
    rewrite wrap64_id by (unfold in_int64, min_int64, max_int64 in *; nia).
    rewrite Z.quot_div_nonneg by nia. split; apply Z.div_le_mono; nia.
  - split; [apply Z.div_le_upper_bound|apply Z.div_le_lower_bound]; lia.
Qed.

(** ** Cooldowns *)

Lemma cooling_not_candidate c now criteria excluded id a cd :
  cooling c !! CooldownKey id (cr_Model criteria) = Some cd → now < cd_until cd →
  judge c now criteria excluded id a ≠ Candidate.
Proof.
  intros Hc Hn. unfold judge, is_cooling. rewrite Hc, (proj2 (after_true _ _) Hn).
  repeat case_if_goal; discriminate.
Qed.

Definition penalised (class : ErrorClass) : bool :=
  bool_decide (class ∈ [ErrorAuthExpired; ErrorRateLimitedKnown; ErrorRateLimitedUnknown;
                        ErrorUpstream5xx; ErrorBlocked]).

(** The cooldown before jitter: the upstream's reset, else by class and, for
    rate limits without a reset, by the number of failures so far. *)
Definition cooldown_base (c : Chooser) (accountID model : string) (class : ErrorClass)
    (reset : duration) : duration :=
  if 0 <? reset then reset
  else if bool_decide (class = ErrorRateLimitedUnknown)
  then backoff (default 0 (failures c !! CooldownKey accountID model) + 1)
  else cooldownDuration class.

Lemma MarkFailure_cooling accountID model class reset now now' raw c :
  class ≠ ErrorForbiddenTransport → class ≠ ErrorNetwork →
  ∃ cd, cooling (MarkFailure accountID model class reset now now' raw c)
          !! CooldownKey accountID model = Some cd ∧
        cd_until cd = if bool_decide (class = ErrorAuthInvalid) then now' + 365 * 24 * hour
                      else now + withJitter raw (cooldown_base c accountID model class reset).
Proof.
  intros Ht Hn. unfold MarkFailure.
  rewrite (bool_decide_eq_false_2 _ Ht), (bool_decide_eq_false_2 _ Hn). cbn [orb].
  unfold cooldown_base, count_failure. set (key := CooldownKey accountID model).
  destruct (bool_decide (class = ErrorRateLimitedUnknown));
    (eexists; split; [apply lookup_insert_eq|]); cbn [cd_until];
    destruct (0 <? reset); done.
Qed.

(** A penalised failure takes the account out of the running for that model:
    at every instant before 80 % of the cooldown base has passed, for every
    request for the model, the selection loop rejects the account, so no lease
    for it can be issued.  The base is the upstream's reset when it sent one,
    and otherwise 60 s, 30 s, 3 s, 60 s or the 5/15/60 s ladder. *)
Theorem MarkFailure_excludes accountID model class reset now now' raw c t criteria excluded a :
  penalised class = true → is_byte raw →
  let base := cooldown_base c accountID model class reset in
  jitter_safe base →
  t < now + base * 80 / 100 → cr_Model criteria = model →
  judge (MarkFailure accountID model class reset now now' raw c) t criteria excluded accountID a
    ≠ Candidate.
Proof.
  intros Hc Hb base Hs Ht Hm.
  assert (0 < base) as Hpos.
  { unfold base, cooldown_base. destruct (Z.ltb_spec 0 reset); [done|].
    unfold penalised in Hc. apply bool_decide_eq_true in Hc.
    rewrite !elem_of_cons, elem_of_nil in Hc.
    destruct_or?; subst; try done. cbn. unfold backoff. repeat case_if_goal; done. }
  assert (class ≠ ErrorForbiddenTransport ∧ class ≠ ErrorNetwork ∧ class ≠ ErrorAuthInvalid)
    as (H1 & H2 & H3) by (split_and!; intros ->; discriminate Hc).
  destruct (MarkFailure_cooling accountID model class reset now now' raw c H1 H2) as (cd & Hcd & Hu).
  rewrite (bool_decide_eq_false_2 _ H3) in Hu.
  pose proof (withJitter_range raw base Hb Hpos Hs).
  apply (cooling_not_candidate _ _ _ _ _ _ cd); [by rewrite Hm|]. fold base in Hu. lia.
Qed.

Lemma MarkFailure_excludes_witness :
  let c := MarkFailure "acc" "gpt" ErrorRateLimitedUnknown 0 1000 1000 (Some 3) NewChooser in
  judge c (1000 + 3 * second) (MkCriteria "" "gpt" "g" "") ∅ "acc" zeroAccount ≠ Candidate.
Proof.
  apply (MarkFailure_excludes "acc" "gpt" ErrorRateLimitedUnknown 0 1000 1000 (Some 3) NewChooser);
    [reflexivity|cbn; lia|vm_compute; discriminate|vm_compute; reflexivity|reflexivity].
Defined.

(** [MarkFailure] loses the cooldown when the upstream asks for a long one:
    120 % of a reset above 2^63/120 ns (about 889 days) overflows int64, the
    cooldown ends before it begins, and the account is leased again at once. *)
Theorem MarkFailure_overflow_loses_cooldown :
  ∃ reset raw, is_byte (Some raw) ∧ in_int64 reset ∧ reset = 900 * 24 * hour ∧
    ∀ accountID model now c,
      is_cooling (MarkFailure accountID model ErrorRateLimitedKnown reset now now (Some raw) c)
        now accountID model = false.
Proof.
  exists (900 * 24 * hour), 40. split_and!; [cbn; lia|vm_compute; split; discriminate|done|].
  intros accountID model now c.
  destruct (MarkFailure_cooling accountID model ErrorRateLimitedKnown (900 * 24 * hour) now now
              (Some 40) c) as (cd & Hcd & Hu); [done..|].
  unfold is_cooling. rewrite Hcd, Hu. apply after_false.
  rewrite bool_decide_eq_false_2 by done. unfold cooldown_base.
  assert (withJitter (Some 40) (900 * 24 * hour) < 0) by (vm_compute; reflexivity).
  change (0 <? 900 * 24 * hour) with true. cbv iota. lia.
Qed.

(** ** Bucket epochs *)

Lemma install_account_cooling_shrinks platform group key st a k v :
  in_cooling (install_account platform group key st a) !! k = Some v → in_cooling st !! k = Some v.
Proof.
  unfold install_account. repeat case_if_goal; try done. cbn [in_cooling].
  by intros [? _]%lookup_map_remove_if.
Qed.

(** A bucket whose epoch changed starts without cooldowns: no account the
    bucket owned before keeps one, whatever the new account list says. *)
Theorem ReplaceBucket_epoch_clears platform group accs ep v c id m previous :
  buckets c !! bucketKey platform group = Some previous →
  0 < bs_epoch previous → 0 < ep → ep ≠ bs_epoch previous → id ∈ bs_ids previous →
  cooling (ReplaceBucket platform group accs ep v c) !! CooldownKey id m = None.
Proof.
  intros Hb Hp He Hne Hid. unfold ReplaceBucket. cbn [cooling].
  apply eq_None_not_Some. intros [w Hw]. revert Hw.
  match goal with |- in_cooling (foldl ?f ?i _) !! _ = _ → _ =>
    assert (∀ w, in_cooling (foldl f i accs) !! CooldownKey id m = Some w →
                 in_cooling i !! CooldownKey id m = Some w) as Hshrink end.
  { match goal with |- ∀ w, _ → in_cooling ?i !! _ = _ =>
      apply (foldl_inv (λ st, ∀ w, in_cooling st !! CooldownKey id m = Some w →
                              in_cooling i !! CooldownKey id m = Some w)); [done|] end.
    intros st a _ IH w' Hw'. apply IH. by eapply install_account_cooling_shrinks. }
  intros Hw%Hshrink. cbn [in_cooling] in Hw. apply lookup_map_remove_if in Hw as [_ Hw].
  assert (default zeroBucket (buckets c !! bucketKey platform group) = previous) as Hd
    by (by rewrite Hb).
  cbn [ck_accountID] in Hw. rewrite Hd, Hb in Hw.
  rewrite !bool_decide_eq_true_2, (proj2 (Z.ltb_lt _ _) He), (proj2 (Z.ltb_lt _ _) Hp),
    (proj2 (Z.eqb_neq _ _) Hne) in Hw by (done || by eexists). done.
Qed.

(** ** Egress short circuits *)

Lemma acquire_Ok_inv c now criteria preferred excluded lease :
  AcquirePreferring c now criteria preferred excluded = Ok lease →
  ∃ id a, accounts c !! id = Some a ∧ judge c now criteria excluded id a = Candidate ∧
          lease = lease_of a now.
Proof.
  unfold AcquirePreferring, acquire_from. rewrite select_loop. cbn [sel_ids]. rewrite app_nil_l.
  destruct (sort_strings _) as [|first rest] eqn:Es.
  { repeat case_if_goal; done. }
  apply sort_strings_head in Es as [Hin _]. intros [= <-].
  assert (∀ id, candidate c now criteria excluded id →
    ∃ i a, accounts c !! i = Some a ∧ judge c now criteria excluded i a = Candidate ∧
           lease_of (default zeroAccount (accounts c !! id)) now = lease_of a now) as Hlease.
  { intros id (a & Ha & Hj). exists id, a. by rewrite Ha. }
  apply Hlease. case_if_goal; [|by apply candidates_spec].
  apply andb_true_iff in Heqb as [_ Hp%bool_decide_eq_true]. by apply candidates_spec.
Qed.

Definition suspects (c : Chooser) (key : string) : gmap string time := default ∅ (egressSeen c !! key).

Lemma MarkEgressRejected_seen lease now raw c :
  suspects (MarkEgressRejected lease now raw c).2 (egressKey (ls_Profile lease)) =
  map_remove_if (λ _ at_, egressSignalWindow <? time_sub now at_)
    (<[ls_AccountID lease := now]> (suspects c (egressKey (ls_Profile lease)))).
Proof.
  unfold suspects, MarkEgressRejected. case_if_goal; [|case_match; [case_if_goal|]];
    cbn [snd with_egress egressSeen]; by rewrite lookup_insert_eq.
Qed.

Lemma time_sub_self t : time_sub t t = 0.
Proof. unfold time_sub. by rewrite Z.sub_diag. Qed.

Lemma own_rejection_kept lease now raw c :
  suspects (MarkEgressRejected lease now raw c).2 (egressKey (ls_Profile lease))
    !! ls_AccountID lease = Some now.
Proof.
  rewrite MarkEgressRejected_seen. apply lookup_map_remove_if.
  rewrite lookup_insert_eq, time_sub_self. done.
Qed.

Lemma size_two (m : gmap string time) i j :
  i ≠ j → is_Some (m !! i) → is_Some (m !! j) → (2 <= size m)%nat.
Proof.
  intros Hne [x Hx] [y Hy]. rewrite <-(insert_delete_id m i x Hx).
  rewrite map_size_insert_None by apply lookup_delete_eq.
  assert (delete i m !! j = Some y) as Hj by (by rewrite lookup_delete_ne).
  rewrite <-(insert_delete_id _ j y Hj).
  rewrite map_size_insert_None by apply lookup_delete_eq. lia.
Qed.

(** Tripping the short circuit blocks the path until at least [now] + 80 %. *)
Lemma MarkEgressRejected_trips lease now raw c :
  is_byte raw →
  2 <= Z.of_nat (size (suspects (MarkEgressRejected lease now raw c).2 (egressKey (ls_Profile lease)))) →
  ∃ c', MarkEgressRejected lease now raw c = (true, c') ∧
  ∀ profile t, egressKey profile = egressKey (ls_Profile lease) →
    t < now + egressShortCircuit * 80 / 100 → egress_blocked c' t profile = true.
Proof.
  intros Hb. rewrite MarkEgressRejected_seen. unfold MarkEgressRejected, suspects.
  set (seen := map_remove_if _ _). intros Hsize.
  assert ((Z.of_nat (size seen) <? egressSignalAccounts) = false) as ->
    by (apply Z.ltb_ge; unfold egressSignalAccounts; lia).
  pose proof (withJitter_range raw egressShortCircuit Hb ltac:(reflexivity)
                ltac:(vm_compute; discriminate)) as [Hlow _].
  set (j := withJitter raw egressShortCircuit) in *.
  destruct (egress c !! _) as [current|] eqn:E; [destruct (after current (now + j)) eqn:Ea|];
    (eexists; split; [reflexivity|]); intros profile t Hk Ht;
    unfold egress_blocked; cbn [egress with_egress]; rewrite Hk;
    rewrite ?E, ?lookup_insert_eq; apply after_true; try apply after_true in Ea; lia.
Qed.

(** C30 Two different accounts refused on the same outbound path within 60 s
    short-circuit it: the second rejection reports so, and for at least 5.6 s no
    request, for any model, group or platform, is given an account that dials
    through that path. *)
Theorem egress_short_circuit_blocks lease1 lease2 t1 t2 raw1 raw2 c :
  let key := egressKey (ls_Profile lease1) in
  egressKey (ls_Profile lease2) = key → ls_AccountID lease1 ≠ ls_AccountID lease2 →
  time_sub t2 t1 <= egressSignalWindow → is_byte raw2 →
  let c1 := (MarkEgressRejected lease1 t1 raw1 c).2 in
  ∃ c2, MarkEgressRejected lease2 t2 raw2 c1 = (true, c2) ∧
    ∀ t criteria preferred excluded lease,
      t < t2 + egressShortCircuit * 80 / 100 →
      AcquirePreferring c2 t criteria preferred excluded = Ok lease →
      egressKey (ls_Profile lease) ≠ key.
Proof.
  intros key Hk Hne Hw Hb c1.
  destruct (MarkEgressRejected_trips lease2 t2 raw2 c1 Hb) as (c2 & Hc2 & Hblock).
  { enough (2 <= size (suspects (MarkEgressRejected lease2 t2 raw2 c1).2
                        (egressKey (ls_Profile lease2))))%nat by lia.
    apply (size_two _ _ _ Hne); [|by eexists; apply own_rejection_kept].
    exists t1. rewrite MarkEgressRejected_seen. apply lookup_map_remove_if. split.
    - rewrite lookup_insert_ne by congruence. rewrite Hk. apply own_rejection_kept.
    - by apply Z.ltb_ge. }
  exists c2. split; [done|]. intros t criteria preferred excluded lease Ht Hacq Hsame.
  apply acquire_Ok_inv in Hacq as (id & a & _ & Hj & ->). cbn in Hsame.
  unfold judge in Hj. rewrite (Hblock (acc_Profile a) t) in Hj by congruence.
  repeat case_match; discriminate.
Qed.

Lemma egress_short_circuit_blocks_witness :
  let lease id := MkLease id "p" zeroCredential zeroProfile (MkLimits 0 0 0 "") 0 "" in
  let c1 := (MarkEgressRejected (lease "a") 1000 None NewChooser).2 in
  ∃ c2, MarkEgressRejected (lease "b") (2 * second) (Some 0) c1 = (true, c2) ∧
    ∀ t criteria preferred excluded l,
      t < 2 * second + egressShortCircuit * 80 / 100 →
      AcquirePreferring c2 t criteria preferred excluded = Ok l →
      egressKey (ls_Profile l) ≠ egressKey zeroProfile.
Proof.
  apply (egress_short_circuit_blocks
    (MkLease "a" "p" zeroCredential zeroProfile (MkLimits 0 0 0 "") 0 "")
    (MkLease "b" "p" zeroCredential zeroProfile (MkLimits 0 0 0 "") 0 "")
    1000 (2 * second) None (Some 0) NewChooser).
  - reflexivity.
  - discriminate.
  - vm_compute. discriminate.
  - cbn. lia.
Defined.

(** One account's rejections on a path, however many and whenever. *)
Fixpoint reject_all (lease : Lease) (evs : list (time * option Z)) (c : Chooser) : Chooser :=
  match evs with
  | [] => c
  | (now, raw) :: evs' => reject_all lease evs' (MarkEgressRejected lease now raw c).2
  end.

Lemma lone_rejection lease now raw c :
  dom (suspects c (egressKey (ls_Profile lease))) ⊆ {[ls_AccountID lease]} →
  (MarkEgressRejected lease now raw c).1 = false ∧
  egress (MarkEgressRejected lease now raw c).2 = egress c ∧
  dom (suspects (MarkEgressRejected lease now raw c).2 (egressKey (ls_Profile lease)))
    ⊆ {[ls_AccountID lease]}.
Proof.
  intros Hd.
  assert (dom (suspects (MarkEgressRejected lease now raw c).2 (egressKey (ls_Profile lease)))
            ⊆ {[ls_AccountID lease]}) as Hd'.
  { rewrite MarkEgressRejected_seen. etransitivity.
    - apply subseteq_dom. apply map_remove_if_subseteq.
    - rewrite dom_insert. set_solver. }
  split_and!; [| |done].
  all: rewrite MarkEgressRejected_seen in Hd'; unfold MarkEgressRejected, suspects in *.
  all: set (seen := map_remove_if _ _) in *.
  all: assert (size seen <= 1)%nat as Hs
    by (rewrite <-size_dom; etransitivity; [by apply subseteq_size|by rewrite size_singleton]).
  all: assert ((Z.of_nat (size seen) <? egressSignalAccounts) = true) as ->
    by (apply Z.ltb_lt; unfold egressSignalAccounts; lia).
  all: done.
Qed.

(** One account's rejections alone never short-circuit a path, however often
    they come: the table of blocked paths is untouched, so the failover that
    §6.3.1 keeps for the first rejection is not lost. *)
Theorem lone_account_never_trips lease evs c :
  suspects c (egressKey (ls_Profile lease)) = ∅ → egress (reject_all lease evs c) = egress c.
Proof.
  intros H0. assert (dom (suspects c (egressKey (ls_Profile lease))) ⊆ {[ls_AccountID lease]})
    as Hd by (rewrite H0; set_solver).
  clear H0. revert c Hd. induction evs as [|[now raw] evs IH]; intros c Hd; cbn; [done|].
  destruct (lone_rejection lease now raw c Hd) as (_ & He & Hd'). rewrite IH by done. exact He.
Qed.

Lemma lone_account_never_trips_witness :
  let lease := MkLease "a" "p" zeroCredential zeroProfile (MkLimits 0 0 0 "") 0 "" in
  egress (reject_all lease [(1, None); (2, Some 7); (second, None)] NewChooser) = ∅.
Proof.
  apply (lone_account_never_trips
    (MkLease "a" "p" zeroCredential zeroProfile (MkLimits 0 0 0 "") 0 "")
    [(1, None); (2, Some 7); (second, None)] NewChooser). reflexivity.
Defined.

(** ** Concrete inputs for the theorems above *)

Definition demo_account (id platform : string) : Account :=
  MkAccount id platform platform "g" zeroCredential zeroProfile (MkLimits 1 10 0 "") "active" 1
    [] ["gpt"] [] UsageIntegrityFailover.

Definition demo_chooser : Chooser :=
  ReplaceBucket "p" "g" [demo_account "a" "p"; demo_account "b" "p"] 1 0
    (ReplaceBucket "q" "g" [demo_account "z" "q"] 1 0 NewChooser).

Definition demo_criteria : Criteria := MkCriteria "" "gpt" "g" "".

(** The least eligible account, the preferred one, and the excluded case. *)
Example demo_acquire :
  ls_AccountID <$> (match Acquire demo_chooser 1000 demo_criteria with Ok l => Some l | _ => None end)
  = Some "a".
Proof. vm_compute. reflexivity. Qed.
Example demo_preferred :
  ls_AccountID <$> (match AcquirePreferring demo_chooser 1000 demo_criteria "z" ∅ with
                    | Ok l => Some l | _ => None end) = Some "z".
Proof. vm_compute. reflexivity. Qed.
Example demo_none :
  AcquireExcluding demo_chooser 1000 demo_criteria {["a"; "b"; "z"]} = Err ErrNoAccount.
Proof. vm_compute. reflexivity. Qed.

Lemma demo_chooser_reachable : rtc chooser_step NewChooser demo_chooser.
Proof.
  unfold demo_chooser. eapply rtc_r; [|apply step_replace_bucket].
  eapply rtc_r; [|apply step_replace_bucket]. apply rtc_refl.
Qed.

Lemma acquire_order_irrelevant_witness :
  acquire_from [("z", demo_account "z" "q"); ("a", demo_account "a" "p")] demo_chooser 1000
    demo_criteria "" ∅ =
  acquire_from [("a", demo_account "a" "p"); ("z", demo_account "z" "q")] demo_chooser 1000
    demo_criteria "" ∅.
Proof. apply acquire_order_irrelevant. apply perm_swap. Defined.

Lemma reachable_chooser_wf_witness : chooser_wf demo_chooser.
Proof. apply reachable_chooser_wf. apply demo_chooser_reachable. Defined.

Lemma demo_chooser_wf : chooser_wf demo_chooser.
Proof. apply ReplaceBucket_wf, ReplaceBucket_wf, NewChooser_wf. Qed.

Lemma ReplaceBucket_isolated_witness :
  let c' := ReplaceBucket "p" "g" [] 2 0 demo_chooser in
  accounts c' !! "z" = accounts demo_chooser !! "z" ∧ owner c' !! "z" = Some (bucketKey "q" "g") ∧
  judge c' 1000 demo_criteria ∅ "z" (demo_account "z" "q")
  = judge demo_chooser 1000 demo_criteria ∅ "z" (demo_account "z" "q").
Proof.
  apply (ReplaceBucket_isolated "p" "g" [] 2 0 demo_chooser "z" (bucketKey "q" "g")).
  - apply demo_chooser_wf.
  - vm_compute. reflexivity.
  - discriminate.
Defined.

Lemma ReplaceBucket_epoch_clears_witness :
  cooling (ReplaceBucket "p" "g" [demo_account "a" "p"] 2 0
             (MarkFailure "a" "gpt" ErrorBlocked 0 5 5 None demo_chooser)) !! CooldownKey "a" "gpt" = None.
Proof.
  apply (ReplaceBucket_epoch_clears "p" "g" [demo_account "a" "p"] 2 0
           (MarkFailure "a" "gpt" ErrorBlocked 0 5 5 None demo_chooser) "a" "gpt"
           (BucketState 1 0 {["a"; "b"]})).
  - vm_compute. reflexivity.
  - reflexivity.
  - reflexivity.
  - discriminate.
  - vm_compute. reflexivity.
Defined.
