(* ===== verification/Numeric.v ===== *)
(** * NUMERIC(38,12) columns

    How control's money columns hold a [Decimal]: the parameter cast
    [$n::numeric], the column's rounding and overflow, and [column::text].
    The lemmas are the round trip between a stored amount, its text and the
    [big.Rat] Go computes with. *)

From S2P Require Import Prelude Decimal Money.
From Stdlib Require Import QArith.

Open Scope Z_scope.

(** NUMERIC(38,12) values are whole numbers of 10^-12 units. *)
Abbreviation numeric := Z.

(** ** Errors of a database call *)

Inductive db_error :=
| EIO                                  (* connection, driver or context error *)
| ENoRows                              (* pgx.ErrNoRows *)
| EUniqueViolation
| ECheckViolation
| EForeignKey
| ENumericOverflow
| EInvalidNumeric
| EMoney (e : money_error)
| EBadInput                            (* an argument check before any SQL *)
| EPriceNotEffectiveInFuture
| EPriceRejected
| EWalletNotFound
| EUnpriceable                         (* lineAmount *)
| EUnusableAmount
| ENoTerminalState                     (* billingStateFor *)
| EAttemptNotPersisted
| ENotHeld
| EFenceLost
| EAccountNotFound
| EUnrestrictedNotAcknowledged
| EInvalidText.                       (* invalid byte sequence for encoding UTF8 *)

Definition ascii_spaces : list string := List.map chr [9; 10; 11; 12; 13; 32]%nat.

(** PostgreSQL accepts ASCII white space around a number, not Unicode's. *)
Definition pg_trim (s : string) : string :=
  let s := trim_left_of ascii_spaces s in
  str_rev (trim_left_of (str_rev <$> ascii_spaces) (str_rev s)).

Definition numeric_limit : Z := 10 ^ moneyPrecision.

Definition numeric_fits (z : numeric) : result db_error numeric :=
  if Z.abs z <? numeric_limit then Ok z else Err ENumericOverflow.

(** [$n::numeric] assigned to a NUMERIC(38,12) column. *)
Definition numeric_in (d : Decimal) : result db_error numeric :=
  match rat_set_string (pg_trim d) with
  | Some q => numeric_fits (rat_round 12 q)
  | None => Err EInvalidNumeric
  end.

(** [column::text]. *)
Definition numeric_out (z : numeric) : Decimal := show_scaled 12 (z <? 0) (Z.abs z).

(** The rational a stored amount is read back as. *)
Definition units (z : numeric) : Q := if z =? 0 then inject_Z 0 else z # 10 ^ 12.

Definition sumZ (l : list Z) : Z := foldr Z.add 0 l.

(** ** Lemmas *)

Lemma sumZ_app l1 l2 : sumZ (l1 ++ l2) = sumZ l1 + sumZ l2.
Proof. induction l1 as [|x l1 IH]; cbn; [done|]. unfold sumZ in *. lia. Qed.

Lemma sumZ_perm l1 l2 : l1 ≡ₚ l2 → sumZ l1 = sumZ l2.
Proof. unfold sumZ. induction 1; cbn in *; lia. Qed.

Lemma sumZ_nonneg l : Forall (λ z, 0 <= z) l → 0 <= sumZ l.
Proof. unfold sumZ. induction 1; cbn in *; lia. Qed.

Lemma units_spec z : (units z == z # 10 ^ 12)%Q.
Proof. unfold units. destruct (Z.eqb_spec z 0) as [->|]; reflexivity. Qed.

Lemma units_plus a b : (units a + units b == units (a + b))%Q.
Proof. rewrite !units_spec. unfold Qeq, Qplus. cbn. lia. Qed.

(** Only the value of a rational decides how it is rounded. *)
Lemma rat_round_value q z : (q == z # 10 ^ 12)%Q → rat_round 12 q = z ∧ round_abs 12 q = Z.abs z
  ∧ (Qnum q <? 0) = (z <? 0).
Proof.
  destruct q as [n d]. unfold Qeq, rat_round, round_abs. cbn [Qnum Qden].
  change (QDen (z # 10 ^ 12)) with (10 ^ 12). change (Z.of_nat 12) with 12.
  change (Z.pos (10 ^ 12)) with (10 ^ 12). intros H.
  assert (Z.sgn n = Z.sgn z) as Hs by nia.
  assert ((2 * Z.abs n * 10 ^ 12 + Z.pos d) / (2 * Z.pos d) = Z.abs z) as ->.
  { symmetry. apply (Z.div_unique _ _ _ (Z.pos d)); [lia|].
    assert (Z.abs n * 10 ^ 12 = Z.abs z * Z.pos d) by nia. lia. }
  split_and!; [rewrite Hs; lia|done|]. destruct (Z.ltb_spec n 0), (Z.ltb_spec z 0); lia.
Qed.

Lemma float_string_value q z : (q == z # 10 ^ 12)%Q → float_string 12 q = numeric_out z.
Proof.
  intros (_ & H1 & H2)%rat_round_value. unfold float_string, numeric_out. by rewrite H1, H2.
Qed.

Lemma float_string_round q :
  float_string 12 q = show_scaled 12 (Qnum q <? 0) (Z.abs (rat_round 12 q)).
Proof.
  unfold float_string. f_equal. unfold rat_round.
  assert (0 <= round_abs 12 q) by (apply Z.div_pos; [|lia]; change (Z.of_nat 12) with 12; lia).
  destruct q as [n d]. cbn [Qnum] in *. destruct n as [|n|n]; cbn [Z.sgn]; [|lia..].
  unfold round_abs in *. cbn [Qnum Qden Z.abs] in *. rewrite Z.div_small; lia.
Qed.

Lemma signed_round q :
  (if Qnum q <? 0 then - Z.abs (rat_round 12 q) else Z.abs (rat_round 12 q)) = rat_round 12 q.
Proof.
  unfold rat_round. assert (0 <= round_abs 12 q) by
    (unfold round_abs; apply Z.div_pos; [|lia]; change (Z.of_nat 12) with 12; lia).
  destruct (Z.ltb_spec (Qnum q) 0).
  - rewrite Z.sgn_neg by done. lia.
  - destruct (Z.eq_dec (Qnum q) 0) as [->|]; [done|]. rewrite Z.sgn_pos by lia. lia.
Qed.

(** ** White space does not touch a printed amount *)

Definition money_char (a : Ascii.ascii) : bool :=
  is_digit a || sign_mark a || bool_decide (a = byte_of 46) || exp_mark a.

Definition starts_foreign (p : Ascii.ascii → bool) (e : string) : bool :=
  match e with EmptyString => false | String a _ => negb (p a) end.

Lemma trim_left_of_foreign p encs s :
  forallb (starts_foreign p) encs = true → str_forallb p s = true →
  trim_left_of encs s = s.
Proof.
  intros He Hs. unfold trim_left_of. destruct (String.length s); [done|]. cbn [trim_left_fuel].
  assert (strip_one encs s = None) as ->; [|done].
  induction encs as [|e encs IH]; [done|]. cbn in *. apply andb_true_iff in He as [He1 He].
  destruct e as [|a e]; [done|]. destruct s as [|b s]; cbn in *; [auto|].
  apply andb_true_iff in Hs as [Hb Hs]. rewrite bool_decide_eq_false_2; [by apply IH|].
  intros ->. by rewrite Hb in He1.
Qed.

Lemma trim_left_of_money encs s :
  forallb (starts_foreign money_char) encs = true → str_forallb money_char s = true →
  trim_left_of encs s = s.
Proof. apply trim_left_of_foreign. Qed.

Lemma rev_app_forallb f s : ∀ t,
  str_forallb f (String.rev_app s t) = str_forallb f s && str_forallb f t.
Proof.
  induction s as [|a s IH]; intros t; cbn; [done|]. rewrite IH. cbn.
  by destruct (f a), (str_forallb f s).
Qed.

Lemma rev_app_rev_app s : ∀ t u,
  String.rev_app (String.rev_app s t) u = String.rev_app t (s +:+ u)%string.
Proof. induction s as [|a s IH]; intros t u; cbn; [done|]. by rewrite IH. Qed.

Lemma str_rev_involutive s : str_rev (str_rev s) = s.
Proof. unfold str_rev, String.rev. rewrite rev_app_rev_app. cbn. apply str_app_nil_r. Qed.

Lemma str_rev_forallb f s : str_forallb f (str_rev s) = str_forallb f s.
Proof. unfold str_rev, String.rev. rewrite rev_app_forallb. cbn. by rewrite andb_true_r. Qed.

Lemma trim_space_foreign p s :
  forallb (starts_foreign p) (space_strings ++ (str_rev <$> space_strings)) = true →
  str_forallb p s = true → trim_space s = s.
Proof.
  rewrite forallb_app, andb_true_iff. intros [H1 H2] Hs. unfold trim_space.
  rewrite (trim_left_of_foreign p _ s) by done.
  rewrite (trim_left_of_foreign p); [by rewrite str_rev_involutive|done|by rewrite str_rev_forallb].
Qed.

Lemma trim_space_money s : str_forallb money_char s = true → trim_space s = s.
Proof. apply trim_space_foreign. vm_compute. reflexivity. Qed.

Lemma pg_trim_money s : str_forallb money_char s = true → pg_trim s = s.
Proof.
  intros Hs. unfold pg_trim. rewrite (trim_left_of_money _ s); [|vm_compute; reflexivity|done].
  rewrite trim_left_of_money; [by rewrite str_rev_involutive|vm_compute; reflexivity|by rewrite str_rev_forallb].
Qed.

Lemma digits_money s : all_digits s → str_forallb money_char s = true.
Proof.
  unfold money_char. induction s as [|a s IH]; cbn; [done|].
  intros [-> Hs]%andb_true_iff. cbn. auto.
Qed.

Definition frac12 (n : Z) : string := digits_fixed 12 (n mod 10 ^ 12).

Lemma show_scaled_12 neg n :
  show_scaled 12 neg n =
  ((if neg then "-" else "") +:+ show_nonneg (n / 10 ^ 12) +:+ "." +:+ frac12 n)%string.
Proof. reflexivity. Qed.

Lemma show_scaled_money neg n : str_forallb money_char (show_scaled 12 neg n) = true.
Proof.
  rewrite show_scaled_12, !str_forallb_app.
  rewrite (digits_money _ (show_nonneg_digits _)), (digits_money (frac12 n) (digits_fixed_digits _ _)).
  by destruct neg.
Qed.

(** ** Reading a printed amount *)

Lemma span_digits_app d r : all_digits d →
  match r with EmptyString => True | String a _ => is_digit a = false end →
  span_digits (d +:+ r)%string = (d, r).
Proof.
  induction d as [|a d IH]; autorewrite with gw_str; cbn [str_forallb span_digits].
  - intros _ Hr. destruct r as [|a r]; cbn; [done|]. by rewrite Hr.
  - intros [Ha Hd]%andb_true_iff Hr. by rewrite Ha, IH.
Qed.

Definition shown_literal (neg : bool) (n : Z) : literal :=
  Literal neg (show_nonneg (n / 10 ^ 12)) (frac12 n) true None.

Lemma scan_shown neg n :
  scan_unsigned neg (show_nonneg (n / 10 ^ 12) +:+ String (byte_of 46) (frac12 n))%string
  = Some (shown_literal neg n).
Proof.
  unfold scan_unsigned. autorewrite with gw_str.
  rewrite span_digits_app; [|apply show_nonneg_digits|reflexivity].
  rewrite bool_decide_eq_true_2 by done.
  rewrite <-(str_app_nil_r (frac12 n)) at 1.
  rewrite span_digits_app; [|apply digits_fixed_digits|exact I]. done.
Qed.

Lemma shown_value neg n : 0 <= n →
  rat_of_literal (shown_literal neg n) = Some (units (if neg then - n else n)).
Proof.
  intros Hn. unfold rat_of_literal. cbn [lit_int lit_frac lit_exp shown_literal].
  pose proof (show_nonneg_nonempty (n / 10 ^ 12)) as Hne.
  destruct (show_nonneg (n / 10 ^ 12)) as [|a i] eqn:E; [done|].
  autorewrite with gw_str. cbn [String.eqb negb].
  unfold literal_mantissa. cbn [lit_int lit_frac lit_neg shown_literal]. clear E a i Hne.
  assert (digits_val (show_nonneg (n / 10 ^ 12) +:+ frac12 n) = n) as Hv.
  { unfold frac12. rewrite digits_val_app, digits_fixed_length, show_nonneg_val
      by (apply Z.div_pos; lia).
    rewrite digits_fixed_val by (apply Z.mod_pos_bound; lia).
    change (Z.of_nat 12) with 12. rewrite Z.mod_mod by lia.
    pose proof (Z.div_mod n (10 ^ 12)). lia. }
  rewrite Hv. unfold units. destruct (Z.eqb_spec (if neg then - n else n) 0); [done|].
  unfold frac12. rewrite digits_fixed_length. done.
Qed.

(** Reading what [FloatString] or [column::text] printed gives the amount. *)
Lemma rat_set_string_shown neg n : 0 <= n →
  rat_set_string (show_scaled 12 neg n) = Some (units (if neg then - n else n)).
Proof.
  intros Hn. rewrite show_scaled_12. unfold rat_set_string.
  destruct neg; autorewrite with gw_str.
  - rewrite bool_decide_eq_true_2 by done.
    change (Ascii.Ascii _ _ _ _ _ _ _ _) with (byte_of 46). rewrite scan_shown. by apply shown_value.
  - pose proof (show_nonneg_nonempty (n / 10 ^ 12)). pose proof (show_nonneg_digits (n / 10 ^ 12)) as Hd.
    destruct (show_nonneg (n / 10 ^ 12)) as [|a i] eqn:E; [done|].
    autorewrite with gw_str. cbn in Hd. apply andb_true_iff in Hd as [Ha _].
    apply is_digit_not_sign in Ha as (Hs & _). unfold sign_mark in Hs.
    apply orb_false_iff in Hs as [-> ->].
    rewrite <-str_app_cons, <-E. setoid_rewrite scan_shown. by apply shown_value.
Qed.

Lemma abs_signed z : (if z <? 0 then - Z.abs z else Z.abs z) = z.
Proof. destruct (Z.ltb_spec z 0); lia. Qed.

Lemma rat_set_string_out z : rat_set_string (numeric_out z) = Some (units z).
Proof. unfold numeric_out. rewrite rat_set_string_shown, abs_signed by lia. done. Qed.

Lemma numeric_in_shown neg n : 0 <= n →
  numeric_in (show_scaled 12 neg n) = numeric_fits (if neg then - n else n).
Proof.
  intros Hn. unfold numeric_in. rewrite pg_trim_money, rat_set_string_shown by
    (apply show_scaled_money || done).
  f_equal. apply rat_round_value, units_spec.
Qed.

Lemma numeric_in_out z : numeric_in (numeric_out z) = numeric_fits z.
Proof. unfold numeric_out. rewrite numeric_in_shown, abs_signed by lia. done. Qed.

Lemma numeric_fits_Ok z v : numeric_fits z = Ok v → v = z ∧ Z.abs z < numeric_limit.
Proof. unfold numeric_fits. destruct (Z.ltb_spec (Z.abs z) numeric_limit); [by intros [= <-]|done]. Qed.

Lemma numeric_out_minus z : 0 < z → ("-" +:+ numeric_out z)%string = numeric_out (- z).
Proof.
  intros Hz. unfold numeric_out. rewrite !show_scaled_12.
  destruct (Z.ltb_spec z 0), (Z.ltb_spec (- z) 0); try lia.
  rewrite Z.abs_opp. autorewrite with gw_str. done.
Qed.

(** ** The two trims agree on whatever is a number *)

Section trims.
  Context (encs : list string) (Hne : Forall (λ e, e ≠ EmptyString) encs).

Lemma has_prefix_app e s : has_prefix e s = true → s = (e +:+ str_drop (String.length e) s)%string.
Proof.
  revert s. induction e as [|a e IH]; intros s; autorewrite with gw_str; cbn; [done|].
  destruct s as [|b s]; [done|]. intros [->%bool_decide_eq_true Hs]%andb_true_iff. f_equal. auto.
Qed.

Lemma strip_one_Some s s' :
  strip_one encs s = Some s' → ∃ e, e ∈ encs ∧ s = (e +:+ s')%string.
Proof.
  clear Hne. induction encs as [|e l IH]; cbn; [done|].
  destruct (has_prefix e s) eqn:E.
  - intros [= <-]. exists e. split; [apply list_elem_of_here|]. by apply has_prefix_app.
  - intros (e' & He & Hs)%IH. exists e'. split; [by apply list_elem_of_further|done].
Qed.

Lemma strip_one_shorter s s' :
  strip_one encs s = Some s' → (String.length s' < String.length s)%nat.
Proof using Hne.
  intros (e & He & ->)%strip_one_Some. rewrite str_length_app.
  apply (proj1 (list.Forall_forall _ _) Hne) in He. destruct e; [done|]. cbn. lia.
Qed.

Lemma trim_left_fuel_enough n m s :
  (String.length s <= n)%nat → (String.length s <= m)%nat →
  trim_left_fuel n encs s = trim_left_fuel m encs s.
Proof using Hne.
  revert m s. induction n as [|n IH]; intros m s Hn Hm.
  - destruct s; [|cbn in Hn; lia]. destruct m; cbn; [done|].
    destruct (strip_one encs "") eqn:E; [|done]. apply strip_one_shorter in E. cbn in E. lia.
  - destruct m as [|m]; cbn; destruct (strip_one encs s) as [s'|] eqn:E; [|done| |done];
      apply strip_one_shorter in E; [lia|]. apply IH; lia.
Qed.

Lemma trim_left_of_strip s s' :
  strip_one encs s = Some s' → trim_left_of encs s = trim_left_of encs s'.
Proof using Hne.
  intros E. pose proof (strip_one_shorter _ _ E) as Hl. unfold trim_left_of.
  destruct (String.length s) as [|n] eqn:Es; [lia|]. cbn [trim_left_fuel]. rewrite E.
  apply trim_left_fuel_enough; lia.
Qed.

(** A second list of encodings that only strips what [encs] strips. *)
Lemma trim_left_of_sub sub s :
  (∀ s s', strip_one sub s = Some s' → strip_one encs s = Some s') →
  trim_left_of encs (trim_left_of sub s) = trim_left_of encs s.
Proof using Hne.
  intros Hsub. enough (∀ fuel, trim_left_of encs (trim_left_fuel fuel sub s) =
    trim_left_of encs s) as H by apply H.
  intros fuel. revert s. induction fuel as [|fuel IH]; intros s; cbn [trim_left_fuel]; [done|].
  destruct (strip_one sub s) as [s'|] eqn:E; [|done].
  rewrite IH. symmetry. apply trim_left_of_strip. by apply Hsub.
Qed.

End trims.

Lemma trim_left_of_suffix encs s : ∃ p, s = (p +:+ trim_left_of encs s)%string.
Proof.
  unfold trim_left_of. generalize (String.length s) as fuel. intros fuel. revert s.
  induction fuel as [|fuel IH]; intros s; cbn; [by exists ""%string|].
  destruct (strip_one encs s) as [s'|] eqn:E; [|by exists ""%string].
  apply strip_one_Some in E as (e & _ & ->). destruct (IH s') as [p Hp].
  exists (e +:+ p)%string. by rewrite str_app_assoc, <-Hp.
Qed.

(** [encs] holds the bytes of [sub], and its other members start with none of them. *)
Definition extends_bytes (sub encs : list string) : bool :=
  forallb (λ b, bool_decide (b ∈ encs) && bool_decide (String.length b = 1%nat)) sub &&
  forallb (λ e, match e with
                | String a EmptyString => true
                | String a _ => negb (bool_decide (chr (Ascii.nat_of_ascii a) ∈ sub))
                | EmptyString => false
                end) encs.

Lemma chr_of_ascii a : chr (Ascii.nat_of_ascii a) = String a EmptyString.
Proof. unfold chr, byte_of. by rewrite Ascii.ascii_nat_embedding. Qed.

Lemma strip_one_byte encs a s :
  forallb (λ e, match e with
                | String b EmptyString => true
                | String b _ => negb (bool_decide (a = b))
                | EmptyString => false
                end) encs = true →
  String a EmptyString ∈ encs → strip_one encs (String a s) = Some s.
Proof.
  induction encs as [|e encs IH]; cbn; intros Hall Hin; [by apply elem_of_nil in Hin|].
  apply andb_true_iff in Hall as [He Hall].
  destruct e as [|b [|c e]]; [done| |]; cbn.
  - case_bool_decide as Eb; [done|]. apply elem_of_cons in Hin as [|Hin]; [congruence|auto].
  - rewrite negb_true_iff, bool_decide_eq_false in He.
    rewrite bool_decide_eq_false_2 by congruence. cbn.
    apply elem_of_cons in Hin as [|Hin]; [congruence|auto].
Qed.

Lemma strip_one_extends sub encs s s' :
  extends_bytes sub encs = true → strip_one sub s = Some s' → strip_one encs s = Some s'.
Proof.
  intros [Hs He]%andb_true_iff (b & Hb & ->)%strip_one_Some.
  rewrite forallb_Forall, list.Forall_forall in Hs. specialize (Hs b Hb).
  apply andb_true_iff in Hs as [Hin%bool_decide_eq_true Hl%bool_decide_eq_true].
  destruct b as [|a [|c b]]; [done| |done]. autorewrite with gw_str.
  apply strip_one_byte; [|done]. rewrite forallb_Forall, list.Forall_forall in He |- *.
  intros e Hein. specialize (He e Hein). destruct e as [|b [|c e]]; [done..|].
  rewrite negb_true_iff, bool_decide_eq_false in He |- *. intros ->.
  by rewrite chr_of_ascii in He.
Qed.

Lemma scan_exponent_money s e : scan_exponent s = Some e → str_forallb money_char s = true.
Proof.
  destruct s as [|a r]; cbn [scan_exponent]; [done|]. destruct (exp_mark a) eqn:Ea; [|done].
  destruct (_ && str_forallb _ _) eqn:E; [|done]. intros _. cbn. unfold money_char at 1.
  rewrite Ea, !orb_true_r. cbn. apply andb_true_iff in E as [_ E].
  destruct r as [|b r]; [done|]. destruct (sign_mark b) eqn:Eb; [|by apply digits_money].
  cbn. unfold money_char at 1. rewrite Eb, orb_true_r. cbn. by apply digits_money.
Qed.

Lemma scan_unsigned_money neg s l :
  scan_unsigned neg s = Some l → str_forallb money_char s = true.
Proof.
  unfold scan_unsigned. destruct (span_digits s) as [i r] eqn:Ei.
  apply span_digits_spec in Ei as (-> & Hi & Hr).
  rewrite str_forallb_app, (digits_money _ Hi). cbn [andb]. destruct r as [|a r']; [done|].
  case_bool_decide as Ea.
  - destruct (span_digits r') as [f r''] eqn:Ef. apply span_digits_spec in Ef as (-> & Hf & _).
    intros (e & He & _)%bind_Some. cbn. rewrite str_forallb_app, (digits_money _ Hf).
    rewrite (scan_exponent_money _ _ He). subst a. done.
  - intros (e & He & _)%bind_Some. exact (scan_exponent_money _ _ He).
Qed.

Lemma rat_set_string_money s q : rat_set_string s = Some q → str_forallb money_char s = true.
Proof.
  unfold rat_set_string. intros (l & Hl & _)%bind_Some. destruct s as [|a r]; [done|].
  destruct (bool_decide (a = byte_of 45)) eqn:E1;
    [|destruct (bool_decide (a = byte_of 43)) eqn:E2];
    apply scan_unsigned_money in Hl; cbn; [..|exact Hl];
    unfold money_char at 1; rewrite Hl; unfold sign_mark; by rewrite ?E1, ?E2, ?orb_true_r.
Qed.

Lemma str_rev_app s t : str_rev (s +:+ t) = (str_rev t +:+ str_rev s)%string.
Proof.
  assert (∀ s t u, String.rev_app (s +:+ t) u = String.rev_app t (String.rev_app s u)) as Hr.
  { clear. induction s as [|a s IH]; intros t u; autorewrite with gw_str; cbn; [done|]. by rewrite IH. }
  assert (∀ t u, String.rev_app t u = (String.rev_app t "" +:+ u)%string) as Ha.
  { clear. induction t as [|a t IH]; intros u; cbn; autorewrite with gw_str; [done|].
    rewrite IH, (IH (String a "")), str_app_assoc. by autorewrite with gw_str. }
  unfold str_rev, String.rev. by rewrite Hr, Ha.
Qed.

Lemma spaces_nonempty : Forall (λ e, e ≠ EmptyString) space_strings.
Proof. apply (bool_decide_unpack _). vm_compute. exact I. Qed.
Lemma rev_spaces_nonempty : Forall (λ e, e ≠ EmptyString) (str_rev <$> space_strings).
Proof. apply (bool_decide_unpack _). vm_compute. exact I. Qed.

(** What PostgreSQL trims to a number, Go's TrimSpace trims to the same number. *)
Lemma pg_trim_reads d q : rat_set_string (pg_trim d) = Some q → trim_space d = pg_trim d.
Proof.
  intros Hq. pose proof (rat_set_string_money _ _ Hq) as Hm. revert Hq Hm. unfold pg_trim.
  set (x := trim_left_of ascii_spaces d).
  destruct (trim_left_of_suffix (str_rev <$> ascii_spaces) (str_rev x)) as [p Hp].
  set (y := trim_left_of (str_rev <$> ascii_spaces) (str_rev x)) in *. intros Hq Hm.
  assert (x = str_rev y +:+ str_rev p)%string as Hx
    by (by rewrite <-str_rev_app, <-Hp, str_rev_involutive).
  unfold trim_space. rewrite <-(trim_left_of_sub _ spaces_nonempty
    ascii_spaces d) by (intros ??; by apply strip_one_extends).
  fold x. assert (trim_left_of space_strings x = x) as ->.
  { rewrite Hx. destruct (str_rev y) as [|a b] eqn:Eb; [done|].
    cbn in Hm. apply andb_true_iff in Hm as [Ha _]. autorewrite with gw_str.
    unfold trim_left_of. cbn [String.length trim_left_fuel].
    assert (strip_one space_strings (String a (b +:+ str_rev p)) = None) as ->; [|done].
    destruct (strip_one _ _) as [s'|] eqn:E; [|done].
    apply strip_one_Some in E as (e & He & E).
    assert (forallb (starts_foreign money_char) space_strings = true) as Hf by (vm_compute; reflexivity).
    rewrite forallb_Forall, list.Forall_forall in Hf. specialize (Hf e He).
    destruct e as [|c e]; [done|]. autorewrite with gw_str in E. simplify_eq. cbn in Hf.
    by rewrite Ha in Hf. }
  rewrite <-(trim_left_of_sub _ rev_spaces_nonempty
    (str_rev <$> ascii_spaces) (str_rev x)) by (intros ??; by apply strip_one_extends).
  fold y. rewrite trim_left_of_money; [done|vm_compute; reflexivity|].
  by rewrite <-str_rev_forallb.
Qed.

(** ** A printed amount is a valid [Decimal] *)

Lemma drop_zeros_head s a r : drop_zeros s = String a r → a ≠ byte_of 48.
Proof.
  induction s as [|b s IH]; cbn [drop_zeros]; [done|]. case_bool_decide; [exact IH|].
  by intros [= <- <-].
Qed.

Lemma show_nonneg_integer_part n : integer_part_ok (show_nonneg n) = true.
Proof.
  unfold show_nonneg. destruct (drop_zeros _) as [|a r] eqn:E; [done|].
  apply drop_zeros_head in E. cbn. by rewrite bool_decide_eq_false_2.
Qed.

Lemma decimalPattern_shown neg n :
  decimalPattern (show_scaled 12 neg n) = Some (shown_literal neg n).
Proof.
  assert (∀ g : bool, (l ← Some (shown_literal g n);
    if integer_part_ok (lit_int l) && (negb (lit_point l) || negb (String.eqb (lit_frac l) ""))
    then Some l else None) = Some (shown_literal g n)) as H.
  { intros g. cbn. rewrite show_nonneg_integer_part. cbn. unfold frac12.
    pose proof (digits_fixed_length 12 (n mod 10 ^ 12)). by destruct (digits_fixed _ _). }
  rewrite show_scaled_12. unfold decimalPattern. destruct neg; autorewrite with gw_str.
  - rewrite bool_decide_eq_true_2 by done.
    change (Ascii.Ascii _ _ _ _ _ _ _ _) with (byte_of 46). rewrite scan_shown. apply H.
  - pose proof (show_nonneg_nonempty (n / 10 ^ 12)). pose proof (show_nonneg_digits (n / 10 ^ 12)) as Hd.
    destruct (show_nonneg (n / 10 ^ 12)) as [|a i] eqn:E; [done|].
    autorewrite with gw_str. cbn in Hd. apply andb_true_iff in Hd as [Ha _].
    apply is_digit_not_sign in Ha as (Hs & _). unfold sign_mark in Hs.
    apply orb_false_iff in Hs as [-> _].
    rewrite <-str_app_cons, <-E. setoid_rewrite scan_shown. apply H.
Qed.

Lemma Decimal_Valid_shown neg n : Decimal_Valid (show_scaled 12 neg n) = true.
Proof.
  unfold Decimal_Valid. rewrite trim_space_money by apply show_scaled_money.
  rewrite decimalPattern_shown. destruct (String.eqb_spec (show_scaled 12 neg n) ""); [|done].
  pose proof (decimalPattern_shown neg n) as H. by rewrite e in H.
Qed.

Lemma rat_sign_units z : rat_sign (units z) = Z.sgn z.
Proof. unfold units. by destruct (Z.eqb_spec z 0) as [->|]. Qed.

Lemma Decimal_Sign_shown neg n : 0 <= n →
  Decimal_Sign (show_scaled 12 neg n) = Some (Z.sgn (if neg then - n else n)).
Proof.
  intros Hn. unfold Decimal_Sign. rewrite Decimal_Valid_shown. cbn [negb].
  rewrite trim_space_money, rat_set_string_shown by (apply show_scaled_money || done).
  cbn. by rewrite rat_sign_units.
Qed.

Lemma Decimal_Sign_out z : Decimal_Sign (numeric_out z) = Some (Z.sgn z).
Proof. unfold numeric_out. rewrite Decimal_Sign_shown, abs_signed by lia. done. Qed.

Lemma numeric_out_reads z : reads (numeric_out z) (shown_literal (z <? 0) (Z.abs z)).
Proof. apply decimalPattern_reads, decimalPattern_shown. Qed.

Lemma trim_space_out z : trim_space (numeric_out z) = numeric_out z.
Proof. apply trim_space_money, show_scaled_money. Qed.

Lemma decimalPlaces_out z : decimalPlaces (numeric_out z) = 12.
Proof.
  unfold decimalPlaces. rewrite trim_space_out.
  pose proof (numeric_out_reads z) as Hr. rewrite (reads_cut _ _ Hr).
  destruct (point_index _ _ Hr (if lit_neg (shown_literal (z <? 0) (Z.abs z)) then "-" else ""))
    as [_ Hx].
  rewrite Hx by (destruct (lit_neg _); auto). unfold point_part. cbn [lit_point shown_literal lit_exp].
  rewrite !str_length_app. cbn [lit_int lit_frac shown_literal exponent_of].
  autorewrite with gw_str. cbn [String.length]. unfold frac12. rewrite digits_fixed_length.
  replace (Z.of_nat _ - Z.of_nat _ - 1 - 0) with 12 by (cbn [lit_neg]; lia). done.
Qed.

(** What PostgreSQL prints for an amount: 12 places, or the bare 0 of a COALESCE. *)
Definition amount_text (text : Decimal) (z : numeric) : Prop :=
  text = numeric_out z ∨ (text = "0"%string ∧ z = 0).

Lemma amount_text_value text z : amount_text text z → rat_set_string text = Some (units z).
Proof. intros [->|[-> ->]]; [apply rat_set_string_out|reflexivity]. Qed.

Lemma amount_text_sub x y a b :
  amount_text x a → amount_text y b →
  ∃ d, Decimal_Sub x y = Some d ∧ Decimal_Sign d = Some (Z.sgn (a - b)).
Proof.
  intros Hx Hy.
  assert (∀ text z, amount_text text z → Decimal_Valid text = true ∧ trim_space text = text
    ∧ (decimalPlaces text = 12 ∨ (text = "0"%string ∧ z = 0))) as Hv.
  { intros text z [->|[-> ->]].
    - split_and!; [apply Decimal_Valid_shown|apply trim_space_out|left; apply decimalPlaces_out].
    - split_and!; [by vm_compute|by vm_compute|by right]. }
  destruct (Hv x a Hx) as (Vx & Tx & Px), (Hv y b Hy) as (Vy & Ty & Py).
  assert (float_string 12 (units a - units b) = numeric_out (a - b)) as Hd.
  { apply float_string_value. rewrite !units_spec. unfold Qeq, Qminus, Qplus, Qopp. cbn. lia. }
  unfold Decimal_Sub. rewrite Vx, Vy, Tx, Ty. cbn [negb orb].
  rewrite (amount_text_value _ _ Hx), (amount_text_value _ _ Hy).
  assert (∀ p q : Z, decimalPlaces x = p → decimalPlaces y = q → (if p <? q then q else p) = 12 →
    ∃ d, (left ← Some (units a); right ← Some (units b);
          Some (float_string (Z.to_nat (if decimalPlaces x <? decimalPlaces y then decimalPlaces y
                                        else decimalPlaces x)) (Qminus left right))) = Some d ∧
         Decimal_Sign d = Some (Z.sgn (a - b))) as H12.
  { intros p q -> -> E. eexists. split; [reflexivity|]. rewrite E.
    change (Z.to_nat 12) with 12%nat. by rewrite Hd, Decimal_Sign_out. }
  destruct Px as [Px|[Ex Ea]], Py as [Py|[Ey Eb]].
  - by apply (H12 12 12).
  - apply (H12 12 0); [done|rewrite Ey; by vm_compute|done].
  - apply (H12 0 12); [rewrite Ex; by vm_compute|done|done].
  - rewrite Ex, Ey, Ea, Eb. eexists. split; [reflexivity|]. by vm_compute.
Qed.

(** C33 Money survives every trip between Go and PostgreSQL: an amount the
    column holds is printed as a valid [Decimal], parsed by [big.Rat] as exactly
    its value, printed again by [FloatString(12)] as the same text, and accepted
    back by the column as the same amount; and whatever rational Go prints at 12
    places is stored as that rational rounded once. *)
Theorem numeric_roundtrip z :
  Z.abs z < numeric_limit →
  Decimal_Valid (numeric_out z) = true ∧
  ∃ q, rat_set_string (numeric_out z) = Some q ∧ (q == z # 10 ^ 12)%Q ∧
       float_string 12 q = numeric_out z ∧ numeric_in (numeric_out z) = Ok z ∧
       ∀ x, rat_round 12 x = z → numeric_in (float_string 12 x) = Ok z.
Proof.
  intros Hz. split; [apply Decimal_Valid_shown|]. exists (units z).
  split_and!; [apply rat_set_string_out|apply units_spec|apply float_string_value, units_spec| |].
  - rewrite numeric_in_out. unfold numeric_fits. by rewrite (proj2 (Z.ltb_lt _ _)).
  - intros x <-. rewrite float_string_round, numeric_in_shown, signed_round by lia.
    unfold numeric_fits. by rewrite (proj2 (Z.ltb_lt _ _)).
Qed.

Lemma numeric_roundtrip_witness :
  Decimal_Valid (numeric_out (-1234567890123)) = true ∧
  ∃ q, rat_set_string (numeric_out (-1234567890123)) = Some q ∧ (q == -1234567890123 # 10 ^ 12)%Q ∧
       float_string 12 q = numeric_out (-1234567890123) ∧
       numeric_in (numeric_out (-1234567890123)) = Ok (-1234567890123) ∧
       ∀ x, rat_round 12 x = -1234567890123 → numeric_in (float_string 12 x) = Ok (-1234567890123).
Proof. apply (numeric_roundtrip (-1234567890123)). vm_compute. reflexivity. Defined.
