(* ===== verification/GoTime.v ===== *)
(** * Instants as text

    package time, as far as the program uses it: RFC 3339 with and without
    fractional seconds, in UTC ([Format] of a [UTC()] instant), and [Parse] of
    the same layouts with the leniencies Go has (a one-digit hour, a comma
    before the fraction, a fraction the layout does not mention, offsets up to
    24:60).  What is printed is read back. *)

From S2P Require Import Prelude Decimal Money Numeric.

Open Scope Z_scope.

(** ** The calendar *)

Definition is_leap (year : Z) : bool :=
  (year mod 4 =? 0) && (negb (year mod 100 =? 0) || (year mod 400 =? 0)).

(** Days from January 1 of year 1 to January 1 of [year]. *)
Definition days_before_year (year : Z) : Z :=
  let y := year - 1 in 365 * y + y / 4 - y / 100 + y / 400.

(** The year of a day and the day within it: cycles of 400, 100, 4 and 1 years,
    the last of each cycle a day longer. *)
Definition year_day (d : Z) : Z * Z :=
  let n400 := d / 146097 in let d := d mod 146097 in
  let n100 := Z.min 3 (d / 36524) in let d := d - 36524 * n100 in
  let n4 := d / 1461 in let d := d mod 1461 in
  let n1 := Z.min 3 (d / 365) in
  (400 * n400 + 100 * n100 + 4 * n4 + n1 + 1, d - 365 * n1).

Definition month_lengths (leap : bool) : list Z :=
  [31; if leap then 29 else 28; 31; 30; 31; 30; 31; 31; 30; 31; 30; 31].

Fixpoint month_day (lengths : list Z) (m d : Z) : Z * Z :=
  match lengths with
  | n :: rest => if d <? n then (m, d + 1) else month_day rest (m + 1) (d - n)
  | [] => (m, d + 1)
  end.

Definition days_before_month (leap : bool) (m : Z) : Z :=
  foldr Z.add 0 (take (Z.to_nat (m - 1)) (month_lengths leap)).

Definition days_in (leap : bool) (m : Z) : Z :=
  default 0 (month_lengths leap !! Z.to_nat (m - 1)).

(** [time.Date] on UTC, the fields in range. *)
Definition date (year month day hour min sec ns : Z) : time :=
  let days := days_before_year year + days_before_month (is_leap year) month + (day - 1) in
  (((days * 24 + hour) * 60 + min) * 60 + sec) * second + ns.

(** ** Format *)

Definition format_year (y : Z) : string :=
  if y <? 0 then "-" +:+ (if - y <? 10000 then digits_fixed 4 (- y) else show_nonneg (- y))
  else if y <? 10000 then digits_fixed 4 y else show_nonneg y.

Definition trim_zeros (s : string) : string := str_rev (drop_zeros (str_rev s)).

Definition format_fraction (ns : Z) : string :=
  if ns =? 0 then "" else "." +:+ trim_zeros (digits_fixed 9 ns).

Definition clock_fields (t : time) : Z * Z * Z * Z * Z :=
  let sec := t / second in
  (sec / 86400, sec mod 86400 / 3600, sec mod 3600 / 60, sec mod 60, t mod second).

(** [t.UTC().Format(time.RFC3339)], with [nano] [time.RFC3339Nano]. *)
Definition format_rfc3339 (nano : bool) (t : time) : string :=
  let '(days, hour, min, sec, ns) := clock_fields t in
  let '(year, yday) := year_day days in
  let '(month, day) := month_day (month_lengths (is_leap year)) 1 yday in
  format_year year +:+ "-" +:+ digits_fixed 2 month +:+ "-" +:+ digits_fixed 2 day +:+ "T" +:+
  digits_fixed 2 hour +:+ ":" +:+ digits_fixed 2 min +:+ ":" +:+ digits_fixed 2 sec +:+
  (if nano then format_fraction ns else "") +:+ "Z".

(** ** Parse *)

Definition digits_n (n : nat) (s : string) : option (Z * string) :=
  let d := str_take n s in
  if Nat.eqb (String.length d) n && str_forallb is_digit d
  then Some (digits_val d, str_drop n s) else None.

Definition skip (c : nat) (s : string) : option string :=
  match s with
  | String a s' => if bool_decide (a = byte_of c) then Some s' else None
  | EmptyString => None
  end.

(** [getnum(value, false)]: one digit or two. *)
Definition hour_digits (s : string) : option (Z * string) :=
  match digits_n 2 s with Some r => Some r | None => digits_n 1 s end.

Definition parse_fraction (s : string) : Z * string :=
  match s with
  | String p s' =>
      if bool_decide (p = byte_of 46) || bool_decide (p = byte_of 44) then
        let '(d, r) := span_digits s' in
        if String.eqb d "" then (0, s)
        else (digits_val (str_take 9 d) * 10 ^ (9 - str_len (str_take 9 d)), r)
      else (0, s)
  | EmptyString => (0, s)
  end.

(** "Z" or an offset, to the end; in seconds. *)
Definition parse_zone (s : string) : option Z :=
  if String.eqb s "Z" then Some 0
  else match s with
  | String sign r =>
      '(hh, r) ← digits_n 2 r;
      r ← skip 58 r;
      '(mm, r) ← digits_n 2 r;
      if negb (String.eqb r "") || (24 <? hh) || (60 <? mm) then None
      else if bool_decide (sign = byte_of 43) then Some (hh * 3600 + mm * 60)
      else if bool_decide (sign = byte_of 45) then Some (- (hh * 3600 + mm * 60))
      else None
  | EmptyString => None
  end.

(** [time.Parse(time.RFC3339, s)] and [time.Parse(time.RFC3339Nano, s)]. *)
Definition parse_rfc3339 (s : string) : option time :=
  '(year, s) ← digits_n 4 s; s ← skip 45 s;
  '(month, s) ← digits_n 2 s; s ← skip 45 s;
  '(day, s) ← digits_n 2 s; s ← skip 84 s;
  '(hour, s) ← hour_digits s; s ← skip 58 s;
  '(min, s) ← digits_n 2 s; s ← skip 58 s;
  '(sec, s) ← digits_n 2 s;
  let '(ns, s) := parse_fraction s in
  offset ← parse_zone s;
  if (month <? 1) || (12 <? month) || (24 <=? hour) || (60 <=? min) || (60 <=? sec)
     || (day <? 1) || (days_in (is_leap year) month <? day) then None
  else Some (date year month day hour min sec ns - offset * second).

Example format_cases :
  format_rfc3339 true (date 2024 2 29 23 5 9 120000000) = "2024-02-29T23:05:09.12Z"%string ∧
  format_rfc3339 false (date 2024 2 29 23 5 9 120000000) = "2024-02-29T23:05:09Z"%string ∧
  format_rfc3339 true 0 = "0001-01-01T00:00:00Z"%string.
Proof. vm_compute. done. Qed.

Example parse_cases :
  parse_rfc3339 "2024-02-29T23:05:09.12Z" = Some (date 2024 2 29 23 5 9 120000000) ∧
  parse_rfc3339 "2024-03-01T1:05:09,5+02:00" = Some (date 2024 2 29 23 5 9 500000000) ∧
  parse_rfc3339 "2023-02-29T23:05:09Z" = None ∧ parse_rfc3339 "2024-02-29 23:05:09Z" = None.
Proof. vm_compute. done. Qed.

(** ** The calendar is a bijection *)

Lemma year_day_spec d :
  let '(year, yday) := year_day d in
  days_before_year year + yday = d ∧ 0 <= yday < 365 + Z.b2z (is_leap year).
Proof.
  unfold year_day. cbv zeta.
  set (n400 := d / 146097). set (d1 := d mod 146097).
  assert (d = 146097 * n400 + d1 ∧ 0 <= d1 < 146097) as [Hd H1].
  { split; [apply Z.div_mod; lia|apply Z.mod_pos_bound; lia]. }
  clearbody n400 d1. set (n100 := Z.min 3 (d1 / 36524)).
  assert (0 <= n100 <= 3 ∧ 0 <= d1 - 36524 * n100 ∧ d1 - 36524 * n100 <= 36524
    ∧ (n100 < 3 → d1 - 36524 * n100 < 36524)) as (Hn100 & Hd2 & Hd2' & Hd2'').
  { unfold n100. pose proof (Z.div_mod d1 36524). pose proof (Z.mod_pos_bound d1 36524).
    assert (0 <= d1 / 36524) by (apply Z.div_pos; lia). lia. }
  clearbody n100. set (d2 := d1 - 36524 * n100) in *.
  set (n4 := d2 / 1461). set (d3 := d2 mod 1461).
  assert (d2 = 1461 * n4 + d3 ∧ 0 <= d3 < 1461) as [Hd3 H3].
  { split; [apply Z.div_mod; lia|apply Z.mod_pos_bound; lia]. }
  clearbody n4 d3. set (n1 := Z.min 3 (d3 / 365)).
  assert (0 <= n1 <= 3 ∧ 0 <= d3 - 365 * n1 ∧ d3 - 365 * n1 <= 365
    ∧ (n1 < 3 → d3 - 365 * n1 < 365)) as (Hn1 & Hd4 & Hd4' & Hd4'').
  { unfold n1. pose proof (Z.div_mod d3 365). pose proof (Z.mod_pos_bound d3 365).
    assert (0 <= d3 / 365) by (apply Z.div_pos; lia). lia. }
  clearbody n1. assert (0 <= n4 <= 24) by lia.
  set (y := 400 * n400 + 100 * n100 + 4 * n4 + n1).
  assert (y / 4 = 100 * n400 + 25 * n100 + n4) as E4.
  { symmetry. apply (Z.div_unique y 4 _ n1); unfold y; lia. }
  assert (y / 100 = 4 * n400 + n100) as E100.
  { symmetry. apply (Z.div_unique y 100 _ (4 * n4 + n1)); unfold y; lia. }
  assert (y / 400 = n400) as E400.
  { symmetry. apply (Z.div_unique y 400 _ (100 * n100 + 4 * n4 + n1)); unfold y; lia. }
  split.
  - unfold days_before_year. replace (y + 1 - 1) with y by lia. rewrite E4, E100, E400. unfold y. lia.
  - split; [lia|]. unfold is_leap.
    assert ((y + 1) mod 4 = if decide (n1 = 3) then 0 else n1 + 1) as M4.
    { destruct (decide (n1 = 3)).
      - symmetry. apply (Z.mod_unique _ 4 (100 * n400 + 25 * n100 + n4 + 1)); unfold y; lia.
      - symmetry. apply (Z.mod_unique _ 4 (100 * n400 + 25 * n100 + n4)); unfold y; lia. }
    assert ((y + 1) mod 100 = if decide (n4 = 24 ∧ n1 = 3) then 0 else 4 * n4 + n1 + 1) as M100.
    { destruct (decide (n4 = 24 ∧ n1 = 3)).
      - symmetry. apply (Z.mod_unique _ 100 (4 * n400 + n100 + 1)); unfold y; lia.
      - symmetry. apply (Z.mod_unique _ 100 (4 * n400 + n100)); unfold y; lia. }
    assert (n100 = 3 → n4 = 24 → n1 = 3 → (y + 1) mod 400 = 0) as M400.
    { intros. symmetry. apply (Z.mod_unique _ 400 (n400 + 1)); unfold y; lia. }
    destruct (Z.eq_dec (d3 - 365 * n1) 365) as [Hlast|]; [|destruct (_ && _); cbn; lia].
    assert (n1 = 3) by lia. subst n1. rewrite M4. cbn [decide]. rewrite decide_True by done.
    destruct (decide (n4 = 24)) as [->|].
    + assert (n100 = 3) by lia. rewrite (M400 ltac:(done) eq_refl eq_refl).
      cbn. rewrite orb_true_r. cbn. lia.
    + rewrite M100, decide_False by (intros [? _]; done).
      rewrite (proj2 (Z.eqb_neq (4 * n4 + 3 + 1) 0)) by lia. cbn. lia.
Qed.

Definition month_day_ok (leap : bool) (d : Z) : bool :=
  let '(m, day) := month_day (month_lengths leap) 1 d in
  (days_before_month leap m + (day - 1) =? d) && (1 <=? m) && (m <=? 12) && (1 <=? day) && (day <=? days_in leap m).

Lemma month_day_spec leap d : 0 <= d < 365 + Z.b2z leap → month_day_ok leap d = true.
Proof.
  intros Hd.
  assert (forallb (month_day_ok leap) (Z.of_nat <$> seq 0 (Z.to_nat (365 + Z.b2z leap))) = true) as Hall
    by (destruct leap; vm_compute; reflexivity).
  apply forallb_Forall in Hall. rewrite list.Forall_forall in Hall. apply Hall.
  apply list_elem_of_fmap. exists (Z.to_nat d). split; [lia|]. apply elem_of_seq. lia.
Qed.

Lemma days_before_year_mono y y' : y <= y' → days_before_year y <= days_before_year y'.
Proof.
  intros Hy. unfold days_before_year. cbv zeta.
  pose proof (Z.div_le_mono (y - 1) (y' - 1) 4). pose proof (Z.div_le_mono (y - 1) (y' - 1) 400).
  pose proof (Z.div_mod (y - 1) 100). pose proof (Z.mod_pos_bound (y - 1) 100).
  pose proof (Z.div_mod (y' - 1) 100). pose proof (Z.mod_pos_bound (y' - 1) 100). lia.
Qed.

(** ** What is printed is read *)

Lemma digits_n_fixed w z s : 0 <= z < 10 ^ Z.of_nat w → digits_n w (digits_fixed w z +:+ s) = Some (z, s).
Proof.
  intros Hz. unfold digits_n. pose proof (digits_fixed_length w z) as Hl.
  assert (str_take w (digits_fixed w z +:+ s) = digits_fixed w z) as -> by (rewrite <-Hl at 1; apply str_take_app).
  assert (str_drop w (digits_fixed w z +:+ s) = s) as -> by (rewrite <-Hl at 1; apply str_drop_app).
  rewrite Hl, Nat.eqb_refl, digits_fixed_digits.
  cbn [andb]. rewrite digits_fixed_val, Z.mod_small by lia. done.
Qed.

(** Trailing zeros of a fraction do not count. *)
Fixpoint zeros (k : nat) : string := match k with O => "" | S k => "0" +:+ zeros k end.

Lemma drop_zeros_split s : ∃ k, s = zeros k +:+ drop_zeros s ∧ String.length s = (k + String.length (drop_zeros s))%nat.
Proof.
  induction s as [|a s (k & E & El)]; [by exists 0%nat|]. cbn [drop_zeros]. case_bool_decide as Ha.
  - exists (S k). subst a. split; [cbn [zeros]; rewrite str_app_assoc; by rewrite <-E|cbn; lia].
  - by exists 0%nat.
Qed.

Lemma zeros_length k : String.length (zeros k) = k.
Proof. induction k as [|k IH]; [done|]. cbn [zeros]. by rewrite str_length_app, IH. Qed.

Lemma zeros_rev k : str_rev (zeros k) = zeros k.
Proof.
  assert (∀ k, zeros k +:+ "0" = "0" +:+ zeros k) as Hc.
  { clear. induction k as [|k IH]; [done|]. cbn [zeros]. rewrite str_app_assoc, IH. done. }
  induction k as [|k IH]; [done|]. cbn [zeros]. rewrite str_rev_app, IH. apply Hc.
Qed.

Lemma trim_zeros_split s : ∃ k, s = trim_zeros s +:+ zeros k ∧ String.length s = (k + String.length (trim_zeros s))%nat.
Proof.
  destruct (drop_zeros_split (str_rev s)) as (k & E & El). exists k. unfold trim_zeros.
  apply (f_equal str_rev) in E. rewrite str_rev_involutive, str_rev_app, zeros_rev in E.
  split; [done|]. apply (f_equal String.length) in E. rewrite str_length_app in E.
  rewrite zeros_length in E. lia.
Qed.

Lemma digits_val_zeros k : digits_val (zeros k) = 0.
Proof. induction k as [|k IH]; [done|]. cbn [zeros]. rewrite digits_val_app, IH. done. Qed.

Lemma str_len_zeros k : str_len (zeros k) = Z.of_nat k.
Proof. by rewrite zeros_length. Qed.

Lemma parse_fraction_format ns s : 0 <= ns < second → parse_fraction (format_fraction ns +:+ String (byte_of 90) s) = (ns, String (byte_of 90) s).
Proof.
  intros Hns. unfold second in Hns. unfold format_fraction. destruct (Z.eqb_spec ns 0) as [->|Hne]; [done|].
  destruct (trim_zeros_split (digits_fixed 9 ns)) as (k & E & El).
  pose proof (digits_fixed_digits 9 ns) as Hd. pose proof (digits_fixed_val 9 ns ltac:(lia)) as Hv.
  rewrite digits_fixed_length in El. rewrite Z.mod_small in Hv by (cbn; lia).
  rewrite E in Hd, Hv. set (f := trim_zeros (digits_fixed 9 ns)) in *.
  rewrite str_forallb_app in Hd. apply andb_true_iff in Hd as [Hd _].
  rewrite digits_val_app, digits_val_zeros, str_len_zeros in Hv.
  autorewrite with gw_str. cbn [parse_fraction]. cbn [bool_decide]. 
  change (bool_decide (byte_of 46 = byte_of 46)) with true. cbn [orb].
  rewrite span_digits_app by done.
  destruct (String.eqb_spec f "") as [Hf|Hf].
  { rewrite Hf in Hv. change (digits_val "") with 0 in Hv. lia. }
  assert (str_take 9 f = f) as ->.
  { assert (∀ n (x : string), (String.length x <= n)%nat → str_take n x = x) as Ht.
    { clear. induction n as [|n IH]; intros [|a x] Hx; cbn in *; [done|lia|done|]. by rewrite IH by lia. }
    apply Ht. lia. }
  f_equal. replace (9 - str_len f) with (Z.of_nat k) by lia. lia.
Qed.

Lemma hour_digits_fixed h s : 0 <= h < 100 → hour_digits (digits_fixed 2 h +:+ s) = Some (h, s).
Proof. intros Hh. unfold hour_digits. by rewrite digits_n_fixed by (cbn; lia). Qed.

(** Year 10000 begins here. *)
Definition end_of_years : time := days_before_year 10000 * 86400 * second.

Lemma civil_fields t : 0 <= t < end_of_years →
  ∃ year month day hour min sec ns,
    clock_fields t = (days_before_year year + days_before_month (is_leap year) month + (day - 1), hour, min, sec, ns) ∧
    year_day (days_before_year year + days_before_month (is_leap year) month + (day - 1))
      = (year, days_before_month (is_leap year) month + (day - 1)) ∧
    month_day (month_lengths (is_leap year)) 1 (days_before_month (is_leap year) month + (day - 1)) = (month, day) ∧
    date year month day hour min sec ns = t ∧
    1 <= year < 10000 ∧ 1 <= month <= 12 ∧ 1 <= day <= days_in (is_leap year) month ∧
    0 <= hour < 24 ∧ 0 <= min < 60 ∧ 0 <= sec < 60 ∧ 0 <= ns < second.
Proof.
  intros Ht. unfold end_of_years, second in Ht.
  assert (0 <= t / second / 86400 < days_before_year 10000) as Hdays.
  { unfold second. rewrite Z.div_div by lia. split; [apply Z.div_pos; lia|]. apply Z.div_lt_upper_bound; lia. }
  pose proof (year_day_spec (t / second / 86400)) as Hy.
  destruct (year_day (t / second / 86400)) as [year yday] eqn:Ey. destruct Hy as [Ed Hyd].
  pose proof (month_day_spec (is_leap year) yday Hyd) as Hm. unfold month_day_ok in Hm.
  destruct (month_day _ 1 yday) as [month day] eqn:Em.
  rewrite !andb_true_iff, !Z.leb_le, Z.eqb_eq in Hm. destruct Hm as ((((Hm & ?) & ?) & ?) & ?).
  assert (1 <= year < 10000) as Hyear.
  { split.
    - destruct (Z_lt_le_dec year 1) as [Hlt|]; [exfalso|done].
      pose proof (days_before_year_mono year 0 ltac:(lia)) as Hmono. change (days_before_year 0) with (-366) in Hmono.
      destruct (is_leap year); cbn in Hyd; lia.
    - destruct (Z_lt_le_dec year 10000) as [|Hge]; [done|exfalso].
      pose proof (days_before_year_mono 10000 year ltac:(lia)). lia. }
  exists year, month, day, (t / second mod 86400 / 3600), (t / second mod 3600 / 60), (t / second mod 60), (t mod second).
  rewrite <-Z.add_assoc, Hm, Ed. split_and!; try done; try lia.
  - unfold date. rewrite <-Z.add_assoc, Hm, Ed. unfold second in *. set (s := t / 1000000000).
    pose proof (Z.div_mod t 1000000000 ltac:(lia)) as Ht0. fold s in Ht0.
    pose proof (Z.div_mod s 86400). pose proof (Z.div_mod (s mod 86400) 3600).
    pose proof (Z.div_mod (s mod 3600) 60).
    assert (s mod 86400 mod 3600 = s mod 3600) by (apply Z.mod_mod_divide; by exists 24).
    assert (s mod 3600 mod 60 = s mod 60) by (apply Z.mod_mod_divide; by exists 60).
    lia.
  - apply Z.div_pos; [apply Z.mod_pos_bound|]; lia.
  - apply Z.div_lt_upper_bound; [lia|]. pose proof (Z.mod_pos_bound (t / second) 86400). lia.
  - apply Z.div_pos; [apply Z.mod_pos_bound|]; lia.
  - apply Z.div_lt_upper_bound; [lia|]. pose proof (Z.mod_pos_bound (t / second) 3600). lia.
  - apply Z.mod_pos_bound; lia.
  - pose proof (Z.mod_pos_bound (t / second) 60). lia.
  - apply Z.mod_pos_bound. unfold second. lia.
  - pose proof (Z.mod_pos_bound t second). unfold second in *. lia.
Qed.

(** Reading back what was printed, in whole seconds without [nano]. *)
Lemma parse_format_rfc3339 nano t : 0 <= t < end_of_years →
  parse_rfc3339 (format_rfc3339 nano t) = Some (if nano then t else t - t mod second).
Proof.
  intros Ht. destruct (civil_fields t Ht) as (year & month & day & hour & min & sec & ns & Ec & Ey & Em & Ed & Hy & Hm & Hday & Hh & Hmi & Hs & Hn).
  unfold format_rfc3339. rewrite Ec, Ey, Em. unfold format_year.
  rewrite (proj2 (Z.ltb_ge year 0)), (proj2 (Z.ltb_lt year 10000)) by lia.
  unfold parse_rfc3339. rewrite digits_n_fixed by (cbn; lia). cbn [mbind option_bind].
  assert (∀ l, (days_in l month <= 31)%Z) as Hdi.
  { intros l. assert (month = 1 ∨ month = 2 ∨ month = 3 ∨ month = 4 ∨ month = 5 ∨ month = 6 ∨ month = 7 ∨ month = 8
      ∨ month = 9 ∨ month = 10 ∨ month = 11 ∨ month = 12) as Hc by lia. destruct_or!; subst month; by destruct l. }
  specialize (Hdi (is_leap year)).
  repeat (autorewrite with gw_str; cbn [skip mbind option_bind]; rewrite bool_decide_true by reflexivity;
    cbn [mbind option_bind]; first [rewrite digits_n_fixed by (cbn; lia)|rewrite hour_digits_fixed by lia];
    cbn [mbind option_bind]).
  assert (parse_fraction ((if nano then format_fraction ns else "") +:+ "Z") = (if nano then ns else 0, "Z"%string)) as ->.
  { destruct nano; [|done]. by apply (parse_fraction_format ns ""). }
  cbn [parse_zone]. change (parse_zone "Z") with (Some 0). cbn [mbind option_bind].
  assert (((month <? 1) || (12 <? month) || (24 <=? hour) || (60 <=? min) || (60 <=? sec)
     || (day <? 1) || (days_in (is_leap year) month <? day)) = false) as ->.
  { rewrite !orb_false_iff, !Z.ltb_ge, !Z.leb_gt. lia. }
  f_equal. destruct nano; [lia|].
  assert (t mod second = ns) as -> by (unfold clock_fields in Ec; congruence).
  rewrite <-Ed. unfold date. lia.
Qed.
