(* ===== verification/Cursor.v ===== *)
(** * Cursors

    internal/control/console_cursor.go: an opaque position is the unpadded
    URL-safe base64 of a sort key, a NUL and an id.  encoding/base64 is modelled
    as the program uses it: [RawURLEncoding], which drops CR and LF from its
    input and ignores trailing bits. *)

From S2P Require Import Prelude Decimal Money Numeric GoTime.

Open Scope Z_scope.

(** ** base64.RawURLEncoding *)

Definition alphabet : string := "ABCDEFGHIJKLMNOPQRSTUVWXYZabcdefghijklmnopqrstuvwxyz0123456789-_".

Definition b64_char (z : Z) : Ascii.ascii := default (byte_of 65) (String.get (Z.to_nat z) alphabet).
Definition b64_val (a : Ascii.ascii) : option Z := Z.of_nat <$> index_byte a alphabet.

(** Three bytes are four digits of six bits; one or two are two or three. *)
Fixpoint b64_encode (s : string) : string :=
  match s with
  | EmptyString => EmptyString
  | String a EmptyString =>
      let v := byte_val a * 65536 in
      String (b64_char (v / 262144)) (String (b64_char (v / 4096 mod 64)) EmptyString)
  | String a (String b EmptyString) =>
      let v := byte_val a * 65536 + byte_val b * 256 in
      String (b64_char (v / 262144)) (String (b64_char (v / 4096 mod 64))
        (String (b64_char (v / 64 mod 64)) EmptyString))
  | String a (String b (String c r)) =>
      let v := byte_val a * 65536 + byte_val b * 256 + byte_val c in
      String (b64_char (v / 262144)) (String (b64_char (v / 4096 mod 64))
        (String (b64_char (v / 64 mod 64)) (String (b64_char (v mod 64)) (b64_encode r))))
  end.

Fixpoint drop_newlines (s : string) : string :=
  match s with
  | EmptyString => EmptyString
  | String a r => if bool_decide (a = byte_of 10) || bool_decide (a = byte_of 13) then drop_newlines r
                  else String a (drop_newlines r)
  end.

Fixpoint b64_digits (s : string) : option string :=
  match s with
  | EmptyString => Some EmptyString
  | String a (String b EmptyString) =>
      x ← b64_val a; y ← b64_val b;
      Some (String (val_byte ((x * 262144 + y * 4096) / 65536)) EmptyString)
  | String a (String b (String c EmptyString)) =>
      x ← b64_val a; y ← b64_val b; z ← b64_val c;
      let v := x * 262144 + y * 4096 + z * 64 in
      Some (String (val_byte (v / 65536)) (String (val_byte (v / 256)) EmptyString))
  | String a (String b (String c (String d r))) =>
      x ← b64_val a; y ← b64_val b; z ← b64_val c; t ← b64_val d;
      let v := x * 262144 + y * 4096 + z * 64 + t in
      rest ← b64_digits r;
      Some (String (val_byte (v / 65536)) (String (val_byte (v / 256)) (String (val_byte v) rest)))
  | String _ EmptyString => None
  end.

Definition b64_decode (s : string) : option string := b64_digits (drop_newlines s).

(** ** Positions *)

Record consoleCursor := { Sort : string; cur_ID : Z }.

Definition nul : string := chr 0.

Definition encodeCursor (sort : string) (id : Z) : string := b64_encode (sort +:+ nul +:+ format_int id).

Definition parseCursor (raw : string) : option consoleCursor :=
  let raw := trim_space raw in
  if String.eqb raw "" then Some {| Sort := ""; cur_ID := 0 |}
  else
  decoded ← b64_decode raw;
  at_ ← index_byte (byte_of 0) decoded;
  let '(id, ok) := parse_int (str_drop (S at_) decoded) in
  if ok : bool then Some {| Sort := str_take at_ decoded; cur_ID := id |} else None.

Definition fetchLimit (limit : Z) : Z := limit + 1.

Example cursor_case :
  encodeCursor "2024-02-29T23:05:09Z" 42 = "MjAyNC0wMi0yOVQyMzowNTowOVoANDI"%string ∧
  parseCursor " MjAyNC0wMi0yOVQyMzowNTowOVoANDI" = Some {| Sort := "2024-02-29T23:05:09Z"; cur_ID := 42 |} ∧
  parseCursor "!" = None ∧ parseCursor "QQ" = None.
Proof. vm_compute. done. Qed.

(** ** A position comes back *)

Definition b64_char_ok (z : Z) : bool :=
  bool_decide (b64_val (b64_char z) = Some z) && negb (bool_decide (b64_char z = byte_of 10)) && negb (bool_decide (b64_char z = byte_of 13)).

Lemma b64_chars z : 0 <= z < 64 → b64_char_ok z = true.
Proof.
  intros Hz. assert (forallb b64_char_ok (Z.of_nat <$> seq 0 64) = true) as Hall by (vm_compute; reflexivity).
  apply forallb_Forall in Hall. rewrite list.Forall_forall in Hall. apply Hall.
  apply list_elem_of_fmap. exists (Z.to_nat z). split; [lia|]. apply elem_of_seq. lia.
Qed.

Lemma b64_val_char z : 0 <= z < 64 → b64_val (b64_char z) = Some z.
Proof. intros Hz. pose proof (b64_chars z Hz) as H. unfold b64_char_ok in H. rewrite !andb_true_iff, bool_decide_eq_true in H. apply H. Qed.

(** Characters of the alphabet. *)
Definition b64_ok (a : Ascii.ascii) : bool := bool_decide (is_Some (b64_val a)).

Lemma b64_char_alphabet z : 0 <= z < 64 → b64_ok (b64_char z) = true.
Proof. intros Hz. unfold b64_ok. rewrite b64_val_char by done. by apply bool_decide_eq_true_2. Qed.

(** Induction over groups of three bytes. *)
Lemma groups_ind (P : string → Prop) :
  P "" → (∀ a, P (String a "")) → (∀ a b, P (String a (String b ""))) →
  (∀ a b c r, P r → P (String a (String b (String c r)))) → ∀ s, P s.
Proof.
  intros H0 H1 H2 H3. fix IH 1. intros [|a [|b [|c r]]]; [done|apply H1|apply H2|]. apply H3, IH.
Qed.

Lemma six_bits v : 0 <= v < 16777216 →
  0 <= v / 262144 < 64 ∧ 0 <= v / 4096 mod 64 < 64 ∧ 0 <= v / 64 mod 64 < 64 ∧ 0 <= v mod 64 < 64 ∧
  v / 262144 * 262144 + v / 4096 mod 64 * 4096 + v / 64 mod 64 * 64 + v mod 64 = v.
Proof.
  intros Hv. pose proof (Z.mod_pos_bound (v / 4096) 64). pose proof (Z.mod_pos_bound (v / 64) 64). pose proof (Z.mod_pos_bound v 64).
  assert (0 <= v / 262144 < 64) by (split; [apply Z.div_pos|apply Z.div_lt_upper_bound]; lia).
  pose proof (Z.div_mod v 64). pose proof (Z.div_mod (v / 64) 64). pose proof (Z.div_mod (v / 4096) 64).
  assert (v / 64 / 64 = v / 4096) by (by rewrite Z.div_div by lia).
  assert (v / 4096 / 64 = v / 262144) by (by rewrite Z.div_div by lia). lia.
Qed.

Lemma three_bytes a b c v : v = byte_val a * 65536 + byte_val b * 256 + byte_val c →
  0 <= v < 16777216 ∧ val_byte (v / 65536) = a ∧ val_byte (v / 256) = b ∧ val_byte v = c.
Proof.
  intros ->. pose proof (byte_val_range a). pose proof (byte_val_range b). pose proof (byte_val_range c).
  split; [lia|]. split; [|split]; apply val_byte_val.
  - assert ((byte_val a * 65536 + byte_val b * 256 + byte_val c) / 65536 = byte_val a) as ->
      by (symmetry; apply (Z.div_unique _ _ _ (byte_val b * 256 + byte_val c)); lia).
    apply Z.mod_small. lia.
  - replace ((byte_val a * 65536 + byte_val b * 256 + byte_val c) / 256) with (byte_val a * 256 + byte_val b).
    + symmetry. apply (Z.mod_unique _ _ (byte_val a)); lia.
    + apply (Z.div_unique _ _ _ (byte_val c)); lia.
  - symmetry. apply (Z.mod_unique _ _ (byte_val a * 256 + byte_val b)); lia.
Qed.

Lemma b64_digits_encode s : b64_digits (b64_encode s) = Some s.
Proof.
  induction s as [|a|a b|a b c r IH] using groups_ind; [done|..]; cbn [b64_encode b64_digits]; cbv zeta.
  - destruct (three_bytes a (byte_of 0) (byte_of 0) _ eq_refl) as (Hv & Ea & _).
    change (byte_val (byte_of 0)) with 0 in Hv, Ea. rewrite Z.mul_0_l, !Z.add_0_r in Hv, Ea.
    destruct (six_bits _ Hv) as (H1 & H2 & _ & _ & E). rewrite !b64_val_char by done. cbn [mbind option_bind].
    assert (byte_val a * 65536 / 64 mod 64 = 0).
    { rewrite <-(Z.div_unique (byte_val a * 65536) 64 (byte_val a * 1024) 0) by lia.
      symmetry. apply (Z.mod_unique _ _ (byte_val a * 16)); lia. }
    assert (byte_val a * 65536 mod 64 = 0) by (symmetry; apply (Z.mod_unique _ _ (byte_val a * 1024)); lia).
    match goal with |- context [val_byte (?x / 65536)] => replace x with (byte_val a * 65536) by lia end.
    by rewrite Ea.
  - destruct (three_bytes a b (byte_of 0) _ eq_refl) as (Hv & Ea & Eb & _).
    change (byte_val (byte_of 0)) with 0 in Hv, Ea, Eb. rewrite !Z.add_0_r in Hv, Ea, Eb.
    destruct (six_bits _ Hv) as (H1 & H2 & H3 & _ & E). rewrite !b64_val_char by done. cbn [mbind option_bind].
    assert ((byte_val a * 65536 + byte_val b * 256) mod 64 = 0) as E0
      by (symmetry; apply (Z.mod_unique _ _ (byte_val a * 1024 + byte_val b * 4)); lia).
    rewrite E0, Z.add_0_r in E. by rewrite E, Ea, Eb.
  - destruct (three_bytes a b c _ eq_refl) as (Hv & Ea & Eb & Ec).
    destruct (six_bits _ Hv) as (H1 & H2 & H3 & H4 & E). rewrite !b64_val_char by done. cbn [mbind option_bind].
    rewrite IH. cbn [mbind option_bind]. by rewrite E, Ea, Eb, Ec.
Qed.

Lemma b64_encode_alphabet s : str_forallb b64_ok (b64_encode s) = true.
Proof.
  induction s as [|a|a b|a b c r IH] using groups_ind; [done|..]; cbn [b64_encode str_forallb]; cbv zeta.
  - destruct (three_bytes a (byte_of 0) (byte_of 0) _ eq_refl) as (Hv & _).
    change (byte_val (byte_of 0)) with 0 in Hv. rewrite Z.mul_0_l, !Z.add_0_r in Hv.
    destruct (six_bits _ Hv) as (H1 & H2 & _). by rewrite !b64_char_alphabet.
  - destruct (three_bytes a b (byte_of 0) _ eq_refl) as (Hv & _).
    change (byte_val (byte_of 0)) with 0 in Hv. rewrite Z.add_0_r in Hv.
    destruct (six_bits _ Hv) as (H1 & H2 & H3 & _). by rewrite !b64_char_alphabet.
  - destruct (three_bytes a b c _ eq_refl) as (Hv & _).
    destruct (six_bits _ Hv) as (H1 & H2 & H3 & H4 & _). rewrite !b64_char_alphabet by done. exact IH.
Qed.

Lemma drop_newlines_alphabet s : str_forallb b64_ok s = true → drop_newlines s = s.
Proof.
  induction s as [|a s IH]; cbn; [done|]. intros [Ha Hs]%andb_true_iff. rewrite IH by done.
  rewrite !bool_decide_false; [done|..]; intros ->; by vm_compute in Ha.
Qed.

Lemma b64_decode_encode s : b64_decode (b64_encode s) = Some s.
Proof. unfold b64_decode. rewrite drop_newlines_alphabet by apply b64_encode_alphabet. apply b64_digits_encode. Qed.

Lemma parse_format_int z : in_int64 z → parse_int (format_int z) = (z, true).
Proof.
  unfold in_int64, min_int64, max_int64. intros Hz. unfold format_int.
  assert (∀ n, 0 <= n → digits_val (show_nonneg n) = n) as Hv by apply show_nonneg_val.
  destruct (Z.ltb_spec z 0) as [Hn|Hn].
  - change ("-" +:+ show_nonneg (- z))%string with (String (byte_of 45) (show_nonneg (- z))). unfold parse_int.
    rewrite bool_decide_true by done. rewrite (proj2 (String.eqb_neq _ _)) by apply show_nonneg_nonempty.
    rewrite show_nonneg_digits, Hv by lia. rewrite clamp64_id by (unfold in_int64, min_int64, max_int64; lia).
    rewrite Z.opp_involutive. by rewrite bool_decide_true.
  - pose proof (show_nonneg_digits z) as Hd. pose proof (show_nonneg_nonempty z) as Hne. specialize (Hv z Hn).
    unfold parse_int. destruct (show_nonneg z) as [|a s]; [done|]. cbn [str_forallb] in Hd.
    apply andb_true_iff in Hd as [Ha Hs].
    rewrite !bool_decide_false by (intros ->; by vm_compute in Ha). cbn [String.eqb]. cbn [str_forallb]. rewrite Ha, Hs. cbn [andb].
    rewrite Hv, clamp64_id by (unfold in_int64, min_int64, max_int64; lia). by rewrite bool_decide_true.
Qed.

Lemma index_byte_app c s t : str_forallb (λ a, negb (bool_decide (a = c))) s = true →
  index_byte c (s +:+ String c t) = Some (String.length s).
Proof.
  induction s as [|a s IH]; autorewrite with gw_str; cbn [str_forallb index_byte String.length].
  - intros _. change ("" +:+ String c t)%string with (String c t). cbn. by rewrite bool_decide_true.
  - intros [Ha Hs]%andb_true_iff. apply negb_true_iff in Ha. rewrite Ha, IH by done. done.
Qed.

Lemma parse_encode_cursor sort id :
  str_forallb (λ a, negb (bool_decide (a = byte_of 0))) sort = true → in_int64 id →
  parseCursor (encodeCursor sort id) = Some {| Sort := sort; cur_ID := id |}.
Proof.
  intros Hs Hid. unfold parseCursor, encodeCursor.
  rewrite (trim_space_foreign b64_ok); [|vm_compute; reflexivity|apply b64_encode_alphabet].
  destruct (String.eqb_spec (b64_encode (sort +:+ nul +:+ format_int id)) "") as [E|_].
  { exfalso. pose proof (b64_digits_encode (sort +:+ nul +:+ format_int id)) as H. rewrite E in H. cbn in H.
    injection H as H. apply (f_equal String.length) in H. rewrite !str_length_app in H. cbn in H. lia. }
  rewrite b64_decode_encode. cbn [mbind option_bind].
  change (nul +:+ format_int id)%string with (String (byte_of 0) (format_int id)).
  rewrite index_byte_app by done. cbn [mbind option_bind].
  assert (sort +:+ String (byte_of 0) (format_int id) = (sort +:+ nul) +:+ format_int id)%string as E.
  { rewrite str_app_assoc. done. }
  rewrite str_take_app. rewrite E. replace (S (String.length sort)) with (String.length (sort +:+ nul)).
  - by rewrite str_drop_app, parse_format_int.
  - rewrite str_length_app. cbn. lia.
Qed.
