(* ===== verification/Db.v ===== *)
(** * Control's database

    The PostgreSQL tables of migrations/ that the modelled SQL touches, and the
    effect monad of the Go code that talks to them.  A statement is a function
    on the tables; every statement, begin and commit may fail for reasons the
    program does not control, which a schedule of faults decides.  A failed
    commit may or may not have reached the database ([Unknown]).  Row locks
    ([FOR UPDATE]) make transactions atomic, so a concurrent execution is a
    sequence of them.

    The weakest-precondition rules at the end are what the client files use:
    [wp m Q t] says that every successful outcome of [m] from the tables [t]
    satisfies [Q], whatever the faults. *)

From S2P Require Import Prelude Decimal Money Numeric.

Open Scope Z_scope.

(** ** Tables *)

Record attempt_row := AttemptRow {
  ra_request_id : string;
  ra_started_at : time;
  ra_deadline_at : time;
  ra_terminal_event_id : option string;
  ra_state : string;
  ra_reconciled_at : option time;
  ra_account_id : string;
  ra_provider : string;
  ra_model : string;
  ra_tenant_id : string
}.

Record usage_row := UsageRow {
  ul_id : Z;
  ul_event_id : string;
  ul_attempt_id : string;
  ul_request_id : string;
  ul_tenant_id : string;
  ul_account_id : string;
  ul_provider : string;
  ul_model : string;
  ul_status_code : Z;
  ul_error_class : string;
  ul_tokens_in : Z;
  ul_tokens_out : Z;
  ul_cache_read_tokens : Z;
  ul_cache_write_tokens : Z;
  ul_usage_source : string;
  ul_partial : bool;
  ul_occurred_at : time;
  ul_billing_state : string;
  ul_billed_amount : option numeric;
  ul_billing_run_id : option string
}.

Record price_row := PriceRow {
  mp_id : string;
  mp_provider : string;
  mp_model : string;
  mp_currency : string;
  mp_unit_scale : Z;
  mp_price_input : numeric;
  mp_price_output : numeric;
  mp_price_cache_read : numeric;
  mp_price_cache_write : numeric;
  mp_effective_from : time;
  mp_created_at : time
}.

Record wallet_row := WalletRow { tw_currency : string; tw_balance : numeric }.

Record journal_row := JournalRow {
  wt_id : string;
  wt_tenant_id : string;
  wt_kind : string;
  wt_amount : numeric;
  wt_balance_after : numeric;
  wt_billing_run_id : option string;
  wt_note : string;
  wt_created_at : time
}.

Record run_row := RunRow {
  br_window_end : time;
  br_status : string;
  br_tenants_billed : Z;
  br_tenants_failed : Z;
  br_rows_billed : Z;
  br_rows_unpriced : Z;
  br_rows_held : Z;
  br_rows_not_billable : Z;
  br_total_debited : numeric
}.

Record resolution_row := ResolutionRow {
  rs_event_id : string;
  rs_tenant_id : string;
  rs_decision : string;
  rs_outcome : string;
  rs_amount : option numeric;
  rs_billing_run_id : option string;
  rs_operator : string;
  rs_note : string
}.

(** What imports write of an account; [su_profile] and [su_limits] are JSON. *)
Record account_setup := AccountSetup {
  su_source_system : string;
  su_source_id : string;
  su_base_url : string;
  su_proxy : string;
  su_profile : string;
  su_limits : string
}.

(** [ac_quota] is the text of a JSON column. *)
Record account_row := AccountRow {
  ac_status : string;
  ac_fence_epoch : Z;
  ac_platform : string;
  ac_last_error_class : option string;
  ac_last_error_at : option time;
  ac_consecutive_failures : Z;
  ac_cooldown_until : option time;
  ac_excluded_models : list string;
  ac_provider : string;
  ac_group : string;
  ac_capabilities : list string;
  ac_setup : account_setup;
  ac_quota : string
}.

Record action_row := ActionRow {
  aa_account_id : string;
  aa_action : string;
  aa_reason : string;
  aa_operator : string;
  aa_fence_epoch : Z;
  aa_created_at : time
}.

Record credential_row := CredentialRow {
  cr_kind : string;
  cr_encrypted_secret : string;
  cr_expires_at : option time;
  cr_version : Z
}.

(** quota_snapshot_outbox, by account. *)
Record outbox_row := OutboxRow {
  ob_platform : string;
  ob_group : string;
  ob_fence_epoch : Z;
  ob_quota : string;
  ob_attempts : Z;
  ob_next_attempt_at : time;
  ob_locked_until : option time;
  ob_last_error : string;
  ob_updated_at : time
}.

(** [db_now] is the value of [now()]; [db_seq] the sequence behind usage_ledger.id. *)
Record db := MkDb {
  tenants : gset string;
  request_attempts : gmap string attempt_row;
  usage_ledger : list usage_row;
  model_prices : list price_row;
  tenant_wallets : gmap string wallet_row;
  wallet_transactions : list journal_row;
  billing_runs : gmap string run_row;
  billing_resolutions : gmap string resolution_row;
  account_rows : gmap string account_row;
  account_actions : list action_row;
  credential_rows : gmap string credential_row;
  quota_outbox : gmap string outbox_row;
  db_seq : Z;
  db_now : time
}.

Definition set_tenants (f : gset string → gset string) (t : db) : db :=
  MkDb (f (tenants t)) (request_attempts t) (usage_ledger t) (model_prices t) (tenant_wallets t)
    (wallet_transactions t) (billing_runs t) (billing_resolutions t) (account_rows t)
    (account_actions t) (credential_rows t) (quota_outbox t) (db_seq t) (db_now t).
Definition set_attempts (f : gmap string attempt_row → gmap string attempt_row) (t : db) : db :=
  MkDb (tenants t) (f (request_attempts t)) (usage_ledger t) (model_prices t) (tenant_wallets t)
    (wallet_transactions t) (billing_runs t) (billing_resolutions t) (account_rows t)
    (account_actions t) (credential_rows t) (quota_outbox t) (db_seq t) (db_now t).
Definition set_ledger (f : list usage_row → list usage_row) (t : db) : db :=
  MkDb (tenants t) (request_attempts t) (f (usage_ledger t)) (model_prices t) (tenant_wallets t)
    (wallet_transactions t) (billing_runs t) (billing_resolutions t) (account_rows t)
    (account_actions t) (credential_rows t) (quota_outbox t) (db_seq t) (db_now t).
Definition set_prices (f : list price_row → list price_row) (t : db) : db :=
  MkDb (tenants t) (request_attempts t) (usage_ledger t) (f (model_prices t)) (tenant_wallets t)
    (wallet_transactions t) (billing_runs t) (billing_resolutions t) (account_rows t)
    (account_actions t) (credential_rows t) (quota_outbox t) (db_seq t) (db_now t).
Definition set_wallets (f : gmap string wallet_row → gmap string wallet_row) (t : db) : db :=
  MkDb (tenants t) (request_attempts t) (usage_ledger t) (model_prices t) (f (tenant_wallets t))
    (wallet_transactions t) (billing_runs t) (billing_resolutions t) (account_rows t)
    (account_actions t) (credential_rows t) (quota_outbox t) (db_seq t) (db_now t).
Definition set_journal (f : list journal_row → list journal_row) (t : db) : db :=
  MkDb (tenants t) (request_attempts t) (usage_ledger t) (model_prices t) (tenant_wallets t)
    (f (wallet_transactions t)) (billing_runs t) (billing_resolutions t) (account_rows t)
    (account_actions t) (credential_rows t) (quota_outbox t) (db_seq t) (db_now t).
Definition set_runs (f : gmap string run_row → gmap string run_row) (t : db) : db :=
  MkDb (tenants t) (request_attempts t) (usage_ledger t) (model_prices t) (tenant_wallets t)
    (wallet_transactions t) (f (billing_runs t)) (billing_resolutions t) (account_rows t)
    (account_actions t) (credential_rows t) (quota_outbox t) (db_seq t) (db_now t).
Definition set_resolutions (f : gmap string resolution_row → gmap string resolution_row) (t : db) : db :=
  MkDb (tenants t) (request_attempts t) (usage_ledger t) (model_prices t) (tenant_wallets t)
    (wallet_transactions t) (billing_runs t) (f (billing_resolutions t)) (account_rows t)
    (account_actions t) (credential_rows t) (quota_outbox t) (db_seq t) (db_now t).
Definition set_accounts (f : gmap string account_row → gmap string account_row) (t : db) : db :=
  MkDb (tenants t) (request_attempts t) (usage_ledger t) (model_prices t) (tenant_wallets t)
    (wallet_transactions t) (billing_runs t) (billing_resolutions t) (f (account_rows t))
    (account_actions t) (credential_rows t) (quota_outbox t) (db_seq t) (db_now t).
Definition set_actions (f : list action_row → list action_row) (t : db) : db :=
  MkDb (tenants t) (request_attempts t) (usage_ledger t) (model_prices t) (tenant_wallets t)
    (wallet_transactions t) (billing_runs t) (billing_resolutions t) (account_rows t)
    (f (account_actions t)) (credential_rows t) (quota_outbox t) (db_seq t) (db_now t).
Definition set_credentials (f : gmap string credential_row → gmap string credential_row) (t : db) : db :=
  MkDb (tenants t) (request_attempts t) (usage_ledger t) (model_prices t) (tenant_wallets t)
    (wallet_transactions t) (billing_runs t) (billing_resolutions t) (account_rows t)
    (account_actions t) (f (credential_rows t)) (quota_outbox t) (db_seq t) (db_now t).
Definition set_outbox (f : gmap string outbox_row → gmap string outbox_row) (t : db) : db :=
  MkDb (tenants t) (request_attempts t) (usage_ledger t) (model_prices t) (tenant_wallets t)
    (wallet_transactions t) (billing_runs t) (billing_resolutions t) (account_rows t)
    (account_actions t) (credential_rows t) (f (quota_outbox t)) (db_seq t) (db_now t).
Definition set_seq (f : Z → Z) (t : db) : db :=
  MkDb (tenants t) (request_attempts t) (usage_ledger t) (model_prices t) (tenant_wallets t)
    (wallet_transactions t) (billing_runs t) (billing_resolutions t) (account_rows t)
    (account_actions t) (credential_rows t) (quota_outbox t) (f (db_seq t)) (db_now t).
Definition set_now (f : time → time) (t : db) : db :=
  MkDb (tenants t) (request_attempts t) (usage_ledger t) (model_prices t) (tenant_wallets t)
    (wallet_transactions t) (billing_runs t) (billing_resolutions t) (account_rows t)
    (account_actions t) (credential_rows t) (quota_outbox t) (db_seq t) (f (db_now t)).

Definition empty_db (ts : gset string) (now : time) : db := MkDb ts ∅ [] [] ∅ [] ∅ ∅ ∅ [] ∅ ∅ 1 now.

(** ** Statements and transactions *)

(** [Lost]: the statement failed and had no effect.  [Unknown]: the program saw
    an error but the server may have applied it. *)
Inductive fault := NoFault | Lost | Unknown.

Record world := World { tables : db; faults : list fault }.

Definition DB (A : Type) : Type := world → result db_error A * world.

#[export] Instance DB_ret : MRet DB := λ A a w, (Ok a, w).
#[export] Instance DB_bind : MBind DB := λ A B f m w,
  match m w with
  | (Ok a, w') => f a w'
  | (Err e, w') => (Err e, w')
  end.

Definition fail {A} (e : db_error) : DB A := λ w, (Err e, w).
Definition of_result {A} (r : result db_error A) : DB A :=
  match r with Ok a => mret a | Err e => fail e end.

Definition next_fault (w : world) : fault * world :=
  match faults w with
  | [] => (NoFault, w)
  | f :: fs => (f, World (tables w) fs)
  end.

(** One SQL statement. *)
Definition stmt {A} (f : db → result db_error (A * db)) : DB A := λ w,
  match next_fault w with
  | (NoFault, w) => match f (tables w) with
                    | Ok (a, t) => (Ok a, World t (faults w))
                    | Err e => (Err e, w)
                    end
  | (Lost, w) => (Err EIO, w)
  | (Unknown, w) => match f (tables w) with
                    | Ok (_, t) => (Err EIO, World t (faults w))
                    | Err _ => (Err EIO, w)
                    end
  end.

Definition query {A} (f : db → result db_error A) : DB A :=
  stmt (λ t, a ← f t; Ok (a, t)).
Definition exec (f : db → result db_error db) : DB unit :=
  stmt (λ t, t' ← f t; Ok (tt, t')).

(** begin; body; commit -- with the deferred rollback on every early return.
    The flag says whether the body reaches the commit; a body that returns a
    result without committing is rolled back. *)
Definition transaction_if {A} (body : DB (A * bool)) : DB A := λ w,
  match next_fault w with
  | (NoFault, w0) =>
      match body w0 with
      | (Err e, w1) => (Err e, World (tables w0) (faults w1))
      | (Ok (a, false), w1) => (Ok a, World (tables w0) (faults w1))
      | (Ok (a, true), w1) =>
          match next_fault w1 with
          | (NoFault, w2) => (Ok a, w2)
          | (Lost, w2) => (Err EIO, World (tables w0) (faults w2))
          | (Unknown, w2) => (Err EIO, w2)
          end
      end
  | (_, w0) => (Err EIO, w0)
  end.

Definition transaction {A} (body : DB A) : DB A :=
  transaction_if (a ← body; mret (a, true)).

(** A caller that looks at the error instead of returning it. *)
Definition attempt {A} (m : DB A) : DB (result db_error A) := λ w,
  let '(r, w') := m w in (Ok r, w').

Fixpoint foldM {A B} (f : A → B → DB A) (a : A) (l : list B) : DB A :=
  match l with
  | [] => mret a
  | b :: l' => a' ← f a b; foldM f a' l'
  end.

(** ** Weakest preconditions over every fault schedule *)

Definition wp {A} (m : DB A) (Q : A → db → Prop) (t : db) : Prop :=
  ∀ w, tables w = t →
  match m w with (Ok a, w') => Q a (tables w') | (Err _, _) => True end.

Lemma next_fault_tables w : tables (next_fault w).2 = tables w.
Proof. unfold next_fault. by destruct (faults w). Qed.

Lemma wp_ret {A} (a : A) Q t : Q a t → wp (mret a) Q t.
Proof. by intros H w <-. Qed.

Lemma wp_fail {A} e (Q : A → db → Prop) t : wp (fail e) Q t.
Proof. by intros w _. Qed.

Lemma wp_of_result {A} (r : result db_error A) Q t :
  (∀ a, r = Ok a → Q a t) → wp (of_result r) Q t.
Proof. destruct r as [a|e]; intros H; [apply wp_ret; auto|apply wp_fail]. Qed.

Lemma wp_bind {A B} (m : DB A) (f : A → DB B) Q t :
  wp m (λ a t', wp (f a) Q t') t → wp (m ≫= f) Q t.
Proof.
  intros H w Hw. unfold mbind, DB_bind. specialize (H w Hw).
  destruct (m w) as [[a|e] w']; cbn; [by apply H|done].
Qed.

Lemma wp_mono {A} (m : DB A) (Q Q' : A → db → Prop) t :
  (∀ a t', Q a t' → Q' a t') → wp m Q t → wp m Q' t.
Proof. intros HQ H w Hw. specialize (H w Hw). destruct (m w) as [[a|e] w']; auto. Qed.

Lemma wp_and {A} (m : DB A) (Q Q' : A → db → Prop) t :
  wp m Q t → wp m Q' t → wp m (λ a t', Q a t' ∧ Q' a t') t.
Proof.
  intros H H' w Hw. specialize (H w Hw). specialize (H' w Hw).
  destruct (m w) as [[a|e] w']; auto.
Qed.

Lemma wp_stmt {A} (f : db → result db_error (A * db)) Q t :
  (∀ a t', f t = Ok (a, t') → Q a t') → wp (stmt f) Q t.
Proof.
  intros H w <-. unfold stmt. pose proof (next_fault_tables w) as Ht.
  destruct (next_fault w) as [[| |] w0]; cbn in Ht; try rewrite <-Ht in *.
  - destruct (f (tables w0)) as [[a t']|e] eqn:E; [|done]. cbn. auto.
  - done.
  - by destruct (f (tables w0)) as [[a t']|e].
Qed.

Lemma wp_query {A} (f : db → result db_error A) Q t :
  (∀ a, f t = Ok a → Q a t) → wp (query f) Q t.
Proof.
  intros H. apply wp_stmt. intros a t' (b & Hf & [= <- <-])%result_bind_Ok. auto.
Qed.

Lemma wp_exec (f : db → result db_error db) Q t :
  (∀ t', f t = Ok t' → Q tt t') → wp (exec f) Q t.
Proof.
  intros H. apply wp_stmt. intros [] t' (b & Hf & [= <-])%result_bind_Ok. auto.
Qed.

(** The loop rule: [I done a t] holds after the elements [done]. *)
Lemma wp_foldM {A B} (f : A → B → DB A) (I : list B → A → db → Prop) l a t :
  I [] a t →
  (∀ seen b rest a t, l = seen ++ b :: rest → I seen a t → wp (f a b) (I (seen ++ [b])) t) →
  wp (foldM f a l) (I l) t.
Proof.
  intros H0 Hstep.
  enough (∀ rest seen a t, l = seen ++ rest → I seen a t → wp (foldM f a rest) (I l) t) as H
    by by apply (H l []).
  clear H0 a t. induction rest as [|b rest IH]; intros seen a t El H; cbn [foldM].
  - rewrite app_nil_r in El. subst. by apply wp_ret.
  - apply wp_bind. eapply wp_mono; [|by eapply Hstep].
    intros a' t' H'. apply (IH (seen ++ [b])); [|done]. by rewrite <-app_assoc.
Qed.

(** A transaction either leaves the tables alone or applies its whole body. *)
Lemma transaction_if_spec {A} (body : DB (A * bool)) (Q : A → db → Prop) w :
  wp body (λ p t', if p.2 then Q p.1 t' else Q p.1 (tables w)) (tables w) →
  let '(r, w') := transaction_if body w in
  (tables w' = tables w ∧ ∃ e, r = Err e) ∨
  (∃ a, Q a (tables w') ∧ (r = Ok a ∨ r = Err EIO)).
Proof.
  intros H. unfold transaction_if. pose proof (next_fault_tables w) as Ht.
  destruct (next_fault w) as [[| |] w0]; cbn in Ht; [|left; eauto..].
  specialize (H w0 Ht). destruct (body w0) as [[[a []]|e] w1]; cbn in H.
  - pose proof (next_fault_tables w1) as Ht1.
    destruct (next_fault w1) as [[| |] w2]; cbn in Ht1.
    + right. exists a. rewrite Ht1. auto.
    + left. cbn. eauto.
    + right. exists a. rewrite Ht1. auto.
  - right. exists a. cbn. rewrite Ht. auto.
  - left. cbn. eauto.
Qed.

Lemma transaction_spec {A} (body : DB A) (Q : A → db → Prop) w :
  wp body Q (tables w) →
  let '(r, w') := transaction body w in
  (tables w' = tables w ∧ ∃ e, r = Err e) ∨
  (∃ a, Q a (tables w') ∧ (r = Ok a ∨ r = Err EIO)).
Proof.
  intros H. apply transaction_if_spec. apply wp_bind. eapply wp_mono; [|exact H].
  intros a t' Ha. by apply wp_ret.
Qed.

(** [preserves I m]: whatever happens, [m] keeps the invariant. *)
Definition preserves {A} (I : db → Prop) (m : DB A) : Prop :=
  ∀ w, I (tables w) → I (tables (m w).2).

Lemma preserves_ret {A} I (a : A) : preserves I (mret a).
Proof. by intros w H. Qed.

Lemma preserves_fail {A} I e : preserves I (@fail A e).
Proof. by intros w H. Qed.

Lemma preserves_bind {A B} I (m : DB A) (f : A → DB B) :
  preserves I m → (∀ a, preserves I (f a)) → preserves I (m ≫= f).
Proof.
  intros Hm Hf w H. unfold mbind, DB_bind. specialize (Hm w H).
  destruct (m w) as [[a|e] w']; cbn in *; [by apply (Hf a w')|done].
Qed.

Lemma preserves_stmt {A} I (f : db → result db_error (A * db)) :
  (∀ t a t', I t → f t = Ok (a, t') → I t') → preserves I (stmt f).
Proof.
  intros H w Hw. unfold stmt. pose proof (next_fault_tables w) as Ht.
  destruct (next_fault w) as [[| |] w0]; cbn in Ht; rewrite <-Ht in Hw; [|done|];
    destruct (f (tables w0)) as [[a t']|e] eqn:E; cbn; eauto.
Qed.

Lemma preserves_query {A} I (f : db → result db_error A) : preserves I (query f).
Proof.
  apply preserves_stmt. intros t a t' H (b & Hf & [= <- <-])%result_bind_Ok. done.
Qed.

Lemma preserves_exec I (f : db → result db_error db) :
  (∀ t t', I t → f t = Ok t' → I t') → preserves I (exec f).
Proof.
  intros H. apply preserves_stmt. intros t [] t' Ht (b & Hf & [= <-])%result_bind_Ok. eauto.
Qed.

Lemma preserves_foldM {A B} I (f : A → B → DB A) l :
  (∀ a b, preserves I (f a b)) → ∀ a, preserves I (foldM f a l).
Proof.
  intros Hf. induction l as [|b l IH]; intros a; cbn [foldM]; [apply preserves_ret|].
  apply preserves_bind; auto.
Qed.

Lemma preserves_transaction_if {A} I (body : DB (A * bool)) :
  (∀ t, I t → wp body (λ _, I) t) → preserves I (transaction_if body).
Proof.
  intros H w Hw. pose proof (transaction_if_spec body (λ _, I) w) as Hs.
  destruct (transaction_if body w) as [r w']. cbn.
  destruct Hs as [[-> _]|(a & HI & _)]; [|done..].
  eapply wp_mono; [|by apply H]. intros [a []] t' Ht'; done.
Qed.

Lemma preserves_transaction {A} I (body : DB A) :
  (∀ t, I t → wp body (λ _, I) t) → preserves I (transaction body).
Proof.
  intros H. apply preserves_transaction_if. intros t Ht. apply wp_bind.
  eapply wp_mono; [|by apply H]. intros a t' Ha. by apply wp_ret.
Qed.

Lemma preserves_attempt {A} I (m : DB A) : preserves I m → preserves I (attempt m).
Proof. intros H w Hw. unfold attempt. specialize (H w Hw). by destruct (m w). Qed.

Lemma wp_attempt {A} (m : DB A) I t :
  preserves I m → I t → wp (attempt m) (λ _, I) t.
Proof.
  intros H Ht w <-. unfold attempt. specialize (H w Ht). by destruct (m w).
Qed.

#[export] Hint Resolve wp_ret wp_fail preserves_ret preserves_fail preserves_query : gw.

(** One step of a proof of [wp]. *)
Ltac wp_step :=
  lazymatch goal with
  | |- wp (mret _) _ _ => apply wp_ret
  | |- wp (fail _) _ _ => apply wp_fail
  | |- wp (of_result _) _ _ => apply wp_of_result; intros ? ?
  | |- wp (query _) _ _ => apply wp_query; intros ? ?
  | |- wp (exec _) _ _ => apply wp_exec; intros ? ?
  | |- wp (stmt _) _ _ => apply wp_stmt; intros ? ? ?
  | |- wp (_ ≫= _) _ _ => apply wp_bind
  | |- wp (if ?b then _ else _) _ _ => destruct b eqn:?
  end.

(** ** Without faults *)

Lemma stmt_calm {A} (f : db → result db_error (A * db)) t :
  stmt f (World t []) = match f t with
                        | Ok (a, t') => (Ok a, World t' [])
                        | Err e => (Err e, World t [])
                        end.
Proof. reflexivity. Qed.

Lemma query_calm {A} (f : db → result db_error A) t : query f (World t []) = (f t, World t []).
Proof. unfold query. rewrite stmt_calm. by destruct (f t). Qed.

Lemma bind_calm {A B} (m : DB A) (k : A → DB B) w a w' : m w = (Ok a, w') → (m ≫= k) w = k a w'.
Proof. intros E. unfold mbind, DB_bind. by rewrite E. Qed.

Lemma bind_stops {A B} (m : DB A) (k : A → DB B) w e w' : m w = (Err e, w') → (m ≫= k) w = (Err e, w').
Proof. intros E. unfold mbind, DB_bind. by rewrite E. Qed.

Lemma attempt_calm {A} (m : DB A) w r w' : m w = (r, w') → attempt m w = (Ok r, w').
Proof. intros E. unfold attempt. by rewrite E. Qed.

Lemma transaction_calm {A} (body : DB A) t a t' :
  body (World t []) = (Ok a, World t' []) → transaction body (World t []) = (Ok a, World t' []).
Proof. intros E. unfold transaction, transaction_if. cbn. by rewrite (bind_calm _ _ _ _ _ E). Qed.
