(* ===== verification/Billing.v ===== *)
(** * Billing: prices, wallets and the deduction job

    internal/control/billing.go (price table, wallet movements),
    internal/control/billing_policy.go (what each class of usage is worth
    deciding) and internal/control/billing_job.go (the settlement of one tenant
    and of one run).  The definitions follow the Go functions; every SQL
    statement is a [query] or [exec] of Db.v with the statement's effect on the
    tables.  Proofs are in BillingFacts.v. *)

From Stdlib Require Import QArith.
From S2P Require Import Prelude Decimal Money Contracts Numeric Db.

Open Scope Z_scope.

(** ** Prices *)

Record ModelPrice := {
  Price_ID : string;
  Price_Provider : string;
  Price_Model : string;
  Price_Currency : string;
  Price_UnitScale : Z;
  PriceInput : Decimal;
  PriceOutput : Decimal;
  PriceCacheRead : Decimal;
  PriceCacheWrite : Decimal;
  EffectiveFrom : time;
  Price_CreatedAt : time
}.

(** The amount checks of the [range amounts] loop; every failure is an
    [ErrPriceRejected], so the order Go visits the map in does not show. *)
Definition check_price_amount (column : string) (amount : Decimal) : result db_error unit :=
  match checkMoney column amount with
  | Err _ => Err EPriceRejected
  | Ok _ => match Decimal_Sign amount with
            | Some sign => if sign <? 0 then Err EPriceRejected else Ok tt
            | None => Err EPriceRejected
            end
  end.

(** INSERT INTO model_prices, with the table's keys and checks. *)
Definition insert_model_price (price : ModelPrice) (t : db) : result db_error db :=
  i ← numeric_in (PriceInput price);
  o ← numeric_in (PriceOutput price);
  r ← numeric_in (PriceCacheRead price);
  w ← numeric_in (PriceCacheWrite price);
  if (Price_UnitScale price <=? 0) || (i <? 0) || (o <? 0) || (r <? 0) || (w <? 0)
  then Err ECheckViolation
  else if existsb (λ p, String.eqb (mp_id p) (Price_ID price)) (model_prices t)
     || existsb (λ p, String.eqb (mp_provider p) (Price_Provider price)
                      && String.eqb (mp_model p) (Price_Model price)
                      && (mp_effective_from p =? EffectiveFrom price)) (model_prices t)
  then Err EUniqueViolation
  else Ok (set_prices (cons {| mp_id := Price_ID price; mp_provider := Price_Provider price;
      mp_model := Price_Model price; mp_currency := Price_Currency price;
      mp_unit_scale := Price_UnitScale price; mp_price_input := i; mp_price_output := o;
      mp_price_cache_read := r; mp_price_cache_write := w;
      mp_effective_from := EffectiveFrom price; mp_created_at := db_now t |}) t).

Definition InsertModelPrice (price : ModelPrice) (now : time) : DB unit :=
  if String.eqb (Price_ID price) "" || String.eqb (Price_Provider price) ""
     || String.eqb (Price_Model price) "" then fail EPriceRejected
  else
  let price := if String.eqb (Price_Currency price) ""
    then {| Price_ID := Price_ID price; Price_Provider := Price_Provider price;
            Price_Model := Price_Model price; Price_Currency := "USD";
            Price_UnitScale := Price_UnitScale price; PriceInput := PriceInput price;
            PriceOutput := PriceOutput price; PriceCacheRead := PriceCacheRead price;
            PriceCacheWrite := PriceCacheWrite price; EffectiveFrom := EffectiveFrom price;
            Price_CreatedAt := Price_CreatedAt price |}
    else price in
  if Price_UnitScale price <=? 0 then fail EPriceRejected
  else if negb (after (EffectiveFrom price) now) then fail EPriceNotEffectiveInFuture
  else
  _ ← of_result (check_price_amount "price_input" (PriceInput price));
  _ ← of_result (check_price_amount "price_output" (PriceOutput price));
  _ ← of_result (check_price_amount "price_cache_read" (PriceCacheRead price));
  _ ← of_result (check_price_amount "price_cache_write" (PriceCacheWrite price));
  exec (insert_model_price price).

(** ORDER BY effective_from DESC LIMIT 1. *)
Definition latest_price (rows : list price_row) : option price_row :=
  foldr (λ p best, match best with
                   | Some b => if mp_effective_from b <? mp_effective_from p then Some p else best
                   | None => Some p
                   end) None rows.

Definition price_applies (provider model : string) (at_ : time) (p : price_row) : bool :=
  String.eqb (mp_provider p) provider && String.eqb (mp_model p) model
  && (mp_effective_from p <=? at_).

Definition scan_price (p : price_row) : ModelPrice :=
  {| Price_ID := mp_id p; Price_Provider := mp_provider p; Price_Model := mp_model p;
     Price_Currency := mp_currency p; Price_UnitScale := mp_unit_scale p;
     PriceInput := numeric_out (mp_price_input p);
     PriceOutput := numeric_out (mp_price_output p);
     PriceCacheRead := numeric_out (mp_price_cache_read p);
     PriceCacheWrite := numeric_out (mp_price_cache_write p);
     EffectiveFrom := mp_effective_from p; Price_CreatedAt := mp_created_at p |}.

Definition price_row_at (provider model : string) (at_ : time) (t : db) : option price_row :=
  latest_price (filter (λ p, price_applies provider model at_ p = true) (model_prices t)).

(** [None] is the Go result [false]. *)
Definition priceAt (provider model : string) (at_ : time) : DB (option ModelPrice) :=
  query (λ t, Ok (scan_price <$> price_row_at provider model at_ t)).

(** ** Wallets *)

Record WalletMovement := {
  Movement_ID : string;
  Movement_TenantID : string;
  Movement_Kind : string;
  Movement_Amount : Decimal;
  Movement_BillingRunID : string;
  Movement_Note : string
}.

Record WalletTransaction := {
  Transaction_ID : string;
  Transaction_TenantID : string;
  Transaction_Kind : string;
  Transaction_Amount : Decimal;
  BalanceAfter : Decimal;
  Transaction_BillingRunID : string;
  Transaction_Note : string;
  Transaction_CreatedAt : time
}.

(** INSERT ... ON CONFLICT (tenant_id) DO NOTHING. *)
Definition EnsureWallet (tenantID currency : string) : DB unit :=
  if String.eqb tenantID "" then fail EBadInput
  else
  let currency := if String.eqb currency "" then "USD"%string else currency in
  exec (λ t,
    if negb (bool_decide (tenantID ∈ tenants t)) then Err EForeignKey
    else match tenant_wallets t !! tenantID with
         | Some _ => Ok t
         | None => Ok (set_wallets <[tenantID := WalletRow currency 0]> t)
         end).

Definition Balance (tenantID : string) : DB (option Decimal) :=
  query (λ t, Ok ((λ w, numeric_out (tw_balance w)) <$> tenant_wallets t !! tenantID)).

Definition lock_wallet (tenantID : string) : DB Decimal :=
  query (λ t, match tenant_wallets t !! tenantID with
              | Some w => Ok (numeric_out (tw_balance w))
              | None => Err EWalletNotFound
              end).

(** UPDATE tenant_wallets SET balance = balance + $2::numeric ... RETURNING. *)
Definition move_balance (tenantID : string) (amount : Decimal) : DB Decimal :=
  stmt (λ t, match tenant_wallets t !! tenantID with
             | Some w =>
                 match rat_set_string (pg_trim amount) with
                 | None => Err EInvalidNumeric
                 | Some a =>
                     balance ← numeric_fits (rat_round 12 (Qplus (units (tw_balance w)) a));
                     Ok (numeric_out balance,
                         set_wallets <[tenantID := WalletRow (tw_currency w) balance]> t)
                 end
             | None => Err ENoRows
             end).

Definition kind_amount_ok (kind : string) (amount : numeric) : bool :=
  (String.eqb kind "topup" && (0 <? amount)) || (String.eqb kind "debit" && (amount <? 0))
  || (String.eqb kind "adjustment" && negb (amount =? 0)).

Definition nullable (s : string) : option string := if String.eqb s "" then None else Some s.

(** INSERT INTO wallet_transactions ... RETURNING created_at. *)
Definition record_transaction (movement : WalletMovement) (balanceAfter : Decimal) : DB time :=
  stmt (λ t,
    amount ← numeric_in (Movement_Amount movement);
    balance ← numeric_in balanceAfter;
    if negb (kind_amount_ok (Movement_Kind movement) amount) then Err ECheckViolation
    else if existsb (λ j, String.eqb (wt_id j) (Movement_ID movement)) (wallet_transactions t)
    then Err EUniqueViolation
    else if negb (bool_decide (is_Some (tenant_wallets t !! Movement_TenantID movement)))
    then Err EForeignKey
    else Ok (db_now t, set_journal (λ l, l ++
      [{| wt_id := Movement_ID movement; wt_tenant_id := Movement_TenantID movement;
          wt_kind := Movement_Kind movement; wt_amount := amount; wt_balance_after := balance;
          wt_billing_run_id := nullable (Movement_BillingRunID movement);
          wt_note := Movement_Note movement; wt_created_at := db_now t |}]) t)).

Definition applyMovement (movement : WalletMovement) : DB WalletTransaction :=
  if String.eqb (Movement_ID movement) "" || String.eqb (Movement_TenantID movement) ""
  then fail EBadInput
  else match checkMoney "amount" (Movement_Amount movement) with
  | Err e => fail (EMoney e)
  | Ok _ =>
  match checkMovementKind (Movement_Kind movement) (Movement_Amount movement) with
  | Err e => fail (EMoney e)
  | Ok _ =>
  _ ← lock_wallet (Movement_TenantID movement);
  balanceAfter ← move_balance (Movement_TenantID movement) (Movement_Amount movement);
  created ← record_transaction movement balanceAfter;
  mret {| Transaction_ID := Movement_ID movement;
          Transaction_TenantID := Movement_TenantID movement;
          Transaction_Kind := Movement_Kind movement;
          Transaction_Amount := Movement_Amount movement;
          BalanceAfter := balanceAfter;
          Transaction_BillingRunID := Movement_BillingRunID movement;
          Transaction_Note := Movement_Note movement;
          Transaction_CreatedAt := created |}
  end end.

Definition ApplyMovement (movement : WalletMovement) : DB WalletTransaction :=
  transaction (applyMovement movement).

(** ORDER BY created_at, id. *)
Definition journal_le (a b : journal_row) : Prop :=
  wt_created_at a < wt_created_at b ∨
  (wt_created_at a = wt_created_at b ∧ String.le (wt_id a) (wt_id b)).
#[export] Instance journal_le_dec : RelDecision journal_le.
Proof. intros a b. unfold journal_le. apply _. Defined.

Definition scan_transaction (j : journal_row) : WalletTransaction :=
  {| Transaction_ID := wt_id j; Transaction_TenantID := wt_tenant_id j;
     Transaction_Kind := wt_kind j; Transaction_Amount := numeric_out (wt_amount j);
     BalanceAfter := numeric_out (wt_balance_after j);
     Transaction_BillingRunID := default ""%string (wt_billing_run_id j);
     Transaction_Note := wt_note j; Transaction_CreatedAt := wt_created_at j |}.

Definition ListWalletTransactions (tenantID : string) : DB (list WalletTransaction) :=
  query (λ t, Ok (scan_transaction <$> merge_sort journal_le
    (filter (λ j, wt_tenant_id j = tenantID) (wallet_transactions t)))).

(** ** What usage of each class is worth (billing_policy.go) *)

Inductive billingDisposition := dispositionBill | dispositionHold | dispositionNotBillable.

Record usageClass := UsageClass { source : string; partial_ : bool; succeeded : bool }.

#[export] Instance usageClass_eq_dec : EqDecision usageClass.
Proof. solve_decision. Defined.
#[export] Instance billingDisposition_eq_dec : EqDecision billingDisposition.
Proof. solve_decision. Defined.

Definition usageDispositions : list (usageClass * billingDisposition) :=
  [(UsageClass UsageSourceUpstream false true, dispositionBill);
   (UsageClass UsageSourceUpstream true true, dispositionBill);
   (UsageClass UsageSourceUpstream false false, dispositionNotBillable);
   (UsageClass UsageSourceUpstream true false, dispositionNotBillable);
   (UsageClass UsageSourceEstimated false true, dispositionHold);
   (UsageClass UsageSourceEstimated true true, dispositionHold);
   (UsageClass UsageSourceEstimated false false, dispositionHold);
   (UsageClass UsageSourceEstimated true false, dispositionHold);
   (UsageClass UsageSourceMissing false true, dispositionHold);
   (UsageClass UsageSourceMissing true true, dispositionHold);
   (UsageClass UsageSourceMissing false false, dispositionNotBillable);
   (UsageClass UsageSourceMissing true false, dispositionNotBillable)].

Definition policy_lookup (class : usageClass) : option billingDisposition :=
  (λ e, e.2.2) <$> list_find (λ e, e.1 = class) usageDispositions.

Definition dispositionFor (class : usageClass) : billingDisposition * bool :=
  match policy_lookup class with
  | None => (dispositionHold, false)
  | Some disposition => (disposition, true)
  end.

Definition releaseSucceeded (statusCode : Z) (errorClass : string) : bool :=
  String.eqb errorClass ErrorOK && (200 <=? statusCode) && (statusCode <? 400).

Definition billingStateFor (disposition : billingDisposition) : result db_error string :=
  match disposition with
  | dispositionHold => Ok "held"%string
  | dispositionNotBillable => Ok "not_billable"%string
  | dispositionBill => Err ENoTerminalState
  end.

Definition knownUsageSources : list string :=
  sort_strings [UsageSourceUpstream; UsageSourceEstimated; UsageSourceMissing].

(** ** The deduction job (billing_job.go) *)

Record billableRow := {
  id : Z;
  eventID : string;
  provider : string;
  model : string;
  tokensIn : Z;
  tokensOut : Z;
  cacheReadTokens : Z;
  cacheWriteTokens : Z;
  usageSource : string;
  partial : bool;
  statusCode : Z;
  errorClass : string;
  occurredAt : time
}.

Definition class (r : billableRow) : usageClass :=
  UsageClass (usageSource r) (partial r) (releaseSucceeded (statusCode r) (errorClass r)).

(** One of the four products of [lineAmount]. *)
Definition add_part (total : Q) (tokens : Z) (unit_ : Decimal) : result db_error Q :=
  if tokens =? 0 then Ok total
  else if tokens <? 0 then Err EUnpriceable
  else match rat_set_string unit_ with
       | None => Err EUnpriceable
       | Some u => Ok (Qplus total (Qmult u (inject_Z tokens)))
       end.

Definition lineAmount (row : billableRow) (price : ModelPrice) : result db_error Q :=
  if Price_UnitScale price <=? 0 then Err EUnpriceable
  else
  total ← add_part (inject_Z 0) (tokensIn row) (PriceInput price);
  total ← add_part total (tokensOut row) (PriceOutput price);
  total ← add_part total (cacheReadTokens row) (PriceCacheRead price);
  total ← add_part total (cacheWriteTokens row) (PriceCacheWrite price);
  Ok (Qdiv total (inject_Z (Price_UnitScale price))).

Definition scan_billable (r : usage_row) : billableRow :=
  {| id := ul_id r; eventID := ul_event_id r; provider := ul_provider r; model := ul_model r;
     tokensIn := ul_tokens_in r; tokensOut := ul_tokens_out r;
     cacheReadTokens := ul_cache_read_tokens r; cacheWriteTokens := ul_cache_write_tokens r;
     usageSource := ul_usage_source r; partial := ul_partial r;
     statusCode := ul_status_code r; errorClass := ul_error_class r;
     occurredAt := ul_occurred_at r |}.

(** ORDER BY occurred_at, id. *)
Definition ledger_le (a b : usage_row) : Prop :=
  ul_occurred_at a < ul_occurred_at b ∨
  (ul_occurred_at a = ul_occurred_at b ∧ ul_id a <= ul_id b).
#[export] Instance ledger_le_dec : RelDecision ledger_le.
Proof. intros a b. unfold ledger_le. apply _. Defined.

Definition billable (tenantID : string) (windowEnd : time) (r : usage_row) : bool :=
  String.eqb (ul_tenant_id r) tenantID && String.eqb (ul_billing_state r) "pending"
  && (ul_occurred_at r <? windowEnd).

Definition selectBillableRows (tenantID : string) (windowEnd : time) : DB (list billableRow) :=
  query (λ t, Ok (scan_billable <$> merge_sort ledger_le
    (filter (λ r, billable tenantID windowEnd r = true) (usage_ledger t)))).

Definition set_billing (state : string) (amount : option numeric) (run : option string)
    (r : usage_row) : usage_row :=
  UsageRow (ul_id r) (ul_event_id r) (ul_attempt_id r) (ul_request_id r) (ul_tenant_id r)
    (ul_account_id r) (ul_provider r) (ul_model r) (ul_status_code r) (ul_error_class r)
    (ul_tokens_in r) (ul_tokens_out r) (ul_cache_read_tokens r) (ul_cache_write_tokens r)
    (ul_usage_source r) (ul_partial r) (ul_occurred_at r) state amount run.

(** UPDATE usage_ledger SET f WHERE w. *)
Definition update_ledger (w : usage_row → bool) (f : usage_row → usage_row) (t : db) : db :=
  set_ledger (List.map (λ r, if w r then f r else r)) t.

Definition mark_billed (runID : string) (row : Z) (amount : Decimal) : DB unit :=
  exec (λ t, v ← numeric_in amount;
    Ok (update_ledger (λ r, ul_id r =? row) (set_billing "billed" (Some v) (Some runID)) t)).

Definition mark_state (runID state : string) (ids : list Z) : DB unit :=
  exec (λ t, Ok (update_ledger (λ r, bool_decide (ul_id r ∈ ids))
    (λ r, set_billing state (ul_billed_amount r) (Some runID) r) t)).

Record tenantSettlement := {
  rowsBilled : Z;
  rowsUnpriced : Z;
  rowsHeld : Z;
  rowsNotBillable : Z;
  rowsUnknownClass : Z;
  debited : Q
}.

(** The local variables of [settleTenant]'s loop. *)
Record settle_vars := {
  sv_debited : Q;
  sv_unknown : Z;
  sv_billed : gmap Z Decimal;
  sv_unpriced : list Z;
  sv_byState : gmap string (list Z)
}.

Definition settle_vars0 : settle_vars :=
  {| sv_debited := inject_Z 0; sv_unknown := 0; sv_billed := ∅; sv_unpriced := [];
     sv_byState := ∅ |}.

(** One turn of the loop over the billable rows. *)
Definition settle_row (v : settle_vars) (row : billableRow) : DB settle_vars :=
  let '(disposition, known) := dispositionFor (class row) in
  let unknown := if known then sv_unknown v else sv_unknown v + 1 in
  if negb (bool_decide (disposition = dispositionBill)) then
    state ← of_result (billingStateFor disposition);
    mret {| sv_debited := sv_debited v; sv_unknown := unknown; sv_billed := sv_billed v;
            sv_unpriced := sv_unpriced v;
            sv_byState := <[state := default [] (sv_byState v !! state) ++ [id row]]>
                            (sv_byState v) |}
  else
  found ← priceAt (provider row) (model row) (occurredAt row);
  match found with
  | None =>
      mret {| sv_debited := sv_debited v; sv_unknown := unknown; sv_billed := sv_billed v;
              sv_unpriced := sv_unpriced v ++ [id row]; sv_byState := sv_byState v |}
  | Some price =>
      amount ← of_result (lineAmount row price);
      let rounded := float_string 12 amount in
      match rat_set_string rounded with
      | None => fail EUnusableAmount
      | Some exact =>
          mret {| sv_debited := Qplus (sv_debited v) exact; sv_unknown := unknown;
                  sv_billed := <[id row := rounded]> (sv_billed v);
                  sv_unpriced := sv_unpriced v; sv_byState := sv_byState v |}
      end
  end.

Definition settlement_note (runID : string) (rows : nat) : string :=
  "billing run " +:+ runID +:+ " settled " +:+ format_int (Z.of_nat rows) +:+ " usage rows".

(** The wallet debit of a settlement. *)
Definition debit_movement (runID tenantID : string) (v : settle_vars) : WalletMovement :=
  {| Movement_ID := runID +:+ ":" +:+ tenantID; Movement_TenantID := tenantID;
     Movement_Kind := "debit"; Movement_Amount := "-" +:+ float_string 12 (sv_debited v);
     Movement_BillingRunID := runID;
     Movement_Note := settlement_note runID (size (sv_billed v)) |}.

(** What [settleTenant] writes once every row has its verdict. *)
Definition write_settlement (runID tenantID : string) (v : settle_vars) : DB unit :=
  _ ← (if 0 <? rat_sign (sv_debited v)
       then _ ← applyMovement (debit_movement runID tenantID v); mret tt
       else mret tt);
  _ ← foldM (λ _ '(row, amount), mark_billed runID row amount) tt (map_to_list (sv_billed v));
  _ ← (if bool_decide (sv_unpriced v = []) then mret tt
       else mark_state runID "unpriced" (sv_unpriced v));
  foldM (λ _ '(state, ids), mark_state runID state ids) tt (map_to_list (sv_byState v)).

Definition settlement0 : tenantSettlement :=
  {| rowsBilled := 0; rowsUnpriced := 0; rowsHeld := 0; rowsNotBillable := 0;
     rowsUnknownClass := 0; debited := inject_Z 0 |}.

Definition settlement_of (v : settle_vars) : tenantSettlement :=
  {| rowsBilled := Z.of_nat (size (sv_billed v));
     rowsUnpriced := Z.of_nat (length (sv_unpriced v));
     rowsHeld := Z.of_nat (length (default [] (sv_byState v !! "held"%string)));
     rowsNotBillable := Z.of_nat (length (default [] (sv_byState v !! "not_billable"%string)));
     rowsUnknownClass := sv_unknown v; debited := sv_debited v |}.

Definition settle_body (runID tenantID : string) (windowEnd : time)
    : DB (tenantSettlement * bool) :=
  rows ← selectBillableRows tenantID windowEnd;
  if bool_decide (rows = []) then mret (settlement0, false)
  else
  v ← foldM settle_row settle_vars0 rows;
  _ ← write_settlement runID tenantID v;
  mret (settlement_of v, true).

Definition settleTenant (runID tenantID : string) (windowEnd : time) : DB tenantSettlement :=
  transaction_if (settle_body runID tenantID windowEnd).

(** ** One run over every tenant *)

Record BillingRunResult := {
  RunID : string;
  WindowEnd : time;
  Skipped : bool;
  SkipReason : string;
  TenantsBilled : Z;
  TenantsFailed : Z;
  RowsBilled : Z;
  RowsUnpriced : Z;
  RowsHeld : Z;
  RowsNotBillable : Z;
  RowsUnknownClass : Z;
  TotalDebited : Decimal
}.

Definition run_result0 (runID : string) (windowEnd : time) : BillingRunResult :=
  {| RunID := runID; WindowEnd := windowEnd; Skipped := false; SkipReason := "";
     TenantsBilled := 0; TenantsFailed := 0; RowsBilled := 0; RowsUnpriced := 0; RowsHeld := 0;
     RowsNotBillable := 0; RowsUnknownClass := 0; TotalDebited := "0" |}.

Definition skipped_result (runID : string) (windowEnd : time) : BillingRunResult :=
  {| RunID := runID; WindowEnd := windowEnd; Skipped := true;
     SkipReason := "no model prices are configured";
     TenantsBilled := 0; TenantsFailed := 0; RowsBilled := 0; RowsUnpriced := 0; RowsHeld := 0;
     RowsNotBillable := 0; RowsUnknownClass := 0; TotalDebited := "0" |}.

Definition run_failed (r : BillingRunResult) : BillingRunResult :=
  {| RunID := RunID r; WindowEnd := WindowEnd r; Skipped := Skipped r;
     SkipReason := SkipReason r; TenantsBilled := TenantsBilled r;
     TenantsFailed := TenantsFailed r + 1; RowsBilled := RowsBilled r;
     RowsUnpriced := RowsUnpriced r; RowsHeld := RowsHeld r;
     RowsNotBillable := RowsNotBillable r; RowsUnknownClass := RowsUnknownClass r;
     TotalDebited := TotalDebited r |}.

Definition run_settled (r : BillingRunResult) (s : tenantSettlement) : BillingRunResult :=
  {| RunID := RunID r; WindowEnd := WindowEnd r; Skipped := Skipped r;
     SkipReason := SkipReason r;
     TenantsBilled := if (0 <? rowsBilled s) || (0 <? rowsUnpriced s)
                      then TenantsBilled r + 1 else TenantsBilled r;
     TenantsFailed := TenantsFailed r; RowsBilled := RowsBilled r + rowsBilled s;
     RowsUnpriced := RowsUnpriced r + rowsUnpriced s; RowsHeld := RowsHeld r + rowsHeld s;
     RowsNotBillable := RowsNotBillable r + rowsNotBillable s;
     RowsUnknownClass := RowsUnknownClass r + rowsUnknownClass s;
     TotalDebited := TotalDebited r |}.

Definition run_total (r : BillingRunResult) (total : Q) : BillingRunResult :=
  {| RunID := RunID r; WindowEnd := WindowEnd r; Skipped := Skipped r;
     SkipReason := SkipReason r; TenantsBilled := TenantsBilled r;
     TenantsFailed := TenantsFailed r; RowsBilled := RowsBilled r;
     RowsUnpriced := RowsUnpriced r; RowsHeld := RowsHeld r;
     RowsNotBillable := RowsNotBillable r; RowsUnknownClass := RowsUnknownClass r;
     TotalDebited := float_string 12 total |}.

(** INSERT INTO billing_runs. *)
Definition open_run (runID : string) (windowEnd : time) (status : string) : DB unit :=
  exec (λ t, match billing_runs t !! runID with
             | Some _ => Err EUniqueViolation
             | None => Ok (set_runs <[runID := RunRow windowEnd status 0 0 0 0 0 0 0]> t)
             end).

(** UPDATE billing_runs ... WHERE id=$1. *)
Definition closeRun (result : BillingRunResult) (status : string) : DB unit :=
  exec (λ t, total ← numeric_in (TotalDebited result);
    Ok (set_runs (alter (λ r, RunRow (br_window_end r) status (TenantsBilled result)
      (TenantsFailed result) (RowsBilled result) (RowsUnpriced result) (RowsHeld result)
      (RowsNotBillable result) total) (RunID result)) t)).

(** SELECT DISTINCT tenant_id ... ORDER BY tenant_id. *)
Definition pending_tenants (windowEnd : time) (t : db) : list string :=
  sort_strings (remove_dups (ul_tenant_id <$>
    filter (λ r, String.eqb (ul_billing_state r) "pending" && (ul_occurred_at r <? windowEnd) = true)
      (usage_ledger t))).

Definition pendingTenants (windowEnd : time) : DB (list string) :=
  query (λ t, Ok (pending_tenants windowEnd t)).

(** One tenant of the run: its failure is counted, not propagated. *)
Definition run_tenant (runID : string) (windowEnd : time)
    (acc : BillingRunResult * option db_error * Q) (tenantID : string)
    : DB (BillingRunResult * option db_error * Q) :=
  let '(result, firstErr, total) := acc in
  settled ← attempt (settleTenant runID tenantID windowEnd);
  mret match settled with
       | Err e => (run_failed result, match firstErr with None => Some e | _ => firstErr end, total)
       | Ok s => (run_settled result s, firstErr, Qplus total (debited s))
       end.

(** The result Go returns next to the error is the first component. *)
Definition RunOnce (runID : string) (windowEnd : time)
    : DB (BillingRunResult * option db_error) :=
  let result := run_result0 runID windowEnd in
  count ← attempt (query (λ t, Ok (length (model_prices t))));
  match count with
  | Err e => mret (result, Some e)
  | Ok O =>
      opened ← attempt (open_run runID windowEnd "skipped");
      mret (skipped_result runID windowEnd, match opened with Err e => Some e | Ok _ => None end)
  | Ok (S _) =>
      opened ← attempt (open_run runID windowEnd "running");
      match opened with
      | Err e => mret (result, Some e)
      | Ok _ =>
          listed ← attempt (pendingTenants windowEnd);
          match listed with
          | Err e => _ ← attempt (closeRun result "failed"); mret (result, Some e)
          | Ok ts =>
              '(result, firstErr, total) ← foldM (run_tenant runID windowEnd)
                (result, None, inject_Z 0) ts;
              let result := run_total result total in
              let status := if 0 <? TenantsFailed result then "failed"%string else "completed"%string in
              closed ← attempt (closeRun result status);
              mret (result, match closed, firstErr with
                            | Err e, None => Some e
                            | _, _ => firstErr
                            end)
          end
      end
  end.
