(* ===== verification/Reconcile.v ===== *)
(** * Reconciliation

    internal/control/billing_reconcile.go: the read-only report that aligns
    usage_ledger, wallet_transactions and tenant_wallets over a window.  The
    report is a function of one snapshot of the tables.  The human-readable
    [Detail] of a discrepancy and the report's clock are left out.  Proofs are
    in ReconcileFacts.v. *)

From Stdlib Require Import QArith.
From S2P Require Import Prelude Decimal Money Numeric Db Billing.

Open Scope Z_scope.

Record RunReconciliation := {
  rr_RunID : string;
  WindowRows : Z;
  WindowEventIDs : list string;
  LedgerRows : Z;
  LedgerAmount : Decimal;
  WalletDebit : Decimal;
  Difference : Decimal
}.

Record TenantReconciliation := {
  tr_TenantID : string;
  RowsByState : gmap string Z;
  BilledAmount : Decimal;
  Runs : list RunReconciliation;
  WalletExists : bool;
  WalletBalance : Decimal;
  JournalSum : Decimal
}.

Record UnsettledRow := {
  un_TenantID : string;
  un_EventID : string;
  un_State : string
}.

Inductive discrepancy_kind :=
| BilledWithoutAmount
| BilledWithoutRun
| AmountOnUnsettledRow
| RunDebitMismatch
| WalletBalanceDrift
| MissingWallet.

Record Discrepancy := {
  dc_Kind : discrepancy_kind;
  dc_TenantID : string;
  dc_RunID : string;
  dc_EventIDs : list string;
  dc_Expected : Decimal;
  dc_Actual : Decimal
}.

Record ReconciliationReport := {
  Tenants : list TenantReconciliation;
  UnsettledRows : list UnsettledRow;
  TotalBilled : Decimal;
  rp_TotalDebited : Decimal;
  Discrepancies : list Discrepancy
}.

Definition Balanced (r : ReconciliationReport) : bool :=
  match Discrepancies r with [] => true | _ => false end.

Record windowRow := {
  wr_tenantID : string;
  wr_eventID : string;
  wr_state : string;
  wr_amount : option Decimal;   (* [None]: hasAmt is false *)
  wr_runID : string
}.

Definition zeroMoney : Decimal := float_string 12 (inject_Z 0).

Definition sameMoney (left right : Decimal) : bool :=
  match rat_set_string left, rat_set_string right with
  | Some a, Some b => Qeq_bool a b
  | _, _ => false
  end.

(** ** The four reads *)

(** ORDER BY tenant_id, occurred_at, id. *)
Definition window_le (a b : usage_row) : Prop :=
  if String.eqb (ul_tenant_id a) (ul_tenant_id b) then ledger_le a b
  else String.le (ul_tenant_id a) (ul_tenant_id b).
#[export] Instance window_le_dec : RelDecision window_le.
Proof. intros a b. unfold window_le. destruct (String.eqb _ _); apply _. Defined.

Definition scan_window (r : usage_row) : windowRow :=
  {| wr_tenantID := ul_tenant_id r; wr_eventID := ul_event_id r; wr_state := ul_billing_state r;
     wr_amount := numeric_out <$> ul_billed_amount r;
     wr_runID := default ""%string (ul_billing_run_id r) |}.

Definition in_report_window (start end_ : time) (r : usage_row) : bool :=
  (start <=? ul_occurred_at r) && (ul_occurred_at r <? end_).

Definition windowRows (start end_ : time) (t : db) : list windowRow :=
  scan_window <$> merge_sort window_le
    (filter (λ r, in_report_window start end_ r = true) (usage_ledger t)).

(** COALESCE(sum(x),0)::text: the literal 0 when every value is NULL. *)
Definition sum_text (l : list (option numeric)) : Decimal :=
  match omap (λ x, x) l with
  | [] => "0"%string
  | l => numeric_out (sumZ l)
  end.

Definition run_row_of (tenantID runID : string) (r : usage_row) : bool :=
  String.eqb (ul_billing_state r) "billed" && bool_decide (ul_billing_run_id r = Some runID)
  && String.eqb (ul_tenant_id r) tenantID.

(** One group of the GROUP BY, [None] when the group is empty. *)
Definition runLedgerTotals (runIDs : list string) (t : db) (tenantID runID : string)
    : option (Z * Decimal) :=
  if negb (bool_decide (runID ∈ runIDs)) then None
  else match filter (λ r, run_row_of tenantID runID r = true) (usage_ledger t) with
  | [] => None
  | rows => Some (Z.of_nat (length rows), sum_text (ul_billed_amount <$> rows))
  end.

Definition run_debit_of (tenantID runID : string) (j : journal_row) : bool :=
  String.eqb (wt_kind j) "debit" && bool_decide (wt_billing_run_id j = Some runID)
  && String.eqb (wt_tenant_id j) tenantID.

Definition runWalletDebits (runIDs : list string) (t : db) (tenantID runID : string)
    : option Decimal :=
  if negb (bool_decide (runID ∈ runIDs)) then None
  else match filter (λ j, run_debit_of tenantID runID j = true) (wallet_transactions t) with
  | [] => None
  | rows => Some (sum_text ((λ j, Some (- wt_amount j)) <$> rows))
  end.

Definition walletTotals (t : db) (tenantID : string) : option (Decimal * Decimal) :=
  (λ w, (numeric_out (tw_balance w),
         sum_text ((λ j, Some (wt_amount j)) <$>
           filter (λ j, wt_tenant_id j = tenantID) (wallet_transactions t))))
  <$> tenant_wallets t !! tenantID.

(** ** The pass over the window *)

Record run_vars := {
  rv_byTenant : gmap string TenantReconciliation;
  rv_windowBilled : gmap string Q;
  rv_runRows : gmap string (gmap string RunReconciliation);
  rv_runIDs : list string;
  rv_unsettled : list UnsettledRow;
  rv_discrepancies : list Discrepancy
}.

Definition run_vars0 : run_vars :=
  {| rv_byTenant := ∅; rv_windowBilled := ∅; rv_runRows := ∅; rv_runIDs := [];
     rv_unsettled := []; rv_discrepancies := [] |}.

Definition new_tenant (tenantID : string) : TenantReconciliation :=
  {| tr_TenantID := tenantID; RowsByState := ∅; BilledAmount := zeroMoney; Runs := [];
     WalletExists := false; WalletBalance := zeroMoney; JournalSum := zeroMoney |}.

Definition new_run (runID : string) : RunReconciliation :=
  {| rr_RunID := runID; WindowRows := 0; WindowEventIDs := []; LedgerRows := 0;
     LedgerAmount := zeroMoney; WalletDebit := zeroMoney; Difference := zeroMoney |}.

Definition count_state (state : string) (tenant : TenantReconciliation) : TenantReconciliation :=
  {| tr_TenantID := tr_TenantID tenant;
     RowsByState := <[state := default 0 (RowsByState tenant !! state) + 1]> (RowsByState tenant);
     BilledAmount := BilledAmount tenant; Runs := Runs tenant;
     WalletExists := WalletExists tenant; WalletBalance := WalletBalance tenant;
     JournalSum := JournalSum tenant |}.

Definition add_window_row (eventID : string) (run : RunReconciliation) : RunReconciliation :=
  {| rr_RunID := rr_RunID run; WindowRows := WindowRows run + 1;
     WindowEventIDs := WindowEventIDs run ++ [eventID]; LedgerRows := LedgerRows run;
     LedgerAmount := LedgerAmount run; WalletDebit := WalletDebit run;
     Difference := Difference run |}.

Definition add_discrepancy (d : Discrepancy) (v : run_vars) : run_vars :=
  {| rv_byTenant := rv_byTenant v; rv_windowBilled := rv_windowBilled v;
     rv_runRows := rv_runRows v; rv_runIDs := rv_runIDs v; rv_unsettled := rv_unsettled v;
     rv_discrepancies := rv_discrepancies v ++ [d] |}.

(** The first lines of the loop: the row's tenant is known and counted. *)
Definition see_tenant (row : windowRow) (v : run_vars) : run_vars :=
  let known := rv_byTenant v !! wr_tenantID row in
  {| rv_byTenant := <[wr_tenantID row :=
       count_state (wr_state row) (default (new_tenant (wr_tenantID row)) known)]> (rv_byTenant v);
     rv_windowBilled := match known with
       | Some _ => rv_windowBilled v
       | None => <[wr_tenantID row := inject_Z 0]> (rv_windowBilled v)
       end;
     rv_runRows := rv_runRows v; rv_runIDs := rv_runIDs v; rv_unsettled := rv_unsettled v;
     rv_discrepancies := rv_discrepancies v |}.

Definition add_unsettled (row : windowRow) (v : run_vars) : run_vars :=
  {| rv_byTenant := rv_byTenant v; rv_windowBilled := rv_windowBilled v;
     rv_runRows := rv_runRows v; rv_runIDs := rv_runIDs v;
     rv_unsettled := rv_unsettled v ++ [{| un_TenantID := wr_tenantID row;
       un_EventID := wr_eventID row; un_State := wr_state row |}];
     rv_discrepancies := rv_discrepancies v |}.

Definition add_billed (row : windowRow) (amount : Q) (v : run_vars) : run_vars :=
  {| rv_byTenant := rv_byTenant v;
     rv_windowBilled := alter (λ total, Qplus total amount) (wr_tenantID row) (rv_windowBilled v);
     rv_runRows := rv_runRows v; rv_runIDs := rv_runIDs v; rv_unsettled := rv_unsettled v;
     rv_discrepancies := rv_discrepancies v |}.

Definition add_run (row : windowRow) (v : run_vars) : run_vars :=
  let runs := default ∅ (rv_runRows v !! wr_tenantID row) in
  {| rv_byTenant := rv_byTenant v; rv_windowBilled := rv_windowBilled v;
     rv_runRows := <[wr_tenantID row := <[wr_runID row := add_window_row (wr_eventID row)
       (default (new_run (wr_runID row)) (runs !! wr_runID row))]> runs]> (rv_runRows v);
     rv_runIDs := if bool_decide (wr_runID row ∈ rv_runIDs v) then rv_runIDs v
                  else rv_runIDs v ++ [wr_runID row];
     rv_unsettled := rv_unsettled v; rv_discrepancies := rv_discrepancies v |}.

Definition see_row (v : run_vars) (row : windowRow) : option run_vars :=
  let v := see_tenant row v in
  if negb (String.eqb (wr_state row) "billed") then
    let v := add_unsettled row v in
    Some match wr_amount row with
         | Some amount => add_discrepancy {| dc_Kind := AmountOnUnsettledRow;
             dc_TenantID := wr_tenantID row; dc_RunID := ""; dc_EventIDs := [wr_eventID row];
             dc_Expected := ""; dc_Actual := amount |} v
         | None => v
         end
  else match wr_amount row with
  | None => Some (add_discrepancy {| dc_Kind := BilledWithoutAmount;
      dc_TenantID := wr_tenantID row; dc_RunID := wr_runID row; dc_EventIDs := [wr_eventID row];
      dc_Expected := ""; dc_Actual := "" |} v)
  | Some text =>
      amount ← rat_set_string text;
      let v := add_billed row amount v in
      if String.eqb (wr_runID row) "" then
        Some (add_discrepancy {| dc_Kind := BilledWithoutRun; dc_TenantID := wr_tenantID row;
          dc_RunID := ""; dc_EventIDs := [wr_eventID row]; dc_Expected := ""; dc_Actual := text |} v)
      else Some (add_run row v)
  end.

(** ** The pass over the tenants *)

Record report_vars := {
  pv_tenants : list TenantReconciliation;
  pv_discrepancies : list Discrepancy;
  pv_billed : Q;
  pv_debited : Q
}.

(** One run of one tenant: the completed record and its discrepancy. *)
Definition compare_run (v : run_vars) (t : db) (tenantID : string) (walletExists : bool)
    (runID : string) (run : RunReconciliation)
    : option (RunReconciliation * list Discrepancy * Q) :=
  let '(rows, ledgerAmount) := match runLedgerTotals (rv_runIDs v) t tenantID runID with
    | Some total => total
    | None => (LedgerRows run, LedgerAmount run)
    end in
  let debit := default (WalletDebit run) (runWalletDebits (rv_runIDs v) t tenantID runID) in
  difference ← Decimal_Sub ledgerAmount debit;
  let run := {| rr_RunID := rr_RunID run; WindowRows := WindowRows run;
    WindowEventIDs := WindowEventIDs run; LedgerRows := rows; LedgerAmount := ledgerAmount;
    WalletDebit := debit; Difference := difference |} in
  debited ← rat_set_string debit;
  let sign := default 0 (Decimal_Sign difference) in
  Some (run,
        if sign =? 0 then []
        else if negb walletExists then
          [{| dc_Kind := MissingWallet; dc_TenantID := tenantID; dc_RunID := runID;
              dc_EventIDs := WindowEventIDs run; dc_Expected := ledgerAmount;
              dc_Actual := zeroMoney |}]
        else
          [{| dc_Kind := RunDebitMismatch; dc_TenantID := tenantID; dc_RunID := runID;
              dc_EventIDs := WindowEventIDs run; dc_Expected := ledgerAmount;
              dc_Actual := debit |}],
        debited).

Definition compare_runs (v : run_vars) (t : db) (tenantID : string) (walletExists : bool)
    (acc : option (list RunReconciliation * list Discrepancy * Q)) (runID : string)
    : option (list RunReconciliation * list Discrepancy * Q) :=
  '(runs, discrepancies, debited) ← acc;
  run ← rv_runRows v !! tenantID ≫= λ rs, rs !! runID;
  '(run, found, debit) ← compare_run v t tenantID walletExists runID run;
  Some (runs ++ [run], discrepancies ++ found, Qplus debited debit).

Definition run_keys (v : run_vars) (tenantID : string) : list string :=
  sort_strings (fst <$> map_to_list (default ∅ (rv_runRows v !! tenantID))).

Definition see_wallet (t : db) (tenant : TenantReconciliation)
    : TenantReconciliation * list Discrepancy :=
  match walletTotals t (tr_TenantID tenant) with
  | None => (tenant, [])
  | Some (balance, journalSum) =>
      ({| tr_TenantID := tr_TenantID tenant; RowsByState := RowsByState tenant;
          BilledAmount := BilledAmount tenant; Runs := Runs tenant; WalletExists := true;
          WalletBalance := balance; JournalSum := journalSum |},
       if sameMoney balance journalSum then []
       else [{| dc_Kind := WalletBalanceDrift; dc_TenantID := tr_TenantID tenant; dc_RunID := "";
                dc_EventIDs := []; dc_Expected := journalSum; dc_Actual := balance |}])
  end.

Definition report_tenant (v : run_vars) (t : db) (acc : option report_vars) (tenantID : string)
    : option report_vars :=
  p ← acc;
  tenant ← rv_byTenant v !! tenantID;
  let '(tenant, drift) := see_wallet t tenant in
  '(runs, mismatches, debited) ← foldl (compare_runs v t tenantID (WalletExists tenant))
    (Some ([], [], inject_Z 0)) (run_keys v tenantID);
  billed ← rv_windowBilled v !! tenantID;
  let tenant := {| tr_TenantID := tr_TenantID tenant; RowsByState := RowsByState tenant;
    BilledAmount := float_string 12 billed; Runs := runs; WalletExists := WalletExists tenant;
    WalletBalance := WalletBalance tenant; JournalSum := JournalSum tenant |} in
  Some {| pv_tenants := pv_tenants p ++ [tenant];
          pv_discrepancies := pv_discrepancies p ++ drift ++ mismatches;
          pv_billed := Qplus (pv_billed p) billed; pv_debited := Qplus (pv_debited p) debited |}.

Definition see_rows (rows : list windowRow) : option run_vars :=
  foldl (λ acc row, v ← acc; see_row v row) (Some run_vars0) rows.

(** [None] stands for the errors of the Go function. *)
Definition Run (start end_ : time) (t : db) : option ReconciliationReport :=
  if negb (after end_ start) then None
  else
  v ← see_rows (windowRows start end_ t);
  p ← foldl (report_tenant v t) (Some {| pv_tenants := []; pv_discrepancies := rv_discrepancies v;
         pv_billed := inject_Z 0; pv_debited := inject_Z 0 |})
       (sort_strings (fst <$> map_to_list (rv_byTenant v)));
  Some {| Tenants := pv_tenants p; UnsettledRows := rv_unsettled v;
          TotalBilled := float_string 12 (pv_billed p);
          rp_TotalDebited := float_string 12 (pv_debited p);
          Discrepancies := pv_discrepancies p |}.
