(* ===== verification/BillingFacts.v ===== *)
(** * Billing: what the money code guarantees

    Proofs about Billing.v.  First the effect of each operation on the tables
    (movements, one row's verdict, one tenant's settlement), then the
    invariants of the money tables that every operation keeps under any
    schedule of faults, then the properties of prices and of the policy. *)

From Stdlib Require Import QArith.
From S2P Require Import Prelude Decimal Money Contracts Numeric Db Billing.

Open Scope Z_scope.

(** ** Wallet movements *)

Definition journal_entry (m : WalletMovement) (amount balance : numeric) (now : time)
    : journal_row :=
  {| wt_id := Movement_ID m; wt_tenant_id := Movement_TenantID m; wt_kind := Movement_Kind m;
     wt_amount := amount; wt_balance_after := balance;
     wt_billing_run_id := nullable (Movement_BillingRunID m); wt_note := Movement_Note m;
     wt_created_at := now |}.

(** The tables after a movement of [amount]. *)
Definition moved (m : WalletMovement) (w : wallet_row) (amount : numeric) (t : db) : db :=
  let balance := tw_balance w + amount in
  set_journal (λ l, l ++ [journal_entry m amount balance (db_now t)])
    (set_wallets <[Movement_TenantID m := WalletRow (tw_currency w) balance]> t).

(** An accepted amount is a whole number of 10^-12 units. *)
Definition whole_units (m : WalletMovement) : Prop :=
  checkMoney "amount" (Movement_Amount m) = Ok tt →
  checkMovementKind (Movement_Kind m) (Movement_Amount m) = Ok tt →
  ∀ q, rat_set_string (pg_trim (Movement_Amount m)) = Some q → ∃ z, (q == z # 10 ^ 12)%Q.

(** The guards see to it for every string of a caller... *)
Lemma checked_amount m : go_string (Movement_Amount m) → whole_units m.
Proof.
  intros Hl Hc Hk q Hq. unfold checkMovementKind in Hk.
  destruct (Decimal_Sign (Movement_Amount m)) as [s|] eqn:Hs; [|done].
  destruct (checkMoney_units _ _ _ Hl Hc Hs) as (q' & z & Hq' & Hz & _).
  rewrite (pg_trim_reads _ _ Hq), Hq in Hq'. simplify_eq. by exists z.
Qed.

(** ... and the job only spells whole amounts. *)
Lemma printed_amount m z : Movement_Amount m = numeric_out z → whole_units m.
Proof.
  intros E _ _ q. rewrite E, pg_trim_money by apply show_scaled_money.
  rewrite rat_set_string_out. intros [= <-]. exists z. apply units_spec.
Qed.

Lemma move_balance_wp tenant amount t :
  wp (move_balance tenant amount) (λ text t', ∃ w q b,
    tenant_wallets t !! tenant = Some w ∧ rat_set_string (pg_trim amount) = Some q ∧
    numeric_fits (rat_round 12 (Qplus (units (tw_balance w)) q)) = Ok b ∧
    text = numeric_out b ∧ t' = set_wallets <[tenant := WalletRow (tw_currency w) b]> t) t.
Proof.
  unfold move_balance. wp_step. destruct (tenant_wallets t !! tenant) as [w|]; [|done].
  destruct (rat_set_string _) as [q|]; [|done]. inv_result. simplify_eq. eauto 10.
Qed.

Lemma existsb_id_false {A} (f : A → string) s l :
  existsb (λ x, String.eqb (f x) s) l = false → ∀ x, x ∈ l → f x ≠ s.
Proof.
  intros H x Hx E. apply not_true_iff_false in H. apply H. apply existsb_Exists.
  exists x. split; [done|]. by apply String.eqb_eq.
Qed.

Lemma record_transaction_wp m text t :
  wp (record_transaction m text) (λ _ t', ∃ z b,
    numeric_in (Movement_Amount m) = Ok z ∧ numeric_in text = Ok b ∧
    kind_amount_ok (Movement_Kind m) z = true ∧
    (∀ j, j ∈ wallet_transactions t → wt_id j ≠ Movement_ID m) ∧
    t' = set_journal (λ l, l ++ [journal_entry m z b (db_now t)]) t) t.
Proof.
  unfold record_transaction. wp_step. inv_result. destruct (kind_amount_ok _ _) eqn:Hk; [|done].
  cbn [negb] in *. destruct (existsb _ _) eqn:He; [done|]. case_match; simplify_eq.
  eexists _, _. split_and!; eauto using existsb_id_false.
Qed.

(** What a successful movement does to the tables, exactly. *)
Lemma applyMovement_wp m t :
  whole_units m →
  wp (applyMovement m) (λ tr t', ∃ w z,
    tenant_wallets t !! Movement_TenantID m = Some w ∧
    numeric_in (Movement_Amount m) = Ok z ∧
    kind_amount_ok (Movement_Kind m) z = true ∧
    (∀ j, j ∈ wallet_transactions t → wt_id j ≠ Movement_ID m) ∧
    BalanceAfter tr = numeric_out (tw_balance w + z) ∧
    t' = moved m w z t) t.
Proof.
  intros Hl. unfold applyMovement. wp_step; [wp_step|].
  destruct (checkMoney _ _) as [[]|] eqn:Hc; [|wp_step].
  destruct (checkMovementKind _ _) as [[]|] eqn:Hk; [|wp_step].
  wp_step. unfold lock_wallet. do 2 wp_step.
  eapply wp_mono; [|apply move_balance_wp]. intros text t' (w & q & b & Hw & Hq & Hb & -> & ->).
  wp_step. eapply wp_mono; [|apply record_transaction_wp].
  intros created t' (z' & b' & Hz' & Hb' & Hkind & Hid & ->). wp_step.
  destruct (Hl Hc Hk q Hq) as [z Hz].
  rewrite numeric_in_out in Hb'. apply numeric_fits_Ok in Hb as [-> _], Hb' as [-> _].
  pose proof Hz' as Hz2. unfold numeric_in in Hz2. rewrite Hq in Hz2.
  apply numeric_fits_Ok in Hz2 as [-> _].
  destruct (rat_round_value q z Hz) as [Hr _]. rewrite Hr in *.
  assert (rat_round 12 (units (tw_balance w) + q) = tw_balance w + z) as Hs.
  { apply rat_round_value. rewrite Hz, <-(units_spec z), units_plus. apply units_spec. }
  exists w, z. rewrite Hs. split_and!; auto.
Qed.

(** ** The verdict on one row *)

(** What the policy and the price in effect decide about a row. *)
Inductive verdict :=
| VHeld
| VNotBillable
| VUnpriced
| VBilled (amount : numeric).

Definition verdict_of (t : db) (row : billableRow) : option verdict :=
  match (dispositionFor (class row)).1 with
  | dispositionHold => Some VHeld
  | dispositionNotBillable => Some VNotBillable
  | dispositionBill =>
      match price_row_at (provider row) (model row) (occurredAt row) t with
      | None => Some VUnpriced
      | Some p => match lineAmount row (scan_price p) with
                  | Ok q => Some (VBilled (rat_round 12 q))
                  | Err _ => None
                  end
      end
  end.

Definition verdict_state (d : verdict) : string :=
  match d with
  | VHeld => "held"
  | VNotBillable => "not_billable"
  | VUnpriced => "unpriced"
  | VBilled _ => "billed"
  end.

Definition verdict_amount (d : verdict) : numeric :=
  match d with VBilled z => z | _ => 0 end.

Definition row_amount (t : db) (row : billableRow) : numeric :=
  from_option verdict_amount 0 (verdict_of t row).

(** [text] is a spelling of [z] that reads back, in Go and in PostgreSQL. *)
Definition denotes (text : Decimal) (z : numeric) : Prop :=
  rat_set_string text = Some (units z) ∧ numeric_in text = numeric_fits z.

Lemma float_string_denotes q : denotes (float_string 12 q) (rat_round 12 q).
Proof.
  rewrite float_string_round. unfold denotes.
  rewrite rat_set_string_shown, numeric_in_shown by lia.
  by rewrite signed_round.
Qed.

(** ** One turn of the settlement loop *)

(** [v] is what the loop knows after the rows [seen]. *)
Record summary (t : db) (seen : list billableRow) (v : settle_vars) : Prop := {
  sum_verdicts : ∀ row, row ∈ seen → is_Some (verdict_of t row);
  sum_debited : (sv_debited v == sumZ (row_amount t <$> seen) # 10 ^ 12)%Q;
  sum_billed : ∀ i text, sv_billed v !! i = Some text →
    ∃ row z, row ∈ seen ∧ id row = i ∧ verdict_of t row = Some (VBilled z) ∧ denotes text z;
  sum_billed_in : ∀ row z, row ∈ seen → verdict_of t row = Some (VBilled z) →
    is_Some (sv_billed v !! id row);
  sum_unpriced : ∀ i, i ∈ sv_unpriced v ↔
    ∃ row, row ∈ seen ∧ id row = i ∧ verdict_of t row = Some VUnpriced;
  sum_byState : ∀ s i, i ∈ default [] (sv_byState v !! s) ↔
    ∃ row d, row ∈ seen ∧ id row = i ∧ verdict_of t row = Some d ∧ verdict_state d = s
             ∧ (d = VHeld ∨ d = VNotBillable)
}.

Lemma summary_nil t : summary t [] settle_vars0.
Proof.
  split; cbn; try set_solver.
Qed.

Lemma sum_snoc {A} (f : A → Z) l x : sumZ (f <$> l ++ [x]) = sumZ (f <$> l) + f x.
Proof. rewrite fmap_app, sumZ_app. cbn. lia. Qed.

(** A row that is not billed adds nothing to the amounts. *)
Lemma summary_debited_same t seen row d q :
  verdict_of t row = Some d → verdict_amount d = 0 →
  (q == sumZ (row_amount t <$> seen) # 10 ^ 12)%Q →
  (q == sumZ (row_amount t <$> seen ++ [row]) # 10 ^ 12)%Q.
Proof.
  intros Hd Ha Hv. rewrite sum_snoc. unfold row_amount at 2. rewrite Hd. cbn.
  by rewrite Ha, Z.add_0_r.
Qed.

Ltac seen_snoc := setoid_rewrite elem_of_app; setoid_rewrite list_elem_of_singleton.

Lemma summary_parked t seen row d v v' :
  summary t seen v → verdict_of t row = Some d → d = VHeld ∨ d = VNotBillable →
  sv_debited v' = sv_debited v → sv_billed v' = sv_billed v → sv_unpriced v' = sv_unpriced v →
  sv_byState v' = <[verdict_state d := default [] (sv_byState v !! verdict_state d) ++ [id row]]>
                    (sv_byState v) →
  summary t (seen ++ [row]) v'.
Proof.
  intros [H1 H2 H3 H4 H5 H6] Hd Hp Ed Eb Eu Es. split.
  - seen_snoc. intros r [Hr| ->]; eauto.
  - rewrite Ed. eapply summary_debited_same; [done| |done]. by destruct Hp; subst.
  - rewrite Eb. seen_snoc. intros i text Hi. destruct (H3 i text Hi) as (r & z & ? & ? & ?).
    exists r, z. auto.
  - rewrite Eb. seen_snoc. intros r z [Hr| ->] Hz; [eauto|]. destruct Hp; congruence.
  - rewrite Eu. seen_snoc. intros i. rewrite H5. split; intros (r & Hr & <- & ?); [exists r; auto|].
    destruct Hr as [Hr| ->]; [exists r; auto|]. destruct Hp; congruence.
  - rewrite Es. intros s i. seen_snoc. destruct (decide (s = verdict_state d)) as [->|Hne].
    + rewrite lookup_insert_eq. cbn. rewrite elem_of_app, H6, list_elem_of_singleton. split.
      * intros [(r & d' & Hr & ?)| ->]; [exists r, d'; auto|exists row, d; auto].
      * intros (r & d' & [Hr| ->] & <- & ?); [left; exists r, d'; auto|auto].
    + rewrite lookup_insert_ne by done. rewrite H6. split.
      * intros (r & d' & Hr & ?). exists r, d'. auto.
      * intros (r & d' & [Hr| ->] & <- & Hd' & ? & ?); [exists r, d'; auto|congruence].
Qed.

Lemma summary_unpriced t seen row v v' :
  summary t seen v → verdict_of t row = Some VUnpriced →
  sv_debited v' = sv_debited v → sv_billed v' = sv_billed v → sv_byState v' = sv_byState v →
  sv_unpriced v' = sv_unpriced v ++ [id row] →
  summary t (seen ++ [row]) v'.
Proof.
  intros [H1 H2 H3 H4 H5 H6] Hd Ed Eb Es Eu. split.
  - seen_snoc. intros r [Hr| ->]; eauto.
  - rewrite Ed. by eapply summary_debited_same.
  - rewrite Eb. seen_snoc. intros i text Hi. destruct (H3 i text Hi) as (r & z & ? & ? & ?).
    exists r, z. auto.
  - rewrite Eb. seen_snoc. intros r z [Hr| ->] Hz; [eauto|congruence].
  - rewrite Eu. seen_snoc. intros i. rewrite H5. split.
    + intros [(r & Hr & ?)| ->]; [exists r; auto|exists row; auto].
    + intros (r & [Hr| ->] & <- & ?); [left; exists r; auto|auto].
  - rewrite Es. intros s i. seen_snoc. rewrite H6. split.
    + intros (r & d & Hr & ?). exists r, d. auto.
    + intros (r & d & [Hr| ->] & <- & Hd' & ? & Hor); [exists r, d; auto|].
      rewrite Hd in Hd'. destruct Hor; congruence.
Qed.

Lemma summary_billed t seen row z text v v' :
  summary t seen v → verdict_of t row = Some (VBilled z) → denotes text z →
  (∀ r, r ∈ seen → id r ≠ id row) →
  sv_debited v' = Qplus (sv_debited v) (units z) → sv_unpriced v' = sv_unpriced v →
  sv_byState v' = sv_byState v → sv_billed v' = <[id row := text]> (sv_billed v) →
  summary t (seen ++ [row]) v'.
Proof.
  intros [H1 H2 H3 H4 H5 H6] Hd Ht Hfresh Ed Eu Es Eb. split.
  - seen_snoc. intros r [Hr| ->]; eauto.
  - rewrite Ed, sum_snoc. unfold row_amount at 2. rewrite Hd. cbn [from_option verdict_amount].
    rewrite <-(units_spec (_ + _)), <-units_plus, H2. by rewrite <-units_spec.
  - rewrite Eb. seen_snoc. intros i text'. destruct (decide (i = id row)) as [->|Hne].
    + rewrite lookup_insert_eq. intros [= <-]. exists row, z. auto.
    + rewrite lookup_insert_ne by done. intros Hi. destruct (H3 i text' Hi) as (r & z' & ? & ? & ?).
      exists r, z'. auto.
  - rewrite Eb. seen_snoc. intros r z' [Hr| ->] Hz.
    + rewrite lookup_insert_ne by (intros E; by apply (Hfresh r Hr)). eauto.
    + by rewrite lookup_insert_eq.
  - rewrite Eu. seen_snoc. intros i. rewrite H5. split.
    + intros (r & Hr & ?). exists r. auto.
    + intros (r & [Hr| ->] & <- & ?); [exists r; auto|congruence].
  - rewrite Es. intros s i. seen_snoc. rewrite H6. split.
    + intros (r & d & Hr & ?). exists r, d. auto.
    + intros (r & d & [Hr| ->] & <- & Hd' & ? & Hor); [exists r, d; auto|].
      rewrite Hd in Hd'. destruct Hor; congruence.
Qed.

Lemma settle_row_wp t seen row v :
  summary t seen v → (∀ r, r ∈ seen → id r ≠ id row) →
  wp (settle_row v row) (λ v' t', t' = t ∧ summary t (seen ++ [row]) v') t.
Proof.
  intros Hs Hf. unfold settle_row. pose proof (eq_refl (verdict_of t row)) as Hv.
  unfold verdict_of at 2 in Hv. destruct (dispositionFor (class row)) as [disp known].
  cbn [fst] in Hv. destruct disp.
  - rewrite bool_decide_eq_true_2 by done. cbn [negb]. unfold priceAt. do 2 wp_step. simplify_eq.
    destruct (price_row_at _ _ _ t) as [p|]; cbn;
      [|wp_step; split; [done|by eapply summary_unpriced]].
    do 2 wp_step. destruct (float_string_denotes a) as [Hr Hn]. rewrite Hr. wp_step.
    rewrite H in Hv. split; [done|]. by eapply summary_billed.
  - rewrite bool_decide_eq_false_2 by done. cbn [negb]. repeat wp_step. simplify_eq/=.
    split; [done|]. by eapply summary_parked; eauto.
  - rewrite bool_decide_eq_false_2 by done. cbn [negb]. repeat wp_step. simplify_eq/=.
    split; [done|]. by eapply summary_parked; eauto.
Qed.

Lemma settle_loop_wp t rows :
  NoDup (id <$> rows) →
  wp (foldM settle_row settle_vars0 rows) (λ v t', t' = t ∧ summary t rows v) t.
Proof.
  intros Hnd.
  apply (wp_foldM settle_row (λ seen v t', t' = t ∧ summary t seen v));
    [split; [done|apply summary_nil]|].
  intros seen row rest v t' -> [-> Hs]. apply settle_row_wp; [done|].
  intros r Hr E. rewrite fmap_app in Hnd. apply list.NoDup_app in Hnd as (_ & Hnd & _).
  apply (Hnd (id row)); [|cbn; apply list_elem_of_here].
  rewrite <-E. by apply list_elem_of_fmap_2.
Qed.

(** ** Writing the verdicts *)

(** One UPDATE of some ledger rows chosen by their id. *)
Definition mark {B} (sel : B → Z → bool) (f : B → usage_row → usage_row)
    (r : usage_row) (b : B) : usage_row :=
  if sel b (ul_id r) then f b r else r.

Section marks.
  Context {B : Type} (sel : B → Z → bool) (f : B → usage_row → usage_row).
  Context (Hid : ∀ b r, ul_id (f b r) = ul_id r).

Lemma marks_none l r :
  (∀ b, b ∈ l → sel b (ul_id r) = false) → foldl (mark sel f) r l = r.
Proof using Type.
  induction l as [|b l IH]; intros H; cbn; [done|]. unfold mark at 2.
  rewrite H by apply list_elem_of_here. apply IH. intros. apply H. by apply list_elem_of_further.
Qed.

Lemma marks_one l r b :
  NoDup l → b ∈ l → sel b (ul_id r) = true →
  (∀ b', b' ∈ l → sel b' (ul_id r) = true → b' = b) → foldl (mark sel f) r l = f b r.
Proof using Hid.
  induction l as [|c l IH]; intros Hnd Hb Hs Hu; [by apply elem_of_nil in Hb|].
  apply list.NoDup_cons in Hnd as [Hc Hnd]. cbn. unfold mark at 2.
  apply elem_of_cons in Hb as [<-|Hb].
  - rewrite Hs. apply marks_none. intros b' Hb'. rewrite Hid.
    destruct (sel b' (ul_id r)) eqn:E; [|done].
    rewrite (Hu b') in Hb' by (by apply list_elem_of_further || done). done.
  - destruct (sel c (ul_id r)) eqn:E.
    + rewrite (Hu c) in Hc by (apply list_elem_of_here || done). done.
    + apply IH; [done..|]. intros. apply Hu; [by apply list_elem_of_further|done].
Qed.

(** A loop of such UPDATEs changes every row by itself. *)
Lemma wp_marks (g : B → DB unit) l t (P : B → Prop) :
  (∀ b t, b ∈ l → wp (g b) (λ _ t', P b ∧
     t' = set_ledger (List.map (λ r, mark sel f r b)) t) t) →
  wp (foldM (λ _ b, g b) tt l)
     (λ _ t', (∀ b, b ∈ l → P b) ∧
              t' = set_ledger (List.map (λ r, foldl (mark sel f) r l)) t) t.
Proof using Type.
  clear Hid. intros Hg. apply (wp_foldM _ (λ seen _ t', (∀ b, b ∈ seen → P b) ∧
    t' = set_ledger (List.map (λ r, foldl (mark sel f) r seen)) t)).
  - split; [intros b Hb; by apply elem_of_nil in Hb|]. cbn. unfold set_ledger. rewrite map_id.
    by destruct t.
  - intros seen b rest [] t' -> [HP ->]. eapply wp_mono; [|apply Hg; rewrite elem_of_app; right; apply list_elem_of_here].
    intros _ t' [Hb ->]. split; [intros b'; rewrite elem_of_app, list_elem_of_singleton; naive_solver|].
    unfold set_ledger. cbn. rewrite map_map. f_equal. apply map_ext. intros r.
    by rewrite foldl_app.
Qed.
End marks.

(** The wallet side of a settlement that debits [total]. *)
Definition debit_db (runID tenantID : string) (v : settle_vars) (w : wallet_row)
    (total : numeric) (t : db) : db :=
  if 0 <? total then moved (debit_movement runID tenantID v) w (- total) t else t.

Lemma debit_amount runID tenantID v total :
  (sv_debited v == total # 10 ^ 12)%Q → 0 < total →
  Movement_Amount (debit_movement runID tenantID v) = numeric_out (- total).
Proof.
  intros Hq Hz. cbn [Movement_Amount debit_movement].
  by rewrite (float_string_value _ _ Hq), numeric_out_minus.
Qed.

Lemma debited_sign v total :
  (sv_debited v == total # 10 ^ 12)%Q → (0 <? rat_sign (sv_debited v)) = (0 <? total).
Proof.
  unfold rat_sign. destruct (sv_debited v) as [n d]. unfold Qeq. cbn. intros H.
  destruct (Z.ltb_spec 0 total), (Z.ltb_spec 0 (Z.sgn n)); lia.
Qed.

Lemma debit_wp runID tenantID v total t :
  (sv_debited v == total # 10 ^ 12)%Q →
  wp (if 0 <? rat_sign (sv_debited v)
      then _ ← applyMovement (debit_movement runID tenantID v); mret tt
      else mret tt)
     (λ _ t', ∃ w, (0 < total → tenant_wallets t !! tenantID = Some w
                     ∧ ∀ j, j ∈ wallet_transactions t → wt_id j ≠ (runID +:+ ":" +:+ tenantID)%string)
                   ∧ t' = debit_db runID tenantID v w total t) t.
Proof.
  intros Hq. rewrite (debited_sign _ _ Hq). unfold debit_db.
  destruct (Z.ltb_spec 0 total) as [Hp|Hp].
  - wp_step. pose proof (debit_amount runID tenantID _ _ Hq Hp) as Ha.
    eapply wp_mono; [|apply applyMovement_wp; by eapply printed_amount].
    intros tr t' (w & z & Hw & Hz & _ & Hid & _ & ->). wp_step.
    rewrite Ha, numeric_in_out in Hz. apply numeric_fits_Ok in Hz as [-> _].
    exists w. split; [done|]. done.
  - wp_step. exists (WalletRow "" 0). split; [lia|done].
Qed.

(** The ledger side: what the updates of [write_settlement] do to one row. *)
Definition billed_value (text : Decimal) : numeric :=
  match numeric_in text with Ok z => z | Err _ => 0 end.

Definition bill_row (runID : string) (b : Z * Decimal) : usage_row → usage_row :=
  set_billing "billed" (Some (billed_value b.2)) (Some runID).
Definition park_row (runID state : string) (r : usage_row) : usage_row :=
  set_billing state (ul_billed_amount r) (Some runID) r.

Definition sel_billed (b : Z * Decimal) (i : Z) : bool := i =? b.1.
Definition sel_parked (b : string * list Z) (i : Z) : bool := bool_decide (i ∈ b.2).
Definition park_state (runID : string) (b : string * list Z) : usage_row → usage_row :=
  park_row runID b.1.

Definition written_row (runID : string) (v : settle_vars) (r : usage_row) : usage_row :=
  let r := foldl (mark sel_billed (bill_row runID)) r (map_to_list (sv_billed v)) in
  let r := if bool_decide (ul_id r ∈ sv_unpriced v) then park_row runID "unpriced" r else r in
  foldl (mark sel_parked (park_state runID)) r
    (map_to_list (sv_byState v)).

Lemma set_ledger_id f t : (∀ r, f r = r) → set_ledger (List.map f) t = t.
Proof.
  intros Hf. unfold set_ledger. assert (∀ l, List.map f l = l) as ->; [|by destruct t].
  induction l as [|r l IH]; cbn; [done|]. by rewrite Hf, IH.
Qed.

Lemma write_settlement_wp runID tenantID v total t :
  (sv_debited v == total # 10 ^ 12)%Q →
  wp (write_settlement runID tenantID v) (λ _ t', ∃ w,
    (0 < total → tenant_wallets t !! tenantID = Some w
      ∧ ∀ j, j ∈ wallet_transactions t → wt_id j ≠ (runID +:+ ":" +:+ tenantID)%string) ∧
    (∀ b, b ∈ map_to_list (sv_billed v) → ∃ z, numeric_in b.2 = Ok z) ∧
    t' = set_ledger (List.map (written_row runID v)) (debit_db runID tenantID v w total t)) t.
Proof.
  intros Hq. unfold write_settlement. wp_step.
  eapply wp_mono; [|by apply (debit_wp runID tenantID _ total)].
  intros _ t1 (w & Hw & ->). wp_step.
  eapply wp_mono; [|apply (wp_marks sel_billed (bill_row runID)
    (λ '(row, amount), mark_billed runID row amount) _ _ (λ b, ∃ z, numeric_in b.2 = Ok z))].
  2: { intros [i text] t2 _. unfold mark_billed. wp_step. inv_result. cbn. split; [eauto|].
       unfold update_ledger, mark, bill_row, billed_value, sel_billed. cbn. by rewrite H. }
  intros _ t2 [Hin ->]. wp_step.
  apply wp_mono with (Q := λ _ t', t' = set_ledger (List.map (λ r,
    if bool_decide (ul_id r ∈ sv_unpriced v) then park_row runID "unpriced" r else r))
    (set_ledger (List.map (λ r, foldl (mark sel_billed (bill_row runID)) r
       (map_to_list (sv_billed v)))) (debit_db runID tenantID v w total t))).
  2: { case_bool_decide as Hu.
       - wp_step. rewrite Hu. symmetry. apply set_ledger_id. intros r.
         by rewrite bool_decide_eq_false_2 by apply not_elem_of_nil.
       - unfold mark_state. wp_step. inv_result. done. }
  intros _ t3 ->.
  eapply wp_mono; [|apply (wp_marks sel_parked (park_state runID)
    (λ '(state, ids), mark_state runID state ids) _ _ (λ _, True))].
  2: { intros [s ids] t4 _. unfold mark_state. wp_step. inv_result. done. }
  intros _ t4 [_ ->]. exists w. split_and!; [done..|].
  unfold set_ledger. cbn. by rewrite !map_map.
Qed.

(** ** Every ledger row after a settlement *)

(** What a settlement makes of one ledger row: the verdict of the policy and of
    the price in effect for the rows it selects, nothing for the others. *)
Definition settled_row (runID tenantID : string) (windowEnd : time) (t : db) (r : usage_row)
    : usage_row :=
  if billable tenantID windowEnd r then
    match verdict_of t (scan_billable r) with
    | Some (VBilled z) => set_billing "billed" (Some z) (Some runID) r
    | Some d => park_row runID (verdict_state d) r
    | None => r
    end
  else r.

Section written.
  Context (t : db) (rows : list billableRow) (v : settle_vars) (runID : string).
  Context (Hsum : summary t rows v).
  Context (Hkey : ∀ row row', row ∈ rows → row' ∈ rows → id row = id row' → row = row').
  Context (Hok : ∀ b, b ∈ map_to_list (sv_billed v) → ∃ z, numeric_in b.2 = Ok z).

Definition decided (i : Z) (d : verdict) : Prop :=
  ∃ row, row ∈ rows ∧ id row = i ∧ verdict_of t row = Some d.

Lemma decided_inj i d d' : decided i d → decided i d' → d = d'.
Proof using Hkey.
  intros (row & Hr & Hi & Hd) (row' & Hr' & Hi' & Hd').
  rewrite (Hkey row row') in Hd by congruence. congruence.
Qed.

Lemma billed_none r :
  (∀ z, ¬ decided (ul_id r) (VBilled z)) →
  foldl (mark sel_billed (bill_row runID)) r (map_to_list (sv_billed v)) = r.
Proof using Hsum.
  intros Hn. apply marks_none. intros [i text] Hb%elem_of_map_to_list.
  apply (sum_billed _ _ _ Hsum) in Hb as (row & z & Hr & Hi & Hd & _).
  apply Z.eqb_neq. cbn. intros E. apply (Hn z). exists row. by rewrite E.
Qed.

Lemma billed_one r z :
  decided (ul_id r) (VBilled z) →
  foldl (mark sel_billed (bill_row runID)) r (map_to_list (sv_billed v))
  = set_billing "billed" (Some z) (Some runID) r.
Proof using Hsum Hkey Hok.
  intros Hz. pose proof Hz as (row & Hr & Hi & Hd).
  destruct (sum_billed_in _ _ _ Hsum row z Hr Hd) as [text Ht]. rewrite Hi in Ht.
  assert ((ul_id r, text) ∈ map_to_list (sv_billed v)) as Hin by by apply elem_of_map_to_list.
  rewrite (marks_one sel_billed (bill_row runID) (λ _ _, eq_refl) _ _ (ul_id r, text));
    [|apply NoDup_map_to_list|exact Hin|apply Z.eqb_refl|].
  - destruct (Hok _ Hin) as [z' Hz']. cbn in Hz'.
    destruct (sum_billed _ _ _ Hsum _ _ Ht) as (row' & z2 & Hr' & Hi' & Hd' & _ & Hden).
    assert (VBilled z2 = VBilled z) as [= ->] by (apply (decided_inj (ul_id r)); [by exists row'|done]).
    unfold bill_row, billed_value. cbn. rewrite Hden in Hz' |- *.
    destruct (numeric_fits z) as [z3|] eqn:E3; [|done]. by apply numeric_fits_Ok in E3 as [-> _].
  - intros [i text'] Hb E%Z.eqb_eq. apply elem_of_map_to_list in Hb. cbn in E. subst i. congruence.
Qed.

Lemma unpriced_iff i : i ∈ sv_unpriced v ↔ decided i VUnpriced.
Proof using Hsum. apply (sum_unpriced _ _ _ Hsum). Qed.

Lemma parked_entry i s ids :
  (s, ids) ∈ map_to_list (sv_byState v) → i ∈ ids →
  ∃ d, decided i d ∧ verdict_state d = s ∧ (d = VHeld ∨ d = VNotBillable).
Proof using Hsum.
  intros Hb%elem_of_map_to_list Hi.
  destruct (proj1 (sum_byState _ _ _ Hsum s i)) as (row & d & Hr & Hid & Hd & Hs & Hp);
    [by rewrite Hb|]. exists d. split_and!; [|done..]. by exists row.
Qed.

Lemma parked_none r :
  ¬ decided (ul_id r) VHeld → ¬ decided (ul_id r) VNotBillable →
  foldl (mark sel_parked (park_state runID)) r (map_to_list (sv_byState v)) = r.
Proof using Hsum.
  intros Hh Hn. apply marks_none. intros [s ids] Hb. apply bool_decide_eq_false. cbn. intros Hi.
  destruct (parked_entry _ _ _ Hb Hi) as (d & Hd & _ & [-> | ->]); done.
Qed.

Lemma parked_one r d :
  decided (ul_id r) d → d = VHeld ∨ d = VNotBillable →
  foldl (mark sel_parked (park_state runID)) r (map_to_list (sv_byState v))
  = park_row runID (verdict_state d) r.
Proof using Hsum Hkey.
  intros Hd Hp. pose proof Hd as (row & Hr & Hi & Hrow).
  assert (ul_id r ∈ default [] (sv_byState v !! verdict_state d)) as Hin
    by (apply (sum_byState _ _ _ Hsum); eauto 10).
  destruct (sv_byState v !! verdict_state d) as [ids|] eqn:E; [|by apply elem_of_nil in Hin].
  rewrite (marks_one sel_parked (park_state runID) (λ _ _, eq_refl) _ _ (verdict_state d, ids)); [done| | | |].
  - apply NoDup_map_to_list.
  - by apply elem_of_map_to_list.
  - by apply bool_decide_eq_true.
  - intros [s ids'] Hb Hs%bool_decide_eq_true. cbn in Hs.
    destruct (parked_entry _ _ _ Hb Hs) as (d' & Hd' & <- & _).
    rewrite (decided_inj _ _ _ Hd' Hd) in *. apply elem_of_map_to_list in Hb. congruence.
Qed.

Lemma written_row_skips r :
  (∀ d, ¬ decided (ul_id r) d) → written_row runID v r = r.
Proof using Hsum.
  intros Hn. unfold written_row. rewrite billed_none by auto.
  rewrite bool_decide_eq_false_2 by (rewrite unpriced_iff; auto). by apply parked_none.
Qed.

Lemma written_row_decided r d :
  decided (ul_id r) d →
  written_row runID v r = match d with
                          | VBilled z => set_billing "billed" (Some z) (Some runID) r
                          | d => park_row runID (verdict_state d) r
                          end.
Proof using Hsum Hkey Hok.
  intros Hd. pose proof (λ d', decided_inj (ul_id r) d' d) as Hinj.
  unfold written_row. destruct d.
  - rewrite billed_none by (intros z H; by discriminate (Hinj _ H Hd)).
    rewrite bool_decide_eq_false_2 by (rewrite unpriced_iff; intros H; by discriminate (Hinj _ H Hd)).
    by apply parked_one; [|left].
  - rewrite billed_none by (intros z H; by discriminate (Hinj _ H Hd)).
    rewrite bool_decide_eq_false_2 by (rewrite unpriced_iff; intros H; by discriminate (Hinj _ H Hd)).
    by apply parked_one; [|right].
  - rewrite billed_none by (intros z H; by discriminate (Hinj _ H Hd)).
    rewrite bool_decide_eq_true_2 by by apply unpriced_iff.
    apply parked_none; intros H; by discriminate (Hinj _ H Hd).
  - rewrite (billed_one _ amount) by done.
    rewrite bool_decide_eq_false_2 by (rewrite unpriced_iff; intros H; by discriminate (Hinj _ H Hd)).
    apply parked_none; intros H; by discriminate (Hinj _ H Hd).
Qed.
End written.

(** ** Settling a tenant *)

(** usage_ledger.id is a primary key. *)
Definition ledger_keys (t : db) : Prop := NoDup (ul_id <$> usage_ledger t).

Definition pending_rows (tenantID : string) (windowEnd : time) (t : db) : list usage_row :=
  filter (λ r, billable tenantID windowEnd r = true) (usage_ledger t).

(** What the selected rows cost, at the prices in effect when each occurred. *)
Definition tenant_total (tenantID : string) (windowEnd : time) (t : db) : numeric :=
  sumZ (row_amount t ∘ scan_billable <$> pending_rows tenantID windowEnd t).

Definition settled_db (runID tenantID : string) (windowEnd : time) (v : settle_vars)
    (w : wallet_row) (t : db) : db :=
  set_ledger (List.map (settled_row runID tenantID windowEnd t))
    (debit_db runID tenantID v w (tenant_total tenantID windowEnd t) t).

Lemma key_inj {A K} (f : A → K) l x y :
  NoDup (f <$> l) → x ∈ l → y ∈ l → f x = f y → x = y.
Proof.
  induction l as [|a l IH]; intros Hnd Hx Hy E; [by apply elem_of_nil in Hx|].
  apply list.NoDup_cons in Hnd as [Ha Hnd].
  apply elem_of_cons in Hx as [->|Hx], Hy as [->|Hy]; [done| | |by apply IH].
  - exfalso. apply Ha. rewrite E. by apply list_elem_of_fmap_2.
  - exfalso. apply Ha. rewrite <-E. by apply list_elem_of_fmap_2.
Qed.

Lemma NoDup_fmap_filter {A} (f : A → Z) (P : A → Prop) `{∀ x, Decision (P x)} l :
  NoDup (f <$> l) → NoDup (f <$> filter P l).
Proof.
  intros Hnd. eapply sublist_NoDup; [exact Hnd|]. apply fmap_sublist, sublist_filter.
Qed.

Section settle.
  Context (runID tenantID : string) (windowEnd : time) (t : db) (Hkeys : ledger_keys t).

Abbreviation selected := (scan_billable <$> merge_sort ledger_le (pending_rows tenantID windowEnd t)).

Lemma elem_selected row :
  row ∈ selected ↔ ∃ r, row = scan_billable r ∧ r ∈ usage_ledger t ∧ billable tenantID windowEnd r = true.
Proof using Type.
  rewrite list_elem_of_fmap. split.
  - intros (r & -> & Hr). rewrite merge_sort_Permutation in Hr.
    apply list_elem_of_filter in Hr as [? ?]. eauto.
  - intros (r & -> & ? & ?). exists r. split; [done|]. rewrite merge_sort_Permutation.
    by apply list_elem_of_filter.
Qed.

Lemma selected_nodup : NoDup (id <$> selected).
Proof using Hkeys.
  rewrite <-list_fmap_compose. change (id ∘ scan_billable) with ul_id.
  rewrite merge_sort_Permutation. by apply NoDup_fmap_filter.
Qed.

Lemma selected_key row row' : row ∈ selected → row' ∈ selected → id row = id row' → row = row'.
Proof using Hkeys.
  intros (r & -> & Hr & _)%elem_selected (r' & -> & Hr' & _)%elem_selected E.
  f_equal. by apply (key_inj ul_id (usage_ledger t)).
Qed.

Lemma selected_total : sumZ (row_amount t <$> selected) = tenant_total tenantID windowEnd t.
Proof using Type.
  unfold tenant_total. rewrite <-list_fmap_compose. apply sumZ_perm.
  by rewrite merge_sort_Permutation.
Qed.

Lemma written_settled v r :
  summary t selected v → (∀ b, b ∈ map_to_list (sv_billed v) → ∃ z, numeric_in b.2 = Ok z) →
  r ∈ usage_ledger t → written_row runID v r = settled_row runID tenantID windowEnd t r.
Proof using Hkeys.
  intros Hs Hok Hr. unfold settled_row. destruct (billable tenantID windowEnd r) eqn:Hb.
  - assert (scan_billable r ∈ selected) as Hsel by (apply elem_selected; eauto).
    destruct (sum_verdicts _ _ _ Hs _ Hsel) as [d Hd]. rewrite Hd.
    apply (written_row_decided t selected); [done|apply selected_key|done|].
    by exists (scan_billable r).
  - apply (written_row_skips t selected); [done|].
    intros d (row & (r' & -> & Hr' & Hb')%elem_selected & Hi & _). cbn in Hi.
    assert (r' = r) by by apply (key_inj ul_id (usage_ledger t)). congruence.
Qed.

Lemma settle_body_wp :
  wp (settle_body runID tenantID windowEnd) (λ p t',
    (p.2 = false ∧ pending_rows tenantID windowEnd t = [] ∧ t' = t) ∨
    (p.2 = true ∧ pending_rows tenantID windowEnd t ≠ [] ∧
     (∀ r, r ∈ pending_rows tenantID windowEnd t → is_Some (verdict_of t (scan_billable r))) ∧
     ∃ v w, (0 < tenant_total tenantID windowEnd t → tenant_wallets t !! tenantID = Some w
             ∧ ∀ j, j ∈ wallet_transactions t → wt_id j ≠ (runID +:+ ":" +:+ tenantID)%string)
            ∧ t' = settled_db runID tenantID windowEnd v w t)) t.
Proof using Hkeys.
  unfold settle_body. wp_step. unfold selectBillableRows. wp_step. simplify_eq.
  change (filter _ _) with (pending_rows tenantID windowEnd t). case_bool_decide as He.
  { wp_step. left. split_and!; [done| |done]. apply fmap_nil_inv in He.
    apply Permutation_nil. by rewrite <-He, merge_sort_Permutation. }
  wp_step. eapply wp_mono; [|apply settle_loop_wp, selected_nodup].
  intros v t' [-> Hs]. wp_step. pose proof (sum_debited _ _ _ Hs) as Hd.
  rewrite selected_total in Hd. eapply wp_mono; [|by apply (write_settlement_wp runID tenantID v _ t Hd)].
  intros _ t' (w & Hw & Hok & ->). wp_step. right. split_and!; [done| | |].
  - intros Hn. by rewrite Hn in He.
  - intros r [Hb Hr]%list_elem_of_filter. apply (sum_verdicts _ _ _ Hs), elem_selected. eauto.
  - exists v, w. split; [done|]. unfold settled_db.
    assert (∀ t0, usage_ledger t0 = usage_ledger t → set_ledger (List.map (written_row runID v)) t0
      = set_ledger (List.map (settled_row runID tenantID windowEnd t)) t0) as H.
    { intros t0 E. unfold set_ledger. rewrite E. f_equal. apply map_ext_in.
      intros r Hr%list_elem_of_In. by apply written_settled. }
    apply H. unfold debit_db. by destruct (0 <? _).
Qed.
End settle.
