(* ===== verification/MoneyInvariant.v ===== *)
(** * The invariant of the money tables

    [money_wf] is what control's money tables satisfy at every instant: a
    wallet's balance is the sum of its journal, what the ledger rows of a run
    are billed is what the run debited, and only billed rows carry an amount.
    The lemmas say that the settlement specification of BillingFacts.v and
    every wallet operation keep it; the theorems carry this to the Go
    operations under any schedule of faults. *)

From Stdlib Require Import QArith.
From S2P Require Import Prelude Decimal Money Contracts Numeric Db Billing BillingFacts.

Open Scope Z_scope.

(** ** Sums over the tables *)

Definition journal_share (tenantID : string) (j : journal_row) : numeric :=
  if String.eqb (wt_tenant_id j) tenantID then wt_amount j else 0.

Definition journal_sum (tenantID : string) (t : db) : numeric :=
  sumZ (journal_share tenantID <$> wallet_transactions t).

Definition debit_share (tenantID runID : string) (j : journal_row) : numeric :=
  if String.eqb (wt_tenant_id j) tenantID && String.eqb (wt_kind j) "debit"
     && bool_decide (wt_billing_run_id j = Some runID)
  then - wt_amount j else 0.

Definition run_debit (tenantID runID : string) (t : db) : numeric :=
  sumZ (debit_share tenantID runID <$> wallet_transactions t).

Definition billed_share (tenantID runID : string) (r : usage_row) : numeric :=
  if String.eqb (ul_tenant_id r) tenantID && String.eqb (ul_billing_state r) "billed"
     && bool_decide (ul_billing_run_id r = Some runID)
  then default 0 (ul_billed_amount r) else 0.

Definition run_billed (tenantID runID : string) (t : db) : numeric :=
  sumZ (billed_share tenantID runID <$> usage_ledger t).

(** ** Well-formed rows *)

Definition row_wf (r : usage_row) : Prop :=
  if String.eqb (ul_billing_state r) "billed"
  then ∃ z run, ul_billed_amount r = Some z ∧ 0 <= z ∧
                ul_billing_run_id r = Some run ∧ run ≠ ""%string
  else ul_billed_amount r = None.

Definition price_wf (p : price_row) : Prop :=
  0 < mp_unit_scale p ∧ 0 <= mp_price_input p ∧ 0 <= mp_price_output p ∧
  0 <= mp_price_cache_read p ∧ 0 <= mp_price_cache_write p.

Record money_wf (t : db) : Prop := {
  mw_keys : ledger_keys t;
  mw_seq : ∀ r, r ∈ usage_ledger t → ul_id r < db_seq t;
  mw_events : NoDup (ul_event_id <$> usage_ledger t);
  mw_balance : ∀ tenant w, tenant_wallets t !! tenant = Some w →
                           tw_balance w = journal_sum tenant t;
  mw_foreign : ∀ j, j ∈ wallet_transactions t → is_Some (tenant_wallets t !! wt_tenant_id j);
  mw_runs : ∀ tenant run, run_billed tenant run t = run_debit tenant run t;
  mw_rows : Forall row_wf (usage_ledger t);
  mw_prices : Forall price_wf (model_prices t)
}.

Lemma empty_db_wf ts now : money_wf (empty_db ts now).
Proof. split; cbn; try done; try constructor; intros ? H; by apply elem_of_nil in H. Qed.

(** ** Lemmas about the sums *)

Lemma sumZ_add {A} (f g : A → Z) l : sumZ ((λ x, f x + g x) <$> l) = sumZ (f <$> l) + sumZ (g <$> l).
Proof. induction l as [|x l IH]; cbn in *; [done|]. unfold sumZ in *. cbn in *. lia. Qed.

Lemma sumZ_ext {A} (f g : A → Z) l :
  (∀ x, x ∈ l → f x = g x) → sumZ (f <$> l) = sumZ (g <$> l).
Proof.
  intros H. f_equal. apply list_fmap_ext. intros i x Hx. apply H.
  by eapply list_elem_of_lookup_2.
Qed.

Lemma sumZ_zero {A} (f : A → Z) l : (∀ x, x ∈ l → f x = 0) → sumZ (f <$> l) = 0.
Proof.
  intros H. rewrite (sumZ_ext f (λ _, 0)) by done. induction l as [|x l IH]; [done|].
  cbn. apply IH. intros. apply H. by apply list_elem_of_further.
Qed.

Lemma sumZ_filter {A} (P : A → bool) (f : A → Z) l :
  sumZ ((λ x, if P x then f x else 0) <$> l) = sumZ (f <$> filter (λ x, P x = true) l).
Proof.
  induction l as [|x l IH]; [done|]. rewrite filter_cons. destruct (P x) eqn:E.
  - rewrite decide_True by done. cbn. rewrite E. unfold sumZ in *. cbn. lia.
  - rewrite decide_False by done. rewrite <-IH. cbn. rewrite E. unfold sumZ. lia.
Qed.

Lemma map_as_fmap {A B} (f : A → B) l : List.map f l = f <$> l.
Proof. reflexivity. Qed.

(** ** The cost of a row *)

(** Tokens times unit prices, in 10^-12 units before the division by unit_scale. *)
Definition row_cost (row : billableRow) (p : price_row) : Z :=
  tokensIn row * mp_price_input p + tokensOut row * mp_price_output p
  + cacheReadTokens row * mp_price_cache_read p + cacheWriteTokens row * mp_price_cache_write p.

(** Nearest whole unit, halves away from zero. *)
Definition round_div (n d : Z) : Z := Z.sgn n * ((2 * Z.abs n + d) / (2 * d)).

Lemma round_div_error n d : 0 < d → Z.abs (2 * (round_div n d * d - n)) <= d.
Proof.
  intros Hd. unfold round_div. pose proof (Z.div_mod (2 * Z.abs n + d) (2 * d)).
  pose proof (Z.mod_pos_bound (2 * Z.abs n + d) (2 * d)).
  destruct (Z.sgn_spec n) as [[? ->]|[[? ->]|[? ->]]]; nia.
Qed.

Lemma round_div_nonneg n d : 0 < d → 0 <= n → 0 <= round_div n d.
Proof.
  intros Hd Hn. unfold round_div. assert (0 <= (2 * Z.abs n + d) / (2 * d)) by (apply Z.div_pos; lia).
  pose proof (Z.sgn_nonneg n). nia.
Qed.

Lemma rat_round_div q n s :
  0 < s → (q == n # (10 ^ 12 * Z.to_pos s))%Q → rat_round 12 q = round_div n s.
Proof.
  intros Hs. destruct q as [a d]. unfold Qeq, rat_round, round_abs, round_div. cbn [Qnum Qden].
  change (Z.of_nat 12) with 12. rewrite Pos2Z.inj_mul, Z2Pos.id by done.
  change (Z.pos (10 ^ 12)) with (10 ^ 12). set (T := 10 ^ 12). assert (0 < T) by done.
  intros HQ. assert (Z.sgn a = Z.sgn n) as -> by nia. f_equal.
  assert (Z.abs a * (T * s) = Z.abs n * Z.pos d) as Ha by nia.
  rewrite <-(Z.div_mul_cancel_r _ (2 * Z.pos d) s) by lia.
  rewrite <-(Z.div_mul_cancel_r _ (2 * s) (Z.pos d)) by lia. f_equal; nia.
Qed.

Lemma add_part_value total n tokens p q :
  (total == n # 10 ^ 12)%Q → add_part total tokens (numeric_out p) = Ok q →
  0 <= tokens ∧ (q == (n + tokens * p) # 10 ^ 12)%Q.
Proof.
  intros Ht. unfold add_part. destruct (Z.eqb_spec tokens 0) as [->|].
  { intros [= <-]. split; [done|]. by rewrite Z.add_0_r. }
  destruct (Z.ltb_spec tokens 0); [done|]. rewrite rat_set_string_out. intros [= <-].
  split; [done|]. rewrite units_spec, Ht. unfold Qeq, Qplus, Qmult, inject_Z. cbn. lia.
Qed.

(** The exact value [lineAmount] computes. *)
Lemma lineAmount_value row p q :
  lineAmount row (scan_price p) = Ok q →
  0 < mp_unit_scale p ∧
  (0 <= tokensIn row ∧ 0 <= tokensOut row ∧ 0 <= cacheReadTokens row ∧ 0 <= cacheWriteTokens row) ∧
  (q == row_cost row p # (10 ^ 12 * Z.to_pos (mp_unit_scale p)))%Q.
Proof.
  unfold lineAmount. cbn [Price_UnitScale scan_price].
  destruct (Z.leb_spec (mp_unit_scale p) 0) as [|Hs]; [done|].
  cbn [PriceInput PriceOutput PriceCacheRead PriceCacheWrite scan_price]. intros H. inv_result.
  repeat match goal with H : add_part ?tot _ _ = Ok _ |- _ =>
    first [apply (add_part_value tot 0) in H as [? ?]; [|reflexivity]
          |eapply (add_part_value tot) in H as [? ?]; [|eassumption]] end.
  split_and!; try done. match goal with H : (?x == _)%Q |- (?x / _ == _)%Q => rewrite H end.
  unfold row_cost, Qeq, Qdiv, Qmult, Qinv, inject_Z. cbn [Qnum Qden].
  destruct (mp_unit_scale p) as [|u|u]; [lia| |lia]. cbn [Z.to_pos].
  rewrite !Pos2Z.inj_mul. cbn [Qnum Qden]. ring.
Qed.

Lemma lineAmount_rounded row p q :
  lineAmount row (scan_price p) = Ok q → rat_round 12 q = round_div (row_cost row p) (mp_unit_scale p).
Proof. intros (Hs & _ & Hq)%lineAmount_value. by apply rat_round_div. Qed.

Lemma price_row_at_elem provider model at_ t p :
  price_row_at provider model at_ t = Some p →
  p ∈ model_prices t ∧ price_applies provider model at_ p = true.
Proof.
  intros H. enough (p ∈ filter (λ p, price_applies provider model at_ p = true) (model_prices t))
    as [? ?]%list_elem_of_filter by done.
  revert H. unfold price_row_at.
  generalize (filter (λ p, price_applies provider model at_ p = true) (model_prices t)) as l.
  intros l. unfold latest_price. revert p. induction l as [|x l IH]; intros p; cbn; [done|].
  destruct (foldr _ None l) as [b|].
  - destruct (_ <? _); intros [= <-]; [apply list_elem_of_here|apply list_elem_of_further; auto].
  - intros [= <-]. apply list_elem_of_here.
Qed.

Lemma verdict_billed_nonneg t row z :
  Forall price_wf (model_prices t) → verdict_of t row = Some (VBilled z) → 0 <= z.
Proof.
  intros Hp. unfold verdict_of. destruct (dispositionFor _) as [[] ?]; cbn; try done.
  destruct (price_row_at _ _ _ t) as [p|] eqn:E; [|done].
  destruct (lineAmount _ _) as [q|] eqn:El; [|done]. intros [= <-].
  rewrite (lineAmount_rounded _ _ _ El). apply lineAmount_value in El as (Hs & Ht & _).
  apply price_row_at_elem in E as [Hin _]. apply (proj1 (list.Forall_forall _ _) Hp) in Hin as (_ & ?).
  apply round_div_nonneg; [done|]. unfold row_cost. nia.
Qed.

Lemma row_amount_nonneg t row : Forall price_wf (model_prices t) → 0 <= row_amount t row.
Proof.
  intros Hp. unfold row_amount. destruct (verdict_of t row) as [[]|] eqn:E; cbn; try lia.
  by eapply verdict_billed_nonneg.
Qed.

(** ** The contract of a settlement *)

(** The journal entry of a settlement. *)
Definition debit_entry (runID tenantID note : string) (total balance : numeric) (now : time)
    : journal_row :=
  {| wt_id := runID +:+ ":" +:+ tenantID; wt_tenant_id := tenantID; wt_kind := "debit";
     wt_amount := - total; wt_balance_after := balance; wt_billing_run_id := nullable runID;
     wt_note := note; wt_created_at := now |}.

(** What one settlement of a tenant does: every selected row gets its verdict,
    and the wallet moves by exactly what those rows are billed. *)
Record settles (runID tenantID : string) (windowEnd : time) (t t' : db) : Prop := {
  st_decided : ∀ r, r ∈ pending_rows tenantID windowEnd t → is_Some (verdict_of t (scan_billable r));
  st_ledger : usage_ledger t' = settled_row runID tenantID windowEnd t <$> usage_ledger t;
  st_money :
    let total := tenant_total tenantID windowEnd t in
    if 0 <? total then
      ∃ w note, tenant_wallets t !! tenantID = Some w ∧
        tenant_wallets t' = <[tenantID := WalletRow (tw_currency w) (tw_balance w - total)]>
                              (tenant_wallets t) ∧
        wallet_transactions t' = wallet_transactions t ++
          [debit_entry runID tenantID note total (tw_balance w - total) (db_now t)] ∧
        ∀ j, j ∈ wallet_transactions t → wt_id j ≠ (runID +:+ ":" +:+ tenantID)%string
    else tenant_wallets t' = tenant_wallets t ∧ wallet_transactions t' = wallet_transactions t;
  st_rest : tenants t' = tenants t ∧ request_attempts t' = request_attempts t ∧
    model_prices t' = model_prices t ∧ billing_runs t' = billing_runs t ∧
    billing_resolutions t' = billing_resolutions t ∧ account_rows t' = account_rows t ∧
    credential_rows t' = credential_rows t ∧ db_seq t' = db_seq t ∧ db_now t' = db_now t ∧
    account_actions t' = account_actions t
}.

Lemma settled_db_settles runID tenantID windowEnd v w t :
  (∀ r, r ∈ pending_rows tenantID windowEnd t → is_Some (verdict_of t (scan_billable r))) →
  (0 < tenant_total tenantID windowEnd t → tenant_wallets t !! tenantID = Some w
    ∧ ∀ j, j ∈ wallet_transactions t → wt_id j ≠ (runID +:+ ":" +:+ tenantID)%string) →
  settles runID tenantID windowEnd t (settled_db runID tenantID windowEnd v w t).
Proof.
  intros Hd Hw. unfold settled_db, debit_db.
  destruct (Z.ltb_spec 0 (tenant_total tenantID windowEnd t)) as [Hp|Hp].
  - destruct (Hw Hp) as [Hw1 Hw2].
    split; [done|done| |by split_and!]. cbn zeta. rewrite (proj2 (Z.ltb_lt _ _)) by done.
    exists w, (Movement_Note (debit_movement runID tenantID v)).
    split_and!; [done..|exact Hw2].
  - split; [done|done| |by split_and!]. cbn zeta. by rewrite (proj2 (Z.ltb_ge _ _)).
Qed.

(** Whatever the faults, a settlement happens entirely or not at all. *)
Lemma settleTenant_contract runID tenantID windowEnd w :
  ledger_keys (tables w) →
  let '(r, w') := settleTenant runID tenantID windowEnd w in
  (tables w' = tables w ∧ ((∃ e, r = Err e) ∨ pending_rows tenantID windowEnd (tables w) = [])) ∨
  (settles runID tenantID windowEnd (tables w) (tables w') ∧
   pending_rows tenantID windowEnd (tables w) ≠ [] ∧ (is_ok r = true ∨ r = Err EIO)).
Proof.
  intros Hk. unfold settleTenant.
  pose proof (transaction_if_spec (settle_body runID tenantID windowEnd) (λ _ t',
    (t' = tables w ∧ pending_rows tenantID windowEnd (tables w) = []) ∨
    (settles runID tenantID windowEnd (tables w) t'
     ∧ pending_rows tenantID windowEnd (tables w) ≠ [])) w) as Hs.
  destruct (transaction_if _ w) as [r w']. destruct Hs as [[Ht He]|(a & HQ & Hr)].
  - eapply wp_mono; [|by apply settle_body_wp]. intros [s []] t'; cbn.
    + intros [(? & _)|(_ & Hne & Hd & v & wl & Hw & ->)]; [done|]. right. split; [|done].
      by apply settled_db_settles.
    + intros [(_ & He & ->)|(? & _)]; [by left|done].
  - left. auto.
  - destruct HQ as [[Ht He]|[Hset Hne]]; [by left; auto|]. right. split_and!; [done..|].
    destruct Hr as [->| ->]; auto.
Qed.

(** ** A settlement keeps the invariant *)

Section settles_wf.
  Context (runID tenantID : string) (windowEnd : time) (t t' : db).
  Context (Hrun : runID ≠ ""%string) (Hset : settles runID tenantID windowEnd t t').
  Context (Hwf : money_wf t).

Abbreviation total := (tenant_total tenantID windowEnd t).

Lemma total_nonneg : 0 <= total.
Proof using Hwf.
  unfold tenant_total. apply sumZ_nonneg. apply Forall_fmap, list.Forall_forall.
  intros r _. cbn. apply row_amount_nonneg, (mw_prices _ Hwf).
Qed.

Lemma billable_not_billed r : billable tenantID windowEnd r = true →
  ul_billing_state r = "pending"%string ∧ ul_tenant_id r = tenantID.
Proof using Type. unfold billable. intros H. breflect. done. Qed.

Lemma settled_share tenant run r :
  r ∈ usage_ledger t →
  billed_share tenant run (settled_row runID tenantID windowEnd t r) =
  billed_share tenant run r +
  (if billable tenantID windowEnd r
   then if bool_decide (tenant = tenantID ∧ run = runID) then row_amount t (scan_billable r) else 0
   else 0).
Proof using Hset.
  clear Hrun Hwf. intros Hr. unfold settled_row. destruct (billable tenantID windowEnd r) eqn:Hb; [|lia].
  destruct (st_decided _ _ _ _ _ Hset r) as [d Hd]; [by apply list_elem_of_filter|].
  apply billable_not_billed in Hb as [Hs Ht]. unfold row_amount. rewrite Hd.
  unfold billed_share at 2. rewrite Hs, andb_false_r, Z.add_0_l. unfold billed_share.
  destruct d; cbn [verdict_state park_row set_billing ul_billing_state ul_tenant_id ul_billing_run_id
    ul_billed_amount from_option verdict_amount String.eqb Ascii.eqb Bool.eqb andb default];
    rewrite ?andb_false_r, ?andb_true_r; cbn; try (case_bool_decide; done).
  rewrite Ht. destruct (String.eqb_spec tenantID tenant) as [->|Hne]; cbn.
  - repeat case_bool_decide; naive_solver.
  - rewrite bool_decide_eq_false_2; naive_solver.
Qed.

Lemma settled_run_billed tenant run :
  run_billed tenant run t' =
  run_billed tenant run t + (if bool_decide (tenant = tenantID ∧ run = runID) then total else 0).
Proof using Hset.
  unfold run_billed. rewrite (st_ledger _ _ _ _ _ Hset), <-list_fmap_compose.
  rewrite (sumZ_ext _ (λ r, billed_share tenant run r + (if billable tenantID windowEnd r
   then if bool_decide (tenant = tenantID ∧ run = runID) then row_amount t (scan_billable r) else 0
   else 0))) by (intros; by apply settled_share).
  rewrite sumZ_add. f_equal. rewrite (sumZ_filter (billable tenantID windowEnd)).
  case_bool_decide; [done|]. by apply sumZ_zero.
Qed.

Lemma nullable_run : nullable runID = Some runID.
Proof using Hrun. unfold nullable. destruct (String.eqb_spec runID ""); done. Qed.

Lemma settled_run_debit tenant run :
  run_debit tenant run t' =
  run_debit tenant run t + (if bool_decide (tenant = tenantID ∧ run = runID) then total else 0).
Proof using Hset Hrun Hwf.
  pose proof total_nonneg. pose proof (st_money _ _ _ _ _ Hset) as Hm. cbn zeta in Hm.
  unfold run_debit. destruct (Z.ltb_spec 0 total) as [Hp|Hp].
  - destruct Hm as (w & note & _ & _ & -> & _). rewrite sum_snoc. f_equal.
    unfold debit_share. cbn. rewrite nullable_run.
    destruct (String.eqb_spec tenantID tenant) as [->|Hne]; cbn.
    + repeat case_bool_decide; try lia; naive_solver.
    + rewrite bool_decide_eq_false_2; naive_solver.
  - destruct Hm as [_ ->]. assert (total = 0) as -> by lia. by case_bool_decide; lia.
Qed.

Lemma settled_journal_sum tenant :
  journal_sum tenant t' = journal_sum tenant t - (if String.eqb tenantID tenant then total else 0).
Proof using Hset Hwf.
  pose proof total_nonneg. pose proof (st_money _ _ _ _ _ Hset) as Hm. cbn zeta in Hm.
  unfold journal_sum. destruct (Z.ltb_spec 0 total) as [Hp|Hp].
  - destruct Hm as (w & note & _ & _ & -> & _). rewrite sum_snoc. unfold journal_share at 2. cbn.
    destruct (String.eqb tenantID tenant); lia.
  - destruct Hm as [_ ->]. destruct (String.eqb tenantID tenant); lia.
Qed.

Lemma settled_row_wf r : r ∈ usage_ledger t → row_wf r →
  row_wf (settled_row runID tenantID windowEnd t r).
Proof using Hrun Hwf Hset.
  intros Hr H. unfold settled_row. destruct (billable _ _ _) eqn:Hb; [|done].
  apply billable_not_billed in Hb as [Hs _]. unfold row_wf in H. rewrite Hs in H. cbn in H.
  destruct (verdict_of _ _) as [d|] eqn:Hd; [|unfold row_wf; by rewrite Hs].
  destruct d; unfold row_wf; cbn; try done.
  exists amount, runID. split_and!; try done.
  by eapply verdict_billed_nonneg; [apply (mw_prices _ Hwf)|].
Qed.

Lemma settled_row_id r : ul_id (settled_row runID tenantID windowEnd t r) = ul_id r.
Proof using Type.
  unfold settled_row. destruct (billable _ _ _); [|done]. by destruct (verdict_of _ _) as [[]|].
Qed.

Lemma settled_row_event r :
  ul_event_id (settled_row runID tenantID windowEnd t r) = ul_event_id r.
Proof using Type.
  unfold settled_row. destruct (billable _ _ _); [|done]. by destruct (verdict_of _ _) as [[]|].
Qed.

Lemma settles_wf : money_wf t'.
Proof using Hrun Hset Hwf.
  destruct (st_rest _ _ _ _ _ Hset) as (_ & _ & Hprices & _ & _ & _ & _ & Hseq & _).
  pose proof (st_money _ _ _ _ _ Hset) as Hm. cbn zeta in Hm. split.
  - unfold ledger_keys. rewrite (st_ledger _ _ _ _ _ Hset), <-list_fmap_compose.
    rewrite (list_fmap_ext _ ul_id) by (intros ? r _; apply settled_row_id). apply Hwf.
  - rewrite (st_ledger _ _ _ _ _ Hset), Hseq. intros r (r0 & -> & Hr)%list_elem_of_fmap.
    rewrite settled_row_id. by apply (mw_seq _ Hwf).
  - rewrite (st_ledger _ _ _ _ _ Hset), <-list_fmap_compose.
    rewrite (list_fmap_ext _ ul_event_id) by (intros ? r _; apply settled_row_event). apply Hwf.
  - intros tenant w Hw. rewrite settled_journal_sum. pose proof total_nonneg.
    destruct (Z.ltb_spec 0 total) as [Hp|Hp].
    + destruct Hm as (w0 & note & Hw0 & Hws & _). rewrite Hws in Hw.
      destruct (String.eqb_spec tenantID tenant) as [<-|Hne].
      * rewrite lookup_insert_eq in Hw. simplify_eq/=. f_equal. by apply (mw_balance _ Hwf).
      * rewrite lookup_insert_ne in Hw by done. rewrite Z.sub_0_r. by apply (mw_balance _ Hwf).
    + destruct Hm as [Hws _]. rewrite Hws in Hw. rewrite (mw_balance _ Hwf _ _ Hw).
      assert (total = 0) as -> by lia. destruct (String.eqb _ _); lia.
  - intros j Hj. destruct (Z.ltb_spec 0 total).
    + destruct Hm as (w0 & note & Hw0 & -> & Hj' & _). rewrite Hj' in Hj.
      apply elem_of_app in Hj as [Hj|Hj%list_elem_of_singleton].
      * rewrite lookup_insert_is_Some. destruct (decide (tenantID = wt_tenant_id j)); [by left|].
        right. split; [done|]. by apply (mw_foreign _ Hwf).
      * subst j. cbn. by rewrite lookup_insert_eq.
    + destruct Hm as [-> Hj']. rewrite Hj' in Hj. by apply (mw_foreign _ Hwf).
  - intros tenant run. by rewrite settled_run_billed, settled_run_debit, (mw_runs _ Hwf).
  - rewrite (st_ledger _ _ _ _ _ Hset). apply Forall_fmap, list.Forall_forall.
    intros r Hr. apply settled_row_wf; [done|].
    by apply (proj1 (list.Forall_forall _ _) (mw_rows _ Hwf)).
  - rewrite Hprices. apply Hwf.
Qed.
End settles_wf.

(** ** Every operation keeps the invariant, whatever the faults *)

Lemma settleTenant_preserves runID tenantID windowEnd :
  runID ≠ ""%string → preserves money_wf (settleTenant runID tenantID windowEnd).
Proof.
  intros Hrun w Hw. pose proof (settleTenant_contract runID tenantID windowEnd w (mw_keys _ Hw)) as H.
  destruct (settleTenant _ _ _ w) as [r w']. cbn. destruct H as [[-> _]|[Hs _]]; [done|].
  by apply (settles_wf _ _ _ _ _ Hrun Hs).
Qed.

(** The tables the invariant does not read. *)
Lemma money_wf_runs f t : money_wf t → money_wf (set_runs f t).
Proof. by intros []; split. Qed.
Lemma money_wf_resolutions f t : money_wf t → money_wf (set_resolutions f t).
Proof. by intros []; split. Qed.
Lemma money_wf_attempts f t : money_wf t → money_wf (set_attempts f t).
Proof. by intros []; split. Qed.
Lemma money_wf_accounts f t : money_wf t → money_wf (set_accounts f t).
Proof. by intros []; split. Qed.
Lemma money_wf_actions f t : money_wf t → money_wf (set_actions f t).
Proof. by intros []; split. Qed.
Lemma money_wf_credentials f t : money_wf t → money_wf (set_credentials f t).
Proof. by intros []; split. Qed.
Lemma money_wf_tenants f t : money_wf t → money_wf (set_tenants f t).
Proof. by intros []; split. Qed.
Lemma money_wf_now f t : money_wf t → money_wf (set_now f t).
Proof. by intros []; split. Qed.

#[local] Hint Resolve preserves_ret preserves_fail preserves_query preserves_bind preserves_attempt
  preserves_foldM settleTenant_preserves : core.

(** A run is settlements and writes to billing_runs. *)
Lemma RunOnce_frame I runID windowEnd :
  (∀ tenantID, preserves I (settleTenant runID tenantID windowEnd)) →
  (∀ f t, I t → I (set_runs f t)) → preserves I (RunOnce runID windowEnd).
Proof.
  intros Hset Hruns.
  assert (∀ r s w, preserves I (open_run r w s)) as Hopen.
  { intros r s w. apply preserves_exec. intros t t' Ht. case_match; [done|]. intros [= <-]. auto. }
  assert (∀ r s, preserves I (closeRun r s)) as Hclose.
  { intros r s. apply preserves_exec. intros t t' Ht H. inv_result. auto. }
  unfold RunOnce, pendingTenants. apply preserves_bind; [auto|].
  intros [[|n]|e]; [auto| |auto]. apply preserves_bind; [auto|]. intros [[]|e]; [|auto].
  apply preserves_bind; [auto|]. intros [ts|e]; [|auto]. apply preserves_bind.
  - apply preserves_foldM. intros [[result firstErr] total] tenant. unfold run_tenant. auto.
  - intros [[result firstErr] total]. auto.
Qed.

Lemma RunOnce_preserves runID windowEnd :
  runID ≠ ""%string → preserves money_wf (RunOnce runID windowEnd).
Proof. intros. apply RunOnce_frame; [auto|apply money_wf_runs]. Qed.

(** A movement that is not a run's debit keeps the invariant. *)
Lemma moved_wf m w z t :
  tenant_wallets t !! Movement_TenantID m = Some w →
  Movement_Kind m ≠ "debit"%string → money_wf t → money_wf (moved m w z t).
Proof.
  intros Hw Hk Hwf. pose proof Hwf as [H1 H2 He H3 H4 H5 H6 H7]. split; try done.
  - intros tenant w'. cbn. unfold journal_sum. cbn [wallet_transactions moved set_journal set_wallets].
    rewrite sum_snoc. unfold journal_share at 2. cbn. intros Hw'.
    destruct (String.eqb_spec (Movement_TenantID m) tenant) as [<-|Hne].
    + rewrite lookup_insert_eq in Hw'. simplify_eq/=. f_equal. by apply H3.
    + rewrite lookup_insert_ne in Hw' by done. rewrite Z.add_0_r. by apply H3.
  - intros j. cbn. rewrite elem_of_app, list_elem_of_singleton. intros Hj.
    rewrite lookup_insert_is_Some. destruct (decide (Movement_TenantID m = wt_tenant_id j)); [by left|].
    right. split; [done|]. destruct Hj as [Hj| ->]; [by apply H4|done].
  - intros tenant run. change (run_billed tenant run (moved m w z t)) with (run_billed tenant run t).
    rewrite H5. unfold run_debit. cbn [wallet_transactions moved set_journal set_wallets].
    rewrite sum_snoc. unfold debit_share at 3. cbn.
    rewrite (proj2 (String.eqb_neq (Movement_Kind m) "debit") Hk), andb_false_r. cbn. lia.
Qed.

Lemma ApplyMovement_preserves m :
  go_string (Movement_Amount m) → Movement_Kind m ≠ "debit"%string →
  preserves money_wf (ApplyMovement m).
Proof.
  intros Hl Hk. apply preserves_transaction. intros t Ht.
  eapply wp_mono; [|by apply applyMovement_wp, checked_amount].
  intros tr t' (w & z & Hw & _ & _ & _ & _ & ->). by apply moved_wf.
Qed.

Lemma EnsureWallet_preserves tenantID currency : preserves money_wf (EnsureWallet tenantID currency).
Proof.
  unfold EnsureWallet. destruct (String.eqb tenantID ""); [auto|]. apply preserves_exec.
  intros t t' Hwf. destruct (negb _); [done|].
  destruct (tenant_wallets t !! tenantID) as [w|] eqn:E; intros [= <-]; [done|].
  pose proof Hwf as [H1 H2 He H3 H4 H5 H6 H7]. split; try done.
  - intros tenant w. cbn. destruct (decide (tenantID = tenant)) as [<-|Hne].
    + rewrite lookup_insert_eq. intros [= <-]. cbn. symmetry. apply sumZ_zero. intros j Hj.
      unfold journal_share. destruct (String.eqb_spec (wt_tenant_id j) tenantID) as [Ej|]; [|done].
      destruct (H4 j Hj) as [w Hw]. congruence.
    + rewrite lookup_insert_ne by done. apply H3.
  - intros j Hj. cbn. rewrite lookup_insert_is_Some'. right. by apply H4.
Qed.

Lemma insert_model_price_wf price t t' :
  Forall price_wf (model_prices t) → insert_model_price price t = Ok t' →
  ∃ p, t' = set_prices (cons p) t ∧ price_wf p ∧ mp_effective_from p = EffectiveFrom price.
Proof.
  intros Hp H. unfold insert_model_price in H. inv_result.
  destruct ((Price_UnitScale price <=? 0) || _ || _ || _ || _) eqn:Hc; [done|].
  case_match; [done|]. simplify_eq. eexists. split; [done|]. split; [|done].
  breflect.
  split_and!; cbn; lia.
Qed.

Lemma insert_price_effect f w (Q : db → Prop) :
  (∀ t', f (tables w) = Ok t' → Q t') → Q (tables w) → Q (tables (exec f w).2).
Proof.
  intros Hf Hw. unfold exec, stmt. pose proof (next_fault_tables w) as Ht.
  destruct (next_fault w) as [[| |] w0]; cbn in Ht; rewrite <-Ht in *; [|done|];
    destruct (f (tables w0)) as [t|e] eqn:E; cbn; auto.
Qed.

(** An insertion adds one well-formed row that takes effect in the future. *)
Lemma InsertModelPrice_effect price now w :
  Forall price_wf (model_prices (tables w)) →
  tables (InsertModelPrice price now w).2 = tables w ∨
  ∃ p, tables (InsertModelPrice price now w).2 = set_prices (cons p) (tables w) ∧
       price_wf p ∧ now < mp_effective_from p.
Proof.
  intros Hp. unfold InsertModelPrice. destruct (_ || _ || _); [by left|].
  set (price' := if String.eqb _ "" then _ else _). destruct (_ <=? 0); [by left|].
  destruct (after (EffectiveFrom price') now) eqn:Ha; cbn [negb]; [|by left].
  assert (∀ (r : result db_error unit) (k : unit → DB unit) w,
    (of_result r ≫= k) w = match r with Ok u => k u w | Err e => (Err e, w) end) as Hof
    by (intros [] ??; done).
  do 4 (rewrite Hof; destruct (check_price_amount _ _); [|by left]).
  apply (insert_price_effect (insert_model_price price') w (λ t', t' = tables w ∨
    ∃ p, t' = set_prices (cons p) (tables w) ∧ price_wf p ∧ now < mp_effective_from p)); [|by left].
  intros t' Hi. right. destruct (insert_model_price_wf _ _ _ Hp Hi) as (p & -> & ? & E).
  exists p. split_and!; [done..|]. rewrite E. by apply after_true.
Qed.

Lemma InsertModelPrice_preserves price now : preserves money_wf (InsertModelPrice price now).
Proof.
  intros w Hwf. destruct (InsertModelPrice_effect price now w (mw_prices _ Hwf)) as [->|(p & -> & Hp & _)];
    [done|]. destruct Hwf. split; try done. by constructor.
Qed.
