(* ===== verification/BillingClaims.v ===== *)
(** * Billing: the properties

    The theorems about prices, wallets, settlements and the policy table, each
    with a concrete instance.  The lemmas they rest on are in Numeric.v,
    BillingFacts.v and MoneyInvariant.v. *)

From Stdlib Require Import QArith.
From S2P Require Import Prelude Decimal Money Contracts Numeric Db Billing BillingFacts MoneyInvariant.

Open Scope Z_scope.

(** ** Concrete tables for the witnesses *)

Definition demo_price : price_row :=
  {| mp_id := "p1"; mp_provider := "openai"; mp_model := "gpt"; mp_currency := "USD";
     mp_unit_scale := 1000000; mp_price_input := 2500000000000; mp_price_output := 10000000000000;
     mp_price_cache_read := 0; mp_price_cache_write := 0; mp_effective_from := 100;
     mp_created_at := 50 |}.

Definition demo_usage (i : Z) (event : string) (status : Z) (source : string) : usage_row :=
  {| ul_id := i; ul_event_id := event; ul_attempt_id := event; ul_request_id := "r";
     ul_tenant_id := "t1"; ul_account_id := "acct"; ul_provider := "openai"; ul_model := "gpt";
     ul_status_code := status; ul_error_class := if status =? 200 then ErrorOK else ErrorNetwork;
     ul_tokens_in := 1000; ul_tokens_out := 33; ul_cache_read_tokens := 0;
     ul_cache_write_tokens := 0; ul_usage_source := source; ul_partial := false;
     ul_occurred_at := 200; ul_billing_state := "pending"; ul_billed_amount := None;
     ul_billing_run_id := None |}.

Definition demo_db : db :=
  set_seq (λ _, 4) (set_wallets (λ _, {[ "t1"%string := WalletRow "USD" 5000000000000 ]})
    (set_journal (λ _, [{| wt_id := "top"; wt_tenant_id := "t1"; wt_kind := "topup";
        wt_amount := 5000000000000; wt_balance_after := 5000000000000; wt_billing_run_id := None;
        wt_note := ""; wt_created_at := 10 |}])
      (set_prices (λ _, [demo_price])
        (set_ledger (λ _, [demo_usage 1 "e1" 200 UsageSourceUpstream;
                           demo_usage 2 "e2" 200 UsageSourceMissing;
                           demo_usage 3 "e3" 504 UsageSourceMissing])
          (empty_db {["t1"%string]} 300))))).

Lemma demo_keys : ledger_keys demo_db.
Proof. apply (bool_decide_unpack _). vm_compute. exact I. Defined.

(** A settlement of the demo tables that no fault disturbs. *)
Definition demo_settled : db := tables (settleTenant "run-1" "t1" 1000 (World demo_db [])).2.

Example demo_states :
  ul_billing_state <$> usage_ledger demo_settled = ["billed"; "held"; "not_billable"]%string.
Proof. vm_compute. reflexivity. Qed.

(** ** Settlements *)

(** C2 A settlement is all or nothing and conserves money: whatever statement,
    begin or commit fails, the tables are untouched, or every selected row has
    the state the policy and its price give it and the wallet and the journal
    moved by exactly the sum of the billed amounts.  A result without an error
    is one of these two outcomes; a rolled-back settlement selected nothing or
    reports an error. *)
Theorem settleTenant_all_or_nothing runID tenantID windowEnd w :
  ledger_keys (tables w) →
  let '(r, w') := settleTenant runID tenantID windowEnd w in
  (tables w' = tables w ∧ ((∃ e, r = Err e) ∨ pending_rows tenantID windowEnd (tables w) = [])) ∨
  (settles runID tenantID windowEnd (tables w) (tables w') ∧
   pending_rows tenantID windowEnd (tables w) ≠ [] ∧ (is_ok r = true ∨ r = Err EIO)).
Proof. apply settleTenant_contract. Qed.

Lemma settleTenant_all_or_nothing_witness :
  let '(r, w') := settleTenant "run-1" "t1" 1000 (World demo_db [NoFault; NoFault; Lost]) in
  (tables w' = demo_db ∧ ((∃ e, r = Err e) ∨ pending_rows "t1" 1000 demo_db = [])) ∨
  (settles "run-1" "t1" 1000 demo_db (tables w') ∧ pending_rows "t1" 1000 demo_db ≠ []
   ∧ (is_ok r = true ∨ r = Err EIO)).
Proof. apply (settleTenant_all_or_nothing "run-1" "t1" 1000 (World demo_db _)), demo_keys. Defined.

(** A settled row is never selected again. *)
Lemma settles_nothing_left runID tenantID windowEnd t t' windowEnd' :
  settles runID tenantID windowEnd t t' → windowEnd' <= windowEnd →
  pending_rows tenantID windowEnd' t' = [].
Proof.
  intros Hs Hle. unfold pending_rows. destruct (filter _ (usage_ledger t')) as [|r l] eqn:E; [done|].
  exfalso. assert (r ∈ filter (λ r, billable tenantID windowEnd' r = true) (usage_ledger t')) as Hr
    by (rewrite E; apply list_elem_of_here).
  apply list_elem_of_filter in Hr as [Hb Hr]. rewrite (st_ledger _ _ _ _ _ Hs) in Hr.
  apply list_elem_of_fmap in Hr as (r0 & -> & Hr0).
  destruct (billable tenantID windowEnd r0) eqn:Hb0.
  - destruct (st_decided _ _ _ _ _ Hs r0) as [d Hd]; [by apply list_elem_of_filter|].
    unfold settled_row in Hb. rewrite Hb0, Hd in Hb. unfold billable in Hb.
    destruct d; cbn in Hb; by rewrite andb_false_r in Hb.
  - unfold settled_row in Hb. rewrite Hb0 in Hb. unfold billable in Hb, Hb0. breflect.
    apply andb_false_iff in Hb0 as [Hb0|Hb0]; [apply andb_false_iff in Hb0 as [Hb0|Hb0]|].
    + by apply String.eqb_neq in Hb0.
    + by apply String.eqb_neq in Hb0.
    + apply Z.ltb_ge in Hb0. lia.
Qed.

(** Re-running is safe: after a settlement, another one over the same
    window or an earlier one -- under whatever run id, and whatever fails --
    changes nothing, so no row is ever debited twice. *)
Theorem rerun_debits_nothing runID tenantID windowEnd t t' runID' windowEnd' fs :
  settles runID tenantID windowEnd t t' → ledger_keys t → windowEnd' <= windowEnd →
  tables (settleTenant runID' tenantID windowEnd' (World t' fs)).2 = t'.
Proof.
  intros Hs Hk Hle. assert (ledger_keys t') as Hk'.
  { unfold ledger_keys. rewrite (st_ledger _ _ _ _ _ Hs), <-list_fmap_compose.
    rewrite (list_fmap_ext _ ul_id); [done|]. intros ? r _. apply settled_row_id. }
  pose proof (settleTenant_contract runID' tenantID windowEnd' (World t' fs) Hk') as H.
  destruct (settleTenant _ _ _ _) as [r w']. cbn in *.
  destruct H as [[H _]|(_ & Hne & _)]; [done|]. by apply settles_nothing_left with (windowEnd' := windowEnd') in Hs.
Qed.

Lemma rerun_debits_nothing_witness :
  tables (settleTenant "run-2" "t1" 1000 (World demo_settled [])).2 = demo_settled.
Proof.
  apply (rerun_debits_nothing "run-1" "t1" 1000 demo_db); [|apply demo_keys|lia].
  pose proof (settleTenant_contract "run-1" "t1" 1000 (World demo_db []) demo_keys) as H.
  unfold demo_settled. destruct (settleTenant "run-1" "t1" 1000 (World demo_db [])) as [r w'] eqn:E.
  destruct H as [[H _]|[H _]]; [|exact H]. exfalso.
  apply (f_equal (λ x, ul_billing_state <$> usage_ledger (tables x.2))) in E.
  cbn [snd] in E. rewrite H in E. revert E. vm_compute. discriminate.
Defined.

(** ** The policy table *)

(** The policy is total and bills only what it may: a class is charged
    exactly when the upstream measured it and the request succeeded; it is
    written off exactly when it failed and nothing was estimated; everything
    else -- every class the table does not know included -- is held for a human,
    and the table knows exactly the usage sources of the contract. *)
Theorem policy_bills_only_measured_success class :
  ((dispositionFor class).1 = dispositionBill ↔
     source class = UsageSourceUpstream ∧ succeeded class = true) ∧
  ((dispositionFor class).1 = dispositionNotBillable ↔
     (source class = UsageSourceUpstream ∨ source class = UsageSourceMissing) ∧ succeeded class = false) ∧
  ((dispositionFor class).2 = true ↔ source class ∈ knownUsageSources).
Proof.
  assert (∀ s, s ∈ knownUsageSources ↔
    s = UsageSourceUpstream ∨ s = UsageSourceEstimated ∨ s = UsageSourceMissing) as Hk.
  { intros s. unfold knownUsageSources. rewrite elem_of_sort_strings. set_solver. }
  destruct class as [s p ok]. rewrite Hk. cbn [source succeeded].
  destruct (decide (s = UsageSourceUpstream)) as [->|H1];
    [destruct p, ok; vm_compute; intuition congruence|].
  destruct (decide (s = UsageSourceEstimated)) as [->|H2];
    [destruct p, ok; vm_compute; intuition congruence|].
  destruct (decide (s = UsageSourceMissing)) as [->|H3];
    [destruct p, ok; vm_compute; intuition congruence|].
  assert (policy_lookup (UsageClass s p ok) = None) as E.
  { unfold policy_lookup. destruct (list_find _ _) as [[i e]|] eqn:E; [|done].
    apply list_find_Some in E as (Hi & He & _). apply list_elem_of_lookup_2 in Hi.
    unfold usageDispositions in Hi. rewrite !elem_of_cons in Hi.
    exfalso. destruct Hi as [->|[->|[->|[->|[->|[->|[->|[->|[->|[->|[->|[->|Hi]]]]]]]]]]]];
      [cbn in He; congruence..|by apply elem_of_nil in Hi]. }
  unfold dispositionFor. rewrite E. cbn. intuition congruence.
Qed.

(** ** Prices *)

Lemma latest_price_max l p :
  latest_price l = Some p → ∀ q, q ∈ l → mp_effective_from q <= mp_effective_from p.
Proof.
  revert p. induction l as [|x l IH]; intros p; cbn; [done|].
  intros E q [->|Hq]%elem_of_cons; revert E.
  - destruct (foldr _ None l) as [b|]; [|by intros [= <-]].
    destruct (Z.ltb_spec (mp_effective_from b) (mp_effective_from x)); intros [= <-]; lia.
  - unfold latest_price in IH. destruct (foldr _ None l) as [b|] eqn:Eb.
    + specialize (IH b eq_refl q Hq).
      destruct (Z.ltb_spec (mp_effective_from b) (mp_effective_from x)); intros [= <-]; lia.
    + destruct l as [|y l]; [by apply elem_of_nil in Hq|]. cbn in Eb.
      destruct (foldr _ None l); [|done]. by destruct (_ <? _).
Qed.

Lemma add_part_total total tokens p : 0 <= tokens → is_ok (add_part total tokens (numeric_out p)) = true.
Proof.
  intros Ht. unfold add_part. destruct (tokens =? 0); [done|].
  destruct (Z.ltb_spec tokens 0); [lia|]. by rewrite rat_set_string_out.
Qed.

Lemma lineAmount_total row p :
  0 < mp_unit_scale p → 0 <= tokensIn row → 0 <= tokensOut row → 0 <= cacheReadTokens row →
  0 <= cacheWriteTokens row → ∃ q, lineAmount row (scan_price p) = Ok q.
Proof.
  intros Hs H1 H2 H3 H4. unfold lineAmount. cbn [Price_UnitScale scan_price].
  destruct (Z.leb_spec (mp_unit_scale p) 0); [lia|].
  cbn [PriceInput PriceOutput PriceCacheRead PriceCacheWrite scan_price].
  assert (∀ total tokens p, 0 <= tokens → ∃ q, add_part total tokens (numeric_out p) = Ok q) as Ha.
  { intros total tokens p' Ht. pose proof (add_part_total total tokens p' Ht).
    destruct (add_part _ _ _); [eauto|done]. }
  destruct (Ha (inject_Z 0) (tokensIn row) (mp_price_input p)) as [q1 ->]; [done|].
  cbn. destruct (Ha q1 (tokensOut row) (mp_price_output p)) as [q2 ->]; [done|].
  cbn. destruct (Ha q2 (cacheReadTokens row) (mp_price_cache_read p)) as [q3 ->]; [done|].
  cbn. destruct (Ha q3 (cacheWriteTokens row) (mp_price_cache_write p)) as [q4 ->]; [done|].
  cbn. eauto.
Qed.

(** The price in force for a usage: of those listed for its provider and
    model, one with the latest effective_from not after the instant it occurred. *)
Definition in_force (t : db) (r : usage_row) (p : price_row) : Prop :=
  p ∈ model_prices t ∧ mp_provider p = ul_provider r ∧ mp_model p = ul_model r ∧
  mp_effective_from p <= ul_occurred_at r ∧
  ∀ q, q ∈ model_prices t → mp_provider q = ul_provider r → mp_model q = ul_model r →
       mp_effective_from q <= ul_occurred_at r → mp_effective_from q <= mp_effective_from p.

(** [z] units of 10^-12 are the cost of the row's tokens at price [p], per
    [unit_scale] tokens: off by half a unit at most. *)
Definition costs (r : usage_row) (p : price_row) (z : numeric) : Prop :=
  0 <= z ∧
  Z.abs (2 * (z * mp_unit_scale p -
    (ul_tokens_in r * mp_price_input p + ul_tokens_out r * mp_price_output p
     + ul_cache_read_tokens r * mp_price_cache_read p
     + ul_cache_write_tokens r * mp_price_cache_write p))) <= mp_unit_scale p.

Lemma price_row_in_force r t p :
  price_row_at (ul_provider r) (ul_model r) (ul_occurred_at r) t = Some p → in_force t r p.
Proof.
  intros Hp. destruct (price_row_at_elem _ _ _ _ _ Hp) as [Hin Happ].
  unfold price_applies in Happ. breflect. unfold in_force. split_and!; try done.
  intros q Hq Hqp Hqm Hqe. apply (latest_price_max _ _ Hp). apply list_elem_of_filter.
  split; [|done]. unfold price_applies. rewrite Hqp, Hqm, !String.eqb_refl. cbn. by apply Z.leb_le.
Qed.

Lemma price_row_exists r t p :
  p ∈ model_prices t → mp_provider p = ul_provider r → mp_model p = ul_model r →
  mp_effective_from p <= ul_occurred_at r →
  is_Some (price_row_at (ul_provider r) (ul_model r) (ul_occurred_at r) t).
Proof.
  intros Hin Hpr Hm He. unfold price_row_at.
  assert (p ∈ filter (λ p, price_applies (ul_provider r) (ul_model r) (ul_occurred_at r) p = true)
            (model_prices t)) as Hf.
  { apply list_elem_of_filter. split; [|done]. unfold price_applies.
    rewrite Hpr, Hm, !String.eqb_refl. cbn. by apply Z.leb_le. }
  destruct (filter _ _) as [|x l]; [by apply elem_of_nil in Hf|]. cbn.
  destruct (foldr _ None l); [destruct (_ <? _)|]; eauto.
Qed.

Lemma billed_disposition r :
  (dispositionFor (class (scan_billable r))).1 = dispositionBill ↔
  ul_usage_source r = UsageSourceUpstream ∧
  releaseSucceeded (ul_status_code r) (ul_error_class r) = true.
Proof. apply (policy_bills_only_measured_success (class (scan_billable r))). Qed.

(** What the verdict "billed" says of a row, and when it is given. *)
Lemma billed_verdict t r z :
  Forall price_wf (model_prices t) → verdict_of t (scan_billable r) = Some (VBilled z) →
  ul_usage_source r = UsageSourceUpstream ∧
  releaseSucceeded (ul_status_code r) (ul_error_class r) = true ∧
  ∃ p, in_force t r p ∧ costs r p z.
Proof.
  intros Hw Hv. pose proof (verdict_billed_nonneg _ _ _ Hw Hv) as Hz. revert Hv. unfold verdict_of.
  destruct (dispositionFor _).1 eqn:Ed; try done. apply billed_disposition in Ed as [Hs Hr].
  cbn [provider model occurredAt scan_billable].
  destruct (price_row_at _ _ _ t) as [p|] eqn:Ep; [|done].
  destruct (lineAmount _ _) as [q|] eqn:El; [|done]. intros [= <-].
  split; [done|]. split; [done|]. exists p. split; [by apply price_row_in_force|]. split; [done|].
  rewrite (lineAmount_rounded _ _ _ El). apply round_div_error.
  by apply lineAmount_value in El as [? _].
Qed.

Lemma verdict_billed t r p :
  Forall price_wf (model_prices t) → ul_usage_source r = UsageSourceUpstream →
  releaseSucceeded (ul_status_code r) (ul_error_class r) = true →
  0 <= ul_tokens_in r → 0 <= ul_tokens_out r → 0 <= ul_cache_read_tokens r →
  0 <= ul_cache_write_tokens r → in_force t r p →
  ∃ z, verdict_of t (scan_billable r) = Some (VBilled z).
Proof.
  intros Hw Hs Hr H1 H2 H3 H4 (Hin & Hpr & Hm & He & _).
  destruct (price_row_exists r t p) as [p' Hp']; try done. unfold verdict_of.
  rewrite (proj2 (billed_disposition r)) by done. cbn [provider model occurredAt scan_billable].
  rewrite Hp'. apply price_row_at_elem in Hp' as [Hin' _].
  apply (proj1 (list.Forall_forall _ _) Hw) in Hin' as [Hsc _].
  destruct (lineAmount_total (scan_billable r) p' Hsc H1 H2 H3 H4) as [q ->]. eauto.
Qed.

(** C5 What a settlement bills, and for how much.  On tables with distinct ledger
    ids and valid prices, as every reachable state has, and whatever statement,
    begin or commit fails: a ledger row that [settleTenant] left in state "billed" was
    either not touched by it, or was a selected row of the tenant that the
    upstream measured and that succeeded, and it was charged the exact cost of
    its four token counts at a price in force when it occurred -- the latest
    effective_from not after that instant, not today's price -- rounded once:
    off by half of 10^-12 at most; nothing else in the row but the run changed.
    And a settlement without an error bills every selected row of that kind
    whose token counts are not negative and that has a price in force. *)
Theorem billed_row_priced_exactly runID tenantID windowEnd w i r :
  ledger_keys (tables w) → Forall price_wf (model_prices (tables w)) →
  usage_ledger (tables w) !! i = Some r →
  let '(res, w') := settleTenant runID tenantID windowEnd w in
  (∀ r', usage_ledger (tables w') !! i = Some r' → ul_billing_state r' = "billed" →
     r' = r ∨
     billable tenantID windowEnd r = true ∧ ul_usage_source r = UsageSourceUpstream ∧
     releaseSucceeded (ul_status_code r) (ul_error_class r) = true ∧
     ∃ p z, r' = set_billing "billed" (Some z) (Some runID) r ∧
            in_force (tables w) r p ∧ costs r p z) ∧
  (is_ok res = true → billable tenantID windowEnd r = true →
     ul_usage_source r = UsageSourceUpstream →
     releaseSucceeded (ul_status_code r) (ul_error_class r) = true →
     0 <= ul_tokens_in r → 0 <= ul_tokens_out r → 0 <= ul_cache_read_tokens r →
     0 <= ul_cache_write_tokens r → (∃ p, in_force (tables w) r p) →
     ∃ p z, usage_ledger (tables w') !! i = Some (set_billing "billed" (Some z) (Some runID) r) ∧
            in_force (tables w) r p ∧ costs r p z).
Proof.
  intros Hk Hw Hi. pose proof (settleTenant_contract runID tenantID windowEnd w Hk) as H.
  destruct (settleTenant _ _ _ _) as [res w']. destruct H as [[-> Hno]|(Hs & _ & _)].
  - split; [intros r' Hr' _; left; congruence|]. intros Hok Hb. exfalso.
    destruct Hno as [[e ->]|Hno]; [done|]. unfold pending_rows in Hno.
    apply list_elem_of_lookup_2 in Hi. apply (elem_of_nil r). rewrite <-Hno.
    by apply list_elem_of_filter.
  - rewrite (st_ledger _ _ _ _ _ Hs), list_lookup_fmap, Hi. cbn. split.
    + intros r' [= <-]. unfold settled_row. destruct (billable _ _ r) eqn:Hb; [|by left].
      destruct (verdict_of _ _) as [d|] eqn:Ev; [|by left]. destruct d as [| | |z]; try done.
      intros _. right. destruct (billed_verdict _ _ _ Hw Ev) as (? & ? & p & ? & ?).
      split_and!; try done. by exists p, z.
    + intros _ Hb Hsrc Hok H1 H2 H3 H4 [p Hp].
      destruct (verdict_billed (tables w) r p) as [z Hz]; try done.
      destruct (billed_verdict _ _ _ Hw Hz) as (_ & _ & p' & Hp' & Hc).
      exists p', z. unfold settled_row. by rewrite Hb, Hz.
Qed.

Lemma billed_row_priced_exactly_witness :
  ∃ p z, usage_ledger demo_settled !! 0%nat
    = Some (set_billing "billed" (Some z) (Some "run-1"%string) (demo_usage 1 "e1" 200 UsageSourceUpstream)) ∧
  in_force demo_db (demo_usage 1 "e1" 200 UsageSourceUpstream) p ∧
  costs (demo_usage 1 "e1" 200 UsageSourceUpstream) p z.
Proof.
  assert (Forall price_wf (model_prices demo_db)) as Hw.
  { apply Forall_singleton. split_and!; cbn; lia. }
  pose proof (billed_row_priced_exactly "run-1" "t1" 1000 (World demo_db []) 0
    (demo_usage 1 "e1" 200 UsageSourceUpstream) demo_keys Hw eq_refl) as H.
  assert (is_ok (settleTenant "run-1" "t1" 1000 (World demo_db [])).1 = true) as Hok
    by (vm_compute; reflexivity).
  unfold demo_settled. destruct (settleTenant "run-1" "t1" 1000 (World demo_db [])) as [res w'].
  destruct H as [_ H]. apply H; try (vm_compute; reflexivity); try (cbn; lia); [exact Hok|].
  exists demo_price. split_and!; try reflexivity; [|cbn; lia|].
  - cbn. apply list_elem_of_here.
  - intros q Hq _ _ _. cbn in Hq. apply list_elem_of_singleton in Hq as ->. reflexivity.
Defined.

(** Prices only apply forward: whatever an insertion does -- succeed, be
    refused, fail half-way -- the verdict on any usage that occurred up to the
    instant of the insertion is the one it had before. *)
Theorem InsertModelPrice_forward_only price now w r :
  Forall price_wf (model_prices (tables w)) → ul_occurred_at r <= now →
  verdict_of (tables (InsertModelPrice price now w).2) (scan_billable r)
  = verdict_of (tables w) (scan_billable r).
Proof.
  intros Hp Hr. destruct (InsertModelPrice_effect price now w Hp) as [->|(p & -> & _ & Hlt)]; [done|].
  unfold verdict_of, price_row_at. cbn [model_prices set_prices provider model occurredAt scan_billable].
  rewrite filter_cons_False; [done|]. unfold price_applies. rewrite (proj2 (Z.leb_gt _ _)) by lia.
  by rewrite andb_false_r.
Qed.

Lemma InsertModelPrice_forward_only_witness :
  verdict_of (tables (InsertModelPrice (scan_price demo_price) 60 (World (empty_db ∅ 60) [])).2)
    (scan_billable (set_billing "pending" None None (demo_usage 1 "e1" 200 UsageSourceUpstream)))
  = Some (VBilled 2830000000) ∧
  verdict_of (tables (InsertModelPrice (scan_price demo_price) 60 (World demo_db [])).2)
    (scan_billable (UsageRow 9 "e9" "e9" "r" "t1" "acct" "openai" "gpt" 200 ErrorOK 5 5 0 0
       UsageSourceUpstream false 40 "pending" None None))
  = verdict_of demo_db (scan_billable (UsageRow 9 "e9" "e9" "r" "t1" "acct" "openai" "gpt" 200 ErrorOK
       5 5 0 0 UsageSourceUpstream false 40 "pending" None None)).
Proof.
  split; [vm_compute; reflexivity|].
  apply (InsertModelPrice_forward_only (scan_price demo_price) 60 (World demo_db [])).
  - apply Forall_singleton. split_and!; cbn; lia.
  - cbn. lia.
Defined.
