(* ===== verification/ReconcileFacts.v ===== *)
(** * Reconciliation is exact

    Proofs about Reconcile.v.  [audit] says in terms of the tables what it
    means for the three records to agree over a window; the report always
    exists, and it is balanced exactly when the audit holds.  Tables that only
    control's own operations wrote satisfy the audit over every window. *)

From Stdlib Require Import QArith.
From S2P Require Import Prelude Decimal Money Contracts Numeric Db Billing Reconcile BillingFacts MoneyInvariant.

Open Scope Z_scope.

(** ** The texts of the sums *)

Lemma zeroMoney_text : amount_text zeroMoney 0.
Proof. left. by vm_compute. Qed.

Lemma sum_text_spec l : amount_text (sum_text l) (sumZ (default 0 <$> l)).
Proof.
  unfold sum_text. assert (sumZ (default 0 <$> l) = sumZ (omap (λ x, x) l)) as ->.
  { induction l as [|[z|] l IH]; cbn in *; [done| |]; unfold sumZ in *; cbn in *; lia. }
  destruct (omap (λ x, x) l) as [|z l'] eqn:E; [by right|by left].
Qed.

Lemma sum_text_some {A} (f : A → numeric) l :
  amount_text (sum_text ((λ x, Some (f x)) <$> l)) (sumZ (f <$> l)).
Proof. pose proof (sum_text_spec ((λ x, Some (f x)) <$> l)) as H. by rewrite <-list_fmap_compose in H. Qed.

Lemma run_billed_filter tenant run t :
  run_billed tenant run t = sumZ (default 0 <$> (ul_billed_amount <$>
    filter (λ r, run_row_of tenant run r = true) (usage_ledger t))).
Proof.
  unfold run_billed. rewrite <-list_fmap_compose, <-sumZ_filter. apply sumZ_ext. intros r _.
  unfold billed_share, run_row_of. cbn.
  destruct (String.eqb (ul_tenant_id r) tenant), (String.eqb (ul_billing_state r) "billed"),
    (bool_decide _); done.
Qed.

Lemma run_debit_filter tenant run t :
  run_debit tenant run t = sumZ ((λ j, - wt_amount j) <$>
    filter (λ j, run_debit_of tenant run j = true) (wallet_transactions t)).
Proof.
  unfold run_debit. rewrite <-sumZ_filter. apply sumZ_ext. intros j _.
  unfold debit_share, run_debit_of.
  destruct (String.eqb (wt_tenant_id j) tenant), (String.eqb (wt_kind j) "debit"),
    (bool_decide _); done.
Qed.

Lemma journal_sum_filter tenant t :
  journal_sum tenant t = sumZ (wt_amount <$>
    filter (λ j, wt_tenant_id j = tenant) (wallet_transactions t)).
Proof.
  unfold journal_sum. rewrite <-(sumZ_ext (λ j, if String.eqb (wt_tenant_id j) tenant
    then wt_amount j else 0)) by done. rewrite sumZ_filter. do 2 f_equal.
  apply list_filter_iff. intros j. apply String.eqb_eq.
Qed.

Lemma ledger_total_text ids t tenant run :
  run ∈ ids → amount_text (match runLedgerTotals ids t tenant run with
                           | Some (_, text) => text | None => zeroMoney end) (run_billed tenant run t).
Proof.
  intros Hin. unfold runLedgerTotals. rewrite bool_decide_eq_true_2 by done. cbn [negb].
  rewrite run_billed_filter. destruct (filter _ (usage_ledger t)) as [|r l]; [apply zeroMoney_text|].
  apply sum_text_spec.
Qed.

Lemma wallet_debit_text ids t tenant run :
  run ∈ ids → amount_text (default zeroMoney (runWalletDebits ids t tenant run)) (run_debit tenant run t).
Proof.
  intros Hin. unfold runWalletDebits. rewrite bool_decide_eq_true_2 by done. cbn [negb].
  rewrite run_debit_filter. destruct (filter _ (wallet_transactions t)) as [|j l];
    [apply zeroMoney_text|]. apply sum_text_some.
Qed.

Lemma sameMoney_texts x y a b :
  amount_text x a → amount_text y b → sameMoney x y = bool_decide (a = b).
Proof.
  intros Hx Hy. unfold sameMoney. rewrite (amount_text_value _ _ Hx), (amount_text_value _ _ Hy).
  apply eq_bool_prop_intro. rewrite bool_decide_spec, Is_true_true.
  rewrite Qeq_bool_iff, !units_spec. unfold Qeq. cbn. lia.
Qed.

(** ** What the audit asks *)

Definition window_tenant (start end_ : time) (t : db) (tenant : string) : Prop :=
  ∃ r, r ∈ usage_ledger t ∧ in_report_window start end_ r = true ∧ ul_tenant_id r = tenant.

Definition row_audit (r : usage_row) : Prop :=
  if String.eqb (ul_billing_state r) "billed"
  then is_Some (ul_billed_amount r) ∧ ∃ run, ul_billing_run_id r = Some run ∧ run ≠ ""%string
  else ul_billed_amount r = None.

Record audit (start end_ : time) (t : db) : Prop := {
  au_rows : ∀ r, r ∈ usage_ledger t → in_report_window start end_ r = true → row_audit r;
  au_wallets : ∀ tenant w, window_tenant start end_ t tenant →
    tenant_wallets t !! tenant = Some w → tw_balance w = journal_sum tenant t;
  au_runs : ∀ r run, r ∈ usage_ledger t → in_report_window start end_ r = true →
    ul_billing_state r = "billed"%string → is_Some (ul_billed_amount r) →
    ul_billing_run_id r = Some run → run ≠ ""%string →
    run_billed (ul_tenant_id r) run t = run_debit (ul_tenant_id r) run t
}.

Lemma money_wf_audit start end_ t : money_wf t → audit start end_ t.
Proof.
  intros Hwf. split.
  - intros r Hr _. pose proof (proj1 (list.Forall_forall _ _) (mw_rows _ Hwf) r Hr) as H.
    revert H. unfold row_wf, row_audit. destruct (String.eqb _ _); [|done].
    intros (z & run & -> & _ & -> & Hne). split; [done|]. by exists run.
  - intros tenant w _. apply (mw_balance _ Hwf).
  - intros. apply (mw_runs _ Hwf).
Qed.

(** ** The pass over the window *)

Definition row_ok (w : windowRow) : Prop :=
  if String.eqb (wr_state w) "billed" then is_Some (wr_amount w) ∧ wr_runID w ≠ ""%string
  else wr_amount w = None.

Definition names_run (tenant run : string) (w : windowRow) : Prop :=
  wr_tenantID w = tenant ∧ wr_runID w = run ∧ wr_state w = "billed"%string
  ∧ is_Some (wr_amount w) ∧ run ≠ ""%string.

Definition run_seen (v : run_vars) (tenant run : string) : option RunReconciliation :=
  rv_runRows v !! tenant ≫= λ rs, rs !! run.

Record seen_vars (rows : list windowRow) (v : run_vars) : Prop := {
  sv_clean : rv_discrepancies v = [] ↔ ∀ w, w ∈ rows → row_ok w;
  sv_tenants : ∀ k, is_Some (rv_byTenant v !! k) ↔ ∃ w, w ∈ rows ∧ wr_tenantID w = k;
  sv_named : ∀ k tenant, rv_byTenant v !! k = Some tenant →
    tr_TenantID tenant = k ∧ WalletExists tenant = false;
  sv_totals : ∀ k, is_Some (rv_windowBilled v !! k) ↔ is_Some (rv_byTenant v !! k);
  sv_runs : ∀ k run, is_Some (run_seen v k run) ↔ ∃ w, w ∈ rows ∧ names_run k run w;
  sv_blank : ∀ k run rr, run_seen v k run = Some rr →
    LedgerAmount rr = zeroMoney ∧ WalletDebit rr = zeroMoney ∧ run ∈ rv_runIDs v
}.

Lemma no_rows (Q : windowRow → Prop) : ¬ ∃ w, w ∈ [] ∧ Q w.
Proof. intros (w & Hw & _). by apply elem_of_nil in Hw. Qed.

Lemma seen_nil : seen_vars [] run_vars0.
Proof.
  split; cbn; unfold run_seen; cbn.
  - split; [intros _ w Hw; by apply elem_of_nil in Hw|done].
  - intros k. rewrite lookup_empty, is_Some_alt. split; [done|]. apply no_rows.
  - intros k tenant. by rewrite lookup_empty.
  - intros k. by rewrite !lookup_empty.
  - intros k run. rewrite lookup_empty, is_Some_alt. split; [done|]. apply no_rows.
  - intros k run rr. by rewrite lookup_empty.
Qed.

Lemma ex_snoc (l : list windowRow) x (Q : windowRow → Prop) :
  (∃ w, w ∈ l ++ [x] ∧ Q w) ↔ (∃ w, w ∈ l ∧ Q w) ∨ Q x.
Proof.
  setoid_rewrite elem_of_app. setoid_rewrite list_elem_of_singleton. split.
  - intros (w & [Hw| ->] & HQ); eauto.
  - intros [(w & Hw & HQ)|HQ]; eauto.
Qed.

Lemma all_snoc (l : list windowRow) x (Q : windowRow → Prop) :
  (∀ w, w ∈ l ++ [x] → Q w) ↔ (∀ w, w ∈ l → Q w) ∧ Q x.
Proof.
  setoid_rewrite elem_of_app. setoid_rewrite list_elem_of_singleton. naive_solver.
Qed.

(** What [see_tenant] alone does, for a row that adds no run. *)
Lemma see_tenant_seen rows v row :
  seen_vars rows v →
  let v' := see_tenant row v in
  (∀ k, is_Some (rv_byTenant v' !! k) ↔ ∃ w, w ∈ rows ++ [row] ∧ wr_tenantID w = k) ∧
  (∀ k tenant, rv_byTenant v' !! k = Some tenant → tr_TenantID tenant = k ∧ WalletExists tenant = false) ∧
  (∀ k, is_Some (rv_windowBilled v' !! k) ↔ is_Some (rv_byTenant v' !! k)).
Proof.
  intros [Hc Ht Hn Hb Hr Hz]. cbn zeta. split_and!.
  - intros k. rewrite ex_snoc. cbn. rewrite lookup_insert_is_Some', Ht. tauto.
  - intros k tenant. cbn. destruct (decide (wr_tenantID row = k)) as [<-|Hne].
    + rewrite lookup_insert_eq. intros [= <-]. cbn.
      destruct (rv_byTenant v !! wr_tenantID row) as [tn|] eqn:E; cbn; [by apply Hn|done].
    + rewrite lookup_insert_ne by done. apply Hn.
  - intros k. cbn. rewrite lookup_insert_is_Some'.
    destruct (rv_byTenant v !! wr_tenantID row) as [tn|] eqn:E.
    + rewrite Hb. split; [auto|]. intros [<-|H]; [by rewrite E|done].
    + rewrite lookup_insert_is_Some', Hb. done.
Qed.

Lemma not_named_iff rows row k run :
  ¬ names_run k run row →
  (∃ w, w ∈ rows ++ [row] ∧ names_run k run w) ↔ ∃ w, w ∈ rows ∧ names_run k run w.
Proof. intros H. rewrite ex_snoc. tauto. Qed.

(** A row that names no run leaves the runs alone. *)
Lemma seen_without_run rows v row v' :
  seen_vars rows v → (∀ k run, ¬ names_run k run row) →
  rv_byTenant v' = rv_byTenant (see_tenant row v) →
  (∀ k, is_Some (rv_windowBilled v' !! k) ↔ is_Some (rv_windowBilled (see_tenant row v) !! k)) →
  rv_runRows v' = rv_runRows v → rv_runIDs v' = rv_runIDs v →
  (rv_discrepancies v' = [] ↔ rv_discrepancies v = [] ∧ row_ok row) →
  seen_vars (rows ++ [row]) v'.
Proof.
  intros Hs Hno Et Eb Er Ei Ed. pose proof (see_tenant_seen rows v row Hs) as (H1 & H2 & H3).
  destruct Hs as [Hc Ht Hn Hb Hr Hz]. split.
  - rewrite Ed, all_snoc, Hc. done.
  - intros k. rewrite Et. apply H1.
  - intros k tenant. rewrite Et. apply H2.
  - intros k. rewrite Eb, Et. apply H3.
  - intros k run. rewrite not_named_iff by done. unfold run_seen. rewrite Er. apply Hr.
  - intros k run rr. unfold run_seen. rewrite Er, Ei. apply Hz.
Qed.

Lemma app_nil_iff {A} (l : list A) x : (l ++ [x] = []) ↔ False.
Proof. split; [|done]. by destruct l. Qed.

(** A billed row of a run: the run is listed once more. *)
Lemma run_seen_add row v k run :
  run_seen (add_run row v) k run =
  if bool_decide (wr_tenantID row = k ∧ wr_runID row = run)
  then Some (add_window_row (wr_eventID row) (default (new_run run) (run_seen v k run)))
  else run_seen v k run.
Proof.
  unfold run_seen. cbn. destruct (decide (wr_tenantID row = k)) as [<-|Hne].
  - rewrite lookup_insert_eq. cbn. destruct (decide (wr_runID row = run)) as [<-|Hner].
    + rewrite lookup_insert_eq, bool_decide_eq_true_2 by done.
      destruct (rv_runRows v !! wr_tenantID row); cbn; [done|by rewrite lookup_empty].
    + rewrite lookup_insert_ne, bool_decide_eq_false_2 by naive_solver.
      destruct (rv_runRows v !! wr_tenantID row); cbn; [done|by rewrite lookup_empty].
  - rewrite lookup_insert_ne, bool_decide_eq_false_2 by naive_solver. done.
Qed.

Lemma seen_with_run rows v row amount :
  seen_vars rows v → names_run (wr_tenantID row) (wr_runID row) row →
  seen_vars (rows ++ [row]) (add_run row (add_billed row amount (see_tenant row v))).
Proof.
  intros Hs Hname. pose proof (see_tenant_seen rows v row Hs) as (H1 & H2 & H3).
  destruct Hs as [Hc Ht Hn Hbl Hr Hz].
  change (run_seen (add_billed row amount (see_tenant row v))) with (run_seen v) in *. split.
  - cbn. rewrite all_snoc, Hc. split; [|by intros [? _]]. intros H. split; [done|].
    unfold row_ok. destruct Hname as (_ & _ & -> & ? & ?). cbn. done.
  - exact H1.
  - exact H2.
  - intros k. cbn. rewrite lookup_alter_is_Some. apply H3.
  - intros k run. rewrite ex_snoc, run_seen_add, <-Hr.
    change (run_seen (add_billed row amount (see_tenant row v)) k run) with (run_seen v k run).
    case_bool_decide as E.
    + destruct E as [<- <-]. split; [auto|]. done.
    + split; [auto|]. intros [H|(? & ? & _)]; [done|]. destruct E. done.
  - intros k run rr. rewrite run_seen_add.
    change (run_seen (add_billed row amount (see_tenant row v)) k run) with (run_seen v k run).
    cbn [rv_runIDs add_run add_billed see_tenant]. case_bool_decide as E.
    + destruct E as [<- <-]. intros [= <-]. cbn [LedgerAmount WalletDebit add_window_row].
      split_and!; [| |case_bool_decide; [done|rewrite elem_of_app, list_elem_of_singleton; auto]];
        destruct (run_seen v (wr_tenantID row) (wr_runID row)) as [rr|] eqn:Er; cbn; try done;
        by destruct (Hz _ _ _ Er) as (? & ? & _).
    + intros Hrr. destruct (Hz _ _ _ Hrr) as (? & ? & ?). split_and!; [done..|].
      case_bool_decide; [done|]. rewrite elem_of_app. auto.
Qed.

Lemma see_row_seen rows v row :
  seen_vars rows v → (∀ text, wr_amount row = Some text → is_Some (rat_set_string text)) →
  ∃ v', see_row v row = Some v' ∧ seen_vars (rows ++ [row]) v'.
Proof.
  intros Hs Hp. unfold see_row. destruct (String.eqb_spec (wr_state row) "billed") as [Hb|Hb]; cbn [negb].
  - destruct (wr_amount row) as [text|] eqn:Ha.
    + destruct (Hp text eq_refl) as [q Hq]. rewrite Hq. cbn.
      destruct (String.eqb_spec (wr_runID row) "") as [He|He].
      * eexists. split; [done|]. apply (seen_without_run rows v); try done.
        -- intros k run (_ & Hr & _ & _ & Hne). congruence.
        -- intros k. cbn. rewrite lookup_alter_is_Some. done.
        -- cbn. rewrite app_nil_iff. split; [done|]. intros [_ Hok]. unfold row_ok in Hok.
           rewrite Hb in Hok. by destruct Hok.
      * eexists. split; [done|]. apply seen_with_run; [done|]. unfold names_run.
        rewrite Ha. by split_and!.
    + eexists. split; [done|]. apply (seen_without_run rows v); try done.
      * intros k run (_ & _ & _ & [? ?] & _). congruence.
      * cbn. rewrite app_nil_iff. split; [done|]. intros [_ Hok]. unfold row_ok in Hok.
        rewrite Hb, Ha in Hok. destruct Hok as [[? ?] _]. done.
  - eexists. split; [done|]. apply (seen_without_run rows v); try (by destruct (wr_amount row)).
    + intros k run (_ & _ & ? & _). done.
    + unfold row_ok. rewrite (proj2 (String.eqb_neq _ _) Hb).
      destruct (wr_amount row); cbn; [rewrite app_nil_iff|]; intuition congruence.
Qed.

Lemma see_rows_seen rows :
  (∀ row text, row ∈ rows → wr_amount row = Some text → is_Some (rat_set_string text)) →
  ∃ v, see_rows rows = Some v ∧ seen_vars rows v.
Proof.
  unfold see_rows. induction rows as [|row rows IH] using rev_ind; intros Hp.
  { exists run_vars0. split; [done|apply seen_nil]. }
  destruct IH as (v & Hv & Hs).
  { intros r text Hr. apply Hp. rewrite elem_of_app. auto. }
  rewrite foldl_app, Hv. cbn. apply see_row_seen; [done|]. intros text. apply Hp.
  rewrite elem_of_app, list_elem_of_singleton. auto.
Qed.

(** ** The pass over the tenants *)

Section report.
  Context (v : run_vars) (t : db) (rows : list windowRow) (Hs : seen_vars rows v).

Definition run_agrees (tenant run : string) : Prop := run_billed tenant run t = run_debit tenant run t.

Lemma compare_run_spec tenant exists_ run rr :
  run_seen v tenant run = Some rr →
  ∃ rr' found debited, compare_run v t tenant exists_ run rr = Some (rr', found, debited) ∧
    (found = [] ↔ run_agrees tenant run).
Proof using Hs.
  intros Hrr. destruct (sv_blank _ _ Hs _ _ _ Hrr) as (Hl & Hd & Hin).
  pose proof (ledger_total_text _ t tenant run Hin) as Hlt.
  pose proof (wallet_debit_text _ t tenant run Hin) as Hdt.
  unfold compare_run. rewrite Hl, Hd.
  assert (∃ n text, (match runLedgerTotals (rv_runIDs v) t tenant run with
    | Some total => total | None => (LedgerRows rr, zeroMoney) end) = (n, text)
    ∧ amount_text text (run_billed tenant run t)) as (n & text & -> & Ht).
  { destruct (runLedgerTotals _ t tenant run) as [[n text]|]; eauto. }
  destruct (amount_text_sub _ _ _ _ Ht Hdt) as (d & Hsub & Hsign).
  cbn. setoid_rewrite Hsub. cbn. rewrite (amount_text_value _ _ Hdt). cbn. rewrite Hsign. cbn.
  eexists _, _, _. split; [done|]. unfold run_agrees.
  destruct (Z.eqb_spec (Z.sgn (run_billed tenant run t - run_debit tenant run t)) 0) as [E|E].
  - split; [|done]. intros _. lia.
  - split; [by destruct (negb exists_)|]. intros Heq. exfalso. apply E. rewrite Heq. lia.
Qed.

Lemma compare_runs_spec tenant exists_ keys acc :
  (∀ run, run ∈ keys → is_Some (run_seen v tenant run)) →
  ∃ acc', foldl (compare_runs v t tenant exists_) (Some acc) keys = Some acc' ∧
    (acc'.1.2 = [] ↔ acc.1.2 = [] ∧ ∀ run, run ∈ keys → run_agrees tenant run).
Proof using Hs.
  revert acc. induction keys as [|run keys IH]; intros [[runs ds] debited] Hk.
  { eexists. split; [done|]. cbn. split; [|tauto]. intros H. split; [done|].
    intros run Hr. by apply elem_of_nil in Hr. }
  destruct (Hk run (list_elem_of_here _ _)) as [rr Hrr].
  destruct (compare_run_spec tenant exists_ run rr Hrr) as (rr' & found & debit & Hc & Hf).
  cbn [foldl]. unfold compare_runs at 2. cbn.
  unfold run_seen in Hrr. rewrite Hrr. cbn. rewrite Hc. cbn.
  destruct (IH (runs ++ [rr'], ds ++ found, Qplus debited debit)) as (acc' & -> & Hacc).
  { intros r Hr. apply Hk. by apply list_elem_of_further. }
  exists acc'. split; [done|]. rewrite Hacc. cbn. rewrite app_nil, Hf.
  setoid_rewrite elem_of_cons. naive_solver.
Qed.

Definition wallet_agrees (tenant : string) : Prop :=
  ∀ w, tenant_wallets t !! tenant = Some w → tw_balance w = journal_sum tenant t.

Lemma see_wallet_spec tenant :
  tr_TenantID (see_wallet t tenant).1 = tr_TenantID tenant ∧
  ((see_wallet t tenant).2 = [] ↔ wallet_agrees (tr_TenantID tenant)).
Proof using Type.
  unfold see_wallet, walletTotals, wallet_agrees.
  destruct (tenant_wallets t !! tr_TenantID tenant) as [w|]; cbn; [|done]. split; [done|].
  rewrite (sameMoney_texts _ _ (tw_balance w) (journal_sum (tr_TenantID tenant) t)).
  - case_bool_decide as E; split; try done; [by intros _ w' [= <-]|]. intros H. by destruct E; apply H.
  - by left.
  - rewrite journal_sum_filter. apply sum_text_some.
Qed.

Lemma elem_run_keys tenant run : run ∈ run_keys v tenant ↔ is_Some (run_seen v tenant run).
Proof using Type.
  unfold run_keys, run_seen. rewrite elem_of_sort_strings, list_elem_of_fmap.
  destruct (rv_runRows v !! tenant) as [rs|]; cbn.
  - split.
    + intros ([k rr] & -> & Hk%elem_of_map_to_list). by exists rr.
    + intros [rr Hrr]. exists (run, rr). by rewrite elem_of_map_to_list.
  - rewrite map_to_list_empty. split; [intros (? & _ & H); by apply elem_of_nil in H|by intros [? ?]].
Qed.

Definition tenant_agrees (tenant : string) : Prop :=
  wallet_agrees tenant ∧ ∀ run, is_Some (run_seen v tenant run) → run_agrees tenant run.

Lemma report_tenant_spec p tenantID :
  is_Some (rv_byTenant v !! tenantID) →
  ∃ p', report_tenant v t (Some p) tenantID = Some p' ∧
    (pv_discrepancies p' = [] ↔ pv_discrepancies p = [] ∧ tenant_agrees tenantID).
Proof using Hs.
  intros [tenant Htn]. destruct (sv_named _ _ Hs _ _ Htn) as [Hid _].
  destruct (proj2 (sv_totals _ _ Hs tenantID)) as [billed Hbl]; [by exists tenant|].
  unfold report_tenant. cbn. rewrite Htn. cbn.
  pose proof (see_wallet_spec tenant) as [_ Hw]. rewrite Hid in Hw.
  destruct (see_wallet t tenant) as [tenant' drift]. cbn in Hw.
  destruct (compare_runs_spec tenantID (WalletExists tenant') (run_keys v tenantID)
    ([], [], inject_Z 0)) as ([[runs ms] debited] & -> & Hm).
  { intros run. by rewrite elem_run_keys. }
  cbn. rewrite Hbl. cbn. eexists. split; [done|]. cbn in Hm |- *.
  rewrite !app_nil, Hw, Hm. unfold tenant_agrees. setoid_rewrite elem_run_keys. tauto.
Qed.

Lemma report_tenants_spec keys p :
  (∀ k, k ∈ keys → is_Some (rv_byTenant v !! k)) →
  ∃ p', foldl (report_tenant v t) (Some p) keys = Some p' ∧
    (pv_discrepancies p' = [] ↔ pv_discrepancies p = [] ∧ ∀ k, k ∈ keys → tenant_agrees k).
Proof using Hs.
  revert p. induction keys as [|k keys IH]; intros p Hk.
  { exists p. split; [done|]. split; [|tauto]. intros H. split; [done|].
    intros k Hk'. by apply elem_of_nil in Hk'. }
  destruct (report_tenant_spec p k) as (p1 & Hp1 & H1); [apply Hk, list_elem_of_here|].
  cbn [foldl]. rewrite Hp1. destruct (IH p1) as (p' & Hp' & H').
  { intros k' Hk'. apply Hk. by apply list_elem_of_further. }
  exists p'. split; [done|]. rewrite H', H1. setoid_rewrite elem_of_cons. naive_solver.
Qed.

Lemma elem_byTenant_keys k :
  k ∈ sort_strings (fst <$> map_to_list (rv_byTenant v)) ↔ is_Some (rv_byTenant v !! k).
Proof using Type.
  rewrite elem_of_sort_strings, list_elem_of_fmap. split.
  - intros ([k' tn] & -> & Hk%elem_of_map_to_list). by exists tn.
  - intros [tn Htn]. exists (k, tn). by rewrite elem_of_map_to_list.
Qed.
End report.

(** ** The report *)

Section run.
  Context (start end_ : time) (t : db).

Abbreviation window := (windowRows start end_ t).

Lemma elem_window w :
  w ∈ window ↔ ∃ r, w = scan_window r ∧ r ∈ usage_ledger t ∧ in_report_window start end_ r = true.
Proof using Type.
  unfold windowRows. rewrite list_elem_of_fmap. setoid_rewrite merge_sort_Permutation.
  setoid_rewrite list_elem_of_filter. naive_solver.
Qed.

Lemma window_parses row text : row ∈ window → wr_amount row = Some text → is_Some (rat_set_string text).
Proof using Type.
  intros (r & -> & _)%elem_window. cbn. destruct (ul_billed_amount r); cbn; [|done].
  intros [= <-]. by rewrite rat_set_string_out.
Qed.

Lemma row_ok_audit r : row_ok (scan_window r) ↔ row_audit r.
Proof using Type.
  unfold row_ok, row_audit. cbn. destruct (String.eqb _ _).
  - rewrite fmap_is_Some. destruct (ul_billing_run_id r) as [run|]; cbn.
    + split; intros [? H]; (split; [done|]); [by exists run|by destruct H as (run' & [= ->] & ?)].
    + split; [tauto|]. intros [_ (? & ? & _)]. done.
  - apply fmap_None.
Qed.

Lemma names_run_scan tenant run r :
  names_run tenant run (scan_window r) ↔ ul_tenant_id r = tenant ∧ ul_billing_state r = "billed"%string ∧
    is_Some (ul_billed_amount r) ∧ ul_billing_run_id r = Some run ∧ run ≠ ""%string.
Proof using Type.
  unfold names_run. cbn. rewrite fmap_is_Some. destruct (ul_billing_run_id r) as [run'|]; cbn.
  - split; [intros (? & -> & ?); tauto|]. intros (? & ? & ? & [= ->] & ?). tauto.
  - split; [intros (_ & <- & _ & _ & ?); done|]. intros (_ & _ & _ & ? & _). done.
Qed.

(** The report exists, and it is balanced exactly when the audit holds. *)
Lemma Run_audit :
  start < end_ → ∃ report, Run start end_ t = Some report ∧
    (Balanced report = true ↔ audit start end_ t).
Proof using Type.
  intros Hlt. unfold Run. rewrite (proj2 (after_true _ _)) by done. cbn [negb].
  destruct (see_rows_seen window) as (v & Hv & Hs); [intros; by eapply window_parses|].
  rewrite Hv. cbn.
  destruct (report_tenants_spec v t window Hs (sort_strings (fst <$> map_to_list (rv_byTenant v)))
    {| pv_tenants := []; pv_discrepancies := rv_discrepancies v; pv_billed := inject_Z 0;
       pv_debited := inject_Z 0 |}) as (p & -> & Hp).
  { intros k. by rewrite elem_byTenant_keys. }
  cbn. eexists. split; [done|]. unfold Balanced. cbn.
  transitivity (pv_discrepancies p = []); [by destruct (pv_discrepancies p)|]. rewrite Hp. cbn.
  rewrite (sv_clean _ _ Hs). setoid_rewrite elem_byTenant_keys. setoid_rewrite (sv_tenants _ _ Hs).
  unfold tenant_agrees. setoid_rewrite (sv_runs _ _ Hs). split.
  - intros [Hok Hag]. split.
    + intros r Hr Hw. apply row_ok_audit, Hok, elem_window. eauto.
    + intros tenant w (r & Hr & Hw & <-). apply Hag. exists (scan_window r).
      rewrite elem_window. eauto.
    + intros r run Hr Hw Hb Ha Hrun Hne. apply Hag; exists (scan_window r); rewrite elem_window.
      * eauto.
      * split; [eauto|]. by apply names_run_scan.
  - intros [H1 H2 H3]. split; [|split].
    + intros w (r & -> & Hr & Hw)%elem_window. apply row_ok_audit. by apply H1.
    + destruct H as (w & (r & -> & Hr & Hw)%elem_window & <-). intros wl. apply H2. by exists r.
    + intros run (w' & (r & -> & Hr & Hw)%elem_window & (<- & Hb & Ha & Hrun & Hne)%names_run_scan).
      by apply (H3 r).
Qed.
End run.

(** C9 Reconciliation is a faithful witness: over any tables, however they came
    about, the report exists, and it is balanced exactly when the three records
    really agree -- every window row carries an amount and a run exactly if it
    is billed, every tenant of the window has the balance its journal adds up
    to, and every run that billed a window row debited what its rows add up to. *)
Theorem report_balanced_iff_audit start end_ t :
  start < end_ → ∃ report, Run start end_ t = Some report ∧
    (Balanced report = true ↔ audit start end_ t).
Proof. apply Run_audit. Qed.

Lemma report_balanced_iff_audit_witness :
  ∃ report, Run 0 10 (empty_db ∅ 5) = Some report ∧
    (Balanced report = true ↔ audit 0 10 (empty_db ∅ 5)).
Proof. apply (report_balanced_iff_audit 0 10 (empty_db ∅ 5)). lia. Defined.
