(* ===== verification/Held.v ===== *)
(** * Resolving a held row

    internal/control/console_held.go: [resolveHeld] records a human's ruling on
    a ledger row the billing job parked, and [heldReason] tells why it was
    parked.  The theorems: a ruling keeps the money invariant, bills exactly
    what the job would have billed, and can be applied once. *)

From Stdlib Require Import QArith.
From S2P Require Import Prelude Decimal Money Contracts Numeric Db Billing BillingFacts MoneyInvariant BillingClaims.

Open Scope Z_scope.

Record heldResolution := {
  res_EventID : string;
  res_TenantID : string;
  res_Decision : string;
  res_Outcome : string;
  res_Amount : string;
  res_BillingRunID : string;
  res_Operator : string;
  res_Note : string;
  res_CreatedAt : time
}.

Definition heldReason (usageSource : string) (partial : bool) (statusCode : Z)
    (errorClass : string) : string :=
  let class := UsageClass usageSource partial (releaseSucceeded statusCode errorClass) in
  match policy_lookup class with
  | None => "no policy entry for this usage class; the policy table is behind the contract"
  | Some _ =>
      if String.eqb (source class) UsageSourceEstimated
      then "usage is estimated, not measured; nothing in this platform produces it yet"
      else if String.eqb (source class) UsageSourceMissing
      then "the request was served but the upstream never reported token counts"
      else "held by policy"
  end.

Definition lineAmountFromCounts (tokensIn tokensOut cacheRead cacheWrite : Z) (price : ModelPrice)
    : result db_error Q :=
  lineAmount {| id := 0; eventID := ""; provider := ""; model := ""; tokensIn := tokensIn;
    tokensOut := tokensOut; cacheReadTokens := cacheRead; cacheWriteTokens := cacheWrite;
    usageSource := ""; partial := false; statusCode := 0; errorClass := ""; occurredAt := 0 |} price.

(** SELECT ... FROM usage_ledger WHERE event_id=$1 FOR UPDATE. *)
Definition lock_row (eventID : string) : DB usage_row :=
  query (λ t, match list_find (λ r, ul_event_id r = eventID) (usage_ledger t) with
              | Some (_, r) => Ok r
              | None => Err ENoRows
              end).

Definition has_event (eventID : string) (r : usage_row) : bool := String.eqb (ul_event_id r) eventID.

(** INSERT INTO billing_resolutions ... RETURNING created_at, with the table's
    keys and checks. *)
Definition insert_resolution (eventID tenantID decision outcome : string)
    (storedAmount : option Decimal) (storedRun : option string) (who note : string) : DB time :=
  stmt (λ t,
    amount ← match storedAmount with
             | Some a => v ← numeric_in a; Ok (Some v)
             | None => Ok None
             end;
    if negb ((String.eqb decision "bill" || String.eqb decision "write_off")
             && (String.eqb outcome "billed" || String.eqb outcome "unpriced"
                 || String.eqb outcome "not_billable")
             && match amount with
                | Some v => String.eqb outcome "billed" && (0 <=? v)
                | None => negb (String.eqb outcome "billed")
                end
             && Bool.eqb (String.eqb outcome "not_billable") (negb (bool_decide (is_Some storedRun))))
    then Err ECheckViolation
    else match billing_resolutions t !! eventID with
    | Some _ => Err EUniqueViolation
    | None =>
        if negb (existsb (has_event eventID) (usage_ledger t)) then Err EForeignKey
        else Ok (db_now t, set_resolutions <[eventID := {| rs_event_id := eventID;
          rs_tenant_id := tenantID; rs_decision := decision; rs_outcome := outcome;
          rs_amount := amount; rs_billing_run_id := storedRun; rs_operator := who;
          rs_note := note |}]> t)
    end).

(** What the ruling does to the row and to the wallet: the outcome, the amount
    as printed and the run id it carries. *)
Definition apply_ruling (runID eventID decision who : string) (row : usage_row)
    : DB (string * string * string) :=
  if String.eqb decision "write_off" then
    _ ← exec (λ t, Ok (update_ledger (has_event eventID) (set_billing "not_billable" None None) t));
    mret ("not_billable", "", "")%string
  else
  found ← priceAt (ul_provider row) (ul_model row) (ul_occurred_at row);
  match found with
  | None =>
      _ ← exec (λ t, Ok (update_ledger (has_event eventID) (set_billing "unpriced" None (Some runID)) t));
      mret ("unpriced"%string, ""%string, runID)
  | Some price =>
      amount ← of_result (lineAmountFromCounts (ul_tokens_in row) (ul_tokens_out row)
        (ul_cache_read_tokens row) (ul_cache_write_tokens row) price);
      let rounded := float_string 12 amount in
      _ ← (if 0 <? default 0 (Decimal_Sign rounded) then
             _ ← applyMovement {| Movement_ID := runID +:+ ":" +:+ ul_tenant_id row;
               Movement_TenantID := ul_tenant_id row; Movement_Kind := "debit";
               Movement_Amount := "-" +:+ rounded; Movement_BillingRunID := runID;
               Movement_Note := "held row " +:+ eventID +:+ " billed by " +:+ who |};
             mret tt
           else mret tt);
      _ ← exec (λ t, v ← numeric_in rounded;
        Ok (update_ledger (has_event eventID) (set_billing "billed" (Some v) (Some runID)) t));
      mret ("billed"%string, rounded, runID)
  end.

Definition resolve_body (runID eventID decision who note : string) : DB heldResolution :=
  row ← lock_row eventID;
  if negb (String.eqb (ul_billing_state row) "held") then fail ENotHeld
  else
  let who := if String.eqb who "" then "unknown"%string else who in
  let note := trim_space note in
  '(outcome, amount, run) ← apply_ruling runID eventID decision who row;
  created ← insert_resolution eventID (ul_tenant_id row) decision outcome
    (if String.eqb outcome "billed" then Some amount else None) (nullable run) who note;
  mret {| res_EventID := eventID; res_TenantID := ul_tenant_id row; res_Decision := decision;
          res_Outcome := outcome; res_Amount := amount; res_BillingRunID := run;
          res_Operator := who; res_Note := note; res_CreatedAt := created |}.

(** [runID] is what [newHeldResolutionRunID] drew. *)
Definition resolveHeld (runID eventID decision who note : string) : DB heldResolution :=
  transaction (resolve_body runID eventID decision who note).

(** ** What a ruling does *)

Definition bill_verdict (t : db) (row : usage_row) : option verdict :=
  match price_row_at (ul_provider row) (ul_model row) (ul_occurred_at row) t with
  | None => Some VUnpriced
  | Some p => match lineAmount (scan_billable row) (scan_price p) with
              | Ok q => Some (VBilled (rat_round 12 q))
              | Err _ => None
              end
  end.

Definition ruling_verdict (t : db) (decision : string) (row : usage_row) : option verdict :=
  if String.eqb decision "write_off" then Some VNotBillable else bill_verdict t row.

Definition ruled_row (runID : string) (d : verdict) : usage_row → usage_row :=
  match d with
  | VBilled z => set_billing "billed" (Some z) (Some runID)
  | VUnpriced => set_billing "unpriced" None (Some runID)
  | _ => set_billing "not_billable" None None
  end.

Definition held_debit (runID eventID who : string) (row : usage_row) (z : numeric) (w : wallet_row)
    (t : db) : db :=
  if 0 <? z then moved {| Movement_ID := runID +:+ ":" +:+ ul_tenant_id row;
    Movement_TenantID := ul_tenant_id row; Movement_Kind := "debit";
    Movement_Amount := "-" +:+ numeric_out z; Movement_BillingRunID := runID;
    Movement_Note := "held row " +:+ eventID +:+ " billed by " +:+ who |} w (- z) t
  else t.

Definition ruled_db (runID eventID who : string) (row : usage_row) (d : verdict) (w : wallet_row)
    (t : db) : db :=
  update_ledger (has_event eventID) (ruled_row runID d)
    (held_debit runID eventID who row (verdict_amount d) w t).

Lemma float_string_positive q :
  0 < rat_round 12 q → float_string 12 q = numeric_out (rat_round 12 q).
Proof.
  intros Hz. rewrite float_string_round. unfold numeric_out. f_equal.
  pose proof (signed_round q). destruct (Qnum q <? 0), (Z.ltb_spec (rat_round 12 q) 0); lia.
Qed.

Lemma float_string_sign q : default 0 (Decimal_Sign (float_string 12 q)) = Z.sgn (rat_round 12 q).
Proof. by rewrite float_string_round, Decimal_Sign_shown, signed_round by lia. Qed.

Lemma apply_ruling_wp runID eventID decision who row t :
  wp (apply_ruling runID eventID decision who row) (λ '(outcome, amount, run) t', ∃ d w,
    ruling_verdict t decision row = Some d ∧
    (0 < verdict_amount d → tenant_wallets t !! ul_tenant_id row = Some w) ∧
    outcome = verdict_state d ∧ d ≠ VHeld ∧
    t' = ruled_db runID eventID who row d w t) t.
Proof.
  unfold apply_ruling, ruling_verdict. destruct (String.eqb decision "write_off").
  { repeat wp_step. simplify_eq. exists VNotBillable, (WalletRow "" 0).
    by split_and!. }
  unfold priceAt, bill_verdict. do 2 wp_step. simplify_eq.
  destruct (price_row_at _ _ _ t) as [p|]; cbn.
  2: { repeat wp_step. simplify_eq. exists VUnpriced, (WalletRow "" 0).
       by split_and!. }
  change (lineAmountFromCounts _ _ _ _ (scan_price p)) with
    (lineAmount (scan_billable row) (scan_price p)).
  wp_step. wp_step. rename a into q. rewrite H. rewrite float_string_sign. wp_step.
  apply wp_mono with (Q := λ _ t', ∃ w, (0 < rat_round 12 q → tenant_wallets t !! ul_tenant_id row = Some w)
    ∧ t' = held_debit runID eventID who row (rat_round 12 q) w t).
  - intros _ t1 (w & Hw & ->). do 3 wp_step. inv_result. exists (VBilled (rat_round 12 q)), w.
    split_and!; try done. destruct (float_string_denotes q) as [_ Hn].
    rewrite Hn in *. match goal with Hx : numeric_fits _ = Ok _ |- _ =>
      apply numeric_fits_Ok in Hx as [-> _] end. done.
  - unfold held_debit. destruct (Z.ltb_spec 0 (rat_round 12 q)) as [Hp|Hp].
    + rewrite Z.sgn_pos by done. cbn [Z.ltb Z.compare]. rewrite float_string_positive by done.
      wp_step. eapply wp_mono; [|apply applyMovement_wp; eapply printed_amount; cbn;
        by apply numeric_out_minus]. intros tr t' (w & z & Hw & Hz & _ & _ & _ & ->). wp_step.
      cbn [Movement_Amount] in Hz. rewrite numeric_out_minus, numeric_in_out in Hz by done.
      apply numeric_fits_Ok in Hz as [-> _]. exists w. done.
    + destruct (Z.ltb_spec 0 (Z.sgn (rat_round 12 q))); [lia|]. wp_step.
      exists (WalletRow "" 0). split; [lia|done].
Qed.

(** ** A ruling keeps the invariant *)

Lemma filter_unique (l : list usage_row) r :
  NoDup (ul_event_id <$> l) → r ∈ l → filter (λ x, has_event (ul_event_id r) x = true) l = [r].
Proof.
  induction l as [|x l IH]; intros Hnd Hr; [by apply elem_of_nil in Hr|].
  apply list.NoDup_cons in Hnd as [Hx Hnd]. rewrite filter_cons. unfold has_event at 1.
  apply elem_of_cons in Hr as [->|Hr].
  - rewrite decide_True by apply String.eqb_refl. f_equal.
    destruct (filter _ l) as [|y l'] eqn:E; [done|].
    assert (y ∈ filter (λ y, has_event (ul_event_id x) y = true) l) as Hy
      by (rewrite E; apply list_elem_of_here).
    apply list_elem_of_filter in Hy as [Ey%String.eqb_eq Hy].
    exfalso. apply Hx. rewrite <-Ey. by apply list_elem_of_fmap_2.
  - rewrite decide_False; [by apply IH|]. intros E%String.eqb_eq. apply Hx. rewrite E.
    by apply list_elem_of_fmap_2.
Qed.

Section ruled_wf.
  Context (runID who decision : string) (row : usage_row) (d : verdict) (w : wallet_row) (t : db).
  Context (Hwf : money_wf t) (Hrun : runID ≠ ""%string).
  Context (Hrow : row ∈ usage_ledger t) (Hheld : ul_billing_state row = "held"%string).
  Context (Hd : ruling_verdict t decision row = Some d) (HnH : d ≠ VHeld).
  Context (Hw : 0 < verdict_amount d → tenant_wallets t !! ul_tenant_id row = Some w).

Abbreviation ev := (ul_event_id row).
Abbreviation t' := (ruled_db runID ev who row d w t).
Abbreviation z := (verdict_amount d).

Lemma ruled_amount_nonneg : 0 <= z.
Proof using All.
  clear Hw HnH. revert Hd. unfold ruling_verdict, bill_verdict. destruct (String.eqb _ _); [by intros [= <-]|].
  destruct (price_row_at _ _ _ t) as [p|] eqn:E; [|by intros [= <-]].
  destruct (lineAmount _ _) as [q|] eqn:El; [|done]. intros [= <-]. cbn.
  rewrite (lineAmount_rounded _ _ _ El). apply lineAmount_value in El as (Hs & Ht & _).
  apply price_row_at_elem in E as [Hin _].
  apply (proj1 (list.Forall_forall _ _) (mw_prices _ Hwf)) in Hin as (_ & ?).
  apply round_div_nonneg; [done|]. unfold row_cost. nia.
Qed.

Lemma held_debit_ledger : usage_ledger (held_debit runID ev who row z w t) = usage_ledger t.
Proof using Type. unfold held_debit. by destruct (0 <? z). Qed.

Lemma ruled_ledger :
  usage_ledger t' = (λ r, if has_event ev r then ruled_row runID d r else r) <$> usage_ledger t.
Proof using Type. unfold ruled_db, update_ledger. cbn. by rewrite held_debit_ledger. Qed.

Lemma has_event_row r : r ∈ usage_ledger t → has_event ev r = true → r = row.
Proof using All.
  intros Hr E%String.eqb_eq. by apply (key_inj ul_event_id (usage_ledger t)); [apply mw_events|..].
Qed.

Lemma held_no_amount : ul_billed_amount row = None.
Proof using All.
  pose proof (proj1 (list.Forall_forall _ _) (mw_rows _ Hwf) row Hrow) as H.
  unfold row_wf in H. by rewrite Hheld in H.
Qed.

Lemma ruled_share tenant run :
  billed_share tenant run (ruled_row runID d row) =
  if bool_decide (tenant = ul_tenant_id row ∧ run = runID) then z else 0.
Proof using All.
  unfold billed_share. destruct d as [| | |a]; cbn; rewrite ?andb_false_r, ?andb_true_r;
    [by repeat case_bool_decide..|].
  destruct (String.eqb_spec (ul_tenant_id row) tenant) as [->|Hne]; cbn.
  - repeat case_bool_decide; naive_solver.
  - rewrite bool_decide_eq_false_2; naive_solver.
Qed.

Lemma ruled_run_billed tenant run :
  run_billed tenant run t' = run_billed tenant run t +
    (if bool_decide (tenant = ul_tenant_id row ∧ run = runID) then z else 0).
Proof using All.
  unfold run_billed. rewrite ruled_ledger, <-list_fmap_compose.
  rewrite (sumZ_ext _ (λ r, billed_share tenant run r + (if has_event ev r
    then billed_share tenant run (ruled_row runID d row) else 0))).
  - rewrite sumZ_add. f_equal. rewrite (sumZ_filter (has_event ev)).
    rewrite filter_unique by (apply Hwf || done). cbn. rewrite ruled_share. lia.
  - intros r Hr. cbn. destruct (has_event ev r) eqn:E; [|lia].
    rewrite (has_event_row r) by done. unfold billed_share at 2. rewrite Hheld, andb_false_r. done.
Qed.

Lemma ruled_journal : wallet_transactions t' = wallet_transactions t ++
  if 0 <? z then [debit_entry runID (ul_tenant_id row) ("held row " +:+ ev +:+ " billed by " +:+ who)
                    z (tw_balance w - z) (db_now t)] else [].
Proof using Type.
  unfold ruled_db, held_debit, update_ledger. destruct (0 <? z); cbn; [done|by rewrite app_nil_r].
Qed.

Lemma ruled_wallets : tenant_wallets t' =
  if 0 <? z then <[ul_tenant_id row := WalletRow (tw_currency w) (tw_balance w - z)]> (tenant_wallets t)
  else tenant_wallets t.
Proof using Type. unfold ruled_db, held_debit, update_ledger. by destruct (0 <? z). Qed.

Lemma ruled_run_debit tenant run :
  run_debit tenant run t' = run_debit tenant run t +
    (if bool_decide (tenant = ul_tenant_id row ∧ run = runID) then z else 0).
Proof using All.
  pose proof ruled_amount_nonneg. unfold run_debit. rewrite ruled_journal, fmap_app, sumZ_app.
  f_equal. destruct (Z.ltb_spec 0 z); [|by case_bool_decide; cbn; lia].
  cbn. unfold debit_share. cbn. rewrite nullable_run by done.
  destruct (String.eqb_spec (ul_tenant_id row) tenant) as [->|Hne]; cbn.
  - repeat case_bool_decide; try lia; naive_solver.
  - rewrite bool_decide_eq_false_2; naive_solver.
Qed.

Lemma ruled_journal_sum tenant :
  journal_sum tenant t' = journal_sum tenant t - (if String.eqb (ul_tenant_id row) tenant then z else 0).
Proof using All.
  pose proof ruled_amount_nonneg. unfold journal_sum. rewrite ruled_journal, fmap_app, sumZ_app.
  unfold Z.sub. f_equal. destruct (Z.ltb_spec 0 z); cbn; unfold journal_share; cbn;
    destruct (String.eqb (ul_tenant_id row) tenant); lia.
Qed.

Lemma ruled_row_keys r : ul_id (ruled_row runID d r) = ul_id r ∧
  ul_event_id (ruled_row runID d r) = ul_event_id r.
Proof using Type. clear. by destruct d. Qed.

Lemma ruled_row_wf r : row_wf (ruled_row runID d r).
Proof using All.
  pose proof ruled_amount_nonneg. destruct d; unfold row_wf; cbn; try done.
  exists amount, runID. done.
Qed.

Lemma ruled_wf : money_wf t'.
Proof using All.
  pose proof ruled_amount_nonneg.
  assert (∀ {K} (f : usage_row → K), (∀ r, f (ruled_row runID d r) = f r) →
    f <$> usage_ledger t' = f <$> usage_ledger t) as Hf.
  { intros K f Hf. rewrite ruled_ledger, <-list_fmap_compose. apply list_fmap_ext.
    intros _ r _. cbn. by destruct (has_event ev r). }
  split.
  - unfold ledger_keys. rewrite Hf by (intros; apply ruled_row_keys). apply Hwf.
  - rewrite ruled_ledger. intros r (r0 & -> & Hr)%list_elem_of_fmap.
    assert (db_seq t' = db_seq t) as -> by (unfold ruled_db, held_debit; by destruct (0 <? z)).
    destruct (has_event ev r0); [rewrite (proj1 (ruled_row_keys _))|]; by apply (mw_seq _ Hwf).
  - rewrite Hf by (intros; apply ruled_row_keys). apply Hwf.
  - intros tenant w'. rewrite ruled_wallets, ruled_journal_sum.
    destruct (Z.ltb_spec 0 z) as [Hp|].
    + destruct (String.eqb_spec (ul_tenant_id row) tenant) as [<-|Hne].
      * rewrite lookup_insert_eq. intros [= <-]. cbn. f_equal. by apply (mw_balance _ Hwf), Hw.
      * rewrite lookup_insert_ne by done. rewrite Z.sub_0_r. by apply (mw_balance _ Hwf).
    + intros Hw'. rewrite (mw_balance _ Hwf _ _ Hw'). destruct (String.eqb _ _); lia.
  - intros j. rewrite ruled_journal, ruled_wallets. destruct (Z.ltb_spec 0 z) as [Hp|].
    + rewrite elem_of_app, list_elem_of_singleton, lookup_insert_is_Some'.
      intros [Hj| ->]; [right; by apply (mw_foreign _ Hwf)|by left].
    + rewrite app_nil_r. apply (mw_foreign _ Hwf).
  - intros tenant run. by rewrite ruled_run_billed, ruled_run_debit, (mw_runs _ Hwf).
  - rewrite ruled_ledger. apply Forall_fmap, list.Forall_forall. intros r Hr. cbn.
    destruct (has_event ev r); [apply ruled_row_wf|].
    by apply (proj1 (list.Forall_forall _ _) (mw_rows _ Hwf)).
  - assert (model_prices t' = model_prices t) as -> by (unfold ruled_db, held_debit; by destruct (0 <? z)).
    apply Hwf.
Qed.
End ruled_wf.

(** ** The whole resolution *)

(** The contract: one held row gets the ruling's verdict, the wallet moves by
    the amount billed, and the ruling is on record. *)
Definition resolves (runID eventID decision : string) (outcome : string) (t t' : db) : Prop :=
  ∃ row d w who res,
    row ∈ usage_ledger t ∧ ul_event_id row = eventID ∧ ul_billing_state row = "held"%string ∧
    ruling_verdict t decision row = Some d ∧ d ≠ VHeld ∧ outcome = verdict_state d ∧
    (0 < verdict_amount d → tenant_wallets t !! ul_tenant_id row = Some w) ∧
    billing_resolutions t !! eventID = None ∧
    t' = set_resolutions <[eventID := res]> (ruled_db runID eventID who row d w t).

Lemma lock_row_wp eventID t :
  wp (lock_row eventID) (λ r t', t' = t ∧ r ∈ usage_ledger t ∧ ul_event_id r = eventID) t.
Proof.
  unfold lock_row. wp_step. destruct (list_find _ _) as [[i r]|] eqn:E; [|done]. simplify_eq.
  apply list_find_Some in E as (Hi & He & _). split_and!; [done| |done].
  by eapply list_elem_of_lookup_2.
Qed.

Lemma insert_resolution_wp eventID tenantID decision outcome amount run who note t :
  wp (insert_resolution eventID tenantID decision outcome amount run who note) (λ _ t',
    billing_resolutions t !! eventID = None ∧ ∃ res, t' = set_resolutions <[eventID := res]> t) t.
Proof.
  unfold insert_resolution. wp_step.
  match goal with H : (_ ≫= _) = Ok _ |- _ => apply result_bind_Ok in H as (v & _ & H) end.
  destruct (negb _); [done|]. destruct (billing_resolutions t !! eventID) eqn:Hn; [done|].
  destruct (negb _); [done|]. simplify_eq. eauto.
Qed.

Lemma resolve_body_wp runID eventID decision who note t :
  wp (resolve_body runID eventID decision who note)
     (λ res t', resolves runID eventID decision (res_Outcome res) t t') t.
Proof.
  unfold resolve_body. wp_step. eapply wp_mono; [|apply lock_row_wp].
  intros row t1 (-> & Hr & He). destruct (String.eqb_spec (ul_billing_state row) "held") as [Hs|];
    cbn [negb]; [|wp_step].
  wp_step. eapply wp_mono; [|apply apply_ruling_wp].
  intros [[outcome amount] run] t1 (d & w & Hd & Hw & Ho & HnH & ->).
  wp_step. eapply wp_mono; [|apply insert_resolution_wp].
  intros created t1 (Hn & res & ->). wp_step. subst eventID outcome.
  exists row, d, w. eexists _, _. split_and!; try done.
  revert Hn. unfold ruled_db, held_debit. by destruct (0 <? _).
Qed.

Lemma resolves_wf runID eventID decision outcome t t' :
  runID ≠ ""%string → money_wf t → resolves runID eventID decision outcome t t' → money_wf t'.
Proof.
  intros Hrun Hwf (row & d & w & who & res & Hr & <- & Hs & Hd & HnH & _ & Hw & _ & ->).
  apply money_wf_resolutions. by eapply ruled_wf.
Qed.

Lemma resolveHeld_preserves runID eventID decision who note :
  runID ≠ ""%string → preserves money_wf (resolveHeld runID eventID decision who note).
Proof.
  intros Hrun. apply preserves_transaction. intros t Ht.
  eapply wp_mono; [|apply resolve_body_wp]. intros res t' Hres. by apply (resolves_wf _ _ _ _ _ _ Hrun Ht Hres).
Qed.

Lemma resolveHeld_contract runID eventID decision who note w :
  let '(r, w') := resolveHeld runID eventID decision who note w in
  (tables w' = tables w ∧ ∃ e, r = Err e) ∨
  ∃ outcome, resolves runID eventID decision outcome (tables w) (tables w') ∧
    ((∃ res, r = Ok res ∧ res_Outcome res = outcome) ∨ r = Err EIO).
Proof.
  pose proof (transaction_spec _ _ w (resolve_body_wp runID eventID decision who note (tables w))) as H.
  unfold resolveHeld. destruct (transaction _ w) as [r w']. destruct H as [H|(a & Ha & Hr)]; [by left|].
  right. exists (res_Outcome a). split; [done|]. destruct Hr as [->| ->]; eauto.
Qed.

(** Once resolved, an event can not be resolved again. *)
Lemma resolved_not_held runID eventID decision outcome t t' r :
  money_wf t → resolves runID eventID decision outcome t t' →
  r ∈ usage_ledger t' → ul_event_id r = eventID → ul_billing_state r ≠ "held"%string.
Proof.
  intros Hwf (row & d & w & who & res & Hr & <- & Hs & Hd & HnH & _ & Hw & _ & ->).
  cbn [usage_ledger set_resolutions]. rewrite ruled_ledger.
  intros (r0 & -> & Hr0)%list_elem_of_fmap. destruct (has_event (ul_event_id row) r0) eqn:E.
  - intros _. by destruct d.
  - intros Ee. unfold has_event in E. apply String.eqb_neq in E. done.
Qed.

(** A ruling is applied once: after an event was resolved, resolving it again
    -- with either decision, by anyone, under any faults -- fails and changes
    nothing. *)
Theorem resolveHeld_once runID eventID decision outcome t t' runID' decision' who' note' fs :
  money_wf t → resolves runID eventID decision outcome t t' →
  let '(r, w') := resolveHeld runID' eventID decision' who' note' (World t' fs) in
  tables w' = t' ∧ ∃ e, r = Err e.
Proof.
  intros Hwf Hres.
  pose proof (resolveHeld_contract runID' eventID decision' who' note' (World t' fs)) as H.
  destruct (resolveHeld _ _ _ _ _ _) as [r w']. cbn [tables] in H.
  destruct H as [H|(o & (row & d & wl & who & res & Hr & He & Hs & _) & _)]; [done|].
  exfalso. by eapply resolved_not_held.
Qed.

(** A held row whose tokens an operator decides to charge. *)
Definition held_row : usage_row :=
  {| ul_id := 1; ul_event_id := "e1"; ul_attempt_id := "a1"; ul_request_id := "r";
     ul_tenant_id := "t1"; ul_account_id := "acct"; ul_provider := "openai"; ul_model := "gpt";
     ul_status_code := 200; ul_error_class := ErrorOK; ul_tokens_in := 1000; ul_tokens_out := 7;
     ul_cache_read_tokens := 0; ul_cache_write_tokens := 0; ul_usage_source := UsageSourceEstimated;
     ul_partial := false; ul_occurred_at := 200; ul_billing_state := "held";
     ul_billed_amount := None; ul_billing_run_id := Some "run-1"%string |}.

Definition held_db : db :=
  set_seq (λ _, 2) (set_wallets (λ _, {[ "t1"%string := WalletRow "USD" 0 ]})
    (set_prices (λ _, [{| mp_id := "p1"; mp_provider := "openai"; mp_model := "gpt";
        mp_currency := "USD"; mp_unit_scale := 1000; mp_price_input := 3; mp_price_output := 5;
        mp_price_cache_read := 0; mp_price_cache_write := 0; mp_effective_from := 100;
        mp_created_at := 50 |}])
      (set_ledger (λ _, [held_row]) (empty_db {["t1"%string]} 300)))).

Lemma held_db_wf : money_wf held_db.
Proof.
  split.
  - apply (bool_decide_unpack _). vm_compute. exact I.
  - intros r [->|H]%elem_of_cons; [done|by apply elem_of_nil in H].
  - apply (bool_decide_unpack _). vm_compute. exact I.
  - intros tenant w. cbn. destruct (decide ("t1"%string = tenant)) as [<-|Hne].
    + rewrite lookup_singleton_eq. by intros [= <-].
    + by rewrite lookup_singleton_ne.
  - intros j Hj. by apply elem_of_nil in Hj.
  - intros tenant run. cbn. unfold billed_share. cbn. by rewrite andb_false_r.
  - apply Forall_singleton. done.
  - apply Forall_singleton. split_and!; cbn; lia.
Qed.

Definition held_resolved : db :=
  tables (resolveHeld "held-1" "e1" "bill" "ops" "" (World held_db [])).2.

Lemma held_resolved_billed : ∃ outcome, resolves "held-1" "e1" "bill" outcome held_db held_resolved.
Proof.
  pose proof (resolveHeld_contract "held-1" "e1" "bill" "ops" "" (World held_db [])) as H.
  unfold held_resolved. destruct (resolveHeld _ _ _ _ _ _) as [r w'] eqn:E.
  destruct H as [[H _]|(o & H & _)]; [|by exists o]. exfalso.
  apply (f_equal (λ x, ul_billing_state <$> usage_ledger (tables x.2))) in E.
  cbn [snd] in E. rewrite H in E. revert E. vm_compute. discriminate.
Qed.

Lemma resolveHeld_once_witness :
  let '(r, w') := resolveHeld "held-2" "e1" "write_off" "ops" "" (World held_resolved []) in
  tables w' = held_resolved ∧ ∃ e, r = Err e.
Proof.
  destruct held_resolved_billed as [outcome H].
  apply (resolveHeld_once "held-1" "e1" "bill" outcome held_db held_resolved "held-2" "write_off"
    "ops" "" []); [apply held_db_wf|exact H].
Defined.

(** The row as the job would have found it: still pending, measured by the
    upstream, succeeded. *)
Definition as_measured (r : usage_row) : usage_row :=
  UsageRow (ul_id r) (ul_event_id r) (ul_attempt_id r) (ul_request_id r) (ul_tenant_id r)
    (ul_account_id r) (ul_provider r) (ul_model r) 200 ErrorOK (ul_tokens_in r) (ul_tokens_out r)
    (ul_cache_read_tokens r) (ul_cache_write_tokens r) UsageSourceUpstream (ul_partial r)
    (ul_occurred_at r) "pending" None None.

(** The job's verdict on that row is the price part of a ruling. *)
Lemma measured_verdict t row : verdict_of t (scan_billable (as_measured row)) = bill_verdict t row.
Proof.
  unfold verdict_of, bill_verdict. rewrite (proj2 (billed_disposition (as_measured row))); done.
Qed.

Lemma insert_ledger_keys i row row' t :
  usage_ledger t !! i = Some row → ul_id row' = ul_id row → ledger_keys t →
  ledger_keys (set_ledger <[i := row']> t).
Proof.
  intros Hi He Hk. unfold ledger_keys. cbn [usage_ledger set_ledger].
  rewrite list_fmap_insert, list_insert_id; [done|]. by rewrite list_lookup_fmap, Hi, He.
Qed.

(** What a settlement that reports success makes of the measured row. *)
Lemma settled_measured i row t run windowEnd fs s w2 :
  usage_ledger t !! i = Some row → ledger_keys t → ul_occurred_at row < windowEnd →
  settleTenant run (ul_tenant_id row) windowEnd
    (World (set_ledger <[i := as_measured row]> t) fs) = (Ok s, w2) →
  usage_ledger (tables w2) !! i = match bill_verdict t row with
    | Some (VBilled z) => Some (set_billing "billed" (Some z) (Some run) (as_measured row))
    | Some d => Some (park_row run (verdict_state d) (as_measured row))
    | None => Some (as_measured row)
    end.
Proof.
  intros Hi Hk Hw E.
  pose proof (settleTenant_contract run (ul_tenant_id row) windowEnd
    (World (set_ledger <[i := as_measured row]> t) fs)
    (insert_ledger_keys i row (as_measured row) t Hi eq_refl Hk)) as H.
  rewrite E in H. cbn [tables] in H.
  assert (usage_ledger (set_ledger <[i := as_measured row]> t) !! i = Some (as_measured row)) as Hl.
  { cbn [usage_ledger set_ledger]. rewrite list_lookup_insert_eq by (by eapply lookup_lt_Some). done. }
  assert (billable (ul_tenant_id row) windowEnd (as_measured row) = true) as Hb.
  { unfold billable. cbn. rewrite !String.eqb_refl. by apply Z.ltb_lt. }
  destruct H as [[_ [[e He]|Hno]]|[Hs _]]; [done| |].
  - exfalso. apply (elem_of_nil (as_measured row)). rewrite <-Hno. apply list_elem_of_filter.
    split; [done|]. by apply list_elem_of_lookup_2 in Hl.
  - rewrite (st_ledger _ _ _ _ _ Hs), list_lookup_fmap, Hl. cbn. unfold settled_row. rewrite Hb.
    change (verdict_of (set_ledger _ t)) with (verdict_of t). rewrite measured_verdict.
    by destruct (bill_verdict t row) as [[]|].
Qed.

(** A ruling changes one row of the ledger. *)
Lemma ruled_insert runID who row d w t i :
  money_wf t → usage_ledger t !! i = Some row →
  usage_ledger (ruled_db runID (ul_event_id row) who row d w t)
  = <[i := ruled_row runID d row]> (usage_ledger t).
Proof.
  intros Hwf Hi. rewrite ruled_ledger. apply list_eq. intros j. rewrite list_lookup_fmap.
  destruct (decide (j = i)) as [->|Hne].
  - rewrite list_lookup_insert_eq by (by eapply lookup_lt_Some). rewrite Hi. cbn.
    unfold has_event. by rewrite String.eqb_refl.
  - rewrite list_lookup_insert_ne by done. destruct (usage_ledger t !! j) as [r|] eqn:Hj; [|done].
    cbn. f_equal. destruct (has_event _ r) eqn:E; [|done]. apply String.eqb_eq in E. exfalso.
    apply Hne. eapply NoDup_lookup; [apply (mw_events _ Hwf)| |].
    + rewrite list_lookup_fmap, Hj. cbn. by rewrite E.
    + by rewrite list_lookup_fmap, Hi.
Qed.

Lemma bill_verdict_inv t row d :
  Forall price_wf (model_prices t) → bill_verdict t row = Some d →
  (d = VUnpriced ∧ ¬ ∃ p, in_force t row p) ∨
  ∃ p z, d = VBilled z ∧ in_force t row p ∧ costs row p z.
Proof.
  intros Hw Hd. pose proof Hd as Hv. rewrite <-measured_verdict in Hv. unfold bill_verdict in Hd.
  destruct (price_row_at _ _ _ t) as [p|] eqn:Ep.
  - destruct (lineAmount _ _); [|done]. injection Hd as <-. right.
    destruct (billed_verdict _ _ _ Hw Hv) as (_ & _ & p' & Hp' & Hc). by exists p', (rat_round 12 a).
  - injection Hd as <-. left. split; [done|]. intros (p & Hin & Hpr & Hm & He & _).
    destruct (price_row_exists row t p) as [? E]; try done. congruence.
Qed.

(** The money a ruling moves. *)
Definition debited (runID tenant : string) (z : numeric) (t t' : db) : Prop :=
  ∃ wl j, tenant_wallets t !! tenant = Some wl ∧
    tenant_wallets t' = <[tenant := WalletRow (tw_currency wl) (tw_balance wl - z)]> (tenant_wallets t) ∧
    wallet_transactions t' = wallet_transactions t ++ [j] ∧
    wt_tenant_id j = tenant ∧ wt_kind j = "debit"%string ∧ wt_amount j = - z ∧
    wt_balance_after j = tw_balance wl - z ∧ wt_billing_run_id j = Some runID.

Lemma ruled_debited runID who row d w t :
  runID ≠ ""%string → 0 < verdict_amount d → tenant_wallets t !! ul_tenant_id row = Some w →
  debited runID (ul_tenant_id row) (verdict_amount d) t
    (ruled_db runID (ul_event_id row) who row d w t).
Proof.
  intros Hrun Hz Hw. exists w. eexists. rewrite ruled_wallets, ruled_journal.
  rewrite (proj2 (Z.ltb_lt _ _) Hz). split_and!; try done. cbn. by rewrite nullable_run.
Qed.

(** C13 A manual bill charges what the job would have charged.  On well-formed
    tables, as every reachable state is, and under a run id: whatever statement,
    begin or commit fails, [resolveHeld] changes nothing and reports an error, or
    it changed one ledger row, which was held.  A "write_off" makes it not
    billable and moves no money.  Any other decision makes the row "unpriced"
    when no price was in force when it occurred, and otherwise "billed", at the
    exact cost of its tokens at a price in force then; that amount, when it is
    not zero, is debited from the tenant's wallet with one journal entry, once.
    State and amount are those that [settleTenant] gives the row -- in any run
    over the same tables that reports success and whose window holds the row --
    had it found it pending, measured by the upstream and succeeded. *)
Theorem resolveHeld_charges_like_the_job runID eventID decision who note w :
  runID ≠ ""%string → money_wf (tables w) →
  let '(res, w') := resolveHeld runID eventID decision who note w in
  let t := tables w in let t' := tables w' in
  (t' = t ∧ ∃ e, res = Err e) ∨
  ∃ i row row' z,
    usage_ledger t !! i = Some row ∧ ul_event_id row = eventID ∧
    ul_billing_state row = "held"%string ∧ usage_ledger t' = <[i := row']> (usage_ledger t) ∧
    ((∃ h, res = Ok h ∧ res_Outcome h = ul_billing_state row') ∨ res = Err EIO) ∧
    (if String.eqb decision "write_off" then z = 0 ∧ row' = set_billing "not_billable" None None row
     else
       ((z = 0 ∧ row' = set_billing "unpriced" None (Some runID) row ∧ ¬ ∃ p, in_force t row p) ∨
        ∃ p, in_force t row p ∧ costs row p z ∧
             row' = set_billing "billed" (Some z) (Some runID) row) ∧
       ∀ run windowEnd fs s w2, ul_occurred_at row < windowEnd →
         settleTenant run (ul_tenant_id row) windowEnd
           (World (set_ledger <[i := as_measured row]> t) fs) = (Ok s, w2) →
         ∃ row2, usage_ledger (tables w2) !! i = Some row2 ∧
           ul_billing_state row2 = ul_billing_state row' ∧ ul_billed_amount row2 = ul_billed_amount row') ∧
    if 0 <? z then debited runID (ul_tenant_id row) z t t'
    else tenant_wallets t' = tenant_wallets t ∧ wallet_transactions t' = wallet_transactions t.
Proof.
  intros Hrun Hwf. pose proof (resolveHeld_contract runID eventID decision who note w) as H.
  destruct (resolveHeld _ _ _ _ _ _) as [res w']. cbv zeta. destruct H as [H|(o & H & Hres)]; [by left|].
  right. destruct H as (row & d & wl & who' & rs & Hr & <- & Hs & Hd & HnH & -> & Hw & _ & ->).
  apply list_elem_of_lookup in Hr as [i Hi].
  exists i, row, (ruled_row runID d row), (verdict_amount d). split_and!; try done.
  - cbn [usage_ledger set_resolutions]. by apply ruled_insert.
  - destruct Hres as [(h & -> & Ho)| ->]; [left|by right]. exists h. rewrite Ho. by destruct d.
  - unfold ruling_verdict in Hd. destruct (String.eqb _ _); [by injection Hd as <-|]. split.
    + destruct (bill_verdict_inv _ _ _ (mw_prices _ Hwf) Hd) as [[-> Hn]|(p & z & -> & Hp & Hc)];
        [by left|right; by exists p].
    + intros run windowEnd fs s w2 Ho E. pose proof (settled_measured _ _ _ _ _ _ _ _ Hi (mw_keys _ Hwf) Ho E) as H2.
      rewrite Hd in H2. destruct d; try done; eexists; (split; [exact H2|done]).
  - destruct (Z.ltb_spec 0 (verdict_amount d)) as [Hz|Hz].
    + by apply ruled_debited; [..|apply Hw].
    + cbn [tenant_wallets wallet_transactions set_resolutions].
      rewrite ruled_wallets, ruled_journal, (proj2 (Z.ltb_ge _ _) Hz). by rewrite app_nil_r.
Qed.

Lemma resolveHeld_charges_like_the_job_witness :
  let t' := tables (resolveHeld "held-1" "e1" "bill" "ops" "" (World held_db [])).2 in
  ∃ i row row' z, usage_ledger held_db !! i = Some row ∧ usage_ledger t' = <[i := row']> (usage_ledger held_db) ∧
    (∃ p, in_force held_db row p) ∧
    ((z = 0 ∧ row' = set_billing "unpriced" None (Some "held-1"%string) row ∧ ¬ ∃ p, in_force held_db row p) ∨
     ∃ p, in_force held_db row p ∧ costs row p z ∧
          row' = set_billing "billed" (Some z) (Some "held-1"%string) row).
Proof.
  pose proof (resolveHeld_charges_like_the_job "held-1" "e1" "bill" "ops" "" (World held_db [])
    ltac:(discriminate) held_db_wf) as H.
  assert (is_ok (resolveHeld "held-1" "e1" "bill" "ops" "" (World held_db [])).1 = true) as Hok
    by (vm_compute; reflexivity).
  destruct (resolveHeld _ _ _ _ _ _) as [res w']. cbn [snd]. cbv zeta in H |- *.
  destruct H as [[_ [e ->]]|(i & row & row' & z & Hi & _ & _ & Hl & _ & [Hc _] & _)]; [discriminate|].
  exists i, row, row', z. split; [exact Hi|]. split; [exact Hl|]. split; [|exact Hc].
  cbn [usage_ledger tables] in Hi. apply list_elem_of_lookup_2, list_elem_of_singleton in Hi as ->.
  eexists. split; [apply list_elem_of_here|]. split_and!; try reflexivity; [cbn; lia|].
  intros q Hq _ _ _. cbn in Hq. apply list_elem_of_singleton in Hq as ->. reflexivity.
Defined.
