(* ===== verification/Console.v ===== *)
(** * The operator console

    internal/control/console.go, console_auth.go, console_limit.go,
    console_billing.go and the handlers of console_held.go: who may call, how
    often, and the billing routes.  A handler is a function from the decoded
    request to a reply, in the monad of the database; the texts of error replies
    are left out.  Proofs are in ConsoleFacts.v.

    Not modelled: counters, and the JSON around requests and replies: a body
    comes in decoded, [None] when decodeBody refused it. *)

From Stdlib Require Import QArith.
From S2P Require Import Prelude Decimal Money Contracts Numeric GoTime Cursor GoFloat Db Billing Reconcile BillingFacts MoneyInvariant Held.

Open Scope Z_scope.

(** ** Who may call (console_auth.go) *)

Inductive consoleAccess := consoleDenied | consoleReadOnly | consoleReadWrite.
#[export] Instance consoleAccess_eq_dec : EqDecision consoleAccess.
Proof. solve_decision. Defined.
#[export] Instance consoleAccess_countable : Countable consoleAccess.
Proof.
  refine {| encode a := match a with consoleDenied => 1 | consoleReadOnly => 2 | consoleReadWrite => 3 end%positive;
            decode p := match p with 1 => Some consoleDenied | 2 => Some consoleReadOnly
                        | 3 => Some consoleReadWrite | _ => None end%positive |}.
  by intros [].
Defined.

Record ConsoleAuth := { Token : string; ReadOnlyToken : string }.

Definition Enabled (a : ConsoleAuth) : bool := negb (blank (Token a)).

Definition ConsoleAuth_Validate (a : ConsoleAuth) : bool :=
  let readOnly := trim_space (ReadOnlyToken a) in
  negb (negb (String.eqb readOnly "") && String.eqb readOnly (trim_space (Token a))).

(** The header's value, "" when it is absent. *)
Definition access (a : ConsoleAuth) (authorization : string) : consoleAccess :=
  if negb (Enabled a) then consoleDenied
  else
  let raw := trim_space authorization in
  if negb (has_prefix "bearer " (to_lower raw)) then consoleDenied
  else
  let presented := trim_space (str_drop 7 raw) in
  if String.eqb presented "" then consoleDenied
  else
  let configured := trim_space (ReadOnlyToken a) in
  if String.eqb presented (trim_space (Token a)) then consoleReadWrite
  else if negb (String.eqb configured "") && String.eqb presented configured then consoleReadOnly
  else consoleDenied.

Definition operator (header : string) : string :=
  let who := trim_space header in
  if String.eqb who "" then "unknown" else str_take 200 who.

(** ** How often (console_limit.go) *)

Definition consoleRateBurst : Q := inject_Z 30.
Definition consoleRateRefill : Q := inject_Z 5.

Record consoleLimiter := {
  lm_tokens : gmap consoleAccess Q;
  lm_updated : gmap consoleAccess time;
  lm_burst : Q;
  lm_refill : Q
}.

Definition newConsoleLimiter (burst refill : Q) : consoleLimiter :=
  {| lm_tokens := ∅; lm_updated := ∅; lm_burst := burst; lm_refill := refill |}.

Definition Qmin (a b : Q) : Q := if Qle_bool a b then a else b.

Definition refilled (l : consoleLimiter) (kind : consoleAccess) (now : time) : Q :=
  let tokens := default (inject_Z 0) (lm_tokens l !! kind) in
  match lm_updated l !! kind with
  | None => lm_burst l
  | Some last =>
      let elapsed := seconds (time_sub now last) in
      if negb (Qle_bool elapsed (inject_Z 0))
      then Qmin (lm_burst l) (f64 (Qplus tokens (f64 (Qmult elapsed (lm_refill l)))))
      else tokens
  end.

Definition with_tokens (kind : consoleAccess) (q : Q) (now : time) (l : consoleLimiter) : consoleLimiter :=
  {| lm_tokens := <[kind := q]> (lm_tokens l); lm_updated := <[kind := now]> (lm_updated l);
     lm_burst := lm_burst l; lm_refill := lm_refill l |}.

(** [None] is [true, 0]; [Some wait] a refusal. *)
Definition allow (l : consoleLimiter) (kind : consoleAccess) (now : time) : option duration * consoleLimiter :=
  let tokens := refilled l kind now in
  if negb (Qle_bool (inject_Z 1) tokens) then
    let missing := f64 (Qminus (inject_Z 1) tokens) in
    let wait := trunc (f64 (Qmult (f64 (Qdiv missing (lm_refill l))) (inject_Z second))) in
    (Some (if wait <? second then second else wait), with_tokens kind tokens now l)
  else (None, with_tokens kind (f64 (Qminus tokens (inject_Z 1))) now l).

(** ** Replies *)

Record walletMovementVw := {
  mv_ID : string;
  mv_Kind : string;
  mv_Amount : Decimal;
  mv_BalanceAfter : Decimal;
  mv_BillingRunID : string;
  mv_Note : string;
  mv_CreatedAt : string
}.

Record walletView := {
  wv_TenantID : string;
  wv_Currency : string;
  wv_Balance : Decimal;
  wv_Blocked : bool;
  wv_Movement : list walletMovementVw
}.

Record priceView := {
  pv_ID : string;
  pv_Provider : string;
  pv_Model : string;
  pv_Currency : string;
  pv_UnitScale : Z;
  pv_PriceInput : Decimal;
  pv_PriceOutput : Decimal;
  pv_PriceCacheRead : Decimal;
  pv_PriceCacheWrite : Decimal;
  pv_EffectiveFrom : string;
  pv_CreatedAt : string
}.

Record heldRow := {
  hr_EventID : string;
  hr_TenantID : string;
  hr_Provider : string;
  hr_Model : string;
  hr_AccountID : string;
  hr_StatusCode : Z;
  hr_ErrorClass : string;
  hr_UsageSource : string;
  hr_Partial : bool;
  hr_TokensIn : Z;
  hr_TokensOut : Z;
  hr_CacheReadTokens : Z;
  hr_CacheWriteTokens : Z;
  hr_OccurredAt : string;
  hr_BillingRunID : string;
  hr_HeldBecause : string
}.

Record accountView := {
  av_ID : string;
  av_Provider : string;
  av_Platform : string;
  av_Group : string;
  av_Status : string;
  av_LastErrorClass : string;
  av_LastErrorAt : string;
  av_ConsecutiveFailures : Z;
  av_CooldownUntil : string;
  av_ExcludedModels : list string;
  av_Capabilities : list string
}.

Record accountActionResult := {
  ar_AccountID : string;
  ar_Action : string;
  ar_Applied : bool;
  ar_Detail : string;
  ar_FenceEpoch : Z;
  ar_EffectiveWithin : Z;
  ar_GatewayLocalCooldownNote : string
}.

Inductive reply_body :=
| ErrorBody
| Throttled (retry_after : Z)
| WalletBody (view : option walletView) (blocked : bool)
| MovementBody (movement : walletMovementVw) (replayed : bool)
| PricesBody (prices : list priceView)
| PriceBody (id effective_from : string)
| HeldBody (rows : list heldRow) (count : Z) (next_cursor : string) (has_more : bool)
| ResolutionBody (resolution : heldResolution)
| ReportBody (report : ReconciliationReport) (balanced : bool)
| AccountsBody (accounts : list accountView) (count : Z) (next_cursor : string) (has_more : bool)
| ActionBody (result : accountActionResult)
| HealthBody (database detail : bool) (now : time)
| RequestsBody.

Record reply := Reply { rp_status : Z; rp_body : reply_body }.

Definition writeError (status : Z) : DB reply := mret (Reply status ErrorBody).
Definition failed : DB reply := writeError 500.

(** ** Parameters of requests *)

Definition defaultConsoleLimit : Z := 500.
Definition maxConsoleLimit : Z := 5000.

Definition consoleLimit (raw : string) : option Z :=
  let raw := trim_space raw in
  if String.eqb raw "" then Some defaultConsoleLimit
  else
  let '(limit, ok) := parse_int raw in
  if negb ok || (limit <=? 0) || (maxConsoleLimit <? limit) then None else Some limit.

(** "" is the zero instant. *)
Definition parseConsoleTime (raw : string) : option time :=
  let raw := trim_space raw in
  if String.eqb raw "" then Some 0 else parse_rfc3339 raw.

(** ** Wallets (console_billing.go) *)

Definition walletBlocked (balance : Decimal) : bool :=
  match Decimal_Sign balance with Some sign => sign <=? 0 | None => false end.

Definition movement_view (t : WalletTransaction) : walletMovementVw :=
  {| mv_ID := Transaction_ID t; mv_Kind := Transaction_Kind t; mv_Amount := Transaction_Amount t;
     mv_BalanceAfter := BalanceAfter t; mv_BillingRunID := Transaction_BillingRunID t;
     mv_Note := Transaction_Note t; mv_CreatedAt := format_rfc3339 false (Transaction_CreatedAt t) |}.

(** SELECT currency FROM tenant_wallets; no row leaves "". *)
Definition wallet_currency (tenantID : string) : DB string :=
  query (λ t, Ok (match tenant_wallets t !! tenantID with Some w => tw_currency w | None => "" end)).

(** [db] says that a database is configured. *)
Definition handleWallet (db : bool) (path : string) : DB reply :=
  let tenantID := trim_space path in
  if negb db then writeError 503
  else if String.eqb tenantID "" then writeError 400
  else
  r ← attempt (Balance tenantID);
  match r with
  | Err _ => failed
  | Ok None => mret (Reply 200 (WalletBody None false))
  | Ok (Some balance) =>
      r ← attempt (ListWalletTransactions tenantID);
      match r with
      | Err _ => failed
      | Ok transactions =>
          r ← attempt (wallet_currency tenantID);
          match r with
          | Err _ => failed
          | Ok currency => mret (Reply 200 (WalletBody (Some
              {| wv_TenantID := tenantID; wv_Currency := currency; wv_Balance := balance;
                 wv_Blocked := walletBlocked balance; wv_Movement := movement_view <$> transactions |})
              (walletBlocked balance)))
          end
      end
  end.

Record topupRequest := { tq_ID : string; tq_Amount : Decimal; tq_Note : string }.
Record adjustRequest := { aq_ID : string; aq_Amount : Decimal; aq_Reason : string }.

Definition topupNote (who note : string) : string :=
  let note := trim_space note in
  if String.eqb note "" then "console top-up by " +:+ who
  else "console top-up by " +:+ who +:+ ": " +:+ note.

Definition adjustmentNote (who reason : string) : string :=
  "console adjustment by " +:+ who +:+ ": " +:+ trim_space reason.

(** Any error of the query reads as no row. *)
Definition replayMovement (tenantID id : string) : DB (option walletMovementVw) :=
  r ← attempt (query (λ t,
    match list_find (λ j, wt_id j = id ∧ wt_tenant_id j = tenantID) (wallet_transactions t) with
    | Some (_, j) => Ok (movement_view (scan_transaction j))
    | None => Err ENoRows
    end));
  mret (match r with Ok m => Some m | Err _ => None end).

(** [None]: the id belongs to another tenant, or to a different movement. *)
Definition confirmReplay (tenantID id kind : string) (amount : Decimal) : DB (option walletMovementVw) :=
  found ← replayMovement tenantID id;
  mret (replay ← found;
        if negb (String.eqb (mv_Kind replay) kind) || negb (sameMoney (mv_Amount replay) amount)
        then None else Some replay).

(** What handleTopup and handleAdjust do with the answer of the repository. *)
Definition moved_reply (tenantID id kind : string) (amount : Decimal)
    (r : result db_error WalletTransaction) : DB reply :=
  match r with
  | Ok movement => mret (Reply 201 (MovementBody (movement_view movement) false))
  | Err EUniqueViolation =>
      found ← confirmReplay tenantID id kind amount;
      match found with
      | None => writeError 409
      | Some replay => mret (Reply 200 (MovementBody replay true))
      end
  | Err _ => failed
  end.

Definition topup_movement (tenantID who : string) (request : topupRequest) : WalletMovement :=
  {| Movement_ID := tq_ID request; Movement_TenantID := tenantID; Movement_Kind := "topup";
     Movement_Amount := tq_Amount request; Movement_BillingRunID := "";
     Movement_Note := topupNote who (tq_Note request) |}.

Definition handleTopup (db : bool) (who path : string) (body : option topupRequest) : DB reply :=
  let tenantID := trim_space path in
  if String.eqb tenantID "" then writeError 400
  else match body with
  | None => writeError 400
  | Some request =>
      if blank (tq_ID request) then writeError 400
      else if negb (match Decimal_Sign (tq_Amount request) with Some sign => 0 <? sign | None => false end)
      then writeError 400
      else if negb (is_ok (checkMoney "amount" (tq_Amount request))) then writeError 400
      else if negb db then writeError 503
      else
      r ← attempt (EnsureWallet tenantID "USD");
      match r with
      | Err EForeignKey => writeError 404
      | Err _ => failed
      | Ok _ =>
          r ← attempt (ApplyMovement (topup_movement tenantID who request));
          moved_reply tenantID (tq_ID request) "topup" (tq_Amount request) r
      end
  end.

Definition adjust_movement (tenantID who : string) (request : adjustRequest) : WalletMovement :=
  {| Movement_ID := aq_ID request; Movement_TenantID := tenantID; Movement_Kind := "adjustment";
     Movement_Amount := aq_Amount request; Movement_BillingRunID := "";
     Movement_Note := adjustmentNote who (aq_Reason request) |}.

Definition handleAdjust (db : bool) (who path : string) (body : option adjustRequest) : DB reply :=
  let tenantID := trim_space path in
  if String.eqb tenantID "" then writeError 400
  else match body with
  | None => writeError 400
  | Some request =>
      if blank (aq_ID request) then writeError 400
      else if blank (aq_Reason request) then writeError 400
      else if negb (match Decimal_Sign (aq_Amount request) with Some sign => negb (sign =? 0) | None => false end)
      then writeError 400
      else if negb (is_ok (checkMoney "amount" (aq_Amount request))) then writeError 400
      else if negb db then writeError 503
      else
      r ← attempt (ApplyMovement (adjust_movement tenantID who request));
      match r with
      | Err EWalletNotFound => writeError 404
      | _ => moved_reply tenantID (aq_ID request) "adjustment" (aq_Amount request) r
      end
  end.

(** ** Prices *)

(** ORDER BY provider, model, effective_from DESC. *)
Definition price_le (a b : price_row) : Prop :=
  (mp_provider a ≠ mp_provider b ∧ String.le (mp_provider a) (mp_provider b)) ∨
  (mp_provider a = mp_provider b ∧ mp_model a ≠ mp_model b ∧ String.le (mp_model a) (mp_model b)) ∨
  (mp_provider a = mp_provider b ∧ mp_model a = mp_model b ∧ mp_effective_from b <= mp_effective_from a).
#[export] Instance price_le_dec : RelDecision price_le.
Proof. intros a b. unfold price_le. apply _. Defined.

Definition price_view (p : price_row) : priceView :=
  {| pv_ID := mp_id p; pv_Provider := mp_provider p; pv_Model := mp_model p;
     pv_Currency := mp_currency p; pv_UnitScale := mp_unit_scale p;
     pv_PriceInput := numeric_out (mp_price_input p); pv_PriceOutput := numeric_out (mp_price_output p);
     pv_PriceCacheRead := numeric_out (mp_price_cache_read p);
     pv_PriceCacheWrite := numeric_out (mp_price_cache_write p);
     pv_EffectiveFrom := format_rfc3339 false (mp_effective_from p);
     pv_CreatedAt := format_rfc3339 false (mp_created_at p) |}.

Definition handlePrices (db : bool) (provider model : string) : DB reply :=
  if negb db then writeError 503
  else
  let provider := trim_space provider in
  let model := trim_space model in
  r ← attempt (query (λ t, Ok (price_view <$> merge_sort price_le (filter (λ p,
        (provider = ""%string ∨ mp_provider p = provider) ∧ (model = ""%string ∨ mp_model p = model))
        (model_prices t)))));
  match r with
  | Err _ => failed
  | Ok prices => mret (Reply 200 (PricesBody prices))
  end.

Record insertPriceRequest := {
  iq_ID : string;
  iq_Provider : string;
  iq_Model : string;
  iq_Currency : string;
  iq_UnitScale : Z;
  iq_PriceInput : Decimal;
  iq_PriceOutput : Decimal;
  iq_PriceCacheRead : Decimal;
  iq_PriceCacheWrite : Decimal;
  iq_EffectiveFrom : string
}.

Definition handleInsertPrice (db : bool) (now : time) (body : option insertPriceRequest) : DB reply :=
  match body with
  | None => writeError 400
  | Some request =>
      if blank (iq_ID request) || blank (iq_Provider request) || blank (iq_Model request) then writeError 400
      else match parseConsoleTime (iq_EffectiveFrom request) with
      | None => writeError 400
      | Some effectiveFrom =>
          if is_zero_time effectiveFrom then writeError 400
          else if negb (after effectiveFrom now) then writeError 400
          else if negb db then writeError 503
          else
          r ← attempt (InsertModelPrice {| Price_ID := iq_ID request; Price_Provider := iq_Provider request;
                Price_Model := iq_Model request; Price_Currency := iq_Currency request;
                Price_UnitScale := iq_UnitScale request; PriceInput := iq_PriceInput request;
                PriceOutput := iq_PriceOutput request; PriceCacheRead := iq_PriceCacheRead request;
                PriceCacheWrite := iq_PriceCacheWrite request; EffectiveFrom := effectiveFrom;
                Price_CreatedAt := 0 |} now);
          match r with
          | Err EPriceNotEffectiveInFuture | Err EPriceRejected => writeError 400
          | Err EUniqueViolation => writeError 409
          | Err _ => failed
          | Ok _ => mret (Reply 201 (PriceBody (iq_ID request) (format_rfc3339 false effectiveFrom)))
          end
      end
  end.

(** ** Reconciliation *)

Definition handleReconcile (db : bool) (start end_ : string) : DB reply :=
  match parseConsoleTime start, parseConsoleTime end_ with
  | Some start, Some end_ =>
      if is_zero_time start || is_zero_time end_ then writeError 400
      else if negb db then writeError 503
      else
      r ← attempt (query (λ t, match Run start end_ t with Some report => Ok report | None => Err EBadInput end));
      match r with
      | Err _ => failed
      | Ok report => mret (Reply 200 (ReportBody report (Balanced report)))
      end
  | _, _ => writeError 400
  end.

(** ** Pages

    The loop over the rows of a query with LIMIT limit+1: the rows shown, and
    whether a probe row followed them. *)

Fixpoint read_page {A} (limit : nat) (rows : list A) : list A * bool :=
  match rows with
  | [] => ([], false)
  | row :: rows' =>
      match limit with
      | 0%nat => ([], true)
      | S limit' => let '(shown, hasMore) := read_page limit' rows' in (row :: shown, hasMore)
      end
  end.

Definition page_query {A} (limit : Z) (rows : list A) : list A * bool :=
  read_page (Z.to_nat limit) (take (Z.to_nat (fetchLimit limit)) rows).

Definition next_cursor {A} (position : A → string * Z) (shown : list A) (hasMore : bool) : string :=
  if hasMore then match list.last shown with
                  | Some row => encodeCursor (position row).1 (position row).2
                  | None => ""%string
                  end
  else "".

(** ** Held rows (console_held.go) *)

Definition held_view (r : usage_row) : heldRow :=
  {| hr_EventID := ul_event_id r; hr_TenantID := ul_tenant_id r; hr_Provider := ul_provider r;
     hr_Model := ul_model r; hr_AccountID := ul_account_id r; hr_StatusCode := ul_status_code r;
     hr_ErrorClass := ul_error_class r; hr_UsageSource := ul_usage_source r;
     hr_Partial := ul_partial r; hr_TokensIn := ul_tokens_in r; hr_TokensOut := ul_tokens_out r;
     hr_CacheReadTokens := ul_cache_read_tokens r; hr_CacheWriteTokens := ul_cache_write_tokens r;
     hr_OccurredAt := format_rfc3339 false (ul_occurred_at r);
     hr_BillingRunID := default ""%string (ul_billing_run_id r);
     hr_HeldBecause := heldReason (ul_usage_source r) (ul_partial r) (ul_status_code r) (ul_error_class r) |}.

Definition held_position (r : usage_row) : string * Z :=
  (format_rfc3339 true (ul_occurred_at r), ul_id r).

Definition held_for (tenantID : string) (r : usage_row) : bool :=
  String.eqb (ul_billing_state r) "held" && (String.eqb tenantID "" || String.eqb (ul_tenant_id r) tenantID).

(** (occurred_at, id) > (at, id). *)
Definition row_after (at_ : time) (id : Z) (r : usage_row) : bool :=
  (at_ <? ul_occurred_at r) || ((ul_occurred_at r =? at_) && (id <? ul_id r)).

Section held.
  (** PostgreSQL's cast of text to TIMESTAMPTZ. *)
  Context (timestamptz : string → option time).

Definition held_rows (tenantID : string) (cursor : consoleCursor) (t : db) : result db_error (list usage_row) :=
  let sorted keep := merge_sort ledger_le (filter (λ r, held_for tenantID r && keep r = true) (usage_ledger t)) in
  if String.eqb (Sort cursor) "" then Ok (sorted (λ _, true))
  else match timestamptz (Sort cursor) with
       | None => Err EInvalidText
       | Some at_ => Ok (sorted (row_after at_ (cur_ID cursor)))
       end.

Definition handleHeld (db : bool) (tenant limit cursor : string) : DB reply :=
  if negb db then writeError 503
  else
  let tenantID := trim_space tenant in
  match consoleLimit limit with
  | None => writeError 400
  | Some limit =>
      match parseCursor cursor with
      | None => writeError 400
      | Some cursor =>
          r ← attempt (query (λ t, rows ← held_rows tenantID cursor t; Ok (page_query limit rows)));
          match r with
          | Err _ => failed
          | Ok (shown, hasMore) =>
              let next := next_cursor held_position shown hasMore in
              mret (Reply 200 (HeldBody (held_view <$> shown) (Z.of_nat (length shown)) next
                (negb (String.eqb next ""))))
          end
      end
  end.
End held.

Record resolveHeldRequest := { hq_Decision : string; hq_Note : string }.

(** [runID] is what [newHeldResolutionRunID] draws, if it is called. *)
Definition handleResolveHeld (db : bool) (runID who path : string) (body : option resolveHeldRequest) : DB reply :=
  let eventID := trim_space path in
  if String.eqb eventID "" then writeError 400
  else match body with
  | None => writeError 400
  | Some request =>
      let decision := trim_space (hq_Decision request) in
      if negb (String.eqb decision "bill") && negb (String.eqb decision "write_off") then writeError 400
      else if negb db then writeError 503
      else
      r ← attempt (resolveHeld runID eventID decision who (hq_Note request));
      match r with
      | Err ENotHeld => writeError 409
      | Err ENoRows => writeError 404
      | Err _ => failed
      | Ok resolution => mret (Reply 200 (ResolutionBody resolution))
      end
  end.
