(* ===== verification/Ledger.v ===== *)
(** * The usage ledger

    internal/control/ledger.go (attempts, releases and recovery on PostgreSQL),
    internal/control/state.go ([MemoryLedger], the in-memory model of the same
    rules) and internal/control/health.go (what a release means for its
    account, the per-platform signal window, the starvation guard).  Proofs are
    in LedgerFacts.v. *)

From S2P Require Import Prelude Contracts Numeric Db.

Open Scope Z_scope.

(** ** Account authority (health.go) *)

Definition unknownRateLimitEscalation : Z := 3.
Definition unknownRateLimitCooldown : duration := 5 * minute.
Definition blockedCooldown : duration := 60 * second.

(** GREATEST(COALESCE(cooldown_until, at), at + d). *)
Definition extend_cooldown (cooldown : option time) (at_ : time) (d : duration) : option time :=
  Some (Z.max (default at_ cooldown) (at_ + d)).

(** The SET list of [applyReleaseAuthoritySQL]. *)
Definition release_authority (class : string) (at_ : time) (model : string) (a : account_row)
    : account_row :=
  let failures := ac_consecutive_failures a in
  {| ac_status := if String.eqb class "auth_invalid" then "disabled"%string else ac_status a;
     ac_fence_epoch := ac_fence_epoch a;
     ac_platform := ac_platform a;
     ac_last_error_class := if String.eqb class "ok" then None else Some class;
     ac_last_error_at := if String.eqb class "ok" then None else Some at_;
     ac_consecutive_failures :=
       if String.eqb class "ok" then 0
       else if String.eqb class "rate_limited_unknown" || String.eqb class "blocked"
       then failures + 1 else failures;
     ac_cooldown_until :=
       if String.eqb class "ok" then None
       else if String.eqb class "blocked" then extend_cooldown (ac_cooldown_until a) at_ blockedCooldown
       else if String.eqb class "rate_limited_unknown" && (unknownRateLimitEscalation <=? failures + 1)
       then extend_cooldown (ac_cooldown_until a) at_ unknownRateLimitCooldown
       else ac_cooldown_until a;
     ac_excluded_models :=
       if String.eqb class "forbidden_capability" && negb (String.eqb model "")
          && negb (bool_decide (model ∈ ac_excluded_models a))
       then ac_excluded_models a ++ [model] else ac_excluded_models a;
     ac_provider := ac_provider a; ac_group := ac_group a; ac_capabilities := ac_capabilities a;
     ac_setup := ac_setup a; ac_quota := ac_quota a |}.

Definition applyReleaseAuthority (release : Release) : DB unit :=
  exec (λ t, Ok (set_accounts (alter (release_authority (rel_ErrorClass release)
    (rel_OccurredAt release) (rel_Model release)) (rel_AccountID release)) t)).

(** ** The PostgreSQL ledger (ledger.go) *)

(** INSERT INTO request_attempts ... ON CONFLICT (attempt_id) DO NOTHING. *)
Definition HandleAttemptStarted (event : AttemptStarted) : DB unit :=
  exec (λ t, Ok match request_attempts t !! as_AttemptID event with
    | Some _ => t
    | None => set_attempts <[as_AttemptID event := {| ra_request_id := as_RequestID event;
        ra_started_at := as_OccurredAt event; ra_deadline_at := as_DeadlineAt event;
        ra_terminal_event_id := None; ra_state := "open"; ra_reconciled_at := None;
        ra_account_id := as_AccountID event; ra_provider := as_Provider event;
        ra_model := as_Model event; ra_tenant_id := as_TenantID event |}]> t
    end).

(** The value of an INTEGER parameter. *)
Definition int4 (z : Z) : result db_error Z :=
  if (- 2 ^ 31 <=? z) && (z <? 2 ^ 31) then Ok z else Err ENumericOverflow.

Definition usage_of (release : Release) (tin tout cr cw status : Z) (seq : Z) : usage_row :=
  {| ul_id := seq; ul_event_id := rel_EventID release; ul_attempt_id := rel_AttemptID release;
     ul_request_id := rel_RequestID release; ul_tenant_id := rel_TenantID release;
     ul_account_id := rel_AccountID release; ul_provider := rel_Provider release;
     ul_model := rel_Model release; ul_status_code := status;
     ul_error_class := rel_ErrorClass release; ul_tokens_in := tin; ul_tokens_out := tout;
     ul_cache_read_tokens := cr; ul_cache_write_tokens := cw;
     ul_usage_source := rel_UsageSource release; ul_partial := rel_Partial release;
     ul_occurred_at := rel_OccurredAt release; ul_billing_state := "pending";
     ul_billed_amount := None; ul_billing_run_id := None |}.

Definition conflicts (release : Release) (r : usage_row) : bool :=
  String.eqb (ul_event_id r) (rel_EventID release)
  || String.eqb (ul_attempt_id r) (rel_AttemptID release).

(** INSERT INTO usage_ledger ... ON CONFLICT DO NOTHING; the result is
    RowsAffected() == 1.  Gaps of the id sequence are not modelled. *)
Definition insert_usage (release : Release) : DB bool :=
  stmt (λ t,
    tin ← int4 (rel_TokensIn release);
    tout ← int4 (rel_TokensOut release);
    cr ← int4 (rel_CacheReadTokens release);
    cw ← int4 (rel_CacheWriteTokens release);
    status ← int4 (rel_StatusCode release);
    if existsb (conflicts release) (usage_ledger t) then Ok (false, t)
    else Ok (true, set_seq (λ n, n + 1)
      (set_ledger (λ l, l ++ [usage_of release tin tout cr cw status (db_seq t)]) t))).

(** SELECT state FROM request_attempts WHERE attempt_id=$1 FOR UPDATE. *)
Definition lock_attempt (attemptID : string) : DB attempt_row :=
  query (λ t, match request_attempts t !! attemptID with
              | Some a => Ok a
              | None => Err EAttemptNotPersisted
              end).

Definition set_attempt_state (event : option string) (state : string) (reconciled : option time)
    (a : attempt_row) : attempt_row :=
  AttemptRow (ra_request_id a) (ra_started_at a) (ra_deadline_at a) event state reconciled
    (ra_account_id a) (ra_provider a) (ra_model a) (ra_tenant_id a).

(** request_attempts.terminal_event_id is UNIQUE. *)
Definition terminal_taken (eventID attemptID : string) (t : db) : bool :=
  bool_decide (∃ k, k ∈ dom (request_attempts t) ∧ k ≠ attemptID
                    ∧ (request_attempts t !! k ≫= ra_terminal_event_id) = Some eventID).

Definition terminate (eventID : string) (a : attempt_row) : attempt_row :=
  set_attempt_state (Some (default eventID (ra_terminal_event_id a)))
    (if String.eqb (ra_state a) "reconciled" then ra_state a else "terminal"%string)
    (ra_reconciled_at a) a.

Definition close_attempt (eventID attemptID : string) : DB unit :=
  exec (λ t, match request_attempts t !! attemptID with
    | None => Ok t
    | Some a =>
        if bool_decide (ra_terminal_event_id a = None) && terminal_taken eventID attemptID t
        then Err EUniqueViolation
        else Ok (set_attempts <[attemptID := terminate eventID a]> t)
    end).

(** The result says whether the release was the first one delivered, in which
    case the caller feeds the platform signals. *)
Definition release_body (release : Release) : DB bool :=
  _ ← lock_attempt (rel_AttemptID release);
  inserted ← insert_usage release;
  _ ← close_attempt (rel_EventID release) (rel_AttemptID release);
  _ ← (if inserted : bool then applyReleaseAuthority release else mret tt);
  mret inserted.

Definition HandleRelease (release : Release) : DB bool := transaction (release_body release).

(** The release the reconciler makes up for an expired attempt. *)
Definition synthetic_release (attemptID : string) (attemptNo : Z) (a : attempt_row) (now : time)
    : Release :=
  MkRelease SchemaVersion (TerminalEventID attemptID) (ra_request_id a) attemptID attemptNo
    "control-reconciler" now (ra_account_id a) (ra_provider a) 504 0 0 0 0 0 (ra_model a)
    (ra_tenant_id a) ErrorNetwork UsageSourceMissing true "".

Definition expired (before_ : time) (a : attempt_row) : bool :=
  String.eqb (ra_state a) "open" && before (ra_deadline_at a) before_.

Definition reconcile_attempt (eventID attemptID : string) : DB Z :=
  stmt (λ t, match request_attempts t !! attemptID with
    | Some a =>
        if negb (String.eqb (ra_state a) "open") then Ok (0, t)
        else if terminal_taken eventID attemptID t then Err EUniqueViolation
        else Ok (1, set_attempts <[attemptID := set_attempt_state (Some eventID) "reconciled"
                                     (Some (db_now t)) a]> t)
    | None => Ok (0, t)
    end).

Definition recover_one (now : time) (count : Z) (item : string * attempt_row) : DB Z :=
  let '(attemptID, a) := item in
  let release := synthetic_release attemptID 0 a now in
  _ ← insert_usage release;
  affected ← reconcile_attempt (rel_EventID release) attemptID;
  mret (count + affected).

(** FOR UPDATE SKIP LOCKED: [skip] are the attempts whose rows other transactions
    hold locked while this one selects. *)
Definition recover_body (skip : gset string) (before_ now : time) : DB Z :=
  candidates ← query (λ t, Ok (filter (λ kv, expired before_ kv.2 = true ∧ kv.1 ∉ skip)
                                 (map_to_list (request_attempts t))));
  foldM (recover_one now) 0 candidates.

(** [now] is [time.Now()], one reading for the batch where the loop reads it per
    row.  The age gauge read before the transaction is left out. *)
Definition RecoverAttempts (skip : gset string) (before_ now : time) : DB Z :=
  transaction (recover_body skip before_ now).

(** ** The in-memory model (state.go) *)

Inductive AttemptState := AttemptOpen | AttemptTerminal | AttemptReconciled.
#[export] Instance AttemptState_eq_dec : EqDecision AttemptState.
Proof. solve_decision. Defined.

Record AttemptRecord := {
  Started : AttemptStarted;
  State : AttemptState;
  Record_Release : option Release
}.

Record MemoryLedger := {
  attempts : gmap string AttemptRecord;
  events : gset string
}.

Definition NewMemoryLedger : MemoryLedger := {| attempts := ∅; events := ∅ |}.

Definition ApplyAttemptStarted (event : AttemptStarted) (m : MemoryLedger) : bool * MemoryLedger :=
  match attempts m !! as_AttemptID event with
  | Some _ => (false, m)
  | None => (true, {| attempts := <[as_AttemptID event := {| Started := event;
                        State := AttemptOpen; Record_Release := None |}]> (attempts m);
                      events := events m |})
  end.

Definition ApplyRelease (release : Release) (m : MemoryLedger) : bool * MemoryLedger :=
  if bool_decide (rel_EventID release ∈ events m) then (false, m)
  else match attempts m !! rel_AttemptID release with
  | Some record =>
      match Record_Release record with
      | Some _ => (false, m)
      | None => (true, {| attempts := <[rel_AttemptID release := {| Started := Started record;
                            State := AttemptTerminal; Record_Release := Some release |}]> (attempts m);
                          events := {[ rel_EventID release ]} ∪ events m |})
      end
  | None => (true, {| attempts := attempts m; events := {[ rel_EventID release ]} ∪ events m |})
  end.

Definition recovered_release (started : AttemptStarted) (now : time) : Release :=
  MkRelease SchemaVersion (TerminalEventID (as_AttemptID started)) (as_RequestID started)
    (as_AttemptID started) (as_AttemptNo started) "control-reconciler" now (as_AccountID started)
    (as_Provider started) 504 0 0 0 0 0 (as_Model started) (as_TenantID started) ErrorNetwork
    UsageSourceMissing true "".

(** One turn of the loop of [RecoverExpired] over the attempts. *)
Definition recover_record (now : time) (acc : MemoryLedger * list Release)
    (kv : string * AttemptRecord) : MemoryLedger * list Release :=
  let '(m, recovered) := acc in
  let '(key, record) := kv in
  if negb (bool_decide (State record = AttemptOpen)) || negb (before (as_DeadlineAt (Started record)) now)
  then acc
  else
  let release := recovered_release (Started record) now in
  if bool_decide (rel_EventID release ∈ events m) then
    ({| attempts := <[key := {| Started := Started record; State := AttemptReconciled;
          Record_Release := Record_Release record |}]> (attempts m);
        events := events m |}, recovered)
  else
    ({| attempts := <[key := {| Started := Started record; State := AttemptReconciled;
          Record_Release := Some release |}]> (attempts m);
        events := {[ rel_EventID release ]} ∪ events m |}, recovered ++ [release]).

Definition RecoverExpired (now : time) (m : MemoryLedger) : MemoryLedger * list Release :=
  foldl (recover_record now) (m, []) (map_to_list (attempts m)).

(** ** Platform signals (health.go) *)

Definition platformSignalWindow : duration := 60 * second.
Definition platformSignalAccounts : Z := 2.

Record platformEvent := {
  at_ : time;
  event_accountID : string;
  event_class : string
}.

Record PlatformSignals := {
  Window : duration;
  Threshold : Z;
  signal_events : gmap string (list platformEvent)
}.

Definition NewPlatformSignals : PlatformSignals :=
  {| Window := platformSignalWindow; Threshold := platformSignalAccounts; signal_events := ∅ |}.

Definition signal_window (p : PlatformSignals) : duration :=
  if Window p <=? 0 then platformSignalWindow else Window p.
Definition signal_threshold (p : PlatformSignals) : Z :=
  if Threshold p <=? 0 then platformSignalAccounts else Threshold p.

Definition in_window (window : duration) (now : time) (e : platformEvent) : bool :=
  time_sub now (at_ e) <? window.

Definition distinct_accounts (l : list platformEvent) : Z :=
  Z.of_nat (length (remove_dups (event_accountID <$> l))).

(** The gauges and counters [Observe] publishes are left out. *)
Definition Observe (release : Release) (now : time) (p : PlatformSignals) : bool * PlatformSignals :=
  let class := rel_ErrorClass release in
  if negb (String.eqb class ErrorForbiddenTransport) && negb (String.eqb class ErrorBlocked)
     && negb (String.eqb class ErrorUpstream5xx) then (false, p)
  else if String.eqb class ErrorUpstream5xx then (false, p)
  else
  let kept := filter (λ e, in_window (signal_window p) now e = true)
                (default [] (signal_events p !! rel_Provider release)) in
  let kept := kept ++ [{| at_ := now; event_accountID := rel_AccountID release;
                          event_class := class |}] in
  (signal_threshold p <=? distinct_accounts kept,
   {| Window := Window p; Threshold := Threshold p;
      signal_events := <[rel_Provider release := kept]> (signal_events p) |}).

Definition Alerting (now : time) (p : PlatformSignals) : list string :=
  sort_strings (fst <$> filter (λ kv, (signal_threshold p <=?
    distinct_accounts (filter (λ e, in_window (signal_window p) now e = true) kv.2)) = true)
    (map_to_list (signal_events p))).

(** ** The starvation guard (health.go) *)

Definition cooling (now : time) (a : account_row) : bool :=
  match ac_cooldown_until a with Some until => now <? until | None => false end.

Definition active_on (platform : string) (a : account_row) : bool :=
  String.eqb (ac_status a) "active" && String.eqb (ac_platform a) platform.

Definition active_accounts (platform : string) (t : db) : list (string * account_row) :=
  filter (λ kv, active_on platform kv.2 = true) (map_to_list (account_rows t)).

Definition cooling_accounts (platform : string) (now : time) (t : db) : list (string * account_row) :=
  filter (λ kv, cooling now kv.2 = true) (active_accounts platform t).

(** cooling::float / total::float > 0.5, decided on the integers. *)
Definition starved (now : time) (t : db) (platform : string) : bool :=
  (length (active_accounts platform t) <? 2 * length (cooling_accounts platform now t))%nat.

(** DISTINCT ON (platform) ... ORDER BY platform, cooldown_until: the cooling
    account whose cooldown ends first. *)
Definition first_cooldown (l : list (string * account_row)) : option (string * account_row) :=
  foldr (λ x best, match best with
    | Some b => if default 0 (ac_cooldown_until b.2) <? default 0 (ac_cooldown_until x.2)
                then best else Some x
    | None => Some x
    end) None l.

Definition lift_cooldown (a : account_row) : account_row :=
  {| ac_status := ac_status a; ac_fence_epoch := ac_fence_epoch a; ac_platform := ac_platform a;
     ac_last_error_class := ac_last_error_class a; ac_last_error_at := ac_last_error_at a;
     ac_consecutive_failures := 0; ac_cooldown_until := None;
     ac_excluded_models := ac_excluded_models a;
     ac_provider := ac_provider a; ac_group := ac_group a; ac_capabilities := ac_capabilities a;
     ac_setup := ac_setup a; ac_quota := ac_quota a |}.

Definition is_victim (now : time) (t : db) (id : string) (a : account_row) : bool :=
  starved now t (ac_platform a)
  && bool_decide ((fst <$> first_cooldown (cooling_accounts (ac_platform a) now t)) = Some id).

Definition ReleaseStarvedCooldowns (now : time) : DB (list string) :=
  stmt (λ t, Ok
    (sort_strings ((λ kv, ac_platform kv.2) <$>
       filter (λ kv, is_victim now t kv.1 kv.2 = true) (map_to_list (account_rows t))),
     set_accounts (map_imap (λ id a, Some (if is_victim now t id a then lift_cooldown a else a))) t)).
