(* ===== verification/LedgerFacts.v ===== *)
(** * The usage ledger: exactly-once metering

    Proofs about Ledger.v.  Every attempt that is persisted is metered by
    exactly one ledger row: the first release delivered, or the reconciler's
    synthetic one; duplicates and reordering change nothing.  [MemoryLedger]
    is related to the PostgreSQL ledger by a simulation on the attempts that
    are persisted, and shown to differ from it on the others. *)

From S2P Require Import Prelude Contracts Numeric Db Ledger Money Billing BillingFacts MoneyInvariant.

Open Scope Z_scope.

(** Attempts named by [P]: on the names in use SHA-256 does not collide. *)
Definition collision_free (P : string → Prop) : Prop :=
  ∀ a b, P a → P b → TerminalEventID a = TerminalEventID b → a = b.

(** What the ledger and the attempts table satisfy together. *)
Record ledger_ok (P : string → Prop) (t : db) : Prop := {
  lo_names : ∀ k a, request_attempts t !! k = Some a → P k;
  lo_unique : NoDup (ul_attempt_id <$> usage_ledger t);
  lo_event : ∀ r, r ∈ usage_ledger t → ul_event_id r = TerminalEventID (ul_attempt_id r);
  lo_closed : ∀ r, r ∈ usage_ledger t →
    ∃ a, request_attempts t !! ul_attempt_id r = Some a ∧ ra_state a ≠ "open"%string;
  lo_row : ∀ k a, request_attempts t !! k = Some a → ra_state a ≠ "open"%string →
    ∃ r, r ∈ usage_ledger t ∧ ul_attempt_id r = k;
  lo_terminal : ∀ k a, request_attempts t !! k = Some a →
    ra_terminal_event_id a =
      (if String.eqb (ra_state a) "open" then None else Some (TerminalEventID k))
    ∧ (ra_state a = "open" ∨ ra_state a = "terminal" ∨ ra_state a = "reconciled")%string
}.

Section ledger.
  Context (P : string → Prop) (HP : collision_free P).

Definition derived (release : Release) : Prop :=
  rel_EventID release = TerminalEventID (rel_AttemptID release).

(** A row conflicts with a derived release exactly when it is the row of the
    same attempt. *)
Lemma conflicts_iff t release a :
  ledger_ok P t → derived release → request_attempts t !! rel_AttemptID release = Some a →
  existsb (conflicts release) (usage_ledger t) = negb (String.eqb (ra_state a) "open").
Proof using HP.
  intros Ht Hd Ha. destruct (String.eqb_spec (ra_state a) "open") as [Ho|Ho]; cbn.
  - apply not_true_iff_false. intros (r & Hr & Hc)%existsb_Exists.
    destruct (lo_closed _ _ Ht r Hr) as (b & Hb & Hs).
    assert (ul_attempt_id r = rel_AttemptID release) as E.
    { unfold conflicts in Hc. apply orb_true_iff in Hc as [Hc|Hc]; apply String.eqb_eq in Hc; [|done].
      rewrite Hd, (lo_event _ _ Ht r Hr) in Hc.
      apply HP; [eapply lo_names; eauto..|done]. }
    rewrite E in Hb. congruence.
  - apply existsb_Exists. destruct (lo_row _ _ Ht _ _ Ha Ho) as (r & Hr & E).
    exists r. split; [done|]. unfold conflicts. by rewrite E, String.eqb_refl, orb_true_r.
Qed.

Lemma terminal_free t k a :
  ledger_ok P t → request_attempts t !! k = Some a → ra_state a = "open"%string →
  terminal_taken (TerminalEventID k) k t = false.
Proof using HP.
  intros Ht Ha Ho. apply bool_decide_eq_false. intros (k' & Hk' & Hne & Hev).
  apply elem_of_dom in Hk' as [b Hb]. rewrite Hb in Hev. cbn in Hev.
  destruct (lo_terminal _ _ Ht _ _ Hb) as [Hterm _]. rewrite Hterm in Hev.
  destruct (String.eqb _ _); [done|]. simplify_eq. apply Hne.
  apply HP; [eapply lo_names; eauto..|done].
Qed.

(** The tables after an open attempt is closed by [release]. *)
Definition metered (release : Release) (row : usage_row) (closed : attempt_row) (t : db) : db :=
  set_attempts <[rel_AttemptID release := closed]>
    (set_seq (λ n, n + 1) (set_ledger (λ l, l ++ [row]) t)).

Definition closes (k : string) (a closed : attempt_row) : Prop :=
  ra_state a = "open"%string ∧ ra_terminal_event_id closed = Some (TerminalEventID k) ∧
  (ra_state closed = "terminal" ∨ ra_state closed = "reconciled")%string.

Lemma metered_ok t release row a closed :
  ledger_ok P t → derived release → request_attempts t !! rel_AttemptID release = Some a →
  closes (rel_AttemptID release) a closed →
  ul_attempt_id row = rel_AttemptID release → ul_event_id row = rel_EventID release →
  ledger_ok P (metered release row closed t).
Proof using HP.
  intros Ht Hd Ha (Ho & Hte & Hst) Hra Hre.
  set (k := rel_AttemptID release) in *.
  assert (ra_state closed ≠ "open"%string) as Hno by (destruct Hst as [->| ->]; done).
  assert (∀ r, r ∈ usage_ledger t → ul_attempt_id r ≠ k) as Hfresh.
  { intros r Hr E. destruct (lo_closed _ _ Ht r Hr) as (b & Hb & Hs). rewrite E in Hb. congruence. }
  split; cbn.
  - intros k' b. destruct (decide (k = k')) as [<-|Hne].
    + intros _. by eapply lo_names.
    + rewrite lookup_insert_ne by done. by apply (lo_names _ _ Ht).
  - rewrite fmap_app. apply list.NoDup_app. split_and!; [apply Ht| |apply NoDup_singleton].
    intros x (r & -> & Hr)%list_elem_of_fmap Hx%list_elem_of_singleton.
    by apply (Hfresh r Hr); rewrite Hx.
  - intros r [Hr| ->%list_elem_of_singleton]%elem_of_app; [by apply (lo_event _ _ Ht)|].
    by rewrite Hra, Hre.
  - intros r [Hr| ->%list_elem_of_singleton]%elem_of_app.
    + rewrite lookup_insert_ne by (intros E; by apply (Hfresh r Hr)). by apply (lo_closed _ _ Ht).
    + rewrite Hra, lookup_insert_eq. eauto.
  - intros k' b. destruct (decide (k = k')) as [<-|Hne].
    + intros _ _. exists row. rewrite elem_of_app, list_elem_of_singleton. auto.
    + rewrite lookup_insert_ne by done. intros Hb Hs.
      destruct (lo_row _ _ Ht _ _ Hb Hs) as (r & Hr & ?). exists r. rewrite elem_of_app. auto.
  - intros k' b. destruct (decide (k = k')) as [<-|Hne].
    + rewrite lookup_insert_eq. intros [= <-].
      rewrite (proj2 (String.eqb_neq _ _) Hno). split; [done|]. auto.
    + rewrite lookup_insert_ne by done. by apply (lo_terminal _ _ Ht).
Qed.

Lemma ledger_ok_accounts t f : ledger_ok P t → ledger_ok P (set_accounts f t).
Proof using Type. by intros []; split. Qed.

(** ** One release *)

Definition usage_row_of (release : Release) (seq : Z) : usage_row :=
  usage_of release (rel_TokensIn release) (rel_TokensOut release) (rel_CacheReadTokens release)
    (rel_CacheWriteTokens release) (rel_StatusCode release) seq.

Lemma int4_Ok z v : int4 z = Ok v → v = z.
Proof using Type. unfold int4. destruct (_ && _); [by intros [= <-]|done]. Qed.

Lemma insert_usage_wp t release a :
  ledger_ok P t → derived release → request_attempts t !! rel_AttemptID release = Some a →
  wp (insert_usage release) (λ inserted t',
    if inserted then ra_state a = "open"%string ∧
      t' = set_seq (λ n, n + 1) (set_ledger (λ l, l ++ [usage_row_of release (db_seq t)]) t)
    else ra_state a ≠ "open"%string ∧ t' = t) t.
Proof using HP.
  intros Ht Hd Ha. unfold insert_usage. wp_step. inv_result.
  repeat match goal with H : int4 _ = Ok _ |- _ => apply int4_Ok in H; subst end.
  rewrite (conflicts_iff t release a Ht Hd Ha) in *.
  destruct (String.eqb_spec (ra_state a) "open"); cbn in *; by simplify_eq.
Qed.

Lemma terminate_closed t k a :
  ledger_ok P t → request_attempts t !! k = Some a → ra_state a ≠ "open"%string →
  terminate (TerminalEventID k) a = a.
Proof using Type.
  intros Ht Ha Hs. destruct (lo_terminal _ _ Ht _ _ Ha) as [Hte Hst].
  rewrite (proj2 (String.eqb_neq _ _) Hs) in Hte. unfold terminate, set_attempt_state.
  destruct a as [rq sa da te st ra ac pr mo tn]. cbn in *. subst te. cbn.
  destruct Hst as [->|[->| ->]]; done.
Qed.

Lemma set_attempts_same t k a :
  request_attempts t !! k = Some a → set_attempts <[k := a]> t = t.
Proof using Type. intros Ha. unfold set_attempts. rewrite insert_id by done. by destruct t. Qed.

(** The tables after the first release of an open attempt. *)
Definition released (release : Release) (a : attempt_row) (t : db) : db :=
  set_accounts (alter (release_authority (rel_ErrorClass release) (rel_OccurredAt release)
                         (rel_Model release)) (rel_AccountID release))
    (metered release (usage_row_of release (db_seq t)) (terminate (rel_EventID release) a) t).

(** The contract of [HandleRelease]: the first release of a persisted attempt
    is metered; any later one changes nothing at all. *)
Definition meters (release : Release) (first : bool) (t t' : db) : Prop :=
  ∃ a, request_attempts t !! rel_AttemptID release = Some a ∧
    if first then ra_state a = "open"%string ∧ t' = released release a t
    else ra_state a ≠ "open"%string ∧ t' = t.

Lemma release_body_wp t release :
  ledger_ok P t → derived release →
  wp (release_body release) (λ first t', meters release first t t') t.
Proof using HP.
  intros Ht Hd. unfold release_body, lock_attempt. do 2 wp_step.
  destruct (request_attempts t !! rel_AttemptID release) as [b|] eqn:Ha; [|done].
  assert (b = a) as -> by congruence. wp_step. eapply wp_mono; [|by eapply insert_usage_wp].
  intros inserted t1 H1. unfold close_attempt. wp_step. apply wp_exec. intros t2 H2.
  assert (request_attempts t1 !! rel_AttemptID release = Some a) as Ha1
    by (destruct inserted, H1 as [_ ->]; done).
  rewrite Ha1 in H2. destruct (_ && _) in H2; [done|]. simplify_eq. wp_step.
  destruct inserted; destruct H1 as [Hs ->].
  - unfold applyReleaseAuthority. wp_step. simplify_eq. wp_step. exists a. done.
  - wp_step. wp_step. exists a. split; [done|]. split; [done|].
    rewrite Hd, (terminate_closed t _ a Ht Ha Hs). by apply set_attempts_same.
Qed.

Lemma terminate_closes t k a :
  ledger_ok P t → request_attempts t !! k = Some a → ra_state a = "open"%string →
  closes k a (terminate (TerminalEventID k) a).
Proof using Type.
  intros Ht Ha Ho. destruct (lo_terminal _ _ Ht _ _ Ha) as [Hte _].
  rewrite Ho in Hte. cbn in Hte. unfold closes, terminate, set_attempt_state. cbn.
  rewrite Hte, Ho. cbn. auto.
Qed.

Lemma meters_ok release first t t' :
  ledger_ok P t → derived release → meters release first t t' → ledger_ok P t'.
Proof using HP.
  intros Ht Hd (a & Ha & H). destruct first; destruct H as [Hs ->]; [|done].
  apply ledger_ok_accounts, (metered_ok t release _ a); [done..| |done|done].
  rewrite Hd. by eapply terminate_closes.
Qed.

Lemma HandleRelease_contract release w :
  ledger_ok P (tables w) → derived release →
  let '(r, w') := HandleRelease release w in
  (tables w' = tables w ∧ ∃ e, r = Err e) ∨
  ∃ first, meters release first (tables w) (tables w') ∧ (r = Ok first ∨ r = Err EIO).
Proof using HP.
  intros Ht Hd. pose proof (transaction_spec _ _ w (release_body_wp _ _ Ht Hd)) as H.
  unfold HandleRelease. by destruct (transaction _ w) as [r w'].
Qed.

(** ** Recovery *)

Lemma recover_one_wp t now count k a a0 :
  ledger_ok P t → request_attempts t !! k = Some a →
  wp (recover_one now count (k, a0)) (λ count' t',
    if String.eqb (ra_state a) "open" then count' = count + 1 ∧
      ∃ closed, closes k a closed ∧ ra_state closed = "reconciled"%string ∧
      let release := synthetic_release k 0 a0 now in
      t' = metered release (usage_row_of release (db_seq t)) closed t
    else count' = count ∧ t' = t) t.
Proof using HP.
  intros Ht Ha. unfold recover_one. wp_step.
  eapply wp_mono; [|by eapply (insert_usage_wp t (synthetic_release k 0 a0 now) a)].
  intros inserted t1 H1. unfold reconcile_attempt. do 2 wp_step.
  assert (request_attempts t1 !! k = Some a) as Ha1 by (destruct inserted, H1 as [_ ->]; done).
  rewrite Ha1 in *. wp_step. cbn [rel_EventID synthetic_release] in *.
  destruct inserted; destruct H1 as [Hs ->].
  - rewrite Hs in *. cbn in H. case_match; [done|]. simplify_eq. split; [lia|].
    exists (set_attempt_state (Some (TerminalEventID k)) "reconciled" (Some (db_now t)) a).
    split; [|done]. split; [done|]. split; [done|]. by right.
  - rewrite (proj2 (String.eqb_neq _ _) Hs) in *. cbn in H. simplify_eq. split; [lia|done].
Qed.

Definition candidates (skip : gset string) (before_ : time) (t : db) : list (string * attempt_row) :=
  filter (λ kv, expired before_ kv.2 = true ∧ kv.1 ∉ skip) (map_to_list (request_attempts t)).

Lemma elem_candidates skip before_ t k a :
  (k, a) ∈ candidates skip before_ t ↔
  request_attempts t !! k = Some a ∧ expired before_ a = true ∧ (k ∉ skip).
Proof using Type.
  unfold candidates. rewrite list_elem_of_filter, elem_of_map_to_list. cbn. tauto.
Qed.

Lemma candidates_nodup skip before_ t : NoDup ((candidates skip before_ t).*1).
Proof using Type.
  unfold candidates. eapply sublist_NoDup; [apply (NoDup_fst_map_to_list (request_attempts t))|].
  apply fmap_sublist, sublist_filter.
Qed.

(** A row of a recovered attempt: a network failure nobody measured. *)
Definition recovered_row (now : time) (r : usage_row) : Prop :=
  ul_status_code r = 504 ∧ ul_error_class r = ErrorNetwork ∧ ul_usage_source r = UsageSourceMissing ∧
  ul_partial r = true ∧ ul_occurred_at r = now ∧ ul_billing_state r = "pending"%string ∧
  ul_tokens_in r = 0 ∧ ul_tokens_out r = 0 ∧ ul_cache_read_tokens r = 0 ∧
  ul_cache_write_tokens r = 0.

(** What holds after the attempts [seen] of the snapshot [t0] are recovered. *)
Record recovering (now : time) (t0 : db) (seen : list (string * attempt_row)) (count : Z) (t : db)
    : Prop := {
  rc_ok : ledger_ok P t;
  rc_count : count = Z.of_nat (length seen);
  rc_others : ∀ k, k ∉ seen.*1 → request_attempts t !! k = request_attempts t0 !! k;
  rc_seen : ∀ k, k ∈ seen.*1 → ∃ a, request_attempts t !! k = Some a
                                     ∧ ra_state a = "reconciled"%string;
  rc_rows : ∃ rows, usage_ledger t = usage_ledger t0 ++ rows ∧ ul_attempt_id <$> rows = seen.*1 ∧
    Forall (recovered_row now) rows
}.

Lemma recovering_step skip now before_ t0 seen k a rest count t :
  candidates skip before_ t0 = seen ++ (k, a) :: rest →
  recovering now t0 seen count t →
  wp (recover_one now count (k, a)) (recovering now t0 (seen ++ [(k, a)])) t.
Proof using HP.
  intros Hc [Hok Hcount Hothers Hseen (rows & Hrows & Hids & Hall)].
  assert (request_attempts t0 !! k = Some a ∧ expired before_ a = true) as [Ha0 Hexp].
  { enough (request_attempts t0 !! k = Some a ∧ expired before_ a = true ∧ (k ∉ skip)) by tauto.
    apply elem_candidates. rewrite Hc, elem_of_app. right. apply list_elem_of_here. }
  assert (k ∉ seen.*1) as Hk.
  { pose proof (candidates_nodup skip before_ t0) as Hnd. rewrite Hc, fmap_app in Hnd.
    apply list.NoDup_app in Hnd as (_ & Hnd & _). intros Hin. apply (Hnd k Hin).
    cbn. apply list_elem_of_here. }
  pose proof (Hothers k Hk) as Ha. rewrite Ha0 in Ha.
  unfold expired in Hexp. apply andb_true_iff in Hexp as [Ho%String.eqb_eq _].
  eapply wp_mono; [|by apply (recover_one_wp t now count k a a)].
  intros count' t'. rewrite Ho. cbn [String.eqb Ascii.eqb Bool.eqb].
  intros [-> (closed & Hcl & Hst & ->)]. cbn. split.
  - by eapply (metered_ok t (synthetic_release k 0 a now)).
  - rewrite length_app. cbn. lia.
  - intros k'. rewrite fmap_app, elem_of_app. change ([(k, a)].*1) with [k].
    rewrite list_elem_of_singleton. intros Hk'. cbn.
    rewrite lookup_insert_ne by (intros ->; tauto). apply Hothers. tauto.
  - intros k'. rewrite fmap_app, elem_of_app. change ([(k, a)].*1) with [k].
    rewrite list_elem_of_singleton. intros Hk'. cbn.
    destruct (decide (k = k')) as [<-|Hne].
    + rewrite lookup_insert_eq. eauto.
    + rewrite lookup_insert_ne by done. apply Hseen. destruct Hk'; [done|congruence].
  - exists (rows ++ [usage_row_of (synthetic_release k 0 a now) (db_seq t)]). cbn.
    rewrite Hrows, <-app_assoc, !fmap_app, Hids. split_and!; [done..|].
    apply Forall_app. split; [done|]. by apply Forall_singleton.
Qed.

Lemma recover_body_wp skip before_ now t :
  ledger_ok P t →
  wp (recover_body skip before_ now) (recovering now t (candidates skip before_ t)) t.
Proof using HP.
  intros Ht. unfold recover_body. do 2 wp_step. simplify_eq.
  change (filter _ _) with (candidates skip before_ t).
  apply (wp_foldM (recover_one now) (recovering now t)).
  - split; [done..| | |].
    + done.
    + intros k Hk. by apply elem_of_nil in Hk.
    + exists []. by rewrite app_nil_r.
  - intros seen [k a] rest count t' Hc Hr. by eapply recovering_step.
Qed.

Lemma RecoverAttempts_contract skip before_ now w :
  ledger_ok P (tables w) →
  let '(r, w') := RecoverAttempts skip before_ now w in
  (tables w' = tables w ∧ ∃ e, r = Err e) ∨
  ∃ count, recovering now (tables w) (candidates skip before_ (tables w)) count (tables w')
           ∧ (r = Ok count ∨ r = Err EIO).
Proof using HP.
  intros Ht. pose proof (transaction_spec _ _ w (recover_body_wp skip before_ now _ Ht)) as H.
  unfold RecoverAttempts. by destruct (transaction _ w) as [r w'].
Qed.

(** ** A new attempt *)

Lemma HandleAttemptStarted_ok event t t' :
  P (as_AttemptID event) → ledger_ok P t →
  (request_attempts t !! as_AttemptID event = None →
   t' = set_attempts <[as_AttemptID event := {| ra_request_id := as_RequestID event;
        ra_started_at := as_OccurredAt event; ra_deadline_at := as_DeadlineAt event;
        ra_terminal_event_id := None; ra_state := "open"; ra_reconciled_at := None;
        ra_account_id := as_AccountID event; ra_provider := as_Provider event;
        ra_model := as_Model event; ra_tenant_id := as_TenantID event |}]> t) →
  (is_Some (request_attempts t !! as_AttemptID event) → t' = t) →
  ledger_ok P t'.
Proof using Type.
  intros Hp Ht Hnew Hold. destruct (request_attempts t !! as_AttemptID event) as [a|] eqn:Ha.
  { by rewrite Hold. }
  rewrite Hnew by done. clear Hnew Hold. set (k := as_AttemptID event) in *.
  destruct Ht as [H1 H2 H3 H4 H5 H6]. split; cbn; try done.
  - intros k' b. destruct (decide (k = k')) as [<-|Hne]; [done|].
    rewrite lookup_insert_ne by done. apply H1.
  - intros r Hr. destruct (H4 r Hr) as (b & Hb & Hs). exists b. split; [|done].
    rewrite lookup_insert_ne by congruence. done.
  - intros k' b. destruct (decide (k = k')) as [<-|Hne].
    + rewrite lookup_insert_eq. by intros [= <-].
    + rewrite lookup_insert_ne by done. apply H5.
  - intros k' b. destruct (decide (k = k')) as [<-|Hne].
    + rewrite lookup_insert_eq. intros [= <-]. cbn. auto.
    + rewrite lookup_insert_ne by done. apply H6.
Qed.
End ledger.

(** ** The in-memory ledger simulates the PostgreSQL one *)

Definition phase (a : attempt_row) : AttemptState :=
  if String.eqb (ra_state a) "open" then AttemptOpen
  else if String.eqb (ra_state a) "terminal" then AttemptTerminal else AttemptReconciled.

(** The two ledgers agree on the attempts, their states and the events seen. *)
Record simulates (t : db) (m : MemoryLedger) : Prop := {
  sim_states : State <$> attempts m = phase <$> request_attempts t;
  sim_events : ∀ e, e ∈ events m ↔ e ∈ ul_event_id <$> usage_ledger t;
  sim_records : ∀ k record, attempts m !! k = Some record →
    as_AttemptID (Started record) = k ∧
    (Record_Release record = None ↔ State record = AttemptOpen) ∧
    ∀ a, request_attempts t !! k = Some a → as_DeadlineAt (Started record) = ra_deadline_at a
}.

Lemma simulates_lookup t m k a :
  simulates t m → request_attempts t !! k = Some a →
  ∃ record, attempts m !! k = Some record ∧ State record = phase a.
Proof.
  intros Hs Ha. pose proof (f_equal (λ x, x !! k) (sim_states _ _ Hs)) as E. cbn in E.
  rewrite !lookup_fmap, Ha in E. cbn in E.
  destruct (attempts m !! k) as [record|]; [|done]. cbn in E. simplify_eq. eauto.
Qed.

Lemma phase_open a : phase a = AttemptOpen ↔ ra_state a = "open"%string.
Proof.
  unfold phase. destruct (String.eqb_spec (ra_state a) "open"); [done|].
  destruct (String.eqb _ _); done.
Qed.

Lemma simulates_accounts t m f : simulates t m → simulates (set_accounts f t) m.
Proof. by intros []; split. Qed.

(** Closing an open attempt in both. *)
Lemma simulates_metered t m release row a closed record st rel :
  simulates t m → request_attempts t !! rel_AttemptID release = Some a →
  attempts m !! rel_AttemptID release = Some record →
  ul_event_id row = rel_EventID release → phase closed = st → st ≠ AttemptOpen →
  ra_deadline_at closed = ra_deadline_at a →
  simulates (metered release row closed t)
    {| attempts := <[rel_AttemptID release := {| Started := Started record; State := st;
                       Record_Release := Some rel |}]> (attempts m);
       events := {[ rel_EventID release ]} ∪ events m |}.
Proof.
  intros Hs Ha Hrec He <- Hno Hdl. split; cbn.
  - rewrite !fmap_insert. cbn. by rewrite (sim_states _ _ Hs).
  - intros e. rewrite elem_of_union, elem_of_singleton, (sim_events _ _ Hs), fmap_app, elem_of_app.
    cbn. rewrite list_elem_of_singleton, He. tauto.
  - intros k record'. destruct (decide (rel_AttemptID release = k)) as [<-|Hne].
    + rewrite lookup_insert_eq. intros [= <-]. cbn.
      destruct (sim_records _ _ Hs _ _ Hrec) as (Hid & _ & Hd). split_and!; [done| |].
      * split; [done|]. intros E. by destruct Hno.
      * intros a'. rewrite lookup_insert_eq. intros [= <-]. rewrite Hdl. by apply Hd.
    + rewrite lookup_insert_ne by done. intros Hr.
      destruct (sim_records _ _ Hs _ _ Hr) as (Hid & Hrel & Hd). split_and!; [done..|].
      intros a'. rewrite lookup_insert_ne by done. apply Hd.
Qed.

Section simulation.
  Context (P : string → Prop) (HP : collision_free P).

(** A derived event was seen exactly when its attempt is closed. *)
Lemma seen_iff t m release a :
  ledger_ok P t → simulates t m → derived release →
  request_attempts t !! rel_AttemptID release = Some a →
  rel_EventID release ∈ events m ↔ ra_state a ≠ "open"%string.
Proof using HP.
  intros Ht Hs Hd Ha. rewrite (sim_events _ _ Hs), list_elem_of_fmap. split.
  - intros (r & E & Hr). destruct (lo_closed _ _ Ht r Hr) as (b & Hb & Hst).
    assert (rel_AttemptID release = ul_attempt_id r) as E'.
    { rewrite Hd, (lo_event _ _ Ht r Hr) in E. apply HP; [eapply lo_names; eauto..|done]. }
    rewrite E' in Ha. congruence.
  - intros Hst. destruct (lo_row _ _ Ht _ _ Ha Hst) as (r & Hr & E). exists r. split; [|done].
    by rewrite (lo_event _ _ Ht r Hr), E, Hd.
Qed.

Lemma ApplyRelease_simulates t t' m release first :
  ledger_ok P t → simulates t m → derived release → meters release first t t' →
  ∃ m', ApplyRelease release m = (first, m') ∧ simulates t' m'.
Proof using HP.
  intros Ht Hs Hd (a & Ha & H). destruct (simulates_lookup _ _ _ _ Hs Ha) as (record & Hrec & Hst).
  pose proof (seen_iff t m release a Ht Hs Hd Ha) as Hseen. unfold ApplyRelease.
  destruct first; destruct H as [Ho ->].
  - rewrite bool_decide_eq_false_2 by tauto. rewrite Hrec.
    destruct (sim_records _ _ Hs _ _ Hrec) as (_ & Hrel & _).
    rewrite (proj2 Hrel) by (rewrite Hst; by apply phase_open).
    eexists. split; [done|]. apply simulates_accounts.
    apply (simulates_metered _ _ _ _ a); try done.
    destruct (lo_terminal _ _ Ht _ _ Ha) as [Hte _]. unfold phase, terminate, set_attempt_state. cbn.
    rewrite Ho. cbn. done.
  - rewrite bool_decide_eq_true_2 by tauto. by exists m.
Qed.
End simulation.

(** On a release whose attempt is not persisted the two differ: PostgreSQL
    refuses it, the memory ledger takes it. *)
Lemma ApplyRelease_unknown release m :
  rel_EventID release ∉ events m → attempts m !! rel_AttemptID release = None →
  (ApplyRelease release m).1 = true.
Proof. intros He Ha. unfold ApplyRelease. by rewrite bool_decide_eq_false_2, Ha. Qed.

Lemma HandleRelease_unknown release t :
  request_attempts t !! rel_AttemptID release = None →
  HandleRelease release (World t []) = (Err EAttemptNotPersisted, World t []).
Proof.
  intros Ha. unfold HandleRelease, transaction, transaction_if, release_body, lock_attempt, query, stmt.
  cbn. unfold mbind, DB_bind. cbn. by rewrite Ha.
Qed.

(** ** The properties *)

Definition one_attempt : AttemptStarted :=
  MkAttemptStarted SchemaVersion "s" "r" "a1" 1 "gw" 100 "acct" "openai" "gpt" "t1" 200.

Definition one_release (tokens : Z) : Release :=
  MkRelease SchemaVersion (TerminalEventID "a1") "r" "a1" 1 "gw" 150 "acct" "openai" 200 20 tokens 7 0 0
    "gpt" "t1" ErrorOK UsageSourceUpstream false "".

Lemma one_release_derived tokens : derived (one_release tokens).
Proof. unfold derived, one_release. cbn [rel_EventID rel_AttemptID]. done. Qed.

Definition only_a1 (k : string) : Prop := k = "a1"%string.

Lemma only_a1_free : collision_free only_a1.
Proof. intros a b -> ->. done. Qed.

Definition started_db : db :=
  tables (HandleAttemptStarted one_attempt (World (empty_db ∅ 100) [])).2.

Lemma started_ok : ledger_ok only_a1 started_db.
Proof.
  apply (HandleAttemptStarted_ok only_a1 one_attempt (empty_db ∅ 100)).
  - done.
  - split; cbn; try done; try (intros ? H; by apply elem_of_nil in H); [..|constructor].
    all: intros k a; by rewrite lookup_empty.
  - intros _. reflexivity.
  - intros [? H]. cbn in H. by rewrite lookup_empty in H.
Qed.

(** C11 Metering is exactly-once under redelivery: on a persisted attempt a valid
    release either is the first -- one pending ledger row with its tokens is
    appended, the attempt is closed and the account's state is updated, in one
    transaction -- or the attempt is already closed and nothing changes at all;
    any fault leaves the tables as they were or commits the whole. *)
Theorem HandleRelease_meters_once P release w :
  collision_free P → ledger_ok P (tables w) → derived release →
  let '(r, w') := HandleRelease release w in
  (tables w' = tables w ∧ ∃ e, r = Err e) ∨
  ∃ first, meters release first (tables w) (tables w') ∧ (r = Ok first ∨ r = Err EIO).
Proof. intros HP. by apply HandleRelease_contract. Qed.

Lemma HandleRelease_meters_once_witness :
  let '(r, w') := HandleRelease (one_release 10) (World started_db []) in
  (tables w' = started_db ∧ ∃ e, r = Err e) ∨
  ∃ first, meters (one_release 10) first started_db (tables w') ∧ (r = Ok first ∨ r = Err EIO).
Proof.
  apply (HandleRelease_meters_once only_a1 (one_release 10) (World started_db []));
    [apply only_a1_free|apply started_ok|apply one_release_derived].
Defined.

(** The order of competing terminal events does not matter to the count: once
    a release of an attempt is metered, every later valid release of it --
    duplicate, late, or contradicting -- leaves the tables exactly as they are. *)
Theorem later_release_ignored P release t t' later fs :
  collision_free P → ledger_ok P t → derived release → meters release true t t' →
  derived later → rel_AttemptID later = rel_AttemptID release →
  tables (HandleRelease later (World t' fs)).2 = t'.
Proof.
  intros HP Ht Hd Hm Hdl Ha. pose proof (meters_ok P HP _ _ _ _ Ht Hd Hm) as Ht'.
  pose proof (HandleRelease_contract P HP later (World t' fs) Ht' Hdl) as H.
  destruct (HandleRelease later (World t' fs)) as [r w']. cbn in *.
  destruct H as [[H _]|(first & (a & Hla & H) & _)]; [done|].
  destruct first; destruct H as [Ho E]; [|done]. exfalso.
  destruct Hm as (a0 & Ha0 & Ho0 & ->). rewrite Ha in Hla. unfold released in Hla. cbn in Hla.
  rewrite lookup_insert_eq in Hla. simplify_eq.
  destruct (lo_terminal _ _ Ht _ _ Ha0) as [Hte _]. unfold terminate, set_attempt_state in Ho.
  cbn in Ho. by rewrite Ho0 in Ho.
Qed.

Definition metered_db : db := tables (HandleRelease (one_release 10) (World started_db [])).2.

Lemma metered_db_meters : meters (one_release 10) true started_db metered_db.
Proof.
  pose proof (HandleRelease_contract only_a1 only_a1_free (one_release 10) (World started_db [])
    started_ok (one_release_derived 10)) as H. unfold metered_db.
  assert (length (usage_ledger (tables (HandleRelease (one_release 10) (World started_db [])).2)) = 1%nat)
    as Hlen by (vm_compute; reflexivity).
  destruct (HandleRelease _ _) as [r w']. cbn [snd tables] in *.
  destruct H as [[H _]|(first & H & _)]; [by rewrite H in Hlen|].
  destruct first; [exact H|]. destruct H as (a & _ & _ & H). by rewrite H in Hlen.
Qed.

Lemma later_release_ignored_witness :
  tables (HandleRelease (one_release 999) (World metered_db [])).2 = metered_db.
Proof.
  apply (later_release_ignored only_a1 (one_release 10) started_db metered_db (one_release 999) []);
    [apply only_a1_free|apply started_ok|apply one_release_derived|apply metered_db_meters
    |apply one_release_derived|reflexivity].
Defined.

(** C28 No attempt is left behind.  On a well-formed ledger, as every reachable
    state has, for attempt ids that do not collide: a recovery either changes nothing and reports
    an error, or it closes every open attempt whose deadline passed and whose row
    no other transaction held locked (FOR UPDATE SKIP LOCKED), each with exactly
    one row: status 504, class network, usage source "missing", partial, all four
    token counts zero.  It reports their number and touches no other attempt and
    no other row; a locked attempt stays open for a later recovery. *)
Theorem RecoverAttempts_closes_expired P skip before_ now w :
  collision_free P → ledger_ok P (tables w) →
  let '(r, w') := RecoverAttempts skip before_ now w in
  let t := tables w in let t' := tables w' in
  (t' = t ∧ ∃ e, r = Err e) ∨
  ((∀ k a, request_attempts t !! k = Some a → expired before_ a = true → (k ∉ skip) →
      ∃ a', request_attempts t' !! k = Some a' ∧ ra_state a' = "reconciled"%string) ∧
   (∀ k a, request_attempts t !! k = Some a → expired before_ a = false ∨ k ∈ skip →
      request_attempts t' !! k = Some a) ∧
   (∃ rows, usage_ledger t' = usage_ledger t ++ rows ∧ NoDup (ul_attempt_id <$> rows) ∧
      (∀ k, k ∈ ul_attempt_id <$> rows ↔
         ∃ a, request_attempts t !! k = Some a ∧ expired before_ a = true ∧ (k ∉ skip)) ∧
      Forall (recovered_row now) rows ∧
      (r = Ok (Z.of_nat (length rows)) ∨ r = Err EIO))).
Proof.
  intros HP Ht. pose proof (RecoverAttempts_contract P HP skip before_ now w Ht) as H.
  destruct (RecoverAttempts skip before_ now w) as [r w']. cbn zeta.
  destruct H as [H|(count & [_ Hc Ho Hs (rows & Hr & Hid & Hall)] & He)]; [by left|right]. split_and!.
  - intros k a Ha Hx Hk. apply Hs. apply list_elem_of_fmap. exists (k, a). split; [done|].
    by apply elem_candidates.
  - intros k a Ha Hx. rewrite Ho; [done|]. intros ([k' a'] & -> & Hin)%list_elem_of_fmap.
    apply elem_candidates in Hin as (Ha' & Hx' & Hk'). cbn in *. destruct Hx; [congruence|done].
  - exists rows. rewrite Hid. split; [done|]. split; [apply candidates_nodup|]. split; [|split; [done|]].
    + intros k. rewrite list_elem_of_fmap. split.
      * intros ([k' a] & -> & Hin). exists a. by apply elem_candidates.
      * intros (a & Ha). exists (k, a). split; [done|]. by apply elem_candidates.
    + assert (length rows = length (candidates skip before_ (tables w))) as ->; [|by rewrite <-Hc].
      rewrite <-(length_fmap ul_attempt_id rows), Hid. apply length_fmap.
Qed.

Lemma RecoverAttempts_closes_expired_witness :
  let w' := (RecoverAttempts ∅ 1000 1001 (World started_db [])).2 in
  (∃ a, request_attempts (tables w') !! "a1"%string = Some a ∧ ra_state a = "reconciled"%string) ∧
  ∃ rows, usage_ledger (tables w') = usage_ledger started_db ++ rows ∧ Forall (recovered_row 1001) rows.
Proof.
  pose proof (RecoverAttempts_closes_expired only_a1 ∅ 1000 1001 (World started_db [])
    only_a1_free started_ok) as H.
  assert (is_ok (RecoverAttempts ∅ 1000 1001 (World started_db [])).1 = true) as Hok
    by (vm_compute; reflexivity).
  assert (∃ a, request_attempts started_db !! "a1"%string = Some a ∧ expired 1000 a = true)
    as (a & Ha & Hx) by (eexists; split; vm_compute; reflexivity).
  destruct (RecoverAttempts ∅ 1000 1001 (World started_db [])) as [r w']. cbn [snd] in *.
  destruct H as [[_ [e ->]]|(H1 & _ & rows & Hr & _ & _ & Hall & _)]; [discriminate|].
  split; [|by exists rows]. apply (H1 _ _ Ha Hx). set_solver.
Defined.

(** C40 [MemoryLedger] applies the rules of the PostgreSQL ledger to every
    persisted attempt: from related states, a release PostgreSQL meters or
    ignores is accepted or refused by the memory ledger alike, and the states
    stay related. *)
Theorem MemoryLedger_simulates P t t' m release first :
  collision_free P → ledger_ok P t → simulates t m → derived release → meters release first t t' →
  ∃ m', ApplyRelease release m = (first, m') ∧ simulates t' m'.
Proof. intros HP. by apply ApplyRelease_simulates. Qed.

Definition started_memory : MemoryLedger := (ApplyAttemptStarted one_attempt NewMemoryLedger).2.

Lemma started_simulates : simulates started_db started_memory.
Proof.
  assert (attempts started_memory = {["a1"%string := {| Started := one_attempt; State := AttemptOpen;
    Record_Release := None |}]}) as Em by (vm_compute; reflexivity).
  assert (∃ a, request_attempts started_db = {["a1"%string := a]} ∧ ra_state a = "open"%string
    ∧ ra_deadline_at a = 200) as (a & Ea & Ho & Hdl) by (eexists; split_and!; vm_compute; reflexivity).
  split.
  - rewrite Em, Ea, !map_fmap_singleton. do 2 f_equal. cbn. unfold phase. by rewrite Ho.
  - intros e. vm_compute. split; [by intros ?|intros H; by apply elem_of_nil in H].
  - intros k record. rewrite Em, Ea. destruct (decide ("a1"%string = k)) as [<-|Hne].
    + rewrite !lookup_singleton_eq. intros [= <-]. split_and!; [done|done|].
      intros a' [= <-]. by rewrite Hdl.
    + by rewrite lookup_singleton_ne.
Qed.

Lemma MemoryLedger_simulates_witness :
  ∃ m', ApplyRelease (one_release 10) started_memory = (true, m') ∧ simulates metered_db m'.
Proof.
  apply (MemoryLedger_simulates only_a1 started_db metered_db started_memory (one_release 10) true);
    [apply only_a1_free|apply started_ok|apply started_simulates|apply one_release_derived
    |apply metered_db_meters].
Defined.

(** C40 ... but not to a release that overtakes its attempt: from the empty
    ledgers PostgreSQL refuses it, so that the stream delivers it again after
    the attempt is persisted, while the memory ledger takes it, drops its usage
    for good and later refuses the redelivery. *)
Theorem MemoryLedger_loses_overtaking_release :
  let r := one_release 10 in
  HandleRelease r (World (empty_db ∅ 100) []) = (Err EAttemptNotPersisted, World (empty_db ∅ 100) []) ∧
  (HandleRelease r (World started_db [])).1 = Ok true ∧
  let '(took, m1) := ApplyRelease r NewMemoryLedger in
  let '(_, m2) := ApplyAttemptStarted one_attempt m1 in
  let '(again, m3) := ApplyRelease r m2 in
  took = true ∧ again = false ∧
  (Record_Release <$> attempts m3 !! "a1"%string) = Some None.
Proof.
  cbn zeta. split; [by apply HandleRelease_unknown|]. split; [vm_compute; reflexivity|].
  vm_compute. done.
Qed.
