(* ===== verification/Fencing.v ===== *)
(** * Account fencing

    internal/control/fencing.go: the epoch of an account is bumped before its
    credential is read or refreshed, and a credential is only written under the
    epoch that was drawn.  The advisory lock ([TryAcquireSingleton]) is in
    Refresh.v. *)

From S2P Require Import Prelude Numeric Db BillingFacts.

Open Scope Z_scope.

Definition with_epoch (epoch : Z) (a : account_row) : account_row :=
  {| ac_status := ac_status a; ac_fence_epoch := epoch; ac_platform := ac_platform a;
     ac_last_error_class := ac_last_error_class a; ac_last_error_at := ac_last_error_at a;
     ac_consecutive_failures := ac_consecutive_failures a;
     ac_cooldown_until := ac_cooldown_until a; ac_excluded_models := ac_excluded_models a;
     ac_provider := ac_provider a; ac_group := ac_group a; ac_capabilities := ac_capabilities a;
     ac_setup := ac_setup a; ac_quota := ac_quota a |}.

(** UPDATE accounts SET fence_epoch=fence_epoch+1 ... RETURNING fence_epoch. *)
Definition Acquire (accountID : string) : DB Z :=
  stmt (λ t, match account_rows t !! accountID with
    | None => Err ENoRows
    | Some a =>
        let epoch := ac_fence_epoch a + 1 in
        Ok (epoch, set_accounts <[accountID := with_epoch epoch a]> t)
    end).

Definition epoch_is (accountID : string) (epoch : Z) (t : db) : bool :=
  match account_rows t !! accountID with
  | Some a => ac_fence_epoch a =? epoch
  | None => false
  end.

(** UPDATE credentials ... WHERE account_id=$3 AND EXISTS (...); RowsAffected. *)
Definition write_credential (accountID : string) (epoch : Z) (secret : string) (expiresAt : option time)
    : DB Z :=
  stmt (λ t, match credential_rows t !! accountID with
    | Some c =>
        if epoch_is accountID epoch t
        then Ok (1, set_credentials <[accountID := CredentialRow (cr_kind c) secret expiresAt (cr_version c + 1)]> t)
        else Ok (0, t)
    | None => Ok (0, t)
    end).

(** UPDATE accounts SET updated_at=now() WHERE id=$1 AND fence_epoch=$2. *)
Definition touch_account (accountID : string) (epoch : Z) : DB Z :=
  query (λ t, Ok (if epoch_is accountID epoch t then 1 else 0)).

Definition update_body (accountID : string) (epoch : Z) (secret : string) (expiresAt : option time)
    : DB unit :=
  affected ← write_credential accountID epoch secret expiresAt;
  if negb (affected =? 1) then fail EFenceLost
  else
  affected ← touch_account accountID epoch;
  if negb (affected =? 1) then fail EFenceLost else mret tt.

Definition UpdateCredential (accountID : string) (epoch : Z) (secret : string)
    (expiresAt : option time) : DB unit :=
  transaction (update_body accountID epoch secret expiresAt).

(** ** Lemmas *)

Lemma Acquire_wp accountID t :
  wp (Acquire accountID) (λ epoch t', ∃ a, account_rows t !! accountID = Some a ∧
    epoch = ac_fence_epoch a + 1 ∧ t' = set_accounts <[accountID := with_epoch epoch a]> t) t.
Proof.
  unfold Acquire. wp_step. destruct (account_rows t !! accountID) as [b|] eqn:E; [|done].
  simplify_eq. eauto.
Qed.

Lemma update_body_wp accountID epoch secret expiresAt t :
  wp (update_body accountID epoch secret expiresAt) (λ _ t', epoch_is accountID epoch t = true ∧
    ∃ c, credential_rows t !! accountID = Some c ∧
      t' = set_credentials <[accountID := CredentialRow (cr_kind c) secret expiresAt (cr_version c + 1)]> t) t.
Proof.
  unfold update_body. wp_step. unfold write_credential. apply wp_stmt. intros n t' H.
  destruct (credential_rows t !! accountID) as [c|] eqn:Hc; [|simplify_eq; apply wp_fail].
  destruct (epoch_is accountID epoch t) eqn:He; simplify_eq; [|apply wp_fail].
  cbn [negb Z.eqb Pos.eqb]. wp_step. unfold touch_account. wp_step. wp_step; [wp_step|].
  wp_step. eauto.
Qed.

(** A credential is written under the current epoch or not at all. *)
Lemma UpdateCredential_contract accountID epoch secret expiresAt w :
  let '(r, w') := UpdateCredential accountID epoch secret expiresAt w in
  (tables w' = tables w ∧ ∃ e, r = Err e) ∨
  (epoch_is accountID epoch (tables w) = true ∧ ∃ c, credential_rows (tables w) !! accountID = Some c ∧
     tables w' = set_credentials <[accountID := CredentialRow (cr_kind c) secret expiresAt (cr_version c + 1)]>
                   (tables w) ∧ (r = Ok tt ∨ r = Err EIO)).
Proof.
  pose proof (transaction_spec _ _ w (update_body_wp accountID epoch secret expiresAt (tables w))) as H.
  unfold UpdateCredential. destruct (transaction _ w) as [r w'].
  destruct H as [H|([] & (He & c & Hc & Ht) & Hr)]; [by left|right]. eauto 10.
Qed.
