(* ===== verification/ConsoleAccounts.v ===== *)
(** * The account board and the three account actions

    internal/control/console_accounts.go and [handleAccounts] of console.go.
    An action updates one account under the guard of its WHERE clause, bumps the
    fencing epoch, and leaves an audit row in the same transaction.  The
    column updated_at is display only and left out; JSONB lists of strings are
    kept decoded, the empty list standing for what decodeStringArray refuses. *)

From Stdlib Require Import QArith.
From S2P Require Import Prelude Decimal Money Contracts Numeric GoTime Cursor Db Billing Reconcile BillingFacts Held Console Fencing.

Open Scope Z_scope.

(** ** Well-formed UTF-8, which PostgreSQL insists on *)

Definition continuation (low high : nat) (a : Ascii.ascii) : bool :=
  let n := Ascii.nat_of_ascii a in Nat.leb low n && Nat.leb n high.

(** Length and bounds of the second byte of the sequence that starts with [a]. *)
Definition utf8_lead (a : Ascii.ascii) : option (nat * nat * nat) :=
  let n := Ascii.nat_of_ascii a in
  if Nat.ltb n 128 then Some (0, 0, 0)%nat
  else if Nat.leb 194 n && Nat.leb n 223 then Some (1, 128, 191)%nat
  else if Nat.eqb n 224 then Some (2, 160, 191)%nat
  else if Nat.eqb n 237 then Some (2, 128, 159)%nat
  else if Nat.leb 225 n && Nat.leb n 239 then Some (2, 128, 191)%nat
  else if Nat.eqb n 240 then Some (3, 144, 191)%nat
  else if Nat.eqb n 244 then Some (3, 128, 143)%nat
  else if Nat.leb 241 n && Nat.leb n 243 then Some (3, 128, 191)%nat
  else None.

(** [pending] more bytes of a sequence are due, the next within the bounds. *)
Fixpoint utf8_from (pending low high : nat) (s : string) : bool :=
  match pending, s with
  | 0%nat, EmptyString => true
  | S _, EmptyString => false
  | S n, String a s' => continuation low high a && utf8_from n 128 191 s'
  | 0%nat, String a s' =>
      match utf8_lead a with
      | Some (n, low, high) => utf8_from n low high s'
      | None => false
      end
  end.
Definition valid_utf8 (s : string) : bool := utf8_from 0 0 0 s.

(** ** Actions *)

Definition needsUnrestrictedAcknowledgement (status : string) (capabilities : list string)
    (acknowledged : bool) : bool :=
  String.eqb status "active" && (length capabilities =? 0)%nat && negb acknowledged.

Definition snapshotRefreshInterval : duration := minute.

(** The four actions the table's CHECK knows. *)
Definition known_actions : list string :=
  ["set_status:active"; "set_status:disabled"; "clear_cooldown"; "clear_excluded_models"]%string.

(** UPDATE accounts SET ..., fence_epoch=fence_epoch+1 WHERE id=$1 AND ... :
    [None] when the guard of the WHERE clause does not hold. *)
Abbreviation account_update := (account_row → option account_row).

Definition set_status (status : string) : account_update := λ a,
  if String.eqb (ac_status a) status then None
  else Some {| ac_status := status; ac_fence_epoch := ac_fence_epoch a + 1; ac_platform := ac_platform a;
    ac_last_error_class := ac_last_error_class a; ac_last_error_at := ac_last_error_at a;
    ac_consecutive_failures := ac_consecutive_failures a; ac_cooldown_until := ac_cooldown_until a;
    ac_excluded_models := ac_excluded_models a; ac_provider := ac_provider a; ac_group := ac_group a;
    ac_capabilities := ac_capabilities a;
     ac_setup := ac_setup a; ac_quota := ac_quota a |}.

Definition clear_cooldown : account_update := λ a,
  if bool_decide (is_Some (ac_cooldown_until a)) || (0 <? ac_consecutive_failures a)
  then Some {| ac_status := ac_status a; ac_fence_epoch := ac_fence_epoch a + 1; ac_platform := ac_platform a;
    ac_last_error_class := ac_last_error_class a; ac_last_error_at := ac_last_error_at a;
    ac_consecutive_failures := 0; ac_cooldown_until := None;
    ac_excluded_models := ac_excluded_models a; ac_provider := ac_provider a; ac_group := ac_group a;
    ac_capabilities := ac_capabilities a;
     ac_setup := ac_setup a; ac_quota := ac_quota a |}
  else None.

Definition clear_excluded_models : account_update := λ a,
  match ac_excluded_models a with
  | [] => None
  | _ => Some {| ac_status := ac_status a; ac_fence_epoch := ac_fence_epoch a + 1; ac_platform := ac_platform a;
    ac_last_error_class := ac_last_error_class a; ac_last_error_at := ac_last_error_at a;
    ac_consecutive_failures := ac_consecutive_failures a; ac_cooldown_until := ac_cooldown_until a;
    ac_excluded_models := []; ac_provider := ac_provider a; ac_group := ac_group a;
    ac_capabilities := ac_capabilities a;
     ac_setup := ac_setup a; ac_quota := ac_quota a |}
  end.

(** The UPDATE with its RETURNING fence_epoch; no row is pgx.ErrNoRows. *)
Definition update_account (accountID : string) (update : account_update) : DB (option Z) :=
  stmt (λ t, Ok match account_rows t !! accountID ≫= update with
    | None => (None, t)
    | Some a => (Some (ac_fence_epoch a), set_accounts <[accountID := a]> t)
    end).

(** INSERT INTO account_actions. *)
Definition insert_action (accountID action reason who : string) (epoch : Z) : DB unit :=
  exec (λ t,
    if negb (valid_utf8 reason && valid_utf8 who) then Err EInvalidText
    else if negb (bool_decide (action ∈ known_actions)) then Err ECheckViolation
    else if negb (bool_decide (is_Some (account_rows t !! accountID))) then Err EForeignKey
    else Ok (set_actions (λ l, l ++ [ActionRow accountID action reason who epoch (db_now t)]) t)).

Definition account_epoch (accountID : string) : DB Z :=
  query (λ t, match account_rows t !! accountID with
              | Some a => Ok (ac_fence_epoch a)
              | None => Err ENoRows
              end).

Definition action_result (accountID action detail : string) (applied : bool) (epoch : Z) : accountActionResult :=
  {| ar_AccountID := accountID; ar_Action := action; ar_Applied := applied; ar_Detail := detail;
     ar_FenceEpoch := epoch; ar_EffectiveWithin := Z.quot snapshotRefreshInterval second;
     ar_GatewayLocalCooldownNote := "" |}.

Definition action_body (accountID action reason who : string) (update : account_update)
    (guard : list string → result db_error unit) : DB accountActionResult :=
  capabilities ← query (λ t, match account_rows t !! accountID with
                             | Some a => Ok (ac_capabilities a)
                             | None => Err EAccountNotFound
                             end);
  _ ← of_result (guard capabilities);
  updated ← update_account accountID update;
  match updated with
  | None =>
      epoch ← account_epoch accountID;
      mret (action_result accountID action "" false epoch)
  | Some epoch =>
      _ ← insert_action accountID action reason who epoch;
      mret (action_result accountID action "" true epoch)
  end.

Definition applyAccountAction (accountID action reason who : string) (update : account_update)
    (guard : list string → result db_error unit) : DB accountActionResult :=
  if String.eqb accountID "" then fail EAccountNotFound
  else transaction (action_body accountID action reason who update guard).

Definition no_guard (_ : list string) : result db_error unit := Ok tt.

Definition accountActionError (e : db_error) : DB reply :=
  match e with EAccountNotFound => writeError 404 | _ => failed end.

Definition with_detail (detail : string) (r : accountActionResult) : accountActionResult :=
  if ar_Applied r then r
  else {| ar_AccountID := ar_AccountID r; ar_Action := ar_Action r; ar_Applied := ar_Applied r;
          ar_Detail := detail; ar_FenceEpoch := ar_FenceEpoch r; ar_EffectiveWithin := ar_EffectiveWithin r;
          ar_GatewayLocalCooldownNote := ar_GatewayLocalCooldownNote r |}.

Definition with_note (note : string) (r : accountActionResult) : accountActionResult :=
  {| ar_AccountID := ar_AccountID r; ar_Action := ar_Action r; ar_Applied := ar_Applied r;
     ar_Detail := ar_Detail r; ar_FenceEpoch := ar_FenceEpoch r; ar_EffectiveWithin := ar_EffectiveWithin r;
     ar_GatewayLocalCooldownNote := note |}.

Record accountStatusRequest := { sq_Status : string; sq_Reason : string; AllowUnrestricted : bool }.

Definition status_guard (status : string) (acknowledged : bool) (capabilities : list string)
    : result db_error unit :=
  if needsUnrestrictedAcknowledgement status capabilities acknowledged
  then Err EUnrestrictedNotAcknowledged else Ok tt.

Definition handleAccountStatus (db : bool) (who path : string) (body : option accountStatusRequest) : DB reply :=
  if negb db then writeError 503
  else
  let accountID := trim_space path in
  match body with
  | None => writeError 400
  | Some body =>
      let status := trim_space (to_lower (sq_Status body)) in
      if negb (String.eqb status "active") && negb (String.eqb status "disabled") then writeError 400
      else
      let reason := trim_space (sq_Reason body) in
      if String.eqb reason "" then writeError 400
      else
      r ← attempt (applyAccountAction accountID ("set_status:" +:+ status) reason who
            (set_status status) (status_guard status (AllowUnrestricted body)));
      match r with
      | Err EUnrestrictedNotAcknowledged => writeError 409
      | Err e => accountActionError e
      | Ok result => mret (Reply 200 (ActionBody (with_detail ("account was already " +:+ status) result)))
      end
  end.

(** [body] is the reason of a body that parsed, else "". *)
Definition consoleReason (body : string) : string :=
  let reason := trim_space body in
  if String.eqb reason "" then "not given"
  else if (500 <? String.length reason)%nat then str_take 500 reason else reason.

Definition local_cooldown_note : string :=
  "gateway keeps a separate in-process cooldown that control cannot clear; " +:+
  "an instance may still skip this account until its own local timer expires".

Definition handleClearCooldown (db : bool) (who path body : string) : DB reply :=
  if negb db then writeError 503
  else
  let accountID := trim_space path in
  let reason := consoleReason body in
  r ← attempt (applyAccountAction accountID "clear_cooldown" reason who clear_cooldown no_guard);
  match r with
  | Err e => accountActionError e
  | Ok result => mret (Reply 200 (ActionBody (with_note local_cooldown_note
      (with_detail "account had no cooldown and no failure streak" result))))
  end.

Definition handleClearExcludedModels (db : bool) (who path body : string) : DB reply :=
  if negb db then writeError 503
  else
  let accountID := trim_space path in
  let reason := consoleReason body in
  r ← attempt (applyAccountAction accountID "clear_excluded_models" reason who clear_excluded_models no_guard);
  match r with
  | Err e => accountActionError e
  | Ok result => mret (Reply 200 (ActionBody (with_detail "account had no excluded models" result)))
  end.

(** ** The board (handleAccounts) *)

Definition time_text (t : option time) : string :=
  match t with Some t => format_rfc3339 false t | None => "" end.

Definition account_view (kv : string * account_row) : accountView :=
  {| av_ID := kv.1; av_Provider := ac_provider kv.2; av_Platform := ac_platform kv.2;
     av_Group := ac_group kv.2; av_Status := ac_status kv.2;
     av_LastErrorClass := default ""%string (ac_last_error_class kv.2);
     av_LastErrorAt := time_text (ac_last_error_at kv.2);
     av_ConsecutiveFailures := ac_consecutive_failures kv.2;
     av_CooldownUntil := time_text (ac_cooldown_until kv.2);
     av_ExcludedModels := ac_excluded_models kv.2; av_Capabilities := ac_capabilities kv.2 |}.

Definition account_position (kv : string * account_row) : string * Z := (kv.1, 0).

(** ORDER BY id. *)
Definition account_le (a b : string * account_row) : Prop := String.le a.1 b.1.
#[export] Instance account_le_dec : RelDecision account_le.
Proof. intros a b. unfold account_le. apply _. Defined.

Definition account_for (provider status : string) (kv : string * account_row) : bool :=
  (String.eqb provider "" || String.eqb (ac_provider kv.2) provider)
  && (String.eqb status "" || String.eqb (ac_status kv.2) status).

(** id > $4 *)
Definition id_after (sort : string) (kv : string * account_row) : bool :=
  negb (bool_decide (String.le kv.1 sort)).

Definition board_rows (provider status : string) (cursor : consoleCursor) (t : db) : list (string * account_row) :=
  merge_sort account_le (filter (λ kv, account_for provider status kv &&
    (String.eqb (Sort cursor) "" || id_after (Sort cursor) kv) = true) (map_to_list (account_rows t))).

Definition handleAccounts (db : bool) (provider status limit cursor : string) : DB reply :=
  if negb db then writeError 503
  else
  let provider := trim_space provider in
  let status := trim_space status in
  match consoleLimit limit with
  | None => writeError 400
  | Some limit =>
      match parseCursor cursor with
      | None => writeError 400
      | Some cursor =>
          r ← attempt (query (λ t, Ok (page_query limit (board_rows provider status cursor t))));
          match r with
          | Err _ => failed
          | Ok (shown, hasMore) =>
              let next := next_cursor account_position shown hasMore in
              mret (Reply 200 (AccountsBody (account_view <$> shown) (Z.of_nat (length shown)) next
                (negb (String.eqb next ""))))
          end
      end
  end.

(** ** What an action does *)

(** Every update draws a new epoch. *)
Definition bumps (update : account_update) : Prop :=
  ∀ a a', update a = Some a' → ac_fence_epoch a' = ac_fence_epoch a + 1.

Lemma set_status_bumps status : bumps (set_status status).
Proof. intros a a'. unfold set_status. destruct (String.eqb _ _); [done|]. by intros [= <-]. Qed.
Lemma clear_cooldown_bumps : bumps clear_cooldown.
Proof. intros a a'. unfold clear_cooldown. destruct (_ || _); [|done]. by intros [= <-]. Qed.
Lemma clear_excluded_models_bumps : bumps clear_excluded_models.
Proof. intros a a'. unfold clear_excluded_models. destruct (ac_excluded_models a); [done|]. by intros [= <-]. Qed.

(** The tables after an action that found [a] and made it [a']. *)
Definition acted (accountID action reason who : string) (a' : account_row) (t : db) : db :=
  set_actions (λ l, l ++ [ActionRow accountID action reason who (ac_fence_epoch a') (db_now t)])
    (set_accounts <[accountID := a']> t).

Definition action_outcome (accountID action reason who : string) (update : account_update)
    (guard : list string → result db_error unit) (res : accountActionResult) (t t' : db) : Prop :=
  ∃ a, account_rows t !! accountID = Some a ∧ guard (ac_capabilities a) = Ok tt ∧
    match update a with
    | Some a' => ar_Applied res = true ∧ ar_FenceEpoch res = ac_fence_epoch a' ∧
                 t' = acted accountID action reason who a' t
    | None => ar_Applied res = false ∧ ar_FenceEpoch res = ac_fence_epoch a ∧ t' = t
    end.

Lemma action_body_wp accountID action reason who update guard t :
  wp (action_body accountID action reason who update guard)
     (λ res t', action_outcome accountID action reason who update guard res t t') t.
Proof.
  unfold action_body. do 2 wp_step.
  match goal with H : match account_rows t !! accountID with _ => _ end = Ok _ |- _ => rename H into Hq end.
  destruct (account_rows t !! accountID) as [row|] eqn:Ha; [|done]. injection Hq as <-.
  do 2 wp_step. wp_step. unfold update_account. wp_step.
  match goal with H : Ok _ = Ok _ |- _ => rename H into Hu end. rewrite Ha in Hu. cbn [mbind option_bind] in Hu.
  unfold action_outcome.
  destruct (update row) as [a'|] eqn:E; injection Hu as <- <-.
  - wp_step. unfold insert_action. wp_step. destruct (negb _); [done|]. destruct (negb _); [done|].
    destruct (negb _); [done|]. inv_result. wp_step. exists row. rewrite E. by destruct a.
  - wp_step. unfold account_epoch. wp_step. rewrite Ha in *. inv_result. wp_step. exists row. rewrite E. by destruct a.
Qed.

(** Effect and audit row together, or neither. *)
Lemma applyAccountAction_contract accountID action reason who update guard w :
  let '(r, w') := applyAccountAction accountID action reason who update guard w in
  (tables w' = tables w ∧ ∃ e, r = Err e) ∨
  (∃ res, action_outcome accountID action reason who update guard res (tables w) (tables w') ∧
    (r = Ok res ∨ r = Err EIO)).
Proof.
  unfold applyAccountAction. destruct (String.eqb accountID ""); [by left; eauto|].
  pose proof (transaction_spec _ _ w (action_body_wp accountID action reason who update guard (tables w))) as H.
  destruct (transaction _ w) as [r w']. exact H.
Qed.
