(* ===== verification/ConsoleRoutes.v ===== *)
(** * The console's routes

    internal/control/console.go ([Handler], [authorize], [handleHealth],
    [handleRequests]) and [rateLimit] of console_limit.go: every request passes
    the token check, then the token bucket of its kind, then its handler.  A
    request comes in as its method and the route the mux matched, with the
    parameters and the decoded body; the mux itself (net/http) is not modelled,
    so [NoRoute] stands for what it answers to a path it does not know. *)

From Stdlib Require Import QArith.
From S2P Require Import Prelude Decimal Money Contracts Numeric GoTime Cursor GoFloat Db Billing Reconcile Held Console Fencing ConsoleAccounts.

Open Scope Z_scope.

Inductive route :=
| GetHealth
| GetAccounts (provider status limit cursor : string)
| PostAccountStatus (accountID : string) (body : option accountStatusRequest)
| PostClearCooldown (accountID body : string)
| PostClearExcludedModels (accountID body : string)
| GetWallet (tenantID : string)
| PostTopup (tenantID : string) (body : option topupRequest)
| PostAdjust (tenantID : string) (body : option adjustRequest)
| GetPrices (provider model : string)
| PostPrice (body : option insertPriceRequest)
| GetHeld (tenant limit cursor : string)
| PostResolve (eventID : string) (body : option resolveHeldRequest)
| GetReconcile (start end_ : string)
| GetRequests (tenant provider limit start end_ : string)
| NoRoute (method : string).

(** The method a route is registered under. *)
Definition method_of (r : route) : string :=
  match r with
  | GetHealth | GetAccounts _ _ _ _ | GetWallet _ | GetPrices _ _ | GetHeld _ _ _
  | GetReconcile _ _ | GetRequests _ _ _ _ _ => "GET"
  | PostAccountStatus _ _ | PostClearCooldown _ _ | PostClearExcludedModels _ _ | PostTopup _ _
  | PostAdjust _ _ | PostPrice _ | PostResolve _ _ => "POST"
  | NoRoute method => method
  end.

Record request := {
  rq_Method : string;
  rq_Authorization : string;
  rq_Operator : string;
  rq_route : route
}.

(** What the routes depend on besides the database: whether it and the detail
    store are configured, the clock, the next run id, the two parameters. *)
Record Console := {
  cs_Auth : ConsoleAuth;
  cs_DB : bool;
  cs_Detail : bool;
  cs_Now : time;
  cs_runID : string;
  cs_timestamptz : string → option time;
  cs_ParseLimit : string → option Z;   (* detail.ParseLimit *)
  cs_Query : result db_error unit      (* the ClickHouse read *)
}.

Definition handleHealth (c : Console) : DB reply := mret (Reply 200 (HealthBody (cs_DB c) (cs_Detail c) (cs_Now c))).

Definition handleRequests (c : Console) (limit start end_ : string) : DB reply :=
  match cs_ParseLimit c limit, parseConsoleTime start, parseConsoleTime end_ with
  | Some _, Some _, Some _ =>
      if negb (cs_Detail c) then writeError 503
      else if is_ok (cs_Query c) then mret (Reply 200 RequestsBody) else failed
  | _, _, _ => writeError 400
  end.

(** A pattern for GET also takes HEAD. *)
Definition serves (method : string) (r : route) : bool :=
  String.eqb (method_of r) method || (String.eqb (method_of r) "GET" && String.eqb method "HEAD").

(** The mux. *)
Definition dispatch (c : Console) (who method : string) (r : route) : DB reply :=
  if negb (serves method r) then writeError 405
  else match r with
  | GetHealth => handleHealth c
  | GetAccounts provider status limit cursor => handleAccounts (cs_DB c) provider status limit cursor
  | PostAccountStatus accountID body => handleAccountStatus (cs_DB c) who accountID body
  | PostClearCooldown accountID body => handleClearCooldown (cs_DB c) who accountID body
  | PostClearExcludedModels accountID body => handleClearExcludedModels (cs_DB c) who accountID body
  | GetWallet tenantID => handleWallet (cs_DB c) tenantID
  | PostTopup tenantID body => handleTopup (cs_DB c) who tenantID body
  | PostAdjust tenantID body => handleAdjust (cs_DB c) who tenantID body
  | GetPrices provider model => handlePrices (cs_DB c) provider model
  | PostPrice body => handleInsertPrice (cs_DB c) (cs_Now c) body
  | GetHeld tenant limit cursor => handleHeld (cs_timestamptz c) (cs_DB c) tenant limit cursor
  | PostResolve eventID body => handleResolveHeld (cs_DB c) (cs_runID c) who eventID body
  | GetReconcile start end_ => handleReconcile (cs_DB c) start end_
  | GetRequests _ _ limit start end_ => handleRequests c limit start end_
  | NoRoute _ => writeError 404
  end.

(** The bucket a request draws from. *)
Definition kind_of (method : string) : consoleAccess :=
  if String.eqb method "GET" then consoleReadOnly else consoleReadWrite.

(** int(wait.Seconds()+0.5) *)
Definition retry_seconds (wait : duration) : Z := trunc (f64 (Qplus (seconds wait) (1 # 2))).

Definition rateLimit (c : Console) (limiter : consoleLimiter) (rq : request) (next : DB reply)
    : DB reply * consoleLimiter :=
  match allow limiter (kind_of (rq_Method rq)) (cs_Now c) with
  | (Some wait, limiter) => (mret (Reply 429 (Throttled (retry_seconds wait))), limiter)
  | (None, limiter) => (next, limiter)
  end.

Definition authorize (c : Console) (limiter : consoleLimiter) (rq : request)
    (next : DB reply * consoleLimiter) : DB reply * consoleLimiter :=
  match access (cs_Auth c) (rq_Authorization rq) with
  | consoleDenied => (writeError 401, limiter)
  | granted =>
      if negb (String.eqb (rq_Method rq) "GET") && negb (bool_decide (granted = consoleReadWrite))
      then (writeError 403, limiter)
      else next
  end.

(** [Console.Handler]. *)
Definition serve (c : Console) (limiter : consoleLimiter) (rq : request) : DB reply * consoleLimiter :=
  authorize c limiter rq (rateLimit c limiter rq
    (dispatch c (operator (rq_Operator rq)) (rq_Method rq) (rq_route rq))).
