(* ===== verification/ConsoleFacts.v ===== *)
(** * What the console promises

    Proofs about Console.v, ConsoleAccounts.v and ConsoleRoutes.v: who can
    write, what each request of the buckets costs whom, that a top-up is
    credited once however often it is retried, that paging visits every row
    once, and what an account action leaves behind. *)

From Stdlib Require Import QArith.
From S2P Require Import Prelude Decimal Money Contracts Numeric GoTime Cursor GoFloat Db Billing Reconcile BillingFacts MoneyInvariant Held Console Fencing ConsoleAccounts ConsoleRoutes.

Open Scope Z_scope.

(** ** Reads *)

Definition read_only {A} (m : DB A) : Prop := ∀ I, preserves I m.

Lemma read_only_tables {A} (m : DB A) w : read_only m → tables (m w).2 = tables w.
Proof. intros H. by apply (H (λ t, t = tables w) w). Qed.

Lemma read_only_ret {A} (a : A) : read_only (mret a).
Proof. intros I. apply preserves_ret. Qed.
Lemma read_only_fail {A} e : read_only (@fail A e).
Proof. intros I. apply preserves_fail. Qed.
Lemma read_only_query {A} (f : db → result db_error A) : read_only (query f).
Proof. intros I. apply preserves_query. Qed.
Lemma read_only_bind {A B} (m : DB A) (f : A → DB B) :
  read_only m → (∀ a, read_only (f a)) → read_only (m ≫= f).
Proof. intros Hm Hf I. apply preserves_bind; [apply Hm|]. intros a. apply Hf. Qed.
Lemma read_only_attempt {A} (m : DB A) : read_only m → read_only (attempt m).
Proof. intros H I. apply preserves_attempt, H. Qed.

Create HintDb gw_reads discriminated.
#[export] Hint Resolve read_only_ret read_only_fail read_only_query read_only_attempt : gw_reads.
#[export] Hint Unfold writeError failed : gw_reads.

(** Follow every branch of a handler down to its reads. *)
Ltac reads :=
  repeat first
    [ progress (auto with gw_reads)
    | progress unfold writeError, failed
    | match goal with |- read_only (_ ≫= _) => apply read_only_bind; [|intros ?] end
    | progress case_match ].

Lemma handleWallet_reads b path : read_only (handleWallet b path).
Proof. unfold handleWallet, Balance, ListWalletTransactions, wallet_currency. reads. Qed.
Lemma handlePrices_reads b provider model : read_only (handlePrices b provider model).
Proof. unfold handlePrices. reads. Qed.
Lemma handleReconcile_reads b start end_ : read_only (handleReconcile b start end_).
Proof. unfold handleReconcile. reads. Qed.
Lemma handleHeld_reads ts b tenant limit cursor : read_only (handleHeld ts b tenant limit cursor).
Proof. unfold handleHeld. reads. Qed.
Lemma handleAccounts_reads b provider status limit cursor : read_only (handleAccounts b provider status limit cursor).
Proof. unfold handleAccounts. reads. Qed.
Lemma handleRequests_reads c limit start end_ : read_only (handleRequests c limit start end_).
Proof. unfold handleRequests. reads. Qed.
Lemma handleHealth_reads c : read_only (handleHealth c).
Proof. unfold handleHealth. reads. Qed.
#[export] Hint Resolve handleWallet_reads handlePrices_reads handleReconcile_reads handleHeld_reads
  handleAccounts_reads handleRequests_reads handleHealth_reads : gw_reads.

Lemma moved_reply_reads tenantID id kind amount r : read_only (moved_reply tenantID id kind amount r).
Proof. unfold moved_reply, confirmReplay, replayMovement. reads. Qed.

Lemma dispatch_reads c who method r : method_of r = "GET"%string → read_only (dispatch c who method r).
Proof. intros H. unfold dispatch. destruct (negb _); [reads|]. destruct r; try discriminate H; reads. Qed.

(** A method other than GET and HEAD only reaches the routes registered for it. *)
Lemma dispatch_writes c who method r w :
  tables (dispatch c who method r w).2 ≠ tables w → method = "POST"%string ∧ method_of r = "POST"%string.
Proof.
  intros H. unfold dispatch in H. destruct (serves method r) eqn:Hs; cbn [negb] in H.
  - destruct (String.eqb_spec (method_of r) "GET") as [E|E].
    { destruct H. pose proof (dispatch_reads c who method r E) as Hr. unfold dispatch in Hr. rewrite Hs in Hr.
      by apply (read_only_tables _ w). }
    unfold serves in Hs. rewrite (proj2 (String.eqb_neq _ _) E) in Hs. rewrite orb_false_r in Hs.
    apply String.eqb_eq in Hs. subst method. destruct r; try done; by destruct H.
  - by destruct H.
Qed.

(** C15 The console writes for holders of the read-write token alone: a request
    that changes the database is a POST to a registered POST route that
    presented the read-write token and found a token in the bucket of writes,
    whatever the configuration, the path and the state. *)
Theorem console_writes_need_the_token c limiter rq w :
  tables ((serve c limiter rq).1 w).2 ≠ tables w →
  access (cs_Auth c) (rq_Authorization rq) = consoleReadWrite ∧ rq_Method rq = "POST"%string ∧
  method_of (rq_route rq) = "POST"%string ∧ (allow limiter consoleReadWrite (cs_Now c)).1 = None.
Proof.
  intros H. unfold serve, authorize, rateLimit in H.
  assert (∀ l, tables ((writeError 401, l : consoleLimiter).1 w).2 = tables w) by done.
  destruct (access _ _) eqn:Ha; [done| |].
  - destruct (String.eqb_spec (rq_Method rq) "GET") as [E|E]; cbn [negb andb] in H.
    + exfalso. destruct (allow _ _ _) as [[wait|] l']; [done|]. cbn [fst] in H.
      apply dispatch_writes in H as [H _]. congruence.
    + by destruct H.
  - rewrite andb_false_r in H. destruct (allow limiter (kind_of (rq_Method rq)) _) as [[wait|] l'] eqn:El; [done|].
    cbn [fst] in H. apply dispatch_writes in H as [Hm Hr]. split_and!; [done..|].
    rewrite Hm in El. unfold kind_of in El. cbn in El. by rewrite El.
Qed.

(** ** Movements an operator asks for *)

(** [t] once the wallet exists. *)
Definition ensured (tenantID : string) (t t1 : db) : Prop :=
  t1 = t ∨ (tenantID ∈ tenants t ∧ tenant_wallets t !! tenantID = None ∧
            t1 = set_wallets <[tenantID := WalletRow "USD" 0]> t).

Lemma EnsureWallet_ensures tenantID w :
  ensured tenantID (tables w) (tables (EnsureWallet tenantID "USD" w).2).
Proof.
  unfold EnsureWallet. destruct (String.eqb tenantID ""); [by left|].
  unfold exec, stmt. pose proof (next_fault_tables w) as Ht.
  destruct (next_fault w) as [[| |] w0]; cbn in Ht; rewrite <-Ht; [|by left|]; cbn [String.eqb];
    (case_bool_decide; [|by left]); cbn [negb];
    (destruct (tenant_wallets (tables w0) !! tenantID) eqn:E; cbn; [by left|right]); done.
Qed.

(** One journal row and the wallet moved by its amount. *)
Definition credited (m : WalletMovement) (t t' : db) : Prop :=
  ∃ wl z, tenant_wallets t !! Movement_TenantID m = Some wl ∧ numeric_in (Movement_Amount m) = Ok z ∧
    (∀ j, j ∈ wallet_transactions t → wt_id j ≠ Movement_ID m) ∧ t' = moved m wl z t.

(** The journal holds this very movement. *)
Definition on_record (m : WalletMovement) (t : db) : Prop :=
  ∃ j, j ∈ wallet_transactions t ∧ wt_id j = Movement_ID m ∧ wt_tenant_id j = Movement_TenantID m ∧
    wt_kind j = Movement_Kind m ∧ sameMoney (numeric_out (wt_amount j)) (Movement_Amount m) = true.

Lemma confirmReplay_wp tenantID id kind amount t :
  wp (confirmReplay tenantID id kind amount) (λ found t', t' = t ∧ (is_Some found →
    ∃ j, j ∈ wallet_transactions t ∧ wt_id j = id ∧ wt_tenant_id j = tenantID ∧ wt_kind j = kind ∧
      sameMoney (numeric_out (wt_amount j)) amount = true)) t.
Proof.
  unfold confirmReplay, replayMovement. wp_step.
  apply wp_mono with (Q := λ found t', t' = t ∧ ∀ m, found = Some m →
    ∃ j, j ∈ wallet_transactions t ∧ wt_id j = id ∧ wt_tenant_id j = tenantID ∧ m = movement_view (scan_transaction j)).
  - intros found t' [-> H]. wp_step. split; [done|]. intros [m Hm]. destruct found as [replay|]; [|done].
    destruct (H replay eq_refl) as (j & Hj & Hi & Ht & ->). cbn in Hm.
    destruct (String.eqb_spec (wt_kind j) kind); [|done].
    destruct (sameMoney _ _) eqn:Hs; [|done]. eauto 10.
  - intros w <-. unfold mbind, DB_bind, attempt.
    match goal with |- context [query ?f w] => pose proof (read_only_query f) as Hr;
      pose proof (read_only_tables _ w Hr) as Ht; pose proof (wp_query f (λ v _, f (tables w) = Ok v) (tables w)) as Hq;
      destruct (query f w) as [r w'] eqn:E end.
    specialize (Hq ltac:(auto) w eq_refl). rewrite E in Hq. cbn in Ht. unfold mret, DB_ret.
    destruct r as [m|e]; cbn; (split; [done|]); intros m' [= ->].
    destruct (list_find _ _) as [[i j]|] eqn:F; [|done]. injection Hq as <-.
    apply list_find_Some in F as (Hi & [? ?] & _). exists j. split_and!; try done.
    by eapply list_elem_of_lookup_2.
Qed.

(** What the reply tells of the movement. *)
Definition reply_tells (m : WalletMovement) (status : Z) (t t' : db) : Prop :=
  if status =? 201 then credited m t t'
  else if status =? 200 then t' = t ∧ on_record m t
  else t' = t ∨ credited m t t'.

Lemma moved_reply_wp m r t t' :
  (is_ok r = true → credited m t t') → (is_ok r = false → t' = t ∨ (r = Err EIO ∧ credited m t t')) →
  ∀ w, tables w = t' →
  let '(a, w') := moved_reply (Movement_TenantID m) (Movement_ID m) (Movement_Kind m) (Movement_Amount m) r w in
  tables w' = t' ∧ ∃ rep, a = Ok rep ∧ reply_tells m (rp_status rep) t t'.
Proof.
  intros Hok Herr w Hw. destruct r as [tr|e]; cbn [moved_reply].
  { split; [done|]. eexists. split; [done|]. by apply Hok. }
  specialize (Herr eq_refl).
  assert (t' = t ∨ credited m t t') as Hc by naive_solver.
  assert (let '(a, w') := failed w in tables w' = t' ∧ ∃ rep, a = Ok rep ∧
    reply_tells m (rp_status rep) t t') as Hfail.
  { split; [done|]. eexists. by split. }
  destruct e; try exact Hfail.
  destruct Herr as [->|[? _]]; [|done]. clear Hfail Hc.
  unfold mbind, DB_bind.
  pose proof (confirmReplay_wp (Movement_TenantID m) (Movement_ID m) (Movement_Kind m) (Movement_Amount m) t w Hw) as H.
  destruct (confirmReplay _ _ _ _ w) as [[found|e] w'] eqn:E.
  - destruct H as [Hw' Hf]. destruct found as [replay|]; (split; [done|]); eexists; (split; [done|]).
    + split; [done|]. destruct (Hf ltac:(by eexists)) as (j & ?). exists j. naive_solver.
    + by left.
  - exfalso. revert E. unfold confirmReplay, replayMovement, attempt, mbind, DB_bind.
    by destruct (query _ w) as [[] ?].
Qed.

Lemma ApplyMovement_result m w : whole_units m →
  let '(r, w') := ApplyMovement m w in
  (is_ok r = true → credited m (tables w) (tables w')) ∧
  (is_ok r = false → tables w' = tables w ∨ (r = Err EIO ∧ credited m (tables w) (tables w'))).
Proof.
  intros Hm. pose proof (transaction_spec _ _ w (applyMovement_wp m (tables w) Hm)) as H.
  unfold ApplyMovement. destruct (transaction _ w) as [r w'].
  destruct H as [[-> [e ->]]|(tr & (wl & z & Hw & Hz & _ & Hid & _ & ->) & Hr)].
  - split; [done|by left].
  - assert (credited m (tables w) (moved m wl z (tables w))) as Hc by (exists wl, z; done).
    destruct Hr as [->| ->]; (split; [done|]); [done|]. by right.
Qed.

Lemma handleTopup_contract who path rq w :
  go_string (tq_Amount rq) →
  let '(a, w') := handleTopup true who path (Some rq) w in
  ∃ rep t1, a = Ok rep ∧ ensured (trim_space path) (tables w) t1 ∧
    reply_tells (topup_movement (trim_space path) who rq) (rp_status rep) t1 (tables w').
Proof.
  intros Hg. unfold handleTopup. set (tenantID := trim_space path).
  assert (∀ status, status ≠ 200 → status ≠ 201 →
    let '(a, w') := writeError status w in ∃ rep t1, a = Ok rep ∧ ensured tenantID (tables w) t1 ∧
    reply_tells (topup_movement tenantID who rq) (rp_status rep) t1 (tables w')) as Hno.
  { intros status H1 H2. eexists _, _. split; [done|]. split; [by left|]. unfold reply_tells. cbn.
    rewrite (proj2 (Z.eqb_neq _ _) H1), (proj2 (Z.eqb_neq _ _) H2). by left. }
  destruct (String.eqb tenantID ""); [by apply Hno|]. destruct (blank _); [by apply Hno|].
  destruct (negb _); [by apply Hno|]. destruct (negb (is_ok _)); [by apply Hno|]. cbn [negb]. clear Hno.
  pose proof (EnsureWallet_ensures tenantID w) as Hen.
  change (attempt (EnsureWallet tenantID "USD")) with (attempt (EnsureWallet tenantID "USD")).
  unfold mbind, DB_bind. unfold attempt at 1. destruct (EnsureWallet tenantID "USD" w) as [r w1]. cbn [snd] in Hen.
  assert (∀ status, status ≠ 200 → status ≠ 201 →
    let '(a, w') := writeError status w1 in ∃ rep t1, a = Ok rep ∧ ensured tenantID (tables w) t1 ∧
    reply_tells (topup_movement tenantID who rq) (rp_status rep) t1 (tables w')) as Hno.
  { intros status H1 H2. eexists _, _. split; [done|]. split; [exact Hen|]. unfold reply_tells. cbn.
    rewrite (proj2 (Z.eqb_neq _ _) H1), (proj2 (Z.eqb_neq _ _) H2). by left. }
  destruct r as [[]|e]; [|destruct e; by apply Hno]. clear Hno.
  pose proof (ApplyMovement_result (topup_movement tenantID who rq) w1 ltac:(by apply checked_amount)) as Ha.
  unfold attempt. destruct (ApplyMovement _ w1) as [r w2]. destruct Ha as [H1 H2].
  pose proof (moved_reply_wp (topup_movement tenantID who rq) r (tables w1) (tables w2) H1 H2 w2 eq_refl) as Hm.
  cbn [Movement_TenantID Movement_ID Movement_Kind Movement_Amount topup_movement] in Hm.
  destruct (moved_reply _ _ _ _ r w2) as [a w']. destruct Hm as (-> & rep & -> & Ht). eauto.
Qed.

(** An amount the console lets through and the column holds. *)
Record sound_amount (amount : Decimal) (z : numeric) : Prop := {
  sa_go : go_string amount;
  sa_money : checkMoney "amount" amount = Ok tt;
  sa_sign : ∃ s, Decimal_Sign amount = Some s ∧ 0 < s;
  sa_value : ∃ q, rat_set_string amount = Some q ∧ (q == z # 10 ^ 12)%Q
}.

Lemma sound_amount_in amount z : sound_amount amount z →
  pg_trim amount = amount ∧ (Z.abs z < numeric_limit → numeric_in amount = Ok z) ∧ 0 < z ∧
  sameMoney (numeric_out z) amount = true.
Proof.
  intros [Hg Hm (s & Hs & Hp) (q & Hq & Hz)].
  assert (pg_trim amount = amount) as Ht by (by apply pg_trim_money, (rat_set_string_money _ q)).
  destruct (rat_round_value q z Hz) as [Hr _]. split_and!; [done|..].
  - intros Hl. unfold numeric_in. rewrite Ht, Hq, Hr. unfold numeric_fits.
    by rewrite (proj2 (Z.ltb_lt _ _) Hl).
  - destruct (checkMoney_units _ _ _ Hg Hm Hs) as (q' & z' & Hq' & Hz' & _ & Hsg).
    rewrite (pg_trim_reads amount q) in Hq' by (by rewrite Ht). rewrite Ht, Hq in Hq'. injection Hq' as <-.
    assert (z = z') as ->.
    { rewrite Hz in Hz'. unfold Qeq in Hz'. cbn in Hz'. lia. }
    destruct (Z.sgn_spec z') as [[? ?]|[[? ?]|[? ?]]]; lia.
  - unfold sameMoney. rewrite rat_set_string_out, Hq. apply Qeq_bool_iff. by rewrite Hz, units_spec.
Qed.

Lemma applyMovement_calm m wl z t :
  Movement_ID m ≠ ""%string → Movement_TenantID m ≠ ""%string → Movement_Kind m = "topup"%string →
  sound_amount (Movement_Amount m) z → Z.abs (tw_balance wl) + z < numeric_limit →
  tenant_wallets t !! Movement_TenantID m = Some wl →
  if existsb (λ j, String.eqb (wt_id j) (Movement_ID m)) (wallet_transactions t)
  then ∃ w', applyMovement m (World t []) = (Err EUniqueViolation, w') ∧ faults w' = []
  else ∃ tr t', applyMovement m (World t []) = (Ok tr, World t' []).
Proof.
  intros Hid Htn Hk Hs Hl Hw. pose proof (sound_amount_in _ _ Hs) as (Ht & Hin & Hz & _).
  destruct Hs as [Hg Hm (s & Hsg & Hp) (q & Hq & Hqz)].
  assert (numeric_fits (rat_round 12 (units (tw_balance wl) + q)) = Ok (tw_balance wl + z)) as Hfit.
  { assert (rat_round 12 (units (tw_balance wl) + q) = tw_balance wl + z) as ->.
    { apply rat_round_value. rewrite Hqz, <-(units_spec z), units_plus. apply units_spec. }
    unfold numeric_fits. by rewrite (proj2 (Z.ltb_lt (Z.abs (tw_balance wl + z)) _)) by lia. }
  unfold applyMovement. rewrite !(proj2 (String.eqb_neq _ _)) by done. cbn [orb]. rewrite Hm.
  unfold checkMovementKind. rewrite Hsg, Hk. rewrite bool_decide_true by done.
  rewrite (proj2 (Z.leb_gt s 0)) by done.
  rewrite (bind_calm _ _ _ (numeric_out (tw_balance wl)) (World t []))
    by (unfold lock_wallet; rewrite query_calm, Hw; done).
  rewrite (bind_calm _ _ _ (numeric_out (tw_balance wl + z))
    (World (set_wallets <[Movement_TenantID m := WalletRow (tw_currency wl) (tw_balance wl + z)]> t) []))
    by (unfold move_balance; rewrite stmt_calm, Hw, Ht, Hq, Hfit; done).
  assert (∀ r t2, numeric_in (Movement_Amount m) = Ok z → numeric_in (numeric_out (tw_balance wl + z)) = Ok (tw_balance wl + z) →
    kind_amount_ok (Movement_Kind m) z = true → is_Some (tenant_wallets t2 !! Movement_TenantID m) →
    r = record_transaction m (numeric_out (tw_balance wl + z)) (World t2 []) →
    if existsb (λ j, String.eqb (wt_id j) (Movement_ID m)) (wallet_transactions t2)
    then r = (Err EUniqueViolation, World t2 []) else ∃ created t', r = (Ok created, World t' [])) as Hrec.
  { intros r t2 H1 H2 H3 H4 ->. unfold record_transaction. rewrite stmt_calm, H1, H2. cbn [mbind result_bind].
    rewrite H3. cbn [negb]. destruct (existsb _ _); [done|]. rewrite bool_decide_true by done. cbn. eauto. }
  match goal with |- context [record_transaction m _ ≫= ?k] => set (rest := k) end.
  specialize (Hrec _ (set_wallets <[Movement_TenantID m := WalletRow (tw_currency wl) (tw_balance wl + z)]> t)
    ltac:(apply Hin; lia) ltac:(rewrite numeric_in_out; unfold numeric_fits; rewrite (proj2 (Z.ltb_lt _ _)); [done|lia])
    ltac:(rewrite Hk; unfold kind_amount_ok; by rewrite (proj2 (Z.ltb_lt 0 z) Hz))
    ltac:(cbn; rewrite lookup_insert_eq; by eexists) eq_refl).
  cbn [wallet_transactions set_wallets] in Hrec. destruct (existsb _ _).
  - eexists. split; [by apply bind_stops|done].
  - destruct Hrec as (created & t' & E). eexists _, _. by rewrite (bind_calm _ _ _ _ _ E).
Qed.

(** ** A top-up, however often it is sent *)

Definition balance_of (tenantID : string) (t : db) : numeric :=
  default 0 (tw_balance <$> tenant_wallets t !! tenantID).

(** The journal row of the top-up. *)
Definition topup_row (tenantID id : string) (z : numeric) (j : journal_row) : Prop :=
  wt_id j = id ∧ wt_tenant_id j = tenantID ∧ wt_kind j = "topup"%string ∧ wt_amount j = z.

Record topup_progress (tenantID id : string) (z : numeric) (t0 : db) (done : bool) (t : db) : Prop := {
  tp_tenants : tenants t = tenants t0;
  tp_journal : if done then ∃ j, wallet_transactions t = wallet_transactions t0 ++ [j] ∧ topup_row tenantID id z j
               else wallet_transactions t = wallet_transactions t0;
  tp_balance : balance_of tenantID t = balance_of tenantID t0 + (if done then z else 0);
  tp_wallet : done = true → is_Some (tenant_wallets t !! tenantID);
  tp_others : ∀ k, k ≠ tenantID → tenant_wallets t !! k = tenant_wallets t0 !! k
}.

(** One request, sent by some operator, meeting some faults. *)
Definition send_topup (path : string) (rq : topupRequest) (t : db) (sent : string * list fault) : db :=
  tables (handleTopup true sent.1 path (Some rq) (World t sent.2)).2.

Section retries.
  Context (path : string) (rq : topupRequest) (z : numeric) (t0 : db).
  Context (Hamount : sound_amount (tq_Amount rq) z).
  Context (Hfresh : ∀ j, j ∈ wallet_transactions t0 → wt_id j ≠ tq_ID rq).

Abbreviation tenantID := (trim_space path).
Abbreviation state := (topup_progress tenantID (tq_ID rq) z t0).

Lemma progress_ensured done t t1 : ensured tenantID t t1 → state done t → state done t1.
Proof using Type.
  intros [->|(_ & Hn & ->)] [H1 H2 H3 H4 H5]; [by split|]. split; try done.
  - rewrite <-H3. unfold balance_of. cbn. by rewrite lookup_insert_eq, Hn.
  - intros _. cbn. by rewrite lookup_insert_eq.
  - intros k Hk. cbn. rewrite lookup_insert_ne by done. by apply H5.
Qed.

Lemma progress_credited who done t t1 :
  credited (topup_movement tenantID who rq) t t1 → state done t → state true t1 ∧ done = false.
Proof using Hamount Hfresh.
  intros (wl & z' & Hw & Hz & Hid & ->) [H1 H2 H3 H4 H5]. cbn [Movement_TenantID Movement_Amount Movement_ID topup_movement] in *.
  destruct done.
  { destruct H2 as (j & Hj & Hi & _). destruct (Hid j); [|done]. rewrite Hj. set_solver. }
  assert (z' = z) as ->.
  { destruct (sound_amount_in _ _ Hamount) as (Ht & _). unfold numeric_in in Hz. rewrite Ht in Hz.
    destruct Hamount as [_ _ _ (q & Hq & Hqz)]. rewrite Hq in Hz. apply numeric_fits_Ok in Hz as [-> _].
    by apply rat_round_value. }
  split; [|done]. split; try done.
  - eexists. unfold moved. cbn. rewrite H2. split; [done|]. by split_and!.
  - rewrite <-(Z.add_cancel_r _ _ z) in H3. unfold balance_of in *. cbn. rewrite lookup_insert_eq.
    rewrite Hw in H3. cbn in *. lia.
  - intros _. cbn. by rewrite lookup_insert_eq.
  - intros k Hk. cbn. rewrite lookup_insert_ne by done. by apply H5.
Qed.

Lemma progress_told who done t t1 status :
  reply_tells (topup_movement tenantID who rq) status t t1 → state done t →
  ∃ done', state done' t1 ∧ (status = 201 ∨ status = 200 → done' = true).
Proof using Hamount Hfresh.
  unfold reply_tells. intros H Hs. destruct (Z.eqb_spec status 201) as [H1|H1].
  { exists true. split; [|done]. by eapply progress_credited. }
  destruct (Z.eqb_spec status 200) as [H2|H2].
  - destruct H as [-> (j & Hj & Hi & _)]. exists done. split; [done|]. intros _. destruct done; [done|].
    exfalso. apply (Hfresh j); [|done]. by rewrite (tp_journal _ _ _ _ _ _ Hs) in Hj.
  - destruct H as [->|Hc]; [exists done|exists true]; (split; [|naive_solver]); [done|].
    by eapply progress_credited.
Qed.

Lemma progress_sent done t who fs : state done t → ∃ done', state done' (send_topup path rq t (who, fs)) ∧
  ∀ rep, (handleTopup true who path (Some rq) (World t fs)).1 = Ok rep →
    rp_status rep = 201 ∨ rp_status rep = 200 → done' = true.
Proof using Hamount Hfresh.
  intros Hs. pose proof (handleTopup_contract who path rq (World t fs) (sa_go _ _ Hamount)) as H.
  unfold send_topup. cbn [fst snd]. destruct (handleTopup _ _ _ _ _) as [a w']. cbn [fst snd].
  destruct H as (rep & t1 & -> & He & Ht). cbn [tables] in He.
  destruct (progress_told who done t1 (tables w') (rp_status rep) Ht (progress_ensured _ _ _ He Hs)) as (d & Hd & Hr).
  exists d. split; [done|]. intros rep' [= <-]. apply Hr.
Qed.

Lemma progress_sends sent : ∃ done, state done (foldl (send_topup path rq) t0 sent).
Proof using Hamount Hfresh.
  induction sent as [|[who fs] sent [d IH]] using rev_ind.
  - exists false. split; try done. cbn. lia.
  - rewrite foldl_app. destruct (progress_sent d _ who fs IH) as (d' & H & _). by exists d'.
Qed.

(** Sent once more with nothing failing, the request is answered. *)
Lemma calm_topup who done t :
  tenantID ∈ tenants t0 → tenantID ≠ ""%string → blank (tq_ID rq) = false →
  Z.abs (balance_of tenantID t0) + 2 * z < numeric_limit → state done t →
  ∃ rep, (handleTopup true who path (Some rq) (World t [])).1 = Ok rep ∧
    rp_status rep = if done then 200 else 201.
Proof using Hamount Hfresh.
  intros Htn Hne Hid Hl Hs. pose proof (sound_amount_in _ _ Hamount) as (_ & _ & Hz & Hsame).
  unfold handleTopup. rewrite (proj2 (String.eqb_neq _ _) Hne), Hid.
  destruct (sa_sign _ _ Hamount) as (s & -> & Hp). rewrite (proj2 (Z.ltb_lt 0 s)) by done.
  rewrite (sa_money _ _ Hamount). cbn [negb is_ok].
  assert (∃ t1 wl, EnsureWallet tenantID "USD" (World t []) = (Ok tt, World t1 []) ∧ state done t1 ∧
    tenant_wallets t1 !! tenantID = Some wl) as (t1 & wl & E & Hs1 & Hw).
  { unfold EnsureWallet. rewrite (proj2 (String.eqb_neq _ _) Hne). unfold exec. rewrite stmt_calm.
    rewrite bool_decide_true by (by rewrite (tp_tenants _ _ _ _ _ _ Hs)). cbn [negb String.eqb].
    destruct (tenant_wallets t !! tenantID) as [wl|] eqn:Ew; cbn.
    - exists t, wl. by split_and!.
    - eexists _, _. split; [done|]. split; [|cbn; by rewrite lookup_insert_eq].
      eapply progress_ensured; [right; split_and!; [|done..]|done]. by rewrite (tp_tenants _ _ _ _ _ _ Hs). }
  rewrite (bind_calm _ _ _ _ _ (attempt_calm _ _ _ _ E)).
  pose proof (applyMovement_calm (topup_movement tenantID who rq) wl z t1) as Ha.
  cbn [Movement_TenantID Movement_Amount Movement_ID Movement_Kind topup_movement] in Ha.
  assert (tw_balance wl = balance_of tenantID t0 + (if done then z else 0)) as Hb.
  { rewrite <-(tp_balance _ _ _ _ _ _ Hs1). unfold balance_of. by rewrite Hw. }
  specialize (Ha ltac:(intros E'; by rewrite E' in Hid) Hne eq_refl Hamount ltac:(destruct done; lia) Hw).
  destruct done; cycle 1.
  - destruct (existsb _ _) eqn:Hx.
    { exfalso. apply existsb_Exists in Hx as (j & Hj & Hi%String.eqb_eq). apply (Hfresh j); [|done].
      by rewrite (tp_journal _ _ _ _ _ _ Hs1) in Hj. }
    destruct Ha as (tr & t2 & Ea).
    rewrite (bind_calm _ _ _ (Ok tr) (World t2 [])); [by eexists|]. apply attempt_calm.
    unfold ApplyMovement, transaction, transaction_if, next_fault. cbn [faults tables].
    by rewrite (bind_calm _ _ _ _ _ Ea).
  - destruct (tp_journal _ _ _ _ _ _ Hs1) as (j & Hj & Hi & Hjt & Hjk & Hjz).
    destruct (existsb _ _) eqn:Hx; cycle 1.
    { exfalso. apply not_true_iff_false in Hx. apply Hx, existsb_Exists. exists j. rewrite Hj.
      split; [set_solver|]. by rewrite Hi, String.eqb_refl. }
    destruct Ha as (w' & Ea & Hf).
    rewrite (bind_calm _ _ _ (Err EUniqueViolation) (World t1 [])); cycle 1.
    { apply attempt_calm. unfold ApplyMovement, transaction, transaction_if, next_fault. cbn [faults tables].
      by rewrite (bind_stops _ _ _ _ _ Ea), Hf. }
    cbn [moved_reply]. unfold confirmReplay, replayMovement.
    assert (list_find (λ j, wt_id j = tq_ID rq ∧ wt_tenant_id j = tenantID) (wallet_transactions t1)
      = Some (length (wallet_transactions t0), j)) as Hfind.
    { apply list_find_Some. rewrite Hj. split_and!; [|done..|].
      - apply list_lookup_middle. done.
      - intros i y Hy Hlt [Hyi _]. rewrite lookup_app_l in Hy by done.
        apply (Hfresh y); [by eapply list_elem_of_lookup_2|done]. }
    rewrite (bind_calm _ _ _ (Some (movement_view (scan_transaction j))) (World t1 [])); cycle 1.
    { rewrite (bind_calm _ _ _ (Some (movement_view (scan_transaction j))) (World t1 [])); cycle 1.
      - rewrite (bind_calm _ _ _ (Ok (movement_view (scan_transaction j))) (World t1 [])); [done|].
        apply attempt_calm. by rewrite query_calm, Hfind.
      - unfold mret, DB_ret. cbn. rewrite Hjk, String.eqb_refl, Hjz, Hsame. done. }
    eexists. by split.
Qed.
End retries.

(** C14 A top-up is credited once however often it is sent.  For an amount that is
    a plain money literal -- no white space around it; one that is padded is
    answered 409 when it is sent again, [replay_check_misses] -- with an id that is
    not blank and that the journal does not know yet, for a tenant that exists and whose balance has
    room for it: send the same request any number of times, by any operators, each
    time with any statement, begin or commit failing or its outcome lost; then
    send it once more, undisturbed.  That answer is 201 or 200, the journal has
    gained exactly one row, the tenant's balance exactly the amount, and no other
    wallet has moved. *)
Theorem topup_credited_once path rq z t0 sent who :
  sound_amount (tq_Amount rq) z → (∀ j, j ∈ wallet_transactions t0 → wt_id j ≠ tq_ID rq) →
  trim_space path ∈ tenants t0 → trim_space path ≠ ""%string → blank (tq_ID rq) = false →
  Z.abs (balance_of (trim_space path) t0) + 2 * z < numeric_limit →
  let '(r, w') := handleTopup true who path (Some rq) (World (foldl (send_topup path rq) t0 sent) []) in
  ∃ rep j, r = Ok rep ∧ (rp_status rep = 201 ∨ rp_status rep = 200) ∧
    wallet_transactions (tables w') = wallet_transactions t0 ++ [j] ∧
    topup_row (trim_space path) (tq_ID rq) z j ∧
    balance_of (trim_space path) (tables w') = balance_of (trim_space path) t0 + z ∧
    ∀ k, k ≠ trim_space path → tenant_wallets (tables w') !! k = tenant_wallets t0 !! k.
Proof.
  intros Ha Hf Htn Hne Hid Hl. destruct (progress_sends path rq z t0 Ha Hf sent) as [done Hs].
  destruct (calm_topup path rq z t0 Ha Hf who done _ Htn Hne Hid Hl Hs) as (rep & Hr & Hst).
  destruct (progress_sent path rq z t0 Ha Hf done _ who [] Hs) as (done' & Hs' & Hd).
  unfold send_topup in Hs'. cbn [fst snd] in Hs'. destruct (handleTopup _ _ _ _ _) as [r w']. cbn [fst snd] in *.
  subst r. specialize (Hd rep eq_refl ltac:(destruct done; auto)) as ->.
  destruct Hs' as [_ (j & Hj & Hrow) Hb _ Ho]. exists rep, j. split_and!; try done. destruct done; auto.
Qed.

Definition five : topupRequest := {| tq_ID := "top-1"; tq_Amount := "5.00"; tq_Note := "invoice 7" |}.

Lemma five_sound : sound_amount (tq_Amount five) 5000000000000.
Proof.
  split; [vm_compute; done|by vm_compute|exists 1; by vm_compute|].
  eexists. split; [vm_compute; reflexivity|]. by vm_compute.
Qed.

(** Two operators send it, the first commit's outcome is lost. *)
Definition lost_commit : list fault := [NoFault; NoFault; NoFault; NoFault; NoFault; Unknown].
Definition two_sends : list (string * list fault) := [("ann"%string, lost_commit); ("bob"%string, [NoFault; Lost])].
Definition one_tenant : db := empty_db {["t1"%string]} 10.

Lemma topup_credited_once_witness :
  let '(r, w') := handleTopup true "bob" " t1" (Some five) (World (foldl (send_topup " t1" five) one_tenant two_sends) []) in
  ∃ rep j, r = Ok rep ∧ (rp_status rep = 201 ∨ rp_status rep = 200) ∧
    wallet_transactions (tables w') = [j] ∧ topup_row "t1" "top-1" 5000000000000 j ∧
    balance_of "t1" (tables w') = 5000000000000.
Proof.
  pose proof (topup_credited_once " t1" five 5000000000000 one_tenant two_sends "bob" five_sound
    ltac:(intros j Hj; by apply elem_of_nil in Hj) ltac:(apply (bool_decide_unpack _); vm_compute; exact I)
    ltac:(by vm_compute) ltac:(by vm_compute) ltac:(by vm_compute)) as H.
  destruct (handleTopup _ _ _ _ _) as [r w']. destruct H as (rep & j & H1 & H2 & H3 & H4 & H5 & _).
  exists rep, j. split_and!; [exact H1|exact H2|exact H3| |exact H5].
  revert H4. unfold topup_row. replace (trim_space " t1") with "t1"%string by (vm_compute; reflexivity). exact (λ x, x).
Defined.

Definition status_of (a : result db_error reply) : Z := match a with Ok rep => rp_status rep | Err _ => 0 end.

(** Where the replay check errs: a movement that is on record, asked for again,
    is answered 409 -- "used for a different movement" -- when the read that
    looks it up fails, and when its amount was written with a space in front;
    an operator who then follows the advice and takes a new id is credited
    twice. *)
Theorem replay_check_misses :
  let t1 := tables (handleTopup true "ann" "t1" (Some five) (World one_tenant lost_commit)).2 in
  let a2 := handleTopup true "ann" "t1" (Some five) (World t1 [NoFault; NoFault; NoFault; NoFault; NoFault; Lost]) in
  let renamed := {| tq_ID := "top-2"; tq_Amount := "5.00"; tq_Note := "invoice 7" |} in
  let a3 := handleTopup true "ann" "t1" (Some renamed) (World (tables a2.2) []) in
  let padded := {| tq_ID := "top-3"; tq_Amount := " 5.00"; tq_Note := "" |} in
  let b1 := handleTopup true "ann" "t1" (Some padded) (World one_tenant []) in
  let b2 := handleTopup true "ann" "t1" (Some padded) (World (tables b1.2) []) in
  on_record (topup_movement "t1" "ann" five) t1 ∧ status_of a2.1 = 409 ∧ status_of a3.1 = 201 ∧
  balance_of "t1" (tables a3.2) = 2 * 5000000000000 ∧
  status_of b1.1 = 201 ∧ status_of b2.1 = 409.
Proof.
  cbv zeta. split; [|vm_compute; done].
  eexists. split; [apply (list_elem_of_lookup_2 _ 0); vm_compute; reflexivity|].
  split; [|split; [|split]]; vm_compute; reflexivity.
Qed.

(** ** The token buckets *)

(** The answers to a sequence of requests: [true] is admitted. *)
Fixpoint decide_all (l : consoleLimiter) (requests : list (consoleAccess * time)) : list (consoleAccess * bool) :=
  match requests with
  | [] => []
  | (kind, now) :: rest =>
      let '(refused, l') := allow l kind now in
      (kind, bool_decide (refused = None)) :: decide_all l' rest
  end.

(** Two limiters with the same bucket of [kind]. *)
Record same_bucket (kind : consoleAccess) (l l' : consoleLimiter) : Prop := {
  sb_tokens : lm_tokens l !! kind = lm_tokens l' !! kind;
  sb_updated : lm_updated l !! kind = lm_updated l' !! kind;
  sb_burst : lm_burst l = lm_burst l';
  sb_refill : lm_refill l = lm_refill l'
}.

Lemma allow_same kind now l l' : same_bucket kind l l' →
  (allow l kind now).1 = (allow l' kind now).1 ∧ same_bucket kind (allow l kind now).2 (allow l' kind now).2.
Proof.
  intros [H1 H2 H3 H4].
  assert (refilled l kind now = refilled l' kind now) as Hr by (unfold refilled; by rewrite H1, H2, H3, H4).
  unfold allow. rewrite Hr, H4. destruct (negb _); cbn; (split; [done|]); split; cbn; try done;
    by rewrite !lookup_insert_eq.
Qed.

Lemma allow_other kind other now l l' : other ≠ kind → same_bucket kind l l' →
  same_bucket kind (allow l other now).2 l'.
Proof.
  intros Hne [H1 H2 H3 H4]. unfold allow. destruct (negb _); cbn; split; cbn; try done;
    by rewrite lookup_insert_ne.
Qed.

(** C37 Reads and writes are throttled apart: which requests of a kind are admitted
    depends on the requests of that kind alone, so a flood of reads can not
    keep an operator from acting (and the other way round), however the two
    interleave and whatever the clock does. *)
Theorem console_buckets_apart kind l requests :
  filter (λ d, d.1 = kind) (decide_all l requests) = decide_all l (filter (λ r, r.1 = kind) requests).
Proof.
  enough (∀ l l', same_bucket kind l l' →
    filter (λ d, d.1 = kind) (decide_all l requests) = decide_all l' (filter (λ r, r.1 = kind) requests)) as H
    by (apply H; by split).
  induction requests as [|[k now] rest IH]; intros l1 l2 Hs; [done|]. cbn [decide_all].
  rewrite filter_cons. cbn [fst]. destruct (decide (k = kind)) as [->|Hne].
  - pose proof (allow_same kind now l1 l2 Hs) as [H1 H2]. cbn [decide_all].
    destruct (allow l1 kind now) as [r1 l1'], (allow l2 kind now) as [r2 l2']. cbn in H1, H2.
    rewrite filter_cons. cbn [fst]. rewrite decide_True by done. subst. f_equal. by apply IH.
  - pose proof (allow_other kind k now l1 l2 Hne Hs) as H.
    destruct (allow l1 k now) as [r1 l1']. cbn in H. rewrite filter_cons. cbn [fst]. rewrite decide_False by done. by apply IH.
Qed.

(** At one instant a fresh bucket admits exactly its burst. *)
Example console_burst :
  let fresh := newConsoleLimiter consoleRateBurst consoleRateRefill in
  length (filter (λ d : consoleAccess * bool, d.2 = true) (decide_all fresh (replicate 40 (consoleReadWrite, 7)))) = 30%nat.
Proof. vm_compute. reflexivity. Qed.

(** ** Witness of the token rule *)

Definition demo_console : Console :=
  {| cs_Auth := {| Token := "s3cret"; ReadOnlyToken := "look" |}; cs_DB := true; cs_Detail := false; cs_Now := 10;
     cs_runID := "held-1"; cs_timestamptz := parse_rfc3339; cs_ParseLimit := λ _, None; cs_Query := Ok tt |}.

Definition demo_request : request :=
  {| rq_Method := "POST"; rq_Authorization := "Bearer s3cret"; rq_Operator := "ann"; rq_route := PostTopup "t1" (Some five) |}.

Lemma console_writes_need_the_token_witness :
  access (cs_Auth demo_console) (rq_Authorization demo_request) = consoleReadWrite ∧ rq_Method demo_request = "POST"%string.
Proof.
  destruct (console_writes_need_the_token demo_console (newConsoleLimiter consoleRateBurst consoleRateRefill)
    demo_request (World one_tenant [])) as (H1 & H2 & _).
  - intros H. apply (f_equal (λ t, length (wallet_transactions t))) in H. revert H. vm_compute. discriminate.
  - split; [exact H1|exact H2].
Defined.

(** ** An audit text cut in the middle of a character *)

Fixpoint repeat_text (n : nat) (s : string) : string :=
  match n with O => EmptyString | S n' => (s +:+ repeat_text n' s)%string end.

(** One CJK character, three bytes; 167 of them are one byte too many. *)
Definition long_reason : string := repeat_text 167 (chr 231 +:+ chr 187 +:+ chr 180).

Definition cooled_db : db :=
  set_accounts (λ _, {[ "acct"%string := {| ac_status := "active"; ac_fence_epoch := 7; ac_platform := "openai";
    ac_last_error_class := Some "blocked"%string; ac_last_error_at := Some 5; ac_consecutive_failures := 2;
    ac_cooldown_until := Some 900; ac_excluded_models := []; ac_provider := "openai"; ac_group := "default";
    ac_capabilities := ["gpt"%string];
    ac_setup := AccountSetup "ops" "7" "" "" "{}" "{}"; ac_quota := "{}" |} ]}) one_tenant.

(** C39 A reason of more than 500 bytes can make an action impossible: it is cut
    after 500 bytes, in the middle of a character, PostgreSQL refuses the audit
    row, and clearing the cooldown answers 500 and is rolled back -- while the
    reason itself was well formed and a shorter one goes through. *)
Theorem long_reason_blocks_action :
  let refused := handleClearCooldown true "ann" "acct" long_reason (World cooled_db []) in
  valid_utf8 long_reason = true ∧ status_of refused.1 = 500 ∧ tables refused.2 = cooled_db ∧
  status_of (handleClearCooldown true "ann" "acct" "ok now" (World cooled_db [])).1 = 200.
Proof. vm_compute. split_and!; reflexivity. Qed.
