(* ===== verification/ConsolePages.v ===== *)
(** * Reading the console's lists to the end

    [handleHeld] and [handleAccounts], called again with the cursor of the last
    page until there is none, are the abstract walk below: every row once,
    none missed, however the tables change in between. *)

From S2P Require Import Prelude Decimal Money Numeric GoTime Cursor Db Billing BillingFacts MoneyInvariant Held Console ConsoleAccounts ConsoleFacts.

(** * Keyset paging

    The argument of internal/control/console_cursor.go, free of rows and
    cursors: pages of a list sorted by a key, each page continuing strictly
    after the last element the previous one showed, over a list that may change
    between pages. *)

Section paging.
  Context {A : Type} (le : relation A) `{!RelDecision le, !Transitive le, !Total le}.
  Context (n : nat).

Definition beyond (p : option A) (y : A) : bool :=
  match p with Some x => negb (bool_decide (le y x)) | None => true end.

Lemma beyond_spec p y : beyond p y = true ↔ match p with Some x => ¬ le y x | None => True end.
Proof using Type. destruct p; cbn; [|done]. by rewrite negb_true_iff, bool_decide_eq_false. Qed.

(** What is left of [u] after the element [p]. *)
Definition left_after (p : option A) (u : list A) : list A :=
  merge_sort le (filter (λ y, beyond p y = true) u).

(** One page from each of [us] in turn until a page is the last; [None] when
    [us] runs out first. *)
Fixpoint walk (p : option A) (us : list (list A)) : option (list A) :=
  match us with
  | [] => None
  | u :: us' =>
      let '(shown, more) := read_page n (left_after p u) in
      if more : bool then app shown <$> walk (list.last shown) us' else Some shown
  end.

Lemma read_page_spec {B} k (rows : list B) :
  read_page k rows = (take k rows, Nat.ltb k (length rows)).
Proof using Type.
  revert rows. induction k as [|k IH]; intros [|x rows]; cbn; try done. rewrite IH. done.
Qed.

Lemma left_after_elem p u y : y ∈ left_after p u ↔
  match p with Some x => ¬ le y x | None => True end ∧ y ∈ u.
Proof using Type. unfold left_after. by rewrite merge_sort_Permutation, list_elem_of_filter, beyond_spec. Qed.

Lemma left_after_None u : left_after None u = merge_sort le u.
Proof using Type.
  unfold left_after. f_equal. induction u as [|y u IH]; [done|]. by rewrite filter_cons_True, IH.
Qed.

(** Strictly increasing keys. *)
Definition increasing : list A → Prop := StronglySorted (λ x y, ¬ le y x).

(** No two elements of [u] share a key. *)
Definition keyed (u : list A) : Prop := NoDup u ∧ ∀ x y, x ∈ u → y ∈ u → le x y → le y x → x = y.

Lemma sorted_increasing u l : keyed u → l ⊆+ u → StronglySorted le l → increasing l.
Proof using Type.
  intros [Hnd Hk] Hl Hs. assert (NoDup l) as Hndl.
  { apply submseteq_Permutation in Hl as [k Hl]. rewrite Hl in Hnd. by apply list.NoDup_app in Hnd as (? & _). }
  assert (∀ x, x ∈ l → x ∈ u) as Hin by (intros x Hx; by eapply elem_of_submseteq).
  clear Hl Hnd. induction Hs as [|x l Hs IH Hx]; [constructor|].
  apply list.NoDup_cons in Hndl as [Hxl Hndl]. constructor.
  - apply IH; [done|]. intros y Hy. by apply Hin, list_elem_of_further.
  - apply list.Forall_forall. intros y Hy Hyx. apply Hxl.
    rewrite (Hk x y); [done|apply Hin, list_elem_of_here|by apply Hin, list_elem_of_further| |done].
    by apply (proj1 (list.Forall_forall _ _) Hx).
Qed.

Lemma left_after_increasing p u : keyed u → increasing (left_after p u).
Proof using All.
  intros Hk. apply (sorted_increasing u); [done| |].
  - unfold left_after. rewrite merge_sort_Permutation. apply sublist_submseteq, sublist_filter.
  - apply StronglySorted_merge_sort; apply _.
Qed.

Lemma last_max shown x y : increasing shown → list.last shown = Some x → y ∈ shown → le y x.
Proof using All.
  intros Hi Hl Hy. destruct shown as [|z l _] using rev_ind; [done|].
  rewrite last_snoc in Hl. injection Hl as ->. apply elem_of_app in Hy as [Hy|Hy%list_elem_of_singleton].
  - unfold increasing in Hi. apply StronglySorted_app in Hi as (H & _).
    specialize (H y x Hy ltac:(apply list_elem_of_here)).
    destruct (total le y x); done.
  - subst. destruct (total le x x); done.
Qed.

Lemma page_nonempty {B} (l : list B) : (0 < n)%nat → Nat.ltb n (length l) = true → is_Some (list.last (take n l)).
Proof using Type.
  intros Hn Hl%Nat.ltb_lt. apply last_is_Some. destruct l, n; cbn in *; try lia. done.
Qed.

Lemma page_more p u y : keyed u → y ∈ left_after p u → y ∉ take n (left_after p u) →
  ∀ x, x ∈ take n (left_after p u) → ¬ le y x.
Proof using All.
  intros Hk Hy Hn x Hx. pose proof (left_after_increasing p u Hk) as Hi.
  rewrite <-(take_drop n (left_after p u)) in Hi, Hy. apply elem_of_app in Hy as [Hy|Hy]; [done|].
  apply StronglySorted_app in Hi as (H & _). by apply H.
Qed.

(** No key twice, and nothing missed that was there on every page. *)
Lemma walk_exact us : (0 < n)%nat → Forall keyed us → ∀ p l, walk p us = Some l →
  increasing l ∧ (∀ y, y ∈ l → match p with Some x => ¬ le y x | None => True end) ∧
  ∀ z, match p with Some x => ¬ le z x | None => True end →
    (∀ u, u ∈ us → ∃ y, y ∈ u ∧ le y z ∧ le z y) → ∃ y, y ∈ l ∧ le y z ∧ le z y.
Proof using All.
  intros Hn Hus. induction Hus as [|u us Hk Hus IH]; intros p l; [done|]. cbn [walk].
  rewrite read_page_spec. pose proof (left_after_increasing p u Hk) as Hi.
  assert (∀ z, match p with Some x => ¬ le z x | None => True end →
    (∀ u', u' ∈ u :: us → ∃ y, y ∈ u' ∧ le y z ∧ le z y) → ∃ y, y ∈ left_after p u ∧ le y z ∧ le z y) as Hfind.
  { intros z Hz Hall. destruct (Hall u ltac:(apply list_elem_of_here)) as (y & Hy & Hyz & Hzy).
    exists y. split; [|done]. apply left_after_elem. split; [|done]. destruct p as [x|]; [|done].
    intros Hyx. apply Hz. by transitivity y. }
  destruct (Nat.ltb n (length (left_after p u))) eqn:Hm.
  - intros (l' & Hw & ->)%fmap_Some. destruct (page_nonempty _ Hn Hm) as [x Hx]. rewrite Hx in Hw.
    destruct (IH _ _ Hw) as (Hinc & Hafter & Hall). cbn in Hafter.
    assert (increasing (take n (left_after p u))) as Hit.
    { pose proof Hi as Hi'. rewrite <-(take_drop n (left_after p u)) in Hi'. by apply StronglySorted_app in Hi' as (_ & ? & _). }
    split_and!.
    + apply StronglySorted_app. split_and!; [|done..]. intros a b Ha Hb Hba. apply (Hafter b Hb).
      transitivity a; [done|]. by eapply last_max.
    + intros y [Hy|Hy]%elem_of_app.
      * apply (left_after_elem p u y). rewrite <-(take_drop n (left_after p u)). apply elem_of_app. by left.
      * specialize (Hafter y Hy). destruct p as [q|]; [|done]. intros Hyq. apply Hafter. transitivity q; [done|].
        assert (x ∈ left_after (Some q) u) as Hxin.
        { rewrite <-(take_drop n (left_after (Some q) u)). apply elem_of_app. left. by apply last_Some_elem_of. }
        apply left_after_elem in Hxin as [Hxq _]. destruct (total le q x); done.
    + intros z Hz Hin. destruct (Hfind z Hz Hin) as (y & Hy & Hyz & Hzy).
      destruct (decide (le y x)) as [Hyx|Hyx].
      * exists y. split; [|done]. apply elem_of_app. left.
        rewrite <-(take_drop n (left_after p u)) in Hy. apply elem_of_app in Hy as [Hy|Hy]; [done|].
        exfalso. rewrite <-(take_drop n (left_after p u)) in Hi. apply StronglySorted_app in Hi as (H & _).
        apply (H x y); [|done..]. by apply last_Some_elem_of.
      * destruct (Hall z) as (y' & Hy' & ?).
        -- intros Hzx. apply Hyx. by transitivity z.
        -- intros u' Hu'. by apply Hin, list_elem_of_further.
        -- exists y'. split; [|done]. apply elem_of_app. by right.
  - intros [= <-]. apply Nat.ltb_ge in Hm. rewrite take_ge by done. split_and!; [done| |done].
    intros y Hy. by apply left_after_elem in Hy as [? _].
Qed.

(** The pages of a list at rest: what is left after a page is its rest. *)
Lemma left_after_page p u x : keyed u → list.last (take n (left_after p u)) = Some x →
  left_after (Some x) u = drop n (left_after p u).
Proof using All.
  intros Hk Hx. pose proof (left_after_increasing p u Hk) as Hi. pose proof (left_after_increasing (Some x) u Hk) as Hi'.
  assert (∀ l, increasing l → StronglySorted le l) as Hw.
  { induction 1 as [|y l Hs IH Hy]; constructor; [done|]. apply list.Forall_forall. intros z Hz.
    apply (proj1 (list.Forall_forall _ _) Hy) in Hz. destruct (total le y z); done. }
  pose proof Hi as Hd. rewrite <-(take_drop n (left_after p u)) in Hd. apply StronglySorted_app in Hd as (Hsep & Ht & Hd).
  apply (StronglySorted_unique_strong le); [|by apply Hw..|].
  - intros a b Ha Hb Hab Hba. apply Hk; [by apply left_after_elem in Ha as [_ ?]| |done..].
    apply (left_after_elem p u b). rewrite <-(take_drop n (left_after p u)). apply elem_of_app. by right.
  - assert (∀ l, increasing l → NoDup l) as Hnd.
    { induction 1 as [|y l Hs IH Hy]; constructor; [|done]. intros Hin.
      apply (proj1 (list.Forall_forall _ _) Hy) in Hin. destruct (total le y y); done. }
    apply NoDup_Permutation; [by apply Hnd..|]. intros y. rewrite left_after_elem. split.
    + intros [Hyx Hyu]. assert (y ∈ left_after p u) as Hy.
      { apply left_after_elem. split; [|done]. destruct p as [q|]; [|done]. intros Hyq. apply Hyx.
        assert (x ∈ left_after (Some q) u) as Hxin.
        { rewrite <-(take_drop n (left_after (Some q) u)). apply elem_of_app. left. by apply last_Some_elem_of. }
        apply left_after_elem in Hxin as [Hxq _]. destruct (total le q x); [|done]. by transitivity q. }
      rewrite <-(take_drop n (left_after p u)) in Hy. apply elem_of_app in Hy as [Hy|Hy]; [|done].
      exfalso. apply Hyx. exact (last_max _ _ _ Ht Hx Hy).
    + intros Hy. split.
      * apply Hsep; [|done]. by apply last_Some_elem_of.
      * apply (left_after_elem p u y). rewrite <-(take_drop n (left_after p u)). apply elem_of_app. by right.
Qed.

Lemma walk_rest k p u : (0 < n)%nat → keyed u → (length (left_after p u) <= S k * n)%nat →
  walk p (replicate (S k) u) = Some (left_after p u).
Proof using All.
  intros Hn Hk. revert p. induction k as [|k IH]; intros p Hl; rewrite replicate_S; cbn [walk];
    rewrite read_page_spec; destruct (Nat.ltb n (length (left_after p u))) eqn:Hm.
  - apply Nat.ltb_lt in Hm. lia.
  - apply Nat.ltb_ge in Hm. by rewrite take_ge.
  - destruct (page_nonempty _ Hn Hm) as [x Hx]. rewrite Hx.
    rewrite IH by (rewrite (left_after_page p u x), length_drop by done; lia).
    cbn. by rewrite (left_after_page p u x), take_drop.
  - apply Nat.ltb_ge in Hm. by rewrite take_ge.
Qed.
End paging.

Open Scope Z_scope.

(** ** Keys *)

#[export] Instance ledger_le_trans : Transitive ledger_le.
Proof. intros a b c. unfold ledger_le. lia. Qed.
#[export] Instance ledger_le_total : Total ledger_le.
Proof. intros a b. unfold ledger_le. lia. Qed.

#[export] Instance account_le_trans : Transitive account_le.
Proof. intros a b c. unfold account_le. apply transitivity. Qed.
#[export] Instance account_le_total : Total account_le.
Proof. intros a b. apply (total String.le). Qed.

Lemma page_query_spec {A} limit (rows : list A) : 0 <= limit →
  page_query limit rows = read_page (Z.to_nat limit) rows.
Proof.
  intros Hl. unfold page_query, fetchLimit. rewrite !read_page_spec, take_take.
  rewrite Nat.min_l by lia. f_equal. rewrite length_take.
  destruct (Nat.ltb_spec (Z.to_nat limit) (length rows)), (Nat.ltb_spec (Z.to_nat limit)
    (Nat.min (Z.to_nat (limit + 1)) (length rows))); lia.
Qed.

Lemma filter_merge {A} (le : relation A) `{!RelDecision le} (P Q R : A → bool) (u : list A) :
  (∀ y, R y = P y && Q y) → merge_sort le (filter (λ y, R y = true) u) =
  merge_sort le (filter (λ y, Q y = true) (filter (λ y, P y = true) u)).
Proof.
  intros H. f_equal. rewrite list_filter_filter. apply list_filter_iff. intros y. rewrite H, andb_true_iff. tauto.
Qed.

Lemma consoleLimit_range raw limit : consoleLimit raw = Some limit → 1 <= limit <= 5000.
Proof.
  unfold consoleLimit, defaultConsoleLimit, maxConsoleLimit. destruct (String.eqb _ _); [intros [= <-]; lia|].
  destruct (parse_int _) as [z ok]. destruct (_ || _) eqn:E; [done|]. intros [= <-]. breflect. lia.
Qed.

Definition no_nul (s : string) : bool := str_forallb (λ a, negb (bool_decide (a = byte_of 0))) s.

Lemma no_nul_app a b : no_nul (a +:+ b) = no_nul a && no_nul b.
Proof. apply str_forallb_app. Qed.

Lemma digits_no_nul s : all_digits s → no_nul s = true.
Proof.
  unfold no_nul. induction s as [|a s IH]; cbn; [done|]. intros [Ha Hs]%andb_true_iff.
  rewrite IH by done. rewrite bool_decide_false; [done|]. intros ->. by vm_compute in Ha.
Qed.

Lemma format_no_nul nano t : no_nul (format_rfc3339 nano t) = true.
Proof.
  assert (∀ w n, no_nul (digits_fixed w n) = true) as Hd by (intros; apply digits_no_nul, digits_fixed_digits).
  assert (∀ n, no_nul (show_nonneg n) = true) as Hs by (intros; apply digits_no_nul, show_nonneg_digits).
  unfold format_rfc3339. destruct (clock_fields t) as [[[[days hour] min] sec] ns].
  destruct (year_day days) as [year yday]. destruct (month_day _ _ _) as [month day].
  assert (no_nul (format_year year) = true) as Hy.
  { unfold format_year. destruct (year <? 0); [|by destruct (year <? 10000)].
    rewrite no_nul_app. by destruct (- year <? 10000); rewrite ?Hd, ?Hs. }
  assert (no_nul (if nano then format_fraction ns else "") = true) as Hf.
  { destruct nano; [|done]. unfold format_fraction. destruct (ns =? 0); [done|]. rewrite no_nul_app.
    apply digits_no_nul. destruct (trim_zeros_split (digits_fixed 9 ns)) as (k & E & _).
    pose proof (digits_fixed_digits 9 ns) as H. rewrite E, str_forallb_app in H. by apply andb_true_iff in H as [H _]. }
  by rewrite !no_nul_app, Hy, !Hd, Hf.
Qed.

Lemma encodeCursor_nonempty sort id : String.eqb (encodeCursor sort id) "" = false.
Proof.
  apply String.eqb_neq. unfold encodeCursor. intros E.
  pose proof (b64_digits_encode (sort +:+ nul +:+ format_int id)) as H. rewrite E in H. cbn in H. injection H as H.
  apply (f_equal String.length) in H. rewrite !str_length_app in H. cbn in H. lia.
Qed.

(** ** Held rows *)

Section held_pages.
  Context (timestamptz : string → option time).

(** What a stored row looks like: instants of the column, whole microseconds
    before year 10000, and a BIGINT id. *)
Definition storable (r : usage_row) : Prop :=
  0 <= ul_occurred_at r < end_of_years ∧ ul_occurred_at r mod 1000 = 0 ∧ in_int64 (ul_id r).

(** PostgreSQL reads back the timestamps the console writes into cursors. *)
Context (Hcast : ∀ t, 0 <= t < end_of_years → t mod 1000 = 0 → timestamptz (format_rfc3339 true t) = Some t).
Context (tenant limit : string).

(** A client that follows next_cursor, each page finding the tables of the next
    of [ts]; [None] when they run out before the last page. *)
Fixpoint walk_held (cursor : string) (ts : list db) : option (list heldRow) :=
  match ts with
  | [] => None
  | t :: ts' =>
      match (handleHeld timestamptz true tenant limit cursor (World t [])).1 with
      | Ok (Reply 200 (HeldBody rows _ next more)) =>
          if more : bool then app rows <$> walk_held next ts' else Some rows
      | _ => None
      end
  end.

Definition held_of (t : db) : list usage_row :=
  filter (λ r, held_for (trim_space tenant) r = true) (usage_ledger t).

Definition cursor_of (p : option usage_row) : string :=
  match p with
  | Some r => encodeCursor (held_position r).1 (held_position r).2
  | None => ""
  end.

Lemma held_rows_left p t :
  match p with Some r => storable r | None => True end →
  ∃ c, parseCursor (cursor_of p) = Some c ∧ held_rows timestamptz (trim_space tenant) c t = Ok (left_after ledger_le p (held_of t)).
Proof using Hcast.
  destruct p as [r|]; intros Hr; cbn [cursor_of].
  - destruct Hr as (Ht & Hm & Hid). unfold held_position. cbn [fst snd].
    eexists. split; [apply parse_encode_cursor; [apply format_no_nul|done]|]. unfold held_rows. cbn [Sort cur_ID].
    destruct (String.eqb_spec (format_rfc3339 true (ul_occurred_at r)) "") as [E|_].
    { specialize (Hcast _ Ht Hm). pose proof (parse_format_rfc3339 true (ul_occurred_at r) Ht) as H. rewrite E in H. done. }
    rewrite Hcast by done. f_equal. apply (filter_merge ledger_le (held_for (trim_space tenant)) (beyond ledger_le (Some r))).
    intros y. f_equal. unfold row_after, beyond, ledger_le.
    rewrite (bool_decide_ext _ (¬ (ul_occurred_at r < ul_occurred_at y ∨ ul_occurred_at y = ul_occurred_at r ∧ ul_id r < ul_id y))) by lia.
    rewrite bool_decide_not, negb_involutive. apply eq_true_iff_eq.
    rewrite bool_decide_eq_true, orb_true_iff, andb_true_iff, !Z.ltb_lt, Z.eqb_eq. done.
  - eexists. split; [reflexivity|]. unfold held_rows. cbn [Sort String.eqb]. f_equal.
    apply (filter_merge ledger_le (held_for (trim_space tenant)) (beyond ledger_le None)). done.
Qed.

Lemma handleHeld_calm lim p t :
  consoleLimit limit = Some lim → match p with Some r => storable r | None => True end →
  (handleHeld timestamptz true tenant limit (cursor_of p) (World t [])).1 =
    let '(shown, more) := read_page (Z.to_nat lim) (left_after ledger_le p (held_of t)) in
    Ok (Reply 200 (HeldBody (held_view <$> shown) (Z.of_nat (length shown)) (next_cursor held_position shown more) more)).
Proof using Hcast.
  intros Hl Hp. destruct (held_rows_left p t Hp) as (c & Hc & Hrows). pose proof (consoleLimit_range _ _ Hl).
  unfold handleHeld. cbn [negb]. rewrite Hl, Hc.
  rewrite (bind_calm _ _ _ (Ok (page_query lim (left_after ledger_le p (held_of t)))) (World t []))
    by (apply attempt_calm; by rewrite query_calm, Hrows).
  rewrite page_query_spec by lia. rewrite read_page_spec. unfold next_cursor. cbv beta iota zeta.
  destruct (Nat.ltb _ _) eqn:Hm; [|done].
  destruct (page_nonempty (Z.to_nat lim) _ ltac:(lia) Hm) as [x ->]. by rewrite encodeCursor_nonempty.
Qed.

Lemma walk_held_walk lim ts : consoleLimit limit = Some lim → Forall (λ t, Forall storable (held_of t)) ts →
  ∀ p, match p with Some r => storable r | None => True end →
  walk_held (cursor_of p) ts =
    (λ l : list usage_row, held_view <$> l) <$> walk ledger_le (Z.to_nat lim) p (held_of <$> (ts : list db)).
Proof using Hcast.
  intros Hl. pose proof (consoleLimit_range _ _ Hl). induction 1 as [|t ts Ht Hts IH]; intros p Hp; [done|].
  cbn [walk_held fmap list_fmap walk]. rewrite (handleHeld_calm lim p t Hl Hp). rewrite read_page_spec.
  destruct (Nat.ltb _ _) eqn:Hm; [|done]. destruct (page_nonempty (Z.to_nat lim) _ ltac:(lia) Hm) as [x Hx].
  unfold next_cursor. rewrite Hx.
  change (encodeCursor (held_position x).1 (held_position x).2) with (cursor_of (Some x)).
  assert (storable x) as Hsx.
  { apply (proj1 (list.Forall_forall _ _) Ht). apply last_Some_elem_of in Hx.
    apply (left_after_elem ledger_le p). rewrite <-(take_drop (Z.to_nat lim)). apply elem_of_app. by left. }
  rewrite (IH (Some x) Hsx). rewrite <-!option_fmap_compose. apply option_fmap_ext. intros l. cbn. by rewrite fmap_app.
Qed.

(** Rows of one event keep their place and no two events share one, over all
    the tables seen: what an append-only ledger with a serial key gives. *)
Definition same_ledger (ts : list db) : Prop :=
  ∀ t t' r r', t ∈ ts → t' ∈ ts → r ∈ usage_ledger t → r' ∈ usage_ledger t' →
    (ul_event_id r = ul_event_id r' ↔ ul_occurred_at r = ul_occurred_at r' ∧ ul_id r = ul_id r').

Lemma same_ledger_place ts t t' r r' : same_ledger ts → t ∈ ts → t' ∈ ts →
  r ∈ usage_ledger t → r' ∈ usage_ledger t' →
  ledger_le r r' ∧ ledger_le r' r ↔ ul_event_id r = ul_event_id r'.
Proof using Type. intros H H1 H2 H3 H4. rewrite (H t t' r r') by done. unfold ledger_le. lia. Qed.

Lemma held_of_ledger t r : r ∈ held_of t → r ∈ usage_ledger t.
Proof using Type. by intros [_ ?]%list_elem_of_filter. Qed.

Lemma held_of_storable t : Forall storable (usage_ledger t) → Forall storable (held_of t).
Proof using Type. rewrite !list.Forall_forall. intros H r Hr%held_of_ledger. by apply H. Qed.

Lemma held_of_keyed ts t : same_ledger ts → t ∈ ts → NoDup (ul_event_id <$> usage_ledger t) →
  keyed ledger_le (held_of t).
Proof using Type.
  intros Hs Ht Hnd. split.
  - apply list.NoDup_filter. by eapply NoDup_fmap_1.
  - intros x y Hx%held_of_ledger Hy%held_of_ledger Hxy Hyx.
    apply (key_inj ul_event_id (usage_ledger t)); [done..|]. by eapply (same_ledger_place ts t t).
Qed.

Lemma walk_elem n p us l y : walk ledger_le n p us = Some l → y ∈ l → ∃ u, u ∈ us ∧ y ∈ u.
Proof using Type.
  revert p l. induction us as [|u us IH]; intros p l; cbn [walk]; [done|]. rewrite read_page_spec.
  assert (∀ z, z ∈ take n (left_after ledger_le p u) → z ∈ u) as Hu.
  { intros z Hz. apply (left_after_elem ledger_le p). rewrite <-(take_drop n). apply elem_of_app. by left. }
  destruct (Nat.ltb _ _).
  - intros (l' & Hw & ->)%fmap_Some [Hy|Hy]%elem_of_app.
    + exists u. split; [apply list_elem_of_here|by apply Hu].
    + destruct (IH _ _ Hw Hy) as (u' & ? & ?). exists u'. split; [by apply list_elem_of_further|done].
  - intros [= <-] Hy. exists u. split; [apply list_elem_of_here|by apply Hu].
Qed.

Lemma increasing_events ts l : same_ledger ts → (∀ y, y ∈ l → ∃ t, t ∈ ts ∧ y ∈ usage_ledger t) →
  increasing ledger_le l → NoDup (ul_event_id <$> l).
Proof using Type.
  intros Hs Hin. induction 1 as [|x l Hi IH Hx]; [constructor|]. cbn. constructor.
  - intros (y & E & Hy)%list_elem_of_fmap. apply (proj1 (list.Forall_forall _ _) Hx) in Hy as Hyx. apply Hyx.
    destruct (Hin x ltac:(apply list_elem_of_here)) as (t & Ht & Hxt).
    destruct (Hin y ltac:(by apply list_elem_of_further)) as (t' & Ht' & Hyt').
    by apply (same_ledger_place ts t t' x y) in E as [_ ?].
  - apply IH. intros y Hy. by apply Hin, list_elem_of_further.
Qed.
End held_pages.

(** C16 Paging loses no held row and shows none twice, while others are being
    resolved: a client that follows next_cursor to the last page, with any
    changes of the tables between its requests, sees every row at most once,
    and sees each row that was held for its tenant on every page it read. *)
Theorem held_pages_exact timestamptz tenant limit lim ts shown :
  (∀ t, 0 <= t < end_of_years → t mod 1000 = 0 → timestamptz (format_rfc3339 true t) = Some t) →
  consoleLimit limit = Some lim → same_ledger ts →
  Forall (λ t, NoDup (ul_event_id <$> usage_ledger t) ∧ Forall storable (usage_ledger t)) ts →
  walk_held timestamptz tenant limit "" ts = Some shown →
  NoDup (hr_EventID <$> shown) ∧
  ∀ event, (∀ t, t ∈ ts → ∃ r, r ∈ usage_ledger t ∧ ul_event_id r = event ∧ held_for (trim_space tenant) r = true) →
    event ∈ hr_EventID <$> shown.
Proof.
  intros Hcast Hl Hs Hts Hw. pose proof (consoleLimit_range _ _ Hl) as Hlim.
  assert (Forall (λ t, Forall storable (held_of tenant t)) ts) as Hst.
  { eapply list.Forall_impl; [exact Hts|]. intros t [_ H]. by apply held_of_storable. }
  change ""%string with (cursor_of None) in Hw. rewrite (walk_held_walk timestamptz Hcast tenant limit lim ts Hl Hst None I) in Hw.
  apply fmap_Some in Hw as (l & Hw & ->). rewrite <-list_fmap_compose.
  change (hr_EventID ∘ held_view) with ul_event_id.
  assert (∀ t, t ∈ ts → keyed ledger_le (held_of tenant t)) as Hk.
  { intros t Ht. apply (held_of_keyed tenant ts t Hs Ht). by apply (proj1 (list.Forall_forall _ _) Hts). }
  destruct (walk_exact ledger_le (Z.to_nat lim) (held_of tenant <$> ts) ltac:(lia)) with (p := @None usage_row) (l := l)
    as (Hi & _ & Hall); [|done|].
  { apply list.Forall_forall. intros u (t & -> & Ht)%list_elem_of_fmap. by apply Hk. }
  assert (∀ y, y ∈ l → ∃ t, t ∈ ts ∧ y ∈ usage_ledger t) as Hin.
  { intros y Hy. destruct (walk_elem _ _ _ _ _ Hw Hy) as (u & (t & -> & Ht)%list_elem_of_fmap & Hyu).
    exists t. split; [done|]. by eapply held_of_ledger. }
  split; [by apply (increasing_events ts)|]. intros event Hev.
  destruct ts as [|t0 ts0]; [done|]. destruct (Hev t0 ltac:(apply list_elem_of_here)) as (z & Hz & Hze & _).
  destruct (Hall z I) as (y & Hy & Hyz & Hzy).
  - intros u (t & -> & Ht)%list_elem_of_fmap. destruct (Hev t Ht) as (r & Hr & Hre & Hh). exists r.
    split; [by apply list_elem_of_filter|]. apply (same_ledger_place (t0 :: ts0) t t0); try done; [apply list_elem_of_here|congruence].
  - apply list_elem_of_fmap. exists y. split; [|done]. destruct (Hin y Hy) as (t & Ht & Hyt).
    rewrite <-Hze. symmetry. apply (same_ledger_place (t0 :: ts0) t t0 y z); try done. apply list_elem_of_here.
Qed.

(** C17 Paging ends: with the tables at rest, [k] pages of [lim] rows are enough
    for up to [k * lim] held rows, and they are the whole tray, oldest first. *)
Theorem held_pages_end timestamptz tenant limit lim t k :
  (∀ t, 0 <= t < end_of_years → t mod 1000 = 0 → timestamptz (format_rfc3339 true t) = Some t) →
  consoleLimit limit = Some lim → NoDup (ul_id <$> usage_ledger t) → Forall storable (usage_ledger t) →
  Z.of_nat (length (held_of tenant t)) <= Z.of_nat (S k) * lim →
  walk_held timestamptz tenant limit "" (replicate (S k) t) =
    Some (held_view <$> merge_sort ledger_le (held_of tenant t)).
Proof.
  intros Hcast Hl Hnd Hst Hk. pose proof (consoleLimit_range _ _ Hl) as Hlim.
  change ""%string with (cursor_of None).
  rewrite (walk_held_walk timestamptz Hcast tenant limit lim _ Hl); [| |done].
  2: { apply Forall_replicate. by apply held_of_storable. }
  rewrite fmap_replicate, walk_rest, left_after_None; [done|apply _|apply _|lia| |].
  - split; [apply list.NoDup_filter; by eapply NoDup_fmap_1|].
    intros x y Hx%held_of_ledger Hy%held_of_ledger Hxy Hyx.
    apply (key_inj ul_id (usage_ledger t)); [done..|]. unfold ledger_le in *. lia.
  - rewrite left_after_None, merge_sort_Permutation. lia.
Qed.

(** ** Witnesses: three held rows, one of them resolved between the pages *)

Definition tray_row (n : Z) (state : string) : usage_row :=
  {| ul_id := n; ul_event_id := "e" +:+ format_int n; ul_attempt_id := "a"; ul_request_id := "r";
     ul_tenant_id := "t1"; ul_account_id := "acct"; ul_provider := "openai"; ul_model := "gpt";
     ul_status_code := 200; ul_error_class := "ok"; ul_tokens_in := 1; ul_tokens_out := 1;
     ul_cache_read_tokens := 0; ul_cache_write_tokens := 0; ul_usage_source := "missing";
     ul_partial := false; ul_occurred_at := 63000000000000123000 + (n / 2) * 1000; ul_billing_state := state;
     ul_billed_amount := None; ul_billing_run_id := None |}.

Definition tray (states : list string) : db :=
  set_ledger (λ _, imap (λ i s, tray_row (Z.of_nat i) s) states) (empty_db {["t1"%string]} 300).

Definition tray_before : db := tray ["held"; "held"; "pending"; "held"].
Definition tray_after : db := tray ["billed"; "held"; "pending"; "held"].

Lemma tray_ok t : t ∈ [tray_before; tray_after] →
  NoDup (ul_event_id <$> usage_ledger t) ∧ Forall storable (usage_ledger t).
Proof.
  intros Ht. assert (bool_decide (NoDup (ul_event_id <$> usage_ledger t)) = true ∧
    forallb (λ r, (0 <=? ul_occurred_at r) && (ul_occurred_at r <? end_of_years) && (ul_occurred_at r mod 1000 =? 0)
      && (min_int64 <=? ul_id r) && (ul_id r <=? max_int64)) (usage_ledger t) = true) as [H1 H2].
  { rewrite !elem_of_cons in Ht. destruct Ht as [->|[->|Ht]]; [vm_compute; done..|by apply elem_of_nil in Ht]. }
  apply bool_decide_eq_true in H1. split; [done|]. apply forallb_Forall in H2.
  eapply list.Forall_impl; [exact H2|]. intros r H. unfold storable, in_int64. breflect. lia.
Qed.

Lemma tray_same : same_ledger [tray_before; tray_after].
Proof.
  assert (∀ t r, t ∈ [tray_before; tray_after] → r ∈ usage_ledger t →
    (ul_event_id r, ul_occurred_at r, ul_id r) ∈ (λ n, (("e" +:+ format_int n)%string, 63000000000000123000 + (n / 2) * 1000, n)) <$> [0; 1; 2; 3]) as H.
  { intros t r Ht. rewrite !elem_of_cons in Ht. destruct Ht as [->|[->|Ht]]; [..|by apply elem_of_nil in Ht];
      cbn [usage_ledger tray_before tray_after tray set_ledger imap]; unfold tray_before, tray_after, tray; cbn [usage_ledger set_ledger imap];
      rewrite !elem_of_cons; (intros [->|[->|[->|[->|Hr]]]]; [..|by apply elem_of_nil in Hr]);
      apply (bool_decide_unpack _); vm_compute; exact I. }
  intros t t' r r' Ht Ht' Hr Hr'. pose proof (H t r Ht Hr) as H1. pose proof (H t' r' Ht' Hr') as H2.
  apply list_elem_of_fmap in H1 as (n & [= -> -> ->] & H1). apply list_elem_of_fmap in H2 as (n' & [= -> -> ->] & H2).
  rewrite !elem_of_cons in H1, H2.
  destruct H1 as [->|[->|[->|[->|H1]]]]; [..|by apply elem_of_nil in H1];
    (destruct H2 as [->|[->|[->|[->|H2]]]]; [..|by apply elem_of_nil in H2]);
    vm_compute; (split; [intros H3; try discriminate H3; by split|intros [_ H3]; try discriminate H3; done]).
Qed.

Lemma two_limit : consoleLimit "2" = Some 2.
Proof. vm_compute. reflexivity. Qed.

Definition tray_shown : list heldRow := held_view <$> [tray_row 0 "held"; tray_row 1 "held"; tray_row 3 "held"].

Lemma tray_walk : walk_held parse_rfc3339 "t1" "2" "" [tray_before; tray_after] = Some tray_shown.
Proof. vm_compute. reflexivity. Qed.

Lemma held_pages_exact_witness :
  NoDup (hr_EventID <$> tray_shown) ∧ "e3"%string ∈ hr_EventID <$> tray_shown.
Proof.
  destruct (held_pages_exact parse_rfc3339 "t1" "2" 2 [tray_before; tray_after] tray_shown
    (λ t H _, parse_format_rfc3339 true t H) two_limit tray_same) as [Hnd Hall].
  - apply list.Forall_forall. apply tray_ok.
  - exact tray_walk.
  - split; [exact Hnd|]. apply Hall. intros t Ht. exists (tray_row 3 "held"). rewrite !elem_of_cons in Ht.
    destruct Ht as [->|[->|Ht]]; [..|by apply elem_of_nil in Ht];
      (split; [apply (list_elem_of_lookup_2 _ 3); vm_compute; reflexivity|vm_compute; done]).
Defined.

Lemma held_pages_end_witness :
  walk_held parse_rfc3339 "t1" "2" "" [tray_before; tray_before] =
    Some (held_view <$> merge_sort ledger_le (held_of "t1" tray_before)).
Proof.
  apply (held_pages_end parse_rfc3339 "t1" "2" 2 tray_before 1 (λ t H _, parse_format_rfc3339 true t H) two_limit).
  - apply (bool_decide_unpack _). vm_compute. exact I.
  - apply (tray_ok tray_before). apply list_elem_of_here.
  - vm_compute. discriminate.
Defined.
