(* ===== verification/System.v ===== *)
(** * The control plane as one system

    Every modelled operation of control that writes the database, run in any
    order, by any number of callers, under any schedule of faults: [control_op]
    lists them, [run_op] runs one, [reachable] are the tables that can result.
    The invariants of MoneyInvariant.v and LedgerFacts.v hold together on every
    reachable state, and account epochs only grow. *)

From Stdlib Require Import QArith.
From S2P Require Import Prelude Decimal Money Contracts Numeric Db Billing Reconcile BillingFacts MoneyInvariant ReconcileFacts Held Ledger LedgerFacts Fencing Console ConsoleAccounts ConsoleRoutes ConsoleFacts.

Open Scope Z_scope.

Inductive control_op :=
| OpInsertModelPrice (price : ModelPrice) (now : time)
| OpEnsureWallet (tenantID currency : string)
| OpApplyMovement (movement : WalletMovement)
| OpRunOnce (runID : string) (windowEnd : time)
| OpResolveHeld (runID eventID decision who note : string)
| OpAttemptStarted (event : AttemptStarted)
| OpRelease (release : Release)
| OpRecoverAttempts (skip : gset string) (before_ now : time)
| OpReleaseStarved (now : time)
| OpAcquire (accountID : string)
| OpUpdateCredential (accountID : string) (epoch : Z) (secret : string) (expiresAt : option time)
| OpConsole (c : Console) (limiter : consoleLimiter) (rq : request)
| OpTick (now : time)
| OpTenant (tenantID : string).

Definition run_op (o : control_op) (w : world) : db :=
  match o with
  | OpInsertModelPrice price now => tables (InsertModelPrice price now w).2
  | OpEnsureWallet tenantID currency => tables (EnsureWallet tenantID currency w).2
  | OpApplyMovement movement => tables (ApplyMovement movement w).2
  | OpRunOnce runID windowEnd => tables (RunOnce runID windowEnd w).2
  | OpResolveHeld runID eventID decision who note =>
      tables (resolveHeld runID eventID decision who note w).2
  | OpAttemptStarted event => tables (HandleAttemptStarted event w).2
  | OpRelease release => tables (HandleRelease release w).2
  | OpRecoverAttempts skip before_ now => tables (RecoverAttempts skip before_ now w).2
  | OpReleaseStarved now => tables (ReleaseStarvedCooldowns now w).2
  | OpAcquire accountID => tables (Acquire accountID w).2
  | OpUpdateCredential accountID epoch secret expiresAt =>
      tables (UpdateCredential accountID epoch secret expiresAt w).2
  | OpConsole c limiter rq => tables ((serve c limiter rq).1 w).2
  | OpTick now => set_now (Z.max now) (tables w)
  | OpTenant tenantID => set_tenants (λ ts, {[ tenantID ]} ∪ ts) (tables w)
  end.

(** What callers see to: run ids are never empty, the console only posts
    top-ups and adjustments, and the stream consumer only hands on releases
    that passed [Release.Validate], of attempts named by [P]. *)
Definition op_ok (P : string → Prop) (o : control_op) : Prop :=
  match o with
  | OpApplyMovement m => go_string (Movement_Amount m) ∧
      (Movement_Kind m = "topup" ∨ Movement_Kind m = "adjustment")%string
  | OpRunOnce runID _ | OpResolveHeld runID _ _ _ _ => runID ≠ ""%string
  | OpAttemptStarted event => P (as_AttemptID event)
  | OpRelease release => Release_Validate release = Ok tt
  | OpConsole c _ rq => cs_runID c ≠ ""%string ∧
      match rq_route rq with
      | PostTopup _ (Some body) => go_string (tq_Amount body)
      | PostAdjust _ (Some body) => go_string (aq_Amount body)
      | _ => True
      end
  | _ => True
  end.

Inductive reachable (P : string → Prop) (ts : gset string) (now : time)
    (accounts : gmap string account_row) (credentials : gmap string credential_row) : db → Prop :=
| reachable_start : reachable P ts now accounts credentials
    (set_credentials (λ _, credentials) (set_accounts (λ _, accounts) (empty_db ts now)))
| reachable_step t o fs : reachable P ts now accounts credentials t → op_ok P o →
    reachable P ts now accounts credentials (run_op o (World t fs)).

(** ** The joint invariant *)

Definition epochs_le (m m' : gmap string account_row) : Prop :=
  ∀ k a, m !! k = Some a → ∃ a', m' !! k = Some a' ∧ ac_fence_epoch a <= ac_fence_epoch a'.

Lemma epochs_le_refl m : epochs_le m m.
Proof. intros k a Ha. by exists a. Qed.

Lemma epochs_le_trans m1 m2 m3 : epochs_le m1 m2 → epochs_le m2 m3 → epochs_le m1 m3.
Proof.
  intros H1 H2 k a Ha. destruct (H1 k a Ha) as (b & Hb & ?). destruct (H2 k b Hb) as (c & Hc & ?).
  exists c. split; [done|]. lia.
Qed.

(** No attempt is forgotten, and a closed one never changes again. *)
Definition attempts_grow (m m' : gmap string attempt_row) : Prop :=
  ∀ k a, m !! k = Some a → ∃ a', m' !! k = Some a' ∧ (ra_state a ≠ "open"%string → a' = a).

Lemma attempts_grow_refl m : attempts_grow m m.
Proof. intros k a Ha. by exists a. Qed.

Lemma attempts_grow_trans m1 m2 m3 : attempts_grow m1 m2 → attempts_grow m2 m3 → attempts_grow m1 m3.
Proof.
  intros H1 H2 k a Ha. destruct (H1 k a Ha) as (b & Hb & Eb). destruct (H2 k b Hb) as (c & Hc & Ec).
  exists c. split; [done|]. intros Hs. specialize (Eb Hs) as ->. by apply Ec.
Qed.

Lemma attempts_grow_close m k a closed :
  m !! k = Some a → ra_state a = "open"%string → attempts_grow m (<[k := closed]> m).
Proof.
  intros Ha Ho k' a' Ha'. destruct (decide (k = k')) as [<-|Hne].
  - exists closed. split; [by rewrite lookup_insert_eq|]. intros Hs. congruence.
  - exists a'. by rewrite lookup_insert_ne.
Qed.

Lemma attempts_grow_open m k a : m !! k = None → attempts_grow m (<[k := a]> m).
Proof. intros Hn k' a' Ha'. exists a'. rewrite lookup_insert_ne; [done|congruence]. Qed.

(** Each audit row of an account carries the epoch it drew, in the order drawn. *)
Record audit_ok (l : list action_row) (m : gmap string account_row) : Prop := {
  au_epoch : ∀ j, j ∈ l → ∃ a, m !! aa_account_id j = Some a ∧ aa_fence_epoch j <= ac_fence_epoch a;
  au_order : StronglySorted (λ i j, aa_account_id i = aa_account_id j → aa_fence_epoch i < aa_fence_epoch j) l
}.

Lemma audit_grow l m m' : epochs_le m m' → audit_ok l m → audit_ok l m'.
Proof.
  intros Hm [H1 H2]. split; [|done]. intros j Hj. destruct (H1 j Hj) as (a & Ha & ?).
  destruct (Hm _ _ Ha) as (a' & Ha' & ?). exists a'. split; [done|lia].
Qed.

Lemma audit_snoc l m j a a' :
  m !! aa_account_id j = Some a → aa_fence_epoch j = ac_fence_epoch a + 1 → ac_fence_epoch a' = aa_fence_epoch j →
  audit_ok l m → audit_ok (l ++ [j]) (<[aa_account_id j := a']> m).
Proof.
  intros Ha Hj Ha' [H1 H2]. split.
  - intros i [Hi| ->%list_elem_of_singleton]%elem_of_app; [|exists a'; rewrite lookup_insert_eq; split; [done|lia]].
    destruct (H1 i Hi) as (b & Hb & ?). destruct (decide (aa_account_id j = aa_account_id i)) as [E|E].
    + exists a'. rewrite E, lookup_insert_eq. split; [done|]. rewrite <-E in Hb. simplify_eq. lia.
    + exists b. by rewrite lookup_insert_ne.
  - apply StronglySorted_app. split_and!; [|done|by repeat constructor].
    intros i i' Hi ->%list_elem_of_singleton E. destruct (H1 i Hi) as (b & Hb & ?). rewrite E in Hb. simplify_eq. lia.
Qed.

(** The accounts and attempts some time ago were [m] and [am]. *)
Record control_ok (P : string → Prop) (m : gmap string account_row) (am : gmap string attempt_row)
    (t : db) : Prop := {
  ct_money : money_wf t;
  ct_ledger : ledger_ok P t;
  ct_epochs : epochs_le m (account_rows t);
  ct_attempts : attempts_grow am (request_attempts t);
  ct_audit : audit_ok (account_actions t) (account_rows t)
}.

(** ** Frames *)

Lemma ledger_ok_map P t t' f :
  ledger_ok P t → request_attempts t' = request_attempts t → usage_ledger t' = f <$> usage_ledger t →
  (∀ r, ul_attempt_id (f r) = ul_attempt_id r ∧ ul_event_id (f r) = ul_event_id r) →
  ledger_ok P t'.
Proof.
  intros [H1 H2 H3 H4 H5 H6] Ha Hl Hf. split; rewrite ?Ha, ?Hl; try done.
  - rewrite <-list_fmap_compose, (list_fmap_ext _ ul_attempt_id); [done|]. intros ? r _. apply Hf.
  - intros r (r0 & -> & Hr)%list_elem_of_fmap. destruct (Hf r0) as [-> ->]. by apply H3.
  - intros r (r0 & -> & Hr)%list_elem_of_fmap. destruct (Hf r0) as [-> _]. by apply H4.
  - intros k a Hk Hs. destruct (H5 k a Hk Hs) as (r & Hr & E). exists (f r).
    rewrite (proj1 (Hf r)). split; [by apply list_elem_of_fmap_2|done].
Qed.

Lemma ledger_ok_same P t t' :
  ledger_ok P t → request_attempts t' = request_attempts t → usage_ledger t' = usage_ledger t →
  ledger_ok P t'.
Proof.
  intros Ht Ha Hl. eapply (ledger_ok_map P t t' (λ r, r)); [done..| |done].
  by rewrite Hl, list_fmap_id.
Qed.

(** A new pending row with the next id and a new event. *)
Lemma money_wf_append t row :
  money_wf t → ul_id row = db_seq t → ul_billing_state row = "pending"%string →
  ul_billed_amount row = None → (∀ r, r ∈ usage_ledger t → ul_event_id r ≠ ul_event_id row) →
  money_wf (set_seq (λ n, n + 1) (set_ledger (λ l, l ++ [row]) t)).
Proof.
  intros [H1 H2 H3 H4 H5 H6 H7 H8] Hid Hst Ham Hev. split; try done.
  - unfold ledger_keys. cbn. rewrite fmap_app. apply list.NoDup_app.
    split_and!; [done| |apply NoDup_singleton].
    intros x (r & -> & Hr)%list_elem_of_fmap Hx%list_elem_of_singleton.
    specialize (H2 r Hr). cbn in Hx. lia.
  - intros r. cbn. rewrite elem_of_app, list_elem_of_singleton.
    intros [Hr| ->]; [specialize (H2 r Hr)|]; lia.
  - cbn. rewrite fmap_app. apply list.NoDup_app. split_and!; [done| |apply NoDup_singleton].
    intros x (r & -> & Hr)%list_elem_of_fmap Hx%list_elem_of_singleton. by apply (Hev r Hr).
  - intros tenant run. cbn. unfold run_billed. cbn. rewrite sum_snoc. unfold billed_share at 2.
    rewrite Hst, andb_false_r. cbn. rewrite Z.add_0_r. apply H6.
  - cbn. apply Forall_app. split; [done|]. apply Forall_singleton. unfold row_wf. by rewrite Hst.
Qed.

Create HintDb gw_keeps discriminated.

Section steps.
  Context (P : string → Prop) (HP : collision_free P) (m : gmap string account_row)
    (am : gmap string attempt_row).

Abbreviation I := (control_ok P m am).

Lemma settleTenant_keeps runID tenantID windowEnd :
  runID ≠ ""%string → preserves I (settleTenant runID tenantID windowEnd).
Proof using Type.
  intros Hrun w [Hw Hl He Hat Hau].
  pose proof (settleTenant_contract runID tenantID windowEnd w (mw_keys _ Hw)) as H.
  destruct (settleTenant _ _ _ w) as [r w']. cbn. destruct H as [[-> _]|[Hs _]]; [done|].
  destruct (st_rest _ _ _ _ _ Hs) as (_ & Ha & _ & _ & _ & Hac & _ & _ & _ & Haa). split.
  - by apply (settles_wf _ _ _ _ _ Hrun Hs).
  - eapply ledger_ok_map; [exact Hl|done|apply (st_ledger _ _ _ _ _ Hs)|].
    intros r0. unfold settled_row. destruct (billable _ _ _); [|done].
    by destruct (verdict_of _ _) as [[]|].
  - by rewrite Hac.
  - by rewrite Ha.
  - by rewrite Haa, Hac.
Qed.

Lemma runs_keep f t : I t → I (set_runs f t).
Proof using Type. intros [Hw Hl He Hat Hau]. split; [by apply money_wf_runs|by eapply ledger_ok_same|done..]. Qed.

Lemma accounts_keep f t : epochs_le (account_rows t) (f (account_rows t)) → I t → I (set_accounts f t).
Proof using Type.
  intros Hf [Hw Hl He Hat Hau]. split; [by apply money_wf_accounts|by eapply ledger_ok_same| |done|].
  - by eapply epochs_le_trans.
  - by eapply audit_grow.
Qed.

Lemma money_op_keeps {A} (op : DB A) :
  preserves money_wf op →
  (∀ w, money_wf (tables w) → let t := tables w in let t' := tables (op w).2 in
    request_attempts t' = request_attempts t ∧ usage_ledger t' = usage_ledger t ∧
    account_rows t' = account_rows t ∧ account_actions t' = account_actions t) →
  preserves I op.
Proof using Type.
  intros Hm Hf w [Hw Hl He Hat Hau]. destruct (Hf w Hw) as (Ha & Hu & Hac & Haa).
  split; [by apply Hm|by eapply ledger_ok_same|by rewrite Hac|by rewrite Ha|by rewrite Haa, Hac].
Qed.

(** A statement or transaction whose outcome is known changes the tables to
    that outcome or not at all. *)
Lemma exec_tables (f : db → result db_error db) w :
  tables (exec f w).2 = tables w ∨ f (tables w) = Ok (tables (exec f w).2).
Proof using Type.
  unfold exec, stmt. pose proof (next_fault_tables w) as Ht.
  destruct (next_fault w) as [[| |] w0]; cbn in Ht; rewrite <-Ht; [|by left|];
    destruct (f (tables w0)) as [t|e] eqn:E; cbn; auto.
Qed.

Lemma ApplyMovement_keeps mv :
  go_string (Movement_Amount mv) → Movement_Kind mv ≠ "debit"%string →
  preserves I (ApplyMovement mv).
Proof using Type.
  intros Hl Hk. apply money_op_keeps; [by apply ApplyMovement_preserves|]. intros w _. cbn zeta.
  pose proof (transaction_spec _ _ w (applyMovement_wp mv (tables w) (checked_amount mv Hl))) as H.
  unfold ApplyMovement. destruct (transaction _ w) as [r w']. cbn.
  destruct H as [[-> _]|(tr & (wl & z & _ & _ & _ & _ & _ & ->) & _)]; done.
Qed.

Lemma EnsureWallet_keeps tenantID currency : preserves I (EnsureWallet tenantID currency).
Proof using Type.
  apply money_op_keeps; [apply EnsureWallet_preserves|]. intros w _. cbn zeta.
  unfold EnsureWallet. destruct (String.eqb tenantID ""); [done|].
  match goal with |- context [exec ?f] => destruct (exec_tables f w) as [-> |H]; [done|] end.
  destruct (negb _); [done|]. destruct (tenant_wallets (tables w) !! tenantID);
    injection H as H; rewrite <-H; done.
Qed.

Lemma InsertModelPrice_keeps price now : preserves I (InsertModelPrice price now).
Proof using Type.
  apply money_op_keeps; [apply InsertModelPrice_preserves|]. intros w Hw. cbn zeta.
  pose proof (InsertModelPrice_effect price now w (mw_prices _ Hw)) as [->|(p & -> & _)]; done.
Qed.

Lemma resolveHeld_keeps runID eventID decision who note :
  runID ≠ ""%string → preserves I (resolveHeld runID eventID decision who note).
Proof using Type.
  intros Hrun w [Hw Hl He Hat Hau]. pose proof (resolveHeld_preserves runID eventID decision who note Hrun w Hw) as Hw'.
  pose proof (resolveHeld_contract runID eventID decision who note w) as H.
  destruct (resolveHeld _ _ _ _ _ w) as [r w']. cbn in *.
  destruct H as [[-> _]|(o & (row & d & wl & who' & res & Hr & Hev & _ & _ & _ & _ & _ & _ & Ht) & _)]; [done|].
  rewrite Ht in *. split; [done| | | |].
  - eapply ledger_ok_map; [exact Hl| | |].
    + cbn. unfold held_debit. by destruct (0 <? _).
    + cbn [usage_ledger set_resolutions]. rewrite <-Hev. apply ruled_ledger.
    + intros r0. cbn. destruct (has_event _ r0); [|done]. by destruct d.
  - cbn. unfold held_debit. by destruct (0 <? _).
  - cbn. unfold held_debit. by destruct (0 <? _).
  - cbn. unfold held_debit. by destruct (0 <? _).
Qed.

(** ** The ledger's operations *)

Lemma authority_epoch class at_ model a : ac_fence_epoch (release_authority class at_ model a) = ac_fence_epoch a.
Proof using Type. done. Qed.

Lemma alter_epochs f k (ac : gmap string account_row) :
  (∀ a, ac_fence_epoch (f a) = ac_fence_epoch a) → epochs_le ac (alter f k ac).
Proof using Type.
  intros Hf k' a Ha. destruct (decide (k = k')) as [<-|Hne].
  - rewrite lookup_alter_eq, Ha. cbn. exists (f a). rewrite Hf. done.
  - rewrite lookup_alter_ne by done. exists a. done.
Qed.

Lemma open_event_fresh t release a :
  ledger_ok P t → derived release → request_attempts t !! rel_AttemptID release = Some a →
  ra_state a = "open"%string → ∀ r, r ∈ usage_ledger t → ul_event_id r ≠ rel_EventID release.
Proof using HP.
  intros Ht Hd Ha Ho r Hr E. destruct (lo_closed _ _ Ht r Hr) as (b & Hb & Hs).
  rewrite Hd, (lo_event _ _ Ht r Hr) in E. apply HP in E; [|eapply lo_names; eauto..].
  rewrite E in Hb. congruence.
Qed.

Lemma metered_keeps t release a closed seq :
  I t → derived release → request_attempts t !! rel_AttemptID release = Some a →
  closes (rel_AttemptID release) a closed → seq = db_seq t →
  I (metered release (usage_row_of release seq) closed t).
Proof using HP.
  intros [Hw Hl He Hat Hau] Hd Ha Hc ->. split.
  - apply money_wf_attempts, money_wf_append; try done. destruct Hc as (Ho & _).
    by eapply open_event_fresh.
  - by eapply metered_ok.
  - exact He.
  - eapply attempts_grow_trans; [done|]. cbn. eapply attempts_grow_close; [done|apply Hc].
  - exact Hau.
Qed.

Lemma HandleAttemptStarted_keeps event :
  P (as_AttemptID event) → preserves I (HandleAttemptStarted event).
Proof using Type.
  intros Hp w [Hw Hl He Hat Hau]. unfold HandleAttemptStarted.
  match goal with |- context [exec ?f] => destruct (exec_tables f w) as [-> |H]; [done|] end.
  injection H as H. rewrite <-H. destruct (request_attempts (tables w) !! as_AttemptID event) eqn:E; [done|].
  split; [by apply money_wf_attempts| |done|by eapply attempts_grow_trans, attempts_grow_open|done].
  by apply (HandleAttemptStarted_ok P event (tables w)); [..|intros [? ?]; congruence].
Qed.

Lemma Release_Validate_derived release : Release_Validate release = Ok tt → derived release.
Proof using Type.
  unfold Release_Validate. destruct (negb (supportedSchemaVersion _)); [done|].
  destruct (existsb _ _); [done|].
  destruct (bool_decide (rel_EventID release = TerminalEventID (rel_AttemptID release))) eqn:E; cbn [negb];
    [|done]. intros _. by apply bool_decide_eq_true in E.
Qed.

Lemma HandleRelease_keeps release : derived release → preserves I (HandleRelease release).
Proof using HP.
  intros Hd w Hw. pose proof (HandleRelease_contract P HP release w (ct_ledger _ _ _ _ Hw) Hd) as H.
  destruct (HandleRelease release w) as [r w']. cbn.
  destruct H as [[-> _]|(first & (a & Ha & H) & _)]; [done|].
  destruct first; destruct H as [Ho ->]; [|done]. unfold released.
  apply accounts_keep; [by apply alter_epochs|].
  eapply metered_keeps; [done..| |done]. rewrite Hd. eapply terminate_closes; [apply Hw|done|done].
Qed.

Lemma recover_one_keeps now k a a0 count t :
  I t → request_attempts t !! k = Some a →
  wp (recover_one now count (k, a0)) (λ _ t', I t' ∧ dom (request_attempts t) ⊆ dom (request_attempts t')) t.
Proof using HP.
  intros HI Ha. eapply wp_mono; [|by apply (recover_one_wp P HP t now count k a a0 (ct_ledger _ _ _ _ HI))].
  intros count' t'. destruct (String.eqb_spec (ra_state a) "open") as [Ho|]; [|by intros [_ ->]].
  intros [_ (closed & Hc & _ & ->)]. split.
  - by eapply (metered_keeps t (synthetic_release k 0 a0 now)).
  - cbn. rewrite dom_insert_L. set_solver.
Qed.

Lemma RecoverAttempts_keeps skip before_ now : preserves I (RecoverAttempts skip before_ now).
Proof using HP.
  apply preserves_transaction. intros t HI. unfold recover_body. do 2 wp_step. simplify_eq.
  set (l := filter _ _). assert (∀ kv, kv ∈ l → kv.1 ∈ dom (request_attempts t)) as Hin.
  { intros [k a] [_ Hk%elem_of_map_to_list]%list_elem_of_filter. cbn. by eapply elem_of_dom_2. }
  eapply wp_mono; [|apply (wp_foldM (recover_one now) (λ _ _ t', I t' ∧
    dom (request_attempts t) ⊆ dom (request_attempts t')))]; [by intros ?? [? _]|by split|].
  intros seen [k a0] rest count t' El [HI' Hd].
  assert (k ∈ dom (request_attempts t')) as [a Ha]%elem_of_dom.
  { apply Hd. apply (Hin (k, a0)). rewrite El, elem_of_app. right. apply list_elem_of_here. }
  eapply wp_mono; [|by eapply recover_one_keeps]. intros _ t2 [H1 H2]. split; [done|set_solver].
Qed.

Lemma stmt_keeps {A} (f : db → result db_error (A * db)) :
  (∀ t a t', I t → f t = Ok (a, t') → I t') → preserves I (stmt f).
Proof using Type. apply preserves_stmt. Qed.

Lemma ReleaseStarved_keeps now : preserves I (ReleaseStarvedCooldowns now).
Proof using Type.
  apply preserves_stmt. intros t a t' HI [= _ <-]. apply accounts_keep; [|done].
  intros k acct Ha. rewrite map_lookup_imap, Ha. cbn.
  eexists. split; [done|]. by destruct (is_victim _ _ _ _).
Qed.

Lemma Acquire_keeps accountID : preserves I (Acquire accountID).
Proof using Type.
  apply preserves_stmt. intros t e t' HI. destruct (account_rows t !! accountID) as [a|] eqn:Ha; [|done].
  intros [= _ <-]. apply accounts_keep; [|done]. intros k b Hb.
  destruct (decide (accountID = k)) as [<-|Hne].
  - rewrite lookup_insert_eq. eexists. split; [done|]. cbn. simplify_eq. lia.
  - rewrite lookup_insert_ne by done. eauto with lia.
Qed.

Lemma UpdateCredential_keeps accountID epoch secret expiresAt :
  preserves I (UpdateCredential accountID epoch secret expiresAt).
Proof using Type.
  intros w [Hw Hl He Hat Hau]. pose proof (UpdateCredential_contract accountID epoch secret expiresAt w) as H.
  destruct (UpdateCredential _ _ _ _ w) as [r w']. cbn.
  destruct H as [[-> _]|(_ & c & _ & -> & _)]; [done|].
  split; [by apply money_wf_credentials|by eapply ledger_ok_same|done..].
Qed.

Lemma applyAccountAction_keeps accountID action reason who update guard :
  bumps update → preserves I (applyAccountAction accountID action reason who update guard).
Proof using Type.
  intros Hb w HI. pose proof (applyAccountAction_contract accountID action reason who update guard w) as H.
  destruct (applyAccountAction _ _ _ _ _ _ w) as [r w']. cbn.
  destruct H as [[-> _]|(res & (a & Ha & _ & H) & _)]; [done|].
  destruct (update a) as [a'|] eqn:Hu; [|by destruct H as (_ & _ & ->)]. destruct H as (_ & _ & ->).
  specialize (Hb a a' Hu). destruct HI as [Hw Hl He Hat Hau]. unfold acted. split.
  - by apply money_wf_actions, money_wf_accounts.
  - by eapply ledger_ok_same.
  - cbn. eapply epochs_le_trans; [done|]. intros k b Hk. destruct (decide (accountID = k)) as [<-|Hne].
    + rewrite lookup_insert_eq. exists a'. split; [done|]. simplify_eq. lia.
    + rewrite lookup_insert_ne by done. exists b. done.
  - exact Hat.
  - cbn. apply (audit_snoc _ _ (ActionRow accountID action reason who (ac_fence_epoch a') (db_now (tables w))) a a'); done.
Qed.

Lemma moved_reply_keeps tenantID id kind amount r : preserves I (moved_reply tenantID id kind amount r).
Proof using Type. apply moved_reply_reads. Qed.

Hint Resolve preserves_ret preserves_fail preserves_bind preserves_attempt ApplyMovement_keeps EnsureWallet_keeps
  InsertModelPrice_keeps resolveHeld_keeps applyAccountAction_keeps moved_reply_keeps
  set_status_bumps clear_cooldown_bumps clear_excluded_models_bumps : gw_keeps.

Ltac keeps :=
  repeat first
    [ progress (auto with gw_keeps)
    | progress unfold writeError, failed, accountActionError
    | match goal with |- preserves _ (_ ≫= _) => apply preserves_bind; [|intros ?] end
    | progress case_match ].

Lemma dispatch_keeps c who method r :
  cs_runID c ≠ ""%string →
  match r with
  | PostTopup _ (Some body) => go_string (tq_Amount body)
  | PostAdjust _ (Some body) => go_string (aq_Amount body)
  | _ => True
  end → preserves I (dispatch c who method r).
Proof using Type.
  intros Hrun Hr. destruct (String.eqb_spec (method_of r) "GET") as [E|E].
  { by apply dispatch_reads. }
  unfold dispatch. destruct (negb _); [keeps|]. destruct r; try (by destruct E); try (keeps; fail).
  - unfold handleAccountStatus. keeps.
  - unfold handleClearCooldown. keeps.
  - unfold handleClearExcludedModels. keeps.
  - unfold handleTopup. keeps. all: by apply ApplyMovement_keeps.
  - unfold handleAdjust. keeps. all: by apply ApplyMovement_keeps.
  - unfold handleInsertPrice. keeps.
  - unfold handleResolveHeld. keeps.
Qed.

Lemma serve_keeps c limiter rq w : op_ok P (OpConsole c limiter rq) → I (tables w) → I (run_op (OpConsole c limiter rq) w).
Proof using Type.
  intros [Hrun Hr] HI. cbn. unfold serve, authorize, rateLimit.
  pose proof (dispatch_keeps c (operator (rq_Operator rq)) (rq_Method rq) (rq_route rq) Hrun Hr w HI) as Hd.
  destruct (access _ _); [done|..]; (destruct (_ && _); [done|]); by destruct (allow _ _ _) as [[]].
Qed.

Lemma run_op_keeps o w : op_ok P o → I (tables w) → I (run_op o w).
Proof using HP.
  intros Ho Hw. destruct o; cbn in *.
  - by apply InsertModelPrice_keeps.
  - by apply EnsureWallet_keeps.
  - destruct Ho as [Hl Hk]. apply ApplyMovement_keeps; [done| |done].
    destruct Hk as [->| ->]; done.
  - apply RunOnce_frame; [|apply runs_keep|done]. intros. by apply settleTenant_keeps.
  - by apply resolveHeld_keeps.
  - by apply HandleAttemptStarted_keeps.
  - apply HandleRelease_keeps; [|done]. by apply Release_Validate_derived.
  - by apply RecoverAttempts_keeps.
  - by apply ReleaseStarved_keeps.
  - by apply Acquire_keeps.
  - by apply UpdateCredential_keeps.
  - by apply serve_keeps.
  - destruct Hw. split; [by apply money_wf_now|by eapply ledger_ok_same|done..].
  - destruct Hw. split; [by apply money_wf_tenants|by eapply ledger_ok_same|done..].
Qed.
End steps.

Lemma start_ok P ts now accounts credentials :
  control_ok P accounts ∅
    (set_credentials (λ _, credentials) (set_accounts (λ _, accounts) (empty_db ts now))).
Proof.
  split.
  - apply money_wf_credentials, money_wf_accounts, empty_db_wf.
  - split; cbn; try done; try (intros ? H; by apply elem_of_nil in H); [..|constructor].
    all: intros k a; by rewrite lookup_empty.
  - apply epochs_le_refl.
  - apply attempts_grow_refl.
  - split; [intros j Hj; by apply elem_of_nil in Hj|constructor].
Qed.

Lemma reachable_ok P ts now accounts credentials t :
  collision_free P → reachable P ts now accounts credentials t → control_ok P accounts ∅ t.
Proof. intros HP. induction 1; [apply start_ok|by apply run_op_keeps]. Qed.

(** ** The properties *)

(** Any later state. *)
Inductive leads_to (P : string → Prop) : db → db → Prop :=
| leads_refl t : leads_to P t t
| leads_step t t' o fs : leads_to P t t' → op_ok P o → leads_to P t (run_op o (World t' fs)).

Lemma leads_to_ok P m am t t' :
  collision_free P → leads_to P t t' → control_ok P m am t → control_ok P m am t'.
Proof. intros HP. induction 1; [done|]. intros. apply run_op_keeps; auto. Qed.

Lemma control_ok_now P m am t : control_ok P m am t → control_ok P (account_rows t) ∅ t.
Proof. intros [Hw Hl He Hat Hau]. by split; [| |apply epochs_le_refl| |]. Qed.

Lemma leads_to_epochs P m am t t' :
  collision_free P → leads_to P t t' → control_ok P m am t → epochs_le (account_rows t) (account_rows t').
Proof.
  intros HP Hl Hc. apply (ct_epochs P _ ∅). apply (leads_to_ok P _ _ t t' HP Hl). by eapply control_ok_now.
Qed.

(** The epoch drawn is the account's from then on. *)
Lemma Acquire_draws P m am accountID t fs epoch w :
  control_ok P m am t → Acquire accountID (World t fs) = (Ok epoch, w) →
  control_ok P m am (tables w) ∧ ∃ a', account_rows (tables w) !! accountID = Some a' ∧ ac_fence_epoch a' = epoch.
Proof.
  intros Hc H. pose proof (Acquire_keeps P m am accountID (World t fs) Hc) as Hk.
  pose proof (Acquire_wp accountID t (World t fs) eq_refl) as Hq. rewrite H in Hk, Hq.
  destruct Hq as (a & Ha & -> & Ht). split; [done|]. exists (with_epoch (ac_fence_epoch a + 1) a).
  rewrite Ht. cbn. by rewrite lookup_insert_eq.
Qed.

(** A credential is never written under an epoch the account has left behind. *)
Lemma old_epoch_refused accountID epoch secret expiresAt t fs a :
  account_rows t !! accountID = Some a → epoch < ac_fence_epoch a →
  let '(r, w') := UpdateCredential accountID epoch secret expiresAt (World t fs) in
  tables w' = t ∧ ∃ e, r = Err e.
Proof.
  intros Ha Hlt. pose proof (UpdateCredential_contract accountID epoch secret expiresAt (World t fs)) as H.
  destruct (UpdateCredential _ _ _ _ _) as [r w']. destruct H as [H|(Hep & _)]; [done|].
  exfalso. unfold epoch_is in Hep. cbn in Hep. rewrite Ha in Hep. breflect. lia.
Qed.

Lemma ledger_ok_count P t k a :
  ledger_ok P t → request_attempts t !! k = Some a →
  length (filter (λ r, ul_attempt_id r = k) (usage_ledger t))
  = if String.eqb (ra_state a) "open" then 0%nat else 1%nat.
Proof.
  intros Hl Ha. destruct (String.eqb_spec (ra_state a) "open") as [Ho|Ho].
  + destruct (filter _ _) as [|r l] eqn:E; [done|]. exfalso.
    assert (r ∈ filter (λ r, ul_attempt_id r = k) (usage_ledger t)) as [Hk Hin]%list_elem_of_filter
      by (rewrite E; apply list_elem_of_here).
    destruct (lo_closed _ _ Hl r Hin) as (b & Hb & Hs). rewrite Hk in Hb. congruence.
  + destruct (lo_row _ _ Hl _ _ Ha Ho) as (r & Hin & Hk).
    pose proof (lo_unique _ _ Hl) as Hnd. revert Hnd Hin. clear -Hk.
    induction (usage_ledger t) as [|x l IH]; intros Hnd Hin; [by apply elem_of_nil in Hin|].
    apply list.NoDup_cons in Hnd as [Hx Hnd]. rewrite filter_cons.
    apply elem_of_cons in Hin as [<-|Hin].
    * rewrite decide_True by done. cbn. f_equal.
      destruct (filter _ l) as [|y l'] eqn:E; [done|]. exfalso.
      assert (y ∈ filter (λ r, ul_attempt_id r = k) l) as [Hy Hyl]%list_elem_of_filter
        by (rewrite E; apply list_elem_of_here).
      apply Hx. rewrite Hk, <-Hy. by apply list_elem_of_fmap_2.
    * rewrite decide_False; [by apply IH|]. intros E. apply Hx. rewrite E, <-Hk.
      by apply list_elem_of_fmap_2.
Qed.

(** A small world: one tenant, one account, one metered and billed request. *)
Definition tiny_accounts : gmap string account_row :=
  {[ "acct"%string := {| ac_status := "active"; ac_fence_epoch := 7; ac_platform := "openai";
       ac_last_error_class := None; ac_last_error_at := None; ac_consecutive_failures := 0;
       ac_cooldown_until := None; ac_excluded_models := [];
       ac_provider := "openai"; ac_group := "default"; ac_capabilities := ["gpt"%string];
    ac_setup := AccountSetup "ops" "7" "" "" "{}" "{}"; ac_quota := "{}" |} ]}.

Definition tiny_credentials : gmap string credential_row :=
  {[ "acct"%string := CredentialRow "oauth" "old" None 1 ]}.

Definition tiny_start : db :=
  set_credentials (λ _, tiny_credentials) (set_accounts (λ _, tiny_accounts) (empty_db {["t1"%string]} 10)).

Definition tiny_price : ModelPrice :=
  {| Price_ID := "p1"; Price_Provider := "openai"; Price_Model := "gpt"; Price_Currency := "";
     Price_UnitScale := 1000; PriceInput := "0.25"; PriceOutput := "1"; PriceCacheRead := "0";
     PriceCacheWrite := "0"; EffectiveFrom := 50; Price_CreatedAt := 0 |}.

Definition tiny_topup : WalletMovement :=
  {| Movement_ID := "top-1"; Movement_TenantID := "t1"; Movement_Kind := "topup";
     Movement_Amount := "5.00"; Movement_BillingRunID := ""; Movement_Note := "" |}.

Definition tiny_ops : list control_op :=
  [OpEnsureWallet "t1" ""; OpApplyMovement tiny_topup; OpInsertModelPrice tiny_price 10; OpTick 150;
   OpAttemptStarted one_attempt; OpRelease (one_release 10); OpRunOnce "run-1" 1000].

Definition run_ops (ops : list control_op) (t : db) : db :=
  foldl (λ t o, run_op o (World t [])) t ops.

Lemma run_ops_leads P ops t : Forall (op_ok P) ops → leads_to P t (run_ops ops t).
Proof.
  induction ops as [|o ops IH] using rev_ind; [constructor|].
  intros [H1 H2]%list.Forall_app. unfold run_ops. rewrite foldl_app. constructor; [by apply IH|].
  exact (proj1 (list.Forall_singleton _ _) H2).
Qed.

Lemma one_release_valid : Release_Validate (one_release 10) = Ok tt.
Proof. vm_compute. reflexivity. Qed.

Lemma tiny_ops_ok : Forall (op_ok only_a1) tiny_ops.
Proof.
  unfold tiny_ops. rewrite !list.Forall_cons. split_and!; try exact I; [|exact eq_refl|exact one_release_valid|done|].
  - split; [vm_compute; reflexivity|by left].
  - by apply list.Forall_nil.
Qed.

Lemma leads_reachable P ts now accounts credentials t :
  leads_to P (set_credentials (λ _, credentials) (set_accounts (λ _, accounts) (empty_db ts now))) t →
  reachable P ts now accounts credentials t.
Proof. intros H. remember (set_credentials _ _) as t0. induction H; subst; by constructor; auto. Qed.

Definition tiny_end : db := run_ops tiny_ops tiny_start.

Lemma tiny_reachable : reachable only_a1 {["t1"%string]} 10 tiny_accounts tiny_credentials tiny_end.
Proof. apply leads_reachable, run_ops_leads, tiny_ops_ok. Qed.

Example tiny_billed :
  (λ r, (ul_billing_state r, ul_billed_amount r)) <$> usage_ledger tiny_end
    = [("billed"%string, Some 9500000000)] ∧
  (tw_balance <$> tenant_wallets tiny_end !! "t1"%string) = Some 4990500000000.
Proof. vm_compute. done. Qed.

(** C1 The books always balance: on every state control can reach -- any order
    of price insertions, top-ups, adjustments, billing runs, manual rulings,
    attempts, releases and recoveries, with any statement or commit failing at
    any point, a commit whose outcome is unknown included -- the reconciliation
    of every window reports no discrepancy. *)
Theorem reachable_reconciles P ts now accounts credentials t start end_ :
  collision_free P → reachable P ts now accounts credentials t → start < end_ →
  ∃ report, Run start end_ t = Some report ∧ Balanced report = true.
Proof.
  intros HP Hr Hlt. destruct (Run_audit start end_ t Hlt) as (report & Hrun & Hb).
  exists report. split; [done|]. apply Hb, money_wf_audit.
  exact (ct_money _ _ _ _ (reachable_ok _ _ _ _ _ _ HP Hr)).
Qed.

Lemma reachable_reconciles_witness :
  ∃ report, Run 100 300 tiny_end = Some report ∧ Balanced report = true.
Proof.
  apply (reachable_reconciles only_a1 {["t1"%string]} 10 tiny_accounts tiny_credentials tiny_end 100 300);
    [apply only_a1_free|apply tiny_reachable|lia].
Defined.

(** C3 Two facts of every reachable state that the money reports rest on: a
    wallet's balance is the sum of its journal, and what the ledger rows of a
    run are billed is what the run debited, for every tenant and run. *)
Theorem reachable_money_conserved P ts now accounts credentials t :
  collision_free P → reachable P ts now accounts credentials t →
  (∀ tenant w, tenant_wallets t !! tenant = Some w → tw_balance w = journal_sum tenant t) ∧
  (∀ tenant run, run_billed tenant run t = run_debit tenant run t) ∧
  (∀ r, r ∈ usage_ledger t → ul_billing_state r ≠ "billed"%string → ul_billed_amount r = None).
Proof.
  intros HP Hr. pose proof (ct_money _ _ _ _ (reachable_ok _ _ _ _ _ _ HP Hr)) as Hw.
  split_and!; [apply Hw|apply Hw|]. intros r Hin Hs.
  pose proof (proj1 (list.Forall_forall _ _) (mw_rows _ Hw) r Hin) as H. unfold row_wf in H.
  by rewrite (proj2 (String.eqb_neq _ _) Hs) in H.
Qed.

Lemma reachable_money_conserved_witness :
  (∀ tenant w, tenant_wallets tiny_end !! tenant = Some w → tw_balance w = journal_sum tenant tiny_end) ∧
  (∀ tenant run, run_billed tenant run tiny_end = run_debit tenant run tiny_end) ∧
  (∀ r, r ∈ usage_ledger tiny_end → ul_billing_state r ≠ "billed"%string → ul_billed_amount r = None).
Proof.
  apply (reachable_money_conserved only_a1 {["t1"%string]} 10 tiny_accounts tiny_credentials tiny_end);
    [apply only_a1_free|apply tiny_reachable].
Defined.

(** C4 Every attempt is metered exactly once over its whole life: on every
    reachable state a persisted attempt has one ledger row if it is closed and
    none while it is open, and no row belongs to an attempt that is not
    persisted. *)
Theorem reachable_metered_once P ts now accounts credentials t :
  collision_free P → reachable P ts now accounts credentials t →
  (∀ k a, request_attempts t !! k = Some a →
     length (filter (λ r, ul_attempt_id r = k) (usage_ledger t))
     = if String.eqb (ra_state a) "open" then 0%nat else 1%nat) ∧
  (∀ r, r ∈ usage_ledger t → is_Some (request_attempts t !! ul_attempt_id r)).
Proof.
  intros HP Hr. pose proof (ct_ledger _ _ _ _ (reachable_ok _ _ _ _ _ _ HP Hr)) as Hl. split.
  - intros k a Ha. by eapply ledger_ok_count.
  - intros r Hin. destruct (lo_closed _ _ Hl r Hin) as (a & -> & _). by eexists.
Qed.

Lemma reachable_metered_once_witness :
  (∀ k a, request_attempts tiny_end !! k = Some a →
     length (filter (λ r, ul_attempt_id r = k) (usage_ledger tiny_end))
     = if String.eqb (ra_state a) "open" then 0%nat else 1%nat) ∧
  (∀ r, r ∈ usage_ledger tiny_end → is_Some (request_attempts tiny_end !! ul_attempt_id r)).
Proof.
  apply (reachable_metered_once only_a1 {["t1"%string]} 10 tiny_accounts tiny_credentials tiny_end);
    [apply only_a1_free|apply tiny_reachable].
Defined.

(** C12 Fencing: once an account's epoch was drawn again -- by anyone, with
    anything happening in between and after -- a credential write under the
    older epoch is refused and changes nothing, whatever fails. *)
Theorem stale_epoch_refused P ts now accounts credentials t accountID epoch w1 t2 fs fs' epoch' w3 t4
    secret expiresAt fs'' :
  collision_free P → reachable P ts now accounts credentials t →
  Acquire accountID (World t fs) = (Ok epoch, w1) → leads_to P (tables w1) t2 →
  Acquire accountID (World t2 fs') = (Ok epoch', w3) → leads_to P (tables w3) t4 →
  let '(r, w') := UpdateCredential accountID epoch secret expiresAt (World t4 fs'') in
  tables w' = t4 ∧ ∃ e, r = Err e.
Proof.
  intros HP Hr H1 Hl1 H2 Hl2. pose proof (reachable_ok _ _ _ _ _ _ HP Hr) as Hc.
  destruct (Acquire_draws _ _ _ _ _ _ _ _ Hc H1) as (Hc1 & a1 & Ha1 & He1).
  destruct (leads_to_epochs P _ _ _ _ HP Hl1 Hc1 accountID a1 Ha1) as (a2 & Ha2 & Hle2).
  pose proof (leads_to_ok P _ _ _ _ HP Hl1 Hc1) as Hc2.
  destruct (Acquire_draws _ _ _ _ _ _ _ _ Hc2 H2) as (Hc3 & a3 & Ha3 & He3).
  destruct (leads_to_epochs P _ _ _ _ HP Hl2 Hc3 accountID a3 Ha3) as (a4 & Ha4 & Hle4).
  apply (old_epoch_refused accountID epoch secret expiresAt t4 fs'' a4 Ha4).
  pose proof (Acquire_wp accountID t2 (World t2 fs') eq_refl) as Hq. rewrite H2 in Hq.
  destruct Hq as (b & Hb & ? & _). simplify_eq. lia.
Qed.

Lemma stale_epoch_refused_witness :
  let t1 := tables (Acquire "acct" (World tiny_start [])).2 in
  let t3 := tables (Acquire "acct" (World t1 [])).2 in
  let '(r, w') := UpdateCredential "acct" 8 "stolen" None (World t3 []) in
  tables w' = t3 ∧ ∃ e, r = Err e.
Proof.
  apply (stale_epoch_refused only_a1 {["t1"%string]} 10 tiny_accounts tiny_credentials tiny_start "acct" 8
    (Acquire "acct" (World tiny_start [])).2 (tables (Acquire "acct" (World tiny_start [])).2) [] [] 9
    (Acquire "acct" (World (tables (Acquire "acct" (World tiny_start [])).2) [])).2
    (tables (Acquire "acct" (World (tables (Acquire "acct" (World tiny_start [])).2) [])).2) "stolen" None []).
  - apply only_a1_free.
  - constructor.
  - vm_compute. reflexivity.
  - constructor.
  - vm_compute. reflexivity.
  - constructor.
Defined.

(** An operator's action on an account leaves its mark: on every reachable state
    each audit row's epoch is at most its account's, and two actions on an
    account have drawn different, growing epochs; an applied action appends
    exactly its row with the epoch it returns, and from then on any credential
    write of a worker that drew its epoch before is refused, whatever happens in
    between and whatever fails. *)
Theorem account_action_fences P ts now accounts credentials t accountID epoch w1 t2 action reason who update
    guard fs fs' res w3 t4 secret expiresAt fs'' :
  collision_free P → reachable P ts now accounts credentials t → bumps update →
  Acquire accountID (World t fs) = (Ok epoch, w1) → leads_to P (tables w1) t2 →
  applyAccountAction accountID action reason who update guard (World t2 fs') = (Ok res, w3) →
  ar_Applied res = true → leads_to P (tables w3) t4 →
  audit_ok (account_actions t4) (account_rows t4) ∧
  (∃ at_, account_actions (tables w3) = account_actions t2 ++
     [ActionRow accountID action reason who (ar_FenceEpoch res) at_]) ∧
  let '(r, w') := UpdateCredential accountID epoch secret expiresAt (World t4 fs'') in
  tables w' = t4 ∧ ∃ e, r = Err e.
Proof.
  intros HP Hr Hb H1 Hl1 H2 Happ Hl2. pose proof (reachable_ok _ _ _ _ _ _ HP Hr) as Hc.
  destruct (Acquire_draws _ _ _ _ _ _ _ _ Hc H1) as (Hc1 & a1 & Ha1 & He1).
  destruct (leads_to_epochs P _ _ _ _ HP Hl1 Hc1 accountID a1 Ha1) as (a2 & Ha2 & Hle2).
  pose proof (leads_to_ok P _ _ _ _ HP Hl1 Hc1) as Hc2.
  pose proof (applyAccountAction_keeps P _ _ accountID action reason who update guard Hb (World t2 fs') Hc2) as Hc3.
  pose proof (applyAccountAction_contract accountID action reason who update guard (World t2 fs')) as Ha.
  rewrite H2 in Hc3, Ha. cbn [snd tables] in Hc3, Ha. destruct Ha as [[_ [e He]]|(res' & Hout & Hres)]; [done|].
  destruct Hres as [[= <-]|]; [|done]. destruct Hout as (a & Hfound & _ & Hout). rewrite Ha2 in Hfound. injection Hfound as <-.
  destruct (update a2) as [a'|] eqn:Hu; [|by destruct Hout as (? & _); congruence].
  destruct Hout as (_ & Hep & Ht3). specialize (Hb a2 a' Hu). split_and!.
  - by apply (ct_audit _ _ _ _ (leads_to_ok P _ _ _ _ HP Hl2 Hc3)).
  - rewrite Ht3, Hep. eexists. reflexivity.
  - assert (account_rows (tables w3) !! accountID = Some a') as Ha3 by (rewrite Ht3; cbn; by rewrite lookup_insert_eq).
    destruct (leads_to_epochs P _ _ _ _ HP Hl2 Hc3 accountID a' Ha3) as (a4 & Ha4 & Hle4).
    apply (old_epoch_refused accountID _ secret expiresAt t4 fs'' a4 Ha4). lia.
Qed.

Lemma account_action_fences_witness :
  let t1 := tables (Acquire "acct" (World tiny_start [])).2 in
  let w3 := (applyAccountAction "acct" "set_status:disabled" "leaked key" "ann" (set_status "disabled") no_guard (World t1 [])).2 in
  account_actions (tables w3) = [ActionRow "acct" "set_status:disabled" "leaked key" "ann" 9 10] ∧
  let '(r, w') := UpdateCredential "acct" 8 "stolen" None (World (tables w3) []) in
  tables w' = tables w3 ∧ ∃ e, r = Err e.
Proof.
  cbv zeta. split; [vm_compute; reflexivity|].
  apply (account_action_fences only_a1 {["t1"%string]} 10 tiny_accounts tiny_credentials tiny_start "acct" 8
    (Acquire "acct" (World tiny_start [])).2 (tables (Acquire "acct" (World tiny_start [])).2)
    "set_status:disabled" "leaked key" "ann" (set_status "disabled") no_guard [] []
    (action_result "acct" "set_status:disabled" "" true 9)
    (applyAccountAction "acct" "set_status:disabled" "leaked key" "ann" (set_status "disabled") no_guard
      (World (tables (Acquire "acct" (World tiny_start [])).2) [])).2
    (tables (applyAccountAction "acct" "set_status:disabled" "leaked key" "ann" (set_status "disabled") no_guard
      (World (tables (Acquire "acct" (World tiny_start [])).2) [])).2) "stolen" None []).
  - apply only_a1_free.
  - constructor.
  - apply set_status_bumps.
  - vm_compute. reflexivity.
  - constructor.
  - vm_compute. reflexivity.
  - reflexivity.
  - constructor.
Defined.
