(* ===== verification/Redis.v ===== *)
(** * A Redis keyspace

    The commands the repository sends to Redis, with their documented meaning:
    values carry a type, a key may carry an expiry in milliseconds, and an
    expired key is absent.  A Lua script runs atomically at one instant; a
    command that fails inside a script leaves what the script already wrote.

    A client call may also fail on the way: [Lost] when the server never ran
    it, [Unknown] when it ran and the reply was lost (the faults of Db.v). *)

From S2P Require Import Prelude Numeric Db.

Open Scope Z_scope.

(** [RInt] is a string that spells an integer. *)
Inductive rvalue :=
| RInt (z : Z)
| RStr (s : string)
| RHash (fields : gmap string string)
| RSet (members : gset string)
| RZSet (scores : gmap string Z).

Record rentry := REntry { re_value : rvalue; re_expires : option Z }.

Record redis := Redis { keyspace : gmap string rentry; clock : Z }.

Inductive redis_error := WrongType | NotInteger | IncrOverflow | ScriptError (msg : string) | Unavailable.

Definition R (A : Type) : Type := redis → result redis_error A * redis.

#[export] Instance R_ret : MRet R := λ A a st, (Ok a, st).
#[export] Instance R_bind : MBind R := λ A B k m st,
  match m st with
  | (Ok a, st') => k a st'
  | (Err e, st') => (Err e, st')
  end.

Definition raise {A} (e : redis_error) : R A := λ st, (Err e, st).

(** Redis drops a key once its expiry is in the past. *)
Definition live (now : Z) (e : rentry) : bool :=
  match re_expires e with Some at_ => now <=? at_ | None => true end.

Definition find (st : redis) (k : string) : option rentry :=
  match keyspace st !! k with
  | Some e => if live (clock st) e then Some e else None
  | None => None
  end.

Definition put (k : string) (e : rentry) (st : redis) : redis :=
  Redis (<[k := e]> (keyspace st)) (clock st).

Definition drop (k : string) (st : redis) : redis := Redis (delete k (keyspace st)) (clock st).

(** The clock of the server moves forward. *)
Definition elapse (d : Z) (st : redis) : redis := Redis (keyspace st) (clock st + Z.max 0 d).

(** ** Commands *)

Definition GET (k : string) : R (option rvalue) := λ st,
  match find st k with
  | None => (Ok None, st)
  | Some (REntry (RInt z) _) => (Ok (Some (RInt z)), st)
  | Some (REntry (RStr s) _) => (Ok (Some (RStr s)), st)
  | Some _ => (Err WrongType, st)
  end.

(** INCR and DECR: the expiry of the key is kept. *)
Definition INCRBY (by_ : Z) (k : string) : R Z := λ st,
  match find st k with
  | None => (Ok by_, put k (REntry (RInt by_) None) st)
  | Some (REntry (RInt z) ttl) =>
      if (min_int64 <=? z + by_) && (z + by_ <=? max_int64)
      then (Ok (z + by_), put k (REntry (RInt (z + by_)) ttl) st)
      else (Err IncrOverflow, st)
  | Some (REntry (RStr _) _) => (Err NotInteger, st)
  | Some _ => (Err WrongType, st)
  end.
Definition INCR : string → R Z := INCRBY 1.
Definition DECR : string → R Z := INCRBY (-1).

(** PEXPIRE and EXPIRE answer whether the key exists. *)
Definition PEXPIRE (k : string) (ms : Z) : R Z := λ st,
  match find st k with
  | None => (Ok 0, st)
  | Some e => (Ok 1, put k (REntry (re_value e) (Some (clock st + ms))) st)
  end.
Definition EXPIRE (k : string) (seconds : Z) : R Z := PEXPIRE k (1000 * seconds).

Definition SET (k : string) (v : rvalue) (ttl : option Z) : R unit := λ st,
  (Ok tt, put k (REntry v ((λ ms, clock st + ms) <$> ttl)) st).

Definition DEL (k : string) : R Z := λ st,
  match find st k with None => (Ok 0, st) | Some _ => (Ok 1, drop k st) end.

Definition HSET (k field value : string) : R unit := λ st,
  match find st k with
  | None => (Ok tt, put k (REntry (RHash {[field := value]}) None) st)
  | Some (REntry (RHash m) ttl) => (Ok tt, put k (REntry (RHash (<[field := value]> m)) ttl) st)
  | Some _ => (Err WrongType, st)
  end.

(** A hash without fields does not exist. *)
Definition HDEL (k field : string) : R unit := λ st,
  match find st k with
  | None => (Ok tt, st)
  | Some (REntry (RHash m) ttl) =>
      let m := delete field m in
      (Ok tt, if bool_decide (m = ∅) then drop k st else put k (REntry (RHash m) ttl) st)
  | Some _ => (Err WrongType, st)
  end.

Definition HGETALL (k : string) : R (gmap string string) := λ st,
  match find st k with
  | None => (Ok ∅, st)
  | Some (REntry (RHash m) _) => (Ok m, st)
  | Some _ => (Err WrongType, st)
  end.

Definition SADD (k member : string) : R unit := λ st,
  match find st k with
  | None => (Ok tt, put k (REntry (RSet {[member]}) None) st)
  | Some (REntry (RSet s) ttl) => (Ok tt, put k (REntry (RSet ({[member]} ∪ s)) ttl) st)
  | Some _ => (Err WrongType, st)
  end.

Definition SREM (k member : string) : R unit := λ st,
  match find st k with
  | None => (Ok tt, st)
  | Some (REntry (RSet s) ttl) =>
      let s := s ∖ {[member]} in
      (Ok tt, if bool_decide (s = ∅) then drop k st else put k (REntry (RSet s) ttl) st)
  | Some _ => (Err WrongType, st)
  end.

Definition ZADD (k : string) (score : Z) (member : string) : R unit := λ st,
  match find st k with
  | None => (Ok tt, put k (REntry (RZSet {[member := score]}) None) st)
  | Some (REntry (RZSet m) ttl) => (Ok tt, put k (REntry (RZSet (<[member := score]> m)) ttl) st)
  | Some _ => (Err WrongType, st)
  end.

(** TTL in seconds, rounded; -2 without the key, -1 without an expiry. *)
Definition TTL (k : string) : R Z := λ st,
  match find st k with
  | None => (Ok (-2), st)
  | Some (REntry _ None) => (Ok (-1), st)
  | Some (REntry _ (Some at_)) => (Ok (Z.div (Z.max 0 (at_ - clock st) + 500) 1000), st)
  end.

(** RENAME overwrites its target and fails without its source. *)
Definition RENAME (k k' : string) : R unit := λ st,
  match find st k with
  | None => (Err (ScriptError "no such key"), st)
  | Some e => (Ok tt, put k' e (drop k st))
  end.

(** A client call under a fault of the network. *)
Definition call {A} (f : fault) (m : R A) : R A := λ st,
  match f with
  | NoFault => m st
  | Lost => (Err Unavailable, st)
  | Unknown => (Err Unavailable, (m st).2)
  end.

(** What a key holds as a number, 0 when it is absent. *)
Definition counter (st : redis) (k : string) : Z :=
  match find st k with Some (REntry (RInt z) _) => z | _ => 0 end.

(** ** Lemmas *)

Lemma find_put st k k' e :
  find (put k e st) k' = if decide (k = k') then (if live (clock st) e then Some e else None) else find st k'.
Proof.
  unfold find, put. cbn. destruct (decide (k = k')) as [<-|Hne].
  - by rewrite lookup_insert_eq.
  - by rewrite lookup_insert_ne by done.
Qed.

Lemma find_drop st k k' : find (drop k st) k' = if decide (k = k') then None else find st k'.
Proof.
  unfold find, drop. cbn. destruct (decide (k = k')) as [<-|Hne].
  - by rewrite lookup_delete_eq.
  - by rewrite lookup_delete_ne by done.
Qed.

Lemma find_live st k e : find st k = Some e → keyspace st !! k = Some e ∧ live (clock st) e = true.
Proof. unfold find. destruct (keyspace st !! k) as [e'|]; [|done]. destruct (live _ e') eqn:E; [|done]. by intros [= ->]. Qed.

Lemma counter_put st k k' e :
  counter (put k e st) k' = if decide (k = k')
    then (if live (clock st) e then match e with REntry (RInt z) _ => z | _ => 0 end else 0)
    else counter st k'.
Proof. unfold counter. rewrite find_put. repeat case_decide; [|done]. by destruct (live _ _). Qed.

Lemma counter_drop st k k' : counter (drop k st) k' = if decide (k = k') then 0 else counter st k'.
Proof. unfold counter. rewrite find_drop. by case_decide. Qed.

Lemma find_elapse d st k e : find (elapse d st) k = Some e → find st k = Some e.
Proof.
  unfold find, elapse. cbn. destruct (keyspace st !! k) as [e'|]; [|done].
  unfold live. destruct (re_expires e') as [at_|]; [|done].
  destruct (Z.leb_spec (clock st + Z.max 0 d) at_); [|done]. by rewrite (proj2 (Z.leb_le _ _)) by lia.
Qed.
