(* ===== verification/Limiter.v ===== *)
(** * Admission limits and session pins

    internal/gateway/limiter.go and internal/gateway/sticky.go: the two Lua
    scripts, the keys they run on, what an unreachable Redis means for accounts
    and for tenants, and the pins of sessions to accounts. *)

From S2P Require Import Prelude Sha256 Decimal Contracts Numeric Db Redis.

Open Scope Z_scope.

(** ** The scripts *)

(** [(2 * time.Minute).Milliseconds()]. *)
Definition limit_window : Z := 120000.

(** INCR a counter; the expiry is set when it starts. *)
Definition bump (k : string) : R Z :=
  n ← INCR k;
  _ ← (if n =? 1 then PEXPIRE k limit_window else mret 0);
  mret n.

Definition acquire_script (key rpmKey : string) (maxConcurrency rpm : Z) : R Z :=
  concurrency ← bump key;
  if (0 <? maxConcurrency) && (maxConcurrency <? concurrency) then
    _ ← DECR key;
    mret (-1)
  else if 0 <? rpm then
    used ← bump rpmKey;
    if rpm <? used then
      _ ← DECR key;
      mret (-2)
    else mret concurrency
  else mret concurrency.

Definition release_script (key : string) : R Z :=
  current ← GET key;
  match current with
  | None => mret 0
  | Some (RInt n) => if n <=? 1 then _ ← DEL key; mret 0 else DECR key
  | Some _ => raise (ScriptError "attempt to compare nil with number")
  end.

(** ** Limiter *)

Inductive limiter_error := ErrRateLimited | ErrTenantRateLimited | ErrFailClosed.

Record TenantLimits := { tl_MaxConcurrency : Z; tl_RPM : Z }.

(** The release function handed to the caller: [None] is [noopRelease],
    [Some key] runs the release script on [key]. *)
Abbreviation handle := (option string).

Definition fallback (failOpen : bool) : result limiter_error handle :=
  if failOpen then Ok None else Err ErrFailClosed.

(** [client] is [None] for a nil client, else the fault of the call. *)
Definition acquireKeys (client : option fault) (key rpmKey : string) (maxConcurrency rpm : Z)
    (failOpen : bool) (st : redis) : result limiter_error handle * redis :=
  match client with
  | None => (fallback failOpen, st)
  | Some f =>
      match call f (acquire_script key rpmKey maxConcurrency rpm) st with
      | (Err _, st') => (fallback failOpen, st')
      | (Ok n, st') => ((if n <? 0 then Err ErrRateLimited else Ok (Some key)), st')
      end
  end.

(** [time.Unix()] of an instant: seconds since January 1, 1970. *)
Definition unix (t : time) : Z := Z.div t second - 62135596800.

Definition concurrency_key (accountID : string) : string := "gateway:concurrency:" +:+ accountID.
Definition tenant_concurrency_key (tenantID : string) : string :=
  "gateway:tenant:concurrency:" +:+ tenantID.
Definition minute_of (now : time) : Z := Z.quot (unix now) 60.
Definition rpm_key (accountID : string) (now : time) : string :=
  "gateway:rpm:" +:+ accountID +:+ ":" +:+ format_int (minute_of now).
Definition tenant_rpm_key (tenantID : string) (now : time) : string :=
  "gateway:tenant:rpm:" +:+ tenantID +:+ ":" +:+ format_int (minute_of now).

Definition Acquire (client : option fault) (lease : Lease) (now : time) (st : redis)
    : result limiter_error handle * redis :=
  let limits := WithDefaults (ls_Limits lease) in
  acquireKeys client (concurrency_key (ls_AccountID lease)) (rpm_key (ls_AccountID lease) now)
    (lim_MaxConcurrency limits) (lim_RPM limits)
    (bool_decide (lim_DegradePolicy limits = DegradeFailOpen)) st.

Definition AcquireTenant (client : option fault) (tenantID : string) (limits : TenantLimits)
    (now : time) (st : redis) : result limiter_error handle * redis :=
  if String.eqb tenantID "" || ((tl_MaxConcurrency limits <=? 0) && (tl_RPM limits <=? 0))
  then (Ok None, st)
  else
    match acquireKeys client (tenant_concurrency_key tenantID) (tenant_rpm_key tenantID now)
            (tl_MaxConcurrency limits) (tl_RPM limits) false st with
    | (Err ErrRateLimited, st') => (Err ErrTenantRateLimited, st')
    | (r, st') => (r, st')
    end.

(** The release function itself; its errors are dropped. *)
Definition run_release (f : fault) (h : handle) (st : redis) : redis :=
  match h with None => st | Some key => (call f (release_script key) st).2 end.

(** ** Sticky sessions *)

Definition stickyPrefix : string := "gateway:sticky:".
Definition defaultStickyTTL : duration := 5 * minute.
Definition maxSessionKeyLen : Z := 256.

(** hex.EncodeToString(sum[:16]) is the first half of the digest. *)
Definition stickyKey (tenantID sessionKey : string) : string :=
  stickyPrefix +:+ tenantID +:+ ":" +:+ str_take 32 (sha256_hex sessionKey).

Definition Lookup (client : option fault) (tenantID sessionKey : string) (st : redis) : string :=
  match client with
  | None => ""
  | Some f =>
      if String.eqb tenantID "" || String.eqb sessionKey "" then ""
      else match (call f (GET (stickyKey tenantID sessionKey)) st).1 with
           | Ok (Some (RStr s)) => s
           | Ok (Some (RInt z)) => format_int z
           | _ => ""
           end
  end.

Definition millisecond : duration := 1000000.

Definition Pin (client : option fault) (tenantID sessionKey accountID : string) (ttl : duration)
    (st : redis) : redis :=
  (* go-redis never sends less than a millisecond *)
  match client with
  | None => st
  | Some f =>
      if String.eqb tenantID "" || String.eqb sessionKey "" || String.eqb accountID "" then st
      else
        let ttl := if ttl <=? 0 then defaultStickyTTL else ttl in
        (call f (SET (stickyKey tenantID sessionKey) (RStr accountID) (Some (Z.max 1 (Z.quot ttl millisecond)))) st).2
  end.

Definition is_control (a : Ascii.ascii) : bool :=
  let n := Ascii.nat_of_ascii a in (Nat.ltb n 32) || (Nat.eqb n 127).

Inductive session_error := SessionTooLong | SessionControl.

(** The control characters are single bytes, so the runes of the source can be
    read byte by byte. *)
Definition normalizeSessionKey (raw : string) : result session_error string :=
  let raw := trim_space raw in
  if String.eqb raw "" then Ok ""%string
  else if maxSessionKeyLen <? str_len raw then Err SessionTooLong
  else if negb (str_forallb (λ a, negb (is_control a)) raw) then Err SessionControl
  else Ok raw.
