(* ===== verification/LimiterFacts.v ===== *)
(** * What the limits guarantee

    Requests are admitted and released in any order, by any number of gateways,
    while calls to Redis fail and keys expire.  [limit_step] is one such event;
    the invariants say what the counters know about the requests in flight. *)

From S2P Require Import Prelude Sha256 Decimal Contracts Numeric Db Redis Limiter.

Open Scope Z_scope.

(** ** Keys *)

Lemma str_app_nonempty_tail a b x y :
  str_forallb (λ c, negb (bool_decide (c = byte_of 58))) x = true →
  str_forallb (λ c, negb (bool_decide (c = byte_of 58))) y = true →
  a +:+ ":" +:+ x = b +:+ ":" +:+ y → a = b ∧ x = y.
Proof.
  assert (∀ b x y, str_forallb (λ c, negb (bool_decide (c = byte_of 58))) x = true →
    ":" +:+ x = b +:+ ":" +:+ y → b = ""%string ∧ x = y) as H0.
  { clear. intros [|c b] x y Hx H; [by injection H|]. exfalso.
    injection H as _ H. change (x = b +:+ ":" +:+ y) in H. subst x. revert Hx. rewrite str_forallb_app, andb_true_iff. intros [_ H]. discriminate H. }
  intros Hx Hy. revert b. induction a as [|c a IH]; intros b H.
  - destruct (H0 b x y Hx H) as [-> ->]. done.
  - destruct b as [|d b].
    + destruct (H0 (String c a) y x Hy (eq_sym H)) as [E _]. discriminate E.
    + injection H as -> H. by destruct (IH b H) as [-> ->].
Qed.

Lemma digits_no_colon s : all_digits s → str_forallb (λ c, negb (bool_decide (c = byte_of 58))) s = true.
Proof.
  induction s as [|c s IH]; [done|]. cbn. rewrite !andb_true_iff.
  intros [Hc Hs]. split; [|by apply IH]. rewrite negb_true_iff, bool_decide_eq_false. intros ->.
  discriminate Hc.
Qed.

Lemma format_int_minute m : 0 <= m →
  str_forallb (λ c, negb (bool_decide (c = byte_of 58))) (format_int m) = true ∧ digits_val (format_int m) = m.
Proof.
  intros Hm. unfold format_int. rewrite (proj2 (Z.ltb_ge m 0)) by lia.
  split; [apply digits_no_colon, show_nonneg_digits|by apply show_nonneg_val].
Qed.

Lemma minute_suffix a b m n :
  0 <= m → 0 <= n → a +:+ ":" +:+ format_int m = b +:+ ":" +:+ format_int n → a = b ∧ m = n.
Proof.
  intros Hm Hn H. destruct (format_int_minute m Hm) as [Cm Vm]. destruct (format_int_minute n Hn) as [Cn Vn].
  destruct (str_app_nonempty_tail _ _ _ _ Cm Cn H) as [-> E]. split; [done|]. by rewrite <-Vm, E, Vn.
Qed.

(** The keys that count requests in flight and those that count a minute. *)
Definition is_concurrency (k : string) : bool :=
  has_prefix "gateway:concurrency:" k || has_prefix "gateway:tenant:concurrency:" k.

Lemma rpm_key_not_concurrency id now : is_concurrency (rpm_key id now) = false.
Proof. done. Qed.
Lemma tenant_rpm_key_not_concurrency id now : is_concurrency (tenant_rpm_key id now) = false.
Proof. done. Qed.
Lemma concurrency_key_is id : is_concurrency (concurrency_key id) = true.
Proof. done. Qed.
Lemma tenant_concurrency_key_is id : is_concurrency (tenant_concurrency_key id) = true.
Proof. done. Qed.

(** ** What the commands do to the counters *)

(** [st'] differs from [st] at most at [ks]. *)
Definition same_but (ks : list string) (st st' : redis) : Prop :=
  clock st' = clock st ∧ ∀ k, k ∉ ks → find st' k = find st k.

Lemma same_but_refl ks st : same_but ks st st.
Proof. done. Qed.

Lemma same_but_trans ks ks' st st' st'' :
  same_but ks st st' → same_but ks' st' st'' → same_but (ks ++ ks') st st''.
Proof.
  intros [C1 F1] [C2 F2]. split; [congruence|]. intros k Hk. apply not_elem_of_app in Hk as [H1 H2].
  rewrite F2, F1; done.
Qed.

Lemma same_but_put k e st : same_but [k] st (put k e st).
Proof.
  split; [done|]. intros k' Hk. rewrite find_put, decide_False; [done|]. set_solver.
Qed.

Lemma same_but_counter ks st st' k : same_but ks st st' → k ∉ ks → counter st' k = counter st k.
Proof. intros [_ H] Hk. unfold counter. by rewrite H. Qed.

Definition ttl_of (st : redis) (k : string) : option Z := find st k ≫= re_expires.

(** The counter [k] stands at [n] with the expiry [ttl]. *)
Definition stands (st : redis) (k : string) (n : Z) (ttl : option Z) : Prop :=
  find st k = Some (REntry (RInt n) ttl).

Lemma stands_counter st k n ttl : stands st k n ttl → counter st k = n.
Proof. unfold stands, counter. by intros ->. Qed.

Lemma INCRBY_spec by_ k st :
  let '(r, st') := INCRBY by_ k st in
  match r with
  | Ok n => n = counter st k + by_ ∧ stands st' k n (ttl_of st k) ∧ same_but [k] st st'
  | Err _ => st' = st
  end.
Proof.
  unfold INCRBY, stands, counter, ttl_of. destruct (find st k) as [[v ttl]|] eqn:E; [destruct v; try done|].
  - destruct (_ && _); [|done]. split_and!; [done| |apply same_but_put].
    rewrite find_put, decide_True by done. apply find_live in E as [_ E]. unfold live in *. cbn in *.
    by rewrite E.
  - split_and!; [done| |apply same_but_put]. by rewrite find_put, decide_True by done.
Qed.

Lemma PEXPIRE_spec k ms n ttl st :
  0 <= ms → stands st k n ttl →
  let '(r, st') := PEXPIRE k ms st in
  r = Ok 1 ∧ stands st' k n (Some (clock st + ms)) ∧ same_but [k] st st'.
Proof.
  unfold PEXPIRE, stands. intros Hms ->. split_and!; [done| |apply same_but_put].
  rewrite find_put, decide_True by done. unfold live. cbn. rewrite (proj2 (Z.leb_le _ _)) by lia. done.
Qed.

Lemma bump_spec k st :
  let '(r, st') := bump k st in
  match r with
  | Ok n => n = counter st k + 1 ∧ same_but [k] st st' ∧
      ∃ ttl, stands st' k n ttl ∧ (ttl = ttl_of st k ∧ n ≠ 1 ∨ ttl = Some (clock st + limit_window))
  | Err _ => st' = st
  end.
Proof.
  unfold bump, INCR, mbind, R_bind. pose proof (INCRBY_spec 1 k st) as H.
  destruct (INCRBY 1 k st) as [[n|e] st1]; [|done]. destruct H as (Hn & Hs & Hb).
  destruct (Z.eqb_spec n 1) as [H1|H1].
  - pose proof (PEXPIRE_spec k limit_window n _ st1 ltac:(done) Hs) as H.
    destruct (PEXPIRE k limit_window st1) as [r st2]. destruct H as (-> & Hs2 & Hb2). cbn.
    split_and!; [done|..].
    + pose proof (same_but_trans _ _ _ _ _ Hb Hb2) as [C F]. split; [done|]. intros k' Hk. apply F. set_solver.
    + eexists. split; [exact Hs2|]. right. by rewrite (proj1 Hb).
  - cbn. split_and!; [done..|]. eexists. split; [done|]. by left.
Qed.

(** ** The scripts *)

(** [rk] was incremented once, or not touched. *)
Definition bumped (rk : string) (st st' : redis) : Prop :=
  ∃ ttl, stands st' rk (counter st rk + 1) ttl ∧
    (ttl = ttl_of st rk ∧ counter st rk ≠ 0 ∨ ttl = Some (clock st + limit_window)).

Lemma DECR_spec k st n ttl :
  stands st k n ttl →
  let '(r, st') := DECR k st in
  same_but [k] st st' ∧ n - 1 <= counter st' k <= n ∧ (∀ m, r = Ok m → counter st' k = n - 1).
Proof.
  intros Hs. unfold DECR. pose proof (INCRBY_spec (-1) k st) as H.
  destruct (INCRBY (-1) k st) as [[m|e] st']; rewrite ?(stands_counter _ _ _ _ Hs) in H.
  - destruct H as (Hm & Hs' & Hb). rewrite (stands_counter _ _ _ _ Hs'). split_and!; [done|lia..|].
    intros ? _. lia.
  - subst. split_and!; [done|rewrite (stands_counter _ _ _ _ Hs); lia..|done].
Qed.

Lemma acquire_script_spec key rk max rpm st :
  key ≠ rk → 0 <= counter st key →
  let '(r, st') := acquire_script key rk max rpm st in
  same_but [key; rk] st st' ∧ counter st key <= counter st' key ∧
  (find st' rk = find st rk ∨ bumped rk st st') ∧
  (∀ n, r = Ok n → 0 <= n → counter st' key = counter st key + 1 ∧
     (0 < max → counter st' key <= max) ∧ (0 < rpm → bumped rk st st' ∧ counter st' rk <= rpm)).
Proof.
  intros Hne Hpos. unfold acquire_script, mbind at 1, R_bind at 1.
  pose proof (bump_spec key st) as H. destruct (bump key st) as [[c|e] st1].
  2:{ subst. split_and!; [done|lia|by left|done]. }
  destruct H as (Hc & Hb1 & ttl & Hs1 & _).
  assert (find st1 rk = find st rk) as Hrk by (apply Hb1; set_solver).
  assert (counter st1 key = counter st key + 1) as Hk1 by (rewrite (stands_counter _ _ _ _ Hs1); lia).
  destruct ((0 <? max) && (max <? c)) eqn:Emax.
  { unfold mbind, R_bind. pose proof (DECR_spec _ _ _ _ Hs1) as H.
    destruct (DECR key st1) as [[m|e] st2]; destruct H as (Hb2 & Hd & _);
      (split_and!; [|lia| |]); try (intros n [= <-]; lia); try done.
    all: try (left; rewrite <-Hrk; apply Hb2; set_solver).
    all: destruct Hb1 as [C1 F1], Hb2 as [C2 F2]; split; [congruence|]; intros k Hk;
      rewrite F2, F1; [done|set_solver..]. }
  assert (0 < max → c <= max) as Hmax.
  { intros Hm. rewrite (proj2 (Z.ltb_lt 0 max) Hm) in Emax. breflect. cbn in Emax. breflect. lia. }
  destruct (Z.ltb_spec 0 rpm) as [Hr|Hr].
  2:{ cbn. split_and!; [|lia|by left|].
      - destruct Hb1 as [C F]. split; [done|]. intros k Hk. apply F. set_solver.
      - intros n [= <-] _. split_and!; [done|lia|lia]. }
  unfold mbind, R_bind. pose proof (bump_spec rk st1) as H. destruct (bump rk st1) as [[u|e] st2].
  2:{ subst. split_and!; [|lia|by left|done]. destruct Hb1 as [C F]. split; [done|]. intros k Hk. apply F. set_solver. }
  destruct H as (Hu & Hb2 & ttl2 & Hs2 & Ht2).
  assert (counter st1 rk = counter st rk) as Hcr by (unfold counter; by rewrite Hrk).
  assert (bumped rk st st2) as Hbump.
  { exists ttl2. rewrite Hcr in Hu. rewrite <-Hu. split; [done|]. unfold ttl_of in *. rewrite Hrk in Ht2.
    rewrite (proj1 Hb1) in Ht2. destruct Ht2 as [[??]|?]; [left; split; [done|lia]|by right]. }
  assert (stands st2 key c ttl) as Hs1' by (unfold stands; rewrite (proj2 Hb2); [done|set_solver]).
  assert (same_but [key; rk] st st2) as Hb12.
  { destruct Hb1 as [C1 F1], Hb2 as [C2 F2]. split; [congruence|]. intros k Hk. rewrite F2, F1; [done|set_solver..]. }
  destruct (Z.ltb_spec rpm u) as [Hlim|Hlim].
  - pose proof (DECR_spec _ _ _ _ Hs1') as H.
    assert (∀ st3, same_but [key] st2 st3 → bumped rk st st3) as Hkeep.
    { intros st3 [_ F]. destruct Hbump as (t & Hs & Ht). exists t. split; [|done]. unfold stands. rewrite F; [done|set_solver]. }
    destruct (DECR key st2) as [[m|e] st3]; destruct H as (Hb3 & Hd & _);
      (split_and!; [|lia|right; by apply Hkeep|]); try (intros n [= <-]; lia); try done.
    all: destruct Hb12 as [C1 F1], Hb3 as [C2 F2]; split; [congruence|]; intros k Hk;
      rewrite F2, F1; [done|set_solver..].
  - cbn. assert (counter st2 key = c) as Hkc by (by rewrite (stands_counter _ _ _ _ Hs1')).
    split_and!; [done|lia|by right|]. intros n [= <-] _. split_and!; [lia|lia|].
    intros _. split; [done|]. rewrite (stands_counter _ _ _ _ Hs2). lia.
Qed.

Lemma release_script_spec key st :
  let '(r, st') := release_script key st in
  same_but [key] st st' ∧ counter st key - 1 <= counter st' key ∧
  (0 <= counter st key → 0 <= counter st' key).
Proof.
  unfold release_script, mbind, R_bind, GET. destruct (find st key) as [[v ttl]|] eqn:E.
  2:{ cbn. split_and!; [done|lia|done]. }
  destruct v as [n|s|h|s|z]; cbn; try (split_and!; [done|lia|done]).
  assert (stands st key n ttl) as Hs by done. rewrite (stands_counter _ _ _ _ Hs).
  destruct (Z.leb_spec n 1) as [Hn|Hn].
  - unfold DEL. rewrite E. cbn. split.
    + split; [done|]. intros k' Hk'. rewrite find_drop, decide_False; [done|]. set_solver.
    + rewrite counter_drop, decide_True by done. lia.
  - pose proof (DECR_spec _ _ _ _ Hs) as H. destruct (DECR key st) as [r st']. destruct H as (Hb & Hd & _).
    split_and!; [done|lia..].
Qed.

(** ** Requests in flight

    [sy_held] has one entry per request whose release function will run the
    release script, [sy_admitted] one per request admitted under a positive
    minute limit (both are ghosts: nobody stores them). *)

Record limits_sys := Sys { sy_redis : redis; sy_held : list string; sy_admitted : list string }.

Definition occurrences (k : string) (l : list string) : Z :=
  Z.of_nat (length (filter (λ x, x = k) l)).

Definition let_in (rk : string) (rpm : Z) (r : result limiter_error handle) (st : redis) (s : limits_sys)
    : limits_sys :=
  match r with
  | Ok (Some k) => Sys st (k :: sy_held s) (if 0 <? rpm then rk :: sy_admitted s else sy_admitted s)
  | _ => Sys st (sy_held s) (sy_admitted s)
  end.

(** Milliseconds since 1970, as the server counts them. *)
Definition unix_ms (t : time) : Z := Z.div t millisecond - 62135596800000.

(** The clocks of gateway and server agree up to half a minute. *)
Definition on_time (now : time) (st : redis) : Prop := Z.abs (unix_ms now - clock st) <= 30000.

(** With [strict], no key expires while a request holds it. *)
Inductive limit_step (strict : bool) : limits_sys → limits_sys → Prop :=
| step_elapse s d :
    (strict = true → ∀ k, k ∈ sy_held s → is_Some (find (elapse d (sy_redis s)) k)) →
    limit_step strict s (Sys (elapse d (sy_redis s)) (sy_held s) (sy_admitted s))
| step_account s client lease now r st :
    on_time now (sy_redis s) → Acquire client lease now (sy_redis s) = (r, st) →
    limit_step strict s
      (let_in (rpm_key (ls_AccountID lease) now) (lim_RPM (WithDefaults (ls_Limits lease))) r st s)
| step_tenant s client tenantID limits now r st :
    on_time now (sy_redis s) → AcquireTenant client tenantID limits now (sy_redis s) = (r, st) →
    limit_step strict s (let_in (tenant_rpm_key tenantID now) (tl_RPM limits) r st s)
| step_release s k l1 l2 f :
    sy_held s = l1 ++ k :: l2 →
    limit_step strict s (Sys (run_release f (Some k) (sy_redis s)) (l1 ++ l2) (sy_admitted s)).

(** From an empty keyspace, any time after the first half minute of 1970. *)
Inductive limits_reachable (strict : bool) : limits_sys → Prop :=
| limits_start now : 30000 <= now → limits_reachable strict (Sys (Redis ∅ now) [] [])
| limits_next s s' : limits_reachable strict s → limit_step strict s s' → limits_reachable strict s'.

(** The shape of a minute counter. *)
Definition minute_key (rk : string) (m : Z) : Prop :=
  ∃ base, is_concurrency rk = false ∧ 0 <= m ∧ rk = base +:+ ":" +:+ format_int m.

(** A minute counter that admitted [a] requests: its minute is over, it was
    never touched, or it stands for at least as many and outlives the minute. *)
Definition minute_ok (st : redis) (rk : string) (m a : Z) : Prop :=
  60000 * m + 90000 < clock st ∨ (find st rk = None ∧ a = 0) ∨
  ∃ n e, stands st rk n (Some e) ∧ a <= n ∧ 60000 * m + 90000 <= e.

Record limits_ok (strict : bool) (s : limits_sys) : Prop := {
  lk_clock : 30000 <= clock (sy_redis s);
  lk_pos : ∀ k, is_concurrency k = true → 0 <= counter (sy_redis s) k;
  lk_keys : ∀ k, k ∈ sy_held s → is_concurrency k = true;
  lk_held : strict = true → ∀ k, is_concurrency k = true →
    occurrences k (sy_held s) <= counter (sy_redis s) k;
  lk_minute : ∀ rk m, minute_key rk m → minute_ok (sy_redis s) rk m (occurrences rk (sy_admitted s))
}.

(** ** One admission *)

(** What [acquireKeys] may do, whatever fails. *)
Lemma acquireKeys_spec client key rk max rpm open_ st :
  key ≠ rk → 0 <= counter st key →
  let '(r, st') := acquireKeys client key rk max rpm open_ st in
  same_but [key; rk] st st' ∧ counter st key <= counter st' key ∧
  (find st' rk = find st rk ∨ bumped rk st st') ∧
  (∀ k, r = Ok (Some k) → k = key ∧ counter st' key = counter st key + 1 ∧
     (0 < max → counter st' key <= max) ∧ (0 < rpm → bumped rk st st' ∧ counter st' rk <= rpm)) ∧
  (r = Ok None → open_ = true).
Proof.
  intros Hne Hpos. unfold acquireKeys.
  assert (∀ k, fallback open_ ≠ Ok (Some k)) as Hf1 by (by destruct open_).
  assert (fallback open_ = Ok None → open_ = true) as Hf2 by (by destruct open_).
  destruct client as [f|].
  2:{ split_and!; [done|lia|by left| |done]. intros k E. by apply Hf1 in E. }
  pose proof (acquire_script_spec key rk max rpm st Hne Hpos) as H.
  destruct f; cbn [call].
  - destruct (acquire_script key rk max rpm st) as [[n|e] st']; destruct H as (Hb & Hc & Hr & Hn).
    + split_and!; [done..| |].
      * intros k E. destruct (Z.ltb_spec n 0); [done|]. injection E as <-. split; [done|]. by apply (Hn n).
      * by destruct (n <? 0).
    + split_and!; [done..| |done]. intros k E. by apply Hf1 in E.
  - split_and!; [done|lia|by left| |done]. intros k E. by apply Hf1 in E.
  - destruct (acquire_script key rk max rpm st) as [r st']; destruct H as (Hb & Hc & Hr & Hn). cbn [snd].
    split_and!; [done..| |done]. intros k E. by apply Hf1 in E.
Qed.

Lemma occurrences_cons k k' l : occurrences k (k' :: l) = (if decide (k' = k) then 1 else 0) + occurrences k l.
Proof. unfold occurrences. rewrite filter_cons. case_decide; cbn [length]; lia. Qed.

Lemma occurrences_split k l1 k' l2 :
  occurrences k (l1 ++ k' :: l2) = (if decide (k' = k) then 1 else 0) + occurrences k (l1 ++ l2).
Proof.
  unfold occurrences. rewrite !list.filter_app, !length_app, filter_cons. case_decide; cbn [length]; lia.
Qed.

Lemma occurrences_elem k l : occurrences k l ≠ 0 → k ∈ l.
Proof.
  unfold occurrences. intros H. destruct (filter _ l) as [|x l'] eqn:E; [done|].
  assert (x ∈ filter (λ y, y = k) l) as [<- Hx]%list_elem_of_filter by (rewrite E; apply list_elem_of_here).
  done.
Qed.

(** The minute a gateway reads belongs to the time the server sees. *)
Lemma on_time_minute now st :
  on_time now st → 30000 <= clock st →
  0 <= minute_of now ∧ 60000 * minute_of now - 30000 <= clock st < 60000 * minute_of now + 90000.
Proof.
  unfold on_time, minute_of, unix, unix_ms, millisecond, second. intros Ht Hc.
  assert (now / 1000000000 = (now / 1000000) / 1000) as E by (by rewrite Z.div_div).
  rewrite E. set (u := now / 1000000) in *.
  pose proof (Z.mul_div_le u 1000 ltac:(lia)). pose proof (Z.mul_succ_div_gt u 1000 ltac:(lia)).
  set (q := u / 1000) in *. rewrite (Z.quot_div_nonneg (q - 62135596800) 60) by lia.
  pose proof (Z.mul_div_le (q - 62135596800) 60 ltac:(lia)).
  pose proof (Z.mul_succ_div_gt (q - 62135596800) 60 ltac:(lia)). 
  pose proof (Z.div_pos (q - 62135596800) 60). lia.
Qed.

(** ** The invariant *)

Lemma rpm_minute_key id now st :
  on_time now st → 30000 <= clock st → minute_key (rpm_key id now) (minute_of now).
Proof.
  intros Ht Hc. exists ("gateway:rpm:" +:+ id). split; [done|]. split; [by apply (on_time_minute now st)|done].
Qed.

Lemma tenant_rpm_minute_key id now st :
  on_time now st → 30000 <= clock st → minute_key (tenant_rpm_key id now) (minute_of now).
Proof.
  intros Ht Hc. exists ("gateway:tenant:rpm:" +:+ id). split; [done|]. split; [by apply (on_time_minute now st)|done].
Qed.

Lemma minute_key_unique rk m n : minute_key rk m → minute_key rk n → m = n.
Proof.
  intros (a & _ & Hm & Ea) (b & _ & Hn & Eb). rewrite Ea in Eb. by apply minute_suffix in Eb as [_ ->].
Qed.

Lemma stands_same st st' ks k n ttl : same_but ks st st' → k ∉ ks → stands st k n ttl → stands st' k n ttl.
Proof. unfold stands. intros [_ H] Hk. by rewrite H. Qed.

(** ** Minute counters *)

Lemma minute_ok_same st st' rk m a :
  clock st' = clock st → find st' rk = find st rk → minute_ok st rk m a → minute_ok st' rk m a.
Proof. unfold minute_ok, stands. by intros -> ->. Qed.

Lemma minute_ok_bumped st st' rk m a a' :
  clock st' = clock st → bumped rk st st' → 60000 * m - 30000 <= clock st → a' <= a + 1 →
  minute_ok st rk m a → minute_ok st' rk m a'.
Proof.
  unfold minute_ok. intros Hclock (ttl & Hs & Ht) Hm Ha [Hlate|[[Hf ->]|(n & e & Hn & Hle & He)]].
  - left. lia.
  - right. right. assert (counter st rk = 0) as E by (unfold counter; by rewrite Hf).
    rewrite E in *. destruct Ht as [[_ ?]| ->]; [done|]. unfold limit_window in *. eauto with lia.
  - right. right. rewrite (stands_counter _ _ _ _ Hn) in *. unfold ttl_of in Ht. rewrite Hn in Ht. cbn in Ht.
    unfold limit_window in *. destruct Ht as [[-> _]| ->]; eauto with lia.
Qed.

Lemma minute_ok_elapse st d rk m a : minute_ok st rk m a → minute_ok (elapse d st) rk m a.
Proof.
  unfold minute_ok. intros [Hlate|[[Hf ->]|(n & e & Hn & Hle & He)]].
  - left. cbn. lia.
  - right. left. split; [|done]. destruct (find (elapse d st) rk) eqn:E; [|done].
    apply find_elapse in E. congruence.
  - destruct (Z.le_gt_cases (clock (elapse d st)) e) as [Hlt|Hgt]; [|left; lia].
    right. right. exists n, e. split_and!; [|done..]. unfold stands, find in *. unfold elapse in *. cbn in *.
    destruct (keyspace st !! rk) as [e'|]; [|done]. destruct (live (clock st) e'); [|done].
    injection Hn as ->. unfold live. cbn. by rewrite (proj2 (Z.leb_le _ _)).
Qed.

(** ** Every step keeps the invariant *)

Lemma admit_ok strict s client key rk max rpm open_ now r st :
  limits_ok strict s → is_concurrency key = true → minute_key rk (minute_of now) → on_time now (sy_redis s) →
  acquireKeys client key rk max rpm open_ (sy_redis s) = (r, st) →
  limits_ok strict (let_in rk rpm r st s).
Proof.
  intros [Kc Kp Kk Kh Km] Hkey Hrk Ht E. pose proof (on_time_minute _ _ Ht Kc) as (Hm0 & Hlo & Hhi).
  assert (is_concurrency rk = false) as Hrkc by (by destruct Hrk as (? & ? & _)).
  assert (key ≠ rk) as Hne by congruence.
  pose proof (acquireKeys_spec client key rk max rpm open_ (sy_redis s) Hne (Kp key Hkey)) as H.
  rewrite E in H. destruct H as ([Hclock Hfind] & Hc & Hrkst & Hok & _).
  assert (∀ k, is_concurrency k = true → counter (sy_redis s) k <= counter st k) as Hgrow.
  { intros k Hk. destruct (decide (k = key)) as [->|Hk']; [done|].
    unfold counter. rewrite Hfind; [done|]. rewrite !not_elem_of_cons. split_and!; [done|congruence|apply not_elem_of_nil]. }
  assert (∀ rk' m a, minute_key rk' m → minute_ok (sy_redis s) rk' m a → minute_ok st rk' m a) as Hkept.
  { intros rk' m a Hm Hmin. destruct (decide (rk' = rk)) as [->|Hr].
    - pose proof (minute_key_unique _ _ _ Hm Hrk) as ->.
      destruct Hrkst as [Hf|Hb]; [by eapply minute_ok_same|]. eapply minute_ok_bumped; [done|exact Hb|lia| |done]. lia.
    - eapply minute_ok_same; [done| |done]. apply Hfind. rewrite !not_elem_of_cons.
      split_and!; [|done|apply not_elem_of_nil]. destruct Hm as (? & ? & _). congruence. }
  destruct r as [[k|]|e].
  2,3: split; cbn; [lia| |done| |]; [intros k Hk; specialize (Kp k Hk); specialize (Hgrow k Hk); lia| |];
    [intros Hst k Hk; specialize (Kh Hst k Hk); specialize (Hgrow k Hk); lia|intros rk' m Hm; by apply Hkept, Km].
  destruct (Hok k eq_refl) as (-> & Hcnt & _ & Hrpm). split; cbn; [lia| | | |].
  - intros k Hk. specialize (Kp k Hk). specialize (Hgrow k Hk). lia.
  - intros k [->|Hin]%elem_of_cons; [done|by apply Kk].
  - intros Hst k Hk. rewrite occurrences_cons. specialize (Kh Hst k Hk). case_decide as Hd; [subst; lia|].
    specialize (Hgrow k Hk). lia.
  - intros rk' m Hm. destruct (Z.ltb_spec 0 rpm) as [Hr|Hr]; [|by apply Hkept, Km].
    rewrite occurrences_cons. case_decide as Hd; [subst rk'|by apply Hkept, Km].
    pose proof (minute_key_unique _ _ _ Hm Hrk) as ->. destruct (Hrpm Hr) as [Hb _].
    eapply minute_ok_bumped; [done|exact Hb|lia| |by apply Km]. lia.
Qed.

Lemma AcquireTenant_cases client tenantID limits now st :
  AcquireTenant client tenantID limits now st = (Ok None, st) ∨
  ∃ r, acquireKeys client (tenant_concurrency_key tenantID) (tenant_rpm_key tenantID now)
         (tl_MaxConcurrency limits) (tl_RPM limits) false st
       = (r, (AcquireTenant client tenantID limits now st).2) ∧
    (AcquireTenant client tenantID limits now st).1
    = match r with Err ErrRateLimited => Err ErrTenantRateLimited | _ => r end.
Proof.
  unfold AcquireTenant. destruct (String.eqb tenantID "" || _); [by left|right].
  destruct (acquireKeys _ _ _ _ _ _ st) as [r st']. exists r. by destruct r as [?|[]].
Qed.

Lemma run_release_spec f k st :
  let st' := run_release f (Some k) st in
  same_but [k] st st' ∧ counter st k - 1 <= counter st' k ∧ (0 <= counter st k → 0 <= counter st' k).
Proof.
  pose proof (release_script_spec k st) as H. cbn. unfold call.
  destruct f; [|split_and!; [done|cbn; lia|done]|]; by destruct (release_script k st).
Qed.

Lemma limit_step_ok strict s s' : limits_ok strict s → limit_step strict s s' → limits_ok strict s'.
Proof.
  intros Hs Hstep. destruct Hstep as [s d Hd|s client lease now r st Ht E|s client id limits now r st Ht E|s k l1 l2 f Hl].
  - destruct Hs as [Kc Kp Kk Kh Km]. split; cbn.
    + lia.
    + intros k Hk. unfold counter. destruct (find (elapse d (sy_redis s)) k) eqn:E; [|done].
      apply find_elapse in E. specialize (Kp k Hk). unfold counter in Kp. by rewrite E in Kp.
    + done.
    + intros Hst k Hk. specialize (Kh Hst k Hk).
      destruct (decide (occurrences k (sy_held s) = 0)) as [->|Hn].
      * specialize (Kp k Hk). unfold counter in *. destruct (find (elapse _ _) k) eqn:E; [|done].
        apply find_elapse in E. by rewrite E in Kp.
      * destruct (Hd Hst k (occurrences_elem _ _ Hn)) as [e He]. unfold counter in *.
        rewrite He. apply find_elapse in He. by rewrite He in Kh.
    + intros rk m Hm. by apply minute_ok_elapse, Km.
  - unfold Acquire in E. eapply admit_ok; [done| | |done|exact E]; [done|].
    eapply rpm_minute_key; [done|apply Hs].
  - destruct (AcquireTenant_cases client id limits now (sy_redis s)) as [E'|(r' & E' & Er)]; rewrite E in *.
    + injection E' as -> ->. destruct Hs. by split.
    + cbn in *. subst r. eapply admit_ok in E'; [|done|done|by eapply tenant_rpm_minute_key; [|apply Hs]|done].
      by destruct r' as [[]|[]].
  - destruct Hs as [Kc Kp Kk Kh Km]. pose proof (run_release_spec f k (sy_redis s)) as H. cbn zeta in H.
    set (st := run_release f (Some k) (sy_redis s)) in *. destruct H as ([Hclock Hfind] & Hc & Hpos).
    assert (is_concurrency k = true) as Hkc by (apply Kk; rewrite Hl; set_solver).
    assert (∀ k', k' ≠ k → find st k' = find (sy_redis s) k') as Hfind' by (intros; apply Hfind; set_solver).
    assert (∀ k', k' ≠ k → counter st k' = counter (sy_redis s) k') as Hcnt
      by (intros k' Hk'; unfold counter; by rewrite Hfind').
    rewrite Hl in *. split; cbn [sy_redis sy_held sy_admitted].
    + lia.
    + intros k' Hk'. destruct (decide (k' = k)) as [->|Hn]; [by apply Hpos, Kp|rewrite Hcnt; auto].
    + intros k' Hin. apply Kk. set_solver.
    + intros Hst k' Hk'. specialize (Kh Hst k' Hk'). rewrite occurrences_split in Kh.
      case_decide as Hd; [subst; lia|]. rewrite Hcnt by congruence. lia.
    + intros rk m Hm. eapply minute_ok_same; [done| |by apply Km]. apply Hfind'.
      destruct Hm as (? & ? & _). congruence.
Qed.

Lemma limits_reachable_ok strict s : limits_reachable strict s → limits_ok strict s.
Proof.
  induction 1 as [now Hnow|]; [|by eapply limit_step_ok]. split; try done.
  - by intros k Hin%elem_of_nil.
  - intros rk m _. right. left. done.
Qed.

(** ** The properties *)

Lemma WithDefaults_max l : lim_MaxConcurrency (WithDefaults l) = lim_MaxConcurrency l.
Proof. unfold WithDefaults. by destruct (bool_decide _). Qed.

Section claims.
  Context (strict : bool) (s : limits_sys) (client : option fault) (now : time).

(** C25 The concurrency ceiling: for an account whose degrade policy is not
    fail_open, as long as no concurrency key expires while a request holds it and
    every gateway's clock is within 30 s of Redis's, an admission is always
    counted, and under a positive limit it leaves at most that many requests of
    the account in flight -- with any number of gateways, any interleaving, lost
    calls and lost replies included.  (Under fail_open a request is admitted
    uncounted when the call to Redis fails; for that policy no ceiling is claimed,
    and such requests are not among those counted here.) *)
Theorem account_concurrency_bounded lease h st :
  limits_reachable true s → on_time now (sy_redis s) →
  Acquire client lease now (sy_redis s) = (Ok h, st) →
  lim_DegradePolicy (WithDefaults (ls_Limits lease)) ≠ DegradeFailOpen →
  h = Some (concurrency_key (ls_AccountID lease)) ∧
  (0 < lim_MaxConcurrency (ls_Limits lease) →
   occurrences (concurrency_key (ls_AccountID lease)) (concurrency_key (ls_AccountID lease) :: sy_held s)
   <= lim_MaxConcurrency (ls_Limits lease)).
Proof.
  intros Hr Ht E Hclosed. pose proof (limits_reachable_ok _ _ Hr) as Hok. unfold Acquire in E.
  pose proof (acquireKeys_spec client (concurrency_key (ls_AccountID lease)) (rpm_key (ls_AccountID lease) now)
    (lim_MaxConcurrency (WithDefaults (ls_Limits lease))) (lim_RPM (WithDefaults (ls_Limits lease)))
    (bool_decide (lim_DegradePolicy (WithDefaults (ls_Limits lease)) = DegradeFailOpen)) (sy_redis s)) as H.
  rewrite E in H. destruct H as (_ & _ & _ & Hsome & Hnone); [done|by apply (lk_pos _ _ Hok)|].
  destruct h as [k|]; [|specialize (Hnone eq_refl); by rewrite bool_decide_eq_false_2 in Hnone].
  destruct (Hsome k eq_refl) as (-> & Hcnt & Hmax & _). split; [done|]. intros Hpos.
  rewrite occurrences_cons, decide_True by done.
  pose proof (lk_held _ _ Hok eq_refl (concurrency_key (ls_AccountID lease)) eq_refl) as Hheld.
  rewrite WithDefaults_max in Hmax. specialize (Hmax Hpos). lia.
Qed.

(** C26 The minute ceiling of a tenant: as long as every gateway's clock is within
    30 s of Redis's, an admission under a positive RPM limit leaves at most that
    many admissions of the tenant in that minute -- whatever keys expire while
    they are held, whatever calls or replies are lost, however the gateways
    interleave; and a tenant with a limit is never admitted uncounted, Redis or
    no Redis. *)
Theorem tenant_rpm_bounded tenantID limits h st :
  limits_reachable strict s → on_time now (sy_redis s) → tenantID ≠ ""%string → 0 < tl_RPM limits →
  AcquireTenant client tenantID limits now (sy_redis s) = (Ok h, st) →
  h = Some (tenant_concurrency_key tenantID) ∧
  occurrences (tenant_rpm_key tenantID now) (tenant_rpm_key tenantID now :: sy_admitted s) <= tl_RPM limits.
Proof.
  intros Hr Ht Hid Hrpm E. pose proof (limits_reachable_ok _ _ Hr) as Hok.
  pose proof (on_time_minute _ _ Ht (lk_clock _ _ Hok)) as (_ & _ & Hhi).
  pose proof (tenant_rpm_minute_key tenantID now _ Ht (lk_clock _ _ Hok)) as Hmk.
  destruct (AcquireTenant_cases client tenantID limits now (sy_redis s)) as [E'|(r & E' & Er)].
  { unfold AcquireTenant in E'. rewrite (proj2 (String.eqb_neq _ _) Hid), (proj2 (Z.leb_gt (tl_RPM limits) 0)), andb_false_r in E' by lia.
    cbn [orb] in E'. destruct (acquireKeys _ _ _ _ _ _ _) as [[[k|]|[]] st'] eqn:Ek; try done.
    pose proof (acquireKeys_spec client (tenant_concurrency_key tenantID) (tenant_rpm_key tenantID now)
      (tl_MaxConcurrency limits) (tl_RPM limits) false (sy_redis s)) as H.
    rewrite Ek in H. destruct H as (_ & _ & _ & _ & Hn); [done|by apply (lk_pos _ _ Hok)|by specialize (Hn eq_refl)]. }
  rewrite E in *. cbn [fst snd] in *.
  pose proof (acquireKeys_spec client (tenant_concurrency_key tenantID) (tenant_rpm_key tenantID now)
    (tl_MaxConcurrency limits) (tl_RPM limits) false (sy_redis s)) as H.
  rewrite E' in H. destruct H as (_ & _ & _ & Hsome & Hnone); [done|by apply (lk_pos _ _ Hok)|].
  assert (r = Ok h) as -> by (by destruct r as [?|[]]). destruct h as [k|]; [|by specialize (Hnone eq_refl)].
  destruct (Hsome k eq_refl) as (-> & _ & _ & Hb). destruct (Hb Hrpm) as [(ttl & Hst & _) Hle].
  split; [done|]. rewrite occurrences_cons, decide_True by done.
  rewrite (stands_counter _ _ _ _ Hst) in Hle.
  destruct (lk_minute _ _ Hok _ _ Hmk) as [?|[[Hf ->]|(n & e & Hn & Hocc & _)]]; [lia| |].
  - unfold counter in Hle. rewrite Hf in Hle. lia.
  - rewrite (stands_counter _ _ _ _ Hn) in Hle. lia.
Qed.
End claims.

Definition lease_with (max rpm : Z) : Lease :=
  MkLease "acct" "openai" zeroCredential zeroProfile (MkLimits max rpm 0 "") 0 "".

Definition noon : time := (62135596800000 + 1000000) * millisecond.
Definition quiet : limits_sys := Sys (Redis ∅ 1000000) [] [].

(** One request of [lease] admitted. *)
Definition admitted_one (lease : Lease) (now : time) (s : limits_sys) : limits_sys :=
  let '(r, st) := Acquire (Some NoFault) lease now (sy_redis s) in
  let_in (rpm_key (ls_AccountID lease) now) (lim_RPM (WithDefaults (ls_Limits lease))) r st s.

Lemma admitted_one_reachable strict lease now s :
  limits_reachable strict s → on_time now (sy_redis s) → limits_reachable strict (admitted_one lease now s).
Proof.
  intros Hs Ht. unfold admitted_one. destruct (Acquire _ _ _ _) as [r st] eqn:E.
  eapply limits_next; [exact Hs|]. by econstructor.
Qed.

Lemma quiet_reachable strict : limits_reachable strict quiet.
Proof. apply limits_start. done. Qed.

Lemma account_concurrency_bounded_witness :
  let lease := lease_with 2 0 in
  let s := admitted_one lease noon quiet in
  let '(r, st) := Acquire (Some NoFault) lease noon (sy_redis s) in
  r = Ok (Some (concurrency_key "acct")) ∧
  occurrences (concurrency_key "acct") (concurrency_key "acct" :: sy_held s) <= 2.
Proof.
  cbv zeta. destruct (Acquire _ _ _ _) as [r st] eqn:E.
  assert (r = Ok (Some (concurrency_key "acct"))) as -> by (vm_compute in E; by injection E as <- _).
  split; [done|].
  refine (proj2 (account_concurrency_bounded (admitted_one (lease_with 2 0) noon quiet) (Some NoFault) noon
    (lease_with 2 0) _ st _ _ E _) _); [|by vm_compute|by vm_compute|by vm_compute].
  apply admitted_one_reachable; [apply quiet_reachable|by vm_compute].
Defined.

Lemma tenant_rpm_bounded_witness :
  let limits := {| tl_MaxConcurrency := 0; tl_RPM := 1 |} in
  let '(r, st) := AcquireTenant (Some NoFault) "t1" limits noon (sy_redis quiet) in
  r = Ok (Some (tenant_concurrency_key "t1")) ∧
  occurrences (tenant_rpm_key "t1" noon) (tenant_rpm_key "t1" noon :: sy_admitted quiet) <= 1.
Proof.
  cbv zeta. destruct (AcquireTenant _ _ _ _ _) as [r st] eqn:E.
  assert (r = Ok (Some (tenant_concurrency_key "t1"))) as -> by (vm_compute in E; by injection E as <- _).
  split; [done|].
  refine (proj2 (tenant_rpm_bounded false quiet (Some NoFault) noon "t1" {| tl_MaxConcurrency := 0; tl_RPM := 1 |} _ st _ _ _ _ E));
    [apply quiet_reachable|by vm_compute|done|done].
Defined.

(** The same account, two minutes and a millisecond later. *)
Definition overtaken : limits_sys :=
  let s := admitted_one (lease_with 1 0) noon quiet in
  let s := Sys (elapse 120001 (sy_redis s)) (sy_held s) (sy_admitted s) in
  admitted_one (lease_with 1 0) (noon + 120001 * millisecond) s.

(** C37 The ceiling does not survive the expiry of its counter: the key expires
    two minutes after the first admission and is never renewed, so a request
    that streams for longer is forgotten and an account limited to one request
    serves two. *)
Theorem concurrency_window_outlived :
  limits_reachable false overtaken ∧
  occurrences (concurrency_key "acct") (sy_held overtaken) = 2 ∧
  lim_MaxConcurrency (ls_Limits (lease_with 1 0)) = 1.
Proof.
  split_and!; [|by vm_compute|done]. unfold overtaken.
  apply admitted_one_reachable; [|by vm_compute].
  eapply limits_next; [apply (admitted_one_reachable false (lease_with 1 0) noon quiet); [apply quiet_reachable|by vm_compute]|].
  by apply step_elapse.
Qed.

(** ** Sticky sessions *)

(** The tenant can be read off a sticky key, whatever the sessions hash to. *)
Lemma stickyKey_tenant t t' k k' : stickyKey t k = stickyKey t' k' → t = t'.
Proof.
  unfold stickyKey. intros H%str_app_prefix.
  assert (∀ s, String.length (":" +:+ str_take 32 (sha256_hex s)) = 33%nat) as Hl.
  { intros s. rewrite str_length_app, str_take_length; [done|]. rewrite sha256_hex_length. lia. }
  by apply str_app_same_tail in H as [-> _]; [|rewrite !Hl].
Qed.

Lemma Lookup_find client t k st st' :
  find st (stickyKey t k) = find st' (stickyKey t k) → Lookup client t k st = Lookup client t k st'.
Proof.
  intros E. unfold Lookup. destruct client as [f|]; [|done]. destruct (_ || _); [done|].
  destruct f; cbn [call fst]; [|done..]. unfold GET. rewrite E. by destruct (find st' _) as [[[] ?]|].
Qed.

Lemma Pin_find client t k account ttl st key :
  key ≠ stickyKey t k → find (Pin client t k account ttl st) key = find st key.
Proof.
  intros Hk. unfold Pin. destruct client as [f|]; [|done]. destruct (_ || _); [done|].
  destruct f; cbn [call snd SET]; [|done|]; by rewrite find_put, decide_False by congruence.
Qed.

(** Sessions are private to their tenant: whatever another tenant pins, under
    any session key it may choose, a tenant's lookups answer as before; while
    its own pin is found until it expires. *)
Theorem pins_are_private client client' tenant tenant' session session' account ttl st :
  tenant ≠ tenant' →
  Lookup client' tenant' session' (Pin client tenant session account ttl st) = Lookup client' tenant' session' st ∧
  (tenant ≠ ""%string → session ≠ ""%string → account ≠ ""%string → 
   ∀ d, d <= Z.max 1 (Z.quot (if ttl <=? 0 then defaultStickyTTL else ttl) millisecond) →
   Lookup (Some NoFault) tenant session (elapse d (Pin (Some NoFault) tenant session account ttl st)) = account).
Proof.
  intros Hne. split.
  - apply Lookup_find, Pin_find. by intros ?%stickyKey_tenant.
  - intros Ht Hs Ha d Hd. unfold Lookup, Pin. rewrite !(proj2 (String.eqb_neq _ _)) by done. cbn [orb call].
    unfold GET. destruct (find (elapse d _) _) as [e|] eqn:E.
    + pose proof (find_elapse _ _ _ _ E) as E'. cbn [SET snd] in E'. rewrite find_put, decide_True in E' by done.
      destruct (live _ _); [|done]. by injection E' as <-.
    + exfalso. unfold find, elapse in E. cbn [SET snd put keyspace clock] in E. rewrite lookup_insert_eq in E.
      unfold live in E. cbn in E. rewrite (proj2 (Z.leb_le _ _)) in E by lia. done.
Qed.

Lemma pins_are_private_witness :
  Lookup (Some NoFault) "t2" "chat" (Pin (Some NoFault) "t1" "chat" "acct" 0 (Redis ∅ 5)) = ""%string.
Proof.
  rewrite (proj1 (pins_are_private (Some NoFault) (Some NoFault) "t1" "t2" "chat" "chat" "acct" 0 (Redis ∅ 5)
    ltac:(discriminate))).
  reflexivity.
Defined.
