(* ===== verification/Snapshot.v ===== *)
(** * Snapshots

    internal/snapshot/redis.go: control publishes the accounts of a bucket as a
    new version under an epoch it must own; a gateway loads the active version
    with four separate reads and keeps the last good one.

    encoding/json stays a [Codec]: the theorems ask of it only that the entries
    at hand survive the trip. *)

From S2P Require Import Prelude Sha256 Decimal Contracts Numeric Db Redis.

Open Scope Z_scope.

(** json.Marshal fails on some values (an invalid [Decimal]), json.Unmarshal on
    some texts. *)
Class Codec (A : Type) := {
  marshal : A → option string;
  unmarshal : string → option A
}.

Definition survives {A} `{Codec A} (a : A) : Prop := ∃ s, marshal a = Some s ∧ unmarshal s = Some a.

(** ** Keys *)

Definition GraceTTL : duration := 60 * second.
Definition DataTTL : duration := 120 * second.
Definition BucketRegistryKey : string := "snap:bucket_registry".
Definition bucketsKey : string := "snap:buckets".

Definition BucketID (platform group : string) : string :=
  str_take 16 (sha256_hex (platform +:+ chr 0 +:+ group)).

Definition activeKey (bucket : string) : string := "snap:active:" +:+ bucket.
Definition versionKey (bucket : string) : string := "snap:ver:" +:+ bucket.
Definition epochKey (bucket : string) : string := "snap:epoch:" +:+ bucket.
Definition retiredKey (bucket : string) : string := "snap:retired:" +:+ bucket.
Definition dataKey (bucket version : string) : string := "snap:data:" +:+ bucket +:+ ":" +:+ version.

Record Entry := MkEntry {
  en_Platform : string;
  en_Group : string;
  en_BucketID : string;
  en_Version : Z;
  en_Epoch : Z;
  en_Account : Account
}.

(** ** Publishing *)

Definition reply_text (v : rvalue) : string :=
  match v with RInt z => format_int z | RStr s => s | _ => "" end.

(** [current and tonumber(current) ~= expected or not current and expected ~= 0]. *)
Definition epoch_moved (current : option rvalue) (expected : Z) : bool :=
  match current with
  | Some (RInt e) => negb (e =? expected)
  | Some _ => true
  | None => negb (expected =? 0)
  end.

Fixpoint hset_all (key : string) (fields : list (string * string)) : R unit :=
  match fields with
  | [] => mret tt
  | (field, value) :: rest => _ ← HSET key field value; hset_all key rest
  end.

(** The replaced version, if any, stays readable for the grace period. *)
Definition retire_script (bucket : string) (graceUntil : Z) (old : option rvalue) : R unit :=
  match old with
  | None => mret tt
  | Some old =>
      _ ← ZADD (retiredKey bucket) graceUntil (reply_text old);
      _ ← EXPIRE (retiredKey bucket) (GraceTTL / second);
      _ ← EXPIRE (dataKey bucket (reply_text old)) (GraceTTL / second);
      mret tt
  end.

Definition publish_script (bucket ident : string) (expected next graceUntil : Z)
    (fields : list (string * string)) : R Z :=
  current ← GET (epochKey bucket);
  if epoch_moved current expected then raise (ScriptError "STALE_EPOCH")
  else
  old ← GET (activeKey bucket);
  version ← INCR (versionKey bucket);
  let data := dataKey bucket (format_int version) in
  _ ← DEL data;
  _ ← HSET data "__version" (format_int version);
  _ ← hset_all data fields;
  _ ← EXPIRE data (DataTTL / second);
  _ ← SET (activeKey bucket) (RInt version) None;
  _ ← SADD bucketsKey bucket;
  _ ← HSET BucketRegistryKey bucket ident;
  _ ← SET (epochKey bucket) (RInt next) None;
  _ ← retire_script bucket graceUntil old;
  mret version.

Inductive snapshot_error :=
| ErrStaleEpoch
| ErrNilClient
| ErrNegativeEpoch
| ErrForeignAccount (id : string)
| ErrMarshal
| ErrRedis (e : redis_error)
| ErrNoActive
| ErrInvalidVersion
| ErrInvalidEpoch
| ErrExpired
| ErrVersionMismatch
| ErrDecode (id : string)
| ErrEnvelope (id : string)
| ErrRegistry (bucket : string).

Section codec.
  Context `{Codec Entry, Codec (list string)}.

Definition entry_of (platform group : string) (epoch : Z) (account : Account) : Entry :=
  {| en_Platform := platform; en_Group := group; en_BucketID := BucketID platform group;
     en_Version := 0; en_Epoch := epoch; en_Account := account |}.

(** The field and value arguments of the script. *)
Fixpoint publish_fields (platform group : string) (epoch : Z) (accounts : list Account)
    : result snapshot_error (list (string * string)) :=
  match accounts with
  | [] => Ok []
  | account :: rest =>
      if negb (String.eqb (acc_Platform account) platform) || negb (String.eqb (acc_Group account) group)
      then Err (ErrForeignAccount (acc_ID account))
      else match marshal (entry_of platform group epoch account) with
           | None => Err ErrMarshal
           | Some value =>
               fields ← publish_fields platform group epoch rest;
               Ok ((acc_ID account, value) :: fields)
           end
  end.

(** [client] is [None] for a nil client, [graceUntil] is
    time.Now().Add(GraceTTL).UnixMilli(). *)
Definition Publish (client : option fault) (platform group : string) (expectedEpoch : Z)
    (accounts : list Account) (graceUntil : Z) (st : redis) : result snapshot_error Z * redis :=
  match client with
  | None => (Err ErrNilClient, st)
  | Some f =>
      if expectedEpoch <? 0 then (Err ErrNegativeEpoch, st)
      else
        let next := wrap64 (expectedEpoch + 1) in
        match marshal [platform; group] with
        | None => (Err ErrMarshal, st)
        | Some ident =>
            match publish_fields platform group next accounts with
            | Err e => (Err e, st)
            | Ok fields =>
                match call f (publish_script (BucketID platform group) ident expectedEpoch next
                                graceUntil fields) st with
                | (Ok version, st') => (Ok version, st')
                | (Err (ScriptError _), st') => (Err ErrStaleEpoch, st')
                | (Err e, st') => (Err (ErrRedis e), st')
                end
            end
        end
  end.

(** ** The registry of buckets *)

Definition registered (bucket raw : string) : result snapshot_error (string * string) :=
  match unmarshal raw with
  | Some [platform; group] =>
      if String.eqb platform "" || String.eqb group ""
         || negb (String.eqb (BucketID platform group) bucket)
      then Err (ErrRegistry bucket) else Ok (platform, group)
  | _ => Err (ErrRegistry bucket)
  end.

Fixpoint registered_all (values : list (string * string)) : result snapshot_error (list (string * string)) :=
  match values with
  | [] => Ok []
  | (bucket, raw) :: rest =>
      b ← registered bucket raw;
      bs ← registered_all rest;
      Ok (b :: bs)
  end.

(** sort.Slice by platform, then group. *)
Definition bucket_le (a b : string * string) : Prop :=
  (a.1 ≠ b.1 ∧ String.le a.1 b.1) ∨ (a.1 = b.1 ∧ String.le a.2 b.2).
#[export] Instance bucket_le_dec : RelDecision bucket_le.
Proof. intros a b. unfold bucket_le. apply _. Defined.

Definition RegisteredBuckets (client : option fault) (st : redis)
    : result snapshot_error (list (string * string)) :=
  match client with
  | None => Err ErrNilClient
  | Some f =>
      match (call f (HGETALL BucketRegistryKey) st).1 with
      | Err e => Err (ErrRedis e)
      | Ok values =>
          buckets ← registered_all (map_to_list values);
          Ok (merge_sort bucket_le buckets)
      end
  end.

Definition remove_bucket_script (bucket : string) : R Z :=
  _ ← SREM bucketsKey bucket;
  _ ← HDEL BucketRegistryKey bucket;
  mret 1.

Definition RemoveRegisteredBucket (client : option fault) (platform group : string) (st : redis)
    : result snapshot_error unit * redis :=
  match client with
  | None => (Err ErrNilClient, st)
  | Some f =>
      match call f (remove_bucket_script (BucketID platform group)) st with
      | (Ok _, st') => (Ok tt, st')
      | (Err e, st') => (Err (ErrRedis e), st')
      end
  end.

(** ** Loading *)

Record Snapshot := MkSnapshot {
  sn_Platform : string;
  sn_Group : string;
  sn_BucketID : string;
  sn_Version : Z;
  sn_Epoch : Z;
  sn_ValidUntil : time;
  sn_Accounts : list Account
}.

(** strconv.ParseInt of a GET reply; a missing key is an error of the client. *)
Definition parse_reply (reply : result redis_error (option rvalue)) (missing bad : snapshot_error)
    : result snapshot_error Z :=
  match reply with
  | Err e => Err (ErrRedis e)
  | Ok None => Err missing
  | Ok (Some (RInt z)) => Ok z
  | Ok (Some v) => let '(z, ok) := parse_int (reply_text v) in if ok : bool then Ok z else Err bad
  end.

Definition load_entry (platform group : string) (version epoch : Z) (id raw : string)
    : result snapshot_error Account :=
  match unmarshal raw with
  | None => Err (ErrDecode id)
  | Some entry =>
      if negb (String.eqb (en_BucketID entry) (BucketID platform group))
         || (negb (en_Version entry =? 0) && negb (en_Version entry =? version))
         || negb (en_Epoch entry =? epoch) || negb (String.eqb (en_Platform entry) platform)
         || negb (String.eqb (en_Group entry) group)
         || negb (String.eqb (acc_ID (en_Account entry)) id)
      then Err (ErrEnvelope id) else Ok (en_Account entry)
  end.

Fixpoint load_entries (platform group : string) (version epoch : Z) (values : list (string * string))
    : result snapshot_error (list Account) :=
  match values with
  | [] => Ok []
  | (id, raw) :: rest =>
      a ← load_entry platform group version epoch id raw;
      accounts ← load_entries platform group version epoch rest;
      Ok (a :: accounts)
  end.

(** [Loader.Load]: the four replies come from four moments, [s1] to [s4], and
    other clients may write in between; [f1] to [f4] are the faults of the calls. *)
Definition Load (connected : bool) (platform group : string) (now : time) (f1 f2 f3 f4 : fault) (s1 s2 s3 s4 : redis)
    : result snapshot_error Snapshot :=
  if negb connected then Err ErrNilClient
  else
  let bucket := BucketID platform group in
  version ← parse_reply (call f1 (GET (activeKey bucket)) s1).1 ErrNoActive ErrInvalidVersion;
  if version <=? 0 then Err ErrInvalidVersion
  else
  epoch ← parse_reply (call f2 (GET (epochKey bucket)) s2).1 ErrInvalidEpoch ErrInvalidEpoch;
  let data := dataKey bucket (format_int version) in
  match (call f3 (HGETALL data) s3).1 with
  | Err e => Err (ErrRedis e)
  | Ok values =>
      match (call f4 (TTL data) s4).1 with
      | Err e => Err (ErrRedis e)
      | Ok ttl =>
          if ttl <=? 0 then Err ErrExpired
          else if negb (bool_decide (values !! "__version"%string = Some (format_int version)))
          then Err ErrVersionMismatch
          else
          accounts ← load_entries platform group version epoch
            (map_to_list (delete "__version"%string values));
          Ok {| sn_Platform := platform; sn_Group := group; sn_BucketID := bucket;
                sn_Version := version; sn_Epoch := epoch; sn_ValidUntil := now + ttl * second;
                sn_Accounts := accounts |}
      end
  end.

(** ** Store *)

Definition Store : Type := gmap string Snapshot.

Definition store_key (platform group : string) : string := platform +:+ chr 0 +:+ group.

Definition Refresh (platform group : string) (loaded : result snapshot_error Snapshot) (s : Store)
    : result snapshot_error unit * Store :=
  match loaded with
  | Err e => (Err e, s)
  | Ok next => (Ok tt, <[store_key platform group := next]> s)
  end.

Definition Current (platform group : string) (s : Store) : option Snapshot :=
  s !! store_key platform group.

Definition CurrentFreshAt (platform group : string) (now : time) (s : Store) : option Snapshot :=
  match Current platform group s with
  | Some current =>
      if is_zero_time (sn_ValidUntil current) || negb (after (sn_ValidUntil current) now)
      then None else Some current
  | None => None
  end.
End codec.
