(* ===== verification/SnapshotFacts.v ===== *)
(** * What a gateway can load

    Publications, bucket removals, expiries and foreign traffic happen in any
    order between the four reads of a load.  The invariants say that a version
    of a bucket is published once, as a whole, and never changes afterwards. *)

From S2P Require Import Prelude Sha256 Decimal Contracts Numeric Db Redis Snapshot.

Open Scope Z_scope.

(** ** Keys *)

Lemma BucketID_length platform group : String.length (BucketID platform group) = 16%nat.
Proof. unfold BucketID. apply str_take_length. rewrite sha256_hex_length. lia. Qed.

Lemma dataKey_inj b b' v v' :
  String.length b = String.length b' → dataKey b v = dataKey b' v' → b = b' ∧ v = v'.
Proof.
  intros Hl H%str_app_prefix. apply str_app_same_head in H as [-> H]; [|done]. by apply str_app_prefix in H.
Qed.

Lemma format_int_inj m n : 0 <= m → 0 <= n → format_int m = format_int n → m = n.
Proof.
  unfold format_int. intros Hm Hn. rewrite !(proj2 (Z.ltb_ge _ 0)) by lia. intros H.
  by rewrite <-(show_nonneg_val m Hm), H, show_nonneg_val.
Qed.

Lemma data_version b b' v v' :
  String.length b = String.length b' → 0 <= v → 0 <= v' →
  dataKey b (format_int v) = dataKey b' (format_int v') → b = b' ∧ v = v'.
Proof. intros Hl Hv Hv' [-> E]%dataKey_inj; [|done]. split; [done|]. by apply format_int_inj. Qed.

(** The keys of bucket [b]; the families of keys never meet. *)
Definition touched (b v : string) : list string :=
  [bucketsKey; BucketRegistryKey; activeKey b; versionKey b; epochKey b; retiredKey b; dataKey b v].

Ltac key_neq :=
  first [ discriminate | congruence
        | let E := fresh in intros E; first [discriminate E | apply str_app_prefix in E; congruence] ].

Ltac find_keys :=
  repeat first
    [ rewrite find_put; first [rewrite decide_True by done | rewrite decide_False by key_neq]
    | rewrite find_drop; first [rewrite decide_True by done | rewrite decide_False by key_neq] ];
  cbn [live re_expires re_value].

(** ** The fields of a publication *)

Definition add_field (m : gmap string string) (f : string * string) : gmap string string := <[f.1 := f.2]> m.
Definition fields_map (v : Z) (fields : list (string * string)) : gmap string string :=
  foldl add_field {["__version"%string := format_int v]} fields.

Lemma put_put k e e' st : put k e (put k e' st) = put k e st.
Proof. unfold put. cbn. by rewrite insert_insert_eq. Qed.

Lemma put_same st k e : find st k = Some e → put k e st = st.
Proof. intros [H _]%find_live. unfold put. destruct st. cbn in *. by rewrite insert_id. Qed.

Lemma hset_all_spec d fields st m ttl :
  find st d = Some (REntry (RHash m) ttl) →
  hset_all d fields st = (Ok tt, put d (REntry (RHash (foldl add_field m fields)) ttl) st).
Proof.
  revert st m. induction fields as [|[f x] fields IH]; intros st m Hf; cbn [hset_all foldl].
  - cbn. by rewrite put_same.
  - unfold mbind at 1, R_bind at 1, HSET. rewrite Hf.
    rewrite (IH _ (<[f := x]> m)).
    + by rewrite put_put.
    + rewrite find_put, decide_True by done. apply find_live in Hf as [_ Hl].
      unfold live in *. cbn in *. by rewrite Hl.
Qed.

(** ** One publication *)

(** The types of the keys of bucket [b], and a free slot for the next version. *)
Record typed (b : string) (st : redis) : Prop := {
  ty_buckets : find st bucketsKey = None ∨ ∃ s, find st bucketsKey = Some (REntry (RSet s) None);
  ty_registry : find st BucketRegistryKey = None ∨ ∃ m, find st BucketRegistryKey = Some (REntry (RHash m) None);
  ty_retired : find st (retiredKey b) = None ∨ ∃ m t, find st (retiredKey b) = Some (REntry (RZSet m) t);
  ty_active : find st (activeKey b) = None ∨ ∃ v, find st (activeKey b) = Some (REntry (RInt v) None);
  ty_version : find st (versionKey b) = None ∨ ∃ n, find st (versionKey b) = Some (REntry (RInt n) None);
  ty_epoch : find st (epochKey b) = None ∨ ∃ e, find st (epochKey b) = Some (REntry (RInt e) None);
  ty_free : find st (dataKey b (format_int (counter st (versionKey b) + 1))) = None
}.

(** What a publication leaves behind. *)
Record published (b : string) (next v : Z) (fields : list (string * string)) (st st' : redis) : Prop := {
  pu_clock : clock st' = clock st;
  pu_version : find st' (versionKey b) = Some (REntry (RInt v) None) ∧ v = counter st (versionKey b) + 1;
  pu_active : find st' (activeKey b) = Some (REntry (RInt v) None);
  pu_epoch : find st' (epochKey b) = Some (REntry (RInt next) None);
  pu_data : find st' (dataKey b (format_int v))
    = Some (REntry (RHash (fields_map v fields)) (Some (clock st + 120000)));
  pu_buckets : ∃ s, find st' bucketsKey = Some (REntry (RSet s) None);
  pu_registry : ∃ m, find st' BucketRegistryKey = Some (REntry (RHash m) None);
  pu_retired : find st' (retiredKey b) = None ∨ ∃ m t, find st' (retiredKey b) = Some (REntry (RZSet m) t);
  pu_old : ∀ k, k ∉ touched b (format_int v) →
    find st' k = find st k ∨ ∃ x t t' w, k = dataKey b w ∧
      find st k = Some (REntry x t) ∧ find st' k = Some (REntry x t')
}.

Lemma R_step {A B} (m : R A) (k : A → R B) st a st' : m st = (Ok a, st') → (m ≫= k) st = k a st'.
Proof. unfold mbind, R_bind. by intros ->. Qed.

Lemma R_stop {A B} (m : R A) (k : A → R B) st e st' : m st = (Err e, st') → (m ≫= k) st = (Err e, st').
Proof. unfold mbind, R_bind. by intros ->. Qed.

Lemma GET_counter k st :
  (find st k = None ∨ ∃ z, find st k = Some (REntry (RInt z) None)) →
  GET k st = (Ok (match find st k with Some e => Some (re_value e) | None => None end), st).
Proof. unfold GET. by intros [->|(z & ->)]. Qed.

Lemma INCR_counter k st :
  (find st k = None ∨ ∃ z, find st k = Some (REntry (RInt z) None)) →
  INCR k st = (Ok (counter st k + 1), put k (REntry (RInt (counter st k + 1)) None) st) ∨
  INCR k st = (Err IncrOverflow, st).
Proof.
  unfold INCR, INCRBY, counter. intros [->|(z & ->)]; [by left|]. destruct (_ && _); [by left|by right].
Qed.

Lemma SADD_set k x st :
  (find st k = None ∨ ∃ s, find st k = Some (REntry (RSet s) None)) →
  ∃ s, SADD k x st = (Ok tt, put k (REntry (RSet s) None) st).
Proof. unfold SADD. intros [->|(s & ->)]; eauto. Qed.

Lemma HSET_hash k f x st :
  (find st k = None ∨ ∃ m, find st k = Some (REntry (RHash m) None)) →
  ∃ m, HSET k f x st = (Ok tt, put k (REntry (RHash m) None) st).
Proof. unfold HSET. intros [->|(m & ->)]; eauto. Qed.

Lemma ZADD_zset k n x st :
  (find st k = None ∨ ∃ m t, find st k = Some (REntry (RZSet m) t)) →
  ∃ m t, ZADD k n x st = (Ok tt, put k (REntry (RZSet m) t) st) ∧
    (∀ w, t = Some w → clock st <= w).
Proof.
  unfold ZADD. intros [->|(m & t & H)]; [eexists _, _; split; [done|done]|]. rewrite H. eexists _, _. split; [done|].
  intros w ->. apply find_live in H as [_ H]. unfold live in H. cbn in H. by apply Z.leb_le in H.
Qed.

Lemma EXPIRE_some k s e st :
  find st k = Some e → EXPIRE k s st = (Ok 1, put k (REntry (re_value e) (Some (clock st + 1000 * s))) st).
Proof. unfold EXPIRE, PEXPIRE. by intros ->. Qed.

Lemma retire_spec b gu old v st :
  (find st (retiredKey b) = None ∨ ∃ m t, find st (retiredKey b) = Some (REntry (RZSet m) t)) →
  (∀ o, old = Some o → ∃ w, o = RInt w ∧ dataKey b (format_int w) ≠ dataKey b v) →
  ∃ st', retire_script b gu old st = (Ok tt, st') ∧ clock st' = clock st ∧
    (find st' (retiredKey b) = None ∨ ∃ m t, find st' (retiredKey b) = Some (REntry (RZSet m) t)) ∧
    find st' (dataKey b v) = find st (dataKey b v) ∧
    (∀ k, k ≠ retiredKey b → find st' k = find st k ∨
       ∃ x t t' w, k = dataKey b w ∧ find st k = Some (REntry x t) ∧ find st' k = Some (REntry x t')).
Proof.
  intros Hty Hold. destruct old as [o|]; [|exists st; cbn; split_and!; auto].
  destruct (Hold o eq_refl) as (w & -> & Hne). unfold retire_script.
  destruct (ZADD_zset (retiredKey b) gu (reply_text (RInt w)) st Hty) as (m & t & Hz & Hlive).
  set (s1 := put (retiredKey b) (REntry (RZSet m) t) st) in *.
  assert (find s1 (retiredKey b) = Some (REntry (RZSet m) t)) as Hf1.
  { unfold s1. find_keys. destruct t as [w'|]; [|done]. unfold live. cbn. rewrite (proj2 (Z.leb_le _ _)); [done|by apply Hlive]. }
  set (s2 := put (retiredKey b) (REntry (RZSet m) (Some (clock st + 60000))) s1).
  assert (∀ k, k ≠ retiredKey b → find s2 k = find st k) as Hf2.
  { intros k Hk. unfold s2, s1. by find_keys. }
  assert (find s2 (retiredKey b) = Some (REntry (RZSet m) (Some (clock st + 60000)))) as Hr2.
  { unfold s2. find_keys. unfold live. cbn. by rewrite (proj2 (Z.leb_le _ _)) by lia. }
  rewrite (R_step _ _ _ _ _ Hz), (R_step _ _ _ _ _ (EXPIRE_some _ _ _ _ Hf1)). fold s2.
  change (put (retiredKey b) _ s1) with s2. cbn [reply_text].
  destruct (find s2 (dataKey b (format_int w))) as [[x t']|] eqn:Ed.
  - rewrite (R_step _ _ _ _ _ (EXPIRE_some _ _ _ _ Ed)). change (1000 * (GraceTTL / second)) with 60000. eexists. split; [reflexivity|]. cbn [re_value].
    split_and!; [done| | |].
    + right. exists m, (Some (clock st + 60000)). rewrite <-Hr2. rewrite find_put, decide_False by key_neq. done.
    + rewrite find_put, decide_False by done. apply Hf2. key_neq.
    + intros k Hk. rewrite find_put. case_decide as Hd; [|left; by apply Hf2]. subst k. right.
      rewrite Hf2 in Ed by done. exists x, t', (Some (clock s2 + 60000)), (format_int w). split_and!; [done..|].
      unfold live. cbn [re_expires re_value]. rewrite (proj2 (Z.leb_le _ _)); [done|]. cbn. lia.
  - unfold EXPIRE, PEXPIRE. unfold mbind, R_bind. rewrite Ed. eexists. split; [reflexivity|]. split_and!; [done| | |].
    + right. eauto.
    + apply Hf2. key_neq.
    + intros k Hk. left. by apply Hf2.
Qed.

(** The commands between the epoch check and the old version: what they leave. *)
Definition written (b : string) (next v : Z) (fields : list (string * string)) (s : gset string)
    (m : gmap string string) (st : redis) : redis :=
  put (epochKey b) (REntry (RInt next) None)
  (put BucketRegistryKey (REntry (RHash m) None)
  (put bucketsKey (REntry (RSet s) None)
  (put (activeKey b) (REntry (RInt v) None)
  (put (dataKey b (format_int v)) (REntry (RHash (fields_map v fields)) (Some (clock st + 120000)))
  (put (versionKey b) (REntry (RInt v) None) st))))).

Lemma written_body b ident next gu fields old st :
  typed b st →
  let v := counter st (versionKey b) + 1 in
  let data := dataKey b (format_int v) in
  INCR (versionKey b) st = (Ok v, put (versionKey b) (REntry (RInt v) None) st) →
  ∃ s m,
  (version ← INCR (versionKey b);
   let data := dataKey b (format_int version) in
   _ ← DEL data;
   _ ← HSET data "__version" (format_int version);
   _ ← hset_all data fields;
   _ ← EXPIRE data (DataTTL / second);
   _ ← SET (activeKey b) (RInt version) None;
   _ ← SADD bucketsKey b;
   _ ← HSET BucketRegistryKey b ident;
   _ ← SET (epochKey b) (RInt next) None;
   _ ← retire_script b gu old;
   mret version) st
  = (_ ← retire_script b gu old; mret v) (written b next v fields s m st).
Proof.
  intros [Hbk Hrg _ _ _ _ Hfree] v data Hincr. rewrite (R_step _ _ _ _ _ Hincr). cbn zeta. fold data.
  change (dataKey b (format_int (counter st (versionKey b) + 1))) with data in Hfree.
  set (s1 := put (versionKey b) _ st).
  assert (find s1 data = None) as Hf1 by (unfold s1, data; by find_keys).
  rewrite (R_step (DEL data) _ s1 0 s1) by (unfold DEL; by rewrite Hf1).
  set (h0 := {["__version"%string := format_int v]} : gmap string string).
  rewrite (R_step (HSET data "__version" (format_int v)) _ s1 tt (put data (REntry (RHash h0) None) s1))
    by (unfold HSET; by rewrite Hf1).
  assert (find (put data (REntry (RHash h0) None) s1) data = Some (REntry (RHash h0) None)) as Hf2
    by (unfold data; by find_keys).
  rewrite (R_step _ _ _ _ _ (hset_all_spec data fields _ _ _ Hf2)), put_put.
  assert (find (put data (REntry (RHash (foldl add_field h0 fields)) None) s1) data
    = Some (REntry (RHash (foldl add_field h0 fields)) None)) as Hf3 by (unfold data; by find_keys).
  rewrite (R_step _ _ _ _ _ (EXPIRE_some _ _ _ _ Hf3)), put_put.
  change (1000 * (DataTTL / second)) with 120000. cbn [re_value].
  change (foldl add_field h0 fields) with (fields_map v fields).
  change (clock (put data _ s1)) with (clock st).
  set (s2 := put data _ s1).
  rewrite (R_step (SET (activeKey b) (RInt v) None) _ s2 tt (put (activeKey b) (REntry (RInt v) None) s2)) by done.
  destruct (SADD_set bucketsKey b (put (activeKey b) (REntry (RInt v) None) s2)) as [s Hs].
  { unfold s2, s1, data. find_keys. exact Hbk. }
  rewrite (R_step _ _ _ _ _ Hs).
  destruct (HSET_hash BucketRegistryKey b ident (put bucketsKey (REntry (RSet s) None)
    (put (activeKey b) (REntry (RInt v) None) s2))) as [m Hm].
  { unfold s2, s1, data. find_keys. exact Hrg. }
  rewrite (R_step _ _ _ _ _ Hm). exists s, m. reflexivity.
Qed.

Lemma publish_script_spec b ident expected next gu fields st :
  typed b st → 0 <= counter st (versionKey b) →
  (∀ v, find st (activeKey b) = Some (REntry (RInt v) None) → 0 <= v <= counter st (versionKey b)) →
  let '(r, st') := publish_script b ident expected next gu fields st in
  match r with
  | Err _ => st' = st
  | Ok v => counter st (epochKey b) = expected ∧ published b next v fields st st'
  end.
Proof.
  intros Hty Hpos Hact. pose proof Hty as [Hbk Hrg Hrt Hac Hve Hep Hfree]. unfold publish_script.
  rewrite (R_step _ _ _ _ _ (GET_counter _ _ Hep)).
  destruct (epoch_moved _ expected) eqn:Em; [done|].
  assert (counter st (epochKey b) = expected) as Hexp.
  { unfold counter. destruct Hep as [E|(e & E)]; rewrite E in *; cbn in Em; breflect; lia. }
  rewrite (R_step _ _ _ _ _ (GET_counter _ _ Hac)).
  set (old := match find st (activeKey b) with Some e => Some (re_value e) | None => None end).
  destruct (INCR_counter (versionKey b) st Hve) as [Hincr|Hincr]; [|by rewrite (R_stop _ _ _ _ _ Hincr)].
  destruct (written_body b ident next gu fields old st Hty Hincr) as (s & m & Hw). cbn zeta in Hw. rewrite Hw. clear Hw.
  set (v := counter st (versionKey b) + 1) in *. set (st1 := written b next v fields s m st).
  destruct (retire_spec b gu old (format_int v) st1) as (st' & Hst' & Hclock & Hrt' & Hdata & Hrest).
  - unfold st1, written. find_keys. exact Hrt.
  - unfold old. destruct Hac as [E|(w & E)]; rewrite E; [done|]. intros o [= <-]. exists w. split; [done|].
    intros [_ H]%data_version; [|done|..]; specialize (Hact w E); unfold v in *; lia.
  - rewrite (R_step _ _ _ _ _ Hst'). split; [done|].
    assert (∀ k, k ≠ retiredKey b → (∀ w, k ≠ dataKey b w) → find st' k = find st1 k) as Hkeep.
    { intros k Hk Hd. destruct (Hrest k Hk) as [?|(x & t & t' & w & Hd' & _)]; [done|]. by destruct (Hd w). }
    split.
    + by rewrite Hclock.
    + split; [|done]. rewrite Hkeep; [|key_neq|intros w; key_neq]. unfold st1, written. by find_keys.
    + rewrite Hkeep; [|key_neq|intros w; key_neq]. unfold st1, written. by find_keys.
    + rewrite Hkeep; [|key_neq|intros w; key_neq]. unfold st1, written. by find_keys.
    + rewrite Hdata. unfold st1, written. find_keys.
      unfold live. cbn [re_expires]. rewrite (proj2 (Z.leb_le _ _)); [done|]. cbn. lia.
    + exists s. rewrite Hkeep; [|key_neq|intros w; key_neq]. unfold st1, written. by find_keys.
    + exists m. rewrite Hkeep; [|key_neq|intros w; key_neq]. unfold st1, written. by find_keys.
    + exact Hrt'.
    + intros k Hk. unfold touched in Hk. rewrite !not_elem_of_cons in Hk.
      destruct Hk as (? & ? & ? & ? & ? & ? & ? & _).
      assert (find st1 k = find st k) as E.
      { unfold st1, written. rewrite !find_put, !decide_False by done. done. }
      rewrite <-E. by apply Hrest.
Qed.

(** ** The system *)

Section system.
  Context `{Codec Entry, Codec (list string)}.

Record Publication := {
  pb_platform : string;
  pb_group : string;
  pb_version : Z;
  pb_epoch : Z;
  pb_accounts : list Account;
  pb_fields : list (string * string)
}.

Definition pb_bucket (p : Publication) : string := BucketID (pb_platform p) (pb_group p).

(** The store, and every publication that took effect (a ghost). *)
Record snap_sys := SnapSys { ss_redis : redis; ss_log : list Publication }.

Definition snap_key (k : string) : bool :=
  existsb (λ p, has_prefix p k)
    ["snap:bucket"; "snap:active:"; "snap:ver:"; "snap:epoch:"; "snap:retired:"; "snap:data:"].

(** The publication a call makes, had it reached the server. *)
Definition publication (platform group : string) (expected : Z) (accounts : list Account) (gu : Z) (st : redis)
    : option Publication :=
  match (Publish (Some NoFault) platform group expected accounts gu st).1,
        publish_fields platform group (wrap64 (expected + 1)) accounts with
  | Ok v, Ok fields =>
      Some {| pb_platform := platform; pb_group := group; pb_version := v;
              pb_epoch := wrap64 (expected + 1); pb_accounts := accounts; pb_fields := fields |}
  | _, _ => None
  end.

Definition publish_step (f : fault) (platform group : string) (expected : Z) (accounts : list Account)
    (gu : Z) (s : snap_sys) : snap_sys :=
  SnapSys (Publish (Some f) platform group expected accounts gu (ss_redis s)).2
    match f, publication platform group expected accounts gu (ss_redis s) with
    | Lost, _ | _, None => ss_log s
    | _, Some p => p :: ss_log s
    end.

Definition codec_keeps (platform group : string) (epoch : Z) (accounts : list Account) : Prop :=
  Forall (λ a, survives (entry_of platform group epoch a)) accounts.

Inductive snap_step : snap_sys → snap_sys → Prop :=
| snap_elapse s d : snap_step s (SnapSys (elapse d (ss_redis s)) (ss_log s))
| snap_publish s f platform group expected accounts gu :
    codec_keeps platform group (wrap64 (expected + 1)) accounts →
    snap_step s (publish_step f platform group expected accounts gu s)
| snap_remove s client platform group :
    snap_step s (SnapSys (RemoveRegisteredBucket client platform group (ss_redis s)).2 (ss_log s))
| snap_foreign s st :
    clock st = clock (ss_redis s) → (∀ k, snap_key k = true → find st k = find (ss_redis s) k) →
    snap_step s (SnapSys st (ss_log s)).

Inductive snap_leads (s : snap_sys) : snap_sys → Prop :=
| snap_leads_refl : snap_leads s s
| snap_leads_step s' s'' : snap_leads s s' → snap_step s' s'' → snap_leads s s''.

Definition snap_reachable (s : snap_sys) : Prop := ∃ now, snap_leads (SnapSys (Redis ∅ now) []) s.

(** ** The invariant *)

Record publication_ok (p : Publication) : Prop := {
  po_fields : publish_fields (pb_platform p) (pb_group p) (pb_epoch p) (pb_accounts p) = Ok (pb_fields p);
  po_codec : codec_keeps (pb_platform p) (pb_group p) (pb_epoch p) (pb_accounts p)
}.

Record bucket_ok (b : string) (log : list Publication) (st : redis) : Prop := {
  bo_retired : find st (retiredKey b) = None ∨ ∃ m t, find st (retiredKey b) = Some (REntry (RZSet m) t);
  bo_active : find st (activeKey b) = None ∨
    ∃ v, find st (activeKey b) = Some (REntry (RInt v) None) ∧ 1 <= v <= counter st (versionKey b);
  bo_version : find st (versionKey b) = None ∨
    ∃ n, find st (versionKey b) = Some (REntry (RInt n) None) ∧ 1 <= n;
  bo_epoch : find st (epochKey b) = None ∨ ∃ e, find st (epochKey b) = Some (REntry (RInt e) None);
  bo_data : ∀ v x t, 0 <= v → find st (dataKey b (format_int v)) = Some (REntry x t) →
    v <= counter st (versionKey b) ∧
    ∃ p, p ∈ log ∧ pb_bucket p = b ∧ pb_version p = v ∧ x = RHash (fields_map v (pb_fields p))
}.

Record snaps_ok (s : snap_sys) : Prop := {
  sk_buckets : find (ss_redis s) bucketsKey = None ∨
    ∃ m, find (ss_redis s) bucketsKey = Some (REntry (RSet m) None);
  sk_registry : find (ss_redis s) BucketRegistryKey = None ∨
    ∃ m, find (ss_redis s) BucketRegistryKey = Some (REntry (RHash m) None);
  sk_bucket : ∀ b, String.length b = 16%nat → bucket_ok b (ss_log s) (ss_redis s);
  sk_log : Forall publication_ok (ss_log s)
}.

Lemma version_nonneg b log st : bucket_ok b log st → 0 <= counter st (versionKey b).
Proof. intros Hb. unfold counter. destruct (bo_version _ _ _ Hb) as [->|(n & -> & ?)]; [done|]. cbn. lia. Qed.

Lemma snaps_typed s b : snaps_ok s → String.length b = 16%nat → typed b (ss_redis s).
Proof.
  intros [Hbk Hrg Hb _] Hl. specialize (Hb b Hl). pose proof (version_nonneg _ _ _ Hb) as Hv.
  destruct Hb as [Hrt Hac Hve Hep Hd]. split; [done..| | | |].
  - destruct Hac as [?|(v & ? & _)]; eauto.
  - destruct Hve as [?|(v & ? & _)]; eauto.
  - done.
  - destruct (find _ (dataKey b _)) as [[x t]|] eqn:E; [|done].
    apply Hd in E as [? _]; lia.
Qed.
(** ** Every step keeps it *)

Lemma bucket_ok_keep b log log' st st' :
  (∀ p, p ∈ log → p ∈ log') →
  (find st' (retiredKey b) = None ∨ ∃ m t, find st' (retiredKey b) = Some (REntry (RZSet m) t)) →
  find st' (activeKey b) = find st (activeKey b) → find st' (versionKey b) = find st (versionKey b) →
  find st' (epochKey b) = find st (epochKey b) →
  (∀ v x t, find st' (dataKey b v) = Some (REntry x t) → ∃ t', find st (dataKey b v) = Some (REntry x t')) →
  bucket_ok b log st → bucket_ok b log' st'.
Proof.
  intros Hlog Hr Ea Ev Ee Hd [_ Hac Hve Hep Hda].
  assert (counter st' (versionKey b) = counter st (versionKey b)) as Ec by (unfold counter; by rewrite Ev).
  split; rewrite ?Ea, ?Ev, ?Ee, ?Ec; try done.
  intros v x t Hv [t' Ht]%Hd. destruct (Hda v x t' Hv Ht) as [? (p & ? & ? & ? & ?)]. split; [done|].
  exists p. auto.
Qed.

Lemma snap_elapse_ok s d : snaps_ok s → snaps_ok (SnapSys (elapse d (ss_redis s)) (ss_log s)).
Proof.
  intros [Hbk Hrg Hb Hl]. set (st := ss_redis s) in *.
  assert (∀ k, find (elapse d st) k = None ∨ find (elapse d st) k = find st k) as Hf.
  { intros k. destruct (find (elapse d st) k) eqn:E; [right|by left]. apply find_elapse in E. congruence. }
  assert (∀ k x, find st k = Some (REntry x None) → find (elapse d st) k = Some (REntry x None)) as Hkeep.
  { intros k x [Hk _]%find_live. unfold find, elapse. cbn. by rewrite Hk. }
  assert (∀ k, find st k = None → find (elapse d st) k = None) as Hnone.
  { intros k Hk. by destruct (Hf k) as [?| ->]. }
  split; cbn [ss_redis ss_log]; [..|done].
  - destruct Hbk as [?|(m & ?)]; [left; by apply Hnone|right; eauto].
  - destruct Hrg as [?|(m & ?)]; [left; by apply Hnone|right; eauto].
  - intros b Hlen. specialize (Hb b Hlen). pose proof Hb as [Hrt Hac Hve Hep Hd].
    eapply bucket_ok_keep; [done|..|exact Hb].
    + destruct (Hf (retiredKey b)) as [?| ->]; auto.
    + destruct Hac as [E|(v & E & _)]; rewrite E; auto.
    + destruct Hve as [E|(v & E & _)]; rewrite E; auto.
    + destruct Hep as [E|(v & E)]; rewrite E; auto.
    + intros v x t E. apply find_elapse in E. eauto.
Qed.

Lemma snap_foreign_ok s st :
  (∀ k, snap_key k = true → find st k = find (ss_redis s) k) → snaps_ok s → snaps_ok (SnapSys st (ss_log s)).
Proof.
  intros Hf [Hbk Hrg Hb Hl]. split; cbn [ss_redis ss_log]; rewrite ?Hf by done; try done.
  intros b Hlen. specialize (Hb b Hlen). pose proof Hb as [Hrt _ _ _ _].
  eapply bucket_ok_keep; [done|rewrite ?Hf by done; done|by apply Hf..| |exact Hb].
  intros v x t. rewrite Hf by done. eauto.
Qed.

Lemma RemoveRegisteredBucket_spec client platform group st :
  (find st bucketsKey = None ∨ ∃ m, find st bucketsKey = Some (REntry (RSet m) None)) →
  (find st BucketRegistryKey = None ∨ ∃ m, find st BucketRegistryKey = Some (REntry (RHash m) None)) →
  let st' := (RemoveRegisteredBucket client platform group st).2 in
  clock st' = clock st ∧
  (find st' bucketsKey = None ∨ ∃ m, find st' bucketsKey = Some (REntry (RSet m) None)) ∧
  (find st' BucketRegistryKey = None ∨ ∃ m, find st' BucketRegistryKey = Some (REntry (RHash m) None)) ∧
  (∀ k, k ≠ bucketsKey → k ≠ BucketRegistryKey → find st' k = find st k).
Proof.
  intros Hbk Hrg. unfold RemoveRegisteredBucket. destruct client as [f|]; [|done]. cbn zeta.
  set (b := BucketID platform group).
  assert (∃ st1, SREM bucketsKey b st = (Ok tt, st1) ∧ clock st1 = clock st ∧
    (find st1 bucketsKey = None ∨ ∃ m, find st1 bucketsKey = Some (REntry (RSet m) None)) ∧
    (∀ k, k ≠ bucketsKey → find st1 k = find st k)) as (st1 & E1 & C1 & T1 & F1).
  { unfold SREM. destruct Hbk as [E|(m & E)]; rewrite E; [by eexists; split_and!; [..|by left|]|].
    case_bool_decide; eexists; (split_and!; [reflexivity|done|..]).
    - left. by find_keys.
    - intros k Hk. by find_keys.
    - right. eexists. by find_keys.
    - intros k Hk. by find_keys. }
  assert (∃ st2, HDEL BucketRegistryKey b st1 = (Ok tt, st2) ∧ clock st2 = clock st1 ∧
    (find st2 BucketRegistryKey = None ∨ ∃ m, find st2 BucketRegistryKey = Some (REntry (RHash m) None)) ∧
    (∀ k, k ≠ BucketRegistryKey → find st2 k = find st1 k)) as (st2 & E2 & C2 & T2 & F2).
  { unfold HDEL. rewrite F1 by done. destruct Hrg as [E|(m & E)]; rewrite E;
      [eexists; split_and!; [reflexivity|done| |done]; left; by rewrite F1|].
    case_bool_decide; eexists; (split_and!; [reflexivity|done|..]).
    - left. by find_keys.
    - intros k Hk. by find_keys.
    - right. eexists. by find_keys.
    - intros k Hk. by find_keys. }
  assert (remove_bucket_script b st = (Ok 1, st2)) as Es.
  { unfold remove_bucket_script. by rewrite (R_step _ _ _ _ _ E1), (R_step _ _ _ _ _ E2). }
  destruct f; cbn [call]; rewrite ?Es; cbn [snd]; [|done|].
  all: split_and!; [congruence|rewrite F2 by done; exact T1|exact T2|].
  all: intros k Hk Hk'; by rewrite F2, F1.
Qed.

Lemma snap_remove_ok s client platform group :
  snaps_ok s → snaps_ok (SnapSys (RemoveRegisteredBucket client platform group (ss_redis s)).2 (ss_log s)).
Proof.
  intros [Hbk Hrg Hb Hl].
  pose proof (RemoveRegisteredBucket_spec client platform group _ Hbk Hrg) as (_ & Hbk' & Hrg' & Hf).
  split; cbn [ss_redis ss_log]; try done. intros b Hlen. specialize (Hb b Hlen). pose proof Hb as [Hrt _ _ _ _].
  eapply bucket_ok_keep; [done|..|exact Hb]; rewrite ?Hf by key_neq; try done.
  intros v x t. rewrite Hf by key_neq. eauto.
Qed.

(** A publication that took effect, and its bucket. *)
Lemma Publish_cases f platform group expected accounts gu st :
  let '(r, st') := Publish (Some f) platform group expected accounts gu st in
  (st' = st ∧ (∀ v, r ≠ Ok v) ∧
     (f = Lost ∨ ∀ v, (Publish (Some NoFault) platform group expected accounts gu st).1 ≠ Ok v)) ∨
  ∃ ident fields r0, 0 <= expected ∧ f ≠ Lost ∧
    publish_fields platform group (wrap64 (expected + 1)) accounts = Ok fields ∧
    publish_script (BucketID platform group) ident expected (wrap64 (expected + 1)) gu fields st = (r0, st') ∧
    (∀ v, r = Ok v → r0 = Ok v ∧ f = NoFault) ∧
    (∀ v, r0 = Ok v → (Publish (Some NoFault) platform group expected accounts gu st).1 = Ok v) ∧
    (∀ e, r0 = Err e → ∀ v, (Publish (Some NoFault) platform group expected accounts gu st).1 ≠ Ok v).
Proof.
  unfold Publish. destruct (Z.ltb_spec expected 0); [by left; auto|].
  destruct (marshal [platform; group]) as [ident|]; [|by left; auto].
  destruct (publish_fields _ _ _ _) as [fields|e] eqn:Ef; [|by left; auto].
  destruct f; cbn [call].
  - destruct (publish_script _ _ _ _ _ _ st) as [[v|e] st'] eqn:E.
    + right. exists ident, fields, (Ok v). rewrite ?E. split_and!; try done; naive_solver.
    + destruct e; right; (eexists ident, fields, _; split_and!; [done..|exact E|done|done|done]).
  - left. auto.
  - destruct (publish_script _ _ _ _ _ _ st) as [r0 st'] eqn:E. right. exists ident, fields, r0.
    split_and!; try done.
    + by intros v ->.
    + intros e ->. by destruct e.
Qed.
(** The bucket that was published. *)
Lemma published_bucket b next v fields st st' p log :
  bucket_ok b log st → published b next v fields st st' → pb_bucket p = b → pb_version p = v → pb_fields p = fields →
  String.length b = 16%nat →
  bucket_ok b (p :: log) st'.
Proof.
  intros Hb Hp Eb Ev Ef Hlen. pose proof (version_nonneg _ _ _ Hb) as Hpos. destruct Hb as [Hrt Hac Hve Hep Hda].
  destruct Hp as [Hc [Hpv Hv] Hpa Hpe Hpd Hbk Hrg Hrt' Hold].
  assert (counter st' (versionKey b) = v) as Hcv by (unfold counter; by rewrite Hpv).
  split; rewrite ?Hcv.
  - exact Hrt'.
  - right. exists v. split; [done|]. lia.
  - right. exists v. split; [done|]. lia.
  - right. eauto.
  - intros w x t Hw Hf. destruct (decide (w = v)) as [->|Hne].
    + split; [lia|]. exists p. rewrite Hpd in Hf. split_and!; [apply list_elem_of_here|done..|congruence].
    + assert (∃ t', find st (dataKey b (format_int w)) = Some (REntry x t')) as [t' Hf'].
      { destruct (Hold (dataKey b (format_int w))) as [E|(y & ty & ty' & u & _ & E & E')].
        - unfold touched. rewrite !not_elem_of_cons. split_and!; try key_neq; [|apply not_elem_of_nil].
          intros [_ E]%data_version; [done|done|lia|lia].
        - rewrite E in Hf. eauto.
        - rewrite E' in Hf. injection Hf as <- _. eauto. }
      destruct (Hda w x t' Hw Hf') as [Hle (q & Hq & ?)]. split; [lia|]. exists q. split; [by apply list_elem_of_further|done].
Qed.

(** ... and the others. *)
Lemma published_other b b' next v fields st st' p log :
  String.length b = 16%nat → String.length b' = 16%nat → b ≠ b' →
  bucket_ok b' log st → published b next v fields st st' → bucket_ok b' (p :: log) st'.
Proof.
  intros Hl Hl' Hne Hb Hp. pose proof Hb as [Hrt _ _ _ _]. destruct Hp as [_ _ _ _ _ _ _ _ Hold].
  assert (∀ k, k ∉ touched b (format_int v) → (∀ w, k ≠ dataKey b w) → find st' k = find st k) as Hsame.
  { intros k Hk Hd. destruct (Hold k Hk) as [?|(x & t & t' & w & E & _)]; [done|]. by destruct (Hd w). }
  assert (∀ f : string → string, (∀ k, f k ∉ touched b (format_int v)) → True) as _ by done.
  eapply bucket_ok_keep; [intros q Hq; by apply list_elem_of_further|..|exact Hb].
  all: try (rewrite Hsame; [done|unfold touched; rewrite !not_elem_of_cons; split_and!; try key_neq; apply not_elem_of_nil|intros w; key_neq]).
  intros w x t Hf. destruct (Hold (dataKey b' w)) as [E|(y & t1 & t2 & u & E & _)].
  - unfold touched. rewrite !not_elem_of_cons. split_and!; try key_neq; [|apply not_elem_of_nil].
    intros [? _]%dataKey_inj; [congruence|lia].
  - rewrite E in Hf. eauto.
  - apply dataKey_inj in E as [? _]; [congruence|lia].
Qed.

Lemma publish_spec s b ident expected next gu fields :
  snaps_ok s → String.length b = 16%nat →
  let '(r, st') := publish_script b ident expected next gu fields (ss_redis s) in
  match r with
  | Err _ => st' = ss_redis s
  | Ok v => counter (ss_redis s) (epochKey b) = expected ∧ published b next v fields (ss_redis s) st'
  end.
Proof.
  intros Hs Hlen. pose proof (sk_bucket _ Hs b Hlen) as Hb. apply publish_script_spec.
  - by apply snaps_typed.
  - by eapply version_nonneg.
  - intros v E. destruct (bo_active _ _ _ Hb) as [E'|(w & E' & Hw)]; rewrite E' in E; [done|].
    injection E as ->. lia.
Qed.

Lemma snap_publish_ok s f platform group expected accounts gu :
  codec_keeps platform group (wrap64 (expected + 1)) accounts → snaps_ok s →
  snaps_ok (publish_step f platform group expected accounts gu s).
Proof.
  intros Hcodec Hs. unfold publish_step, publication.
  pose proof (Publish_cases f platform group expected accounts gu (ss_redis s)) as Hc.
  destruct (Publish (Some f) _ _ _ _ _ _) as [r st'].
  destruct Hc as [(-> & _ & Hno)|(ident & fields & r0 & He & Hf & Hfields & Hscript & _ & Hok & Herr)].
  - assert (match f, match (Publish (Some NoFault) platform group expected accounts gu (ss_redis s)).1,
        publish_fields platform group (wrap64 (expected + 1)) accounts with
      | Ok v, Ok fields => Some {| pb_platform := platform; pb_group := group; pb_version := v;
          pb_epoch := wrap64 (expected + 1); pb_accounts := accounts; pb_fields := fields |}
      | _, _ => None end with Lost, _ | _, None => ss_log s | _, Some p => p :: ss_log s end = ss_log s) as ->.
    { destruct Hno as [->|Hno]; [done|]. destruct (Publish (Some NoFault) _ _ _ _ _ _).1 as [v|].
      - by destruct (Hno v).
      - by destruct f. }
    by destruct s.
  - set (b := BucketID platform group) in *. pose proof (BucketID_length platform group) as Hlen. fold b in Hlen.
    pose proof (publish_spec s b ident expected (wrap64 (expected + 1)) gu fields Hs Hlen) as Hp.
    rewrite Hscript in Hp. rewrite Hfields. cbn [snd]. destruct r0 as [v|e].
    + rewrite (Hok v eq_refl). destruct Hp as [_ Hp].
      set (p := {| pb_platform := platform; pb_version := v |}).
      destruct Hs as [Hbk Hrg Hb Hl].
      assert (snaps_ok (SnapSys st' (p :: ss_log s))) as Hgoal.
      { split; cbn [ss_redis ss_log].
        - right. apply Hp.
        - right. apply Hp.
        - intros b' Hlen'. destruct (decide (b = b')) as [<-|Hne].
          + by eapply published_bucket; [apply Hb|exact Hp|..].
          + exact (published_other b b' _ v fields _ _ p _ Hlen Hlen' Hne (Hb b' Hlen') Hp).
        - apply list.Forall_cons. split; [by split|done]. }
      by destruct f.
    + subst st'. specialize (Herr e eq_refl). destruct (Publish (Some NoFault) _ _ _ _ _ _) as [[v|] ?].
      * by destruct (Herr v).
      * destruct f; destruct s; done.
Qed.

Lemma snap_step_ok s s' : snaps_ok s → snap_step s s' → snaps_ok s'.
Proof.
  intros Hs Hstep. destruct Hstep.
  - by apply snap_elapse_ok.
  - by apply snap_publish_ok.
  - by apply snap_remove_ok.
  - by apply snap_foreign_ok.
Qed.

Lemma snap_leads_ok s s' : snaps_ok s → snap_leads s s' → snaps_ok s'.
Proof. intros Hs. induction 1; [done|]. by eapply snap_step_ok. Qed.

Lemma snap_reachable_ok s : snap_reachable s → snaps_ok s.
Proof.
  intros [now Hl]. refine (snap_leads_ok _ _ _ Hl). split; cbn; [by left..| |by apply list.Forall_nil].
  intros b _. split; cbn; [by left..|]. done.
Qed.

(** ** Epochs only move on *)

Definition past (b : string) (e : Z) (st : redis) : Prop :=
  ∃ c, find st (epochKey b) = Some (REntry (RInt c) None) ∧ (e < c ∨ c < 0) ∧ c <= max_int64.

Lemma wrap64_succ c : 0 <= c <= max_int64 → c < wrap64 (c + 1) ∨ wrap64 (c + 1) < 0.
Proof.
  intros Hc. destruct (Z.eq_dec c max_int64) as [->|Hne]; [right; by vm_compute|left].
  rewrite wrap64_id; [lia|]. unfold in_int64, min_int64, max_int64 in *. lia.
Qed.

Lemma wrap64_max z : wrap64 z <= max_int64.
Proof. apply wrap64_range. Qed.

Lemma past_step b e s s' :
  0 <= e → String.length b = 16%nat → snaps_ok s → past b e (ss_redis s) → snap_step s s' → past b e (ss_redis s').
Proof.
  intros He Hlen Hs (c & Hf & Hc & Hmax) Hstep.
  destruct Hstep as [s d|s f platform group expected accounts gu Hcodec|s client platform group|s st Hclock Hsame]; cbn [ss_redis].
  - exists c. split_and!; [|done..]. apply find_live in Hf as [Hk _]. unfold find, elapse. cbn. by rewrite Hk.
  - unfold publish_step. cbn [ss_redis].
    pose proof (Publish_cases f platform group expected accounts gu (ss_redis s)) as H'.
    destruct (Publish (Some f) _ _ _ _ _ _) as [r st']. cbn [snd].
    destruct H' as [(-> & _)|(ident & fields & r0 & Hexp & _ & _ & Hscript & _)]; [by exists c|].
    pose proof (publish_spec s _ ident expected (wrap64 (expected + 1)) gu fields Hs (BucketID_length platform group)) as Hp.
    rewrite Hscript in Hp. destruct r0 as [v|e0]; [|subst; by exists c].
    destruct Hp as [Hcur Hp]. destruct (decide (b = BucketID platform group)) as [->|Hne].
    + exists (wrap64 (expected + 1)). split_and!; [apply Hp| |apply wrap64_max].
      unfold counter in Hcur. rewrite Hf in Hcur. cbn in Hcur. subst c.
      destruct (wrap64_succ expected); [lia|left; lia|by right].
    + exists c. split_and!; [|done..]. rewrite <-Hf.
      destruct (pu_old _ _ _ _ _ _ Hp (epochKey b)) as [?|(x & t & t' & w & E & _)]; [|done|discriminate E].
      unfold touched. rewrite !not_elem_of_cons. split_and!; try key_neq; apply not_elem_of_nil.
  - exists c. split_and!; [|done..]. rewrite <-Hf. destruct Hs as [Hbk Hrg _ _].
    apply (RemoveRegisteredBucket_spec client platform group _ Hbk Hrg); key_neq.
  - exists c. split_and!; [|done..]. rewrite <-Hf. by apply Hsame.
Qed.

Lemma past_leads b e s s' :
  0 <= e → String.length b = 16%nat → snaps_ok s → past b e (ss_redis s) → snap_leads s s' → past b e (ss_redis s').
Proof.
  intros He Hlen Hs Hp Hl. induction Hl as [|s' s'' Hl IH Hstep]; [done|].
  eapply past_step; [done..| |exact IH|exact Hstep]. by eapply snap_leads_ok.
Qed.

(** ** Loading *)

Lemma fields_map_lookup v fields id raw :
  fields_map v fields !! id = Some raw →
  (id, raw) ∈ fields ∨ (id = "__version"%string ∧ raw = format_int v).
Proof.
  unfold fields_map. induction fields as [|[f x] fields IH] using rev_ind.
  - cbn. intros [<- <-]%lookup_singleton_Some. by right.
  - rewrite foldl_app. cbn. unfold add_field at 1. cbn. intros [[<- <-]|[_ Hl]]%lookup_insert_Some.
    + left. rewrite elem_of_app, list_elem_of_singleton. by right.
    + destruct (IH Hl) as [?|?]; [left; rewrite elem_of_app; by left|by right].
Qed.

Lemma fields_map_dom v fields id : id ∈ fields.*1 → is_Some (fields_map v fields !! id).
Proof.
  unfold fields_map. induction fields as [|[f x] fields IH] using rev_ind; [by intros ?%elem_of_nil|].
  rewrite fmap_app, elem_of_app, foldl_app. cbn. unfold add_field at 1. cbn. rewrite lookup_insert_is_Some.
  intros [Hin|Hin%list_elem_of_singleton]; [|by left]. destruct (decide (f = id)); [by left|right]. split; [done|by apply IH].
Qed.

Lemma publish_fields_ids platform group epoch accounts fields :
  publish_fields platform group epoch accounts = Ok fields →
  Forall2 (λ a f, f.1 = acc_ID a ∧ marshal (entry_of platform group epoch a) = Some f.2) accounts fields.
Proof.
  revert fields. induction accounts as [|a accounts IH]; cbn; intros fields E; [injection E as <-; constructor|].
  destruct (negb _ || negb _); [done|]. destruct (marshal _) as [value|] eqn:Em; [|done].
  apply result_bind_Ok in E as (rest & Erest & [= <-]). constructor; [done|]. by apply IH.
Qed.

(** What a field of a good publication decodes to. *)
Lemma publication_field p id raw :
  publication_ok p → (id, raw) ∈ pb_fields p →
  ∃ a, a ∈ pb_accounts p ∧ acc_ID a = id ∧
    unmarshal raw = Some (entry_of (pb_platform p) (pb_group p) (pb_epoch p) a).
Proof.
  intros [Hf Hc] Hin. apply publish_fields_ids in Hf.
  apply list_elem_of_lookup in Hin as [i Hi]. destruct (Forall2_lookup_r _ _ _ _ _ Hf Hi) as (a & Ha & Hid & Hm).
  apply list_elem_of_lookup_2 in Ha. exists a. split_and!; [done|done|].
  destruct (proj1 (list.Forall_forall _ _) Hc a Ha) as (s & Hs & Hu). cbn in Hm. congruence.
Qed.

Lemma load_entries_spec platform group version epoch values accounts :
  load_entries platform group version epoch values = Ok accounts →
  Forall2 (λ kv a, load_entry platform group version epoch kv.1 kv.2 = Ok a) values accounts.
Proof.
  revert accounts. induction values as [|[id raw] values IH]; cbn; intros accounts E; [injection E as <-; constructor|].
  apply result_bind_Ok in E as (a & Ea & E). apply result_bind_Ok in E as (rest & Er & [= <-]).
  constructor; [done|]. by apply IH.
Qed.

Lemma load_entry_Ok platform group version epoch id raw a :
  load_entry platform group version epoch id raw = Ok a →
  ∃ entry, unmarshal raw = Some entry ∧ en_Account entry = a ∧ en_Epoch entry = epoch ∧
    en_Platform entry = platform ∧ en_Group entry = group ∧ acc_ID a = id.
Proof.
  unfold load_entry. destruct (unmarshal raw) as [entry|]; [|done].
  destruct (negb (String.eqb (en_BucketID entry) _) || _ || _ || _ || _ || _) eqn:E; [done|]. intros [= <-].
  exists entry. breflect. done.
Qed.

Lemma call_Ok {A} f (m : R A) st a : (call f m st).1 = Ok a → (m st).1 = Ok a.
Proof. by destruct f. Qed.

Lemma HGETALL_Ok k st m : (HGETALL k st).1 = Ok m → m = ∅ ∨ ∃ t, find st k = Some (REntry (RHash m) t).
Proof.
  unfold HGETALL. destruct (find st k) as [[[] t]|]; try done; [|intros [= <-]; by left].
  intros [= <-]. right. eauto.
Qed.

Lemma Load_inv connected platform group now f1 f2 f3 f4 s1 s2 s3 s4 sn :
  Load connected platform group now f1 f2 f3 f4 s1 s2 s3 s4 = Ok sn →
  0 < sn_Version sn ∧ now < sn_ValidUntil sn ∧
  ∃ values t, find s3 (dataKey (BucketID platform group) (format_int (sn_Version sn))) = Some (REntry (RHash values) t) ∧
    load_entries platform group (sn_Version sn) (sn_Epoch sn) (map_to_list (delete "__version"%string values))
      = Ok (sn_Accounts sn).
Proof.
  unfold Load. destruct connected; [|done]. cbn [negb]. cbn zeta. intros E. apply result_bind_Ok in E as (version & _ & E).
  destruct (Z.leb_spec version 0); [done|]. apply result_bind_Ok in E as (epoch & _ & E). cbn zeta in E.
  destruct (call f3 _ s3).1 as [values|] eqn:E3; [|done]. destruct (call f4 _ s4).1 as [ttl|] eqn:E4; [|done].
  destruct (Z.leb_spec ttl 0); [done|].
  destruct (negb (bool_decide (values !! _ = _))) eqn:Ev; [done|]. breflect.
  apply result_bind_Ok in E as (accounts & Ea & [= <-]). cbn. split_and!; [lia| |].
  - unfold second. lia.
  - exists values. apply call_Ok, HGETALL_Ok in E3 as [->|[t Ht]]; [|by exists t].
    by rewrite lookup_empty in Ev.
Qed.

Lemma Load_accounts p platform group version epoch accounts :
  publication_ok p →
  load_entries platform group version epoch
    (map_to_list (delete "__version"%string (fields_map version (pb_fields p)))) = Ok accounts →
  NoDup (acc_ID <$> accounts) ∧
  (∀ a, a ∈ accounts → a ∈ pb_accounts p ∧ epoch = pb_epoch p ∧ platform = pb_platform p ∧ group = pb_group p) ∧
  (∀ id, id ∈ acc_ID <$> pb_accounts p → id ≠ "__version"%string → id ∈ acc_ID <$> accounts).
Proof.
  intros Hp Hl%load_entries_spec. set (values := map_to_list _) in *.
  assert (acc_ID <$> accounts = values.*1) as Eids.
  { clear -Hl. induction Hl as [|[id raw] a values accounts He Hl IH]; [done|]. cbn. rewrite IH. f_equal.
    apply load_entry_Ok in He as (? & _ & _ & _ & _ & _ & ->). done. }
  split_and!.
  - rewrite Eids. apply NoDup_fst_map_to_list.
  - intros a Ha. apply list_elem_of_lookup in Ha as [i Hi]. destruct (Forall2_lookup_r _ _ _ _ _ Hl Hi) as ([id raw] & Hv & He).
    apply list_elem_of_lookup_2, elem_of_map_to_list, lookup_delete_Some in Hv as [Hne Hv].
    apply fields_map_lookup in Hv as [Hv|[-> _]]; [|done].
    apply (publication_field p) in Hv as (b & Hb & _ & Hu); [|done].
    apply load_entry_Ok in He as (entry & Hu' & <- & <- & <- & <- & _). cbn in Hu'. rewrite Hu in Hu'. by injection Hu' as <-.
  - intros id Hid Hne. rewrite Eids.
    destruct Hp as [Hf _]. apply publish_fields_ids in Hf.
    assert (id ∈ (pb_fields p).*1) as Hin.
    { revert Hid. clear -Hf. induction Hf as [|a f accounts fields [Hf _] Hl IH]; [done|].
      cbn. rewrite !elem_of_cons. intros [->|Hid]; [by left|right; by apply IH]. }
    destruct (fields_map_dom version (pb_fields p) id Hin) as [raw Hraw].
    apply list_elem_of_fmap. exists (id, raw). split; [done|]. apply elem_of_map_to_list.
    by rewrite lookup_delete_ne by congruence.
Qed.

Lemma load_entries_total platform group version epoch values :
  (∀ id raw, (id, raw) ∈ values → ∃ a, load_entry platform group version epoch id raw = Ok a) →
  ∃ accounts, load_entries platform group version epoch values = Ok accounts.
Proof.
  induction values as [|[id raw] values IH]; intros Hall; cbn; [by eexists|].
  destruct (Hall id raw (list_elem_of_here _ _)) as [a ->].
  destruct IH as [accounts ->]; [intros; apply Hall; by apply list_elem_of_further|]. cbn. eauto.
Qed.

(** Every field of a good publication passes the checks of its own load. *)
Lemma load_own_entry p version id raw :
  publication_ok p → (id, raw) ∈ pb_fields p →
  ∃ a, load_entry (pb_platform p) (pb_group p) version (pb_epoch p) id raw = Ok a.
Proof.
  intros Hp Hin. destruct (publication_field p id raw Hp Hin) as (a & _ & <- & Hu). exists a.
  unfold load_entry. rewrite Hu. cbn. by rewrite !String.eqb_refl, Z.eqb_refl.
Qed.

Lemma same_accounts p accounts :
  NoDup (acc_ID <$> pb_accounts p) → "__version"%string ∉ acc_ID <$> pb_accounts p →
  NoDup (acc_ID <$> accounts) → (∀ a, a ∈ accounts → a ∈ pb_accounts p) →
  (∀ id, id ∈ acc_ID <$> pb_accounts p → id ≠ "__version"%string → id ∈ acc_ID <$> accounts) →
  accounts ≡ₚ pb_accounts p.
Proof.
  intros Hnd Hver Hnd' Hin Hids. apply NoDup_Permutation; [by eapply NoDup_fmap_1..|]. intros a. split; [apply Hin|].
  intros Ha. assert (acc_ID a ∈ acc_ID <$> accounts) as Hid.
  { apply Hids; [by apply list_elem_of_fmap_2|]. intros E. apply Hver. rewrite <-E. by apply list_elem_of_fmap_2. }
  apply list_elem_of_fmap in Hid as (b & Hb & Hbin). specialize (Hin b Hbin) as Hbp.
  apply list_elem_of_lookup in Ha as [i Hi]. apply list_elem_of_lookup in Hbp as [j Hj].
  assert (i = j) as ->.
  { eapply NoDup_lookup; [exact Hnd|rewrite list_lookup_fmap, Hi; done|]. rewrite list_lookup_fmap, Hj. cbn. by rewrite Hb. }
  congruence.
Qed.
End system.

(** ** The properties *)

Section claims.
  Context `{Codec Entry, Codec (list string)}.

(** C21 Only one publisher wins an epoch: once a publication of a bucket under an
    expected epoch succeeded, every later one under the same epoch -- after any
    other publications, removals, expiries and foreign traffic -- is refused and
    changes nothing. *)
Theorem publish_wins_epoch_once s platform group expected accounts gu v s' f accounts' gu' :
  snap_reachable s → codec_keeps platform group (wrap64 (expected + 1)) accounts → expected <= max_int64 →
  (Publish (Some NoFault) platform group expected accounts gu (ss_redis s)).1 = Ok v →
  snap_leads (publish_step NoFault platform group expected accounts gu s) s' →
  let '(r, st') := Publish (Some f) platform group expected accounts' gu' (ss_redis s') in
  st' = ss_redis s' ∧ ∀ v, r ≠ Ok v.
Proof.
  intros Hr Hcodec Hmax Hok Hl. pose proof (snap_reachable_ok _ Hr) as Hs.
  set (b := BucketID platform group). pose proof (BucketID_length platform group) as Hlen. fold b in Hlen.
  assert (past b expected (ss_redis (publish_step NoFault platform group expected accounts gu s)) ∧ 0 <= expected) as [Hp He].
  { unfold publish_step. cbn [ss_redis].
    pose proof (Publish_cases NoFault platform group expected accounts gu (ss_redis s)) as Hc.
    destruct (Publish (Some NoFault) _ _ _ _ _ _) as [r st']. cbn [fst snd] in *. subst r.
    destruct Hc as [(_ & Hno & _)|(ident & fields & r0 & Hexp & _ & _ & Hscript & Hr0 & _)]; [by destruct (Hno v)|].
    destruct (Hr0 v eq_refl) as [-> _].
    pose proof (publish_spec s b ident expected (wrap64 (expected + 1)) gu fields Hs Hlen) as Hp.
    fold b in Hscript. rewrite Hscript in Hp. destruct Hp as [_ Hp]. split; [|done].
    exists (wrap64 (expected + 1)). split_and!; [apply Hp| |apply wrap64_max].
    destruct (wrap64_succ expected); auto. }
  pose proof (snap_step_ok _ _ Hs (snap_publish s NoFault platform group expected accounts gu Hcodec)) as Hs1.
  pose proof (past_leads _ _ _ _ He Hlen Hs1 Hp Hl) as (c & Hf & Hc & _).
  pose proof (snap_leads_ok _ _ Hs1 Hl) as Hs2.
  pose proof (Publish_cases f platform group expected accounts' gu' (ss_redis s')) as Hc'.
  destruct (Publish (Some f) _ _ _ _ _ _) as [r st'].
  destruct Hc' as [(-> & Hno & _)|(ident & fields & r0 & _ & _ & _ & Hscript & Hr0 & _)]; [done|].
  pose proof (publish_spec s' b ident expected (wrap64 (expected + 1)) gu' fields Hs2 Hlen) as Hp'.
  fold b in Hscript. rewrite Hscript in Hp'. destruct r0 as [w|e].
  - exfalso. destruct Hp' as [Hcur _]. unfold counter in Hcur. rewrite Hf in Hcur. cbn in Hcur. lia.
  - split; [done|]. intros w E. by destruct (Hr0 w E).
Qed.

(** C20 A gateway never loads a torn or partial bucket: the four reads of a load
    may be interleaved with publications, removals, expiries and foreign traffic,
    yet a load that succeeds returns the accounts of one publication of the
    bucket -- all of them and no others, under its epoch whenever there is an
    account at all -- and is valid for some time. *)
Theorem load_returns_one_publication connected platform group now f1 f2 f3 f4 s1 s2 s3 s4 sn :
  snap_reachable s1 → snap_leads s1 s2 → snap_leads s2 s3 → snap_leads s3 s4 →
  Load connected platform group now f1 f2 f3 f4 (ss_redis s1) (ss_redis s2) (ss_redis s3) (ss_redis s4) = Ok sn →
  now < sn_ValidUntil sn ∧
  ∃ p, p ∈ ss_log s3 ∧ pb_bucket p = BucketID platform group ∧ pb_version p = sn_Version sn ∧
    NoDup (acc_ID <$> sn_Accounts sn) ∧
    (∀ a, a ∈ sn_Accounts sn → a ∈ pb_accounts p ∧ sn_Epoch sn = pb_epoch p ∧
       platform = pb_platform p ∧ group = pb_group p) ∧
    (∀ id, id ∈ acc_ID <$> pb_accounts p → id ≠ "__version"%string → id ∈ acc_ID <$> sn_Accounts sn).
Proof.
  intros Hr H12 H23 _ Hload. apply snap_reachable_ok in Hr.
  pose proof (snap_leads_ok _ _ (snap_leads_ok _ _ Hr H12) H23) as Hs3.
  apply Load_inv in Hload as (Hv & Hvalid & values & t & Hf & Hl). split; [done|].
  pose proof (sk_bucket _ Hs3 _ (BucketID_length platform group)) as Hb.
  destruct (bo_data _ _ _ Hb (sn_Version sn) _ _ ltac:(lia) Hf) as (_ & p & Hin & Hbp & Hvp & [= ->]).
  exists p. do 3 (split; [done|]).
  eapply Load_accounts; [|exact Hl]. by apply (proj1 (list.Forall_forall _ _) (sk_log _ Hs3)).
Qed.

(** What is published is what is loaded: right after a publication of
    accounts with distinct ids, a load returns exactly those accounts, under the
    next epoch, valid for two minutes. *)
Theorem publish_load_roundtrip s platform group expected accounts gu v now :
  snap_reachable s → codec_keeps platform group (wrap64 (expected + 1)) accounts →
  NoDup (acc_ID <$> accounts) → "__version"%string ∉ acc_ID <$> accounts →
  (Publish (Some NoFault) platform group expected accounts gu (ss_redis s)).1 = Ok v →
  let st := (Publish (Some NoFault) platform group expected accounts gu (ss_redis s)).2 in
  ∃ sn, Load true platform group now NoFault NoFault NoFault NoFault st st st st = Ok sn ∧
    sn_Version sn = v ∧ sn_Epoch sn = wrap64 (expected + 1) ∧ sn_ValidUntil sn = now + DataTTL ∧
    sn_Accounts sn ≡ₚ accounts.
Proof.
  intros Hr Hcodec Hnd Hver Hok. apply snap_reachable_ok in Hr as Hs. set (b := BucketID platform group).
  pose proof (BucketID_length platform group) as Hlen. fold b in Hlen.
  pose proof (Publish_cases NoFault platform group expected accounts gu (ss_redis s)) as Hc.
  destruct (Publish (Some NoFault) _ _ _ _ _ _) as [r st]. cbn [fst snd] in *. subst r.
  destruct Hc as [(_ & Hno & _)|(ident & fields & r0 & Hexp & _ & Hfields & Hscript & Hr0 & _)]; [by destruct (Hno v)|].
  destruct (Hr0 v eq_refl) as [-> _].
  pose proof (publish_spec s b ident expected (wrap64 (expected + 1)) gu fields Hs Hlen) as Hp.
  fold b in Hscript. rewrite Hscript in Hp. destruct Hp as [_ [Hclock [_ Hv] Hac Hep Hda _ _ _ _]].
  pose proof (version_nonneg _ _ _ (sk_bucket _ Hs b Hlen)) as Hpos.
  set (p := {| pb_platform := platform; pb_group := group; pb_version := v; pb_epoch := wrap64 (expected + 1);
               pb_accounts := accounts; pb_fields := fields |}).
  assert (publication_ok p) as Hpok by done.
  destruct (load_entries_total platform group v (wrap64 (expected + 1))
    (map_to_list (delete "__version"%string (fields_map v fields)))) as [loaded Hloaded].
  { intros id raw [Hne Hf]%elem_of_map_to_list%lookup_delete_Some.
    apply fields_map_lookup in Hf as [Hf|[-> _]]; [|done]. by apply (load_own_entry p v id raw). }
  destruct (Load_accounts p platform group v _ _ Hpok Hloaded) as (Hnd' & Hin & Hids).
  eexists. split.
  - assert ((call NoFault (GET (activeKey b)) st).1 = Ok (Some (RInt v))) as E1 by (unfold call, GET; by rewrite Hac).
    assert ((call NoFault (GET (epochKey b)) st).1 = Ok (Some (RInt (wrap64 (expected + 1))))) as E2
      by (unfold call, GET; by rewrite Hep).
    assert ((call NoFault (HGETALL (dataKey b (format_int v))) st).1 = Ok (fields_map v fields)) as E3
      by (unfold call, HGETALL; by rewrite Hda).
    assert ((call NoFault (TTL (dataKey b (format_int v))) st).1 = Ok 120) as E4.
    { unfold call, TTL. rewrite Hda, Hclock.
      by replace (clock (ss_redis s) + 120000 - clock (ss_redis s)) with 120000 by lia. }
    unfold Load. cbn [negb]. cbn zeta. fold b. rewrite E1. cbn [parse_reply mbind result_bind].
    rewrite (proj2 (Z.leb_gt v 0)) by lia. rewrite E2. cbn [parse_reply mbind result_bind]. rewrite E3, E4.
    cbn [Z.leb Z.compare]. assert (fields_map v fields !! "__version"%string = Some (format_int v)) as Hvf.
    { destruct (fields_map v fields !! "__version"%string) as [raw|] eqn:E.
      - apply fields_map_lookup in E as [E|[_ ->]]; [|done]. exfalso. apply Hver.
        destruct (publication_field p _ _ Hpok E) as (a & Ha & <- & _). by apply list_elem_of_fmap_2.
      - exfalso. revert E. unfold fields_map. clear. induction fields as [|[f x] fields IH] using rev_ind.
        + cbn. by rewrite lookup_singleton_eq.
        + rewrite foldl_app. cbn. unfold add_field at 1. cbn. intros [E _]%lookup_insert_None. by apply IH. }
    rewrite Hvf, bool_decide_eq_true_2 by done. cbn [negb]. rewrite Hloaded. reflexivity.
  - cbn. split_and!; [done..|]. apply (same_accounts p loaded); [done..| |done]. intros a Ha. by apply Hin.
Qed.
End claims.

(** ** A concrete bucket *)

Definition one_account : Account :=
  MkAccount "a1" "openai" "openai" "default" zeroCredential zeroProfile (MkLimits 0 0 0 "") "active" 0 [] [] [] "".

#[local] Instance demo_entry_codec : Codec Entry := {|
  marshal e := Some (if en_Epoch e =? 1 then "one"%string else "two"%string);
  unmarshal s := Some (entry_of "openai" "default" (if String.eqb s "one" then 1 else 2) one_account)
|}.

#[local] Instance demo_ident_codec : Codec (list string) := {|
  marshal _ := Some "ident"%string;
  unmarshal _ := Some ["openai"; "default"]%string
|}.

Definition no_snapshots : snap_sys := SnapSys (Redis ∅ 1000) [].

Lemma no_snapshots_reachable : snap_reachable no_snapshots.
Proof. exists 1000. constructor. Qed.

Lemma one_account_kept e : e = 1 ∨ e = 2 → codec_keeps "openai" "default" e [one_account].
Proof. intros He. apply list.Forall_singleton. destruct He as [->| ->]; eexists; split; reflexivity. Qed.

Definition one_published : snap_sys := publish_step NoFault "openai" "default" 0 [one_account] 61000 no_snapshots.
Definition two_published : snap_sys := publish_step NoFault "openai" "default" 1 [one_account] 61000 one_published.

Lemma one_published_step : snap_step no_snapshots one_published.
Proof. apply snap_publish, one_account_kept. by left. Qed.

Lemma two_published_step : snap_step one_published two_published.
Proof. apply snap_publish, one_account_kept. by right. Qed.

Lemma publish_wins_epoch_once_witness :
  let '(r, st') := Publish (Some NoFault) "openai" "default" 0 [] 61000 (ss_redis two_published) in
  st' = ss_redis two_published ∧ ∀ v, r ≠ Ok v.
Proof.
  apply (publish_wins_epoch_once no_snapshots "openai" "default" 0 [one_account] 61000 1 two_published NoFault [] 61000).
  - apply no_snapshots_reachable.
  - apply one_account_kept. by left.
  - done.
  - vm_compute. reflexivity.
  - eapply snap_leads_step; [constructor|apply two_published_step].
Defined.

(** The active version is read before the second publication, the rest after:
    the epochs differ and the load is refused; read in one go, it succeeds. *)
Example torn_load_refused :
  Load true "openai" "default" 5 NoFault NoFault NoFault NoFault
    (ss_redis one_published) (ss_redis two_published) (ss_redis two_published) (ss_redis two_published)
  = Err (ErrEnvelope "a1").
Proof. vm_compute. reflexivity. Qed.

Definition one_snapshot : Snapshot :=
  MkSnapshot "openai" "default" (BucketID "openai" "default") 1 1 (5 + 120 * second) [one_account].

Lemma load_returns_one_publication_witness :
  5 < sn_ValidUntil one_snapshot ∧
  ∃ p, p ∈ ss_log one_published ∧ pb_bucket p = BucketID "openai" "default" ∧ pb_version p = sn_Version one_snapshot ∧
    NoDup (acc_ID <$> sn_Accounts one_snapshot) ∧
    (∀ a, a ∈ sn_Accounts one_snapshot → a ∈ pb_accounts p ∧ sn_Epoch one_snapshot = pb_epoch p ∧
       "openai"%string = pb_platform p ∧ "default"%string = pb_group p) ∧
    (∀ id, id ∈ acc_ID <$> pb_accounts p → id ≠ "__version"%string → id ∈ acc_ID <$> sn_Accounts one_snapshot).
Proof.
  apply (load_returns_one_publication true "openai" "default" 5 NoFault NoFault NoFault NoFault
    one_published one_published one_published one_published one_snapshot).
  - exists 1000. eapply snap_leads_step; [constructor|apply one_published_step].
  - constructor.
  - constructor.
  - constructor.
  - vm_compute. reflexivity.
Defined.

Lemma publish_load_roundtrip_witness :
  let st := (Publish (Some NoFault) "openai" "default" 0 [one_account] 61000 (ss_redis no_snapshots)).2 in
  ∃ sn, Load true "openai" "default" 5 NoFault NoFault NoFault NoFault st st st st = Ok sn ∧
    sn_Version sn = 1 ∧ sn_Epoch sn = 1 ∧ sn_ValidUntil sn = 5 + DataTTL ∧ sn_Accounts sn ≡ₚ [one_account].
Proof.
  apply (publish_load_roundtrip no_snapshots "openai" "default" 0 [one_account] 61000 1 5).
  - apply no_snapshots_reachable.
  - apply one_account_kept. by left.
  - apply NoDup_singleton.
  - cbn. intros [E|E]%elem_of_cons; [discriminate E|by apply elem_of_nil in E].
  - vm_compute. reflexivity.
Defined.
