(* ===== verification/Auth.v ===== *)
(** * Tenant tokens

    internal/snapshot/auth.go (control publishes the hashes of the active
    tokens) and internal/gateway/auth.go (a gateway keeps the last set it could
    load and authenticates against it).  A request is its two header values. *)

From S2P Require Import Prelude Sha256 Decimal Contracts Numeric Db Redis Limiter Snapshot SnapshotFacts.

Open Scope Z_scope.

(** ** internal/snapshot/auth.go *)

Definition TokenKey : string := "snap:auth:tokens:v1".

Record TokenRecord := MkToken {
  tk_TokenID : string;
  tk_TenantID : string;
  tk_PrincipalID : string;
  tk_Group : string;
  tk_ExpiresAt : time;
  tk_MaxConcurrency : Z;
  tk_RPM : Z;
  tk_BillingBlocked : bool
}.

Inductive token_error :=
| ErrTokenNilClient
| ErrNonce
| ErrMissingField
| ErrNegativeLimits
| ErrNotDigest (hash : string)
| ErrTokenMarshal
| ErrTokenRedis (e : redis_error)
| ErrTokenDecode (hash : string).

Definition TokenRecord_Validate (r : TokenRecord) : result token_error unit :=
  if existsb blank [tk_TokenID r; tk_TenantID r; tk_PrincipalID r; tk_Group r] then Err ErrMissingField
  else if (tk_MaxConcurrency r <? 0) || (tk_RPM r <? 0) then Err ErrNegativeLimits
  else Ok tt.

Definition HashToken (raw : string) : string := sha256_hex raw.

Section codec.
  Context `{Codec TokenRecord}.

Definition token_field (hash : string) (record : TokenRecord) : result token_error string :=
  _ ← TokenRecord_Validate record;
  if negb (str_len hash =? 64) then Err (ErrNotDigest hash)
  else match marshal record with Some raw => Ok raw | None => Err ErrTokenMarshal end.

Fixpoint token_fields (records : list (string * TokenRecord)) : result token_error (list (string * string)) :=
  match records with
  | [] => Ok []
  | (hash, record) :: rest =>
      raw ← token_field hash record;
      fields ← token_fields rest;
      Ok ((hash, raw) :: fields)
  end.

(** The transaction: HSET of the staging hash, then RENAME over the live one. *)
Definition publish_tokens_tx (staging : string) (fields : list (string * string)) : R unit :=
  _ ← hset_all staging fields;
  RENAME staging TokenKey.

(** [nonce] is what rand.Read delivered, as hex; [f] and [f'] are the faults of
    the transaction and of the clean-up. *)
Definition PublishTokens (client : option (fault * fault)) (nonce : option string) (publishedAt : string)
    (records : gmap string TokenRecord) (st : redis) : result token_error unit * redis :=
  match client with
  | None => (Err ErrTokenNilClient, st)
  | Some (f, f') =>
      match nonce with
      | None => (Err ErrNonce, st)
      | Some nonce =>
          let staging := TokenKey +:+ ":staging:" +:+ nonce in
          match token_fields (map_to_list records) with
          | Err e => (Err e, st)
          | Ok fields =>
              match call f (publish_tokens_tx staging (("__published_at"%string, publishedAt) :: fields)) st with
              | (Ok _, st') => (Ok tt, st')
              | (Err e, st') => (Err (ErrTokenRedis e), (call f' (DEL staging) st').2)
              end
          end
      end
  end.

Definition load_token (hash raw : string) : result token_error TokenRecord :=
  match unmarshal raw with
  | None => Err (ErrTokenDecode hash)
  | Some record => _ ← TokenRecord_Validate record; Ok record
  end.

Fixpoint load_tokens (values : list (string * string)) (records : gmap string TokenRecord)
    : result token_error (gmap string TokenRecord) :=
  match values with
  | [] => Ok records
  | (hash, raw) :: rest =>
      if has_prefix "__" hash then load_tokens rest records
      else
        record ← load_token hash raw;
        load_tokens rest (<[hash := record]> records)
  end.

Definition LoadTokens (client : option fault) (st : redis) : result token_error (gmap string TokenRecord) :=
  match client with
  | None => Err ErrTokenNilClient
  | Some f =>
      match (call f (HGETALL TokenKey) st).1 with
      | Err e => Err (ErrTokenRedis e)
      | Ok values => load_tokens (map_to_list values) ∅
      end
  end.
End codec.

(** ** internal/gateway/auth.go *)

Record AuthContext := MkAuth {
  au_TenantID : string;
  au_PrincipalID : string;
  au_TokenID : string;
  au_Group : string;
  au_Limits : TenantLimits;
  au_BillingBlocked : bool
}.

Inductive auth_error := ErrUnauthorized.

Record Authenticator := MkAuthenticator { an_records : gmap string TokenRecord; an_loaded : bool }.

Definition NewAuthenticator : Authenticator := MkAuthenticator ∅ false.

(** A failed refresh keeps the last known set. *)
Definition Refresh `{Codec TokenRecord} (client : option fault) (st : redis) (a : Authenticator)
    : result token_error unit * Authenticator :=
  match LoadTokens client st with
  | Err e => (Err e, a)
  | Ok records => (Ok tt, MkAuthenticator records true)
  end.

Definition Replace (records : gmap string TokenRecord) : Authenticator := MkAuthenticator records true.

Definition context_of (record : TokenRecord) : AuthContext :=
  {| au_TenantID := tk_TenantID record; au_PrincipalID := tk_PrincipalID record;
     au_TokenID := tk_TokenID record;
     au_Group := if String.eqb (tk_Group record) "" then "default" else tk_Group record;
     au_Limits := {| tl_MaxConcurrency := tk_MaxConcurrency record; tl_RPM := tk_RPM record |};
     au_BillingBlocked := tk_BillingBlocked record |}.

Definition Authenticate (a : Authenticator) (now : time) (raw : string) : result auth_error AuthContext :=
  let raw := trim_space raw in
  if String.eqb raw "" then Err ErrUnauthorized
  else match an_records a !! HashToken raw with
       | None => Err ErrUnauthorized
       | Some record =>
           if negb (is_zero_time (tk_ExpiresAt record)) && negb (after (tk_ExpiresAt record) now)
           then Err ErrUnauthorized else Ok (context_of record)
       end.

Definition AuthenticateRequest (a : Authenticator) (now : time) (headers : option (string * string))
    : result auth_error AuthContext :=
  match headers with
  | None => Err ErrUnauthorized
  | Some (authorization, x_api_key) =>
      if has_prefix "bearer " (to_lower authorization) then Authenticate a now (str_drop 7 authorization)
      else if String.eqb authorization "" then Authenticate a now x_api_key
      else Err ErrUnauthorized
  end.

(** ** Lemmas *)

Section facts.
  Context `{Codec TokenRecord}.

Lemma token_fields_spec records fields :
  token_fields records = Ok fields →
  Forall2 (λ kr f, f.1 = kr.1 ∧ TokenRecord_Validate kr.2 = Ok tt ∧ str_len kr.1 = 64 ∧ marshal kr.2 = Some f.2)
    records fields.
Proof.
  revert fields. induction records as [|[hash record] records IH]; cbn; intros fields E; [injection E as <-; constructor|].
  apply result_bind_Ok in E as (raw & Er & E). apply result_bind_Ok in E as (rest & Erest & [= <-]).
  constructor; [|by apply IH]. unfold token_field in Er. apply result_bind_Ok in Er as ([] & Hv & Er).
  destruct (negb _) eqn:Hl; [done|]. destruct (marshal record) eqn:Em; [|done]. injection Er as <-.
  apply negb_false_iff, Z.eqb_eq in Hl. done.
Qed.

(** Distinct fields: the hash holds exactly them. *)
Lemma foldl_fields_lookup fields (m : gmap string string) k x :
  NoDup fields.*1 →
  (foldl add_field m fields !! k = Some x) ↔ (k, x) ∈ fields ∨ ((k ∉ fields.*1) ∧ m !! k = Some x).
Proof.
  revert m. induction fields as [|[f y] fields IH]; intros m Hnd.
  - cbn. rewrite !elem_of_nil. naive_solver.
  - cbn in Hnd. apply list.NoDup_cons in Hnd as [Hnot Hnd]. cbn [foldl fmap list_fmap fst]. rewrite IH by done.
    rewrite !elem_of_cons. unfold add_field. cbn. rewrite lookup_insert_Some.
    assert ((k, x) ∈ fields → k ∈ fields.*1) as Hin by (intros E; by apply (list_elem_of_fmap_2 fst) in E).
    destruct (decide (k = f)) as [->|Hne]; naive_solver.
Qed.

Lemma load_tokens_spec values r0 :
  NoDup values.*1 →
  (∀ k raw, (k, raw) ∈ values → has_prefix "__" k = false → ∃ record, load_token k raw = Ok record) →
  ∃ r, load_tokens values r0 = Ok r ∧
    (∀ k raw, (k, raw) ∈ values → has_prefix "__" k = false → ∃ record, load_token k raw = Ok record ∧ r !! k = Some record) ∧
    (∀ k, k ∉ values.*1 → r !! k = r0 !! k).
Proof.
  revert r0. induction values as [|[h raw] values IH]; intros r0 Hnd Hall.
  - exists r0. cbn. split_and!; [done| |done]. intros k raw Hin. by apply elem_of_nil in Hin.
  - cbn in Hnd. apply list.NoDup_cons in Hnd as [Hnot Hnd]. cbn [load_tokens].
    assert (∀ k raw', (k, raw') ∈ values → has_prefix "__" k = false → ∃ record, load_token k raw' = Ok record) as Hall'
      by (intros; eapply Hall; [by apply list_elem_of_further|done]).
    destruct (has_prefix "__" h) eqn:Eh.
    + destruct (IH r0 Hnd Hall') as (r & Hr & Hin & Hout). exists r. split_and!; [done| |].
      * intros k raw' [[= -> ->]|Hk]%elem_of_cons Hp; [congruence|by apply Hin].
      * intros k Hk. apply Hout. cbn in Hk. rewrite not_elem_of_cons in Hk. apply Hk.
    + destruct (Hall h raw (list_elem_of_here _ _) Eh) as [record Hrec]. rewrite Hrec. cbn [mbind result_bind].
      destruct (IH (<[h := record]> r0) Hnd Hall') as (r & Hr & Hin & Hout). exists r. split_and!; [done| |].
      * intros k raw' [[= -> ->]|Hk]%elem_of_cons Hp; [|by apply Hin]. exists record. split; [done|].
        rewrite Hout by done. apply lookup_insert_eq.
      * intros k Hk. cbn in Hk. rewrite not_elem_of_cons in Hk. rewrite Hout by apply Hk.
        apply lookup_insert_ne. intros ->. by destruct Hk.
Qed.

End facts.

(** A digest is no "__" field. *)
Lemma HashToken_prefix raw : has_prefix "__" (HashToken raw) = false.
Proof.
  pose proof (sha256_hex_digits raw) as Hd. fold (HashToken raw) in Hd.
  destruct (HashToken raw) as [|a h]; [done|]. cbn [has_prefix str_forallb] in *.
  rewrite bool_decide_eq_false_2; [done|]. by intros <-.
Qed.

(** ** The property *)

(** The staging key a nonce gives. *)
Definition staging_key (nonce : string) : string := TokenKey +:+ ":staging:" +:+ nonce.

(** C27 Publication is the whole truth about tokens: after control published a
    token set and a gateway refreshed -- foreign traffic in between included --
    a bearer token authenticates exactly when its digest is in that set and has
    not expired, with the identity, group and limits control gave it; a token
    that was left out is refused from then on. *)
Theorem authenticate_iff_published `{Codec TokenRecord} nonce at_ f' records st st' st'' a now raw ctx :
  find st (staging_key nonce) = None → (∀ k r, records !! k = Some r → survives r) →
  PublishTokens (Some (NoFault, f')) (Some nonce) at_ records st = (Ok tt, st') →
  find st'' TokenKey = find st' TokenKey →
  ∃ a', Refresh (Some NoFault) st'' a = (Ok tt, a') ∧
    (Authenticate a' now raw = Ok ctx ↔
     trim_space raw ≠ ""%string ∧ ∃ record, records !! HashToken (trim_space raw) = Some record ∧
       (tk_ExpiresAt record = 0 ∨ now < tk_ExpiresAt record) ∧ ctx = context_of record).
Proof.
  intros Hfresh Hsurvive Hpub Hsame. unfold PublishTokens in Hpub.
  destruct (token_fields (map_to_list records)) as [fields|e] eqn:Ef; [|done].
  cbn [call] in Hpub. fold (staging_key nonce) in Hpub.
  pose proof (token_fields_spec _ _ Ef) as Hfields.
  assert (fields.*1 = (map_to_list records).*1) as Ekeys.
  { clear -Hfields. induction Hfields as [|kr f l fs [E _] _ IH]; [done|]. cbn. by rewrite E, IH. }
  assert (NoDup fields.*1) as Hnd by (rewrite Ekeys; apply NoDup_fst_map_to_list).
  set (m := foldl add_field {["__published_at"%string := at_]} fields).
  assert (publish_tokens_tx (staging_key nonce) (("__published_at"%string, at_) :: fields) st
    = (Ok tt, put TokenKey (REntry (RHash m) None) (drop (staging_key nonce) (put (staging_key nonce) (REntry (RHash m) None) st)))) as Etx.
  { unfold publish_tokens_tx. cbn [hset_all].
    set (st1 := put (staging_key nonce) (REntry (RHash {["__published_at"%string := at_]}) None) st).
    assert (HSET (staging_key nonce) "__published_at" at_ st = (Ok tt, st1)) as E1 by (unfold HSET; by rewrite Hfresh).
    assert (find st1 (staging_key nonce) = Some (REntry (RHash {["__published_at"%string := at_]}) None)) as F1
      by (unfold st1; by rewrite find_put, decide_True by done).
    pose proof (hset_all_spec (staging_key nonce) fields st1 _ _ F1) as E2. fold m in E2.
    unfold mbind, R_bind. rewrite E1, E2. unfold RENAME. rewrite find_put, decide_True by done. cbn [live re_expires].
    unfold st1. by rewrite put_put. }
  rewrite Etx in Hpub. injection Hpub as <-.
  assert (find st'' TokenKey = Some (REntry (RHash m) None)) as Hlive by (rewrite Hsame, find_put, decide_True; done).
  assert (∀ k x, m !! k = Some x → has_prefix "__" k = false → (k, x) ∈ fields) as Hm.
  { intros k x Hk Hp. unfold m in Hk. apply foldl_fields_lookup in Hk as [?|[_ Hk]]; [done| |done].
    apply lookup_singleton_Some in Hk as [<- _]. discriminate Hp. }
  assert (∀ k x, (k, x) ∈ fields → ∃ record, records !! k = Some record ∧ load_token k x = Ok record) as Hload.
  { intros k x Hin. apply list_elem_of_lookup in Hin as [i Hi].
    destruct (Forall2_lookup_r _ _ _ _ _ Hfields Hi) as ([k' record] & Hr & Ek & Hv & _ & Hmar). cbn in *. subst k'.
    apply list_elem_of_lookup_2, elem_of_map_to_list in Hr. exists record. split; [done|].
    destruct (Hsurvive k record Hr) as (s & Hs & Hu). assert (s = x) as -> by congruence.
    unfold load_token. by rewrite Hu, Hv. }
  destruct (load_tokens_spec (map_to_list m) ∅) as (r & Hr & Hin & Hout).
  { apply NoDup_fst_map_to_list. }
  { intros k x Hk%elem_of_map_to_list Hp. destruct (Hload k x (Hm k x Hk Hp)) as (record & _ & ?). eauto. }
  exists (MkAuthenticator r true). split.
  { unfold Refresh, LoadTokens, call, HGETALL. rewrite Hlive. cbn [fst]. by rewrite Hr. }
  assert (r !! HashToken (trim_space raw) = records !! HashToken (trim_space raw)) as Elook.
  { set (k := HashToken _). destruct (records !! k) as [record|] eqn:Ek.
    - apply elem_of_map_to_list in Ek as Hkin. apply list_elem_of_lookup in Hkin as [i Hi].
      destruct (Forall2_lookup_l _ _ _ _ _ Hfields Hi) as ([k' x] & Hfx & Ek' & _). cbn in Ek'. subst k'.
      apply list_elem_of_lookup_2 in Hfx.
      destruct (Hin k x) as (record' & Hrec & ->); [|apply HashToken_prefix|].
      + apply elem_of_map_to_list. unfold m. apply foldl_fields_lookup; [done|by left].
      + destruct (Hload k x Hfx) as (record'' & ? & ?). congruence.
    - rewrite Hout; [apply lookup_empty|]. intros Hk. apply list_elem_of_fmap in Hk as ([k' x] & Ek' & Hk). cbn in Ek'. subst k'.
      apply elem_of_map_to_list in Hk. apply Hm in Hk; [|apply HashToken_prefix].
      destruct (Hload _ _ Hk) as (? & ? & _). congruence. }
  unfold Authenticate. cbn [an_records]. rewrite Elook. destruct (String.eqb_spec (trim_space raw) "") as [E|Hne]; [naive_solver|].
  destruct (records !! HashToken (trim_space raw)) as [record|]; [|naive_solver].
  unfold is_zero_time. destruct (Z.eqb_spec (tk_ExpiresAt record) 0); cbn [negb andb]; [naive_solver|].
  destruct (after (tk_ExpiresAt record) now) eqn:Ea; cbn [negb]; breflect; [naive_solver|]. naive_solver lia.
Qed.

Definition one_token : TokenRecord := MkToken "tok" "t1" "p1" "default" 0 5 60 false.

#[local] Instance one_token_codec : Codec TokenRecord := {|
  marshal _ := Some "{}"%string; unmarshal _ := Some one_token
|}.

Lemma authenticate_iff_published_witness :
  let st := Redis ∅ 5 in
  let records := {[ HashToken "secret" := one_token ]} in
  let st' := (PublishTokens (Some (NoFault, NoFault)) (Some "00"%string) "now" records st).2 in
  ∃ a', Refresh (Some NoFault) st' NewAuthenticator = (Ok tt, a') ∧
    (Authenticate a' 7 " secret " = Ok (context_of one_token) ↔
     trim_space " secret " ≠ ""%string ∧ ∃ record, records !! HashToken (trim_space " secret ") = Some record ∧
       (tk_ExpiresAt record = 0 ∨ 7 < tk_ExpiresAt record) ∧ context_of one_token = context_of record).
Proof.
  cbv zeta.
  apply (authenticate_iff_published "00" "now" NoFault {[ HashToken "secret" := one_token ]} (Redis ∅ 5)
    (PublishTokens (Some (NoFault, NoFault)) (Some "00"%string) "now" {[ HashToken "secret" := one_token ]} (Redis ∅ 5)).2).
  - reflexivity.
  - intros k r [_ <-]%lookup_singleton_Some. by exists "{}"%string.
  - vm_compute. reflexivity.
  - reflexivity.
Defined.
