(* ===== verification/Effects.v ===== *)
(** * Programs with effects

    A component that talks to the rest of the world through calls that may
    answer anything is a program over the signature of those calls: a tree
    that performs an effect and goes on with its answer.  Its runs are the
    traces it may leave.  A [Monitor] is a specification of such traces: the
    state it keeps, what it permits in each state, and what the environment is
    assumed to answer; [must m Q σ] says that from the monitor's state [σ] the
    program [m] does nothing that is not permitted and ends in [Q]. *)

From S2P Require Import Prelude.

Open Scope Z_scope.

Inductive prog (E : Type → Type) (A : Type) : Type :=
| Return (a : A)
| Perform {X : Type} (e : E X) (k : X → prog E A).
Arguments Return {E A} a.
Arguments Perform {E A X} e k.

Fixpoint prog_bind {E A B} (m : prog E A) (f : A → prog E B) : prog E B :=
  match m with
  | Return a => f a
  | Perform e k => Perform e (λ x, prog_bind (k x) f)
  end.

#[export] Instance prog_mret {E} : MRet (prog E) := λ A a, Return a.
#[export] Instance prog_mbind {E} : MBind (prog E) := λ A B f m, prog_bind m f.
Definition perform {E X} (e : E X) : prog E X := Perform e Return.

(** ** Runs *)

(** An effect with its answer. *)
Inductive event (E : Type → Type) : Type :=
| Ev {X : Type} (e : E X) (x : X).
Arguments Ev {E X} e x.

Fixpoint runs {E A} (m : prog E A) (tr : list (event E)) (a : A) : Prop :=
  match m with
  | Return b => tr = [] ∧ a = b
  | Perform e k => ∃ x tr', tr = Ev e x :: tr' ∧ runs (k x) tr' a
  end.

(** What a program has done so far, wherever it is or was stopped. *)
Fixpoint partial {E A} (m : prog E A) (tr : list (event E)) : Prop :=
  match m with
  | Return _ => tr = []
  | Perform e k => tr = [] ∨ ∃ x tr', tr = Ev e x :: tr' ∧ partial (k x) tr'
  end.

Lemma runs_partial {E A} (m : prog E A) tr a : runs m tr a → partial m tr.
Proof.
  revert tr. induction m as [b|X e k IH]; intros tr; cbn [runs partial]; [by intros []|].
  intros (x & tr' & -> & Hr). right. exists x, tr'. split; [done|]. by apply IH.
Qed.

(** The run in an environment that answers the [n]th effect with [env n]. *)
Fixpoint execute {E A} (env : nat → ∀ X, E X → X) (n : nat) (m : prog E A) : list (event E) * A :=
  match m with
  | Return a => ([], a)
  | Perform e k => let x := env n _ e in
                   let '(tr, a) := execute env (S n) (k x) in (Ev e x :: tr, a)
  end.

(** Every program has a run, whatever the environment is. *)
Lemma execute_runs {E A} env n (m : prog E A) : runs m (execute env n m).1 (execute env n m).2.
Proof.
  revert n. induction m as [b|X e k IH]; intros n; [done|]. cbn [execute runs].
  pose proof (IH (env n X e) (S n)) as Hr. destruct (execute env (S n) (k (env n X e))) as [tr a].
  by exists (env n X e), tr.
Qed.

(** What an environment always answers is so of every answer in the trace. *)
Definition holds_of {E : Type → Type} (P : ∀ X, E X → X → Prop) (ev : event E) : Prop :=
  match ev with Ev e x => P _ e x end.

Lemma execute_answers {E A} (P : ∀ X, E X → X → Prop) env n (m : prog E A) :
  (∀ n X e, P X e (env n X e)) → Forall (holds_of P) (execute env n m).1.
Proof.
  intros HP. revert n. induction m as [b|X e k IH]; intros n; cbn [execute]; [constructor|].
  pose proof (IH (env n X e) (S n)) as Hr. destruct (execute env (S n) (k (env n X e))) as [tr a].
  by constructor; [apply HP|].
Qed.

Lemma runs_bind {E A B} (m : prog E A) (f : A → prog E B) tr b :
  runs (m ≫= f) tr b ↔ ∃ a tr1 tr2, tr = tr1 ++ tr2 ∧ runs m tr1 a ∧ runs (f a) tr2 b.
Proof.
  change (m ≫= f) with (prog_bind m f). revert tr.
  induction m as [a|X e k IH]; intros tr; cbn [prog_bind runs].
  - split; [by exists a, [], tr|]. by intros (? & ? & ? & -> & [-> ->] & ?).
  - split.
    + intros (x & tr' & -> & (a & tr1 & tr2 & -> & Hm & Hf)%IH). exists a, (Ev e x :: tr1), tr2.
      split_and!; [done| |done]. by exists x, tr1.
    + intros (a & tr1 & tr2 & -> & (x & tr' & -> & Hm) & Hf). exists x, (tr' ++ tr2). split; [done|].
      apply IH. by exists a, tr', tr2.
Qed.

(** ** Monitors *)

Class Monitor (E : Type → Type) (S : Type) := {
  permits {X} : E X → S → Prop;
  next {X} : E X → X → S → S;
  answers {X} : E X → X → S → Prop
}.

Section monitor.
  Context {E : Type → Type} {S : Type} `{Monitor E S}.

Fixpoint fair (tr : list (event E)) (σ : S) : Prop :=
  match tr with
  | [] => True
  | Ev e x :: tr => answers e x σ ∧ fair tr (next e x σ)
  end.

Fixpoint disciplined (tr : list (event E)) (σ : S) : Prop :=
  match tr with
  | [] => True
  | Ev e x :: tr => permits e σ ∧ disciplined tr (next e x σ)
  end.

Fixpoint watch (tr : list (event E)) (σ : S) : S :=
  match tr with
  | [] => σ
  | Ev e x :: tr => watch tr (next e x σ)
  end.

Lemma watch_app tr1 tr2 σ : watch (tr1 ++ tr2) σ = watch tr2 (watch tr1 σ).
Proof. revert σ. induction tr1 as [|[X e x] tr1 IH]; intros σ; [done|]. apply IH. Qed.

Lemma disciplined_app tr1 tr2 σ : disciplined (tr1 ++ tr2) σ ↔ disciplined tr1 σ ∧ disciplined tr2 (watch tr1 σ).
Proof.
  revert σ. induction tr1 as [|[X e x] tr1 IH]; intros σ; cbn; [by split; [|intros []]|]. rewrite IH. tauto.
Qed.

(** ** Weakest preconditions *)

Fixpoint must {A} (m : prog E A) (Q : A → S → Prop) (σ : S) : Prop :=
  match m with
  | Return a => Q a σ
  | Perform e k => permits e σ ∧ ∀ x, answers e x σ → must (k x) Q (next e x σ)
  end.

Lemma must_sound {A} (m : prog E A) Q σ tr a :
  must m Q σ → runs m tr a → fair tr σ → disciplined tr σ ∧ Q a (watch tr σ).
Proof.
  revert σ tr. induction m as [b|X e k IH]; intros σ tr; cbn [must runs].
  - intros HQ [-> ->] _. done.
  - intros [Hp Hk] (x & tr' & -> & Hr) [Ha Hf]. cbn [disciplined watch].
    destruct (IH x _ _ (Hk x Ha) Hr Hf) as [Hd HQ]. done.
Qed.

Lemma must_partial {A} (m : prog E A) Q σ tr :
  must m Q σ → partial m tr → fair tr σ → disciplined tr σ.
Proof.
  revert σ tr. induction m as [b|X e k IH]; intros σ tr; cbn [must partial]; [by intros _ ->|].
  intros [Hp Hk] [->|(x & tr' & -> & Hr)]; [done|]. intros [Ha Hf]. split; [done|]. by eapply IH; [apply Hk|..].
Qed.

Lemma must_bind {A B} (m : prog E A) (f : A → prog E B) Q σ :
  must m (λ a, must (f a) Q) σ → must (m ≫= f) Q σ.
Proof.
  change (m ≫= f) with (prog_bind m f). revert σ.
  induction m as [b|X e k IH]; intros σ; cbn [must prog_bind]; [done|].
  intros [Hp Hk]. split; [done|]. intros x Ha. by apply IH, Hk.
Qed.

Lemma must_mono {A} (m : prog E A) (Q Q' : A → S → Prop) σ :
  must m Q σ → (∀ a σ', Q a σ' → Q' a σ') → must m Q' σ.
Proof.
  intros Hm HQ. revert σ Hm. induction m as [b|X e k IH]; intros σ; cbn [must]; [by apply HQ|].
  intros [Hp Hk]. split; [done|]. intros x Ha. by apply IH, Hk.
Qed.

Lemma must_ret {A} (a : A) Q σ : Q a σ → must (mret a) Q σ.
Proof. done. Qed.

Lemma must_perform {X} (e : E X) Q σ :
  permits e σ → (∀ x, answers e x σ → Q x (next e x σ)) → must (perform e) Q σ.
Proof. intros Hp HQ. split; [done|]. intros x Ha. cbn. by apply HQ. Qed.
End monitor.

(** ** Programs that share a store

    [exec] says what an effect does to the store, [moves] how the store may
    change by itself.  Clients take turns effect by effect. *)

Section shared.
  Context {E : Type → Type} {S : Type}.
  Context (exec : ∀ X, E X → S → X → S → Prop) (moves : S → S → Prop).

Inductive interleaved : S → list (nat * event E) → S → Prop :=
| il_done st : interleaved st [] st
| il_call st tid X (e : E X) x st1 tr st2 :
    exec X e st x st1 → interleaved st1 tr st2 → interleaved st ((tid, Ev e x) :: tr) st2
| il_move st st1 tr st2 : moves st st1 → interleaved st1 tr st2 → interleaved st tr st2.

Definition calls_of (tid : nat) (tr : list (nat * event E)) : list (event E) :=
  omap (λ p, if decide (p.1 = tid) then Some p.2 else None) tr.

Lemma calls_of_app tid tr1 tr2 : calls_of tid (tr1 ++ tr2) = calls_of tid tr1 ++ calls_of tid tr2.
Proof. apply omap_app. Qed.

Lemma calls_of_cons tid i ev tr :
  calls_of tid ((i, ev) :: tr) = if decide (i = tid) then ev :: calls_of tid tr else calls_of tid tr.
Proof. unfold calls_of. cbn. by case_decide. Qed.

Lemma elem_of_calls_of tid ev tr : ev ∈ calls_of tid tr ↔ (tid, ev) ∈ tr.
Proof.
  unfold calls_of. rewrite list_elem_of_omap. split; [|intros Hin; exists (tid, ev); cbn; by rewrite decide_True].
  intros ([i ev'] & Hin & Hi). cbn in Hi. case_decide; [|done]. by simplify_eq.
Qed.

(** The calls of one client only. *)
Lemma calls_of_pair tid i tr : calls_of i (pair tid <$> tr) = if decide (tid = i) then tr else [].
Proof.
  induction tr as [|ev tr IH]; [by case_decide|]. cbn. fold (calls_of i (pair tid <$> tr)). rewrite IH. by case_decide.
Qed.

Lemma interleaved_app st1 tr1 st2 tr2 st3 :
  interleaved st1 tr1 st2 → interleaved st2 tr2 st3 → interleaved st1 (tr1 ++ tr2) st3.
Proof. intros Hx Hy. induction Hx; cbn; [done|eapply il_call; [done|by apply IHHx]|eapply il_move; [done|by apply IHHx]]. Qed.

Context {C : Type} `{Monitor E C}.

Definition step_client {X} (tid : nat) (e : E X) (x : X) (σ : nat → C) : nat → C :=
  λ i, if decide (tid = i) then next e x (σ i) else σ i.

(** An invariant of the store and of what every client knows. *)
Lemma interleaved_inv (I : S → (nat → C) → Prop) st tr st' σ :
  (∀ st σ σ', (∀ i, σ i = σ' i) → I st σ → I st σ') →
  (∀ X (e : E X) x st st' tid σ, exec X e st x st' → permits e (σ tid) → I st σ → I st' (step_client tid e x σ)) →
  (∀ st st' σ, moves st st' → I st σ → I st' σ) →
  interleaved st tr st' → (∀ tid, disciplined (calls_of tid tr) (σ tid)) → I st σ →
  I st' (λ tid, watch (calls_of tid tr) (σ tid)).
Proof.
  intros Hext Hcall Hmove Hil. revert σ. induction Hil as [st|st tid X e x st1 tr st2 He Hil IH|st st1 tr st2 Hm Hil IH];
    intros σ Hd HI.
  - done.
  - pose proof (Hd tid) as Hp. cbn in Hp. rewrite decide_True in Hp by done. destruct Hp as [Hp Hd'].
    eapply Hext; [|apply (IH (step_client tid e x σ))].
    + intros i. unfold step_client. cbn. destruct (decide (tid = i)); done.
    + intros i. unfold step_client. specialize (Hd i). cbn in Hd. destruct (decide (tid = i)) as [<-|]; [done|exact Hd].
    + by eapply Hcall.
  - apply IH; [done|]. by eapply Hmove.
Qed.

(** Clients that run programs of a kind, as far as they got. *)
Lemma partial_disciplined {A} (m : prog E A) Q tr (c : C) :
  (∀ X (e : E X) x c, answers e x c) → must m Q c → partial m tr → disciplined tr c.
Proof.
  intros Hans Hm Hp. eapply must_partial; [exact Hm|exact Hp|]. clear -Hans. revert c.
  induction tr as [|[X e x] tr IH]; intros c; [done|]. split; [apply Hans|apply IH].
Qed.
End shared.
