(* ===== verification/Utf8.v ===== *)
(** * UTF-8

    Go strings as runes: what [range] over a string, [utf8.DecodeRune] and
    [utf8.AppendRune] do, with [None] for a byte that is not part of a
    well-formed sequence.  encoding/json reads and writes strings this way. *)

From S2P Require Import Prelude Decimal.

Open Scope Z_scope.

(** ** Encoding *)

Definition surrogate (r : Z) : bool := (55296 <=? r) && (r <=? 57343).
Definition scalar (r : Z) : bool := (0 <=? r) && (r <=? 1114111) && negb (surrogate r).

Definition bytes (l : list Z) : string := foldr (λ z s, String (val_byte z) s) EmptyString l.

(** The replacement character, what an invalid rune is written as. *)
Definition replacement : Z := 65533.

Definition utf8_bytes (r : Z) : list Z :=
  if r <? 128 then [r]
  else if r <? 2048 then [192 + r / 64; 128 + r mod 64]
  else if r <? 65536 then [224 + r / 4096; 128 + r / 64 mod 64; 128 + r mod 64]
  else [240 + r / 262144; 128 + r / 4096 mod 64; 128 + r / 64 mod 64; 128 + r mod 64].

Definition utf8_encode (r : Z) : string := bytes (utf8_bytes (if scalar r then r else replacement)).

(** ** Decoding *)

Definition within (low high : Z) (a : Ascii.ascii) : bool := (low <=? byte_val a) && (byte_val a <=? high).
Definition tail_bits (a : Ascii.ascii) : Z := byte_val a - 128.

(** The bounds of the second byte rule out overlong forms, surrogates and what
    lies beyond U+10FFFF. *)
Definition second_bounds (lead : Z) : Z * Z :=
  if lead =? 224 then (160, 191) else if lead =? 237 then (128, 159)
  else if lead =? 240 then (144, 191) else if lead =? 244 then (128, 143) else (128, 191).

(** The rune at the front of [s], and the number of bytes it takes. *)
Definition front_rune (s : string) : option Z * nat :=
  match s with
  | EmptyString => (None, 0%nat)
  | String a s1 =>
      let n := byte_val a in
      let '(low, high) := second_bounds n in
      if n <? 128 then (Some n, 1%nat)
      else if (194 <=? n) && (n <=? 223) then
        match s1 with
        | String b _ => if within low high b then (Some ((n - 192) * 64 + tail_bits b), 2%nat) else (None, 1%nat)
        | _ => (None, 1%nat)
        end
      else if (224 <=? n) && (n <=? 239) then
        match s1 with
        | String b (String c _) =>
            if within low high b && within 128 191 c
            then (Some ((n - 224) * 4096 + tail_bits b * 64 + tail_bits c), 3%nat) else (None, 1%nat)
        | _ => (None, 1%nat)
        end
      else if (240 <=? n) && (n <=? 244) then
        match s1 with
        | String b (String c (String d _)) =>
            if within low high b && within 128 191 c && within 128 191 d
            then (Some ((n - 240) * 262144 + tail_bits b * 4096 + tail_bits c * 64 + tail_bits d), 4%nat)
            else (None, 1%nat)
        | _ => (None, 1%nat)
        end
      else (None, 1%nat)
  end.

(** [skip] bytes of the current rune are still to be passed over. *)
Fixpoint runes_from (skip : nat) (s : string) : list (option Z) :=
  match s with
  | EmptyString => []
  | String _ s' =>
      match skip with
      | S k => runes_from k s'
      | O => let '(r, width) := front_rune s in r :: runes_from (pred width) s'
      end
  end.
Definition runes (s : string) : list (option Z) := runes_from 0 s.

Definition rune_text (r : option Z) : string := utf8_encode (default replacement r).
Fixpoint texts {A} (f : A → string) (l : list A) : string :=
  match l with [] => EmptyString | x :: l' => f x +:+ texts f l' end.

(** What a string becomes on its way through runes: each stray byte is the
    replacement character. *)
Definition sanitize (s : string) : string := texts rune_text (runes s).

(** ** Lemmas *)

Lemma val_byte_of z : 0 <= z < 256 → byte_val (val_byte z) = z.
Proof.
  intros Hz. unfold byte_val, val_byte, byte_of. rewrite Z.mod_small by lia.
  rewrite Ascii.nat_ascii_embedding; lia.
Qed.

Lemma texts_app {A} (f : A → string) l l' : texts f (l ++ l') = texts f l +:+ texts f l'.
Proof. induction l as [|x l IH]; cbn; [done|]. by rewrite IH, str_app_assoc. Qed.

Lemma runes_from_app s : ∀ t k, k = String.length s → runes_from k (s +:+ t) = runes t.
Proof. induction s as [|a s IH]; intros t k ->; cbn; [|by apply IH]. by destruct t. Qed.

(** Splitting off the front rune. *)
Lemma runes_front s t r : s ≠ EmptyString → front_rune (s +:+ t) = (r, String.length s) →
  runes (s +:+ t) = r :: runes t.
Proof.
  destruct s as [|a s]; [done|]. intros _ E. unfold runes.
  change (String a s +:+ t) with (String a (s +:+ t)) in *. cbn [runes_from]. rewrite E. f_equal. by apply runes_from_app.
Qed.

Lemma within_byte low high z : 0 <= z < 256 → within low high (val_byte z) = (low <=? z) && (z <=? high).
Proof. intros Hz. unfold within. by rewrite val_byte_of. Qed.

(** Concatenation pushed to the end of the known part of a text. *)
Ltac string_norm := repeat first [rewrite str_app_cons | rewrite str_app_empty].

(** Decides the comparisons of a decoder on bytes whose values are known. *)
Ltac decide_bytes :=
  unfold second_bounds, tail_bits;
  rewrite ?within_byte, ?val_byte_of by lia;
  repeat match goal with
  | |- context [?a <? ?b] => first [rewrite (proj2 (Z.ltb_lt a b)) by lia | rewrite (proj2 (Z.ltb_ge a b)) by lia]
  | |- context [?a <=? ?b] => first [rewrite (proj2 (Z.leb_le a b)) by lia | rewrite (proj2 (Z.leb_gt a b)) by lia]
  end; cbn [andb].

Lemma front_rune_encode r t : scalar r = true →
  front_rune (utf8_encode r +:+ t) = (Some r, String.length (utf8_encode r)).
Proof.
  intros Hs. unfold utf8_encode. rewrite Hs. unfold scalar, surrogate in Hs. unfold utf8_bytes.
  destruct (r <? 128) eqn:E1; [|destruct (r <? 2048) eqn:E2; [|destruct (r <? 65536) eqn:E3]];
    cbn [bytes foldr String.length]; rewrite ?str_app_cons, str_app_empty; cbn [front_rune].
  - decide_bytes. destruct (if r =? 224 then _ else _). done.
  - pose proof (Z.div_mod r 64). pose proof (Z.mod_pos_bound r 64).
    set (q := r / 64) in *. set (m := r mod 64) in *.
    decide_bytes. destruct (192 + q =? 224) eqn:?; [lia|]. destruct (192 + q =? 237) eqn:?; [lia|].
    destruct (192 + q =? 240) eqn:?; [lia|]. destruct (192 + q =? 244) eqn:?; [lia|].
    decide_bytes. repeat f_equal; lia.
  - pose proof (Z.div_mod r 64). pose proof (Z.mod_pos_bound r 64).
    pose proof (Z.div_mod (r / 64) 64). pose proof (Z.mod_pos_bound (r / 64) 64).
    replace (r / 4096) with (r / 64 / 64) by (rewrite Z.div_div; lia || done).
    set (q := r / 64) in *. set (m := r mod 64) in *. set (q' := q / 64) in *. set (m' := q mod 64) in *.
    decide_bytes. destruct (224 + q' =? 224) eqn:?.
    + decide_bytes. repeat f_equal; lia.
    + destruct (224 + q' =? 237) eqn:?; [decide_bytes; repeat f_equal; lia|].
      destruct (224 + q' =? 240) eqn:?; [lia|]. destruct (224 + q' =? 244) eqn:?; [lia|].
      decide_bytes. repeat f_equal; lia.
  - pose proof (Z.div_mod r 64). pose proof (Z.mod_pos_bound r 64).
    pose proof (Z.div_mod (r / 64) 64). pose proof (Z.mod_pos_bound (r / 64) 64).
    pose proof (Z.div_mod (r / 64 / 64) 64). pose proof (Z.mod_pos_bound (r / 64 / 64) 64).
    replace (r / 262144) with (r / 64 / 64 / 64) by (rewrite !Z.div_div; lia || done).
    replace (r / 4096) with (r / 64 / 64) by (rewrite Z.div_div; lia || done).
    set (q := r / 64) in *. set (m := r mod 64) in *. set (q' := q / 64) in *. set (m' := q mod 64) in *.
    set (p := q' / 64) in *. set (k := q' mod 64) in *.
    decide_bytes. destruct (240 + p =? 224) eqn:?; [lia|]. destruct (240 + p =? 237) eqn:?; [lia|].
    destruct (240 + p =? 240) eqn:?; [decide_bytes; repeat f_equal; lia|].
    destruct (240 + p =? 244) eqn:?; decide_bytes; repeat f_equal; lia.
Qed.

Lemma utf8_encode_nonempty r : utf8_encode r ≠ EmptyString.
Proof. unfold utf8_encode, utf8_bytes. repeat case_match; done. Qed.

Lemma runes_encode r t : scalar r = true → runes (utf8_encode r +:+ t) = Some r :: runes t.
Proof. intros Hr. apply runes_front; [apply utf8_encode_nonempty|by apply front_rune_encode]. Qed.

Lemma runes_ascii a t : byte_val a < 128 → runes (String a t) = Some (byte_val a) :: runes t.
Proof.
  intros Ha. pose proof (byte_val_range a). unfold runes. cbn [runes_from front_rune].
  rewrite (proj2 (Z.ltb_lt _ _)) by lia. by destruct (second_bounds _).
Qed.

Lemma runes_texts l t : Forall (λ r, scalar r = true) l →
  runes (texts utf8_encode l +:+ t) = (Some <$> l) ++ runes t.
Proof.
  induction 1 as [|r l Hr _ IH]; [done|]. cbn [texts fmap list_fmap app].
  by rewrite str_app_assoc, runes_encode, IH.
Qed.

Lemma front_rune_scalar s r n : front_rune s = (Some r, n) → scalar r = true.
Proof.
  destruct s as [|a s1]; [done|]. cbn [front_rune]. pose proof (byte_val_range a).
  destruct (second_bounds (byte_val a)) as [low high] eqn:Eb. unfold second_bounds in Eb.
  destruct (byte_val a <? 128) eqn:E1.
  { intros [= <- _]. unfold scalar, surrogate. lia. }
  destruct (_ && (byte_val a <=? 223)) eqn:E2.
  { destruct s1 as [|b s2]; [done|]. destruct (within low high b) eqn:W; [|done]. intros [= <- _].
    unfold within, tail_bits, scalar, surrogate in *. repeat case_match; simplify_eq; lia. }
  destruct (_ && (byte_val a <=? 239)) eqn:E3.
  { destruct s1 as [|b [|c s2]]; [done..|]. destruct (_ && within 128 191 c) eqn:W; [|done]. intros [= <- _].
    unfold within, tail_bits, scalar, surrogate in *. repeat case_match; simplify_eq; lia. }
  destruct (_ && (byte_val a <=? 244)) eqn:E4; [|done].
  destruct s1 as [|b [|c [|d s2]]]; [done..|]. destruct (_ && within 128 191 d) eqn:W; [|done]. intros [= <- _].
  unfold within, tail_bits, scalar, surrogate in *. repeat case_match; simplify_eq; lia.
Qed.

Lemma runes_from_scalar s : ∀ k, Forall (λ r, ∀ z, r = Some z → scalar z = true) (runes_from k s).
Proof.
  induction s as [|a s IH]; intros k; cbn [runes_from]; [constructor|].
  destruct k as [|k]; [|apply IH]. destruct (front_rune (String a s)) as [r w] eqn:E.
  constructor; [|apply IH]. intros z ->. by eapply front_rune_scalar.
Qed.

Lemma runes_scalar s : Forall (λ r, scalar r = true) (default replacement <$> runes s).
Proof.
  apply list.Forall_fmap. eapply list.Forall_impl; [apply runes_from_scalar|].
  intros [z|] Hz; cbn; [by apply Hz|done].
Qed.

Lemma sanitize_texts s : sanitize s = texts utf8_encode (default replacement <$> runes s).
Proof. unfold sanitize. induction (runes s) as [|r l IH]; cbn; [done|]. by rewrite IH. Qed.

Lemma default_Some (l : list Z) : (default replacement <$> (Some <$> l)) = l.
Proof. rewrite <-list_fmap_compose. by apply list_fmap_id. Qed.

Lemma runes_sanitize s : runes (sanitize s) = Some <$> (default replacement <$> runes s).
Proof.
  rewrite sanitize_texts, <-(str_app_nil_r (texts _ _)), runes_texts by apply runes_scalar.
  apply app_nil_r.
Qed.

Lemma sanitize_idemp s : sanitize (sanitize s) = sanitize s.
Proof.
  rewrite (sanitize_texts (sanitize s)), runes_sanitize, default_Some, sanitize_texts. done.
Qed.

(** Text that runes carry unchanged. *)
Definition clean (s : string) : Prop := sanitize s = s.

Lemma clean_texts l : Forall (λ r, scalar r = true) l → clean (texts utf8_encode l).
Proof.
  intros Hl. unfold clean. rewrite sanitize_texts, <-(str_app_nil_r (texts _ l)), runes_texts by done.
  by rewrite app_nil_r, str_app_nil_r, default_Some.
Qed.

Lemma clean_runes s : clean s → ∃ l, Forall (λ r, scalar r = true) l ∧ s = texts utf8_encode l.
Proof. intros Hs. exists (default replacement <$> runes s). split; [apply runes_scalar|]. by rewrite <-sanitize_texts. Qed.

Lemma sanitize_clean_app s t : clean s → sanitize (s +:+ t) = s +:+ sanitize t.
Proof.
  intros (l & Hl & ->)%clean_runes. rewrite (sanitize_texts (_ +:+ t)), runes_texts by done.
  by rewrite fmap_app, default_Some, texts_app, <-sanitize_texts.
Qed.

Lemma clean_app s t : clean s → clean t → clean (s +:+ t).
Proof. intros Hs Ht. unfold clean. by rewrite sanitize_clean_app, Ht. Qed.
Lemma clean_nil : clean EmptyString.
Proof. done. Qed.
Lemma clean_sanitize s : clean (sanitize s).
Proof. apply sanitize_idemp. Qed.

(** *** Where runes may be cut *)

Definition starts_rune (t : string) : bool := match t with EmptyString => true | String a _ => negb (within 128 191 a) end.

Lemma second_bounds_within n a : within (second_bounds n).1 (second_bounds n).2 a = true → within 128 191 a = true.
Proof. unfold second_bounds, within. repeat case_match; cbn; lia. Qed.

(** A rune does not depend on what starts after it. *)
Lemma front_rune_before a s t : starts_rune t = true → front_rune (String a s +:+ t) = front_rune (String a s).
Proof.
  intros Ht. rewrite str_app_cons. cbn [front_rune]. pose proof (second_bounds_within (byte_val a)) as Hb.
  destruct (second_bounds (byte_val a)) as [low high]. cbn [fst snd] in Hb.
  assert (∀ x u, t = String x u → within low high x = false ∧ within 128 191 x = false) as Hx.
  { intros x u ->. cbn in Ht. apply negb_true_iff in Ht. specialize (Hb x). split; [|done].
    destruct (within low high x); [|done]. by rewrite Hb in Ht. }
  destruct s as [|b [|c [|d s]]]; string_norm; [| | |done];
    (destruct t as [|x t]; [done|]); destruct (Hx x t eq_refl) as [E1 E2]; rewrite ?E1, ?E2, ?andb_false_r; cbn [andb];
    repeat case_match; done.
Qed.

Lemma front_rune_width a s : (Nat.pred (front_rune (String a s)).2 <= String.length s)%nat.
Proof. cbn [front_rune]. destruct (second_bounds _). destruct s as [|b [|c [|d s]]]; repeat case_match; cbn; lia. Qed.

Lemma runes_from_cut s t : starts_rune t = true → ∀ k, (k <= String.length s)%nat → runes_from k (s +:+ t) = runes_from k s ++ runes t.
Proof.
  intros Ht. induction s as [|a s IH]; intros k Hk.
  - by destruct k; [|cbn in Hk; lia].
  - rewrite str_app_cons. cbn [runes_from]. destruct k as [|k]; [|apply IH; cbn in Hk; lia].
    pose proof (front_rune_before a s t Ht) as E. rewrite str_app_cons in E. rewrite E.
    pose proof (front_rune_width a s) as Hw. destruct (front_rune (String a s)) as [r w]. cbn [snd] in Hw. by rewrite IH.
Qed.

Lemma sanitize_cut s t : starts_rune t = true → sanitize (s +:+ t) = sanitize s +:+ sanitize t.
Proof. intros Ht. unfold sanitize, runes at 1. rewrite runes_from_cut by (done || lia). by rewrite texts_app. Qed.

Lemma clean_cut s t : starts_rune t = true → clean t → clean (s +:+ t) → clean s.
Proof.
  unfold clean. intros Hs Ht H. rewrite sanitize_cut, Ht in H by done. by eapply (str_app_same_tail _ _ t t).
Qed.

Lemma front_rune_length s r n : front_rune s = (Some r, n) → n = String.length (utf8_encode r).
Proof.
  intros H. pose proof (front_rune_scalar s r n H) as Hs. unfold utf8_encode. rewrite Hs. clear Hs. revert H.
  destruct s as [|a s]; cbn [front_rune]; [done|]. pose proof (byte_val_range a).
  destruct (second_bounds (byte_val a)) as [low high] eqn:Eb. unfold second_bounds in Eb.
  destruct s as [|b [|c [|d s]]]; repeat case_match; intros [= <- <-];
    unfold within, tail_bits, utf8_bytes in *; repeat case_match; simplify_eq; cbn; try done; exfalso; lia.
Qed.

Lemma sanitize_length s : (String.length s <= String.length (sanitize s))%nat.
Proof.
  assert (∀ k, (String.length s <= k + String.length (texts rune_text (runes_from k s)))%nat) as H; [|apply (H 0%nat)].
  induction s as [|a s IH]; intros k; cbn [runes_from]; [cbn; lia|]. destruct k as [|k]; [|specialize (IH k); cbn in *; lia].
  destruct (front_rune (String a s)) as [r w] eqn:E. cbn [texts]. rewrite str_length_app.
  specialize (IH (pred w)). cbn [String.length]. enough (S (pred w) <= String.length (rune_text r))%nat by lia.
  destruct r as [r|].
  { apply front_rune_length in E as ->. unfold rune_text. cbn [default from_option id].
    destruct (utf8_encode r) eqn:Er; [by apply utf8_encode_nonempty in Er|]. cbn. lia. }
  cbn in E. change (String.length (rune_text None)) with 3%nat.
  destruct (second_bounds _). repeat case_match; simplify_eq; lia.
Qed.

Lemma clean_split s t : starts_rune t = true → clean (s +:+ t) → clean s ∧ clean t.
Proof.
  unfold clean. intros Hs H. rewrite sanitize_cut in H by done. pose proof (f_equal String.length H) as Hl.
  rewrite !str_length_app in Hl. pose proof (sanitize_length s). pose proof (sanitize_length t).
  apply str_app_same_tail in H; [done|lia].
Qed.

Lemma clean_after s t : clean s → clean (s +:+ t) → clean t.
Proof. unfold clean at 2 3. intros Hs H. rewrite sanitize_clean_app in H by done. by eapply str_app_prefix. Qed.

Example sanitize_stray : sanitize (chr 226 +:+ chr 130 +:+ "x") = texts utf8_encode [replacement; replacement; 120].
Proof. vm_compute. reflexivity. Qed.
Example sanitize_euro : clean (utf8_encode 8364 +:+ utf8_encode 128512).
Proof. vm_compute. reflexivity. Qed.
