(* ===== verification/GoJson.v ===== *)
(** * encoding/json

    The part of Go's encoding/json that the program relies on, as functions on
    text: [json.Unmarshal] first checks the whole text, then decodes it into a
    Go value, keeping what it decoded when a later part has the wrong type;
    [json.Marshal] writes object keys in the order of the struct, or sorted for
    a map, and escapes what HTML would misread.  A [json.RawMessage] is the text
    of the value it holds, empty when nil. *)

From S2P Require Import Prelude Decimal Utf8.

(** * JSON values

    What the gateway looks at in a request without converting it:
    [map[string]any] as encoding/json decodes it.  A repeated key keeps its
    last value. *)

#[local] Set Warnings "-register-all".

Inductive json :=
| JNull
| JBool (b : bool)
| JNumber (literal : string)
| JString (s : string)
| JArray (items : list json)
| JObject (fields : list (string * json)).

Abbreviation object := (list (string * json)).

Definition field (key : string) (o : object) : option json :=
  foldl (λ found kv, if String.eqb kv.1 key then Some kv.2 else found) None o.

Definition as_string (j : option json) : string :=
  match j with Some (JString s) => s | _ => "" end.

#[local] Set Warnings "-register-all".

Open Scope Z_scope.

(** ** Texts *)

(** A value as it was written: what is between the quotes of a string or a key,
    and the whole text of an array or object. *)
Inductive node :=
| NNull
| NBool (b : bool)
| NNumber (literal : string)
| NString (content : string)
| NArray (text : string) (items : list node)
| NObject (text : string) (fields : list (string * node)).

Definition quote : string := chr 34.
Definition quoted (content : string) : string := quote +:+ content +:+ quote.

Definition node_text (n : node) : string :=
  match n with
  | NNull => "null"
  | NBool b => if b then "true" else "false"
  | NNumber literal => literal
  | NString content => quoted content
  | NArray text _ | NObject text _ => text
  end.

Definition byte_is (n : nat) (a : Ascii.ascii) : bool := Nat.eqb (Ascii.nat_of_ascii a) n.

Definition json_space (a : Ascii.ascii) : bool := byte_is 32 a || byte_is 9 a || byte_is 13 a || byte_is 10 a.

Fixpoint skip_ws (s : string) : string :=
  match s with String a s' => if json_space a then skip_ws s' else s | _ => s end.

(** ** Strings *)

Definition hex_value (z : Z) : option Z :=
  if (48 <=? z) && (z <=? 57) then Some (z - 48)
  else if (97 <=? z) && (z <=? 102) then Some (z - 87)
  else if (65 <=? z) && (z <=? 70) then Some (z - 55) else None.

Definition is_hex_digit (a : Ascii.ascii) : bool := bool_decide (is_Some (hex_value (byte_val a))).

(** The letter after a backslash: what it stands for. *)
Definition escape_value (z : Z) : option Z :=
  if (z =? 34) || (z =? 92) || (z =? 47) then Some z
  else if z =? 98 then Some 8 else if z =? 102 then Some 12 else if z =? 110 then Some 10
  else if z =? 114 then Some 13 else if z =? 116 then Some 9 else None.

Definition prepend (p : string) (r : option (string * string)) : option (string * string) :=
  match r with Some (content, rest) => Some (p +:+ content, rest) | None => None end.

(** What follows an opening quote, up to the closing one. *)
Fixpoint scan_string (s : string) : option (string * string) :=
  match s with
  | EmptyString => None
  | String a s1 =>
      if byte_is 34 a then Some (EmptyString, s1)
      else if byte_is 92 a then
        match s1 with
        | String e s2 =>
            if byte_is 117 e then
              match s2 with
              | String g (String h (String i (String j s6))) =>
                  if is_hex_digit g && is_hex_digit h && is_hex_digit i && is_hex_digit j
                  then prepend (String a (String e (String g (String h (String i (String j EmptyString)))))) (scan_string s6)
                  else None
              | _ => None
              end
            else if bool_decide (is_Some (escape_value (byte_val e)))
            then prepend (String a (String e EmptyString)) (scan_string s2)
            else None
        | EmptyString => None
        end
      else if byte_val a <? 32 then None
      else prepend (String a EmptyString) (scan_string s1)
  end.

Definition hex4 (g h i j : option Z) : option Z :=
  g ← g ≫= hex_value; h ← h ≫= hex_value; i ← i ≫= hex_value; j ← j ≫= hex_value;
  Some (((g * 16 + h) * 16 + i) * 16 + j).

Definition high_surrogate (r : Z) : bool := (55296 <=? r) && (r <=? 56319).
Definition low_surrogate (r : Z) : bool := (56320 <=? r) && (r <=? 57343).

Definition rune_is (z : Z) (r : option Z) : bool := match r with Some z' => z' =? z | None => false end.

(** [unquote]: escapes are undone; half a surrogate pair, like a stray byte,
    becomes the replacement character. *)
Fixpoint unescape (l : list (option Z)) : list Z :=
  match l with
  | [] => []
  | a :: l1 =>
      if negb (rune_is 92 a) then default replacement a :: unescape l1
      else
      match l1 with
      | [] => [replacement]
      | e :: l2 =>
          if negb (rune_is 117 e) then default replacement (e ≫= escape_value) :: unescape l2
          else
          match l2 with
          | g :: h :: i :: j :: l6 =>
              let r := default replacement (hex4 g h i j) in
              if negb (surrogate r) then r :: unescape l6
              else
              match l6 with
              | a' :: e' :: g' :: h' :: i' :: j' :: l12 =>
                  let r' := default replacement (hex4 g' h' i' j') in
                  if rune_is 92 a' && rune_is 117 e' && high_surrogate r && low_surrogate r'
                  then ((r - 55296) * 1024 + (r' - 56320) + 65536) :: unescape l12
                  else replacement :: unescape l6
              | _ => replacement :: unescape l6
              end
          | _ => [replacement]
          end
      end
  end.

Definition unquote (content : string) : string := texts utf8_encode (unescape (runes content)).

(** ** Numbers *)

Definition number_sign (s : string) : string * string :=
  match s with
  | String a r => if byte_is 45 a then (chr 45, r) else (EmptyString, s)
  | EmptyString => (EmptyString, s)
  end.

(** A leading zero stands alone. *)
Definition number_whole (s : string) : option (string * string) :=
  let '(digits, rest) := span_digits s in
  match digits with
  | EmptyString => None
  | String a ds => if byte_is 48 a then Some (chr 48, ds +:+ rest) else Some (digits, rest)
  end.

Definition number_fraction (s : string) : option (string * string) :=
  match s with
  | String a r => if byte_is 46 a then
                    let '(ds, r') := span_digits r in
                    if String.eqb ds "" then None else Some (String a ds, r')
                  else Some (EmptyString, s)
  | EmptyString => Some (EmptyString, s)
  end.

Definition number_exponent (s : string) : option (string * string) :=
  match s with
  | String a r => if byte_is 101 a || byte_is 69 a then
                    let '(sign, r1) := match r with
                                       | String b r' => if byte_is 43 b || byte_is 45 b
                                                        then (String b EmptyString, r') else (EmptyString, r)
                                       | EmptyString => (EmptyString, r)
                                       end in
                    let '(ds, r') := span_digits r1 in
                    if String.eqb ds "" then None else Some (String a (sign +:+ ds), r')
                  else Some (EmptyString, s)
  | EmptyString => Some (EmptyString, s)
  end.

Definition scan_number (s : string) : option (string * string) :=
  let '(sign, s) := number_sign s in
  '(whole, s) ← number_whole s;
  '(fraction, s) ← number_fraction s;
  '(exponent, s) ← number_exponent s;
  Some (sign +:+ whole +:+ fraction +:+ exponent, s).

(** ** Values *)

(** The front of [s] of which [rest] is left. *)
Definition taken (s rest : string) : string := str_take (String.length s - String.length rest) s.

(** [depth] more arrays and objects may be opened; the scanner of encoding/json
    gives up below 10000.  Every other call of these functions consumes a byte,
    so twice the length of the text is fuel enough ([value_fuel]). *)
Definition max_depth : Z := 10000.

Fixpoint value (fuel : nat) (depth : Z) (s : string) : option (node * string) :=
  match fuel, s with
  | S fuel, String a s1 =>
      if byte_is 34 a then '(content, rest) ← scan_string s1; Some (NString content, rest)
      else if byte_is 91 a then
        if depth <=? 0 then None else
        '(items, rest) ← match skip_ws s1 with
                         | String b r => if byte_is 93 b then Some ([], r)
                                         else elements fuel (depth - 1) (String b r)
                         | EmptyString => None
                         end;
        Some (NArray (taken s rest) items, rest)
      else if byte_is 123 a then
        if depth <=? 0 then None else
        '(fields, rest) ← match skip_ws s1 with
                          | String b r => if byte_is 125 b then Some ([], r)
                                          else members fuel (depth - 1) (String b r)
                          | EmptyString => None
                          end;
        Some (NObject (taken s rest) fields, rest)
      else if has_prefix "null" s then Some (NNull, str_drop 4 s)
      else if has_prefix "true" s then Some (NBool true, str_drop 4 s)
      else if has_prefix "false" s then Some (NBool false, str_drop 5 s)
      else '(literal, rest) ← scan_number s; Some (NNumber literal, rest)
  | _, _ => None
  end
with elements (fuel : nat) (depth : Z) (s : string) : option (list node * string) :=
  match fuel with
  | S fuel =>
      '(v, rest) ← value fuel depth s;
      match skip_ws rest with
      | String a r =>
          if byte_is 44 a then '(vs, rest) ← elements fuel depth (skip_ws r); Some (v :: vs, rest)
          else if byte_is 93 a then Some ([v], r) else None
      | EmptyString => None
      end
  | O => None
  end
with members (fuel : nat) (depth : Z) (s : string) : option (list (string * node) * string) :=
  match fuel, s with
  | S fuel, String q s1 =>
      if negb (byte_is 34 q) then None else
      '(key, rest) ← scan_string s1;
      match skip_ws rest with
      | String c r =>
          if negb (byte_is 58 c) then None else
          '(v, rest) ← value fuel depth (skip_ws r);
          match skip_ws rest with
          | String a r =>
              if byte_is 44 a then '(kvs, rest) ← members fuel depth (skip_ws r); Some ((key, v) :: kvs, rest)
              else if byte_is 125 a then Some ([(key, v)], r) else None
          | EmptyString => None
          end
      | EmptyString => None
      end
  | _, _ => None
  end.

Definition Parse (text : string) : option node :=
  let text := skip_ws text in
  '(v, rest) ← value (2 * String.length text + 1) max_depth text;
  if String.eqb (skip_ws rest) "" then Some v else None.

(** [json.Valid] *)
Definition Valid (text : string) : bool := bool_decide (is_Some (Parse text)).

(** Text with double quotes, written here with single ones. *)
Fixpoint dq (s : string) : string :=
  match s with EmptyString => EmptyString | String a s' => String (if byte_is 39 a then byte_of 34 else a) (dq s') end.

Example parse_nested : Parse (dq " {'a' : [1, -2.5e+3 ,'\u00e9'], 'b':{}} ")
  = Some (NObject (dq "{'a' : [1, -2.5e+3 ,'\u00e9'], 'b':{}}")
      [("a", NArray (dq "[1, -2.5e+3 ,'\u00e9']") [NNumber "1"; NNumber "-2.5e+3"; NString "\u00e9"]);
       ("b", NObject "{}" [])])%string.
Proof. vm_compute. reflexivity. Qed.
Example unquote_pair : unquote "\ud83d\ude00\ud83dx" = utf8_encode 128512 +:+ utf8_encode replacement +:+ "x".
Proof. vm_compute. reflexivity. Qed.
Example invalid_texts : forallb (λ t, negb (Valid (dq t))) ["01"; "[1,]"; "{'a'}"; "'\x'"; "1 2"; ""; "nul"]%string = true.
Proof. vm_compute. reflexivity. Qed.

(** ** Decoding into Go values

    A decoder takes what the variable held before, the value found, and says
    what it holds after and whether the value had the right type: encoding/json
    goes on after a mismatch, leaving that part as it was, and reports it at
    the end. *)

Abbreviation decoder A := (A → node → A * bool).

Definition d_string : decoder string := λ old n,
  match n with NString content => (unquote content, true) | NNull => (old, true) | _ => (old, false) end.

Definition d_bool : decoder bool := λ old n,
  match n with NBool b => (b, true) | NNull => (old, true) | _ => (old, false) end.

(** An [int] takes a literal without fraction or exponent, in range. *)
Definition d_int : decoder Z := λ old n,
  match n with
  | NNumber literal => let '(z, ok) := parse_int literal in if ok : bool then (z, true) else (old, false)
  | NNull => (old, true)
  | _ => (old, false)
  end.

(** [json.RawMessage]: null is kept as text. *)
Definition d_raw : decoder string := λ _ n, (node_text n, true).

Definition d_pointer {A} (zero : A) (d : decoder A) : decoder (option A) := λ old n,
  match n with NNull => (None, true) | _ => let '(a, ok) := d (default zero old) n in (Some a, ok) end.

(** Struct fields are found by name, in any case: for an ASCII name that is
    equality of runes up to case, the long s and the Kelvin sign included. *)
Definition fold_rune (r : option Z) : Z :=
  match r with
  | Some r => if (65 <=? r) && (r <=? 90) then r + 32 else if r =? 8490 then 107 else if r =? 383 then 115 else r
  | None => replacement
  end.
Definition same_name (key name : string) : bool :=
  bool_decide (fold_rune <$> runes key = fold_rune <$> runes name).

(** [strings.ToLower(s) == name] for an ASCII [name]: besides the capitals, two
    letters turn into ASCII ones. *)
Definition lower_rune (r : option Z) : Z :=
  match r with
  | Some r => if (65 <=? r) && (r <=? 90) then r + 32 else if r =? 8490 then 107 else if r =? 304 then 105 else r
  | None => replacement
  end.
Definition lower_is (s name : string) : bool := bool_decide (lower_rune <$> runes s = default replacement <$> runes name).

Abbreviation fields_of A := (list (string * decoder A)).

Fixpoint d_field {A} (fs : fields_of A) (key : string) : decoder A := λ old n,
  match fs with
  | [] => (old, true)
  | (name, d) :: fs' => if same_name key name then d old n else d_field fs' key old n
  end.

Definition d_struct {A} (fs : fields_of A) : decoder A := λ old n,
  match n with
  | NObject _ members =>
      foldl (λ acc kv, let '(a, ok) := d_field fs (unquote kv.1) acc.1 kv.2 in (a, acc.2 && ok)) (old, true) members
  | NNull => (old, true)
  | _ => (old, false)
  end.

(** A field of a record, as [d_struct] wants it. *)
Definition into {R A} (get : R → A) (set : A → R → R) (d : decoder A) : decoder R := λ old n,
  let '(a, ok) := d (get old) n in (set a old, ok).

(** Structs whose fields are kept as nested pairs. *)
Definition d_fst {A B} (d : decoder A) : decoder (A * B) := into fst (λ v p, (v, p.2)) d.
Definition d_snd {A B} (d : decoder B) : decoder (A * B) := into snd (λ v p, (p.1, v)) d.

(** A slice: what its memory holds from earlier, and how much of it shows.  A
    repeated key decodes into the elements that are there already. *)
Record slice A := Slice { memory : list A; shown : nat }.
Arguments Slice {A} _ _. Arguments memory {A} _. Arguments shown {A} _.
Definition elems {A} (s : option (slice A)) : list A := match s with Some s => take (shown s) (memory s) | None => [] end.

Fixpoint d_elems {A} (zero : A) (d : decoder A) (old : list A) (l : list node) : list A * bool :=
  match l with
  | [] => ([], true)
  | n :: l' =>
      let '(a, ok) := d (default zero (head old)) n in
      let '(rest, ok') := d_elems zero d (tail old) l' in (a :: rest, ok && ok')
  end.

Definition d_slice {A} (zero : A) (d : decoder A) : decoder (option (slice A)) := λ old n,
  match n with
  | NArray _ [] => (Some (Slice [] 0), true)
  | NArray _ items =>
      let memory := match old with Some s => memory s | None => [] end in
      let '(l, ok) := d_elems zero d memory items in
      (Some (Slice (l ++ drop (length l) memory) (length l)), ok)
  | NNull => (None, true)
  | _ => (old, false)
  end.

(** [map[string]T]: each value is decoded afresh. *)
Definition d_map {A} (zero : A) (d : decoder A) : decoder (option (gmap string A)) := λ old n,
  match n with
  | NObject _ members =>
      let '(m, ok) := foldl (λ acc kv, let '(a, ok) := d zero kv.2 in (<[unquote kv.1 := a]> acc.1, acc.2 && ok))
                            (default ∅ old, true) members in
      (Some m, ok)
  | NNull => (None, true)
  | _ => (old, false)
  end.

(** [err := json.Unmarshal(text, &v)]: what [v] holds, and whether [err] is nil. *)
Definition Unmarshal {A} (d : decoder A) (v : A) (text : string) : A * bool :=
  match Parse text with Some n => d v n | None => (v, false) end.

(** The pattern [if json.Unmarshal(...) != nil { return }]. *)
Definition unmarshal {A} (d : decoder A) (v : A) (text : string) : option A :=
  let '(a, ok) := Unmarshal d v text in if ok : bool then Some a else None.

Definition raw_map : decoder (option (gmap string string)) := d_map EmptyString d_raw.

(** ** Encoding *)

(** A Go value handed to [json.Marshal]: [VObject] has the fields in the order
    they are written. *)
Inductive govalue :=
| VNull
| VBool (b : bool)
| VInt (z : Z)
| VNumber (literal : string)
| VString (s : string)
| VRaw (text : string)
| VArray (items : list govalue)
| VObject (fields : list (string * govalue)).

Definition field_le {A} (x y : string * A) : Prop := String.le x.1 y.1.
#[export] Instance field_le_dec {A} (x y : string * A) : Decision (field_le x y) := decide (String.le x.1 y.1).

(** [map[string]any{...}]: keys are written in order. *)
Definition VMap (fields : list (string * govalue)) : govalue := VObject (merge_sort field_le fields).

Definition hex_char (z : Z) : Ascii.ascii := val_byte (if z <? 10 then z + 48 else z + 87).
Definition backslash : string := chr 92.

Definition unicode_escape (r : Z) : string :=
  backslash +:+ "u" +:+ String (hex_char (r / 4096)) (String (hex_char (r / 256 mod 16))
    (String (hex_char (r / 16 mod 16)) (String (hex_char (r mod 16)) EmptyString))).

Definition short_escape (r : Z) : option Ascii.ascii :=
  if (r =? 34) || (r =? 92) then Some (val_byte r)
  else if r =? 8 then Some (byte_of 98) else if r =? 12 then Some (byte_of 102) else if r =? 10 then Some (byte_of 110)
  else if r =? 13 then Some (byte_of 114) else if r =? 9 then Some (byte_of 116) else None.

Definition escape_rune (r : option Z) : string :=
  match r with
  | None => unicode_escape replacement
  | Some r =>
      match short_escape r with
      | Some letter => backslash +:+ String letter EmptyString
      | None => if (r <? 32) || (r =? 60) || (r =? 62) || (r =? 38) || (r =? 8232) || (r =? 8233)
                then unicode_escape r else utf8_encode r
      end
  end.

Definition escape (s : string) : string := texts escape_rune (runes s).

(** What [json.Marshal] makes of a [RawMessage]: white space between tokens
    goes, and HTML's characters are escaped. *)
Fixpoint compact_from (in_string escaped : bool) (s : string) : string :=
  match s with
  | EmptyString => EmptyString
  | String a s' =>
      let keep := if byte_is 60 a || byte_is 62 a || byte_is 38 a then unicode_escape (byte_val a)
                  else String a EmptyString in
      if in_string then
        match s' with
        | String b (String c s3) =>
            if byte_is 226 a && byte_is 128 b && (byte_is 168 c || byte_is 169 c)
            then unicode_escape (byte_val c + 8064) +:+ compact_from true false s3
            else keep +:+ compact_from (escaped || negb (byte_is 34 a)) (negb escaped && byte_is 92 a) s'
        | _ => keep +:+ compact_from (escaped || negb (byte_is 34 a)) (negb escaped && byte_is 92 a) s'
        end
      else if json_space a then compact_from false false s'
      else keep +:+ compact_from (byte_is 34 a) false s'
  end.
Definition compact (s : string) : string := compact_from false false s.

Fixpoint separated {A} (f : A → string) (l : list A) : string :=
  match l with
  | [] => EmptyString
  | [x] => f x
  | x :: l' => f x +:+ "," +:+ separated f l'
  end.

Fixpoint marshal (v : govalue) : string :=
  match v with
  | VNull => "null"
  | VBool b => if b then "true" else "false"
  | VInt z => format_int z
  | VNumber literal => literal
  | VString s => quoted (escape s)
  | VRaw text => if String.eqb text "" then "null" else compact text
  | VArray items => "[" +:+ separated marshal items +:+ "]"
  | VObject fields => "{" +:+ separated (λ kv, quoted (escape kv.1) +:+ ":" +:+ marshal kv.2) fields +:+ "}"
  end.

Example marshal_map : marshal (VMap [("type", VString "a<b"); ("index", VInt (-3)); ("l", VArray [VNull; VBool true; VRaw " [1 , 2] "])])
  = dq "{'index':-3,'l':[null,true,[1,2]],'type':'a\u003cb'}".
Proof. vm_compute. reflexivity. Qed.
Example compact_html : compact (dq "{ 'a <b' : 'c \' > '}") = dq "{'a \u003cb':'c \' \u003e '}".
Proof. vm_compute. reflexivity. Qed.
