(* ===== verification/GoJsonParse.v ===== *)
(** * The parser of encoding/json

    How [value] and its companions of GoJson.v behave: they make progress, their
    fuel is enough, they look no further than the value they find, and nested
    values that are not too deep are found at any depth. *)

From S2P Require Import Prelude Decimal Money Numeric Utf8 GoJson.

Open Scope Z_scope.

(** ** The parser makes progress *)

Abbreviation len s := (String.length s).

Lemma skip_ws_length s : (len (skip_ws s) <= len s)%nat.
Proof. induction s as [|a s IH]; cbn; [done|]. destruct (json_space a); cbn; lia. Qed.

Lemma scan_string_length s : ∀ c r, scan_string s = Some (c, r) → (len r < len s)%nat.
Proof.
  induction s as [s IH] using (induction_ltof1 _ String.length). unfold ltof in IH. intros c r.
  destruct s as [|a s1]; cbn [scan_string]; [done|].
  destruct (byte_is 34 a). { intros [= <- <-]. cbn. lia. }
  assert (∀ s' p, (len s' <= len s1)%nat → prepend p (scan_string s') = Some (c, r) → (len r < S (len s1))%nat) as Hstep.
  { intros s' p Hl. destruct (scan_string s') as [[x y]|] eqn:E; cbn; [|done].
    intros [= _ <-]. apply IH in E; cbn; lia. }
  destruct (byte_is 92 a).
  - destruct s1 as [|e s2]; [done|]. destruct (byte_is 117 e).
    + destruct s2 as [|g [|h [|i [|j s6]]]]; [done..|]. destruct (_ && is_hex_digit j); [|done].
      apply Hstep; cbn; lia.
    + case_bool_decide; [|done]. apply Hstep; cbn; lia.
  - destruct (byte_val a <? 32); [done|]. by apply Hstep.
Qed.

Lemma span_digits_length s : (len (span_digits s).2 + len (span_digits s).1 = len s)%nat.
Proof.
  induction s as [|a s IH]; cbn; [done|]. destruct (is_digit a); cbn; [|lia].
  destruct (span_digits s) as [d r]. cbn in *. lia.
Qed.

Lemma span_digits_rest s d r : span_digits s = (d, r) → (len r + len d = len s)%nat.
Proof. intros E. pose proof (span_digits_length s) as H. rewrite E in H. exact H. Qed.

Lemma number_sign_length s : (len (number_sign s).2 <= len s)%nat.
Proof. destruct s as [|a s]; cbn; [done|]. destruct (byte_is 45 a); cbn; lia. Qed.

Lemma number_whole_length s w r : number_whole s = Some (w, r) → (len r < len s)%nat.
Proof.
  unfold number_whole. destruct (span_digits s) as [[|a ds] r'] eqn:E; [done|]. apply span_digits_rest in E.
  cbn in E. destruct (byte_is 48 a); intros [= <- <-]; rewrite ?str_length_app; lia.
Qed.

Lemma number_fraction_length s f r : number_fraction s = Some (f, r) → (len r <= len s)%nat.
Proof.
  unfold number_fraction. destruct s as [|a s]; [by intros [= <- <-]|].
  destruct (byte_is 46 a); [|by intros [= <- <-]].
  destruct (span_digits s) as [ds r'] eqn:E. apply span_digits_rest in E.
  destruct (String.eqb ds ""); [done|]. intros [= <- <-]. cbn. lia.
Qed.

Lemma number_exponent_length s f r : number_exponent s = Some (f, r) → (len r <= len s)%nat.
Proof.
  unfold number_exponent. destruct s as [|a s]; [by intros [= <- <-]|].
  destruct (_ || _); [|by intros [= <- <-]].
  destruct (match s with EmptyString => _ | String b r' => _ end) as [sign r1] eqn:Es.
  assert (len r1 <= len s)%nat.
  { destruct s as [|b s]; [by injection Es as <- <-|]. destruct (_ || _); injection Es as <- <-; cbn; lia. }
  destruct (span_digits r1) as [ds r'] eqn:E. apply span_digits_rest in E.
  destruct (String.eqb ds ""); [done|]. intros [= <- <-]. cbn. lia.
Qed.

Lemma scan_number_length s l r : scan_number s = Some (l, r) → (len r < len s)%nat.
Proof.
  unfold scan_number. pose proof (number_sign_length s) as Hs. destruct (number_sign s) as [sg s1]. cbn in Hs.
  intros ([w s2] & Hw%number_whole_length & H)%bind_Some.
  apply bind_Some in H as ([f s3] & Hf%number_fraction_length & H).
  apply bind_Some in H as ([e s4] & He%number_exponent_length & [= <- <-]). lia.
Qed.

(** ** Fuel

    Twice the length of a text, and the call itself: more changes nothing. *)

Definition settles {A} (f : nat → Z → string → option (A * string)) (k fuel : nat) : Prop :=
  ∀ d s v r, f fuel d s = Some (v, r) →
    (len r < len s)%nat ∧ ∀ fuel', (2 * len s + k <= fuel')%nat → f fuel' d s = Some (v, r).

Lemma str_drop_shorter n a s : (0 < n)%nat → (len (str_drop n (String a s)) < len (String a s))%nat.
Proof. destruct n; [lia|]. intros _. cbn. pose proof (str_drop_length n s). lia. Qed.

(** Peels one call with [fuel'] left. *)
Ltac with_fuel := let f := fresh "f" in intros f ?; destruct f as [|f]; [lia|].

Lemma value_settles fuel : settles elements 2 fuel → settles members 2 fuel → settles value 1 (S fuel).
Proof.
  intros IHe IHm d s v r. destruct s as [|a s1]; [done|]. cbn [value].
  pose proof (skip_ws_length s1) as Hws.
  destruct (byte_is 34 a) eqn:E1.
  { intros ([c r'] & Hc & [= <- <-])%bind_Some. pose proof (scan_string_length _ _ _ Hc). cbn.
    split; [lia|]. with_fuel. cbn [value]. by rewrite E1, Hc. }
  destruct (byte_is 91 a) eqn:E2.
  { destruct (d <=? 0) eqn:Ed; [done|]. intros ([l r'] & Hl & [= <- <-])%bind_Some.
    destruct (skip_ws s1) as [|b r1] eqn:Es; [done|]. cbn in Hws. destruct (byte_is 93 b) eqn:Eb.
    - injection Hl as <- <-. cbn. split; [lia|]. with_fuel. cbn [value]. by rewrite E1, E2, Ed, Es, Eb.
    - apply IHe in Hl as [Hlen Hl]. cbn in *. split; [lia|]. with_fuel. cbn [value].
      rewrite E1, E2, Ed, Es, Eb, Hl by lia. done. }
  destruct (byte_is 123 a) eqn:E3.
  { destruct (d <=? 0) eqn:Ed; [done|]. intros ([l r'] & Hl & [= <- <-])%bind_Some.
    destruct (skip_ws s1) as [|b r1] eqn:Es; [done|]. cbn in Hws. destruct (byte_is 125 b) eqn:Eb.
    - injection Hl as <- <-. cbn. split; [lia|]. with_fuel. cbn [value]. by rewrite E1, E2, E3, Ed, Es, Eb.
    - apply IHm in Hl as [Hlen Hl]. cbn in *. split; [lia|]. with_fuel. cbn [value].
      rewrite E1, E2, E3, Ed, Es, Eb, Hl by lia. done. }
  intros H. split.
  - do 3 (destruct (has_prefix _ _) in H; [injection H as <- <-; first [exact (str_drop_shorter 4 a s1 ltac:(lia))|exact (str_drop_shorter 5 a s1 ltac:(lia))]|]).
    apply bind_Some in H as ([l r'] & Hl & [= <- <-]). by eapply scan_number_length.
  - with_fuel. cbn [value]. rewrite E1, E2, E3. exact H.
Qed.

Lemma elements_settles fuel : settles value 1 fuel → settles elements 2 fuel → settles elements 2 (S fuel).
Proof.
  intros IHv IHe d s l r. cbn [elements]. intros ([v rest] & [Hlen Hv]%IHv & H)%bind_Some.
  pose proof (skip_ws_length rest) as Hws.
  assert (∀ f, (2 * len s + 2 <= S f)%nat → value f d s = Some (v, rest)) as Hv' by (intros; apply Hv; lia).
  destruct (skip_ws rest) as [|a r1] eqn:Es; [done|]. cbn in Hws. pose proof (skip_ws_length r1).
  destruct (byte_is 44 a) eqn:Ea.
  - apply bind_Some in H as ([vs r2] & [Hl2 He]%IHe & [= <- <-]). split; [lia|]. with_fuel.
    cbn [elements]. rewrite Hv' by lia. cbn. rewrite Es, Ea, He by lia. done.
  - destruct (byte_is 93 a) eqn:Eb; [|done]. injection H as <- <-. split; [lia|]. with_fuel.
    cbn [elements]. rewrite Hv' by lia. cbn. by rewrite Es, Ea, Eb.
Qed.

Lemma members_settles fuel : settles value 1 fuel → settles members 2 fuel → settles members 2 (S fuel).
Proof.
  intros IHv IHm d s l r. destruct s as [|q s1]; [done|]. cbn [members].
  destruct (byte_is 34 q) eqn:Eq; [|done]. cbn [negb].
  intros ([k r0] & Hk & H)%bind_Some. pose proof (scan_string_length _ _ _ Hk).
  pose proof (skip_ws_length r0). destruct (skip_ws r0) as [|c r1] eqn:Es0; [done|].
  destruct (byte_is 58 c) eqn:Ec; [|done]. cbn [negb] in H.
  apply bind_Some in H as ([v rest] & [Hlen Hv]%IHv & H).
  pose proof (skip_ws_length r1). pose proof (skip_ws_length rest). cbn [String.length] in *.
  assert (∀ f, (2 * S (len s1) + 2 <= S f)%nat → value f d (skip_ws r1) = Some (v, rest)) as Hv' by (intros; apply Hv; lia).
  destruct (skip_ws rest) as [|a r2] eqn:Es; [done|]. pose proof (skip_ws_length r2). cbn [String.length] in *.
  destruct (byte_is 44 a) eqn:Ea.
  - apply bind_Some in H as ([vs r3] & [Hl2 He]%IHm & [= <- <-]). split; [lia|]. with_fuel.
    cbn [members]. rewrite Eq, Hk. cbn. rewrite Es0, Ec. cbn. rewrite Hv' by lia. cbn.
    rewrite Es, Ea, He by lia. done.
  - destruct (byte_is 125 a) eqn:Eb; [|done]. injection H as <- <-. split; [lia|]. with_fuel.
    cbn [members]. rewrite Eq, Hk. cbn. rewrite Es0, Ec. cbn. rewrite Hv' by lia. cbn. by rewrite Es, Ea, Eb.
Qed.

Lemma parser_settles fuel : settles value 1 fuel ∧ settles elements 2 fuel ∧ settles members 2 fuel.
Proof.
  induction fuel as [|fuel (Hv & He & Hm)]; [by split_and!|].
  split_and!; [by apply value_settles|by apply elements_settles|by apply members_settles].
Qed.

(** [value_fuel]: what any fuel finds, the fuel of [Parse] finds. *)
Lemma value_fuel fuel d s v r :
  value fuel d s = Some (v, r) → value (2 * len s + 1) d s = Some (v, r).
Proof. intros H. by apply (proj1 (parser_settles fuel)) in H as [_ H]; apply H. Qed.

(** ** What follows a value does not matter *)

(** What may follow a value inside another one, or the end of the text. *)
Definition closing (t : string) : bool :=
  match t with EmptyString => true | String a _ => byte_is 44 a || byte_is 93 a || byte_is 125 a end.

Lemma byte_is_val n a : byte_is n a = true → byte_val a = Z.of_nat n.
Proof. unfold byte_is, byte_val. intros H%Nat.eqb_eq. by rewrite H. Qed.

Lemma byte_is_no n a : byte_val a ≠ Z.of_nat n → byte_is n a = false.
Proof. intros H. destruct (byte_is n a) eqn:E; [|done]. by apply byte_is_val in E. Qed.

Lemma closing_head t a r : closing t = true → t = String a r → byte_val a = 44 ∨ byte_val a = 93 ∨ byte_val a = 125.
Proof.
  intros H ->. cbn in H. apply orb_true_iff in H as [H|H]; [apply orb_true_iff in H as [H|H]|];
    apply byte_is_val in H; cbn in H; auto.
Qed.

Lemma is_digit_byte a : is_digit a = (48 <=? byte_val a) && (byte_val a <=? 57).
Proof. done. Qed.

Lemma closing_not n u : closing u = true → n ≠ 44 → n ≠ 93 → n ≠ 125 → match u with EmptyString => True | String a _ => byte_val a ≠ n end.
Proof. intros Hu H1 H2 H3. destruct u as [|a r]; [done|]. destruct (closing_head _ a r Hu eq_refl) as [-> | [-> | ->]]; lia. Qed.

Section local.
  Context (u : string) (Hu : closing u = true).

Lemma span_digits_local s d r : span_digits s = (d, r) → span_digits (s +:+ u) = (d, r +:+ u).
Proof.
  revert d. induction s as [|a s IH]; intros d; cbn [span_digits].
  - intros [= <- <-]. rewrite !str_app_empty. destruct u as [|a r']; [done|]. cbn [span_digits].
    pose proof (closing_head _ a r' Hu eq_refl). rewrite is_digit_byte.
    destruct (_ && _) eqn:E; [lia|done].
  - rewrite str_app_cons. cbn [span_digits]. destruct (is_digit a); [|by intros [= <- <-]].
    destruct (span_digits s) as [d' r'] eqn:E. intros [= <- ->]. by rewrite (IH d').
Qed.

Lemma number_whole_local s w r : number_whole s = Some (w, r) → number_whole (s +:+ u) = Some (w, r +:+ u).
Proof.
  unfold number_whole. destruct (span_digits s) as [d r'] eqn:E. rewrite (span_digits_local _ _ _ E).
  destruct d as [|a ds]; [done|]. destruct (byte_is 48 a); intros [= <- <-]; [|done]. by rewrite str_app_assoc.
Qed.

Lemma number_fraction_local s f r : number_fraction s = Some (f, r) → number_fraction (s +:+ u) = Some (f, r +:+ u).
Proof.
  destruct s as [|a s]; rewrite ?str_app_empty, ?str_app_cons; cbn [number_fraction].
  - intros [= <- <-]. rewrite str_app_empty. pose proof (closing_not 46 u Hu ltac:(lia) ltac:(lia) ltac:(lia)).
    destruct u as [|a r']; [done|]. cbn [number_fraction]. by rewrite byte_is_no.
  - destruct (byte_is 46 a); [|by intros [= <- <-]].
    destruct (span_digits s) as [ds r'] eqn:E. rewrite (span_digits_local _ _ _ E).
    destruct (String.eqb ds ""); [done|]. by intros [= <- <-].
Qed.

Lemma number_exponent_local s x r : number_exponent s = Some (x, r) → number_exponent (s +:+ u) = Some (x, r +:+ u).
Proof.
  destruct s as [|a s]; rewrite ?str_app_empty, ?str_app_cons; cbn [number_exponent].
  - intros [= <- <-]. rewrite str_app_empty. pose proof (closing_not 101 u Hu ltac:(lia) ltac:(lia) ltac:(lia)).
    pose proof (closing_not 69 u Hu ltac:(lia) ltac:(lia) ltac:(lia)).
    destruct u as [|a r']; [done|]. cbn [number_exponent]. by rewrite !byte_is_no.
  - destruct (_ || _); [|by intros [= <- <-]].
    destruct s as [|b s]; [done|]. rewrite str_app_cons. 
    destruct (byte_is 43 b || byte_is 45 b).
    + destruct (span_digits s) as [ds r'] eqn:E. rewrite (span_digits_local _ _ _ E).
      destruct (String.eqb ds ""); [done|]. by intros [= <- <-].
    + destruct (span_digits (String b s)) as [ds r'] eqn:E.
      pose proof (span_digits_local _ _ _ E) as E'. rewrite str_app_cons in E'. rewrite E'.
      destruct (String.eqb ds ""); [done|]. by intros [= <- <-].
Qed.

Lemma scan_number_local s l r : scan_number s = Some (l, r) → scan_number (s +:+ u) = Some (l, r +:+ u).
Proof.
  unfold scan_number. destruct s as [|a s]; [done|]. rewrite str_app_cons. cbn [number_sign].
  destruct (byte_is 45 a); intros ([w s2] & Hw%number_whole_local & H)%bind_Some; rewrite ?str_app_cons in Hw;
    apply bind_Some in H as ([f s3] & Hf%number_fraction_local & H);
    apply bind_Some in H as ([e s4] & He%number_exponent_local & [= <- <-]);
    rewrite Hw; cbn; rewrite Hf; cbn; by rewrite He.
Qed.

Lemma scan_string_local s : ∀ c r, scan_string s = Some (c, r) → scan_string (s +:+ u) = Some (c, r +:+ u).
Proof.
  induction s as [s IH] using (induction_ltof1 _ String.length). unfold ltof in IH. intros c r.
  destruct s as [|a s1]; [done|]. rewrite str_app_cons. cbn [scan_string].
  destruct (byte_is 34 a); [by intros [= <- <-]|].
  assert (∀ s' p, (len s' <= len s1)%nat → prepend p (scan_string s') = Some (c, r) →
    prepend p (scan_string (s' +:+ u)) = Some (c, r +:+ u)) as Hstep.
  { intros s' p Hl. destruct (scan_string s') as [[x y]|] eqn:E; cbn; [|done].
    intros [= <- <-]. apply IH in E; [|cbn; lia]. by rewrite E. }
  destruct (byte_is 92 a).
  - destruct s1 as [|e s2]; [done|]. rewrite str_app_cons. destruct (byte_is 117 e).
    + destruct s2 as [|g [|h [|i [|j s6]]]]; [done..|]. rewrite !str_app_cons. destruct (_ && is_hex_digit j); [|done].
      apply Hstep; cbn; lia.
    + case_bool_decide; [|done]. apply Hstep; cbn; lia.
  - destruct (byte_val a <? 32); [done|]. by apply Hstep.
Qed.

Lemma skip_ws_local s a r : skip_ws s = String a r → skip_ws (s +:+ u) = String a (r +:+ u).
Proof.
  induction s as [|b s IH]; [done|]. rewrite str_app_cons. cbn [skip_ws]. destruct (json_space b); [done|].
  by intros [= <- <-].
Qed.

Lemma str_take_front n s : (n <= len s)%nat → str_take n (s +:+ u) = str_take n s.
Proof.
  revert n. induction s as [|a s IH]; intros [|n] Hn; cbn in Hn; try lia.
  - rewrite str_app_empty. by destruct u.
  - by rewrite str_app_cons.
  - rewrite str_app_cons. cbn [str_take]. by rewrite IH by lia.
Qed.

Lemma taken_local s r : taken (s +:+ u) (r +:+ u) = taken s r.
Proof.
  unfold taken. rewrite !str_length_app. replace (len s + len u - (len r + len u))%nat with (len s - len r)%nat by lia.
  apply str_take_front. lia.
Qed.

Lemma has_prefix_local p s : has_prefix p s = true → has_prefix p (s +:+ u) = true ∧ str_drop (len p) (s +:+ u) = str_drop (len p) s +:+ u.
Proof.
  revert s. induction p as [|a p IH]; intros s; [done|]. destruct s as [|b s]; [done|].
  rewrite str_app_cons. cbn. intros [-> Hp]%andb_true_iff. by apply IH.
Qed.

Definition looks_only {A} (f : nat → Z → string → option (A * string)) (fuel : nat) : Prop :=
  ∀ d s v r, f fuel d s = Some (v, r) → f fuel d (s +:+ u) = Some (v, r +:+ u).

(** A number starts with a digit or a sign, so no literal does. *)
Lemma scan_number_head a s l r : scan_number (String a s) = Some (l, r) → byte_val a = 45 ∨ 48 <= byte_val a <= 57.
Proof.
  unfold scan_number. cbn [number_sign]. destruct (byte_is 45 a) eqn:E.
  { apply byte_is_val in E. auto. }
  intros ([w s2] & Hw & _)%bind_Some. unfold number_whole in Hw. cbn [span_digits] in Hw. destruct (is_digit a) eqn:Ed; [|done].
  rewrite is_digit_byte in Ed. lia.
Qed.

Lemma has_prefix_head a p b s : has_prefix (String a p) (String b s) = true → b = a.
Proof. cbn. intros [->%bool_decide_eq_true _]%andb_true_iff. done. Qed.

Lemma literal_not p s a b : byte_val a ≠ byte_val b → has_prefix (String b p) (String a s) = false.
Proof. intros H. cbn. rewrite bool_decide_eq_false_2; [done|]. by intros ->. Qed.

Lemma value_local fuel : looks_only elements fuel → looks_only members fuel → looks_only value (S fuel).
Proof.
  intros IHe IHm d s v r. destruct s as [|a s1]; [done|].
  assert (∀ r', taken (String a (s1 +:+ u)) (r' +:+ u) = taken (String a s1) r') as Ht
    by (intros; rewrite <-str_app_cons; apply taken_local).
  rewrite str_app_cons. cbn [value].
  destruct (byte_is 34 a) eqn:E1.
  { intros ([c r'] & Hc & [= <- <-])%bind_Some. by rewrite (scan_string_local _ _ _ Hc). }
  destruct (byte_is 91 a) eqn:E2.
  { destruct (d <=? 0); [done|]. intros ([l r'] & Hl & [= <- <-])%bind_Some.
    destruct (skip_ws s1) as [|b r1] eqn:Es; [done|]. rewrite (skip_ws_local _ _ _ Es). destruct (byte_is 93 b).
    - injection Hl as <- <-. cbn [mbind option_bind]. by rewrite Ht.
    - apply IHe in Hl. rewrite str_app_cons in Hl. rewrite Hl. cbn [mbind option_bind]. by rewrite Ht. }
  destruct (byte_is 123 a) eqn:E3.
  { destruct (d <=? 0); [done|]. intros ([l r'] & Hl & [= <- <-])%bind_Some.
    destruct (skip_ws s1) as [|b r1] eqn:Es; [done|]. rewrite (skip_ws_local _ _ _ Es). destruct (byte_is 125 b).
    - injection Hl as <- <-. cbn [mbind option_bind]. by rewrite Ht.
    - apply IHm in Hl. rewrite str_app_cons in Hl. rewrite Hl. cbn [mbind option_bind]. by rewrite Ht. }
  rewrite <-str_app_cons. intros H.
  destruct (has_prefix "null" (String a s1)) eqn:H1.
  { apply has_prefix_local in H1 as [-> Hd]. cbn [String.length] in Hd. injection H as <- <-. by rewrite Hd. }
  destruct (has_prefix "true" (String a s1)) eqn:H2.
  { pose proof (has_prefix_head _ _ _ _ H2). apply has_prefix_local in H2 as [-> Hd]. cbn [String.length] in Hd. injection H as <- <-.
    by rewrite str_app_cons, (literal_not "ull"), <-str_app_cons, Hd by (subst; done). }
  destruct (has_prefix "false" (String a s1)) eqn:H3.
  { pose proof (has_prefix_head _ _ _ _ H3). apply has_prefix_local in H3 as [-> Hd]. cbn [String.length] in Hd. injection H as <- <-.
    by rewrite str_app_cons, (literal_not "ull"), (literal_not "rue"), <-str_app_cons, Hd by (subst; done). }
  apply bind_Some in H as ([l r'] & Hl & [= <- <-]). pose proof (scan_number_head _ _ _ _ Hl) as Hh.
  rewrite (scan_number_local _ _ _ Hl), str_app_cons, (literal_not "ull"), (literal_not "rue"), (literal_not "alse"); [done|..];
    intros Ha; revert Hh; rewrite Ha; vm_compute; (intros [Hx|[_ Hx]]; [discriminate|by apply Hx]).
Qed.

Lemma elements_local fuel : looks_only value fuel → looks_only elements fuel → looks_only elements (S fuel).
Proof.
  intros IHv IHe d s l r. cbn [elements]. intros ([v rest] & ->%IHv & H)%bind_Some. cbn [mbind option_bind].
  destruct (skip_ws rest) as [|a r1] eqn:Es; [done|]. rewrite (skip_ws_local _ _ _ Es).
  destruct (byte_is 44 a).
  - apply bind_Some in H as ([vs r2] & He & [= <- <-]).
    destruct (skip_ws r1) as [|b r3] eqn:Es1; [by destruct fuel as [|[]]|]. rewrite (skip_ws_local _ _ _ Es1).
    apply IHe in He. rewrite str_app_cons in He. by rewrite He.
  - destruct (byte_is 93 a); [|done]. by injection H as <- <-.
Qed.

Lemma members_local fuel : looks_only value fuel → looks_only members fuel → looks_only members (S fuel).
Proof.
  intros IHv IHm d s l r. destruct s as [|q s1]; [done|]. rewrite str_app_cons. cbn [members].
  destruct (byte_is 34 q); [|done]. cbn [negb].
  intros ([k r0] & ->%scan_string_local & H)%bind_Some. cbn [mbind option_bind].
  destruct (skip_ws r0) as [|c r1] eqn:Es0; [done|]. rewrite (skip_ws_local _ _ _ Es0).
  destruct (byte_is 58 c); [|done]. cbn [negb] in *. apply bind_Some in H as ([v rest] & Hv & H).
  destruct (skip_ws r1) as [|b r2] eqn:Es1; [by destruct fuel|]. rewrite (skip_ws_local _ _ _ Es1).
  apply IHv in Hv. rewrite str_app_cons in Hv. rewrite Hv. cbn [mbind option_bind].
  destruct (skip_ws rest) as [|a r3] eqn:Es; [done|]. rewrite (skip_ws_local _ _ _ Es).
  destruct (byte_is 44 a).
  - apply bind_Some in H as ([vs r4] & He & [= <- <-]).
    destruct (skip_ws r3) as [|e r5] eqn:Es3; [by destruct fuel|]. rewrite (skip_ws_local _ _ _ Es3).
    apply IHm in He. rewrite str_app_cons in He. by rewrite He.
  - destruct (byte_is 125 a); [|done]. by injection H as <- <-.
Qed.

Lemma parser_local fuel : looks_only value fuel ∧ looks_only elements fuel ∧ looks_only members fuel.
Proof.
  induction fuel as [|fuel (Hv & He & Hm)]; [by split_and!|].
  split_and!; [by apply value_local|by apply elements_local|by apply members_local].
Qed.
End local.

(** ** Depth *)

Fixpoint node_height (n : node) : Z :=
  match n with
  | NArray _ l => 1 + foldr (λ x h, node_height x `max` h) 0 l
  | NObject _ l => 1 + foldr (λ kv h, node_height kv.2 `max` h) 0 l
  | _ => 0
  end.
Definition items_height (l : list node) : Z := foldr (λ x h, node_height x `max` h) 0 l.
Definition members_height (l : list (string * node)) : Z := foldr (λ kv h, node_height kv.2 `max` h) 0 l.

Lemma node_height_nonneg n : 0 <= node_height n.
Proof. destruct n as [| | | |? l|? l]; cbn; try lia; induction l as [|x l IH]; cbn in *; lia. Qed.

Lemma heights_nonneg l l' : 0 <= items_height l ∧ 0 <= members_height l'.
Proof.
  split; [destruct l as [|x l]|destruct l' as [|x l']]; cbn; try lia.
  - pose proof (node_height_nonneg x). lia.
  - pose proof (node_height_nonneg x.2). lia.
Qed.

(** A value that is not too deep is found with as much depth as it needs. *)
Definition any_depth {A} (f : nat → Z → string → option (A * string)) (h : A → Z) (fuel : nat) : Prop :=
  ∀ d s v r, f fuel d s = Some (v, r) → ∀ d', h v <= d' → f fuel d' s = Some (v, r).

Lemma value_depth fuel : any_depth elements items_height fuel → any_depth members members_height fuel → any_depth value node_height (S fuel).
Proof.
  intros IHe IHm d s v r. destruct s as [|a s1]; [done|]. cbn [value].
  destruct (byte_is 34 a); [done|]. destruct (byte_is 91 a).
  { destruct (d <=? 0); [done|]. intros ([l r'] & Hl & [= <- <-])%bind_Some d' Hd.
    change (1 + items_height l <= d') in Hd. pose proof (heights_nonneg l []) as [? _].
    rewrite (proj2 (Z.leb_gt _ _)) by lia. destruct (skip_ws s1) as [|b r1]; [done|].
    destruct (byte_is 93 b); [by rewrite Hl|]. by rewrite (IHe _ _ _ _ Hl) by lia. }
  destruct (byte_is 123 a); [|done].
  destruct (d <=? 0); [done|]. intros ([l r'] & Hl & [= <- <-])%bind_Some d' Hd.
  change (1 + members_height l <= d') in Hd. pose proof (heights_nonneg [] l) as [_ ?].
  rewrite (proj2 (Z.leb_gt _ _)) by lia. destruct (skip_ws s1) as [|b r1]; [done|].
  destruct (byte_is 125 b); [by rewrite Hl|]. by rewrite (IHm _ _ _ _ Hl) by lia.
Qed.

Lemma elements_depth fuel : any_depth value node_height fuel → any_depth elements items_height fuel → any_depth elements items_height (S fuel).
Proof.
  intros IHv IHe d s l r. cbn [elements]. intros ([v rest] & Hv & H)%bind_Some d' Hd.
  destruct (skip_ws rest) as [|a r1] eqn:Es; [done|]. destruct (byte_is 44 a) eqn:E44.
  - apply bind_Some in H as ([vs r2] & He & [= <- <-]). cbn in Hd.
    rewrite (IHv _ _ _ _ Hv) by lia. cbn. rewrite Es, E44. by rewrite (IHe _ _ _ _ He) by (unfold items_height; lia).
  - destruct (byte_is 93 a) eqn:E93; [|done]. injection H as <- <-. cbn in Hd. rewrite (IHv _ _ _ _ Hv) by lia. cbn. by rewrite Es, E44, E93.
Qed.

Lemma members_depth fuel : any_depth value node_height fuel → any_depth members members_height fuel → any_depth members members_height (S fuel).
Proof.
  intros IHv IHm d s l r. destruct s as [|q s1]; [done|]. cbn [members]. destruct (negb (byte_is 34 q)); [done|].
  intros ([k r0] & -> & H)%bind_Some d' Hd. cbn [mbind option_bind]. destruct (skip_ws r0) as [|c r1]; [done|].
  destruct (negb (byte_is 58 c)); [done|]. apply bind_Some in H as ([v rest] & Hv & H).
  destruct (skip_ws rest) as [|a r3] eqn:Es; [done|]. destruct (byte_is 44 a) eqn:E44.
  - apply bind_Some in H as ([vs r4] & He & [= <- <-]). cbn in Hd.
    rewrite (IHv _ _ _ _ Hv) by lia. cbn. rewrite Es, E44. by rewrite (IHm _ _ _ _ He) by (unfold members_height; lia).
  - destruct (byte_is 125 a) eqn:E125; [|done]. injection H as <- <-. cbn in Hd. rewrite (IHv _ _ _ _ Hv) by lia. cbn. by rewrite Es, E44, E125.
Qed.

Lemma parser_depth fuel : any_depth value node_height fuel ∧ any_depth elements items_height fuel ∧ any_depth members members_height fuel.
Proof.
  induction fuel as [|fuel (Hv & He & Hm)]; [by split_and!|].
  split_and!; [by apply value_depth|by apply elements_depth|by apply members_depth].
Qed.

(** And what was found was not deeper than it could be. *)
Definition within_depth {A} (f : nat → Z → string → option (A * string)) (h : A → Z) (fuel : nat) : Prop :=
  ∀ d s v r, 0 <= d → f fuel d s = Some (v, r) → h v <= d.

Lemma value_within fuel : within_depth elements items_height fuel → within_depth members members_height fuel → within_depth value node_height (S fuel).
Proof.
  intros IHe IHm d s v r Hd. destruct s as [|a s1]; [done|]. cbn [value].
  destruct (byte_is 34 a). { intros ([c r'] & _ & [= <- <-])%bind_Some. done. }
  destruct (byte_is 91 a).
  { destruct (Z.leb_spec d 0); [done|]. intros ([l r'] & Hl & [= <- <-])%bind_Some. change (1 + items_height l <= d).
    destruct (skip_ws s1) as [|b r1]; [done|]. destruct (byte_is 93 b); [injection Hl as <- <-; cbn; lia|].
    apply IHe in Hl; lia. }
  destruct (byte_is 123 a).
  { destruct (Z.leb_spec d 0); [done|]. intros ([l r'] & Hl & [= <- <-])%bind_Some. change (1 + members_height l <= d).
    destruct (skip_ws s1) as [|b r1]; [done|]. destruct (byte_is 125 b); [injection Hl as <- <-; cbn; lia|].
    apply IHm in Hl; lia. }
  do 3 (destruct (has_prefix _ _); [by intros [= <- <-]|]).
  by intros ([l r'] & _ & [= <- <-])%bind_Some.
Qed.

Lemma elements_within fuel : within_depth value node_height fuel → within_depth elements items_height fuel → within_depth elements items_height (S fuel).
Proof.
  intros IHv IHe d s l r Hd. cbn [elements]. intros ([v rest] & Hv%IHv & H)%bind_Some; [|done].
  destruct (skip_ws rest) as [|a r1]; [done|]. destruct (byte_is 44 a).
  - apply bind_Some in H as ([vs r2] & He%IHe & [= <- <-]); [|done]. cbn. unfold items_height in He. lia.
  - destruct (byte_is 93 a); [|done]. injection H as <- <-. cbn. lia.
Qed.

Lemma members_within fuel : within_depth value node_height fuel → within_depth members members_height fuel → within_depth members members_height (S fuel).
Proof.
  intros IHv IHm d s l r Hd. destruct s as [|q s1]; [done|]. cbn [members]. destruct (negb (byte_is 34 q)); [done|].
  intros ([k r0] & _ & H)%bind_Some. destruct (skip_ws r0) as [|c r1]; [done|].
  destruct (negb (byte_is 58 c)); [done|]. apply bind_Some in H as ([v rest] & Hv%IHv & H); [|done].
  destruct (skip_ws rest) as [|a r3]; [done|]. destruct (byte_is 44 a).
  - apply bind_Some in H as ([vs r4] & He%IHm & [= <- <-]); [|done]. cbn. unfold members_height in He. lia.
  - destruct (byte_is 125 a); [|done]. injection H as <- <-. cbn. lia.
Qed.

Lemma parser_within fuel : within_depth value node_height fuel ∧ within_depth elements items_height fuel ∧ within_depth members members_height fuel.
Proof.
  induction fuel as [|fuel (Hv & He & Hm)]; [by split_and!|].
  split_and!; [by apply value_within|by apply elements_within|by apply members_within].
Qed.

(** ** Whole texts *)

Lemma skip_ws_idemp s : skip_ws (skip_ws s) = skip_ws s.
Proof. induction s as [|a s IH]; cbn; [done|]. destruct (json_space a) eqn:E; [done|]. cbn. by rewrite E. Qed.

(** The value a text is, with nothing around it. *)
Definition whole (text : string) : option node :=
  match value (2 * len text + 1) max_depth text with
  | Some (n, EmptyString) => Some n
  | _ => None
  end.

Lemma byte_is_eq n a : byte_is n a = true → a = byte_of n.
Proof.
  unfold byte_is, byte_of. intros H%Nat.eqb_eq. by rewrite <-H, Ascii.ascii_nat_embedding.
Qed.

(** No value starts like white space or like the end of an array or object. *)
Lemma value_head f d s v r : value f d s = Some (v, r) →
  ∃ a s', s = String a s' ∧ json_space a = false ∧ byte_is 93 a = false ∧ byte_is 125 a = false.
Proof.
  destruct f as [|f], s as [|a s1]; try done. intros H. exists a, s1. split; [done|].
  assert (∀ n, n ∈ [32; 9; 13; 10; 93; 125]%nat → byte_is n a = false) as Hn.
  { intros n Hin. destruct (byte_is n a) eqn:E; [|done]. apply byte_is_eq in E as ->. exfalso.
    repeat (apply elem_of_cons in Hin as [->|Hin]; [discriminate H|]). by apply elem_of_nil in Hin. }
  unfold json_space. rewrite !Hn by (repeat constructor). done.
Qed.

(** It is found in front of anything that may follow a value. *)
Lemma whole_found text n u d : whole text = Some n → node_height n <= d → closing u = true →
  ∃ fuel, ∀ fuel', (fuel <= fuel')%nat → value fuel' d (text +:+ u) = Some (n, u).
Proof.
  unfold whole. intros Hw Hd Hu.
  destruct (value (2 * len text + 1) max_depth text) as [[v [|]]|] eqn:Hv; try discriminate Hw. injection Hw as ->.
  pose proof (proj1 (parser_depth _) _ _ _ _ Hv d Hd) as Hv'.
  apply (proj1 (parser_local u Hu _)) in Hv'. rewrite str_app_empty in Hv'.
  exists (2 * len (text +:+ u) + 1)%nat. intros fuel' Hf. by apply (proj1 (parser_settles _)) in Hv' as [_ Hv']; apply Hv'.
Qed.

Lemma whole_head text n : whole text = Some n →
  ∃ a s', text = String a s' ∧ json_space a = false ∧ byte_is 93 a = false ∧ byte_is 125 a = false.
Proof.
  unfold whole. destruct (value _ _ text) as [[v r]|] eqn:Hv; [|done]. intros _. by apply value_head in Hv.
Qed.
