(* ===== verification/GoJsonFacts.v ===== *)
(** * Facts about encoding/json

    What [marshal] writes is read back, text by text, so a decoder sees the
    value that was encoded ([Parse_marshal]). *)

From S2P Require Import Prelude Decimal Money Numeric Utf8 GoJson GoJsonParse.

Open Scope Z_scope.

(** ** Strings *)

Lemma prepend_prepend p q r : prepend p (prepend q r) = prepend (p +:+ q) r.
Proof. destruct r as [[c r]|]; cbn; [|done]. by rewrite str_app_assoc. Qed.

Lemma hex_char_value z : 0 <= z < 16 → hex_value (byte_val (hex_char z)) = Some z.
Proof.
  intros Hz. unfold hex_char. rewrite val_byte_of by (case_match; lia). unfold hex_value.
  destruct (z <? 10) eqn:E.
  - rewrite (proj2 (Z.leb_le 48 (z + 48))), (proj2 (Z.leb_le (z + 48) 57)) by lia. cbn. f_equal. lia.
  - rewrite (proj2 (Z.leb_le 48 (z + 87))), (proj2 (Z.leb_gt (z + 87) 57)) by lia. cbn.
    rewrite (proj2 (Z.leb_le 97 (z + 87))), (proj2 (Z.leb_le (z + 87) 102)) by lia. cbn. f_equal. lia.
Qed.

Lemma hex_char_ascii z : 0 <= z < 16 → byte_val (hex_char z) < 128.
Proof. intros Hz. unfold hex_char. rewrite val_byte_of; case_match; lia. Qed.

Lemma hex_char_digit z : 0 <= z < 16 → is_hex_digit (hex_char z) = true.
Proof. intros Hz. unfold is_hex_digit. rewrite hex_char_value by done. by apply bool_decide_eq_true. Qed.

(** The four digits of [unicode_escape]. *)
Lemma hex_digits r : 0 <= r < 65536 →
  0 <= r / 4096 < 16 ∧ 0 <= r / 256 mod 16 < 16 ∧ 0 <= r / 16 mod 16 < 16 ∧ 0 <= r mod 16 < 16
  ∧ ((r / 4096 * 16 + r / 256 mod 16) * 16 + r / 16 mod 16) * 16 + r mod 16 = r.
Proof. intros Hr. Z.to_euclidean_division_equations. lia. Qed.

Lemma hex4_escape r : 0 <= r < 65536 →
  hex4 (Some (byte_val (hex_char (r / 4096)))) (Some (byte_val (hex_char (r / 256 mod 16))))
       (Some (byte_val (hex_char (r / 16 mod 16)))) (Some (byte_val (hex_char (r mod 16)))) = Some r.
Proof.
  intros (H1 & H2 & H3 & H4 & E)%hex_digits. unfold hex4. cbn [mbind option_bind].
  rewrite !hex_char_value by done. cbn. by rewrite E.
Qed.

Lemma scan_unicode_escape r t : 0 <= r < 65536 →
  scan_string (unicode_escape r +:+ t) = prepend (unicode_escape r) (scan_string t).
Proof.
  intros (H1 & H2 & H3 & H4 & _)%hex_digits. unfold unicode_escape, backslash, chr.
  string_norm. cbn [scan_string].
  change (byte_is 34 (byte_of 92)) with false. change (byte_is 92 (byte_of 92)) with true.
  change (byte_is 117 (Ascii.Ascii _ _ _ _ _ _ _ _)) with true.
  by rewrite !hex_char_digit.
Qed.

Lemma runes_unicode_escape r t : 0 <= r < 65536 → surrogate r = false →
  unescape (runes (unicode_escape r +:+ t)) = r :: unescape (runes t).
Proof.
  intros Hr Hs. pose proof (hex_digits r Hr) as (H1 & H2 & H3 & H4 & _). unfold unicode_escape, backslash, chr.
  string_norm.
  rewrite !runes_ascii by (try apply hex_char_ascii; done).
  cbn [unescape]. change (rune_is 92 (Some (byte_val (byte_of 92)))) with true.
  change (rune_is 117 (Some (byte_val (Ascii.Ascii _ _ _ _ _ _ _ _)))) with true. cbn [negb].
  rewrite hex4_escape by done. cbn [default from_option id]. by rewrite Hs.
Qed.

Lemma scan_bytes l t : Forall (λ z, 32 <= z < 256 ∧ z ≠ 34 ∧ z ≠ 92) l →
  scan_string (bytes l +:+ t) = prepend (bytes l) (scan_string t).
Proof.
  induction 1 as [|z l (Hz & H34 & H92) _ IH]; cbn [bytes foldr].
  - rewrite str_app_empty. by destruct (scan_string t) as [[c r]|].
  - rewrite str_app_cons. cbn [scan_string].
    assert (∀ n, z ≠ Z.of_nat n → byte_is n (val_byte z) = false) as Hne.
    { intros n Hn. unfold byte_is. apply Nat.eqb_neq. intros E. apply Hn. rewrite <-E. symmetry. apply val_byte_of. lia. }
    rewrite !Hne by done. rewrite val_byte_of by lia. rewrite (proj2 (Z.ltb_ge _ _)) by lia.
    fold (bytes l). rewrite IH, prepend_prepend. done.
Qed.

(** Three ways to write a rune. *)
Inductive spelling : option Z → Prop :=
| spelled_hex r z : 0 <= z < 65536 → surrogate z = false → default replacement r = z →
    escape_rune r = unicode_escape z → spelling r
| spelled_short z letter : short_escape z = Some letter → escape_rune (Some z) = backslash +:+ String letter EmptyString →
    spelling (Some z)
| spelled_plain z : scalar z = true → 32 <= z → z ≠ 34 → z ≠ 92 → escape_rune (Some z) = utf8_encode z → spelling (Some z).

Lemma every_spelling r : (∀ z, r = Some z → scalar z = true) → spelling r.
Proof.
  intros Hr. destruct r as [z|]; [|by eapply (spelled_hex None replacement)].
  specialize (Hr z eq_refl). destruct (short_escape z) as [letter|] eqn:E.
  { eapply spelled_short; [exact E|]. cbn. by rewrite E. }
  assert (z ≠ 34 ∧ z ≠ 92) as [H34 H92].
  { unfold short_escape in E. destruct (_ || _) eqn:E' in E; [done|]. lia. }
  unfold scalar, surrogate in Hr.
  destruct ((z <? 32) || (z =? 60) || (z =? 62) || (z =? 38) || (z =? 8232) || (z =? 8233)) eqn:E2.
  - apply (spelled_hex _ z); [lia|unfold surrogate; lia|done|]. cbn. by rewrite E, E2.
  - apply spelled_plain; [unfold scalar, surrogate; lia|lia|done..|]. cbn. by rewrite E, E2.
Qed.

Lemma utf8_bytes_plain z : scalar z = true → 32 <= z → z ≠ 34 → z ≠ 92 →
  Forall (λ b, 32 <= b < 256 ∧ b ≠ 34 ∧ b ≠ 92) (utf8_bytes z).
Proof.
  unfold scalar, utf8_bytes. intros. repeat case_match; repeat constructor; Z.to_euclidean_division_equations; lia.
Qed.

(** The six letters of short escapes. *)
Lemma short_escape_cases z letter : short_escape z = Some letter →
  (z, letter) ∈ [(34, byte_of 34); (92, byte_of 92); (8, byte_of 98); (12, byte_of 102); (10, byte_of 110);
    (13, byte_of 114); (9, byte_of 116)].
Proof.
  unfold short_escape. intros H.
  destruct (_ || _) eqn:E in H.
  { assert (z = 34 ∨ z = 92) as [-> | ->] by lia; injection H as <-; apply list_elem_of_In; vm_compute; auto 10. }
  repeat match type of H with (if z =? ?c then _ else _) = _ =>
    destruct (Z.eqb_spec z c); [subst; injection H as <-; apply list_elem_of_In; vm_compute; auto 10|] end.
  done.
Qed.

Lemma scan_escape_rune r t : (∀ z, r = Some z → scalar z = true) →
  scan_string (escape_rune r +:+ t) = prepend (escape_rune r) (scan_string t).
Proof.
  intros Hr. destruct (every_spelling r Hr) as [r z Hz _ _ ->|z letter Hs ->|z Hs H32 H34 H92 ->].
  - by apply scan_unicode_escape.
  - apply short_escape_cases, list_elem_of_In in Hs. unfold backslash, chr. string_norm.
    repeat (destruct Hs as [[= <- <-]|Hs]; [done|]). done.
  - unfold utf8_encode. rewrite Hs. by apply scan_bytes, utf8_bytes_plain.
Qed.

Lemma unescape_plain z l : z ≠ 92 → unescape (Some z :: l) = z :: unescape l.
Proof. intros Hz. cbn [unescape rune_is]. by rewrite (proj2 (Z.eqb_neq _ _)). Qed.

Lemma runes_escape_rune r t : (∀ z, r = Some z → scalar z = true) →
  unescape (runes (escape_rune r +:+ t)) = default replacement r :: unescape (runes t).
Proof.
  intros Hr. destruct (every_spelling r Hr) as [r z Hz Hsur -> ->|z letter Hs ->|z Hs H32 H34 H92 ->].
  - by apply runes_unicode_escape.
  - apply short_escape_cases, list_elem_of_In in Hs. unfold backslash, chr. string_norm.
    repeat (destruct Hs as [[= <- <-]|Hs]; [by rewrite !runes_ascii by done|]). done.
  - rewrite runes_encode by done. by apply unescape_plain.
Qed.

Lemma scan_escape s t : scan_string (escape s +:+ quote +:+ t) = Some (escape s, t).
Proof.
  unfold escape, runes. induction (runes_from_scalar s 0) as [|r l Hr _ IH]; [done|].
  cbn [texts]. rewrite str_app_assoc, scan_escape_rune, IH by done. done.
Qed.

Lemma unescape_escape s : unescape (runes (escape s)) = default replacement <$> runes s.
Proof.
  unfold escape, runes at 2 3. induction (runes_from_scalar s 0) as [|r l Hr _ IH]; [done|].
  cbn [texts fmap list_fmap]. by rewrite runes_escape_rune, IH by done.
Qed.

(** A string comes back with its stray bytes replaced. *)
Lemma unquote_escape s : unquote (escape s) = sanitize s.
Proof. unfold unquote. by rewrite unescape_escape, sanitize_texts. Qed.

(** ** Numbers *)

Lemma leading_digit s a r : drop_zeros s = String a r → byte_is 48 a = false.
Proof.
  intros Hs. apply byte_is_no. intros Hb. apply (drop_zeros_head _ _ _ Hs).
  rewrite <-(val_byte_val 48 a); [done|]. by rewrite Hb.
Qed.

Lemma number_whole_shown n t : closing t = true → number_whole (show_nonneg n +:+ t) = Some (show_nonneg n, t).
Proof.
  intros Ht. unfold number_whole. rewrite span_digits_app.
  - destruct (show_nonneg n) as [|a ds] eqn:E; [by apply show_nonneg_nonempty in E|].
    destruct (byte_is 48 a) eqn:Ea; [|done]. revert E. unfold show_nonneg.
    destruct (drop_zeros _) as [|b r] eqn:Ed; [by intros [= <- <-]|].
    intros [= -> ->]. apply leading_digit in Ed. congruence.
  - apply show_nonneg_digits.
  - destruct t as [|a r]; [done|]. pose proof (closing_head _ a r Ht eq_refl). rewrite is_digit_byte. lia.
Qed.

Lemma number_fraction_none t : closing t = true → number_fraction t = Some (EmptyString, t).
Proof.
  destruct t as [|a r]; [done|]. intros H%(closing_head _ a r); [|done]. cbn.
  by rewrite byte_is_no by (change (Z.of_nat 46) with 46; lia).
Qed.

Lemma number_exponent_none t : closing t = true → number_exponent t = Some (EmptyString, t).
Proof.
  destruct t as [|a r]; [done|]. intros H%(closing_head _ a r); [|done]. cbn.
  rewrite (byte_is_no 101) by (change (Z.of_nat 101) with 101; lia).
  by rewrite (byte_is_no 69) by (change (Z.of_nat 69) with 69; lia).
Qed.

Lemma scan_format_int z t : closing t = true → scan_number (format_int z +:+ t) = Some (format_int z, t).
Proof.
  intros Ht. unfold format_int, scan_number. destruct (z <? 0).
  - string_norm. change (number_sign (String _ ?x)) with ("-"%string, x). cbv beta iota.
    rewrite number_whole_shown by done. cbn [mbind option_bind].
    rewrite number_fraction_none by done. cbn [mbind option_bind].
    rewrite number_exponent_none by done. cbn [mbind option_bind]. string_norm. by rewrite str_app_nil_r.
  - assert (number_sign (show_nonneg z +:+ t) = (EmptyString, show_nonneg z +:+ t)) as ->.
    { pose proof (show_nonneg_digits z) as Hd. destruct (show_nonneg z) as [|a r] eqn:E; [by apply show_nonneg_nonempty in E|].
      string_norm. cbn in *. apply andb_true_iff in Hd as [Ha _]. rewrite is_digit_byte in Ha.
      by rewrite byte_is_no by (change (Z.of_nat 45) with 45; lia). }
    rewrite number_whole_shown by done. cbn [mbind option_bind].
    rewrite number_fraction_none by done. cbn [mbind option_bind].
    rewrite number_exponent_none by done. cbn [mbind option_bind]. string_norm. by rewrite str_app_nil_r.
Qed.

Lemma format_int_head z : ∃ a r, format_int z = String a r ∧ (byte_val a = 45 ∨ 48 <= byte_val a <= 57).
Proof.
  unfold format_int. destruct (z <? 0).
  - string_norm. eexists _, _. split; [done|]. by left.
  - pose proof (show_nonneg_digits z) as Hd. destruct (show_nonneg z) as [|a r] eqn:E; [by apply show_nonneg_nonempty in E|].
    cbn in Hd. apply andb_true_iff in Hd as [Ha _]. rewrite is_digit_byte in Ha. exists a, r. split; [done|]. lia.
Qed.

(** ** Values *)

Section govalue_induction.
  Context (P : govalue → Prop).
  Hypotheses (Hnull : P VNull) (Hbool : ∀ b, P (VBool b)) (Hint : ∀ z, P (VInt z)) (Hnumber : ∀ t, P (VNumber t))
    (Hstring : ∀ s, P (VString s)) (Hraw : ∀ s, P (VRaw s))
    (Harray : ∀ l, Forall P l → P (VArray l)) (Hobject : ∀ l, Forall (λ kv, P kv.2) l → P (VObject l)).

Fixpoint govalue_nested (v : govalue) : P v :=
  match v with
  | VNull => Hnull | VBool b => Hbool b | VInt z => Hint z | VNumber t => Hnumber t | VString s => Hstring s | VRaw s => Hraw s
  | VArray l => Harray l ((fix go l : Forall P l :=
      match l with [] => @List.Forall_nil _ P | x :: l => @List.Forall_cons _ P x l (govalue_nested x) (go l) end) l)
  | VObject l => Hobject l ((fix go l : Forall (λ kv, P kv.2) l :=
      match l with [] => @List.Forall_nil _ _ | x :: l => @List.Forall_cons _ (λ kv, P kv.2) x l (govalue_nested x.2) (go l) end) l)
  end.
End govalue_induction.

(** What a [RawMessage] is written as: a nil one as null. *)
Definition raw_node (text : string) : option node := if String.eqb text "" then Some NNull else whole (compact text).

(** The text of [marshal v], taken apart, when the numbers and [RawMessage]s in
    it are well formed. *)
Fixpoint node_of (v : govalue) : node :=
  match v with
  | VNull => NNull
  | VBool b => NBool b
  | VInt z => NNumber (format_int z)
  | VNumber literal => NNumber literal
  | VRaw text => default NNull (raw_node text)
  | VString s => NString (escape s)
  | VArray l => NArray (marshal v) (node_of <$> l)
  | VObject l => NObject (marshal v) ((λ kv, (escape kv.1, node_of kv.2)) <$> l)
  end.

Fixpoint plain (v : govalue) : bool :=
  match v with
  | VRaw text => bool_decide (is_Some (raw_node text))
  | VNumber literal => bool_decide (scan_number literal = Some (literal, EmptyString))
  | VArray l => forallb plain l
  | VObject l => forallb (λ kv, plain kv.2) l
  | _ => true
  end.

Fixpoint height (v : govalue) : Z :=
  match v with
  | VArray l => 1 + foldr (λ x h, height x `max` h) 0 l
  | VObject l => 1 + foldr (λ kv h, height kv.2 `max` h) 0 l
  | VRaw text => node_height (default NNull (raw_node text))
  | _ => 0
  end.

(** The parser finds [v] in front of whatever may follow it. *)
Definition found (v : govalue) : Prop := ∀ d t, height v <= d → closing t = true →
  ∃ fuel, ∀ fuel', (fuel <= fuel')%nat → value fuel' d (marshal v +:+ t) = Some (node_of v, t).

Lemma taken_app s t : taken (s +:+ t) t = s.
Proof.
  unfold taken. rewrite str_length_app. replace (_ - _)%nat with (String.length s) by lia.
  induction s as [|a s IH]; string_norm; cbn; [by destruct t|]. by rewrite IH.
Qed.

Lemma taken_wrapped a b s t : taken (String a (s +:+ String b t)) t = String a (s +:+ String b EmptyString).
Proof.
  rewrite <-(taken_app (String a (s +:+ String b EmptyString)) t). f_equal.
  by rewrite str_app_cons, str_app_assoc, str_app_cons, str_app_empty.
Qed.

Lemma number_byte a : byte_val a = 45 ∨ 48 <= byte_val a <= 57 →
  ∀ n, n ∈ [32; 9; 13; 10; 93; 125; 34; 91; 123]%nat → byte_is n a = false.
Proof.
  intros Ha n Hn. apply byte_is_no. intros E. rewrite E in Ha.
  repeat (apply elem_of_cons in Hn as [->|Hn]; [lia|]). by apply elem_of_nil in Hn.
Qed.

Lemma marshal_head v : plain v = true → ∃ a r, marshal v = String a r
  ∧ json_space a = false ∧ byte_is 93 a = false ∧ byte_is 125 a = false.
Proof.
  assert (∀ a (r : string), byte_val a = 45 ∨ 48 <= byte_val a <= 57 → ∃ a' r', String a r = String a' r'
    ∧ json_space a' = false ∧ byte_is 93 a' = false ∧ byte_is 125 a' = false) as Hnum.
  { intros a r Ha. exists a, r. pose proof (number_byte a Ha). unfold json_space. split; [done|]. rewrite !H by (repeat constructor). done. }
  destruct v as [|[]|z|l|s|s|l|l]; intros Hp; cbn [marshal]; try done; try (by eexists _, _; split_and!).
  - destruct (format_int_head z) as (a & r & -> & Ha). by apply Hnum.
  - cbn [plain] in Hp. apply bool_decide_eq_true in Hp. destruct l as [|a l]; [done|].
    apply scan_number_head in Hp. by apply Hnum.
  - cbn [plain] in Hp. apply bool_decide_eq_true in Hp as [n Hn]. unfold raw_node in Hn.
    destruct (String.eqb s ""); [by eexists _, _; split_and!|]. by eapply whole_head.
Qed.

Lemma skip_ws_marshal v t : plain v = true → skip_ws (marshal v +:+ t) = marshal v +:+ t.
Proof. intros (a & r & -> & Ha & _)%marshal_head. string_norm. cbn. by rewrite Ha. Qed.

Lemma value_number f d a s : byte_val a = 45 ∨ 48 <= byte_val a <= 57 →
  value (S f) d (String a s) = '(literal, rest) ← scan_number (String a s); Some (NNumber literal, rest).
Proof.
  intros Ha. cbn [value]. pose proof (number_byte a Ha) as Hn. rewrite !Hn by (repeat constructor).
  assert (∀ b p, byte_val b ≠ 45 → 58 <= byte_val b → has_prefix (String b p) (String a s) = false) as Hp.
  { intros b p ??. apply literal_not. lia. }
  rewrite !Hp by (vm_compute; discriminate). done.
Qed.

Lemma found_literals v : plain v = true → match v with VArray _ | VObject _ => False | _ => True end → found v.
Proof.
  destruct v as [|b|z|l|s|s|l|l]; intros Hp Hv; try done; intros d t Hd Ht.
  - exists 1%nat. intros [|f] Hf; [lia|]. cbn [marshal value]. string_norm. done.
  - exists 1%nat. intros [|f] Hf; [lia|]. destruct b; cbn [marshal]; string_norm; done.
  - exists 1%nat. intros [|f] Hf; [lia|]. cbn [marshal]. pose proof (scan_format_int z t Ht) as Hs.
    destruct (format_int_head z) as (a & r & E & Ha). rewrite E in *. string_norm. rewrite str_app_cons in Hs.
    rewrite value_number, Hs by done. cbn. by rewrite E.
  - exists 1%nat. intros [|f] Hf; [lia|]. cbn [marshal]. cbn [plain] in Hp. apply bool_decide_eq_true in Hp.
    destruct l as [|a l]; [done|]. pose proof (scan_number_head _ _ _ _ Hp).
    apply (scan_number_local t Ht) in Hp. rewrite str_app_cons, value_number by done. rewrite str_app_cons in Hp. by rewrite Hp.
  - exists 1%nat. intros [|f] Hf; [lia|]. cbn [marshal]. unfold quoted. change quote with (String (byte_of 34) EmptyString) at 1. string_norm.
    cbn [value]. change (byte_is 34 (byte_of 34)) with true. cbv beta iota.
    rewrite str_app_assoc, scan_escape. done.
  - cbn [plain] in Hp. apply bool_decide_eq_true in Hp as [n Hn]. cbn [height] in Hd. rewrite Hn in Hd. cbn [default] in Hd.
    cbn [marshal node_of]. rewrite Hn. cbn [default]. unfold raw_node in Hn. destruct (String.eqb s "").
    + injection Hn as <-. exists 1%nat. intros [|f] Hf; [lia|]. cbn [value]. string_norm. done.
    + by eapply whole_found.
Qed.

Lemma separated_front {A} (f : A → string) x l : ∃ u, separated f (x :: l) = f x +:+ u.
Proof. destruct l as [|y l]; cbn [separated]; [exists EmptyString; by rewrite str_app_nil_r|by eexists]. Qed.

Lemma separated_skip l u : Forall (λ v, plain v = true) l → l ≠ [] →
  skip_ws (separated marshal l +:+ u) = separated marshal l +:+ u.
Proof.
  intros Hp Hne. destruct l as [|x l]; [done|]. apply list.Forall_cons in Hp as [Hx _].
  destruct (separated_front marshal x l) as [w ->]. rewrite str_app_assoc. by apply skip_ws_marshal.
Qed.

(** One element, and what comes after it. *)
Lemma elements_step f d v s a r : value f d s = Some (v, String a r) → json_space a = false →
  elements (S f) d s = if byte_is 44 a then '(vs, rest) ← elements f d (skip_ws r); Some (v :: vs, rest)
                       else if byte_is 93 a then Some ([v], r) else None.
Proof. intros Hv Ha. cbn [elements]. rewrite Hv. cbn [mbind option_bind skip_ws]. by rewrite Ha. Qed.

Lemma found_elements l : l ≠ [] → Forall found l → Forall (λ v, plain v = true) l →
  ∀ d t, Forall (λ v, height v <= d) l →
  ∃ fuel, ∀ fuel', (fuel <= fuel')%nat →
    elements fuel' d (separated marshal l +:+ "]" +:+ t) = Some (node_of <$> l, t).
Proof.
  intros Hne Hf Hp d t. induction Hf as [|x l Hx Hl IH]; intros Hh; [done|].
  apply list.Forall_cons in Hp as [Hpx Hp], Hh as [Hhx Hh].
  destruct l as [|y l].
  - destruct (Hx d ("]" +:+ t) Hhx eq_refl) as [fuel Hfuel]. exists (S fuel). intros [|f] Hf'; [lia|].
    cbn [separated]. by erewrite elements_step by (try apply Hfuel; done || lia).
  - destruct (IH ltac:(done) Hp Hh) as [f1 H1].
    destruct (Hx d ("," +:+ separated marshal (y :: l) +:+ "]" +:+ t) Hhx eq_refl) as [f2 H2].
    exists (S (f1 `max` f2)). intros [|f] Hf'; [lia|].
    change (separated marshal (x :: y :: l)) with (marshal x +:+ "," +:+ separated marshal (y :: l)).
    rewrite !str_app_assoc.
    rewrite (elements_step f d (node_of x) _ (byte_of 44) (separated marshal (y :: l) +:+ "]" +:+ t))
      by (try apply H2; done || lia).
    change (byte_is 44 _) with true. cbv beta iota. rewrite separated_skip by done. by rewrite H1 by lia.
Qed.

Definition member (kv : string * govalue) : string := quoted (escape kv.1) +:+ ":" +:+ marshal kv.2.

Lemma members_step f d k v s a r : plain v = true → value f d (marshal v +:+ s) = Some (node_of v, String a r) → json_space a = false →
  members (S f) d (member (k, v) +:+ s)
  = if byte_is 44 a then '(kvs, rest) ← members f d (skip_ws r); Some ((escape k, node_of v) :: kvs, rest)
    else if byte_is 125 a then Some ([(escape k, node_of v)], r) else None.
Proof.
  intros Hp Hv Ha. unfold member, quoted. cbn [fst snd].
  change quote with (String (byte_of 34) EmptyString) at 1. string_norm. cbn [members].
  change (byte_is 34 (byte_of 34)) with true. cbn [negb].
  rewrite !str_app_assoc, scan_escape. cbn [mbind option_bind]. string_norm. cbn [skip_ws].
  change (json_space _) with false at 1. cbv beta iota. change (byte_is 58 _) with true. cbn [negb].
  rewrite skip_ws_marshal, Hv by done. cbn [mbind option_bind skip_ws]. by rewrite Ha.
Qed.

Lemma found_members l : l ≠ [] → Forall (λ kv, found kv.2) l → Forall (λ kv, plain kv.2 = true) l →
  ∀ d t, Forall (λ kv, height kv.2 <= d) l →
  ∃ fuel, ∀ fuel', (fuel <= fuel')%nat →
    members fuel' d (separated member l +:+ "}" +:+ t) = Some ((λ kv, (escape kv.1, node_of kv.2)) <$> l, t).
Proof.
  intros Hne Hf Hp d t. induction Hf as [|[k x] l Hx Hl IH]; intros Hh; [done|].
  apply list.Forall_cons in Hp as [Hpx Hp], Hh as [Hhx Hh]. cbn [snd] in *.
  destruct l as [|y l].
  - destruct (Hx d ("}" +:+ t) Hhx eq_refl) as [fuel Hfuel]. exists (S fuel). intros [|f] Hf'; [lia|].
    cbn [separated]. by erewrite members_step by (try apply Hfuel; done || lia).
  - destruct (IH ltac:(done) Hp Hh) as [f1 H1].
    destruct (Hx d ("," +:+ separated member (y :: l) +:+ "}" +:+ t) Hhx eq_refl) as [f2 H2].
    exists (S (f1 `max` f2)). intros [|f] Hf'; [lia|].
    change (separated member ((k, x) :: y :: l)) with (member (k, x) +:+ "," +:+ separated member (y :: l)).
    rewrite !str_app_assoc.
    rewrite (members_step f d k x _ (byte_of 44) (separated member (y :: l) +:+ "}" +:+ t))
      by (try apply H2; done || lia).
    change (byte_is 44 _) with true. cbv beta iota.
    assert (skip_ws (separated member (y :: l) +:+ "}" +:+ t) = separated member (y :: l) +:+ "}" +:+ t) as ->.
    { destruct (separated_front member y l) as [w ->]. done. }
    by rewrite H1 by lia.
Qed.

Lemma height_nonneg v : 0 <= height v.
Proof. destruct v as [| | | | |s|l|l]; cbn [height]; try lia; [apply node_height_nonneg|..]; induction l as [|x l IH]; cbn [foldr]; lia. Qed.

Lemma height_all {A} (h : A → Z) l n : foldr (λ x m, h x `max` m) 0 l <= n → Forall (λ x, h x <= n) l.
Proof. induction l as [|x l IH]; cbn; intros Hn; constructor; [lia|]. apply IH. lia. Qed.

Lemma value_array f d s items rest : 0 < d →
  (match skip_ws s with
   | String b r => if byte_is 93 b then Some ([], r) else elements f (d - 1) (String b r)
   | EmptyString => None end) = Some (items, rest) →
  value (S f) d (String (byte_of 91) s) = Some (NArray (taken (String (byte_of 91) s) rest) items, rest).
Proof.
  intros Hd H. cbn [value]. change (byte_is 34 (byte_of 91)) with false. change (byte_is 91 (byte_of 91)) with true.
  cbv beta iota. rewrite (proj2 (Z.leb_gt d 0)) by lia. by rewrite H.
Qed.

Lemma value_object f d s fields rest : 0 < d →
  (match skip_ws s with
   | String b r => if byte_is 125 b then Some ([], r) else members f (d - 1) (String b r)
   | EmptyString => None end) = Some (fields, rest) →
  value (S f) d (String (byte_of 123) s) = Some (NObject (taken (String (byte_of 123) s) rest) fields, rest).
Proof.
  intros Hd H. cbn [value]. change (byte_is 34 (byte_of 123)) with false. change (byte_is 91 (byte_of 123)) with false.
  change (byte_is 123 (byte_of 123)) with true.
  cbv beta iota. rewrite (proj2 (Z.leb_gt d 0)) by lia. by rewrite H.
Qed.

Lemma found_array l : Forall found l → forallb plain l = true → found (VArray l).
Proof.
  intros Hf Hp d t Hd Ht. cbn [height] in Hd.
  assert (0 < d) by (pose proof (height_nonneg (VArray l)); cbn [height] in *; destruct l; cbn [foldr] in *; [lia|pose proof (height_nonneg g); lia]).
  assert (∃ fuel, ∀ f, (fuel <= f)%nat →
    match skip_ws (separated marshal l +:+ "]" +:+ t) with
    | String b r => if byte_is 93 b then Some ([], r) else elements f (d - 1) (String b r)
    | EmptyString => None end = Some (node_of <$> l, t)) as [fuel Hfuel].
  { destruct l as [|x l].
    - exists 0%nat. done.
    - pose proof (proj1 (forallb_Forall _ _) Hp) as HP.
      destruct (found_elements (x :: l) ltac:(done) Hf HP (d - 1) t) as [fuel Hfuel]; [apply height_all; lia|].
      exists fuel. intros f Hle. specialize (Hfuel f Hle). rewrite separated_skip by done.
      apply list.Forall_cons in HP as [(a & r & E & _ & H93 & _)%marshal_head _].
      destruct (separated_front marshal x l) as [w Ew]. rewrite Ew, E in *. rewrite str_app_assoc in *.
      rewrite str_app_cons in *. by rewrite H93. }
  exists (S fuel). intros [|f] Hf'; [lia|]. cbn [marshal node_of].
  rewrite !str_app_assoc. string_norm. erewrite (value_array f d) by (try apply Hfuel; lia).
  do 3 f_equal. apply taken_wrapped.
Qed.

Lemma found_object l : Forall (λ kv, found kv.2) l → forallb (λ kv, plain kv.2) l = true → found (VObject l).
Proof.
  intros Hf Hp d t Hd Ht. cbn [height] in Hd.
  assert (0 < d) by (pose proof (height_nonneg (VObject l)); cbn [height] in *; destruct l; cbn [foldr] in *; [lia|pose proof (height_nonneg p.2); lia]).
  assert (∃ fuel, ∀ f, (fuel <= f)%nat →
    match skip_ws (separated member l +:+ "}" +:+ t) with
    | String b r => if byte_is 125 b then Some ([], r) else members f (d - 1) (String b r)
    | EmptyString => None end = Some ((λ kv, (escape kv.1, node_of kv.2)) <$> l, t)) as [fuel Hfuel].
  { destruct l as [|x l].
    - exists 0%nat. done.
    - pose proof (proj1 (forallb_Forall _ _) Hp) as HP.
      destruct (found_members (x :: l) ltac:(done) Hf HP (d - 1) t) as [fuel Hfuel]; [apply (height_all (λ kv, height kv.2)); lia|].
      exists fuel. intros f Hle. specialize (Hfuel f Hle).
      destruct (separated_front member x l) as [w Ew]. rewrite Ew in *. exact Hfuel. }
  exists (S fuel). intros [|f] Hf'; [lia|]. cbn [marshal node_of]. fold member.
  rewrite !str_app_assoc. string_norm. erewrite (value_object f d) by (try apply Hfuel; lia).
  do 3 f_equal. apply taken_wrapped.
Qed.

Lemma all_found v : plain v = true → found v.
Proof.
  induction v as [| | | | | |l IH|l IH] using govalue_nested; intros Hp; try (by apply found_literals);
    cbn [plain] in Hp; [apply found_array|apply found_object]; try done;
    pose proof (proj1 (forallb_Forall _ _) Hp) as HP; rewrite list.Forall_forall in *; auto.
Qed.

(** What [marshal] writes, [Parse] takes apart as it was put together. *)
Lemma Parse_marshal v : plain v = true → height v <= max_depth → Parse (marshal v) = Some (node_of v).
Proof.
  intros Hp Hh. destruct (all_found v Hp max_depth EmptyString Hh eq_refl) as [fuel Hf].
  specialize (Hf fuel (Nat.le_refl _)). pose proof (skip_ws_marshal v EmptyString Hp) as Hs.
  rewrite str_app_nil_r in *. unfold Parse. rewrite Hs. apply value_fuel in Hf. rewrite Hf. done.
Qed.

(** However deep [v] is: if its text parses, it parses as [v]. *)
Lemma Parse_marshal_inv v n : plain v = true → Parse (marshal v) = Some n → n = node_of v.
Proof.
  intros Hp H. destruct (all_found v Hp (height v `max` max_depth) EmptyString) as [fuel Hf]; [lia|done|].
  pose proof (skip_ws_marshal v EmptyString Hp) as Hs. rewrite str_app_nil_r in *. unfold Parse in H. rewrite Hs in H.
  apply bind_Some in H as ([n' r] & Hv & Hn). destruct (String.eqb _ _); [|done]. injection Hn as ->.
  assert (0 <= max_depth)%Z as Hmax by done.
  pose proof (proj1 (parser_within _) max_depth _ _ _ Hmax Hv).
  pose proof (proj1 (parser_depth _) _ _ _ _ Hv (height v `max` max_depth) ltac:(lia)) as Hv'.
  specialize (Hf fuel (Nat.le_refl _)). apply value_fuel in Hf. apply value_fuel in Hv'. congruence.
Qed.

(** * What [marshal] writes, written again

    A value without [RawMessage]s is already compact: a [RawMessage] that holds
    its text is written as it is, and read as that value ([raw_node_marshal]). *)

Open Scope Z_scope.

(** ** [compact] changes nothing *)

(** Bytes that mean nothing outside strings. *)
Definition inert (a : Ascii.ascii) : bool :=
  negb (json_space a || byte_is 34 a || byte_is 60 a || byte_is 62 a || byte_is 38 a).

Lemma compact_inert s t : str_forallb inert s = true → compact_from false false (s +:+ t) = s +:+ compact_from false false t.
Proof.
  induction s as [|a s IH]; [done|]. cbn [str_forallb]. intros [Ha Hs]%andb_true_iff.
  unfold inert in Ha. apply negb_true_iff in Ha. repeat apply orb_false_iff in Ha as [Ha ?].
  rewrite str_app_cons. cbn [compact_from]. unfold json_space.
  repeat match goal with H : _ = false |- _ => rewrite H; clear H end. cbn [orb].
  rewrite IH by done. by string_norm.
Qed.

(** One byte inside a string. *)
Lemma compact_in e a t : byte_is 226 a = false → byte_is 60 a || byte_is 62 a || byte_is 38 a = false →
  compact_from true e (String a t) = String a (compact_from (e || negb (byte_is 34 a)) (negb e && byte_is 92 a) t).
Proof. intros H226 Hh. cbn [compact_from]. rewrite H226, Hh. cbn [andb]. by destruct t as [|b [|c u]]. Qed.

Lemma compact_escaped b t : byte_is 226 b = false → byte_is 60 b || byte_is 62 b || byte_is 38 b = false →
  compact_from true false (String (byte_of 92) (String b t)) = String (byte_of 92) (String b (compact_from true false t)).
Proof. intros H226 Hh. rewrite compact_in by done. by rewrite compact_in. Qed.

(** A byte that is neither escaped nor the start of U+2028. *)
Lemma compact_byte z t : 32 <= z < 256 → z ≠ 34 → z ≠ 92 → z ≠ 60 → z ≠ 62 → z ≠ 38 →
  (z = 226 → ∀ b c u, t = String b (String c u) → byte_val b = 128 → byte_val c ≠ 168 ∧ byte_val c ≠ 169) →
  compact_from true false (String (val_byte z) t) = String (val_byte z) (compact_from true false t).
Proof.
  intros Hz H34 H92 H60 H62 H38 H226.
  assert (∀ n, z ≠ Z.of_nat n → byte_is n (val_byte z) = false) as Hn.
  { intros n Hn. apply byte_is_no. by rewrite val_byte_of by lia. }
  destruct (decide (z = 226)) as [->|Hne]; [|by rewrite compact_in, !Hn by (rewrite ?Hn; done)].
  cbn [compact_from]. rewrite !Hn by done. cbn [orb andb negb].
  destruct t as [|b [|c u]]; try done.
  destruct (byte_is 226 _) eqn:E1; [|done].
  destruct (byte_is 128 b) eqn:E2; [|done]. apply byte_is_val in E2.
  destruct (H226 eq_refl b c u eq_refl E2) as [H1 H2].
  by rewrite (byte_is_no 168), (byte_is_no 169) by done.
Qed.

Lemma compact_hex r t : 0 <= r < 65536 → compact_from true false (unicode_escape r +:+ t) = unicode_escape r +:+ compact_from true false t.
Proof.
  intros (H1 & H2 & H3 & H4 & _)%hex_digits. unfold unicode_escape, backslash, chr. string_norm.
  assert (∀ z u, 0 <= z < 16 → compact_from true false (String (hex_char z) u) = String (hex_char z) (compact_from true false u)) as Hd.
  { intros z u Hz. unfold hex_char. apply compact_byte; case_match; try lia; intros; lia. }
  rewrite compact_escaped by done. by rewrite !Hd.
Qed.

Lemma compact_rune r t : (∀ z, r = Some z → scalar z = true) →
  compact_from true false (escape_rune r +:+ t) = escape_rune r +:+ compact_from true false t.
Proof.
  intros Hr. destruct (every_spelling r Hr) as [r z Hz _ _ ->|z letter Hs ->|z Hs H32 H34 H92 E].
  - by apply compact_hex.
  - apply short_escape_cases, list_elem_of_In in Hs. unfold backslash, chr. string_norm.
    repeat (destruct Hs as [[= <- <-]|Hs]; [by apply compact_escaped|]). done.
  - rewrite E. assert (z ≠ 60 ∧ z ≠ 62 ∧ z ≠ 38 ∧ z ≠ 8232 ∧ z ≠ 8233) as (? & ? & ? & ? & ?).
    { split_and!; intros ->; discriminate E. }
    unfold utf8_encode. rewrite Hs. unfold scalar, surrogate in Hs.
    unfold utf8_bytes. destruct (z <? 128) eqn:E1; [|destruct (z <? 2048) eqn:E2; [|destruct (z <? 65536) eqn:E3]];
      cbn [bytes foldr]; string_norm; rewrite !compact_byte; try done;
      try (Z.to_euclidean_division_equations; lia);
      intros H226 b c u Hu Hb; try (Z.to_euclidean_division_equations; lia).
    injection Hu as <- <- <-. rewrite val_byte_of in * by (Z.to_euclidean_division_equations; lia).
    Z.to_euclidean_division_equations; lia.
Qed.

Lemma compact_string s t : compact_from false false (quoted (escape s) +:+ t) = quoted (escape s) +:+ compact_from false false t.
Proof.
  unfold quoted. change quote with (String (byte_of 34) EmptyString) at 1 3. string_norm.
  change (compact_from false false (String (byte_of 34) ?x)) with (String (byte_of 34) (compact_from true false x)).
  f_equal. unfold escape, runes. induction (runes_from_scalar s 0) as [|r l Hr _ IH]; cbn [texts].
  { unfold quote, chr. string_norm. cbn [compact_from]. change (byte_is 226 (byte_of 34)) with false. by destruct t as [|b [|c u]]. }
  rewrite !str_app_assoc in *. by rewrite compact_rune, IH by done.
Qed.

(** No [RawMessage]s, and numbers that are numbers. *)
Fixpoint rawless (v : govalue) : bool :=
  match v with
  | VRaw _ => false
  | VNumber literal => bool_decide (scan_number literal = Some (literal, EmptyString)) && str_forallb inert literal
  | VArray l => forallb rawless l
  | VObject l => forallb (λ kv, rawless kv.2) l
  | _ => true
  end.

Lemma digits_inert s : str_forallb is_digit s = true → str_forallb inert s = true.
Proof.
  induction s as [|a s IH]; [done|]. cbn [str_forallb]. intros [Ha Hs]%andb_true_iff. rewrite IH by done.
  rewrite is_digit_byte in Ha. unfold inert, json_space.
  rewrite !byte_is_no by (repeat match goal with |- context [Z.of_nat ?n] => let z := eval compute in (Z.of_nat n) in change (Z.of_nat n) with z end; lia).
  done.
Qed.

Lemma format_int_inert z : str_forallb inert (format_int z) = true.
Proof.
  unfold format_int. pose proof (digits_inert _ (show_nonneg_digits z)). pose proof (digits_inert _ (show_nonneg_digits (- z))).
  destruct (z <? 0); [|done]. string_norm. cbn [str_forallb]. by apply andb_true_iff.
Qed.

Lemma compact_separated {A} (f : A → string) l t :
  Forall (λ x, ∀ t, compact_from false false (f x +:+ t) = f x +:+ compact_from false false t) l →
  compact_from false false (separated f l +:+ t) = separated f l +:+ compact_from false false t.
Proof.
  induction 1 as [|x l Hx Hl IH]; [done|]. destruct l as [|y l]; cbn [separated]; [apply Hx|].
  rewrite !str_app_assoc, Hx, (compact_inert ",") by done. f_equal. f_equal. exact IH.
Qed.

Lemma compact_marshal v : rawless v = true → ∀ t, compact_from false false (marshal v +:+ t) = marshal v +:+ compact_from false false t.
Proof.
  induction v as [|[]|z|n|s|s|l IH|l IH] using govalue_nested; intros Hv t; cbn [marshal].
  - by rewrite compact_inert.
  - by rewrite compact_inert.
  - by rewrite compact_inert.
  - by rewrite compact_inert by apply format_int_inert.
  - cbn in Hv. apply andb_true_iff in Hv as [_ Hv]. by rewrite compact_inert.
  - apply compact_string.
  - done.
  - rewrite !str_app_assoc, compact_inert by done. rewrite compact_separated, compact_inert; [done|done|].
    cbn in Hv. pose proof (proj1 (forallb_Forall _ _) Hv) as HP. rewrite list.Forall_forall in *; auto.
  - rewrite !str_app_assoc, compact_inert by done. rewrite compact_separated, compact_inert; [done|done|].
    cbn in Hv. pose proof (proj1 (forallb_Forall _ _) Hv) as HP. rewrite list.Forall_forall in *. intros kv Hkv u.
    rewrite !str_app_assoc, compact_string, compact_inert by done. rewrite IH by auto. done.
Qed.

Lemma compact_idle v : rawless v = true → compact (marshal v) = marshal v.
Proof. intros Hv. pose proof (compact_marshal v Hv EmptyString) as H. by rewrite !str_app_nil_r in H. Qed.

(** ** Read as the same value *)

Lemma rawless_plain v : rawless v = true → plain v = true.
Proof.
  induction v as [| | | | | |l IH|l IH] using govalue_nested; intros Hv; cbn in *; try done.
  - by apply andb_true_iff in Hv as [Hv _].
  - apply forallb_Forall in Hv. apply forallb_Forall. rewrite list.Forall_forall in *. auto.
  - apply forallb_Forall in Hv. apply forallb_Forall. rewrite list.Forall_forall in *. auto.
Qed.

Lemma node_text_marshal v : rawless v = true → node_text (node_of v) = marshal v.
Proof. by destruct v as [|[]| | | | | |]. Qed.

Lemma whole_marshal v : plain v = true → height v <= max_depth → whole (marshal v) = Some (node_of v).
Proof.
  intros Hp Hh. destruct (all_found v Hp max_depth EmptyString Hh eq_refl) as [fuel Hf].
  specialize (Hf fuel (Nat.le_refl _)). rewrite str_app_nil_r in Hf. apply value_fuel in Hf. unfold whole. by rewrite Hf.
Qed.

(** A [RawMessage] that [json.Marshal] made. *)
Lemma raw_node_marshal v : rawless v = true → height v <= max_depth → raw_node (marshal v) = Some (node_of v).
Proof.
  intros Hv Hh. pose proof (rawless_plain v Hv) as Hp. unfold raw_node. rewrite compact_idle by done.
  destruct (marshal_head v Hp) as (a & r & E & _). rewrite E at 1. cbn [String.eqb]. by apply whole_marshal.
Qed.
