(* ===== verification/Protokit.v ===== *)
(** * The protocol boundary

    pkg/protokit: the protocols a gateway speaks, and the usage it finds in a
    response. *)

From S2P Require Import Prelude Decimal Utf8 GoJson.

Open Scope Z_scope.

Inductive Protocol := OpenAIChat | OpenAIResponses | AnthropicMessages | GeminiGenerate.
#[export] Instance Protocol_eq_dec : EqDecision Protocol.
Proof. solve_decision. Defined.

Definition protocol_name (p : Protocol) : string :=
  match p with
  | OpenAIChat => "openai_chat"
  | OpenAIResponses => "openai_responses"
  | AnthropicMessages => "anthropic_messages"
  | GeminiGenerate => "gemini_generate"
  end.

Definition protocol_named (s : string) : option Protocol :=
  list.head (filter (λ p, protocol_name p = s) [OpenAIChat; OpenAIResponses; AnthropicMessages; GeminiGenerate]).

Record usage := { Input : Z; Output : Z; CacheRead : Z; CacheWrite : Z }.

(** ** ParseUsage *)

Record gemini_usage := { PromptTokenCount : Z; CandidatesTokenCount : Z; CachedContentTokenCount : Z }.

Definition decode_gemini_usage : decoder gemini_usage :=
  d_struct
    [("promptTokenCount", into PromptTokenCount (λ v u, {| PromptTokenCount := v;
        CandidatesTokenCount := CandidatesTokenCount u; CachedContentTokenCount := CachedContentTokenCount u |}) d_int);
     ("candidatesTokenCount", into CandidatesTokenCount (λ v u, {| PromptTokenCount := PromptTokenCount u;
        CandidatesTokenCount := v; CachedContentTokenCount := CachedContentTokenCount u |}) d_int);
     ("cachedContentTokenCount", into CachedContentTokenCount (λ v u, {| PromptTokenCount := PromptTokenCount u;
        CandidatesTokenCount := CandidatesTokenCount u; CachedContentTokenCount := v |}) d_int)]%string.

(** The variable of [json:"usageMetadata"], a pointer. *)
Definition decode_gemini_body : decoder (option gemini_usage) :=
  d_struct [("usageMetadata", d_pointer {| PromptTokenCount := 0; CandidatesTokenCount := 0; CachedContentTokenCount := 0 |}
                                decode_gemini_usage)]%string.

Record raw_usage := {
  PromptTokens : Z; CompletionTokens : Z; InputTokens : Z; OutputTokens : Z;
  CacheReadInputTokens : Z; CacheWriteInputTokens : Z;
  PromptDetails : option Z; InputDetails : option Z     (* cached_tokens *)
}.

Definition zero_usage : raw_usage := {| PromptTokens := 0; CompletionTokens := 0; InputTokens := 0; OutputTokens := 0;
  CacheReadInputTokens := 0; CacheWriteInputTokens := 0; PromptDetails := None; InputDetails := None |}.

Definition decode_details : decoder (option Z) := d_pointer 0 (d_struct [("cached_tokens", d_int)]%string).

Definition decode_raw_usage : decoder raw_usage :=
  let set_counts f := λ v u, let '(p, c, i, o, r, w) := f v (PromptTokens u, CompletionTokens u, InputTokens u,
      OutputTokens u, CacheReadInputTokens u, CacheWriteInputTokens u) in
    {| PromptTokens := p; CompletionTokens := c; InputTokens := i; OutputTokens := o;
       CacheReadInputTokens := r; CacheWriteInputTokens := w;
       PromptDetails := PromptDetails u; InputDetails := InputDetails u |} in
  d_struct
    [("prompt_tokens", into PromptTokens (set_counts (λ v '(p, c, i, o, r, w), (v, c, i, o, r, w))) d_int);
     ("completion_tokens", into CompletionTokens (set_counts (λ v '(p, c, i, o, r, w), (p, v, i, o, r, w))) d_int);
     ("input_tokens", into InputTokens (set_counts (λ v '(p, c, i, o, r, w), (p, c, v, o, r, w))) d_int);
     ("output_tokens", into OutputTokens (set_counts (λ v '(p, c, i, o, r, w), (p, c, i, v, r, w))) d_int);
     ("cache_read_input_tokens", into CacheReadInputTokens (set_counts (λ v '(p, c, i, o, r, w), (p, c, i, o, v, w))) d_int);
     ("cache_creation_input_tokens", into CacheWriteInputTokens (set_counts (λ v '(p, c, i, o, r, w), (p, c, i, o, r, v))) d_int);
     ("prompt_tokens_details", into PromptDetails (λ v u, {| PromptTokens := PromptTokens u;
        CompletionTokens := CompletionTokens u; InputTokens := InputTokens u; OutputTokens := OutputTokens u;
        CacheReadInputTokens := CacheReadInputTokens u; CacheWriteInputTokens := CacheWriteInputTokens u;
        PromptDetails := v; InputDetails := InputDetails u |}) decode_details);
     ("input_tokens_details", into InputDetails (λ v u, {| PromptTokens := PromptTokens u;
        CompletionTokens := CompletionTokens u; InputTokens := InputTokens u; OutputTokens := OutputTokens u;
        CacheReadInputTokens := CacheReadInputTokens u; CacheWriteInputTokens := CacheWriteInputTokens u;
        PromptDetails := PromptDetails u; InputDetails := v |}) decode_details)]%string.

(** The first of two counts that is not zero. *)
Definition or_else (a b : Z) : Z := if a =? 0 then b else a.

(** [None] for an error; [Some None] when there is no usage. *)
Definition ParseUsage (body : string) (protocol : Protocol) : option (option usage) :=
  if bool_decide (protocol = GeminiGenerate) then
    gemini ← unmarshal decode_gemini_body None body;
    match gemini with
    | None => Some None
    | Some u => Some (Some {| Input := PromptTokenCount u; Output := CandidatesTokenCount u;
                              CacheRead := CachedContentTokenCount u; CacheWrite := 0 |})
    end
  else
    raw ← unmarshal (d_struct [("usage", d_raw)]%string) EmptyString body;
    let raw := trim_space raw in
    if String.eqb raw "" || String.eqb raw "null" then Some None
    else
      u ← unmarshal decode_raw_usage zero_usage raw;
      let cacheRead := or_else (or_else (CacheReadInputTokens u) (default 0 (PromptDetails u)))
                               (default 0 (InputDetails u)) in
      Some (Some {| Input := or_else (PromptTokens u) (InputTokens u);
                    Output := or_else (CompletionTokens u) (OutputTokens u);
                    CacheRead := cacheRead; CacheWrite := CacheWriteInputTokens u |}).

(** internal/gateway: a body that cannot be read has no usage. *)
Definition parseUsageForProtocol (body : string) (protocol : Protocol) : option usage :=
  mjoin (ParseUsage body protocol).

Example parse_openai : parseUsageForProtocol
    (dq "{'id':'x','usage':{'prompt_tokens':12,'completion_tokens':3,'prompt_tokens_details':{'cached_tokens':5}}}") OpenAIChat
  = Some {| Input := 12; Output := 3; CacheRead := 5; CacheWrite := 0 |}.
Proof. vm_compute. reflexivity. Qed.
Example parse_mistyped : ParseUsage (dq "{'usage':{'input_tokens':1.5}}") AnthropicMessages = None.
Proof. vm_compute. reflexivity. Qed.

(** * Request and response bodies

    The helpers of internal/gateway/server.go that look into a JSON body without
    converting it. *)

Open Scope Z_scope.

(** [strings.EqualFold] with an ASCII constant. *)
Definition equal_fold (a constant : string) : bool := same_name a constant.

(** Model and stream flag of a body that names a model. *)
Definition streamingRequestMetadata (body : string) : option (string * bool) :=
  request ← unmarshal (d_struct [("model", d_fst d_string); ("stream", d_snd d_bool)]%string) (EmptyString, false) body;
  if blank request.1 then None else Some request.

Definition streamingBodyHasTools (body : string) : bool :=
  match unmarshal (d_struct [("tools", d_raw)]%string) EmptyString body with
  | None => true
  | Some tools => let raw := trim_space tools in
      (0 <? str_len raw) && negb (String.eqb raw "null") && negb (String.eqb raw "[]")
  end.

Definition copilotInitiator (payload : string) : string :=
  match unmarshal (d_struct [("messages", d_slice EmptyString (d_struct [("role", d_string)]))]%string) None payload with
  | None => "user"
  | Some messages =>
      if existsb (λ role, String.eqb role "assistant" || String.eqb role "tool") (elems messages) then "agent" else "user"
  end.

(** The response inside an Antigravity envelope. *)
Definition antigravity_response (body : string) : option string :=
  response ← unmarshal (d_struct [("response", d_raw)]%string) EmptyString body;
  if String.eqb (trim_space response) "" || String.eqb (trim_space response) "null" then None else Some response.

(** [normalizeProviderStreamEvent] *)
Definition normalizeProviderStreamEvent (provider data : string) : string :=
  if negb (equal_fold provider "antigravity") || String.eqb data "[DONE]" then data
  else default data (antigravity_response data).

Example metadata : streamingRequestMetadata (dq "{'Model':'m','stream':true,'model':' '}") = None
  ∧ streamingRequestMetadata (dq "{'MODEL':'m','stream':true}") = Some ("m", true)%string.
Proof. split; vm_compute; reflexivity. Qed.
Example tools : map (λ b, streamingBodyHasTools (dq b)) ["{}"; "{'tools':null}"; "{'tools':[ ]}"; "{'tools':[]}"; "x"]%string
  = [false; false; true; false; true].
Proof. vm_compute. reflexivity. Qed.
