(* ===== verification/GoStruct.v ===== *)
(** * Structs with JSON tags

    A [codec] says how encoding/json reads and writes a Go type; a struct's is
    put together from its fields, in the order of the source, with the names
    and the [omitempty] of its tags.  Decoding goes into the zero value, as
    after [var x T]. *)

From S2P Require Import Prelude Decimal GoFloat Utf8 GoJson.

(** * float64 in JSON

    What encoding/json makes of a number that goes into a [float64] and comes
    out again: [strconv.ParseFloat] rounds the literal to the nearest float64,
    [strconv.AppendFloat] with precision -1 writes the shortest digits that
    read back as the same one.  Since nothing else is done with such numbers
    here, a finite float64 is kept as the text json.Marshal writes for it. *)

#[local] Set Warnings "-register-all".

Open Scope Z_scope.

(** ** Reading *)

(** A literal is [fl_mantissa * 10 ^ fl_exponent], [fl_digits] of them significant. *)
Record float_literal := { fl_negative : bool; fl_mantissa : Z; fl_exponent : Z; fl_digits : Z }.

Definition exponent_value (s : string) : Z :=
  match s with
  | String _ (String a r) => if byte_is 45 a then - digits_val r
                             else if byte_is 43 a then digits_val r else digits_val (String a r)
  | _ => 0
  end.

Definition read_literal (text : string) : float_literal :=
  let '(sign, s) := number_sign text in
  let '(whole, s) := default (EmptyString, s) (number_whole s) in
  let '(fraction, s) := default (EmptyString, s) (number_fraction s) in
  let '(power, _) := default (EmptyString, s) (number_exponent s) in
  let ds := whole +:+ str_drop 1 fraction in
  {| fl_negative := negb (String.eqb sign "");
     fl_mantissa := digits_val ds;
     fl_exponent := exponent_value power - str_len (str_drop 1 fraction);
     fl_digits := str_len (drop_zeros ds) |}.

(** A positive float64: [(m, e)] is [m * 2 ^ e], with 53 bits of [m] or the
    least exponent; [None] when the number is too large. *)
Definition float64 := (Z * Z)%type.

Definition scale2 (n d e : Z) : Z := if 0 <=? e then round_half_even n (d * 2 ^ e) else round_half_even (n * 2 ^ (- e)) d.
Definition whole2 (n d e : Z) : Z := if 0 <=? e then n / (d * 2 ^ e) else (n * 2 ^ (- e)) / d.

Definition nearest_float (n d : Z) : option float64 :=
  let e := f64_exponent n d in
  let e := if whole2 n d e <? 2 ^ 53 then e else e + 1 in
  let e := Z.max e (-1074) in
  let m := scale2 n d e in
  let '(m, e) := if m =? 2 ^ 53 then (2 ^ 52, e + 1) else (m, e) in
  if 971 <? e then None else Some (m, e).

(** [10 ^ e], as a numerator and a denominator. *)
Definition power10 (m e : Z) : Z * Z := if 0 <=? e then (m * 10 ^ e, 1) else (m, 10 ^ (- e)).

(** [strconv.ParseFloat] gives up on the exact value far outside the range. *)
Definition ParseFloat (l : float_literal) : option float64 :=
  let dp := fl_digits l + fl_exponent l in
  if (fl_mantissa l =? 0) || (dp <? -330) then Some (0, -1074)
  else if 310 <? dp then None
  else let '(n, d) := power10 (fl_mantissa l) (fl_exponent l) in nearest_float n d.

(** ** Writing *)

(** The decimal point: [10 ^ (dp - 1) <= n / d < 10 ^ dp]. *)
Definition below10 (n d dp : Z) : bool := let '(p, q) := power10 1 dp in n * q <? p * d.
Definition decimal_point (n d : Z) : Z :=
  let guess := (Z.log2 n - Z.log2 d) * 30103 / 100000 in
  default (guess + 2) (List.find (λ p, below10 n d p) [guess - 1; guess; guess + 1]).

(** [k] digits of [n / d], rounded down or up, that read back as [f]; the closer
    ones, or the even ones. *)
Definition candidate (f : float64) (c e : Z) : bool :=
  let '(n, d) := power10 c e in bool_decide (nearest_float n d = Some f).

Definition digits_of_length (f : float64) (n d dp k : Z) : option Z :=
  let '(sn, sd) := power10 n (k - dp) in
  let s := sn / (sd * d) in
  let r := sn - s * (sd * d) in
  let e := dp - k in
  match candidate f s e, candidate f (s + 1) e with
  | true, true => Some (if 2 * r <? sd * d then s else if sd * d <? 2 * r then s + 1 else if Z.even s then s else s + 1)
  | true, false => Some s
  | false, true => Some (s + 1)
  | false, false => None
  end.

Fixpoint shortest (f : float64) (n d dp : Z) (ks : list Z) : Z * Z :=
  match ks with
  | [] => (Z.max 1 (n / d), 0)      (* not reached: 17 digits tell all float64 apart *)
  | k :: ks => match digits_of_length f n d dp k with
               | Some c => (c, dp - k)
               | None => shortest f n d dp ks
               end
  end.

(** Digits and decimal point. *)
Definition float_digits (f : float64) : string * Z :=
  let '(m, e) := f in
  let '(n, d) := if 0 <=? e then (m * 2 ^ e, 1) else (m, 2 ^ (- e)) in
  let '(c, x) := shortest f n d (decimal_point n d) (Z.of_nat <$> seq 1 17) in
  let ds := show_nonneg c in
  let point := str_len ds + x in
  (str_rev (drop_zeros (str_rev ds)), point).

Definition zero_digits (n : Z) : string := str_rev (Nat.iter (Z.to_nat n) (String (byte_of 48)) EmptyString).

(** Format 'f': no exponent. *)
Definition plain_format (ds : string) (dp : Z) : string :=
  if dp <=? 0 then "0." +:+ zero_digits (- dp) +:+ ds
  else if str_len ds <=? dp then ds +:+ zero_digits (dp - str_len ds)
  else str_take (Z.to_nat dp) ds +:+ "." +:+ str_drop (Z.to_nat dp) ds.

(** Format 'e', with a single digit after the minus sign if one is enough. *)
Definition exponent_format (ds : string) (dp : Z) : string :=
  let x := dp - 1 in
  str_take 1 ds +:+ (if 1 <? str_len ds then "." +:+ str_drop 1 ds else "")
  +:+ "e" +:+ (if x <? 0 then "-" else "+") +:+ show_nonneg (Z.abs x).

(** [floatEncoder] of encoding/json: exponents below 1e-6 and from 1e21. *)
Definition float_text (minus : bool) (f : float64) : string :=
  (if minus then "-" else "") +:+
  (if f.1 =? 0 then "0"
   else let '(ds, dp) := float_digits f in
        if (dp <=? -6) || (21 <? dp) then exponent_format ds dp else plain_format ds dp).

(** A literal on its way through a float64. *)
Definition float_of (text : string) : option string :=
  let l := read_literal text in
  f ← ParseFloat l; Some (float_text (fl_negative l) f).

Example floats : float_of <$> ["0.7"; "1"; "-0"; "1e0"; "100"; "1e21"; "123456789012345678901"; "0.000001"; "1.5e-7"; "-2.50";
    "12345678901234567890"; "9007199254740993"; "1e400"; "5e-324"; "1e-400"; "1.7976931348623157e308"; "1.7976931348623159e308"; "0.1e1"]%string
  = [Some "0.7"; Some "1"; Some "-0"; Some "1"; Some "100"; Some "1e+21"; Some "123456789012345680000"; Some "0.000001";
     Some "1.5e-7"; Some "-2.5"; Some "12345678901234567000"; Some "9007199254740992"; None; Some "5e-324"; Some "0";
     Some "1.7976931348623157e+308"; None; Some "1"]%string.
Proof. vm_compute. reflexivity. Qed.

Open Scope Z_scope.

Record codec (A : Type) := Codec {
  zero : A;
  dec : decoder A;
  enc : A → govalue;
  is_empty : A → bool          (* what omitempty leaves out *)
}.
Arguments Codec {A}. Arguments zero {A}. Arguments dec {A}. Arguments enc {A}. Arguments is_empty {A}.

(** [json.RawMessage], and a float64 as the text it is written as. *)
Inductive RawMessage := Raw (text : string).
Definition raw_text (r : RawMessage) : string := let 'Raw text := r in text.
Inductive float := Float (text : string).

Definition d_float : decoder float := λ old n,
  match n with
  | NNumber text => match float_of text with Some t => (Float t, true) | None => (old, false) end
  | NNull => (old, true)
  | _ => (old, false)
  end.

Definition c_string : codec string := Codec EmptyString d_string VString (λ s, String.eqb s "").
Definition c_bool : codec bool := Codec false d_bool VBool negb.
Definition c_int : codec Z := Codec 0 d_int VInt (Z.eqb 0).
Definition c_float : codec float :=
  Codec (Float "0") d_float (λ '(Float t), VNumber t) (λ '(Float t), String.eqb t "0" || String.eqb t "-0").
Definition c_raw : codec RawMessage :=
  Codec (Raw EmptyString) (λ _ n, (Raw (node_text n), true)) (λ '(Raw t), VRaw t) (λ '(Raw t), String.eqb t "").

Definition c_pointer {A} (c : codec A) : codec (option A) :=
  Codec None (d_pointer (zero c) (dec c)) (λ v, match v with Some a => enc c a | None => VNull end)
    (λ v, match v with Some _ => false | None => true end).

(** A slice; nil is written as null. *)
Definition c_slice {A} (c : codec A) : codec (option (slice A)) :=
  Codec None (d_slice (zero c) (dec c))
    (λ v, match v with Some _ => VArray (enc c <$> elems v) | None => VNull end)
    (λ v, bool_decide (elems v = [])) .

(** A slice the program made itself. *)
Definition made {A} (l : list A) : option (slice A) := Some (Slice l (length l)).

Lemma elems_made {A} (l : list A) : elems (made l) = l.
Proof. unfold elems, made. cbn. by rewrite firstn_all. Qed.

(** ** Structs *)

Record fields (A : Type) := Fields {
  f_zero : A;
  f_dec : fields_of A;
  f_enc : A → list (string * govalue)
}.
Arguments Fields {A}. Arguments f_zero {A}. Arguments f_dec {A}. Arguments f_enc {A}.

Definition no_fields : fields unit := Fields tt [] (λ _, []).

Definition field_with {A B} (omitempty : bool) (name : string) (c : codec A) (rest : fields B) : fields (A * B) :=
  Fields (zero c, f_zero rest)
    ((name, d_fst (dec c)) :: ((λ nd, (nd.1, d_snd nd.2)) <$> f_dec rest))
    (λ v, (if omitempty && is_empty c v.1 then [] else [(name, enc c v.1)]) ++ f_enc rest v.2).

(** [R] is a record of the fields [A], nested to the right. *)
Definition struct {R A} (build : A → R) (view : R → A) (fs : fields A) : codec R :=
  Codec (build (f_zero fs)) (into view (λ a _, build a) (d_struct (f_dec fs))) (λ r, VObject (f_enc fs (view r))) (λ _, false).

Declare Scope json_tag_scope.
Delimit Scope json_tag_scope with tag.
Notation "name '↦' c '&' fs" := (field_with false name%string c fs) (at level 60, c at level 59, right associativity) : json_tag_scope.
Notation "name '↦?' c '&' fs" := (field_with true name%string c fs) (at level 60, c at level 59, right associativity) : json_tag_scope.

(** [decode(body, &v)] of pkg/protokit, and [json.Unmarshal(body, &v)]: a stream
    of exactly one value is the value alone. *)
Definition decode {A} (c : codec A) (body : string) : option A := unmarshal (dec c) (zero c) body.

(** [json.Marshal(v)] *)
Definition encode {A} (c : codec A) (v : A) : string := marshal (enc c v).
