(* ===== verification/FloatText.v ===== *)
(** * The text of a float64 is a JSON number

    Whatever digits [float_of] comes to, they are written as encoding/json's
    own scanner reads numbers. *)

From S2P Require Import Prelude Decimal GoFloat Numeric GoTime Utf8 GoJson GoJsonParse GoJsonFacts GoStruct.

Open Scope Z_scope.

(** ** Numbers by their parts *)

Definition stops (t : string) : bool := match t with EmptyString => true | String a _ => negb (is_digit a) end.

Definition whole_part (w : string) : Prop :=
  all_digits w ∧ (w = chr 48 ∨ ∃ a r, w = String a r ∧ byte_is 48 a = false).
Definition fraction_part (f : string) : Prop := f = EmptyString ∨ ∃ d, f = String (byte_of 46) d ∧ all_digits d ∧ d ≠ EmptyString.
Definition exponent_part (x : string) : Prop :=
  x = EmptyString ∨ ∃ s d, x = String (byte_of 101) (String s d) ∧ (s = byte_of 43 ∨ s = byte_of 45) ∧ all_digits d ∧ d ≠ EmptyString.

Lemma span_digits_stops d t : all_digits d → stops t = true → span_digits (d +:+ t) = (d, t).
Proof. intros Hd Ht. apply span_digits_app; [done|]. destruct t as [|a t]; [done|]. by apply negb_true_iff in Ht. Qed.

Lemma fraction_stops f t : fraction_part f → stops t = true → stops (f +:+ t) = true.
Proof. intros [->|(d & -> & _)] Ht; done. Qed.
Lemma exponent_stops x : exponent_part x → stops x = true.
Proof. by intros [->|(s & d & -> & _)]. Qed.

Lemma number_whole_part w t : whole_part w → stops t = true → number_whole (w +:+ t) = Some (w, t).
Proof.
  intros [Hd Hw] Ht. unfold number_whole. rewrite span_digits_stops by done.
  destruct Hw as [->|(a & r & -> & Ha)]; [done|]. by rewrite Ha.
Qed.

Lemma number_fraction_part f t : fraction_part f → stops t = true → (f = EmptyString → ∀ r, t ≠ String (byte_of 46) r) →
  number_fraction (f +:+ t) = Some (f, t).
Proof.
  intros [->|(d & -> & Hd & Hne)] Ht Hp; string_norm.
  - destruct t as [|a t]; [done|]. cbn. destruct (byte_is 46 a) eqn:Ea; [|done].
    apply byte_is_eq in Ea as ->. by destruct (Hp eq_refl t).
  - cbn [number_fraction]. change (byte_is 46 (byte_of 46)) with true. rewrite span_digits_stops by done.
    by destruct d.
Qed.

Lemma number_exponent_part x : exponent_part x → number_exponent x = Some (x, EmptyString).
Proof.
  intros [->|(s & d & -> & Hs & Hd & Hne)]; [done|]. cbn [number_exponent].
  change (byte_is 101 (byte_of 101)) with true. cbn [orb].
  pose proof (span_digits_stops d EmptyString Hd eq_refl) as Hsp. rewrite str_app_nil_r in Hsp.
  destruct Hs as [-> | ->];
    [change (byte_is 43 (byte_of 43)) with true
    |change (byte_is 43 (byte_of 45)) with false; change (byte_is 45 (byte_of 45)) with true];
    cbn [orb]; rewrite Hsp; by destruct d.
Qed.

Lemma scan_number_parts minus w f x : whole_part w → fraction_part f → exponent_part x →
  let s := (if minus : bool then "-" else "") +:+ w +:+ f +:+ x in
  scan_number s = Some (s, EmptyString) ∧ str_forallb inert s = true.
Proof.
  intros Hw Hf Hx s. subst s. split.
  - assert (number_sign ((if minus then "-" else "") +:+ w +:+ f +:+ x) = ((if minus then "-" else "")%string, w +:+ f +:+ x)) as Es.
    { destruct minus; string_norm; [done|]. destruct Hw as [Hd [->|(a & r & -> & _)]]; [done|].
      cbn in Hd. apply andb_true_iff in Hd as [Ha _]. rewrite is_digit_byte in Ha. string_norm. cbn.
      by rewrite byte_is_no by (change (Z.of_nat 45) with 45; lia). }
    unfold scan_number. rewrite Es.
    rewrite number_whole_part by (done || apply fraction_stops, exponent_stops; done). cbn [mbind option_bind].
    rewrite number_fraction_part; [|done|by apply exponent_stops|intros _ r ->; by destruct Hx as [|(?&?&[=]&_)]].
    cbn [mbind option_bind]. by rewrite number_exponent_part.
  - assert (∀ s t, str_forallb inert s = true → str_forallb inert t = true → str_forallb inert (s +:+ t) = true) as Ha.
    { intros s t Hs Ht. by rewrite str_forallb_app, Hs, Ht. }
    apply Ha; [by destruct minus|]. apply Ha; [by apply digits_inert; destruct Hw|]. apply Ha.
    + destruct Hf as [->|(d & -> & Hd & _)]; [done|]. cbn [str_forallb]. by rewrite digits_inert.
    + destruct Hx as [->|(s & d & -> & Hs & Hd & _)]; [done|]. cbn [str_forallb]. rewrite digits_inert by done.
      by destruct Hs as [-> | ->].
Qed.

(** ** The digits of a float64 *)

Definition leading (ds : string) : Prop := all_digits ds ∧ ∃ a r, ds = String a r ∧ byte_is 48 a = false.

Lemma show_leading n : 0 < n → leading (show_nonneg n).
Proof.
  intros Hn. split; [apply show_nonneg_digits|]. pose proof (show_nonneg_val n ltac:(lia)) as Hv. unfold show_nonneg in *.
  destruct (drop_zeros _) as [|a r] eqn:E; [change (0 = n) in Hv; lia|]. exists a, r. split; [done|]. by eapply leading_digit.
Qed.

Lemma trim_zeros_leading s : leading s → leading (trim_zeros s).
Proof.
  intros [Hd (a & r & -> & Ha)]. destruct (trim_zeros_split (String a r)) as (k & E & _).
  destruct (trim_zeros (String a r)) as [|b t].
  - exfalso. destruct k as [|k]; [done|]. cbn in E. injection E as -> _. by vm_compute in Ha.
  - string_norm. rewrite str_app_cons in E. injection E as <- E. split; [|by eexists _, _].
    cbn in Hd |- *. apply andb_true_iff in Hd as [-> Hd]. rewrite E, str_forallb_app in Hd. by apply andb_true_iff in Hd as [-> _].
Qed.

Lemma zero_digits_digits n : all_digits (zero_digits n).
Proof.
  unfold zero_digits. rewrite str_rev_forallb. induction (Z.to_nat n) as [|k IH]; [done|]. cbn. exact IH.
Qed.

Lemma digits_app s t : all_digits s → all_digits t → all_digits (s +:+ t).
Proof. intros Hs Ht. by rewrite str_forallb_app, Hs, Ht. Qed.

Lemma digits_take n s : all_digits s → all_digits (str_take n s) ∧ all_digits (str_drop n s).
Proof.
  revert n. induction s as [|a s IH]; intros [|n] Hs; try done. cbn in *. apply andb_true_iff in Hs as [-> Hs]. by apply IH.
Qed.

Lemma plain_format_parts ds dp : leading ds → ∃ w f, plain_format ds dp = w +:+ f ∧ whole_part w ∧ fraction_part f.
Proof.
  intros [Hd (a & r & E & Ha)]. unfold plain_format. destruct (Z.leb_spec dp 0) as [|Hdp].
  - exists (chr 48), (String (byte_of 46) (zero_digits (- dp) +:+ ds)). split_and!; [done|split; [done|by left]|].
    right. eexists. split_and!; [done|by apply digits_app; [apply zero_digits_digits|]|].
    subst ds. intros Hempty. apply (f_equal String.length) in Hempty. rewrite str_length_app in Hempty. cbn in Hempty. lia.
  - destruct (Z.leb_spec (str_len ds) dp) as [|Hl].
    + exists (ds +:+ zero_digits (dp - str_len ds)), EmptyString. rewrite str_app_nil_r. split_and!; [done| |by left].
      split; [by apply digits_app; [|apply zero_digits_digits]|]. right. subst ds. string_norm. by eexists _, _.
    + exists (str_take (Z.to_nat dp) ds), (String (byte_of 46) (str_drop (Z.to_nat dp) ds)).
      destruct (digits_take (Z.to_nat dp) ds Hd) as [Ht Hr]. split_and!; [by string_norm| |].
      * split; [done|]. right. subst ds. destruct (Z.to_nat dp) eqn:En; [lia|]. by eexists _, _.
      * right. eexists. split_and!; [done|done|]. intros Hempty.
        assert (∀ n s, (n < String.length s)%nat → str_drop n s ≠ EmptyString) as Hne.
        { induction n as [|n IH]; intros [|b s] Hn; cbn in *; try lia; [done|]. apply IH. lia. }
        apply (Hne (Z.to_nat dp) ds); [|done]. lia.
Qed.

Lemma exponent_format_parts ds dp : leading ds →
  ∃ w f x, exponent_format ds dp = w +:+ f +:+ x ∧ whole_part w ∧ fraction_part f ∧ exponent_part x.
Proof.
  intros [Hd (a & r & E & Ha)]. unfold exponent_format.
  exists (str_take 1 ds), (if (1 <? str_len ds)%Z then "." +:+ str_drop 1 ds else "")%string, ("e" +:+ (if (dp - 1 <? 0)%Z then "-" else "+") +:+ show_nonneg (Z.abs (dp - 1))).
  destruct (digits_take 1 ds Hd) as [Ht Hr]. split_and!; [done| | |].
  - split; [done|]. right. subst ds. by exists a, EmptyString; destruct r.
  - destruct (Z.ltb_spec 1 (str_len ds)) as [Hl|]; [|by left]. right. eexists. split_and!; [done|done|].
    subst ds. destruct r; [cbn in Hl; lia|done].
  - right. destruct (dp - 1 <? 0); eexists _, _; (split_and!; [string_norm; done|by auto|apply show_nonneg_digits|apply show_nonneg_nonempty]).
Qed.

Lemma round_zero d : 0 < d → round_half_even 0 d = 0.
Proof. intros Hd. unfold round_half_even. rewrite Zdiv_0_l, Zmod_0_l. rewrite (proj2 (Z.ltb_lt _ _)) by lia. done. Qed.

Lemma scale2_zero d e : 0 < d → scale2 0 d e = 0.
Proof.
  intros Hd. unfold scale2. destruct (Z.leb_spec 0 e).
  - apply round_zero. pose proof (Z.pow_pos_nonneg 2 e). nia.
  - rewrite Z.mul_0_l. by apply round_zero.
Qed.

(** Zero is the only float64 that reads 0. *)
Lemma candidate_positive f e : 0 < f.1 → candidate f 0 e = false.
Proof.
  intros Hf. unfold candidate, power10.
  assert (∀ d, 0 < d → nearest_float 0 d ≠ Some f) as H.
  { intros d Hd E. unfold nearest_float in E. rewrite scale2_zero in E by done.
    change (0 =? 2 ^ 53) with false in E. cbv beta iota zeta in E. case_match; [done|]. injection E as <-. cbn in Hf. lia. }
  destruct (Z.leb_spec 0 e); apply bool_decide_eq_false; rewrite ?Z.mul_0_l; [apply H; lia|].
  apply H. apply Z.pow_pos_nonneg; lia.
Qed.

Lemma power10_pos n x : 0 <= n → 0 <= (power10 n x).1 ∧ (0 < n → 0 < (power10 n x).1) ∧ 0 < (power10 n x).2.
Proof.
  intros Hn. unfold power10. destruct (Z.leb_spec 0 x); cbn.
  - pose proof (Z.pow_pos_nonneg 10 x). split_and!; nia.
  - pose proof (Z.pow_pos_nonneg 10 (- x)). split_and!; lia.
Qed.

Lemma shortest_positive f n d dp ks : 0 < f.1 → 0 < n → 0 < d → 0 < (shortest f n d dp ks).1.
Proof.
  intros Hf Hn Hd. induction ks as [|k ks IH]; cbn [shortest]; [cbn; lia|].
  destruct (digits_of_length f n d dp k) as [c|] eqn:E; [|done]. cbn [fst]. clear IH. revert E. unfold digits_of_length.
  pose proof (power10_pos n (k - dp) ltac:(lia)) as (_ & Hp & Hq). specialize (Hp Hn).
  destruct (power10 n (k - dp)) as [sn sd]. cbn [fst snd] in Hp, Hq.
  set (s := sn / (sd * d)). assert (0 <= s) as Hs by (apply Z.div_pos; nia).
  destruct (candidate f s (dp - k)) eqn:E1; [|destruct (candidate f (s + 1) (dp - k)); [intros [= <-]; lia|done]].
  assert (s ≠ 0) by (intros E; rewrite E, candidate_positive in E1 by done; done).
  destruct (candidate f (s + 1) (dp - k)); intros [= <-]; repeat case_match; lia.
Qed.

Lemma round_nonneg n d : 0 <= n → 0 < d → 0 <= round_half_even n d.
Proof.
  intros Hn Hd. unfold round_half_even. pose proof (Z.div_pos n d Hn Hd). repeat case_match; lia.
Qed.

Lemma ParseFloat_nonneg l f : 0 <= fl_mantissa l → ParseFloat l = Some f → 0 <= f.1.
Proof.
  intros Hm. unfold ParseFloat. destruct (_ || _); [by intros [= <-]|]. destruct (310 <? _); [done|].
  destruct (power10_pos (fl_mantissa l) (fl_exponent l) Hm) as (Hp & _ & Hq).
  destruct (power10 _ _) as [n d]. cbn [fst snd] in Hp, Hq. unfold nearest_float, scale2.
  assert (∀ e, 0 <= e → 0 < 2 ^ e) as H2 by (intros; apply Z.pow_pos_nonneg; lia).
  set (e := Z.max _ _). assert (0 <= if 0 <=? e then round_half_even n (d * 2 ^ e) else round_half_even (n * 2 ^ (- e)) d) as Hr.
  { destruct (Z.leb_spec 0 e); [pose proof (H2 e)|pose proof (H2 (- e))]; apply round_nonneg; nia. }
  revert Hr. generalize (if 0 <=? e then round_half_even n (d * 2 ^ e) else round_half_even (n * 2 ^ (- e)) d) as m. intros m Hr.
  destruct (m =? 2 ^ 53); case_match; try done; intros [= <-]; cbn; lia.
Qed.

Lemma digits_val_nonneg s : all_digits s → 0 <= digits_val s.
Proof. intros Hs. pose proof (digits_val_bound s Hs). lia. Qed.

(** ** Every float64 *)

Lemma float_text_number minus f : 0 <= f.1 →
  scan_number (float_text minus f) = Some (float_text minus f, EmptyString) ∧ str_forallb inert (float_text minus f) = true.
Proof.
  intros Hf. unfold float_text. destruct (Z.eqb_spec f.1 0) as [|Hne].
  { apply (scan_number_parts minus (chr 48) EmptyString EmptyString); [split; [done|by left]|by left|by left]. }
  assert (leading (float_digits f).1) as Hl.
  { unfold float_digits. destruct f as [m e]. cbn [fst] in *.
    assert (0 < (if 0 <=? e then (m * 2 ^ e, 1) else (m, 2 ^ (- e))).1 ∧ 0 < (if 0 <=? e then (m * 2 ^ e, 1) else (m, 2 ^ (- e))).2) as [Hn Hd].
    { destruct (Z.leb_spec 0 e); cbn; [pose proof (Z.pow_pos_nonneg 2 e)|pose proof (Z.pow_pos_nonneg 2 (- e))]; split; nia. }
    destruct (if 0 <=? e then _ else _) as [n d]. cbn [fst snd] in *.
    pose proof (shortest_positive (m, e) n d (decimal_point n d) (Z.of_nat <$> seq 1 17) ltac:(cbn; lia) Hn Hd) as Hs.
    destruct (shortest _ _ _ _ _) as [c x]. cbn [fst] in *. by apply (trim_zeros_leading (show_nonneg c)), show_leading. }
  destruct (float_digits f) as [ds dp]. cbn [fst] in Hl. destruct (_ || _).
  - destruct (exponent_format_parts ds dp Hl) as (w & fr & x & -> & Hw & Hfr & Hx). by apply scan_number_parts.
  - destruct (plain_format_parts ds dp Hl) as (w & fr & -> & Hw & Hfr).
    pose proof (scan_number_parts minus w fr EmptyString Hw Hfr ltac:(by left)) as H. by rewrite str_app_nil_r in H.
Qed.

(** What a number that was read is written as. *)
Definition number_text (t : string) : Prop := scan_number t = Some (t, EmptyString) ∧ str_forallb inert t = true.

Lemma read_literal_nonneg text : 0 <= fl_mantissa (read_literal text).
Proof.
  unfold read_literal. destruct (number_sign text) as [sign s].
  assert (all_digits (default (EmptyString, s) (number_whole s)).1) as Hw.
  { unfold number_whole. destruct (span_digits s) as [d r] eqn:E. apply span_digits_spec in E as (_ & Hd & _).
    destruct d as [|a d]; [done|]. destruct (byte_is 48 a); done. }
  destruct (default (EmptyString, s) (number_whole s)) as [w s1]. cbn [fst] in Hw.
  assert (all_digits (str_drop 1 (default (EmptyString, s1) (number_fraction s1)).1)) as Hf.
  { unfold number_fraction. destruct s1 as [|a r]; [done|]. destruct (byte_is 46 a); [|done].
    destruct (span_digits r) as [d r'] eqn:E. apply span_digits_spec in E as (_ & Hd & _). by destruct d. }
  destruct (default (EmptyString, s1) (number_fraction s1)) as [f s2]. cbn [fst] in Hf.
  destruct (default (EmptyString, s2) (number_exponent s2)). cbn [fl_mantissa]. by apply digits_val_nonneg, digits_app.
Qed.

Lemma float_of_number t s : float_of t = Some s → number_text s.
Proof.
  unfold float_of. intros (f & Hf & [= <-])%bind_Some. apply float_text_number.
  eapply ParseFloat_nonneg; [apply read_literal_nonneg|exact Hf].
Qed.
