(* ===== verification/GoUrl.v ===== *)
(** * net/url

    [url.Parse] as far as the program looks at its result: whether there is an
    error, the scheme, and the host.  Paths and fragments only matter for the
    percent signs they must not end in. *)

From S2P Require Import Prelude Decimal Utf8 GoJson.

Open Scope Z_scope.

(** [strings.Cut] at a byte: what is before it, and after it if it is there. *)
Definition cut (n : nat) (s : string) : string * option string :=
  match index_byte (byte_of n) s with
  | Some i => (str_take i s, Some (str_drop (S i) s))
  | None => (s, None)
  end.

(** [strings.LastIndexByte] *)
Fixpoint last_index (n : nat) (s : string) : option nat :=
  match s with
  | EmptyString => None
  | String a s' => match last_index n s' with
                   | Some i => Some (S i)
                   | None => if byte_is n a then Some O else None
                   end
  end.

Definition letter (a : Ascii.ascii) : bool :=
  let z := byte_val a in ((97 <=? z) && (z <=? 122)) || ((65 <=? z) && (z <=? 90)).

Definition any_of (l : list nat) (a : Ascii.ascii) : bool := existsb (λ n, byte_is n a) l.

Definition lower_byte (a : Ascii.ascii) : Ascii.ascii :=
  let z := byte_val a in if (65 <=? z) && (z <=? 90) then val_byte (z + 32) else a.
Fixpoint ascii_lower (s : string) : string :=
  match s with EmptyString => EmptyString | String a s' => String (lower_byte a) (ascii_lower s') end.

(** [getScheme]: [None] for a missing scheme before a colon. *)
Fixpoint scheme_from (seen : string) (s : string) : option (string * string) :=
  match s with
  | EmptyString => Some (EmptyString, seen)
  | String a s' =>
      if letter a then scheme_from (seen +:+ String a EmptyString) s'
      else if is_digit a || any_of [43; 45; 46]%nat a then
        if String.eqb seen "" then Some (EmptyString, s) else scheme_from (seen +:+ String a EmptyString) s'
      else if byte_is 58 a then if String.eqb seen "" then None else Some (seen, s')
      else Some (EmptyString, seen +:+ s)
  end.
Definition getScheme (s : string) : option (string * string) := scheme_from EmptyString s.

(** [unescape] in the modes of a path, a fragment and user information: every
    percent sign starts two hexadecimal digits. *)
Fixpoint escapes_ok (s : string) : bool :=
  match s with
  | EmptyString => true
  | String a s1 =>
      if byte_is 37 a then
        match s1 with
        | String b (String c s3) => is_hex_digit b && is_hex_digit c && escapes_ok s3
        | _ => false
        end
      else escapes_ok s1
  end.

(** Bytes [shouldEscape] leaves alone in a host. *)
Definition host_byte (a : Ascii.ascii) : bool :=
  letter a || is_digit a
  || any_of [33; 36; 38; 39; 40; 41; 42; 43; 44; 59; 61; 58; 91; 93; 60; 62; 34; 45; 95; 46; 126]%nat a.

(** [unescape] of a host, or ([zone]) of what follows the zone marker %25:
    ASCII is not written with percent signs in a host, but for a percent sign
    itself; in a zone only what a host could hold, or a space. *)
Fixpoint host_escapes_ok (zone : bool) (s : string) : bool :=
  match s with
  | EmptyString => true
  | String a s1 =>
      if byte_is 37 a then
        match s1 with
        | String b (String c s3) =>
            is_hex_digit b && is_hex_digit c &&
            (let high := default 0 (hex_value (byte_val b)) in
             let z := high * 16 + default 0 (hex_value (byte_val c)) in
             if z =? 37 then true
             else if zone then (z =? 32) || host_byte (val_byte z)
             else 8 <=? high) &&
            host_escapes_ok zone s3
        | _ => false
        end
      else ((128 <=? byte_val a) || host_byte a) && host_escapes_ok zone s1
  end.

Definition validOptionalPort (port : string) : bool :=
  match port with
  | EmptyString => true
  | String a ds => byte_is 58 a && str_forallb is_digit ds
  end.

(** [strings.Index(s, "%25")] *)
Fixpoint index_zone (s : string) : option nat :=
  if has_prefix "%25" s then Some O
  else match s with EmptyString => None | String _ s' => S <$> index_zone s' end.

Definition parseHost (host : string) : bool :=
  if has_prefix "[" host then
    match last_index 93 host with
    | None => false
    | Some i =>
        validOptionalPort (str_drop (S i) host) &&
        match index_zone (str_take i host) with
        | Some z => host_escapes_ok false (str_take z host)
                    && host_escapes_ok true (str_drop z (str_take i host))
                    && host_escapes_ok false (str_drop i host)
        | None => host_escapes_ok false host
        end
    end
  else match last_index 58 host with
       | Some i => validOptionalPort (str_drop i host)
       | None => true
       end && host_escapes_ok false host.

Definition user_byte (a : Ascii.ascii) : bool :=
  letter a || is_digit a || any_of [45; 46; 95; 58; 126; 33; 36; 38; 39; 40; 41; 42; 43; 44; 59; 61; 37; 64]%nat a.

(** [parseAuthority]: the host, if nothing is wrong with it. *)
Definition parseAuthority (authority : string) : option string :=
  match last_index 64 authority with
  | None => if parseHost authority then Some authority else None
  | Some i =>
      let host := str_drop (S i) authority in
      let userinfo := str_take i authority in
      if parseHost host && str_forallb user_byte userinfo
         && match cut 58 userinfo with
            | (name, Some password) => escapes_ok name && escapes_ok password
            | (name, None) => escapes_ok name
            end
      then Some host else None
  end.

(** Scheme, and host ("" for none). *)
Definition parse (raw : string) : option (string * string) :=
  if negb (str_forallb (λ a, (32 <=? byte_val a) && negb (byte_is 127 a)) raw) then None
  else if String.eqb raw "*" then Some (EmptyString, EmptyString)
  else
  '(scheme, rest) ← getScheme raw;
  let scheme := ascii_lower scheme in
  let rest := (cut 63 rest).1 in
  if negb (has_prefix "/" rest) && negb (String.eqb scheme "") then Some (scheme, EmptyString)
  else if negb (has_prefix "/" rest) && bool_decide (is_Some (index_byte (byte_of 58) (cut 47 rest).1)) then None
  else if (negb (String.eqb scheme "") || negb (has_prefix "///" rest)) && has_prefix "//" rest then
    let authority := (cut 47 (str_drop 2 rest)).1 in
    host ← parseAuthority authority;
    if escapes_ok (str_drop (2 + String.length authority) rest) then Some (scheme, host) else None
  else if escapes_ok rest then Some (scheme, EmptyString) else None.

(** [url.Parse] *)
Definition url_Parse (raw : string) : option (string * string) :=
  let '(u, fragment) := cut 35 raw in
  url ← parse u;
  if escapes_ok (default EmptyString fragment) then Some url else None.

(** An absolute URL with the scheme http or https and a host. *)
Definition http_url (raw : string) : bool :=
  match url_Parse raw with
  | Some (scheme, host) => negb (String.eqb host "") && (String.eqb scheme "http" || String.eqb scheme "https")
  | None => false
  end.

Example urls : http_url <$> ["https://example.com/a.png?x=%"; "HTTP://u:p@host:8080"; "http://host:80x/"; "http:///path"; "ftp://host/";
    "//host/a"; "http://[::1%25en0]:1/"; "http://h%41/"; "http://a b/"; "https://h/%zz"; "http://h/a b"; "mailto:x"; "a:b"; ":x"; "http://h#%"]%string
  = [true; true; false; false; false; false; true; false; false; false; true; false; false; false; false].
Proof. vm_compute. reflexivity. Qed.
