(* ===== verification/Codecs.v ===== *)
(** * Codecs read back what they write

    [CodecSpec] is what a codec promises: what decoding may leave in a
    variable, which values are written as JSON, and what is read back of them.  Codecs put
    together from others keep the promise, so that the one of a struct is
    found by instance resolution. *)

From S2P Require Import Prelude Decimal Cursor Utf8 GoJson GoJsonParse GoJsonFacts GoStruct.

Open Scope Z_scope.

(** ** What is decoded is clean *)

Definition keeps {A} (P : A → Prop) (d : decoder A) : Prop := ∀ old n, P old → P (d old n).1.

Lemma clean_unquote content : clean (unquote content).
Proof.
  unfold unquote. generalize (unescape (runes content)) as l. intros l.
  assert (texts utf8_encode l = texts utf8_encode ((λ r, if scalar r then r else replacement) <$> l)) as ->.
  { induction l as [|r l IH]; cbn; [done|]. rewrite IH. f_equal. unfold utf8_encode. by destruct (scalar r) eqn:E; rewrite ?E. }
  apply clean_texts, list.Forall_fmap, list.Forall_true. intros r. cbn. by destruct (scalar r) eqn:E.
Qed.

Lemma keeps_string : keeps clean d_string.
Proof. intros old [] H; cbn; try done. apply clean_unquote. Qed.

Definition both {A B} (P : A → Prop) (Q : B → Prop) : A * B → Prop := λ p, P p.1 ∧ Q p.2.

Lemma keeps_fst {A B} (P : A → Prop) (Q : B → Prop) d : keeps P d → keeps (both P Q) (d_fst (B := B) d).
Proof. intros Hd [a b] n [Ha Hb]. unfold d_fst, into. cbn. specialize (Hd a n Ha). destruct (d a n). done. Qed.
Lemma keeps_snd {A B} (P : A → Prop) (Q : B → Prop) d : keeps Q d → keeps (both P Q) (d_snd (A := A) d).
Proof. intros Hd [a b] n [Ha Hb]. unfold d_snd, into. cbn. specialize (Hd b n Hb). destruct (d b n). done. Qed.
Lemma keeps_any {A} (d : decoder A) : keeps (λ _, True) d.
Proof. done. Qed.

Lemma keeps_field {A} (P : A → Prop) fs : Forall (λ f : string * decoder A, keeps P f.2) fs → ∀ key, keeps P (d_field fs key).
Proof.
  induction 1 as [|[name d] fs Hd _ IH]; intros key old n Hold; cbn; [done|]. destruct (same_name key name); [by apply Hd|by apply IH].
Qed.

Lemma keeps_struct {A} (P : A → Prop) fs : Forall (λ f : string * decoder A, keeps P f.2) fs → keeps P (d_struct fs).
Proof.
  intros Hfs old n Hold. destruct n as [| | | | |t members]; try done. cbn [d_struct]. generalize true as ok. revert old Hold.
  induction members as [|kv l IH]; intros old Hold ok; [done|]. cbn [foldl fst snd].
  pose proof (keeps_field P fs Hfs (unquote kv.1) old kv.2 Hold) as H. destruct (d_field fs (unquote kv.1) old kv.2) as [a ok'].
  by apply IH.
Qed.

Lemma unmarshal_keeps {A} (P : A → Prop) d a0 data a : keeps P d → P a0 → unmarshal d a0 data = Some a → P a.
Proof.
  unfold unmarshal, Unmarshal. intros Hd H0. destruct (Parse data) as [n|]; [|done].
  specialize (Hd a0 n H0). destruct (d a0 n) as [x []]; [|done]. by intros [= <-].
Qed.

(** ** Decoding an object member by member *)

Fixpoint read_members {A} (fs : fields_of A) (acc : A * bool) (l : list (string * govalue)) : A * bool :=
  match l with
  | [] => acc
  | (k, v) :: l => read_members fs (let '(a, ok) := d_field fs k acc.1 (node_of v) in (a, acc.2 && ok)) l
  end.

Lemma read_members_nil {A} (fs : fields_of A) acc : read_members fs acc [] = acc.
Proof. done. Qed.

Definition clean_keys (l : list (string * govalue)) : bool := forallb (λ kv, String.eqb (sanitize kv.1) kv.1) l.

Lemma d_struct_object {A} (fs : fields_of A) old l : clean_keys l = true →
  d_struct fs old (node_of (VObject l)) = read_members fs (old, true) l.
Proof.
  cbn [d_struct node_of]. generalize true at 2 3 as ok. revert old.
  induction l as [|[k v] l IH]; intros old ok; [done|]. cbn [clean_keys forallb]. intros [Hk Hl]%andb_true_iff.
  cbn [fmap list_fmap foldl fst snd read_members]. apply String.eqb_eq in Hk. cbn [fst] in Hk. rewrite unquote_escape, Hk.
  destruct (d_field fs k old (node_of v)) as [a ok']. by apply IH.
Qed.

Lemma d_string_read old s : clean s → d_string old (node_of (VString s)) = (s, true).
Proof. intros Hs. cbn [d_string node_of]. by rewrite unquote_escape, Hs. Qed.

(** ** What a codec promises *)

Class CodecSpec {A} (c : codec A) := {
  tidy : A → Prop;       (* what decoding may leave in a variable *)
  writable : A → Prop;   (* what is written as JSON *)
  back : A → A;          (* what is read back of a value *)
  tidy_zero : tidy (zero c);
  tidy_dec : keeps tidy (dec c);
  plain_enc v : writable v → plain (enc c v) = true;
  dec_enc v : writable v → dec c (zero c) (node_of (enc c v)) = (back v, true)
}.
Arguments tidy {A} c {_} _. Arguments writable {A} c {_} _. Arguments plain_enc {A} c {_} v _. Arguments back {A} c {_} _. Arguments tidy_zero {A} c {_}. Arguments tidy_dec {A} c {_}.
Arguments dec_enc {A} c {_} v _.

Lemma decode_tidy {A} (c : codec A) `{!CodecSpec c} body v : decode c body = Some v → tidy c v.
Proof. apply unmarshal_keeps; [apply tidy_dec|apply tidy_zero]. Qed.

(** What a client can read at all, it reads as it was written. *)
Lemma decode_encode {A} (c : codec A) `{!CodecSpec c} v :
  writable c v → Valid (encode c v) = true → decode c (encode c v) = Some (back c v).
Proof.
  intros Hv Hd. unfold Valid in Hd. apply bool_decide_eq_true in Hd as [n Hn].
  unfold decode, unmarshal, Unmarshal. unfold encode in *. rewrite Hn. apply Parse_marshal_inv in Hn as ->; [|by apply (plain_enc c)].
  by rewrite (dec_enc c).
Qed.

#[export] Instance string_spec : CodecSpec c_string.
Proof.
  refine {| tidy := clean; writable := λ _, True; back := sanitize |}; [done|apply keeps_string|done|].
  intros v _. cbn. by rewrite unquote_escape.
Defined.

#[export] Instance int_spec : CodecSpec c_int.
Proof.
  refine {| tidy := in_int64; writable := in_int64; back := id |}.
  - done.
  - intros old n Hold. destruct n as [| |l| | |]; cbn; try done. destruct (parse_int l) as [z []] eqn:E; [|done]. cbn.
    revert E. unfold parse_int. repeat case_match; intros [= <-]; apply clamp64_range || done.
  - done.
  - intros v Hv. cbn. by rewrite parse_format_int.
Defined.

#[export] Instance bool_spec : CodecSpec c_bool.
Proof. refine {| tidy := λ _, True; writable := λ _, True; back := id |}; done. Defined.

(** A [RawMessage] reads back as the text it was written as. *)
#[export] Instance raw_spec : CodecSpec c_raw.
Proof.
  refine {| tidy := λ _, True; writable := λ '(Raw t), is_Some (raw_node t);
            back := λ '(Raw t), Raw (node_text (node_of (VRaw t))) |}; [done|done| |by intros [t]].
  intros [t] Ht. by apply bool_decide_eq_true.
Defined.

(** Nil pointers are written as null, so nothing else may be. *)
Class NeverNull {A} (c : codec A) := never_null v : node_of (enc c v) ≠ NNull.
#[export] Instance string_never_null : NeverNull c_string. Proof. done. Qed.
#[export] Instance int_never_null : NeverNull c_int. Proof. done. Qed.

#[export] Instance pointer_spec {A} (c : codec A) `{!CodecSpec c, !NeverNull c} : CodecSpec (c_pointer c).
Proof.
  refine {| tidy := λ v, match v with Some a => tidy c a | None => True end;
            writable := λ v, match v with Some a => writable c a | None => True end; back := λ v, back c <$> v |}.
  - done.
  - intros old n Hold. cbn. unfold d_pointer.
    assert (tidy c (default (zero c) old)) as H by (destruct old; [done|apply tidy_zero]).
    pose proof (tidy_dec c _ n H) as Hd. destruct n; try done; cbn; by destruct (dec c _ _).
  - intros [v|] Hv; [|done]. by apply (plain_enc c).
  - intros [v|] Hv; [|done]. cbn in *. unfold d_pointer. cbn. pose proof (dec_enc c v Hv) as E.
    pose proof (never_null v) as Hn. destruct (node_of (enc c v)); try done; by rewrite E.
Defined.

#[local] Arguments elems : simpl never.

#[export] Instance slice_spec {A} (c : codec A) `{!CodecSpec c} : CodecSpec (c_slice c).
Proof.
  refine {| tidy := λ v, match v with Some s => Forall (tidy c) (memory s) | None => True end;
            writable := λ v, Forall (writable c) (elems v);
            back := λ v, match v with Some _ => made (back c <$> elems v) | None => None end |}.
  - done.
  - assert (∀ l old, Forall (tidy c) old → Forall (tidy c) (d_elems (zero c) (dec c) old l).1) as He.
    { induction l as [|n l IH]; intros old Ho; [constructor|]. cbn [d_elems].
      assert (tidy c (default (zero c) (head old))) as H by (destruct Ho; [apply tidy_zero|done]).
      pose proof (tidy_dec c _ n H) as Hd. destruct (dec c _ n) as [a ok].
      assert (Forall (tidy c) (tail old)) as Ht by (by destruct Ho).
      specialize (IH _ Ht). destruct (d_elems _ _ (tail old) l). by constructor. }
    intros old n Hold. cbn. unfold d_slice. destruct n as [| | | |t [|x l]|]; try done; [by constructor|].
    assert (Forall (tidy c) (match old with Some s => memory s | None => [] end)) as Hm by (by destruct old).
    specialize (He (x :: l) _ Hm). destruct (d_elems _ _ _ (x :: l)) as [l' ok]. cbn in *.
    apply list.Forall_app_2; [done|]. by apply list.Forall_drop.
  - intros [s|] Hv; [|done]. cbn [enc c_slice plain]. apply forallb_Forall, list.Forall_fmap.
    eapply list.Forall_impl; [exact Hv|]. intros a. apply (plain_enc c).
  - intros [s|]; [|done]. cbn [enc c_slice]. generalize (elems (Some s)) as l. intros l Hs. cbn [c_slice dec node_of zero]. unfold d_slice.
    assert (∀ l, Forall (writable c) l → d_elems (zero c) (dec c) [] (node_of <$> (enc c <$> l)) = (back c <$> l, true)) as E.
    { clear. induction l as [|a l IH]; intros Ha; [done|].
      apply list.Forall_cons in Ha as [Ha Hl]. cbn. rewrite (dec_enc c) by done. by rewrite IH. }
    specialize (E l Hs). destruct l as [|a l]; [done|]. cbn [fmap list_fmap] in *. rewrite E.
    rewrite app_nil_r. done.
Defined.

(** ** Structs *)

Class FieldsSpec {A} (fs : fields A) := {
  f_tidy : A → Prop;
  f_writable : A → Prop;
  f_back : A → A;
  f_tidy_zero : f_tidy (f_zero fs);
  f_tidy_dec : Forall (λ nd : string * decoder A, keeps f_tidy nd.2) (f_dec fs);
  f_plain v : f_writable v → forallb (λ kv, plain kv.2) (f_enc fs v) = true;
  f_dec_enc v : f_writable v → read_members (f_dec fs) (f_zero fs, true) (f_enc fs v) = (f_back v, true);
  f_clean v : clean_keys (f_enc fs v) = true;
  f_named v : Forall (λ kv : string * govalue, kv.1 ∈ (f_dec fs).*1) (f_enc fs v)
}.
Arguments f_tidy {A} fs {_} _. Arguments f_writable {A} fs {_} _. Arguments f_back {A} fs {_} _.

(** [name] is a key of its own, none of the other fields' keys. *)
Definition fresh {A} (name : string) (fs : fields_of A) : bool :=
  String.eqb (sanitize name) name && same_name name name && forallb (λ nd : string * decoder A, negb (same_name nd.1 name)) fs.
Class Fresh {A} (name : string) (fs : fields_of A) := is_fresh : fresh name fs = true.
#[export] Hint Extern 0 (Fresh _ _) => vm_compute; reflexivity : typeclass_instances.

#[export] Instance no_fields_spec : FieldsSpec no_fields.
Proof. refine {| f_tidy := λ _, True; f_writable := λ _, True; f_back := id |}; try done; try constructor; by intros []. Defined.

(** The fields after the first, in the pair with it. *)
Abbreviation after_first fs := ((λ nd, (nd.1, d_snd nd.2)) <$> fs).

Lemma d_field_after {A B} (fs : fields_of B) k (a : A) b n :
  d_field (after_first fs) k (a, b) n = let '(b', ok') := d_field fs k b n in ((a, b'), ok').
Proof. induction fs as [|[name d] fs IH]; [done|]. cbn. destruct (same_name k name); [done|apply IH]. Qed.

Lemma d_fst_pair {A B} (d : decoder A) a (b : B) n : d_fst d (a, b) n = let '(a', ok) := d a n in ((a', b), ok).
Proof. done. Qed.

Lemma read_members_rest {A B} name (d : decoder A) (fs : fields_of B) a b ok l :
  fresh name fs = true → Forall (λ kv : string * govalue, kv.1 ∈ fs.*1) l →
  read_members ((name, d_fst d) :: after_first fs) ((a, b), ok) l
  = let '(b', ok') := read_members fs (b, ok) l in ((a, b'), ok').
Proof.
  unfold fresh. intros [[_ _]%andb_true_iff Hf]%andb_true_iff Hl.
  apply forallb_Forall in Hf. rewrite list.Forall_forall in Hf.
  revert b ok. induction Hl as [|[k v] l Hk _ IH]; intros b ok; [done|]. cbn [read_members d_field fst snd].
  apply list_elem_of_fmap in Hk as ([k' dk] & Ek & Hin). cbn in Ek. subst k'.
  specialize (Hf _ Hin). cbn in Hf. apply negb_true_iff in Hf. rewrite Hf, d_field_after.
  destruct (d_field fs k b (node_of v)) as [b' ok']. apply IH.
Qed.

#[export] Instance field_spec {A B} om name (c : codec A) (fs : fields B)
  `{!CodecSpec c, !FieldsSpec fs, !Fresh name (f_dec fs)} : FieldsSpec (field_with om name c fs).
Proof.
  refine {| f_tidy := both (tidy c) (f_tidy fs); f_writable := both (writable c) (f_writable fs);
            f_back := λ v, (if om && is_empty c v.1 then zero c else back c v.1, f_back fs v.2) |}.
  - split; [apply tidy_zero|apply f_tidy_zero].
  - constructor; [apply keeps_fst, tidy_dec|]. apply list.Forall_fmap.
    eapply list.Forall_impl; [apply f_tidy_dec|]. intros nd. apply keeps_snd.
  - intros [a b] [Ha Hb]. cbn [f_enc field_with fst snd] in *. rewrite forallb_app, f_plain by done. rewrite andb_true_r.
    destruct (om && is_empty c a); [done|]. cbn. by rewrite (plain_enc c).
  - intros [a b] [Ha Hb]. cbn [f_enc field_with fst snd f_dec f_zero] in *.
    pose proof is_fresh as Hfresh. pose proof Hfresh as Hn. unfold fresh in Hn. apply andb_true_iff in Hn as [[_ Hn]%andb_true_iff _].
    destruct (om && is_empty c a); cbn [app].
    + rewrite read_members_rest by (done || apply f_named). by rewrite f_dec_enc.
    + cbn [read_members d_field fst snd]. rewrite Hn, d_fst_pair.
      rewrite (dec_enc c) by done. cbn [andb].
      rewrite read_members_rest by (done || apply f_named). by rewrite f_dec_enc.
  - intros [a b]. cbn [f_enc field_with fst snd]. unfold clean_keys. rewrite forallb_app. apply andb_true_iff. split; [|apply f_clean].
    pose proof is_fresh as Hn. unfold fresh in Hn. apply andb_true_iff in Hn as [[Hn _]%andb_true_iff _].
    destruct (_ && _); [done|]. apply andb_true_iff. by split.
  - intros [a b]. cbn [f_enc f_dec field_with fst snd]. apply list.Forall_app_2.
    + destruct (_ && _); [constructor|]. repeat constructor.
    + eapply list.Forall_impl; [apply f_named|]. intros kv Hkv. cbn [fmap list_fmap fst]. right.
      rewrite <-list_fmap_compose. exact Hkv.
Defined.

(** A record and its fields as nested pairs. *)
Class Views {R A} (build : A → R) (view : R → A) := view_build a : view (build a) = a.
Ltac destruct_fields := intros ?; repeat match goal with p : (_ * _)%type |- _ => destruct p | u : unit |- _ => destruct u end; reflexivity.
#[export] Hint Extern 0 (Views _ _) => destruct_fields : typeclass_instances.

#[export] Instance struct_spec {R A} (build : A → R) view (fs : fields A) `{!Views build view, !FieldsSpec fs} :
  CodecSpec (struct build view fs).
Proof.
  refine {| tidy := λ r, f_tidy fs (view r); writable := λ r, f_writable fs (view r); back := λ r, build (f_back fs (view r)) |}.
  - cbn. rewrite view_build. apply f_tidy_zero.
  - intros old n Hold. cbn. unfold into.
    pose proof (keeps_struct (f_tidy fs) (f_dec fs) f_tidy_dec (view old) n Hold) as H.
    destruct (d_struct _ _ n). cbn in *. by rewrite view_build.
  - intros r Hr. by apply f_plain.
  - intros r Hr. cbn [dec zero enc struct] in *. unfold into. rewrite view_build.
    rewrite d_struct_object by apply f_clean. by rewrite f_dec_enc.
Defined.

#[export] Instance struct_never_null {R A} (build : A → R) view (fs : fields A) : NeverNull (struct build view fs).
Proof. done. Qed.
