(* ===== verification/Trim.v ===== *)
(** * White space at the ends

    [strings.TrimSpace] takes whole characters off both ends: a byte that is in
    no white-space character stops it ([solid]), and what is trimmed stays so. *)

From S2P Require Import Prelude Decimal Numeric Utf8 GoJson GoJsonParse.

(** In no encoding of white space. *)
Definition solid (a : Ascii.ascii) : bool := forallb (str_forallb (λ b, negb (bool_decide (b = a)))) space_strings.

Lemma trim_left_of_none encs s : strip_one encs s = None → trim_left_of encs s = s.
Proof. intros H. unfold trim_left_of. destruct (String.length s); cbn; [done|]. by rewrite H. Qed.

Lemma strip_one_none encs s e : strip_one encs s = None → e ∈ encs → has_prefix e s = false.
Proof.
  induction encs as [|e' encs IH]; cbn; intros H He; [by apply elem_of_nil in He|].
  destruct (has_prefix e' s) eqn:E; [done|]. apply elem_of_cons in He as [->|He]; auto.
Qed.

Section stop.
  Context (encs : list string) (Hne : Forall (λ e, e ≠ EmptyString) encs) (a : Ascii.ascii)
    (Ha : forallb (str_forallb (λ b, negb (bool_decide (b = a)))) encs = true).

Lemma has_prefix_stop e r v : str_forallb (λ b, negb (bool_decide (b = a))) e = true →
  has_prefix e (r +:+ String a v) = has_prefix e r.
Proof.
  clear Hne Ha. revert r. induction e as [|b e IH]; intros r He; [by destruct r|].
  cbn [str_forallb] in He. apply andb_true_iff in He as [Hb He]. destruct r as [|c r]; string_norm; cbn.
  - apply negb_true_iff in Hb. by rewrite Hb.
  - by rewrite IH.
Qed.

Lemma strip_one_stop r v : strip_one encs (r +:+ String a v) = (λ s, s +:+ String a v) <$> strip_one encs r.
Proof using Ha.
  clear Hne. induction encs as [|e l IH]; [done|]. cbn [forallb] in Ha. apply andb_true_iff in Ha as [He Hl].
  cbn [strip_one foldr]. fold (strip_one l r). fold (strip_one l (r +:+ String a v)).
  rewrite has_prefix_stop, IH by done. destruct (has_prefix e r) eqn:E; [|done].
  apply (has_prefix_local (String a v)) in E as [_ E]. cbn [fmap option_fmap option_map]. by rewrite <-E.
Qed.

Lemma trim_left_of_stop r v : trim_left_of encs (r +:+ String a v) = trim_left_of encs r +:+ String a v.
Proof using Ha Hne.
  remember (String.length r) as n eqn:Hn. revert r Hn. induction n as [n IH] using lt_wf_ind. intros r ->.
  pose proof (strip_one_stop r v) as E. destruct (strip_one encs r) as [r'|] eqn:Er; cbn in E.
  - rewrite (trim_left_of_strip encs Hne _ _ E), (trim_left_of_strip encs Hne _ _ Er).
    apply (IH (String.length r')); [by eapply strip_one_shorter|done].
  - by rewrite !trim_left_of_none.
Qed.

Lemma trim_left_of_trimmed s : strip_one encs (trim_left_of encs s) = None.
Proof using Hne.
  clear Ha. remember (String.length s) as n eqn:Hn. revert s Hn. induction n as [n IH] using lt_wf_ind. intros s ->.
  destruct (strip_one encs s) as [s'|] eqn:Es; [|by rewrite trim_left_of_none].
  rewrite (trim_left_of_strip encs Hne _ _ Es). apply (IH (String.length s')); [by eapply strip_one_shorter|done].
Qed.
End stop.

Definition trim_end (s : string) : string := str_rev (trim_left_of (str_rev <$> space_strings) (str_rev s)).

Lemma trim_space_ends s : trim_space s = trim_end (trim_left_of space_strings s).
Proof. done. Qed.

Lemma solid_rev a : solid a = true → forallb (str_forallb (λ b, negb (bool_decide (b = a)))) (str_rev <$> space_strings) = true.
Proof.
  unfold solid. generalize space_strings as l. induction l as [|e l IH]; [done|]. cbn.
  intros [He Hl]%andb_true_iff. rewrite str_rev_forallb, He. by apply IH.
Qed.

Lemma trim_end_stop x a d : solid a = true → trim_end (x +:+ String a d) = x +:+ String a (trim_end d).
Proof.
  intros Ha. unfold trim_end. change (String a d) with (String a EmptyString +:+ d).
  rewrite !str_rev_app, str_app_assoc. change (str_rev (String a "")) with (String a EmptyString). string_norm.
  rewrite trim_left_of_stop by (apply rev_spaces_nonempty || by apply solid_rev).
  rewrite !str_rev_app. change (str_rev (String a ?y)) with (str_rev (String a EmptyString +:+ y)).
  rewrite str_rev_app, str_rev_involutive, str_app_assoc. done.
Qed.

Lemma trim_left_solid a s : solid a = true → trim_left_of space_strings (String a s) = String a s.
Proof. intros Ha. apply (trim_left_of_stop space_strings spaces_nonempty a Ha EmptyString s). Qed.

(** A text between two solid bytes. *)
Lemma trim_space_solid a s b : solid a = true → solid b = true →
  trim_space (String a (s +:+ String b EmptyString)) = String a (s +:+ String b EmptyString).
Proof.
  intros Ha Hb. rewrite trim_space_ends, trim_left_solid by done.
  exact (trim_end_stop (String a s) b EmptyString Hb).
Qed.

Lemma trim_end_idemp s : trim_end (trim_end s) = trim_end s.
Proof.
  unfold trim_end. rewrite str_rev_involutive. f_equal. apply trim_left_of_none, trim_left_of_trimmed, rev_spaces_nonempty.
Qed.

Lemma trim_end_prefix s : ∃ t, s = trim_end s +:+ t.
Proof.
  destruct (trim_left_of_suffix (str_rev <$> space_strings) (str_rev s)) as [p Hp]. exists (str_rev p).
  unfold trim_end. rewrite <-str_rev_app, <-Hp. by rewrite str_rev_involutive.
Qed.

Lemma trim_space_idemp s : trim_space (trim_space s) = trim_space s.
Proof.
  rewrite !trim_space_ends. rewrite (trim_left_of_none _ (trim_end _)); [apply trim_end_idemp|].
  pose proof (trim_left_of_trimmed space_strings spaces_nonempty s) as Hn.
  set (t := trim_left_of space_strings s) in *. destruct (trim_end_prefix t) as [u Hu].
  destruct (strip_one space_strings (trim_end t)) as [r|] eqn:E; [|done]. exfalso.
  apply strip_one_Some in E as (e & He & Ee). pose proof (strip_one_none _ _ e Hn He) as Hf.
  rewrite Hu, Ee, str_app_assoc in Hf. clear -Hf. induction e as [|a e IH]; [by destruct (r +:+ u)|].
  rewrite str_app_cons in Hf. cbn in Hf. rewrite bool_decide_true in Hf by done. auto.
Qed.

(** *** Trimming keeps runes whole *)

Lemma spaces_clean e : e ∈ space_strings → clean e ∧ starts_rune e = true.
Proof.
  intros He. assert (Forall (λ e, String.eqb (sanitize e) e && starts_rune e = true) space_strings) as H.
  { apply forallb_Forall. vm_compute. reflexivity. }
  rewrite list.Forall_forall in H. specialize (H e He). apply andb_true_iff in H as [H1%String.eqb_eq H2]. done.
Qed.

(** What holds of a text and of it without the encoding at its front. *)
Lemma trim_left_of_keeps (P : string → Prop) encs s :
  (∀ e t, e ∈ encs → P (e +:+ t) → P t) → P s → P (trim_left_of encs s).
Proof.
  intros He. unfold trim_left_of. generalize (String.length s) as fuel. intros fuel. revert s.
  induction fuel as [|fuel IH]; intros s Hs; cbn; [done|].
  destruct (strip_one encs s) as [s'|] eqn:E; [|done]. apply strip_one_Some in E as (e & Hin & ->). apply IH. by eapply He.
Qed.

Lemma clean_trim_space s : clean s → clean (trim_space s).
Proof.
  intros Hs. rewrite trim_space_ends. apply (trim_left_of_keeps clean space_strings) in Hs; [|].
  2:{ intros e t He. by apply clean_after, spaces_clean. }
  revert Hs. generalize (trim_left_of space_strings s) as u. intros u Hu. unfold trim_end.
  apply (trim_left_of_keeps (λ t, clean (str_rev t))); [|by rewrite str_rev_involutive].
  intros e t He H. apply list_elem_of_fmap in He as (e' & -> & He). apply spaces_clean in He as [Hc Hst].
  rewrite str_rev_app, str_rev_involutive in H. by eapply clean_cut.
Qed.
