(* ===== verification/GoAny.v ===== *)
(** * Values of any type

    What encoding/json puts into an [any], a [map[string]any] or a
    [[]map[string]any], and how it writes them back: numbers are float64, the
    keys of an object are written in order. *)

From S2P Require Import Prelude Decimal Utf8 GoJson GoJsonParse GoJsonFacts GoStruct FloatText.

Open Scope Z_scope.

(** [None] when a number does not fit a float64. *)
Fixpoint json_value (n : node) : option json :=
  match n with
  | NNull => Some JNull
  | NBool b => Some (JBool b)
  | NNumber literal => JNumber <$> float_of literal
  | NString content => Some (JString (unquote content))
  | NArray _ items =>
      JArray <$> foldr (λ n rest, v ← json_value n; vs ← rest; Some (v :: vs)) (Some []) items
  | NObject _ members =>
      JObject <$> foldr (λ kv rest, v ← json_value kv.2; vs ← rest; Some ((unquote kv.1, v) :: vs)) (Some []) members
  end.

Definition d_any : decoder json := λ old n, match json_value n with Some v => (v, true) | None => (old, false) end.

(** A map that is there already keeps its other keys. *)
Definition d_object : decoder (option object) := λ old n,
  match n with
  | NObject _ _ => match json_value n with
                   | Some (JObject o) => (Some (default [] old ++ o), true)
                   | _ => (old, false)
                   end
  | NNull => (None, true)
  | _ => (old, false)
  end.

(** The members of an object, by name: the last of a name counts. *)
Definition members_by_name {A} (o : list (string * A)) : list (string * A) :=
  map_to_list (foldl (λ (m : gmap string A) kv, <[kv.1 := kv.2]> m) ∅ o).

Fixpoint json_go (j : json) : govalue :=
  match j with
  | JNull => VNull
  | JBool b => VBool b
  | JNumber literal => VNumber literal
  | JString s => VString s
  | JArray items => VArray (json_go <$> items)
  | JObject o => VMap (members_by_name ((λ kv, (kv.1, json_go kv.2)) <$> o))
  end.

Definition object_go (o : option object) : govalue := match o with Some o => json_go (JObject o) | None => VNull end.

Definition c_any : codec json := Codec JNull d_any json_go (λ j, match j with JNull => true | _ => false end).
Definition c_object : codec (option object) := Codec None d_object object_go (λ o, bool_decide (default [] o = [])).

(** [json.Unmarshal(text, &v)] with [var v any]. *)
Definition unmarshal_any (text : string) : option json := Parse text ≫= json_value.

Definition set_member (key : string) (v : json) (o : object) : object := o ++ [(key, v)].
Definition drop_member (key : string) (o : object) : object := filter (λ kv, kv.1 ≠ key) o.

Example any_round : (λ j, marshal (json_go j)) <$> unmarshal_any (dq "{'b':[1.50,null,{}],'a':'<','b':12345678901234567890}")
  = Some (dq "{'a':'\u003c','b':12345678901234567000}").
Proof. vm_compute. reflexivity. Qed.

(** * What goes through an [any]

    A value that was decoded into an [any] is written without raw texts, and no
    deeper than it was read. *)

Open Scope Z_scope.

Section node_induction.
  Context (P : node → Prop).
  Hypotheses (Hnull : P NNull) (Hbool : ∀ b, P (NBool b)) (Hnumber : ∀ l, P (NNumber l)) (Hstring : ∀ c, P (NString c))
    (Harray : ∀ t l, Forall P l → P (NArray t l)) (Hobject : ∀ t l, Forall (λ kv, P kv.2) l → P (NObject t l)).

Fixpoint node_nested (n : node) : P n :=
  match n with
  | NNull => Hnull | NBool b => Hbool b | NNumber l => Hnumber l | NString c => Hstring c
  | NArray t l => Harray t l ((fix go l : Forall P l :=
      match l with [] => @List.Forall_nil _ P | x :: l => @List.Forall_cons _ P x l (node_nested x) (go l) end) l)
  | NObject t l => Hobject t l ((fix go l : Forall (λ kv, P kv.2) l :=
      match l with [] => @List.Forall_nil _ _ | x :: l => @List.Forall_cons _ (λ kv, P kv.2) x l (node_nested x.2) (go l) end) l)
  end.
End node_induction.

Lemma members_by_name_all {A} (P : A → Prop) (o : list (string * A)) :
  Forall (λ kv, P kv.2) o → Forall (λ kv, P kv.2) (members_by_name o).
Proof.
  intros Ho. unfold members_by_name.
  assert (∀ m : gmap string A, map_Forall (λ _, P) m → map_Forall (λ _, P) (foldl (λ m kv, <[kv.1 := kv.2]> m) m o)) as H.
  { induction Ho as [|[k v] o Hv _ IH]; intros m Hm; [done|]. apply IH. cbn. by apply map_Forall_insert_2. }
  specialize (H ∅ (map_Forall_empty _)). apply list.Forall_forall. intros [k v] Hkv%elem_of_map_to_list.
  by apply (H k).
Qed.

(** Written without raw texts, and at most [h] deep. *)
Definition fits (h : Z) (v : govalue) : Prop := rawless v = true ∧ height v <= h.

Lemma fits_array h l : 0 <= h → Forall (fits h) l → fits (1 + h) (VArray l).
Proof.
  intros Hh. unfold fits. cbn [rawless height]. induction 1 as [|v l [Hv Hl] _ [IHr IHh]]; cbn; [split; [done|lia]|].
  rewrite Hv, IHr. split; [done|]. lia.
Qed.

Lemma fits_object h l : 0 <= h → Forall (λ kv : string * govalue, fits h kv.2) l → fits (1 + h) (VObject l).
Proof.
  intros Hh. unfold fits. cbn [rawless height]. induction 1 as [|v l [Hv Hl] _ [IHr IHh]]; cbn; [split; [done|lia]|].
  rewrite Hv, IHr. split; [done|]. lia.
Qed.

Lemma fits_map h o : 0 <= h → Forall (λ kv : string * govalue, fits h kv.2) o → fits (1 + h) (VMap (members_by_name o)).
Proof.
  intros Hh Ho. apply fits_object; [done|]. rewrite merge_sort_Permutation. by apply (members_by_name_all (fits h)).
Qed.

Lemma fits_weaken h h' v : h <= h' → fits h v → fits h' v.
Proof. intros Hh [Hr Hv]. split; [done|lia]. Qed.

Lemma json_value_fits n : ∀ j, json_value n = Some j → fits (node_height n) (json_go j).
Proof.
  induction n as [| |l| |t l IH|t l IH] using node_nested; intros j H; cbn [json_value node_height] in *.
  - by injection H as <-.
  - by injection H as <-.
  - apply fmap_Some in H as (s & Hs & ->). apply float_of_number in Hs as [H1 H2]. split; [|done]. cbn.
    rewrite H1, H2, bool_decide_true by done. done.
  - by injection H as <-.
  - apply fmap_Some in H as (js & Hjs & ->). cbn [json_go]. fold (items_height l). apply fits_array; [apply (heights_nonneg l [])|].
    revert js Hjs. induction IH as [|x l Hx Hl IHl]; intros js Hjs; cbn [foldr] in Hjs; [by injection Hjs as <-|].
    apply bind_Some in Hjs as (v & Hv & Hjs). apply bind_Some in Hjs as (vs & Hvs & [= <-]). cbn [items_height foldr fmap list_fmap].
    constructor; [by eapply fits_weaken, Hx; [cbn; lia|]|].
    specialize (IHl vs Hvs). eapply list.Forall_impl; [exact IHl|]. intros w. apply fits_weaken. unfold items_height. lia.
  - apply fmap_Some in H as (o & Ho & ->). cbn [json_go]. fold (members_height l). apply fits_map; [apply (heights_nonneg [] l)|].
    revert o Ho. induction IH as [|x l Hx Hl IHl]; intros o Ho; cbn [foldr] in Ho; [by injection Ho as <-|].
    apply bind_Some in Ho as (v & Hv & Ho). apply bind_Some in Ho as (vs & Hvs & [= <-]). cbn [members_height foldr fmap list_fmap].
    constructor; [by eapply fits_weaken, Hx; [cbn; lia|]|].
    specialize (IHl vs Hvs). eapply list.Forall_impl; [exact IHl|]. intros w. apply fits_weaken. unfold members_height. lia.
Qed.

Lemma unmarshal_any_fits text j : unmarshal_any text = Some j → fits max_depth (json_go j).
Proof.
  unfold unmarshal_any, Parse. intros (n & Hn & Hj)%bind_Some. apply bind_Some in Hn as ([n' r] & Hv & Hr).
  destruct (String.eqb _ _); [|done]. injection Hr as ->.
  assert (0 <= max_depth) as Hmax by done. pose proof (proj1 (parser_within _) max_depth _ _ _ Hmax Hv).
  eapply fits_weaken, json_value_fits; done.
Qed.
