(* ===== verification/ProtokitData.v ===== *)
(** * Requests and responses

    The structs of pkg/protokit/protokit.go, each with the codec of its tags. *)

From S2P Require Import Prelude Decimal Utf8 GoJson GoStruct.

Open Scope Z_scope.
Open Scope tag.

(** ** OpenAI chat completions *)

Record openAIImageURLValue := { URL : string; Detail : string }.
Definition c_openAIImageURLValue : codec openAIImageURLValue := struct
  (λ '(a, (b, _)), {| URL := a; Detail := b |}) (λ v, (URL v, (Detail v, tt)))
  ("url" ↦ c_string & "detail" ↦? c_string & no_fields).

Record openAIContentPart := { part_Type : string; part_Text : string; ImageURL : option openAIImageURLValue }.
Definition c_openAIContentPart : codec openAIContentPart := struct
  (λ '(a, (b, (c, _))), {| part_Type := a; part_Text := b; ImageURL := c |})
  (λ v, (part_Type v, (part_Text v, (ImageURL v, tt))))
  ("type" ↦ c_string & "text" ↦? c_string & "image_url" ↦? c_pointer c_openAIImageURLValue & no_fields).

Record openAIFunction := { fn_Name : string; fn_Description : string; fn_Parameters : RawMessage; fn_Arguments : string }.
Definition c_openAIFunction : codec openAIFunction := struct
  (λ '(a, (b, (c, (d, _)))), {| fn_Name := a; fn_Description := b; fn_Parameters := c; fn_Arguments := d |})
  (λ v, (fn_Name v, (fn_Description v, (fn_Parameters v, (fn_Arguments v, tt)))))
  ("name" ↦ c_string & "description" ↦? c_string & "parameters" ↦ c_raw & "arguments" ↦? c_string & no_fields).

Record openAITool := { tool_Type : string; tool_Function : openAIFunction }.
Definition c_openAITool : codec openAITool := struct
  (λ '(a, (b, _)), {| tool_Type := a; tool_Function := b |}) (λ v, (tool_Type v, (tool_Function v, tt)))
  ("type" ↦ c_string & "function" ↦ c_openAIFunction & no_fields).

Record openAIToolCall := { call_ID : string; call_Type : string; call_Function : openAIFunction }.
Definition c_openAIToolCall : codec openAIToolCall := struct
  (λ '(a, (b, (c, _))), {| call_ID := a; call_Type := b; call_Function := c |})
  (λ v, (call_ID v, (call_Type v, (call_Function v, tt))))
  ("id" ↦ c_string & "type" ↦ c_string & "function" ↦ c_openAIFunction & no_fields).

Record openAIMessage := {
  msg_Role : string; msg_Content : RawMessage; msg_Name : string;
  msg_ToolCalls : option (slice openAIToolCall); msg_ToolCallID : string
}.
Definition c_openAIMessage : codec openAIMessage := struct
  (λ '(a, (b, (c, (d, (e, _))))), {| msg_Role := a; msg_Content := b; msg_Name := c; msg_ToolCalls := d; msg_ToolCallID := e |})
  (λ v, (msg_Role v, (msg_Content v, (msg_Name v, (msg_ToolCalls v, (msg_ToolCallID v, tt))))))
  ("role" ↦ c_string & "content" ↦ c_raw & "name" ↦? c_string & "tool_calls" ↦? c_slice c_openAIToolCall
   & "tool_call_id" ↦? c_string & no_fields).

Record openAIRequest := {
  oa_Model : string; oa_Messages : option (slice openAIMessage); oa_Stream : bool; oa_Tools : option (slice openAITool);
  oa_MaxTokens : option Z; oa_Temperature : option float; oa_TopP : option float; oa_Stop : RawMessage
}.
Definition c_openAIRequest : codec openAIRequest := struct
  (λ '(a, (b, (c, (d, (e, (f, (g, (h, _)))))))), {| oa_Model := a; oa_Messages := b; oa_Stream := c; oa_Tools := d;
     oa_MaxTokens := e; oa_Temperature := f; oa_TopP := g; oa_Stop := h |})
  (λ v, (oa_Model v, (oa_Messages v, (oa_Stream v, (oa_Tools v, (oa_MaxTokens v, (oa_Temperature v, (oa_TopP v, (oa_Stop v, tt)))))))))
  ("model" ↦ c_string & "messages" ↦ c_slice c_openAIMessage & "stream" ↦ c_bool & "tools" ↦ c_slice c_openAITool
   & "max_tokens" ↦ c_pointer c_int & "temperature" ↦ c_pointer c_float & "top_p" ↦ c_pointer c_float
   & "stop" ↦ c_raw & no_fields).

Record openAIResponseMessage := {
  rm_Role : string; rm_Content : RawMessage; rm_ToolCalls : option (slice openAIToolCall)
}.
Definition c_openAIResponseMessage : codec openAIResponseMessage := struct
  (λ '(a, (b, (c, _))), {| rm_Role := a; rm_Content := b; rm_ToolCalls := c |})
  (λ v, (rm_Role v, (rm_Content v, (rm_ToolCalls v, tt))))
  ("role" ↦ c_string & "content" ↦ c_raw & "tool_calls" ↦? c_slice c_openAIToolCall & no_fields).

Record openAIChoice := { ch_Index : Z; ch_Message : openAIResponseMessage; ch_FinishReason : option string }.
Definition c_openAIChoice : codec openAIChoice := struct
  (λ '(a, (b, (c, _))), {| ch_Index := a; ch_Message := b; ch_FinishReason := c |})
  (λ v, (ch_Index v, (ch_Message v, (ch_FinishReason v, tt))))
  ("index" ↦ c_int & "message" ↦ c_openAIResponseMessage & "finish_reason" ↦ c_pointer c_string & no_fields).

Record openAIUsage := { ou_Prompt : Z; ou_Completion : Z; ou_Total : Z; ou_CacheRead : Z; ou_CacheWrite : Z }.
Definition c_openAIUsage : codec openAIUsage := struct
  (λ '(a, (b, (c, (d, (e, _))))), {| ou_Prompt := a; ou_Completion := b; ou_Total := c; ou_CacheRead := d; ou_CacheWrite := e |})
  (λ v, (ou_Prompt v, (ou_Completion v, (ou_Total v, (ou_CacheRead v, (ou_CacheWrite v, tt))))))
  ("prompt_tokens" ↦ c_int & "completion_tokens" ↦ c_int & "total_tokens" ↦ c_int
   & "cache_read_input_tokens" ↦? c_int & "cache_creation_input_tokens" ↦? c_int & no_fields).

Record openAIResponse := {
  or_ID : string; or_Object : string; or_Model : string; or_Choices : option (slice openAIChoice); or_Usage : option openAIUsage
}.
Definition c_openAIResponse : codec openAIResponse := struct
  (λ '(a, (b, (c, (d, (e, _))))), {| or_ID := a; or_Object := b; or_Model := c; or_Choices := d; or_Usage := e |})
  (λ v, (or_ID v, (or_Object v, (or_Model v, (or_Choices v, (or_Usage v, tt))))))
  ("id" ↦ c_string & "object" ↦? c_string & "model" ↦ c_string & "choices" ↦ c_slice c_openAIChoice
   & "usage" ↦? c_pointer c_openAIUsage & no_fields).

(** ** Anthropic messages *)

Record anthropicImageSource := { src_Type : string; src_MediaType : string; src_Data : string; src_URL : string }.
Definition c_anthropicImageSource : codec anthropicImageSource := struct
  (λ '(a, (b, (c, (d, _)))), {| src_Type := a; src_MediaType := b; src_Data := c; src_URL := d |})
  (λ v, (src_Type v, (src_MediaType v, (src_Data v, (src_URL v, tt)))))
  ("type" ↦ c_string & "media_type" ↦? c_string & "data" ↦? c_string & "url" ↦? c_string & no_fields).

Record anthropicContentBlock := {
  blk_Type : string; blk_Text : string; blk_Source : option anthropicImageSource; blk_ID : string; blk_Name : string;
  blk_Input : RawMessage; blk_ToolUseID : string; blk_Content : RawMessage
}.
Definition c_anthropicContentBlock : codec anthropicContentBlock := struct
  (λ '(a, (b, (c, (d, (e, (f, (g, (h, _)))))))), {| blk_Type := a; blk_Text := b; blk_Source := c; blk_ID := d; blk_Name := e;
     blk_Input := f; blk_ToolUseID := g; blk_Content := h |})
  (λ v, (blk_Type v, (blk_Text v, (blk_Source v, (blk_ID v, (blk_Name v, (blk_Input v, (blk_ToolUseID v, (blk_Content v, tt)))))))))
  ("type" ↦ c_string & "text" ↦? c_string & "source" ↦? c_pointer c_anthropicImageSource & "id" ↦? c_string
   & "name" ↦? c_string & "input" ↦? c_raw & "tool_use_id" ↦? c_string & "content" ↦? c_raw & no_fields).

Record anthropicMessage := { am_Role : string; am_Content : RawMessage }.
Definition c_anthropicMessage : codec anthropicMessage := struct
  (λ '(a, (b, _)), {| am_Role := a; am_Content := b |}) (λ v, (am_Role v, (am_Content v, tt)))
  ("role" ↦ c_string & "content" ↦ c_raw & no_fields).

Record anthropicTool := { at_Name : string; at_Description : string; at_InputSchema : RawMessage }.
Definition c_anthropicTool : codec anthropicTool := struct
  (λ '(a, (b, (c, _))), {| at_Name := a; at_Description := b; at_InputSchema := c |})
  (λ v, (at_Name v, (at_Description v, (at_InputSchema v, tt))))
  ("name" ↦ c_string & "description" ↦? c_string & "input_schema" ↦ c_raw & no_fields).

Record anthropicRequest := {
  an_Model : string; an_Messages : option (slice anthropicMessage); an_System : RawMessage; an_MaxTokens : Z; an_Stream : bool;
  an_Tools : option (slice anthropicTool); an_Temperature : option float; an_TopP : option float; an_StopSequence : option (slice string)
}.
Definition c_anthropicRequest : codec anthropicRequest := struct
  (λ '(a, (b, (c, (d, (e, (f, (g, (h, (i, _))))))))), {| an_Model := a; an_Messages := b; an_System := c; an_MaxTokens := d;
     an_Stream := e; an_Tools := f; an_Temperature := g; an_TopP := h; an_StopSequence := i |})
  (λ v, (an_Model v, (an_Messages v, (an_System v, (an_MaxTokens v, (an_Stream v, (an_Tools v, (an_Temperature v, (an_TopP v,
     (an_StopSequence v, tt))))))))))
  ("model" ↦ c_string & "messages" ↦ c_slice c_anthropicMessage & "system" ↦ c_raw & "max_tokens" ↦ c_int
   & "stream" ↦ c_bool & "tools" ↦? c_slice c_anthropicTool & "temperature" ↦ c_pointer c_float
   & "top_p" ↦ c_pointer c_float & "stop_sequences" ↦? c_slice c_string & no_fields).

Record anthropicUsage := { au_Input : Z; au_Output : Z; au_CacheRead : Z; au_CacheCreation : Z }.
Definition c_anthropicUsage : codec anthropicUsage := struct
  (λ '(a, (b, (c, (d, _)))), {| au_Input := a; au_Output := b; au_CacheRead := c; au_CacheCreation := d |})
  (λ v, (au_Input v, (au_Output v, (au_CacheRead v, (au_CacheCreation v, tt)))))
  ("input_tokens" ↦ c_int & "output_tokens" ↦ c_int & "cache_read_input_tokens" ↦? c_int
   & "cache_creation_input_tokens" ↦? c_int & no_fields).

Record anthropicResponse := {
  ar_ID : string; ar_Type : string; ar_Model : string; ar_Role : string; ar_Content : option (slice anthropicContentBlock);
  ar_StopReason : string; ar_Usage : option anthropicUsage
}.
Definition c_anthropicResponse : codec anthropicResponse := struct
  (λ '(a, (b, (c, (d, (e, (f, (g, _))))))), {| ar_ID := a; ar_Type := b; ar_Model := c; ar_Role := d; ar_Content := e;
     ar_StopReason := f; ar_Usage := g |})
  (λ v, (ar_ID v, (ar_Type v, (ar_Model v, (ar_Role v, (ar_Content v, (ar_StopReason v, (ar_Usage v, tt))))))))
  ("id" ↦ c_string & "type" ↦? c_string & "model" ↦ c_string & "role" ↦ c_string
   & "content" ↦ c_slice c_anthropicContentBlock & "stop_reason" ↦? c_string & "usage" ↦? c_pointer c_anthropicUsage & no_fields).

(** ** Gemini *)

Record geminiBlob := { blob_MimeType : string; blob_Data : string }.
Definition c_geminiBlob : codec geminiBlob := struct
  (λ '(a, (b, _)), {| blob_MimeType := a; blob_Data := b |}) (λ v, (blob_MimeType v, (blob_Data v, tt)))
  ("mimeType" ↦ c_string & "data" ↦ c_string & no_fields).

Record geminiFileData := { file_MimeType : string; FileURI : string }.
Definition c_geminiFileData : codec geminiFileData := struct
  (λ '(a, (b, _)), {| file_MimeType := a; FileURI := b |}) (λ v, (file_MimeType v, (FileURI v, tt)))
  ("mimeType" ↦? c_string & "fileUri" ↦ c_string & no_fields).

Record geminiPart := { gp_Text : string; InlineData : option geminiBlob; FileData : option geminiFileData }.
Definition c_geminiPart : codec geminiPart := struct
  (λ '(a, (b, (c, _))), {| gp_Text := a; InlineData := b; FileData := c |}) (λ v, (gp_Text v, (InlineData v, (FileData v, tt))))
  ("text" ↦? c_string & "inlineData" ↦? c_pointer c_geminiBlob & "fileData" ↦? c_pointer c_geminiFileData & no_fields).

Record geminiContent := { gc_Role : string; gc_Parts : option (slice geminiPart) }.
Definition c_geminiContent : codec geminiContent := struct
  (λ '(a, (b, _)), {| gc_Role := a; gc_Parts := b |}) (λ v, (gc_Role v, (gc_Parts v, tt)))
  ("role" ↦? c_string & "parts" ↦ c_slice c_geminiPart & no_fields).

Record geminiGenerationConfig := {
  MaxOutputTokens : Z; gg_Temperature : option float; gg_TopP : option float; StopSequences : option (slice string)
}.
Definition c_geminiGenerationConfig : codec geminiGenerationConfig := struct
  (λ '(a, (b, (c, (d, _)))), {| MaxOutputTokens := a; gg_Temperature := b; gg_TopP := c; StopSequences := d |})
  (λ v, (MaxOutputTokens v, (gg_Temperature v, (gg_TopP v, (StopSequences v, tt)))))
  ("maxOutputTokens" ↦? c_int & "temperature" ↦? c_pointer c_float & "topP" ↦? c_pointer c_float
   & "stopSequences" ↦? c_slice c_string & no_fields).

Record geminiRequest := {
  Contents : option (slice geminiContent); SystemInstruction : option geminiContent; GenerationConfig : option geminiGenerationConfig
}.
Definition c_geminiRequest : codec geminiRequest := struct
  (λ '(a, (b, (c, _))), {| Contents := a; SystemInstruction := b; GenerationConfig := c |})
  (λ v, (Contents v, (SystemInstruction v, (GenerationConfig v, tt))))
  ("contents" ↦ c_slice c_geminiContent & "systemInstruction" ↦? c_pointer c_geminiContent
   & "generationConfig" ↦? c_pointer c_geminiGenerationConfig & no_fields).

Record geminiUsageMetadata := { gu_Prompt : Z; gu_Candidates : Z; gu_Total : Z; gu_Cached : Z }.
Definition c_geminiUsageMetadata : codec geminiUsageMetadata := struct
  (λ '(a, (b, (c, (d, _)))), {| gu_Prompt := a; gu_Candidates := b; gu_Total := c; gu_Cached := d |})
  (λ v, (gu_Prompt v, (gu_Candidates v, (gu_Total v, (gu_Cached v, tt)))))
  ("promptTokenCount" ↦ c_int & "candidatesTokenCount" ↦ c_int & "totalTokenCount" ↦ c_int
   & "cachedContentTokenCount" ↦ c_int & no_fields).

Record geminiCandidate := { gn_Content : geminiContent; gn_FinishReason : string }.
Definition c_geminiCandidate : codec geminiCandidate := struct
  (λ '(a, (b, _)), {| gn_Content := a; gn_FinishReason := b |}) (λ v, (gn_Content v, (gn_FinishReason v, tt)))
  ("content" ↦ c_geminiContent & "finishReason" ↦? c_string & no_fields).

Record geminiResponse := { Candidates : option (slice geminiCandidate); UsageMetadata : option geminiUsageMetadata }.
Definition c_geminiResponse : codec geminiResponse := struct
  (λ '(a, (b, _)), {| Candidates := a; UsageMetadata := b |}) (λ v, (Candidates v, (UsageMetadata v, tt)))
  ("candidates" ↦ c_slice c_geminiCandidate & "usageMetadata" ↦? c_pointer c_geminiUsageMetadata & no_fields).

(** ** OpenAI responses *)

Record responsesInputItem := {
  in_Type : string; in_Role : string; in_Content : RawMessage; in_CallID : string; in_Name : string;
  in_Arguments : string; in_Output : string
}.
Definition c_responsesInputItem : codec responsesInputItem := struct
  (λ '(a, (b, (c, (d, (e, (f, (g, _))))))), {| in_Type := a; in_Role := b; in_Content := c; in_CallID := d; in_Name := e;
     in_Arguments := f; in_Output := g |})
  (λ v, (in_Type v, (in_Role v, (in_Content v, (in_CallID v, (in_Name v, (in_Arguments v, (in_Output v, tt))))))))
  ("type" ↦ c_string & "role" ↦? c_string & "content" ↦? c_raw & "call_id" ↦? c_string & "name" ↦? c_string
   & "arguments" ↦? c_string & "output" ↦? c_string & no_fields).

Record responsesTool := { rt_Type : string; rt_Name : string; rt_Description : string; rt_Parameters : RawMessage }.
Definition c_responsesTool : codec responsesTool := struct
  (λ '(a, (b, (c, (d, _)))), {| rt_Type := a; rt_Name := b; rt_Description := c; rt_Parameters := d |})
  (λ v, (rt_Type v, (rt_Name v, (rt_Description v, (rt_Parameters v, tt)))))
  ("type" ↦ c_string & "name" ↦ c_string & "description" ↦? c_string & "parameters" ↦ c_raw & no_fields).

Record responsesRequest := {
  rq_Model : string; rq_Input : RawMessage; rq_Instructions : string; rq_Stream : bool; rq_Tools : option (slice responsesTool);
  rq_MaxOutputTokens : option Z; rq_Temperature : option float; rq_TopP : option float; rq_Stop : RawMessage; rq_PreviousID : string
}.
Definition c_responsesRequest : codec responsesRequest := struct
  (λ '(a, (b, (c, (d, (e, (f, (g, (h, (i, (j, _)))))))))), {| rq_Model := a; rq_Input := b; rq_Instructions := c; rq_Stream := d;
     rq_Tools := e; rq_MaxOutputTokens := f; rq_Temperature := g; rq_TopP := h; rq_Stop := i; rq_PreviousID := j |})
  (λ v, (rq_Model v, (rq_Input v, (rq_Instructions v, (rq_Stream v, (rq_Tools v, (rq_MaxOutputTokens v, (rq_Temperature v,
     (rq_TopP v, (rq_Stop v, (rq_PreviousID v, tt)))))))))))
  ("model" ↦ c_string & "input" ↦ c_raw & "instructions" ↦ c_string & "stream" ↦ c_bool & "tools" ↦? c_slice c_responsesTool
   & "max_output_tokens" ↦ c_pointer c_int & "temperature" ↦ c_pointer c_float & "top_p" ↦ c_pointer c_float
   & "stop" ↦ c_raw & "previous_response_id" ↦ c_string & no_fields).

Record responsesContentPart := { rp_Type : string; rp_Text : string; rp_ImageURL : string; rp_Detail : string }.
Definition c_responsesContentPart : codec responsesContentPart := struct
  (λ '(a, (b, (c, (d, _)))), {| rp_Type := a; rp_Text := b; rp_ImageURL := c; rp_Detail := d |})
  (λ v, (rp_Type v, (rp_Text v, (rp_ImageURL v, (rp_Detail v, tt)))))
  ("type" ↦ c_string & "text" ↦? c_string & "image_url" ↦? c_string & "detail" ↦? c_string & no_fields).

Record responsesOutputItem := {
  ro_Type : string; ro_Role : string; ro_Content : option (slice responsesContentPart); ro_CallID : string; ro_Name : string;
  ro_Arguments : string
}.
Definition c_responsesOutputItem : codec responsesOutputItem := struct
  (λ '(a, (b, (c, (d, (e, (f, _)))))), {| ro_Type := a; ro_Role := b; ro_Content := c; ro_CallID := d; ro_Name := e; ro_Arguments := f |})
  (λ v, (ro_Type v, (ro_Role v, (ro_Content v, (ro_CallID v, (ro_Name v, (ro_Arguments v, tt)))))))
  ("type" ↦ c_string & "role" ↦? c_string & "content" ↦? c_slice c_responsesContentPart & "call_id" ↦? c_string
   & "name" ↦? c_string & "arguments" ↦? c_string & no_fields).

Record responsesInputDetails := { CachedTokens : Z }.
Definition c_responsesInputDetails : codec responsesInputDetails := struct
  (λ '(a, _), {| CachedTokens := a |}) (λ v, (CachedTokens v, tt)) ("cached_tokens" ↦ c_int & no_fields).

Record responsesUsage := { ru_Input : Z; ru_Output : Z; ru_Total : Z; ru_Details : option responsesInputDetails }.
Definition c_responsesUsage : codec responsesUsage := struct
  (λ '(a, (b, (c, (d, _)))), {| ru_Input := a; ru_Output := b; ru_Total := c; ru_Details := d |})
  (λ v, (ru_Input v, (ru_Output v, (ru_Total v, (ru_Details v, tt)))))
  ("input_tokens" ↦ c_int & "output_tokens" ↦ c_int & "total_tokens" ↦ c_int
   & "input_tokens_details" ↦? c_pointer c_responsesInputDetails & no_fields).

Record responsesIncompleteDetail := { Reason : string }.
Definition c_responsesIncompleteDetail : codec responsesIncompleteDetail := struct
  (λ '(a, _), {| Reason := a |}) (λ v, (Reason v, tt)) ("reason" ↦ c_string & no_fields).

Record responsesResponse := {
  rr_ID : string; rr_Object : string; rr_Model : string; rr_Status : string; rr_Output : option (slice responsesOutputItem);
  rr_Usage : option responsesUsage; rr_Incomplete : option responsesIncompleteDetail
}.
Definition c_responsesResponse : codec responsesResponse := struct
  (λ '(a, (b, (c, (d, (e, (f, (g, _))))))), {| rr_ID := a; rr_Object := b; rr_Model := c; rr_Status := d; rr_Output := e;
     rr_Usage := f; rr_Incomplete := g |})
  (λ v, (rr_ID v, (rr_Object v, (rr_Model v, (rr_Status v, (rr_Output v, (rr_Usage v, (rr_Incomplete v, tt))))))))
  ("id" ↦ c_string & "object" ↦ c_string & "model" ↦ c_string & "status" ↦ c_string
   & "output" ↦ c_slice c_responsesOutputItem & "usage" ↦? c_pointer c_responsesUsage
   & "incomplete_details" ↦? c_pointer c_responsesIncompleteDetail & no_fields).

Example chat_request : encode c_openAIRequest <$> decode c_openAIRequest
    (dq "{'model':'m','messages':[{'role':'user','content':[ 1 ]},{'role':'tool','name':'','tool_calls':[]}],'temperature':1.0e0}")
  = Some (dq "{'model':'m','messages':[{'role':'user','content':[1]},{'role':'tool','content':null}],'stream':false,'tools':null,'max_tokens':null,'temperature':1,'top_p':null,'stop':null}").
Proof. vm_compute. reflexivity. Qed.
