(* ===== verification/ProtokitContent.v ===== *)
(** * Message contents

    The helpers of pkg/protokit/protokit.go that translate one message: texts,
    images, content parts, tool calls and tool results, in both directions.
    Errors keep their class; their texts do not matter. *)

From S2P Require Import Prelude Decimal Cursor Utf8 GoJson GoUrl GoStruct GoAny ProtokitData.

Open Scope Z_scope.

(** [ErrUnsupportedProtocol], [ErrInvalidMessage], and any other error. *)
Inductive convert_error := UnsupportedProtocol | InvalidMessage | OtherError.
Abbreviation converts := (result convert_error).

Definition or_err {A} (e : convert_error) (r : option A) : converts A := match r with Some a => Ok a | None => Err e end.
(** [fmt.Errorf("%w: ...", e, err)]: only [e] can be told from outside. *)
Definition as_err {A} (e : convert_error) (r : converts A) : converts A := match r with Ok a => Ok a | Err _ => Err e end.

Fixpoint traverse {A B} (f : A → converts B) (l : list A) : converts (list B) :=
  match l with
  | [] => Ok []
  | a :: l => b ← f a; bs ← traverse f l; Ok (b :: bs)
  end.

Definition mustJSON (v : govalue) : RawMessage := Raw (marshal v).
Definition mustJSON_string (s : string) : RawMessage := mustJSON (VString s).
Definition mustJSON_list {A} (c : codec A) (l : list A) : RawMessage := mustJSON (VArray (enc c <$> l)).

(** [len(raw) == 0 || bytes.Equal(raw, "null")], after trimming. *)
Definition absent (r : RawMessage) : bool :=
  let raw := trim_space (raw_text r) in String.eqb raw "" || String.eqb raw "null".

(** ** JSON inside JSON *)

(** [decode(body, &value)] with an [any]. *)
Definition validateJSON (body : string) : bool := bool_decide (is_Some (unmarshal_any body)).

Definition isJSONObject (r : RawMessage) : bool :=
  let raw := trim_space (raw_text r) in
  has_prefix "{" raw && bool_decide (is_Some (unmarshal_any raw)).

Definition normalizeToolArguments (raw : string) : option RawMessage :=
  let trimmed := trim_space raw in
  if String.eqb trimmed "" then None
  else if isJSONObject (Raw trimmed) then Some (Raw trimmed) else None.

(** ** Images *)

Definition validateImageDetail (detail : string) : bool :=
  existsb (String.eqb detail) ["auto"; "low"; "high"]%string || String.eqb detail "".

(** [strings.HasPrefix(strings.ToLower(s), "image/")]. *)
Definition isImageMediaType (mediaType : string) : bool :=
  let lowered := lower_rune <$> runes (trim_space mediaType) in
  bool_decide (take 6 lowered = default replacement <$> runes "image/").

(** [base64.StdEncoding.DecodeString] has no error. *)
Definition std_byte (a : Ascii.ascii) : bool := letter a || is_digit a || any_of [43; 47]%nat a.
Fixpoint padded_groups (s : string) : bool :=
  match s with
  | EmptyString => true
  | String a (String b (String c (String d r))) =>
      std_byte a && std_byte b &&
      (if std_byte c && std_byte d then padded_groups r
       else (std_byte c || byte_is 61 c) && byte_is 61 d && String.eqb r "")
  | _ => false
  end.
Definition std_base64 (s : string) : bool := padded_groups (drop_newlines s).

(** What an image URL says: media type and data, or the address. *)
Inductive image := DataImage (mediaType data : string) | RemoteImage (url : string).

(** [strings.Split(metadata, ";")] with two parts. *)
Definition split_two (n : nat) (s : string) : option (string * string) :=
  match cut n s with
  | (a, Some b) => if bool_decide (is_Some (index_byte (byte_of n) b)) then None else Some (a, b)
  | (_, None) => None
  end.

Definition parseImageURL (raw : string) : option image :=
  let value := trim_space raw in
  if has_prefix "data:" value then
    let payload := str_drop 5 value in
    match cut 44 payload with
    | (metadata, Some encoded) =>
        if String.eqb metadata "" then None else
        '(mediaType, encoding) ← split_two 59 metadata;
        if negb (String.eqb encoding "base64") || blank mediaType || blank encoded then None
        else if negb (isImageMediaType mediaType) then None
        else if negb (std_base64 encoded) then None
        else Some (DataImage mediaType encoded)
    | (_, None) => None
    end
  else if http_url value then Some (RemoteImage value) else None.

Definition imageURLToAnthropic (raw : string) : option anthropicImageSource :=
  i ← parseImageURL raw;
  Some match i with
  | RemoteImage url => {| src_Type := "url"; src_MediaType := ""; src_Data := ""; src_URL := url |}
  | DataImage mediaType data => {| src_Type := "base64"; src_MediaType := mediaType; src_Data := data; src_URL := "" |}
  end.

Definition text_part (text : string) : openAIContentPart := {| part_Type := "text"; part_Text := text; ImageURL := None |}.
Definition image_part (url detail : string) : openAIContentPart :=
  {| part_Type := "image_url"; part_Text := ""; ImageURL := Some {| URL := url; Detail := detail |} |}.

Definition data_url (mediaType data : string) : string := "data:" +:+ mediaType +:+ ";base64," +:+ data.

Definition anthropicImageToOpenAI (source : option anthropicImageSource) : option openAIContentPart :=
  source ← source;
  if String.eqb (src_Type source) "url" then
    match parseImageURL (src_URL source) with
    | Some (RemoteImage url) => Some (image_part url "")
    | _ => None
    end
  else if String.eqb (src_Type source) "base64" then
    if blank (src_MediaType source) || blank (src_Data source) then None
    else
      let url := data_url (src_MediaType source) (src_Data source) in
      match parseImageURL url with Some _ => Some (image_part url "") | None => None end
  else None.

Definition openAIImageToGemini (raw : string) : option geminiPart :=
  i ← parseImageURL raw;
  Some match i with
  | RemoteImage url => {| gp_Text := ""; InlineData := None; FileData := Some {| file_MimeType := ""; FileURI := url |} |}
  | DataImage mediaType data =>
      {| gp_Text := ""; InlineData := Some {| blob_MimeType := mediaType; blob_Data := data |}; FileData := None |}
  end.

Definition geminiImageToOpenAI (part : geminiPart) : option openAIContentPart :=
  match InlineData part, FileData part with
  | Some _, Some _ => None
  | Some blob, None =>
      if negb (String.eqb (gp_Text part) "") then None
      else if blank (blob_MimeType blob) || blank (blob_Data blob) then None
      else
        let url := data_url (blob_MimeType blob) (blob_Data blob) in
        match parseImageURL url with Some _ => Some (image_part url "") | None => None end
  | None, Some file =>
      if negb (String.eqb (gp_Text part) "") then None
      else if negb (String.eqb (file_MimeType file) "") && negb (isImageMediaType (file_MimeType file)) then None
      else match parseImageURL (FileURI file) with
           | Some (RemoteImage _) => Some (image_part (FileURI file) "")
           | _ => None
           end
  | None, None => if negb (String.eqb (gp_Text part) "") then Some (text_part (gp_Text part)) else None
  end.

(** ** Texts and content parts *)

Definition textValue (r : RawMessage) : option string :=
  if absent r then None else unmarshal d_string EmptyString (trim_space (raw_text r)).

Definition anthropicTextValue (r : RawMessage) : option string :=
  match textValue r with
  | Some text => Some text
  | None =>
      blocks ← unmarshal (dec (c_slice c_anthropicContentBlock)) None (raw_text r);
      if bool_decide (elems blocks = []) then None
      else if forallb (λ b, String.eqb (blk_Type b) "text") (elems blocks)
      then Some (foldr (λ b text, blk_Text b +:+ text) EmptyString (elems blocks)) else None
  end.

Definition part_ok (part : openAIContentPart) : bool :=
  if String.eqb (part_Type part) "text" then negb (String.eqb (part_Text part) "")
  else if String.eqb (part_Type part) "image_url" then
    match ImageURL part with
    | None => false
    | Some image => negb (blank (URL image)) && validateImageDetail (Detail image)
                    && bool_decide (is_Some (parseImageURL (URL image)))
    end
  else false.

Definition openAIContentParts (r : RawMessage) : option (list openAIContentPart) :=
  if absent r then None
  else
  let raw := trim_space (raw_text r) in
  match unmarshal d_string EmptyString raw with
  | Some text => Some [text_part text]
  | None =>
      parts ← unmarshal (dec (c_slice c_openAIContentPart)) None raw;
      if bool_decide (elems parts = []) then None
      else if forallb part_ok (elems parts) then Some (elems parts) else None
  end.

Definition openAIContentRaw (parts : list openAIContentPart) : RawMessage :=
  match parts with
  | [] => Raw EmptyString
  | _ => if forallb (λ p, String.eqb (part_Type p) "text") parts
         then mustJSON_string (foldr (λ p text, part_Text p +:+ text) EmptyString parts)
         else mustJSON_list c_openAIContentPart parts
  end.

Definition part_to_responses (part : openAIContentPart) : option responsesContentPart :=
  if String.eqb (part_Type part) "text" then
    Some {| rp_Type := "input_text"; rp_Text := part_Text part; rp_ImageURL := ""; rp_Detail := "" |}
  else if String.eqb (part_Type part) "image_url" then
    image ← ImageURL part;
    if negb (validateImageDetail (Detail image)) then None
    else _ ← parseImageURL (URL image);
         Some {| rp_Type := "input_image"; rp_Text := ""; rp_ImageURL := URL image; rp_Detail := Detail image |}
  else None.
Definition openAIContentToResponses (parts : list openAIContentPart) : option (list responsesContentPart) :=
  mapM part_to_responses parts.

Definition part_of_responses (part : responsesContentPart) : option openAIContentPart :=
  if String.eqb (rp_Type part) "input_text" then
    if String.eqb (rp_Text part) "" then None else Some (text_part (rp_Text part))
  else if String.eqb (rp_Type part) "input_image" then
    if blank (rp_ImageURL part) || negb (validateImageDetail (rp_Detail part)) then None
    else _ ← parseImageURL (rp_ImageURL part); Some (image_part (rp_ImageURL part) (rp_Detail part))
  else None.
Definition responsesContentToOpenAI (r : RawMessage) : option RawMessage :=
  match textValue r with
  | Some text => Some (mustJSON_string text)
  | None =>
      parts ← unmarshal (dec (c_slice c_responsesContentPart)) None (raw_text r);
      if bool_decide (elems parts = []) then None
      else converted ← mapM part_of_responses (elems parts); Some (openAIContentRaw converted)
  end.

(** ** Tools *)

Definition function_tool (type name : string) (parameters : RawMessage) : bool :=
  String.eqb type "function" && negb (blank name) && isJSONObject parameters.

Definition openAIToolsToAnthropic (tools : list openAITool) : converts (option (slice anthropicTool)) :=
  match tools with
  | [] => Ok None
  | _ => converted ← traverse (λ tool, let f := tool_Function tool in
           guardE function_tool (tool_Type tool) (fn_Name f) (fn_Parameters f) else UnsupportedProtocol;
           Ok {| at_Name := fn_Name f; at_Description := fn_Description f; at_InputSchema := fn_Parameters f |}) tools;
         Ok (made converted)
  end.

Definition function (name description : string) (parameters : RawMessage) : openAIFunction :=
  {| fn_Name := name; fn_Description := description; fn_Parameters := parameters; fn_Arguments := "" |}.

Definition anthropicToolsToOpenAI (tools : list anthropicTool) : converts (option (slice openAITool)) :=
  match tools with
  | [] => Ok None
  | _ => converted ← traverse (λ tool,
           guardE negb (blank (at_Name tool)) && isJSONObject (at_InputSchema tool) else InvalidMessage;
           Ok {| tool_Type := "function"; tool_Function := function (at_Name tool) (at_Description tool) (at_InputSchema tool) |}) tools;
         Ok (made converted)
  end.

Definition called (id name arguments : string) : openAIToolCall :=
  {| call_ID := id; call_Type := "function"; call_Function :=
     {| fn_Name := name; fn_Description := ""; fn_Parameters := Raw EmptyString; fn_Arguments := arguments |} |}.

Definition call_named (call : openAIToolCall) : bool :=
  String.eqb (call_Type call) "function" && negb (blank (call_ID call)) && negb (blank (fn_Name (call_Function call))).

(** ** Anthropic content blocks *)

Definition block (type : string) : anthropicContentBlock :=
  {| blk_Type := type; blk_Text := ""; blk_Source := None; blk_ID := ""; blk_Name := ""; blk_Input := Raw EmptyString;
     blk_ToolUseID := ""; blk_Content := Raw EmptyString |}.
Definition text_block (text : string) : anthropicContentBlock :=
  {| blk_Type := "text"; blk_Text := text; blk_Source := None; blk_ID := ""; blk_Name := ""; blk_Input := Raw EmptyString;
     blk_ToolUseID := ""; blk_Content := Raw EmptyString |}.
Definition image_block (source : anthropicImageSource) : anthropicContentBlock :=
  {| blk_Type := "image"; blk_Text := ""; blk_Source := Some source; blk_ID := ""; blk_Name := ""; blk_Input := Raw EmptyString;
     blk_ToolUseID := ""; blk_Content := Raw EmptyString |}.
Definition tool_use_block (id name : string) (input : RawMessage) : anthropicContentBlock :=
  {| blk_Type := "tool_use"; blk_Text := ""; blk_Source := None; blk_ID := id; blk_Name := name; blk_Input := input;
     blk_ToolUseID := ""; blk_Content := Raw EmptyString |}.
Definition tool_result_block (id : string) (content : RawMessage) : anthropicContentBlock :=
  {| blk_Type := "tool_result"; blk_Text := ""; blk_Source := None; blk_ID := ""; blk_Name := ""; blk_Input := Raw EmptyString;
     blk_ToolUseID := id; blk_Content := content |}.

(** A part of checked content: text, or an image with a source. *)
Definition part_to_block (part : openAIContentPart) : converts (list anthropicContentBlock) :=
  if String.eqb (part_Type part) "text" then Ok [text_block (part_Text part)]
  else if String.eqb (part_Type part) "image_url" then
    image ← or_err InvalidMessage (ImageURL part);
    source ← or_err InvalidMessage (imageURLToAnthropic (URL image));
    Ok [image_block source]
  else Ok [].

(** A tool call; its arguments go through an [any]. *)
Definition call_to_block (call : openAIToolCall) : converts anthropicContentBlock :=
  match normalizeToolArguments (fn_Arguments (call_Function call)) with
  | Some arguments =>
      guardE call_named call else InvalidMessage;
      input ← or_err InvalidMessage (unmarshal_any (raw_text arguments));
      Ok (tool_use_block (call_ID call) (fn_Name (call_Function call)) (mustJSON (json_go input)))
  | None => Err InvalidMessage
  end.

(** Content and calls of a message, as both requests and responses have them. *)
Definition message_blocks (content : RawMessage) (calls : list openAIToolCall) : converts (list anthropicContentBlock) :=
  contents ← (if absent content then Ok []
              else parts ← or_err InvalidMessage (openAIContentParts content); traverse part_to_block parts);
  uses ← traverse call_to_block calls;
  Ok (concat contents ++ uses).

Definition openAIMessageToAnthropic (message : openAIMessage) : converts anthropicMessage :=
  if String.eqb (msg_Role message) "user" || String.eqb (msg_Role message) "assistant" then
    blocks ← message_blocks (msg_Content message) (elems (msg_ToolCalls message));
    guardE negb (bool_decide (blocks = [])) else InvalidMessage;
    Ok {| am_Role := msg_Role message; am_Content := mustJSON_list c_anthropicContentBlock blocks |}
  else if String.eqb (msg_Role message) "tool" then
    guardE negb (blank (msg_ToolCallID message)) else InvalidMessage;
    text ← or_err InvalidMessage (textValue (msg_Content message));
    Ok {| am_Role := "user"; am_Content := mustJSON_list c_anthropicContentBlock
            [tool_result_block (msg_ToolCallID message) (mustJSON_string text)] |}
  else Err InvalidMessage.

Definition openai_message (role : string) (content : RawMessage) (calls : option (slice openAIToolCall)) (id : string) : openAIMessage :=
  {| msg_Role := role; msg_Content := content; msg_Name := ""; msg_ToolCalls := calls; msg_ToolCallID := id |}.

(** What is collected from the blocks of a message. *)
Record collected := { co_Parts : list openAIContentPart; co_Calls : list openAIToolCall; co_Results : list openAIMessage }.

Definition collect_block (role : string) (b : anthropicContentBlock) (c : collected) : converts collected :=
  if String.eqb (blk_Type b) "text" then
    Ok {| co_Parts := co_Parts c ++ [text_part (blk_Text b)]; co_Calls := co_Calls c; co_Results := co_Results c |}
  else if String.eqb (blk_Type b) "image" then
    part ← or_err InvalidMessage (anthropicImageToOpenAI (blk_Source b));
    Ok {| co_Parts := co_Parts c ++ [part]; co_Calls := co_Calls c; co_Results := co_Results c |}
  else if String.eqb (blk_Type b) "tool_use" then
    guardE String.eqb role "assistant" && negb (blank (blk_ID b)) && negb (blank (blk_Name b)) && Valid (raw_text (blk_Input b))
    else InvalidMessage;
    Ok {| co_Parts := co_Parts c; co_Calls := co_Calls c ++ [called (blk_ID b) (blk_Name b) (raw_text (blk_Input b))];
          co_Results := co_Results c |}
  else if String.eqb (blk_Type b) "tool_result" then
    guardE String.eqb role "user" && negb (blank (blk_ToolUseID b)) && negb (String.eqb (trim_space (raw_text (blk_Content b))) "")
    else InvalidMessage;
    result ← or_err InvalidMessage (anthropicTextValue (blk_Content b));
    Ok {| co_Parts := co_Parts c; co_Calls := co_Calls c;
          co_Results := co_Results c ++ [openai_message "tool" (mustJSON_string result) None (blk_ToolUseID b)] |}
  else Err UnsupportedProtocol.

Fixpoint collect (role : string) (blocks : list anthropicContentBlock) (c : collected) : converts collected :=
  match blocks with
  | [] => Ok c
  | b :: blocks => c ← collect_block role b c; collect role blocks c
  end.

Definition anthropicMessageToOpenAI (message : anthropicMessage) : converts (list openAIMessage) :=
  let role := am_Role message in
  guardE String.eqb role "user" || String.eqb role "assistant" else InvalidMessage;
  match textValue (am_Content message) with
  | Some text => Ok [openai_message role (mustJSON_string text) None ""]
  | None =>
      blocks ← or_err InvalidMessage (unmarshal (dec (c_slice c_anthropicContentBlock)) None (raw_text (am_Content message)));
      guardE negb (bool_decide (elems blocks = [])) else InvalidMessage;
      c ← collect role (elems blocks) {| co_Parts := []; co_Calls := []; co_Results := [] |};
      let results :=
        if negb (bool_decide (co_Parts c = [])) || negb (bool_decide (co_Calls c = []))
        then openai_message role (openAIContentRaw (co_Parts c)) (made (co_Calls c)) "" :: co_Results c
        else co_Results c in
      guardE negb (bool_decide (results = [])) else InvalidMessage;
      Ok results
  end.
