(* ===== verification/ImageFacts.v ===== *)
(** * Images keep their content

    An image URL is translated to the shape another protocol has for it, and
    back to a URL that says the same. *)

From S2P Require Import Prelude Decimal Money Numeric Cursor Utf8 GoJson GoJsonParse GoUrl GoStruct Trim ProtokitData ProtokitContent.

Open Scope Z_scope.

(** ** Cutting at a byte *)

Definition without (n : nat) (s : string) : bool := str_forallb (λ a, negb (bool_decide (a = byte_of n))) s.

Lemma cut_at n s t : without n s = true → cut n (s +:+ String (byte_of n) t) = (s, Some t).
Proof.
  intros Hs. unfold cut. rewrite index_byte_app by done. rewrite str_take_app. f_equal. f_equal.
  clear Hs. induction s as [|a s IH]; string_norm; [done|]. exact IH.
Qed.

Lemma cut_none n s : without n s = true → cut n s = (s, None).
Proof.
  unfold cut. intros Hs. assert (index_byte (byte_of n) s = None) as ->; [|done].
  induction s as [|a s IH]; [done|]. cbn in *. apply andb_true_iff in Hs as [Ha Hs]. apply negb_true_iff in Ha.
  rewrite Ha. by rewrite IH.
Qed.

Lemma cut_spec n s : (without n s = true ∧ cut n s = (s, None)) ∨
  ∃ a b, s = a +:+ String (byte_of n) b ∧ without n a = true ∧ cut n s = (a, Some b).
Proof.
  destruct (without n s) eqn:Hw; [left; split; [done|by apply cut_none]|right].
  assert (∃ a b, s = a +:+ String (byte_of n) b ∧ without n a = true) as (a & b & -> & Ha).
  { induction s as [|c s IH]; [done|]. cbn in Hw. destruct (bool_decide (c = byte_of n)) eqn:E.
    - apply bool_decide_eq_true in E as ->. by exists EmptyString, s.
    - cbn in Hw. destruct (IH Hw) as (a & b & -> & Ha). exists (String c a), b. split; [done|]. cbn. by rewrite E. }
  exists a, b. split_and!; [done..|]. by apply cut_at.
Qed.

Lemma without_app n s t : without n (s +:+ t) = without n s && without n t.
Proof. apply str_forallb_app. Qed.

Lemma split_two_spec n s a b : split_two n s = Some (a, b) → s = a +:+ String (byte_of n) b ∧ without n a = true ∧ without n b = true.
Proof.
  unfold split_two. destruct (cut_spec n s) as [[_ ->]|(a' & b' & -> & Ha & ->)]; [done|].
  destruct (bool_decide _) eqn:E; [done|]. intros [= <- <-]. split_and!; try done.
  destruct (without n b') eqn:Hb; [done|]. exfalso. apply bool_decide_eq_false in E. apply E.
  destruct (cut_spec n b') as [[H _]|(x & y & -> & Hx & _)]; [congruence|]. rewrite index_byte_app by done. by eexists.
Qed.

(** ** Base64 has no separators *)

Lemma drop_newlines_without n s : n ≠ 10%nat → n ≠ 13%nat → (n < 256)%nat → without n (drop_newlines s) = true → without n s = true.
Proof.
  intros H10 H13 Hn. induction s as [|a s IH]; [done|]. cbn. destruct (_ || _) eqn:E; cbn [without str_forallb].
  - intros H. apply andb_true_iff. split; [|by apply IH]. rewrite bool_decide_false; [done|]. intros ->.
    apply orb_true_iff in E as [E|E]; apply bool_decide_eq_true, (f_equal Ascii.nat_of_ascii) in E;
      unfold byte_of in E; rewrite !Ascii.nat_ascii_embedding in E by lia; lia.
  - intros [Ha Hs]%andb_true_iff. apply andb_true_iff. auto.
Qed.

Lemma padded_groups_bytes s : padded_groups s = true → str_forallb (λ a, std_byte a || byte_is 61 a) s = true.
Proof.
  remember (String.length s) as k eqn:Hk. revert s Hk. induction k as [k IH] using lt_wf_ind. intros s -> H.
  destruct s as [|a [|b [|c [|d r]]]]; try done. cbn [padded_groups] in H.
  apply andb_true_iff in H as [[Ha Hb]%andb_true_iff H]. cbn [str_forallb]. rewrite Ha, Hb. cbn [orb andb].
  destruct (std_byte c && std_byte d) eqn:E.
  - apply andb_true_iff in E as [Hc Hd]. rewrite Hc, Hd. cbn. eapply IH; [|done|done]. cbn. lia.
  - apply andb_true_iff in H as [[Hc Hd]%andb_true_iff Hr]. rewrite Hc, Hd, orb_true_r. by apply String.eqb_eq in Hr as ->.
Qed.

Lemma base64_without n s : n = 44%nat ∨ n = 59%nat → std_base64 s = true → without n s = true.
Proof.
  intros Hn Hs. apply drop_newlines_without; [lia..|].
  apply padded_groups_bytes in Hs. revert Hs. generalize (drop_newlines s) as t. induction t as [|a t IH]; [done|].
  cbn. intros [Ha Ht]%andb_true_iff. apply andb_true_iff. split; [|auto]. rewrite bool_decide_false; [done|]. intros ->.
  by destruct Hn as [-> | ->]; vm_compute in Ha.
Qed.

(** ** The same image on both sides *)

Lemma trim_space_data s : trim_space ("data:" +:+ s) = trim_end ("data:" +:+ s).
Proof. rewrite trim_space_ends. string_norm. by rewrite trim_left_solid by (vm_compute; reflexivity). Qed.

(** What a data URL with this media type and data says, if it is one. *)
Lemma parse_data_url mediaType data i :
  parseImageURL (data_url mediaType data) = Some i → i = DataImage mediaType (trim_end data).
Proof.
  unfold parseImageURL, data_url. rewrite trim_space_data.
  assert (trim_end ("data:" +:+ mediaType +:+ ";base64," +:+ data) = "data:" +:+ mediaType +:+ ";base64," +:+ trim_end data) as ->.
  { pose proof (trim_end_stop ("data:" +:+ mediaType +:+ ";base64") (byte_of 44) data ltac:(vm_compute; reflexivity)) as H.
    rewrite !str_app_assoc in H. exact H. }
  change (has_prefix "data:" ("data:" +:+ ?x)) with true. cbv beta iota.
  change (str_drop 5 ("data:" +:+ ?x)) with x. set (d := trim_end data).
  destruct (cut_spec 44 (mediaType +:+ ";base64," +:+ d)) as [[_ ->]|(m & e & E & Hm & ->)]; [done|].
  destruct (String.eqb m ""); [done|]. intros ([mt enc] & Hs & H)%bind_Some. cbv beta iota in H.
  destruct (negb (String.eqb enc "base64")) eqn:Eenc; [done|]. apply negb_false_iff, String.eqb_eq in Eenc as ->. cbn [orb] in H.
  destruct (_ || _); [done|]. destruct (negb (isImageMediaType mt)); [done|].
  destruct (std_base64 e) eqn:Eb; [|done]. injection H as <-.
  apply split_two_spec in Hs as (-> & Hmt & _). apply (base64_without 59) in Eb; [|by right].
  (* the first comma ends the media type *)
  destruct (cut_spec 44 mediaType) as [[Hw _]|(x & y & -> & Hx & _)].
  - pose proof (f_equal (cut 44) E) as Ec.
    change (";base64," +:+ d) with (";base64" +:+ String (byte_of 44) d) in Ec. rewrite <-str_app_assoc, !cut_at in Ec; [|done|].
    + injection Ec as Ec <-. f_equal. symmetry.
      by eapply (str_app_same_tail mediaType mt ";base64" ";base64").
    + by rewrite without_app, Hw.
  - exfalso. pose proof (f_equal (cut 44) E) as Ec. rewrite str_app_assoc, str_app_cons, !cut_at in Ec by done.
    injection Ec as _ <-. rewrite !without_app in Eb. by rewrite andb_false_r in Eb.
Qed.

(** A data URL that was understood is its media type and its data. *)
Lemma parse_data_inv raw mediaType data : parseImageURL raw = Some (DataImage mediaType data) →
  trim_space raw = data_url mediaType data ∧ blank mediaType = false ∧ blank data = false.
Proof.
  unfold parseImageURL. destruct (has_prefix "data:" (trim_space raw)) eqn:Hp; [|by destruct (http_url _)].
  assert (∃ p, trim_space raw = "data:" +:+ p) as [p ->].
  { apply has_prefix_app in Hp. rewrite Hp. by eexists. }
  change (str_drop 5 ("data:" +:+ p)) with p.
  destruct (cut_spec 44 p) as [[_ ->]|(m & e & -> & Hm & ->)]; [done|].
  destruct (String.eqb m ""); [done|]. intros ([mt enc] & Hs & H)%bind_Some. cbv beta iota in H.
  destruct (String.eqb enc "base64") eqn:Eenc; [|done]. apply String.eqb_eq in Eenc as ->. cbn [negb orb] in H.
  destruct (blank mt) eqn:E1; [done|]. destruct (blank e) eqn:E2; [done|]. cbn [orb] in H.
  destruct (isImageMediaType mt); [|done]. destruct (std_base64 e); [|done]. injection H as <- <-.
  apply split_two_spec in Hs as (-> & _ & _). split_and!; [|done..].
  unfold data_url. rewrite !str_app_assoc. by string_norm.
Qed.

Lemma parse_remote_inv raw url : parseImageURL raw = Some (RemoteImage url) →
  url = trim_space raw ∧ has_prefix "data:" url = false ∧ http_url url = true.
Proof.
  unfold parseImageURL. destruct (has_prefix "data:" (trim_space raw)) eqn:Hp.
  - destruct (cut 44 _) as [m [e|]]; [|done]. destruct (String.eqb m ""); [done|].
    intros ([mt enc] & _ & H)%bind_Some. cbv beta iota in H. by repeat case_match.
  - destruct (http_url _) eqn:Hu; [|done]. by intros [= <-].
Qed.

Lemma parse_trimmed raw : parseImageURL (trim_space raw) = parseImageURL raw.
Proof. unfold parseImageURL. by rewrite trim_space_idemp. Qed.

(** The data of a data URL ends where the URL does. *)
Lemma parse_data_trimmed raw mediaType data : parseImageURL raw = Some (DataImage mediaType data) → trim_end data = data.
Proof.
  intros H. pose proof H as H'. apply parse_data_inv in H as (E & _ & _). rewrite <-parse_trimmed, E in H'.
  apply parse_data_url in H'. by injection H'.
Qed.

(** ** What a source or a part shows *)

Definition anthropic_picture (source : anthropicImageSource) : option image :=
  if String.eqb (src_Type source) "url" then parseImageURL (src_URL source)
  else if String.eqb (src_Type source) "base64" then Some (DataImage (src_MediaType source) (trim_end (src_Data source)))
  else None.

Definition gemini_picture (part : geminiPart) : option image :=
  match InlineData part, FileData part with
  | Some blob, None => Some (DataImage (blob_MimeType blob) (trim_end (blob_Data blob)))
  | None, Some file => parseImageURL (FileURI file)
  | _, _ => None
  end.

Definition picture (part : openAIContentPart) : option image := i ← ImageURL part; parseImageURL (URL i).

Lemma imageURLToAnthropic_shows raw source : imageURLToAnthropic raw = Some source →
  anthropic_picture source = parseImageURL raw.
Proof.
  unfold imageURLToAnthropic. intros (i & Hi & [= <-])%bind_Some. rewrite Hi. destruct i as [mt d|url]; cbn -[trim_end parseImageURL trim_space].
  - by rewrite (parse_data_trimmed _ _ _ Hi).
  - apply parse_remote_inv in Hi as Hu. destruct Hu as (-> & _). by rewrite parse_trimmed.
Qed.

Lemma anthropicImageToOpenAI_shows source part : anthropicImageToOpenAI (Some source) = Some part →
  ∃ i, anthropic_picture source = Some i ∧ picture part = Some i ∧ ∃ url, part = image_part url "".
Proof.
  unfold anthropicImageToOpenAI, anthropic_picture, picture. cbn [mbind option_bind].
  destruct (String.eqb (src_Type source) "url").
  - destruct (parseImageURL (src_URL source)) as [[|url]|] eqn:Hp; try done. intros [= <-]. cbn.
    exists (RemoteImage url). split_and!; [done| |by eexists].
    apply parse_remote_inv in Hp as Hu. destruct Hu as (-> & _). by rewrite parse_trimmed.
  - destruct (String.eqb (src_Type source) "base64"); [|done]. destruct (_ || _); [done|].
    destruct (parseImageURL (data_url _ _)) as [i|] eqn:Hp; [|done]. intros [= <-]. cbn.
    exists i. split_and!; [|done|by eexists]. by apply parse_data_url in Hp as ->.
Qed.

Lemma openAIImageToGemini_shows raw part : openAIImageToGemini raw = Some part →
  gemini_picture part = parseImageURL raw ∧ gp_Text part = "".
Proof.
  unfold openAIImageToGemini. intros (i & Hi & [= <-])%bind_Some. rewrite Hi. destruct i as [mt d|url]; cbn -[trim_end parseImageURL trim_space].
  - by rewrite (parse_data_trimmed _ _ _ Hi).
  - apply parse_remote_inv in Hi as Hu. destruct Hu as (-> & _). by rewrite parse_trimmed.
Qed.

Lemma geminiImageToOpenAI_shows part p : geminiImageToOpenAI part = Some p →
  (∃ i, gemini_picture part = Some i ∧ picture p = Some i ∧ gp_Text part = "" ∧ ∃ url, p = image_part url "") ∨
  (InlineData part = None ∧ FileData part = None ∧ p = text_part (gp_Text part) ∧ gp_Text part ≠ "").
Proof.
  unfold geminiImageToOpenAI, gemini_picture, picture. destruct (String.eqb_spec (gp_Text part) "") as [Ht|Ht]; cbn [negb].
  all: destruct (InlineData part) as [blob|], (FileData part) as [file|]; try done.
  - destruct (_ || _); [done|]. destruct (parseImageURL _) as [i|] eqn:Hp; [|done]. intros [= <-]. left.
    exists i. split_and!; [|done|done|by eexists]. by apply parse_data_url in Hp as ->.
  - destruct (_ && _); [done|]. destruct (parseImageURL _) as [[|url]|] eqn:Hp; try done. intros [= <-]. left.
    exists (RemoteImage url). cbn. by eauto.
  - intros [= <-]. by right.
Qed.

(** C39 An image keeps its content through another protocol: the source made of
    an image URL of a chat message comes back from Anthropic's shape and from
    Gemini's as the same URL, but for white space around it. *)
Theorem image_roundtrip raw i :
  parseImageURL raw = Some i →
  (source ← imageURLToAnthropic raw; anthropicImageToOpenAI (Some source)) = Some (image_part (trim_space raw) "")
  ∧ (part ← openAIImageToGemini raw; geminiImageToOpenAI part) = Some (image_part (trim_space raw) "").
Proof.
  intros Hi. unfold imageURLToAnthropic, openAIImageToGemini. rewrite Hi. destruct i as [mt d|url].
  - pose proof (parse_data_inv _ _ _ Hi) as (E & Hmt & Hd). pose proof Hi as Hi'. rewrite <-parse_trimmed, E in Hi'.
    unfold anthropicImageToOpenAI, geminiImageToOpenAI. cbn -[data_url parseImageURL blank]. rewrite Hmt, Hd. cbn -[data_url parseImageURL].
    rewrite Hi', E. done.
  - pose proof (parse_remote_inv _ _ Hi) as (-> & _ & _). rewrite <-parse_trimmed in Hi.
    unfold anthropicImageToOpenAI, geminiImageToOpenAI. cbn -[parseImageURL trim_space]. rewrite Hi. done.
Qed.

Lemma image_roundtrip_witness :
  parseImageURL " data:image/png;base64,iVBORw0=" = Some (DataImage "image/png" "iVBORw0=")
  ∧ (source ← imageURLToAnthropic " data:image/png;base64,iVBORw0="; anthropicImageToOpenAI (Some source))
    = Some (image_part "data:image/png;base64,iVBORw0=" "").
Proof.
  split; [vm_compute; reflexivity|].
  exact (proj1 (image_roundtrip " data:image/png;base64,iVBORw0=" (DataImage "image/png" "iVBORw0=") ltac:(vm_compute; reflexivity))).
Defined.
