(* ===== verification/ProtokitConvert.v ===== *)
(** * Protocol conversions

    [ConvertRequest] and [ConvertResponse] of pkg/protokit/protokit.go: a body
    of one protocol becomes a body of another, or is refused. *)

From S2P Require Import Prelude Decimal Utf8 GoJson Protokit GoUrl GoStruct ProtokitData ProtokitContent.

Open Scope Z_scope.

Definition read {A} (c : codec A) (body : string) : converts A := or_err OtherError (decode c body).

(** A stop list: nil, a list of strings, or one string. *)
Definition present (r : RawMessage) : bool := negb (absent r).
Definition stop_sequences (r : RawMessage) : converts (option (slice string)) :=
  match unmarshal (dec (c_slice c_string)) None (raw_text r) with
  | Some l => Ok l
  | None => one ← or_err InvalidMessage (unmarshal d_string EmptyString (raw_text r)); Ok (made [one])
  end.
Definition positive (limit : option Z) : converts (option Z) :=
  match limit with Some n => guardE 0 <? n else InvalidMessage; Ok (Some n) | None => Ok None end.

(** ** Requests *)

Definition chat_of_item (item : responsesInputItem) : converts openAIMessage :=
  if String.eqb (in_Type item) "function_call" then
    guardE negb (blank (in_CallID item)) && negb (blank (in_Name item)) else InvalidMessage;
    _ ← or_err InvalidMessage (normalizeToolArguments (in_Arguments item));
    Ok (openai_message "assistant" (Raw EmptyString) (made [called (in_CallID item) (in_Name item) (in_Arguments item)]) "")
  else if String.eqb (in_Type item) "function_call_output" then
    guardE negb (blank (in_CallID item)) else InvalidMessage;
    Ok (openai_message "tool" (mustJSON_string (in_Output item)) None (in_CallID item))
  else
  guardE String.eqb (in_Type item) "" || String.eqb (in_Type item) "message" else UnsupportedProtocol;
  guardE existsb (String.eqb (in_Role item)) ["user"; "assistant"; "system"; "developer"]%string else InvalidMessage;
  content ← or_err InvalidMessage (responsesContentToOpenAI (in_Content item));
  Ok (openai_message (if String.eqb (in_Role item) "developer" then "system"%string else in_Role item) content None "").

Definition responsesToOpenAIRequest (body : string) : converts string :=
  request ← read c_responsesRequest body;
  guardE negb (blank (rq_Model request)) && present (rq_Input request) else InvalidMessage;
  guardE negb (rq_Stream request) && String.eqb (rq_PreviousID request) "" else UnsupportedProtocol;
  let instructions := if String.eqb (rq_Instructions request) "" then []
                      else [openai_message "system" (mustJSON_string (rq_Instructions request)) None ""] in
  let input := trim_space (raw_text (rq_Input request)) in
  messages ← match unmarshal d_string EmptyString input with
             | Some one => Ok [openai_message "user" (mustJSON_string one) None ""]
             | None =>
                 items ← or_err InvalidMessage (unmarshal (dec (c_slice c_responsesInputItem)) None input);
                 guardE negb (bool_decide (elems items = [])) else InvalidMessage;
                 traverse chat_of_item (elems items)
             end;
  tools ← traverse (λ tool,
    guardE function_tool (rt_Type tool) (rt_Name tool) (rt_Parameters tool) else InvalidMessage;
    Ok {| tool_Type := "function"; tool_Function := function (rt_Name tool) (rt_Description tool) (rt_Parameters tool) |})
    (elems (rq_Tools request));
  limit ← positive (rq_MaxOutputTokens request);
  Ok (encode c_openAIRequest
    {| oa_Model := rq_Model request; oa_Messages := made (instructions ++ messages); oa_Stream := false; oa_Tools := made tools;
       oa_MaxTokens := limit; oa_Temperature := rq_Temperature request; oa_TopP := rq_TopP request;
       oa_Stop := if present (rq_Stop request) then rq_Stop request else Raw EmptyString |}).

(** The instructions so far, and the items. *)
Abbreviation responses_input := (string * list responsesInputItem)%type.

Definition item (type role : string) (content : RawMessage) (id name arguments output : string) : responsesInputItem :=
  {| in_Type := type; in_Role := role; in_Content := content; in_CallID := id; in_Name := name; in_Arguments := arguments;
     in_Output := output |}.

Definition call_item (call : openAIToolCall) : converts responsesInputItem :=
  guardE call_named call else InvalidMessage;
  _ ← or_err InvalidMessage (normalizeToolArguments (fn_Arguments (call_Function call)));
  Ok (item "function_call" "" (Raw EmptyString) (call_ID call) (fn_Name (call_Function call)) (fn_Arguments (call_Function call)) "").

Definition add_message (message : openAIMessage) (acc : responses_input) : converts responses_input :=
  let '(instructions, items) := acc in
  if String.eqb (msg_Role message) "system" then
    text ← or_err InvalidMessage (textValue (msg_Content message));
    Ok ((if String.eqb instructions "" then text else instructions +:+ chr 10 +:+ chr 10 +:+ text), items)
  else if String.eqb (msg_Role message) "user" || String.eqb (msg_Role message) "assistant" then
    said ← (if absent (msg_Content message) then Ok []
            else parts ← or_err InvalidMessage (openAIContentParts (msg_Content message));
                 parts ← or_err InvalidMessage (openAIContentToResponses parts);
                 Ok [item "message" (msg_Role message) (mustJSON_list c_responsesContentPart parts) "" "" "" ""]);
    calls ← traverse call_item (elems (msg_ToolCalls message));
    Ok (instructions, items ++ said ++ calls)
  else if String.eqb (msg_Role message) "tool" then
    guardE negb (blank (msg_ToolCallID message)) else InvalidMessage;
    parts ← or_err InvalidMessage (openAIContentParts (msg_Content message));
    guardE forallb (λ p, String.eqb (part_Type p) "text") parts else UnsupportedProtocol;
    Ok (instructions, items ++ [item "function_call_output" "" (Raw EmptyString) (msg_ToolCallID message) "" ""
                                  (foldr (λ p text, part_Text p +:+ text) EmptyString parts)])
  else Err InvalidMessage.

Fixpoint add_messages (messages : list openAIMessage) (acc : responses_input) : converts responses_input :=
  match messages with
  | [] => Ok acc
  | m :: messages => acc ← add_message m acc; add_messages messages acc
  end.

(** Model and messages of a chat request, not streaming. *)
Definition chat_request (body : string) : converts openAIRequest :=
  request ← read c_openAIRequest body;
  guardE negb (blank (oa_Model request)) && negb (bool_decide (elems (oa_Messages request) = [])) else InvalidMessage;
  guardE negb (oa_Stream request) else UnsupportedProtocol;
  Ok request.

Definition openAIToResponsesRequest (body : string) : converts string :=
  request ← chat_request body;
  '(instructions, items) ← add_messages (elems (oa_Messages request)) (EmptyString, []);
  guardE negb (bool_decide (items = [])) else InvalidMessage;
  tools ← traverse (λ tool, let f := tool_Function tool in
    guardE function_tool (tool_Type tool) (fn_Name f) (fn_Parameters f) else InvalidMessage;
    Ok {| rt_Type := "function"; rt_Name := fn_Name f; rt_Description := fn_Description f; rt_Parameters := fn_Parameters f |})
    (elems (oa_Tools request));
  limit ← positive (oa_MaxTokens request);
  Ok (encode c_responsesRequest
    {| rq_Model := oa_Model request; rq_Input := mustJSON_list c_responsesInputItem items; rq_Instructions := instructions;
       rq_Stream := false; rq_Tools := made tools; rq_MaxOutputTokens := limit; rq_Temperature := oa_Temperature request;
       rq_TopP := oa_TopP request; rq_Stop := if present (oa_Stop request) then oa_Stop request else Raw EmptyString;
       rq_PreviousID := "" |}).

(** The system texts so far, and the messages. *)
Abbreviation anthropic_input := (list string * list anthropicMessage)%type.

Definition add_turn (message : openAIMessage) (acc : anthropic_input) : converts anthropic_input :=
  let '(system, messages) := acc in
  if String.eqb (msg_Role message) "system" then
    text ← or_err InvalidMessage (textValue (msg_Content message)); Ok (system ++ [text], messages)
  else converted ← openAIMessageToAnthropic message; Ok (system, messages ++ [converted]).

Fixpoint add_turns (messages : list openAIMessage) (acc : anthropic_input) : converts anthropic_input :=
  match messages with
  | [] => Ok acc
  | m :: messages => acc ← add_turn m acc; add_turns messages acc
  end.

(** [strings.Join(l, "\n\n")] *)
Fixpoint paragraphs (l : list string) : string :=
  match l with [] => EmptyString | [s] => s | s :: l => s +:+ chr 10 +:+ chr 10 +:+ paragraphs l end.

Definition openAIToAnthropicRequest (body : string) : converts string :=
  request ← chat_request body;
  limit ← or_err InvalidMessage (oa_MaxTokens request);
  guardE 0 <? limit else InvalidMessage;
  tools ← openAIToolsToAnthropic (elems (oa_Tools request));
  '(system, messages) ← add_turns (elems (oa_Messages request)) ([], []);
  guardE negb (bool_decide (messages = [])) else InvalidMessage;
  stop ← (if String.eqb (raw_text (oa_Stop request)) "" || String.eqb (raw_text (oa_Stop request)) "null" then Ok None
          else stop_sequences (oa_Stop request));
  Ok (encode c_anthropicRequest
    {| an_Model := oa_Model request; an_Messages := made messages;
       an_System := if bool_decide (system = []) then Raw EmptyString else mustJSON_string (paragraphs system);
       an_MaxTokens := limit; an_Stream := false; an_Tools := tools; an_Temperature := oa_Temperature request;
       an_TopP := oa_TopP request; an_StopSequence := stop |}).

Definition anthropicToOpenAIRequest (body : string) : converts string :=
  request ← read c_anthropicRequest body;
  guardE negb (blank (an_Model request)) && negb (bool_decide (elems (an_Messages request) = [])) && (0 <? an_MaxTokens request)
  else InvalidMessage;
  guardE negb (an_Stream request) else UnsupportedProtocol;
  system ← (if String.eqb (raw_text (an_System request)) "" || String.eqb (raw_text (an_System request)) "null" then Ok []
            else text ← or_err InvalidMessage (anthropicTextValue (an_System request));
                 Ok [openai_message "system" (mustJSON_string text) None ""]);
  messages ← traverse anthropicMessageToOpenAI (elems (an_Messages request));
  tools ← anthropicToolsToOpenAI (elems (an_Tools request));
  Ok (encode c_openAIRequest
    {| oa_Model := an_Model request; oa_Messages := made (system ++ concat messages); oa_Stream := false; oa_Tools := tools;
       oa_MaxTokens := Some (an_MaxTokens request); oa_Temperature := an_Temperature request; oa_TopP := an_TopP request;
       oa_Stop := if bool_decide (elems (an_StopSequence request) = []) then Raw EmptyString
                  else mustJSON_list c_string (elems (an_StopSequence request)) |}).

Definition part_to_gemini (part : openAIContentPart) : converts geminiPart :=
  if String.eqb (part_Type part) "text" then Ok {| gp_Text := part_Text part; InlineData := None; FileData := None |}
  else image ← or_err InvalidMessage (ImageURL part); or_err InvalidMessage (openAIImageToGemini (URL image)).

(** The system instruction so far, and the contents. *)
Abbreviation gemini_input := (option (list geminiPart) * list geminiContent)%type.

Definition add_content (message : openAIMessage) (acc : gemini_input) : converts gemini_input :=
  let '(system, contents) := acc in
  parts ← or_err InvalidMessage (openAIContentParts (msg_Content message));
  parts ← traverse part_to_gemini parts;
  if String.eqb (msg_Role message) "system" then Ok (Some (default [] system ++ parts), contents)
  else if String.eqb (msg_Role message) "user" then
    Ok (system, contents ++ [{| gc_Role := "user"; gc_Parts := made parts |}])
  else if String.eqb (msg_Role message) "assistant" then
    Ok (system, contents ++ [{| gc_Role := "model"; gc_Parts := made parts |}])
  else Err InvalidMessage.

Fixpoint add_contents (messages : list openAIMessage) (acc : gemini_input) : converts gemini_input :=
  match messages with
  | [] => Ok acc
  | m :: messages => acc ← add_content m acc; add_contents messages acc
  end.

Definition openAIToGeminiRequest (body : string) : converts string :=
  request ← read c_openAIRequest body;
  guardE negb (blank (oa_Model request)) && negb (bool_decide (elems (oa_Messages request) = [])) else InvalidMessage;
  guardE negb (oa_Stream request) && bool_decide (elems (oa_Tools request) = []) else UnsupportedProtocol;
  '(system, contents) ← add_contents (elems (oa_Messages request)) (None, []);
  guardE negb (bool_decide (contents = [])) else InvalidMessage;
  limit ← positive (oa_MaxTokens request);
  stop ← (if present (oa_Stop request) then stop_sequences (oa_Stop request) else Ok None);
  let config := {| MaxOutputTokens := default 0 limit; gg_Temperature := oa_Temperature request; gg_TopP := oa_TopP request;
                   StopSequences := stop |} in
  let wanted := (0 <? MaxOutputTokens config) || bool_decide (is_Some (gg_Temperature config)) || bool_decide (is_Some (gg_TopP config))
                || negb (bool_decide (elems stop = [])) in
  Ok (encode c_geminiRequest
    {| Contents := made contents; SystemInstruction := (λ parts, {| gc_Role := ""; gc_Parts := made parts |}) <$> system;
       GenerationConfig := if wanted then Some config else None |}).

Definition ConvertRequest (body : string) (from to_ : Protocol) : converts string :=
  if bool_decide (from = to_) then (guardE validateJSON body else OtherError; Ok body)
  else match from, to_ with
       | OpenAIResponses, OpenAIChat => responsesToOpenAIRequest body
       | OpenAIChat, OpenAIResponses => openAIToResponsesRequest body
       | OpenAIChat, AnthropicMessages => openAIToAnthropicRequest body
       | AnthropicMessages, OpenAIChat => anthropicToOpenAIRequest body
       | OpenAIChat, GeminiGenerate => openAIToGeminiRequest body
       | _, _ => Err UnsupportedProtocol
       end.
