(* ===== verification/ProtokitReplies.v ===== *)
(** * Response conversions

    [ConvertResponse] of pkg/protokit/protokit.go. *)

From S2P Require Import Prelude Decimal Utf8 GoJson Protokit GoUrl GoStruct ProtokitData ProtokitContent ProtokitConvert.

Open Scope Z_scope.

Definition chat_response (id model : string) (content : RawMessage) (calls : option (slice openAIToolCall)) (finish : string)
    (u : option openAIUsage) : openAIResponse :=
  {| or_ID := id; or_Object := "chat.completion"; or_Model := model;
     or_Choices := made [{| ch_Index := 0; ch_Message := {| rm_Role := "assistant"; rm_Content := content; rm_ToolCalls := calls |};
                            ch_FinishReason := Some finish |}];
     or_Usage := u |}.

(** One text is written as a string, anything else as parts. *)
Definition reply_content (parts : list openAIContentPart) : RawMessage :=
  match parts with
  | [] => Raw EmptyString
  | [p] => if String.eqb (part_Type p) "text" then mustJSON_string (part_Text p) else mustJSON_list c_openAIContentPart parts
  | _ => mustJSON_list c_openAIContentPart parts
  end.

(** ** From OpenAI responses *)

(** Parts, tool calls and message items so far. *)
Record outputs := { out_Parts : list openAIContentPart; out_Calls : list openAIToolCall; out_Messages : Z }.

Definition output_text (part : responsesContentPart) : converts openAIContentPart :=
  guardE String.eqb (rp_Type part) "output_text" else UnsupportedProtocol; Ok (text_part (rp_Text part)).

Definition see_output (item : responsesOutputItem) (o : outputs) : converts outputs :=
  if String.eqb (ro_Type item) "message" then
    guardE String.eqb (ro_Role item) "" || String.eqb (ro_Role item) "assistant" else UnsupportedProtocol;
    parts ← traverse output_text (elems (ro_Content item));
    Ok {| out_Parts := out_Parts o ++ parts; out_Calls := out_Calls o; out_Messages := out_Messages o + 1 |}
  else if String.eqb (ro_Type item) "function_call" then
    guardE negb (blank (ro_CallID item)) && negb (blank (ro_Name item)) else InvalidMessage;
    _ ← or_err InvalidMessage (normalizeToolArguments (ro_Arguments item));
    Ok {| out_Parts := out_Parts o; out_Calls := out_Calls o ++ [called (ro_CallID item) (ro_Name item) (ro_Arguments item)];
          out_Messages := out_Messages o |}
  else Err UnsupportedProtocol.

Fixpoint see_outputs (items : list responsesOutputItem) (o : outputs) : converts outputs :=
  match items with
  | [] => Ok o
  | item :: items => o ← see_output item o; see_outputs items o
  end.

Definition or_sum (total a b : Z) : Z := if total =? 0 then wrap64 (a + b) else total.

Definition chat_usage_of_responses (u : responsesUsage) : openAIUsage :=
  {| ou_Prompt := ru_Input u; ou_Completion := ru_Output u; ou_Total := or_sum (ru_Total u) (ru_Input u) (ru_Output u);
     ou_CacheRead := match ru_Details u with Some d => CachedTokens d | None => 0 end; ou_CacheWrite := 0 |}.

Definition responses_to_chat (response : responsesResponse) : converts openAIResponse :=
  guardE existsb (String.eqb (rr_Status response)) [""; "completed"; "incomplete"]%string else UnsupportedProtocol;
  o ← see_outputs (elems (rr_Output response)) {| out_Parts := []; out_Calls := []; out_Messages := 0 |};
  guardE out_Messages o <=? 1 else UnsupportedProtocol;
  guardE negb (bool_decide (out_Parts o = []) && bool_decide (out_Calls o = [])) else InvalidMessage;
  let cut_short := String.eqb (rr_Status response) "incomplete"
                   || match rr_Incomplete response with Some d => String.eqb (Reason d) "max_output_tokens" | None => false end in
  let finish := if negb (bool_decide (out_Calls o = [])) then "tool_calls"%string
                else if cut_short then "length"%string else "stop"%string in
  Ok (chat_response (rr_ID response) (rr_Model response) (reply_content (out_Parts o)) (made (out_Calls o)) finish
        (chat_usage_of_responses <$> rr_Usage response)).

Definition responsesToOpenAIResponse (body : string) : converts string :=
  response ← read c_responsesResponse body; converted ← responses_to_chat response; Ok (encode c_openAIResponse converted).

(** ** To OpenAI responses *)

Definition only_choice (response : openAIResponse) : converts openAIChoice :=
  match elems (or_Choices response) with [choice] => Ok choice | _ => Err UnsupportedProtocol end.

Definition to_output_text (part : openAIContentPart) : converts responsesContentPart :=
  guardE String.eqb (part_Type part) "text" else UnsupportedProtocol;
  Ok {| rp_Type := "output_text"; rp_Text := part_Text part; rp_ImageURL := ""; rp_Detail := "" |}.

Definition output (type role : string) (content : option (slice responsesContentPart)) (id name arguments : string) : responsesOutputItem :=
  {| ro_Type := type; ro_Role := role; ro_Content := content; ro_CallID := id; ro_Name := name; ro_Arguments := arguments |}.

Definition call_output (call : openAIToolCall) : converts responsesOutputItem :=
  guardE call_named call else InvalidMessage;
  _ ← or_err InvalidMessage (normalizeToolArguments (fn_Arguments (call_Function call)));
  Ok (output "function_call" "" None (call_ID call) (fn_Name (call_Function call)) (fn_Arguments (call_Function call))).

Definition finished_for (reason : string) (finish : option string) : bool :=
  match finish with Some f => String.eqb f reason | None => false end.

Definition responses_usage_of_chat (u : openAIUsage) : responsesUsage :=
  {| ru_Input := ou_Prompt u; ru_Output := ou_Completion u; ru_Total := or_sum (ou_Total u) (ou_Prompt u) (ou_Completion u);
     ru_Details := if 0 <? ou_CacheRead u then Some {| CachedTokens := ou_CacheRead u |} else None |}.

Definition chat_to_responses (response : openAIResponse) : converts responsesResponse :=
  choice ← only_choice response;
  let message := ch_Message choice in
  said ← (if absent (rm_Content message) then Ok []
          else parts ← or_err InvalidMessage (openAIContentParts (rm_Content message));
               parts ← traverse to_output_text parts;
               Ok [output "message" "assistant" (made parts) "" "" ""]);
  calls ← traverse call_output (elems (rm_ToolCalls message));
  let outputs := said ++ calls in
  guardE negb (bool_decide (outputs = [])) else InvalidMessage;
  let cut_short := finished_for "length" (ch_FinishReason choice) in
  Ok {| rr_ID := or_ID response; rr_Object := "response"; rr_Model := or_Model response;
        rr_Status := if cut_short then "incomplete" else "completed"; rr_Output := made outputs;
        rr_Usage := responses_usage_of_chat <$> or_Usage response;
        rr_Incomplete := if cut_short then Some {| Reason := "max_output_tokens" |} else None |}.

Definition openAIToResponsesResponse (body : string) : converts string :=
  response ← read c_openAIResponse body; converted ← chat_to_responses response; Ok (encode c_responsesResponse converted).

(** ** Anthropic *)

Definition anthropicStopReason (reason : option string) : string :=
  match reason with
  | None => "end_turn"
  | Some r => if String.eqb r "" then "end_turn" else if String.eqb r "length" then "max_tokens"
              else if String.eqb r "stop" then "stop_sequence" else r
  end.

Definition openAIFinishReason (reason : string) : string :=
  if String.eqb reason "max_tokens" then "length"
  else if existsb (String.eqb reason) ["stop_sequence"; "end_turn"; ""]%string then "stop" else reason.

Definition anthropic_usage_of_chat (u : openAIUsage) : anthropicUsage :=
  {| au_Input := ou_Prompt u; au_Output := ou_Completion u; au_CacheRead := ou_CacheRead u; au_CacheCreation := ou_CacheWrite u |}.
Definition chat_usage_of_anthropic (u : anthropicUsage) : openAIUsage :=
  {| ou_Prompt := au_Input u; ou_Completion := au_Output u; ou_Total := wrap64 (au_Input u + au_Output u);
     ou_CacheRead := au_CacheRead u; ou_CacheWrite := au_CacheCreation u |}.

Definition chat_to_anthropic (response : openAIResponse) : converts anthropicResponse :=
  choice ← only_choice response;
  guardE match ch_FinishReason choice with
         | Some r => existsb (String.eqb r) [""; "stop"; "length"; "tool_calls"]%string
         | None => true
         end else UnsupportedProtocol;
  let calls := elems (rm_ToolCalls (ch_Message choice)) in
  blocks ← message_blocks (rm_Content (ch_Message choice)) calls;
  guardE negb (bool_decide (blocks = [])) else InvalidMessage;
  Ok {| ar_ID := or_ID response; ar_Type := "message"; ar_Model := or_Model response; ar_Role := "assistant"; ar_Content := made blocks;
        ar_StopReason := if bool_decide (calls = []) then anthropicStopReason (ch_FinishReason choice) else "tool_use";
        ar_Usage := anthropic_usage_of_chat <$> or_Usage response |}.

Definition openAIToAnthropicResponse (body : string) : converts string :=
  response ← read c_openAIResponse body; converted ← chat_to_anthropic response; Ok (encode c_anthropicResponse converted).

(** Content parts and tool calls so far. *)
Abbreviation reply := (list openAIContentPart * list openAIToolCall)%type.

Definition see_block (b : anthropicContentBlock) (acc : reply) : converts reply :=
  let '(parts, calls) := acc in
  if String.eqb (blk_Type b) "text" then Ok (parts ++ [text_part (blk_Text b)], calls)
  else if String.eqb (blk_Type b) "image" then
    part ← or_err InvalidMessage (anthropicImageToOpenAI (blk_Source b)); Ok (parts ++ [part], calls)
  else if String.eqb (blk_Type b) "tool_use" then
    guardE negb (blank (blk_ID b)) && negb (blank (blk_Name b)) && Valid (raw_text (blk_Input b)) else InvalidMessage;
    Ok (parts, calls ++ [called (blk_ID b) (blk_Name b) (raw_text (blk_Input b))])
  else Err UnsupportedProtocol.

Fixpoint see_blocks (blocks : list anthropicContentBlock) (acc : reply) : converts reply :=
  match blocks with
  | [] => Ok acc
  | b :: blocks => acc ← see_block b acc; see_blocks blocks acc
  end.

Definition anthropic_to_chat (response : anthropicResponse) : converts openAIResponse :=
  guardE String.eqb (ar_Role response) "" || String.eqb (ar_Role response) "assistant" else InvalidMessage;
  guardE existsb (String.eqb (ar_StopReason response)) [""; "end_turn"; "max_tokens"; "stop_sequence"; "tool_use"]%string
  else UnsupportedProtocol;
  '(parts, calls) ← see_blocks (elems (ar_Content response)) ([], []);
  let finish := if bool_decide (calls = []) then openAIFinishReason (ar_StopReason response) else "tool_calls" in
  Ok (chat_response (ar_ID response) (ar_Model response) (openAIContentRaw parts) (made calls) finish
        (chat_usage_of_anthropic <$> ar_Usage response)).

Definition anthropicToOpenAIResponse (body : string) : converts string :=
  response ← read c_anthropicResponse body; converted ← anthropic_to_chat response; Ok (encode c_openAIResponse converted).

(** ** Gemini *)

Definition reply_part_to_gemini (part : openAIContentPart) : converts geminiPart :=
  if String.eqb (part_Type part) "text" then Ok {| gp_Text := part_Text part; InlineData := None; FileData := None |}
  else if String.eqb (part_Type part) "image_url" then
    image ← or_err InvalidMessage (ImageURL part); or_err InvalidMessage (openAIImageToGemini (URL image))
  else Err UnsupportedProtocol.

Definition chat_to_gemini (response : openAIResponse) : converts geminiResponse :=
  choice ← only_choice response;
  guardE bool_decide (elems (rm_ToolCalls (ch_Message choice)) = []) else UnsupportedProtocol;
  parts ← or_err InvalidMessage (openAIContentParts (rm_Content (ch_Message choice)));
  parts ← traverse reply_part_to_gemini parts;
  let finish := if finished_for "length" (ch_FinishReason choice) then "MAX_TOKENS" else "STOP" in
  Ok {| Candidates := made [{| gn_Content := {| gc_Role := "model"; gc_Parts := made parts |}; gn_FinishReason := finish |}];
        UsageMetadata := (λ u, {| gu_Prompt := ou_Prompt u; gu_Candidates := ou_Completion u; gu_Total := ou_Total u;
                                  gu_Cached := ou_CacheRead u |}) <$> or_Usage response |}.

Definition openAIToGeminiResponse (body : string) : converts string :=
  response ← read c_openAIResponse body; converted ← chat_to_gemini response; Ok (encode c_geminiResponse converted).

Definition chat_usage_of_gemini (u : geminiUsageMetadata) : openAIUsage :=
  {| ou_Prompt := gu_Prompt u; ou_Completion := gu_Candidates u; ou_Total := or_sum (gu_Total u) (gu_Prompt u) (gu_Candidates u);
     ou_CacheRead := gu_Cached u; ou_CacheWrite := 0 |}.

Definition gemini_to_chat (response : geminiResponse) : converts openAIResponse :=
  candidate ← match elems (Candidates response) with [c] => Ok c | _ => Err UnsupportedProtocol end;
  guardE String.eqb (gc_Role (gn_Content candidate)) "" || String.eqb (gc_Role (gn_Content candidate)) "model" else InvalidMessage;
  parts ← traverse (λ p, or_err InvalidMessage (geminiImageToOpenAI p)) (elems (gc_Parts (gn_Content candidate)));
  guardE negb (bool_decide (parts = [])) else InvalidMessage;
  let finish := if String.eqb (gn_FinishReason candidate) "MAX_TOKENS" then "length" else "stop" in
  Ok (chat_response "" "" (reply_content parts) None finish (chat_usage_of_gemini <$> UsageMetadata response)).

Definition geminiToOpenAIResponse (body : string) : converts string :=
  response ← read c_geminiResponse body; converted ← gemini_to_chat response; Ok (encode c_openAIResponse converted).

Definition ConvertResponse (body : string) (from to_ : Protocol) : converts string :=
  if bool_decide (from = to_) then (guardE validateJSON body else OtherError; Ok body)
  else match from, to_ with
       | OpenAIResponses, OpenAIChat => responsesToOpenAIResponse body
       | OpenAIChat, OpenAIResponses => openAIToResponsesResponse body
       | OpenAIChat, AnthropicMessages => openAIToAnthropicResponse body
       | OpenAIResponses, AnthropicMessages => chat ← responsesToOpenAIResponse body; openAIToAnthropicResponse chat
       | AnthropicMessages, OpenAIChat => anthropicToOpenAIResponse body
       | AnthropicMessages, OpenAIResponses => chat ← anthropicToOpenAIResponse body; openAIToResponsesResponse chat
       | OpenAIChat, GeminiGenerate => openAIToGeminiResponse body
       | GeminiGenerate, OpenAIChat => geminiToOpenAIResponse body
       | GeminiGenerate, OpenAIResponses => chat ← geminiToOpenAIResponse body; openAIToResponsesResponse chat
       | GeminiGenerate, AnthropicMessages => chat ← geminiToOpenAIResponse body; openAIToAnthropicResponse chat
       | _, _ => Err UnsupportedProtocol
       end.

Example anthropic_reply : ConvertResponse
    (dq "{'id':'m1','model':'c','role':'assistant','content':[{'type':'text','text':'a<b'},{'type':'tool_use','id':'t','name':'f','input':{'z':1.0,'a':9007199254740993}}],'stop_reason':'tool_use','usage':{'input_tokens':3,'output_tokens':4}}")
    AnthropicMessages OpenAIResponses
  = Ok (dq "{'id':'m1','object':'response','model':'c','status':'completed','output':[{'type':'message','role':'assistant','content':[{'type':'output_text','text':'a\u003cb'}]},{'type':'function_call','call_id':'t','name':'f','arguments':'{\'z\':1.0,\'a\':9007199254740993}'}],'usage':{'input_tokens':3,'output_tokens':4,'total_tokens':7}}").
Proof. vm_compute. reflexivity. Qed.
