(* ===== verification/ReplyFacts.v ===== *)
(** * Replies say the same in every protocol

    What a client of each protocol reads in a reply ([told]), and that
    [ConvertResponse] keeps it. *)

From S2P Require Import Prelude Decimal Numeric Utf8 GoJson GoJsonParse GoJsonFacts Protokit GoStruct GoUrl Codecs Trim GoAny ProtokitData ProtokitContent ImageFacts ProtokitConvert ProtokitReplies.

Open Scope Z_scope.

(** ** The codecs of replies *)

#[export] Instance image_url_spec : CodecSpec c_openAIImageURLValue := struct_spec _ _ _.
#[export] Instance part_spec : CodecSpec c_openAIContentPart := struct_spec _ _ _.
#[export] Instance function_spec : CodecSpec c_openAIFunction := struct_spec _ _ _.
#[export] Instance call_spec : CodecSpec c_openAIToolCall := struct_spec _ _ _.
#[export] Instance response_message_spec : CodecSpec c_openAIResponseMessage := struct_spec _ _ _.
#[export] Instance choice_spec : CodecSpec c_openAIChoice := struct_spec _ _ _.
#[export] Instance chat_usage_spec : CodecSpec c_openAIUsage := struct_spec _ _ _.
#[export] Instance chat_response_spec : CodecSpec c_openAIResponse := struct_spec _ _ _.
#[export] Instance source_spec : CodecSpec c_anthropicImageSource := struct_spec _ _ _.
#[export] Instance block_spec : CodecSpec c_anthropicContentBlock := struct_spec _ _ _.
#[export] Instance anthropic_usage_spec : CodecSpec c_anthropicUsage := struct_spec _ _ _.
#[export] Instance anthropic_response_spec : CodecSpec c_anthropicResponse := struct_spec _ _ _.
#[export] Instance blob_spec : CodecSpec c_geminiBlob := struct_spec _ _ _.
#[export] Instance file_spec : CodecSpec c_geminiFileData := struct_spec _ _ _.
#[export] Instance gemini_part_spec : CodecSpec c_geminiPart := struct_spec _ _ _.
#[export] Instance gemini_content_spec : CodecSpec c_geminiContent := struct_spec _ _ _.
#[export] Instance gemini_usage_spec : CodecSpec c_geminiUsageMetadata := struct_spec _ _ _.
#[export] Instance candidate_spec : CodecSpec c_geminiCandidate := struct_spec _ _ _.
#[export] Instance gemini_response_spec : CodecSpec c_geminiResponse := struct_spec _ _ _.
#[export] Instance output_part_spec : CodecSpec c_responsesContentPart := struct_spec _ _ _.
#[export] Instance output_item_spec : CodecSpec c_responsesOutputItem := struct_spec _ _ _.
#[export] Instance input_details_spec : CodecSpec c_responsesInputDetails := struct_spec _ _ _.
#[export] Instance responses_usage_spec : CodecSpec c_responsesUsage := struct_spec _ _ _.
#[export] Instance incomplete_spec : CodecSpec c_responsesIncompleteDetail := struct_spec _ _ _.
#[export] Instance responses_response_spec : CodecSpec c_responsesResponse := struct_spec _ _ _.

(** ** What a client reads *)

(** Characters of text, and images, in the order they come. *)
Abbreviation speech := (list (Ascii.ascii + image)).
Definition spoken (s : string) : speech := inl <$> String.list_ascii_of_string s.

(** An id, the name of a tool, and its arguments. *)
Abbreviation call := (string * string * string)%type.

Record told := Told {
  t_ID : string; t_Model : string;
  t_said : speech;
  t_calls : list call;
  t_cut : bool;                          (* it was cut off at the limit of tokens *)
  t_tokens : option (Z * Z * Z)          (* input, output, and read from a cache *)
}.

Definition says {A} (f : A → option speech) (l : list A) : option speech := @concat _ <$> mapM f l.

Definition part_says (p : openAIContentPart) : option speech :=
  if String.eqb (part_Type p) "text" then Some (spoken (part_Text p))
  else if String.eqb (part_Type p) "image_url" then (λ i, [inr i]) <$> picture p else None.

Definition content_says (r : RawMessage) : option speech :=
  if absent r then Some []
  else match unmarshal d_string EmptyString (trim_space (raw_text r)) with
       | Some text => Some (spoken text)
       | None => parts ← unmarshal (dec (c_slice c_openAIContentPart)) None (trim_space (raw_text r));
                 says part_says (elems parts)
       end.

Definition call_of (c : openAIToolCall) : call := (call_ID c, fn_Name (call_Function c), fn_Arguments (call_Function c)).

Definition told_chat (r : openAIResponse) : option told :=
  match elems (or_Choices r) with
  | [choice] =>
      said ← content_says (rm_Content (ch_Message choice));
      let calls := call_of <$> elems (rm_ToolCalls (ch_Message choice)) in
      Some {| t_ID := or_ID r; t_Model := or_Model r; t_said := said; t_calls := calls;
              t_cut := finished_for "length" (ch_FinishReason choice);
              t_tokens := (λ u, (ou_Prompt u, ou_Completion u, Z.max 0 (ou_CacheRead u))) <$> or_Usage r |}
  | _ => None
  end.

Definition output_says (p : responsesContentPart) : option speech :=
  if String.eqb (rp_Type p) "output_text" then Some (spoken (rp_Text p)) else None.
Definition item_says (i : responsesOutputItem) : option speech :=
  if String.eqb (ro_Type i) "message" then says output_says (elems (ro_Content i))
  else if String.eqb (ro_Type i) "function_call" then Some [] else None.
Definition item_call (i : responsesOutputItem) : list call :=
  if String.eqb (ro_Type i) "function_call" then [(ro_CallID i, ro_Name i, ro_Arguments i)] else [].

Definition responses_cut (r : responsesResponse) : bool :=
  String.eqb (rr_Status r) "incomplete"
  || match rr_Incomplete r with Some d => String.eqb (Reason d) "max_output_tokens" | None => false end.

Definition told_responses (r : responsesResponse) : option told :=
  said ← says item_says (elems (rr_Output r));
  let calls := elems (rr_Output r) ≫= item_call in
  Some {| t_ID := rr_ID r; t_Model := rr_Model r; t_said := said; t_calls := calls;
          t_cut := responses_cut r;
          t_tokens := (λ u, (ru_Input u, ru_Output u, Z.max 0 (match ru_Details u with Some d => CachedTokens d | None => 0 end)))
                      <$> rr_Usage r |}.

Definition block_says (b : anthropicContentBlock) : option speech :=
  if String.eqb (blk_Type b) "text" then Some (spoken (blk_Text b))
  else if String.eqb (blk_Type b) "image" then (λ i, [inr i]) <$> (blk_Source b ≫= anthropic_picture)
  else if String.eqb (blk_Type b) "tool_use" then Some [] else None.
Definition block_call (b : anthropicContentBlock) : list call :=
  if String.eqb (blk_Type b) "tool_use" then [(blk_ID b, blk_Name b, raw_text (blk_Input b))] else [].

Definition told_anthropic (r : anthropicResponse) : option told :=
  said ← says block_says (elems (ar_Content r));
  let calls := elems (ar_Content r) ≫= block_call in
  Some {| t_ID := ar_ID r; t_Model := ar_Model r; t_said := said; t_calls := calls;
          t_cut := String.eqb (ar_StopReason r) "max_tokens";
          t_tokens := (λ u, (au_Input u, au_Output u, Z.max 0 (au_CacheRead u))) <$> ar_Usage r |}.

Definition gemini_says (p : geminiPart) : option speech :=
  match InlineData p, FileData p with
  | None, None => Some (spoken (gp_Text p))
  | _, _ => (λ i, [inr i]) <$> gemini_picture p
  end.

(** Gemini's replies have no id, no model and no tool calls here. *)
Definition told_gemini (r : geminiResponse) : option told :=
  match elems (Candidates r) with
  | [c] =>
      said ← says gemini_says (elems (gc_Parts (gn_Content c)));
      Some {| t_ID := ""; t_Model := ""; t_said := said; t_calls := [];
              t_cut := String.eqb (gn_FinishReason c) "MAX_TOKENS";
              t_tokens := (λ u, (gu_Prompt u, gu_Candidates u, Z.max 0 (gu_Cached u))) <$> UsageMetadata r |}
  | _ => None
  end.

(** What the body of a reply tells a client of protocol [p]. *)
Definition told_by (p : Protocol) (body : string) : option told :=
  match p with
  | OpenAIChat => decode c_openAIResponse body ≫= told_chat
  | OpenAIResponses => decode c_responsesResponse body ≫= told_responses
  | AnthropicMessages => decode c_anthropicResponse body ≫= told_anthropic
  | GeminiGenerate => decode c_geminiResponse body ≫= told_gemini
  end.

(** ** Speech *)







(** ** Message contents *)


#[local] Arguments sanitize : simpl never.























(** ** Chat replies are read back *)


(** A finish reason of tool calls takes the place of the limit's: who sees it can
    not tell that the reply was cut off. *)
Definition hides_cut (t : told) : told :=
  {| t_ID := t_ID t; t_Model := t_Model t; t_said := t_said t; t_calls := t_calls t;
     t_cut := bool_decide (t_calls t = []) && t_cut t; t_tokens := t_tokens t |}.

Lemma hides_cut_no_calls t : t_calls t = [] → hides_cut t = t.
Proof. destruct t. cbn. intros ->. done. Qed.





#[local] Arguments Z.eqb : simpl never.
#[local] Arguments elems : simpl never.
#[local] Arguments content_says : simpl never.
#[local] Arguments Z.max : simpl never.







(** ** From OpenAI responses *)















(** ** To OpenAI responses *)

















(** ** To Anthropic *)







(** What tool arguments become when they go through an [any]. *)
Definition rewritten (arguments : string) : string :=
  match unmarshal_any (trim_space arguments) with Some j => marshal (json_go j) | None => arguments end.











(** ** From Anthropic *)









(** ** Gemini *)









(** ** Every conversion *)




Module Demo.

Definition claude_body : string :=
  dq "{'id':'m1','model':'c','role':'assistant','content':[{'type':'text','text':'a<b'},{'type':'tool_use','id':'t','name':'f','input':{'z':1.0}}],'stop_reason':'max_tokens','usage':{'input_tokens':3,'output_tokens':4,'cache_read_input_tokens':2}}".
Definition responses_body : string := match ConvertResponse claude_body AnthropicMessages OpenAIResponses with Ok out => out | Err _ => EmptyString end.


(** The reply Anthropic cut off in the middle of a tool call reaches the client as
    a completed one, while a chat reply in the same state does not. *)
Example cut_call_called_whole :
  t_cut <$> told_by AnthropicMessages claude_body = Some true ∧
  t_cut <$> told_by OpenAIResponses responses_body = Some false ∧
  (rr_Status <$> decode c_responsesResponse responses_body) = Some "completed"%string ∧
  let chat := dq "{'id':'r','model':'m','choices':[{'message':{'role':'assistant','tool_calls':[{'id':'t','type':'function','function':{'name':'f','arguments':'{}'}}]},'finish_reason':'length'}]}" in
  t_cut <$> told_by OpenAIChat chat = Some true ∧
  match ConvertResponse chat OpenAIChat OpenAIResponses with
  | Ok out => t_cut <$> told_by OpenAIResponses out = Some true
  | Err _ => False
  end.
Proof. vm_compute. split_and!; reflexivity. Qed.

(** Integers above 2^53 lose their last digits on the way to Anthropic. *)
Example large_arguments_change : rewritten (dq "{'id':9007199254740993}") = dq "{'id':9007199254740992}".
Proof. vm_compute. reflexivity. Qed.

(** A reply of several texts, one of them empty, reaches a chat client but not an Anthropic one. *)
Example empty_text_refused :
  let body := dq "{'id':'r','model':'m','output':[{'type':'message','role':'assistant','content':[{'type':'output_text','text':'a'},{'type':'output_text','text':''}]}]}" in
  is_ok (ConvertResponse body OpenAIResponses OpenAIChat) = true ∧ is_ok (ConvertResponse body OpenAIResponses AnthropicMessages) = false.
Proof. vm_compute. split; reflexivity. Qed.

End Demo.
