(* ===== verification/ChatRequest.v ===== *)
(** * Chat requests at the gateway

    The request body of internal/gateway/server.go, and the helpers that turn
    bodies into what is sent upstream: for a streaming request the conversion,
    the flags that ask for a stream with usage, the envelope of Antigravity; and
    which proxies and TLS profiles there is a client for. *)

From S2P Require Import Prelude Decimal Contracts Utf8 GoJson Protokit GoUrl GoStruct GoAny ProtokitData ProtokitContent ProtokitConvert ProtokitReplies.

Open Scope Z_scope.
Open Scope tag.

Record ChatCompletionRequest := {
  Model : string;
  Messages : option (slice (option object));
  Stream : bool;
  Tools : option (slice (option object));
  MaxTokens : option Z;
  Temperature : option float;
  TopP : option float;
  Stop : json
}.
Definition c_ChatCompletionRequest : codec ChatCompletionRequest := struct
  (λ '(a, (b, (c, (d, (e, (f, (g, (h, _)))))))), {| Model := a; Messages := b; Stream := c; Tools := d; MaxTokens := e;
     Temperature := f; TopP := g; Stop := h |})
  (λ v, (Model v, (Messages v, (Stream v, (Tools v, (MaxTokens v, (Temperature v, (TopP v, (Stop v, tt)))))))))
  ("model" ↦ c_string & "messages" ↦ c_slice c_object & "stream" ↦? c_bool & "tools" ↦? c_slice c_object
   & "max_tokens" ↦? c_pointer c_int & "temperature" ↦? c_pointer c_float & "top_p" ↦? c_pointer c_float
   & "stop" ↦? c_any & no_fields).

Definition messages_of (l : option (slice (option object))) : list object := default [] <$> elems l.

(** [ShouldBindJSON]: the first value of the body; what follows it is not read. *)
Definition bind_request (body : string) : option ChatCompletionRequest :=
  let text := skip_ws body in
  '(n, _) ← value (2 * String.length text + 1) max_depth text;
  let '(request, ok) := dec c_ChatCompletionRequest (zero c_ChatCompletionRequest) n in
  if ok : bool then Some request else None.

Definition unmarshal_request (body : string) : option ChatCompletionRequest := decode c_ChatCompletionRequest body.
Definition marshal_request (request : ChatCompletionRequest) : string := encode c_ChatCompletionRequest request.

Definition containsUnsupportedMessageFields (messages : list object) : bool :=
  existsb (λ message,
    existsb (λ key, bool_decide (is_Some (field key message))) ["thinking"; "images"]%string
    || match field "content" message with
       | Some (JArray parts) => existsb (λ rawPart, match rawPart with
           | JObject part => let partType := as_string (field "type" part) in
                             negb (String.eqb partType "text") && negb (String.eqb partType "image_url")
           | _ => true
           end) parts
       | _ => false
       end) messages.

Definition containsImageMessageFields (messages : list object) : bool :=
  existsb (λ message,
    match field "content" message with
    | Some (JArray parts) => existsb (λ rawPart, match rawPart with
        | JObject part => match field "type" part with Some (JString s) => String.eqb s "image_url" | _ => false end
        | _ => false
        end) parts
    | _ => false
    end) messages.

(** ** Streaming requests *)

Definition include_usage : json := JObject [("include_usage", JBool true)]%string.

Definition marshalStreamingRequest (request : ChatCompletionRequest) : option string :=
  payload ← unmarshal d_object (Some []) (marshal_request request);
  payload ← payload;
  Some (marshal (json_go (JObject (set_member "stream_options" include_usage (set_member "stream" (JBool true) payload))))).

(** The members of a body but for its stream flag, as they were written. *)
Definition without_stream (body : string) : option string :=
  o ← unmarshal raw_map None body;
  Some (marshal match o with
                | Some o => VMap ((λ kv, (kv.1, VRaw kv.2)) <$> map_to_list (delete "stream"%string o))
                | None => VNull
                end).

Definition converted (r : converts string) : option string := match r with Ok body => Some body | Err _ => None end.

Definition validateStreamingProtocolBody (body : string) (protocol : Protocol) : bool :=
  match normalized ← without_stream body;
        canonical ← converted (ConvertRequest normalized protocol OpenAIChat);
        unmarshal (d_struct [("messages", dec (c_slice c_object))]%string) None canonical with
  | Some messages => negb (containsImageMessageFields (messages_of messages))
  | None => false
  end.

Definition convertStreamingRequest (body : string) (from to_ : Protocol) : option string :=
  normalized ← without_stream body;
  result ← converted
    (if negb (bool_decide (from = OpenAIChat)) && negb (bool_decide (to_ = OpenAIChat))
     then canonical ← ConvertRequest normalized from OpenAIChat; ConvertRequest canonical OpenAIChat to_
     else ConvertRequest normalized from to_);
  o ← unmarshal d_object None result;
  (* assigning to a nil map would panic; a converted body is never null *)
  o ← (match o with None => if bool_decide (to_ = GeminiGenerate) then Some None else None | Some o => Some (Some o) end);
  let o := if bool_decide (to_ = GeminiGenerate) then o else set_member "stream" (JBool true) <$> o in
  let o := if bool_decide (to_ = OpenAIChat) then set_member "stream_options" include_usage <$> o else o in
  Some (marshal (object_go o)).

(** ** Providers *)

(** The envelope Antigravity wants a request in. *)
Definition antigravity_payload (model projectID requestID userAgent payload : string) : option string :=
  request ← unmarshal d_object None payload;
  Some (marshal (VMap [("model", VString model); ("project", VString projectID); ("requestId", VString requestID);
    ("requestType", VString "agent"); ("userAgent", VString userAgent); ("request", object_go (drop_member "stream" <$> request))]%string)).

(** [clientForProxy] and [clientForTLSProfile] find a client: no proxy or an
    HTTP one, no profile or a registered one. *)
Definition clientForProxy (rawProxy : string) : bool :=
  let rawProxy := trim_space rawProxy in String.eqb rawProxy "" || http_url rawProxy.

Definition tlsProfiles : list string := ["codex_rustls"; "node24"]%string.
Definition lookupTLSProfile (name : string) : bool := existsb (lower_is (trim_space name)) tlsProfiles.
Definition clientForTLSProfile (profileName : string) : bool := blank profileName || lookupTLSProfile profileName.

Definition transport_ok (profile : UpstreamProfile) : bool :=
  clientForProxy (prof_Proxy profile) && clientForTLSProfile (prof_TLSFingerprint profile).

(** [http.NewRequestWithContext] with a valid method. *)
Definition request_ok (endpoint : string) : bool := bool_decide (is_Some (url_Parse endpoint)).

Example claude_needs_a_limit :
  ConvertRequest (dq "{'model':'m','messages':[{'role':'user','content':'hi'}]}") OpenAIChat AnthropicMessages = Err InvalidMessage.
Proof. vm_compute. reflexivity. Qed.

Example streaming_to_claude :
  convertStreamingRequest (dq "{'model':'m','max_tokens':5,'stream':true,'messages':[{'role':'user','content':'hi'}]}") OpenAIChat AnthropicMessages
  = Some (dq "{'max_tokens':5,'messages':[{'content':[{'text':'hi','type':'text'}],'role':'user'}],'model':'m','stream':true,'system':null,'temperature':null,'top_p':null}").
Proof. vm_compute. reflexivity. Qed.

Example bodies : (λ b, Stream <$> bind_request (dq b)) <$> ["{'stream':true} trailing"; "{'stream':1}"; "x"; ""]%string
  = [Some true; None; None; None].
Proof. vm_compute. reflexivity. Qed.
