(* ===== verification/Stream.v ===== *)
(** * Streaming responses

    internal/gateway/server.go, [drainSSEProtocol] and what it calls: reading
    the upstream's server-sent events, accounting their usage, and converting
    them to the protocol of the client.  The body is the text that was read and
    how reading ended; what becomes of each write to the client is given by a
    schedule. *)

From S2P Require Import Prelude Decimal Utf8 GoJson Protokit.

Open Scope Z_scope.
#[local] Arguments pair {A B} a%_string b.
#[local] Arguments VString s%_string.

(** ** Usage *)

Record streamUsageAccumulator := { valueData : usage; present : bool }.

Definition no_usage : streamUsageAccumulator :=
  {| valueData := {| Input := 0; Output := 0; CacheRead := 0; CacheWrite := 0 |}; present := false |}.

(** A counter that is reported again replaces the earlier report, unless it is
    zero. *)
Definition merge (candidate : usage) (a : streamUsageAccumulator) : streamUsageAccumulator :=
  {| valueData := {| Input := or_else (Input candidate) (Input (valueData a));
                     Output := or_else (Output candidate) (Output (valueData a));
                     CacheRead := or_else (CacheRead candidate) (CacheRead (valueData a));
                     CacheWrite := or_else (CacheWrite candidate) (CacheWrite (valueData a)) |};
     present := true |}.

Definition merge_found (candidate : option usage) (a : streamUsageAccumulator) : streamUsageAccumulator :=
  match candidate with Some candidate => merge candidate a | None => a end.

(** The usage object [raw], put back into an envelope. *)
Definition raw_report (raw : string) (protocol : Protocol) : option usage :=
  parseUsageForProtocol (marshal (VMap [("usage", VRaw raw)])) protocol.

Definition mergeRaw (raw : string) (protocol : Protocol) : streamUsageAccumulator → streamUsageAccumulator :=
  merge_found (raw_report raw protocol).

(** A member of an object, as text. *)
Definition raw_member (key text : string) : option string :=
  envelope ← mjoin (unmarshal raw_map None text); envelope !! key.

(** The usage an event carries inside its message or response. *)
Definition nested_usage (protocol : Protocol) (data : string) : option string :=
  match protocol with
  | AnthropicMessages => raw_member "message" data ≫= raw_member "usage"
  | OpenAIResponses => raw_member "response" data ≫= raw_member "usage"
  | _ => None
  end.

Definition observe (protocol : Protocol) (data : string) (a : streamUsageAccumulator) : streamUsageAccumulator :=
  let a := merge_found (parseUsageForProtocol data protocol) a in
  match nested_usage protocol data with Some raw => mergeRaw raw protocol a | None => a end.

Definition value_of (a : streamUsageAccumulator) : option usage := if present a then Some (valueData a) else None.

(** ** The end of a stream *)

(** type, and the finish reasons of the candidates *)
Definition decode_ending : decoder (string * option (slice string))%type :=
  d_struct [("type", d_fst d_string);
            ("candidates", d_snd (d_slice EmptyString (d_struct [("finishReason", d_string)])))]%string.

Definition streamEventDone (protocol : Protocol) (eventType data : string) : bool :=
  if bool_decide (protocol = OpenAIChat) && String.eqb data "[DONE]" then true
  else match unmarshal decode_ending (EmptyString, None) data with
  | None => false
  | Some (type, candidates) =>
      match protocol with
      | AnthropicMessages => String.eqb eventType "message_stop" || String.eqb type "message_stop"
      | OpenAIResponses =>
          String.eqb eventType "response.completed" || String.eqb eventType "response.done"
          || String.eqb type "response.completed" || String.eqb type "response.done"
      | GeminiGenerate => match elems candidates with reason :: _ => negb (String.eqb reason "") | [] => false end
      | OpenAIChat => false
      end
  end.

Definition eventSSEBlock (eventType data : string) : string :=
  (if negb (String.eqb eventType "") then "event: " +:+ eventType +:+ chr 10 else "")
  +:+ "data: " +:+ data +:+ chr 10 +:+ chr 10.

(** ** What an event says *)

Definition canonicalStreamFinishReason (reason : string) : string :=
  let reason := trim_space reason in
  if String.eqb reason "" then ""
  else if existsb (lower_is reason) ["length"; "max_tokens"; "max_output_tokens"]%string then "length" else "stop".

(** text, finish reason, done *)
Abbreviation stream_event := (string * string * bool)%type.

(** delta and finish_reason of a choice *)
Definition decode_choices : decoder (option (slice (option (gmap string string) * string)%type)) :=
  d_struct [("choices", d_slice (None, EmptyString) (d_struct [("delta", d_fst raw_map); ("finish_reason", d_snd d_string)]))]%string.

(** A delta may say who speaks and what; anything else must be empty. *)
Definition delta_supported (delta : gmap string string) : bool :=
  forallb (λ kv, let trimmed := trim_space kv.2 in
    String.eqb kv.1 "role" || String.eqb kv.1 "content" || String.eqb trimmed ""
    || String.eqb trimmed "null" || String.eqb trimmed "[]" || String.eqb trimmed "{}") (map_to_list delta).

Definition decode_chat_event (data : string) : option stream_event :=
  choices ← unmarshal decode_choices None data;
  match elems choices with
  | [] => Some (EmptyString, EmptyString, false)
  | [(delta, finish)] =>
      let delta := default ∅ delta in
      if negb (delta_supported delta) then None
      else
      let raw := trim_space (default EmptyString (delta !! "content"%string)) in
      text ← (if (0 <? str_len raw) && negb (String.eqb raw "null") then unmarshal d_string EmptyString raw
              else Some EmptyString);
      Some (text, canonicalStreamFinishReason finish, false)
  | _ => None
  end.

(** type, content_block.type, and type, text, stop_reason of the delta *)
Definition decode_anthropic : decoder (string * (string * (string * (string * string))))%type :=
  d_struct [("type", d_fst d_string);
            ("content_block", d_snd (d_fst (d_struct [("type", d_string)])));
            ("delta", d_snd (d_snd (d_struct [("type", d_fst d_string); ("text", d_snd (d_fst d_string));
                                               ("stop_reason", d_snd (d_snd d_string))])))]%string.

Definition one_of (s : string) (names : list string) : bool := existsb (String.eqb s) names.

Definition understand_anthropic (eventType : string) (v : string * (string * (string * (string * string)))) : option stream_event :=
  let '(type, (block, (deltaType, (text, stop)))) := v in
  let typeValue := if String.eqb type "" then eventType else type in
  if one_of typeValue ["message_start"; "content_block_stop"; "message_delta"; "ping"]%string
  then Some (EmptyString, canonicalStreamFinishReason stop, false)
  else if String.eqb typeValue "content_block_start" then
    if one_of block [""; "text"]%string then Some (EmptyString, EmptyString, false) else None
  else if String.eqb typeValue "content_block_delta" then
    if one_of deltaType [""; "text_delta"]%string then Some (text, EmptyString, false) else None
  else if String.eqb typeValue "message_stop" then Some (EmptyString, EmptyString, true)
  else None.

Definition decode_anthropic_event (eventType data : string) : option stream_event :=
  unmarshal decode_anthropic ("", ("", ("", ("", ""))))%string data ≫= understand_anthropic eventType.

(** type, delta, item.type, part.type, and status and incomplete_details.reason
    of the response *)
Definition decode_responses : decoder (string * (string * (string * (string * (string * option string)))))%type :=
  d_struct [("type", d_fst d_string); ("delta", d_snd (d_fst d_string));
            ("item", d_snd (d_snd (d_fst (d_struct [("type", d_string)]))));
            ("part", d_snd (d_snd (d_snd (d_fst (d_struct [("type", d_string)])))));
            ("response", d_snd (d_snd (d_snd (d_snd (d_struct [("status", d_fst d_string);
              ("incomplete_details", d_snd (d_pointer EmptyString (d_struct [("reason", d_string)])))])))))]%string.

Definition understand_responses (eventType : string)
    (v : string * (string * (string * (string * (string * option string))))) : option stream_event :=
  let '(type, (delta, (item, (part, (status, incomplete))))) := v in
  let typeValue := if String.eqb type "" then eventType else type in
  if String.eqb typeValue "response.output_text.delta" then Some (delta, EmptyString, false)
  else if one_of typeValue ["response.created"; "response.queued"; "response.in_progress"; "response.output_text.done";
                            "response.output_item.done"]
  then Some (EmptyString, EmptyString, false)
  else if String.eqb typeValue "response.output_item.added" then
    if one_of item [""; "message"] then Some (EmptyString, EmptyString, false) else None
  else if one_of typeValue ["response.content_part.added"; "response.content_part.done"] then
    if one_of part [""; "output_text"] then Some (EmptyString, EmptyString, false) else None
  else if one_of typeValue ["response.completed"; "response.done"] then
    let finishReason := match incomplete with
                        | Some reason => canonicalStreamFinishReason reason
                        | None => if String.eqb status "incomplete" then "length"%string else "stop"%string
                        end in
    Some (EmptyString, finishReason, true)
  else None.

Definition decode_responses_event (eventType data : string) : option stream_event :=
  unmarshal decode_responses ("", ("", ("", ("", ("", None)))))%string data ≫= understand_responses eventType.

(** parts and finish reason of each candidate; usageMetadata *)
Definition decode_gemini : decoder (option (slice (option (slice (option (gmap string string))) * string)%type) * string)%type :=
  d_struct [("candidates", d_fst (d_slice (None, EmptyString)
              (d_struct [("content", d_fst (d_struct [("parts", d_slice None raw_map)]));
                         ("finishReason", d_snd d_string)])));
            ("usageMetadata", d_snd d_raw)]%string.

(** A part of a candidate is its text and nothing else. *)
Definition part_text (part : option (gmap string string)) : option string :=
  let part := default ∅ part in
  if negb (Nat.eqb (size part) 1) then None
  else raw ← part !! "text"%string; unmarshal d_string EmptyString raw.

Definition decode_gemini_event (data : string) : option stream_event :=
  '(candidates, usageMetadata) ← unmarshal decode_gemini (None, EmptyString) data;
  match elems candidates with
  | [] => if negb (String.eqb (trim_space usageMetadata) "") then Some (EmptyString, EmptyString, false) else None
  | [(parts, finish)] =>
      pieces ← mapM part_text (elems parts);
      let finishReason := canonicalStreamFinishReason finish in
      Some (texts id pieces, finishReason, negb (String.eqb finishReason ""))
  | _ => None
  end.

(** [None] for an event that cannot be converted. *)
Definition decodeProtocolStreamEvent (protocol : Protocol) (eventType data : string) : option stream_event :=
  if bool_decide (protocol = OpenAIChat) && String.eqb data "[DONE]" then Some (EmptyString, EmptyString, true)
  else
  _ ← unmarshal raw_map None data;
  match protocol with
  | OpenAIChat => decode_chat_event data
  | AnthropicMessages => decode_anthropic_event eventType data
  | OpenAIResponses => decode_responses_event eventType data
  | GeminiGenerate => decode_gemini_event data
  end.

(** ** Writing events for another protocol *)

Record protocolSSEConverter := MkConverter {
  source : Protocol;
  target : Protocol;
  model : string;
  cv_usage : streamUsageAccumulator;
  started : bool;
  contentStarted : bool;
  finished : bool;
  finishReason : string;
  text : string;
  sequenceNumber : Z
}.

Definition newProtocolSSEConverter (source target : Protocol) (model : string) : protocolSSEConverter :=
  MkConverter source target model no_usage false false false "" "" 0.

Definition with_usage (u : streamUsageAccumulator) (c : protocolSSEConverter) :=
  MkConverter (source c) (target c) (model c) u (started c) (contentStarted c) (finished c) (finishReason c) (text c) (sequenceNumber c).
Definition with_finishReason (r : string) (c : protocolSSEConverter) :=
  MkConverter (source c) (target c) (model c) (cv_usage c) (started c) (contentStarted c) (finished c) r (text c) (sequenceNumber c).
Definition with_started (content : bool) (c : protocolSSEConverter) :=
  MkConverter (source c) (target c) (model c) (cv_usage c) true content (finished c) (finishReason c) (text c) (sequenceNumber c).
Definition with_finished (c : protocolSSEConverter) :=
  MkConverter (source c) (target c) (model c) (cv_usage c) (started c) (contentStarted c) true (finishReason c) (text c) (sequenceNumber c).
Definition with_text (t : string) (c : protocolSSEConverter) :=
  MkConverter (source c) (target c) (model c) (cv_usage c) (started c) (contentStarted c) (finished c) (finishReason c) t (sequenceNumber c).
Definition numbered (c : protocolSSEConverter) :=
  MkConverter (source c) (target c) (model c) (cv_usage c) (started c) (contentStarted c) (finished c) (finishReason c) (text c)
    (sequenceNumber c + 1).

(** *** Anthropic messages *)

Definition nonzero_field (key : string) (z : Z) : list (string * govalue) := if z =? 0 then [] else [(key, VInt z)].

Definition anthropicStreamUsage (parsed : option usage) : govalue :=
  match parsed with
  | None => VMap [("input_tokens", VInt 0); ("output_tokens", VInt 0)]%string
  | Some u => VMap ([("input_tokens", VInt (Input u)); ("output_tokens", VInt (Output u))]%string
      ++ nonzero_field "cache_read_input_tokens" (CacheRead u)
      ++ nonzero_field "cache_creation_input_tokens" (CacheWrite u))
  end.

Definition map_block (eventType : string) (payload : list (string * govalue)) : string :=
  eventSSEBlock eventType (marshal (VMap payload)).

Definition startAnthropic (c : protocolSSEConverter) : list string * protocolSSEConverter :=
  if started c then ([], c)
  else
  let message := VMap [("id", VString "msg_stream"); ("type", VString "message"); ("role", VString "assistant");
    ("model", VString (model c)); ("content", VArray []); ("stop_reason", VNull); ("stop_sequence", VNull);
    ("usage", anthropicStreamUsage (value_of (cv_usage c)))]%string in
  ([map_block "message_start" [("type", VString "message_start"); ("message", message)];
    map_block "content_block_start" [("type", VString "content_block_start"); ("index", VInt 0);
      ("content_block", VMap [("type", VString "text"); ("text", VString "")])]]%string,
   with_started true c).

Definition convertToAnthropic (txt : string) (done : bool) (c : protocolSSEConverter) : list string * protocolSSEConverter :=
  let '(blocks, c) := if negb (String.eqb txt "") || done then startAnthropic c else ([], c) in
  let blocks := blocks ++ (if negb (String.eqb txt "") then
    [map_block "content_block_delta" [("type", VString "content_block_delta"); ("index", VInt 0);
       ("delta", VMap [("type", VString "text_delta"); ("text", VString txt)])]]%string else []) in
  if negb done then (blocks, c)
  else
  let blocks := blocks ++ (if contentStarted c then
    [map_block "content_block_stop" [("type", VString "content_block_stop"); ("index", VInt 0)]]%string else []) in
  let stopReason := if String.eqb (finishReason c) "length" then "max_tokens"%string else "end_turn"%string in
  (blocks ++
   [map_block "message_delta" [("type", VString "message_delta");
      ("delta", VMap [("stop_reason", VString stopReason); ("stop_sequence", VNull)]);
      ("usage", anthropicStreamUsage (value_of (cv_usage c)))];
    map_block "message_stop" [("type", VString "message_stop")]]%string,
   with_finished c).

(** *** OpenAI responses *)

Definition responsesStreamUsage (parsed : option usage) : govalue :=
  match parsed with
  | None => VMap [("input_tokens", VInt 0); ("output_tokens", VInt 0); ("total_tokens", VInt 0)]%string
  | Some u => VMap ([("input_tokens", VInt (Input u)); ("output_tokens", VInt (Output u));
                     ("total_tokens", VInt (wrap64 (Input u + Output u)))]%string
      ++ (if CacheRead u =? 0 then [] else [("input_tokens_details", VMap [("cached_tokens", VInt (CacheRead u))])]%string))
  end.

Definition responsesEvent (eventType : string) (fields : list (string * govalue)) (c : protocolSSEConverter) :
    string * protocolSSEConverter :=
  (map_block eventType (fields ++ [("type", VString eventType); ("sequence_number", VInt (sequenceNumber c))]),
   numbered c).

(** Events one after the other. *)
Fixpoint responsesEvents (l : list (string * list (string * govalue))) (c : protocolSSEConverter) :
    list string * protocolSSEConverter :=
  match l with
  | [] => ([], c)
  | (eventType, fields) :: l =>
      let '(block, c) := responsesEvent eventType fields c in
      let '(blocks, c) := responsesEvents l c in (block :: blocks, c)
  end.

Definition message_position : list (string * govalue) :=
  [("item_id", VString "msg_stream"); ("output_index", VInt 0); ("content_index", VInt 0)]%string.

Definition text_part (txt : string) : govalue :=
  VMap [("type", VString "output_text"); ("text", VString txt); ("annotations", VArray [])]%string.

Definition message_item (status : string) (content : list govalue) : govalue :=
  VMap [("id", VString "msg_stream"); ("type", VString "message"); ("status", VString status);
        ("role", VString "assistant"); ("content", VArray content)]%string.

Definition startResponses (c : protocolSSEConverter) : list string * protocolSSEConverter :=
  if started c then ([], c)
  else
  let response := VMap [("id", VString "resp_stream"); ("object", VString "response"); ("status", VString "in_progress");
    ("model", VString (model c)); ("output", VArray [])]%string in
  responsesEvents
    [("response.created", [("response", response)]);
     ("response.in_progress", [("response", response)]);
     ("response.output_item.added", [("output_index", VInt 0); ("item", message_item "in_progress" [])]);
     ("response.content_part.added", message_position ++ [("part", text_part "")])]
    (with_started (contentStarted c) c).

Definition final_response (c : protocolSSEConverter) (item : govalue) : govalue :=
  let common status := [("id", VString "resp_stream"); ("object", VString "response"); ("status", VString status);
    ("model", VString (model c)); ("output", VArray [item]);
    ("usage", responsesStreamUsage (value_of (cv_usage c)))]%string in
  if String.eqb (finishReason c) "length"
  then VMap (common "incomplete"%string ++ [("incomplete_details", VMap [("reason", VString "max_output_tokens")])]%string)
  else VMap (common "completed"%string).

Definition convertToResponses (txt : string) (done : bool) (c : protocolSSEConverter) : list string * protocolSSEConverter :=
  let '(blocks, c) := if negb (String.eqb txt "") || done then startResponses c else ([], c) in
  let '(delta, c) := if negb (String.eqb txt "")
    then responsesEvents [("response.output_text.delta", message_position ++ [("delta", VString txt)])]
           (with_text (text c +:+ txt) c)
    else ([], c) in
  let blocks := blocks ++ delta in
  if negb done then (blocks, c)
  else
  let item := message_item "completed" [text_part (text c)] in
  let '(ending, c) := responsesEvents
    [("response.output_text.done", message_position ++ [("text", VString (text c))]);
     ("response.content_part.done", message_position ++ [("part", text_part (text c))]);
     ("response.output_item.done", [("output_index", VInt 0); ("item", item)]);
     ("response.completed", [("response", final_response c item)])] c in
  (blocks ++ ending, with_finished c).

(** *** OpenAI chat *)

Definition chunk (model : string) (delta : list (string * govalue)) (finish : option string) : string :=
  "data: " +:+ marshal (VMap [("id", VString "stream"); ("object", VString "chat.completion.chunk"); ("model", VString model);
    ("choices", VArray [VMap [("index", VInt 0); ("delta", VMap delta);
       ("finish_reason", match finish with Some reason => VString reason | None => VNull end)]])])
  +:+ chr 10 +:+ chr 10.

Definition usage_text (protocol : Protocol) (data : string) : string :=
  match protocol with
  | AnthropicMessages => default EmptyString (unmarshal (d_struct [("usage", d_raw)]) EmptyString data)
  | OpenAIResponses =>
      default EmptyString (unmarshal (d_struct [("response", d_struct [("usage", d_raw)])]) EmptyString data)
  | _ => default EmptyString (raw_member "usageMetadata" data)
  end.

Definition usageChunk (model data : string) (protocol : Protocol) : list string :=
  let raw := usage_text protocol data in
  if String.eqb raw "" || String.eqb (trim_space raw) "null" then []
  else
  let usageBody := if bool_decide (protocol = GeminiGenerate) then data else dq "{'usage':" +:+ raw +:+ "}" in
  match parseUsageForProtocol usageBody protocol with
  | None => []
  | Some parsed =>
      ["data: " +:+ marshal (VMap [("id", VString "stream"); ("object", VString "chat.completion.chunk"); ("model", VString model);
         ("choices", VArray []);
         ("usage", VMap [("prompt_tokens", VInt (Input parsed)); ("completion_tokens", VInt (Output parsed));
            ("total_tokens", VInt (wrap64 (Input parsed + Output parsed)))])])
       +:+ chr 10 +:+ chr 10]
  end.

Definition done_block : string := "data: [DONE]" +:+ chr 10 +:+ chr 10.
Definition content_chunk (model txt : string) : list string :=
  if String.eqb txt "" then [] else [chunk model [("content", VString txt)] None].

(** [_ = json.Unmarshal(text, &s)]: a failure leaves [s] empty. *)
Definition loose_string (text : option string) : string := (Unmarshal d_string EmptyString (default EmptyString text)).1.

(** text and finish reason of the candidates *)
Definition decode_gemini_chunk : decoder (option (slice (option (slice string) * string)%type)) :=
  d_struct [("candidates", d_slice (None, EmptyString)
    (d_struct [("content", d_fst (d_struct [("parts", d_slice EmptyString (d_struct [("text", d_string)]))]));
               ("finishReason", d_snd d_string)]))].

Definition convertSSEBlock (protocol inboundProtocol : Protocol) (eventType data model : string) : list string :=
  if negb (bool_decide (inboundProtocol = OpenAIChat)) then []
  else match unmarshal raw_map None data with
  | None => []
  | Some _ =>
      let type := raw_member "type" data in
      match protocol with
      | AnthropicMessages =>
          if String.eqb eventType "message_stop" || bool_decide (type = Some (quoted "message_stop"))
          then [chunk model [] (Some "stop"%string); done_block]
          else
          let '(txt, stop) := (Unmarshal (d_struct [("delta", d_struct [("text", d_fst d_string); ("stop_reason", d_snd d_string)])])
                                 (EmptyString, EmptyString) data).1 in
          content_chunk model txt
          ++ (if String.eqb stop "" then []
              else [chunk model [] (Some (if String.eqb stop "max_tokens" then "length" else "stop")%string)])
          ++ usageChunk model data protocol
      | OpenAIResponses =>
          let typeValue := loose_string type in
          if one_of typeValue ["response.completed"; "response.done"] || one_of eventType ["response.completed"; "response.done"]
          then [chunk model [] (Some "stop"%string)] ++ usageChunk model data protocol ++ [done_block]
          else if String.eqb typeValue "response.output_text.delta"
          then content_chunk model (loose_string (raw_member "delta" data)) else []
      | GeminiGenerate =>
          match unmarshal decode_gemini_chunk None data with
          | None => []
          | Some candidates =>
              match elems candidates with
              | [] => []
              | (parts, finish) :: _ =>
                  mjoin (content_chunk model <$> elems parts)
                  ++ (if String.eqb finish "" then []
                      else [chunk model [] (Some (if String.eqb finish "MAX_TOKENS" then "length" else "stop")%string)]
                           ++ usageChunk model data protocol ++ [done_block])
              end
          end
      | OpenAIChat => []
      end
  end.

(** [None] for an event that cannot be converted. *)
Definition convert (eventType data : string) (c : protocolSSEConverter) : option (list string * protocolSSEConverter) :=
  if negb (bool_decide (target c = OpenAIChat)) && finished c then Some ([], c)
  else
  '(txt, reason, done) ← decodeProtocolStreamEvent (source c) eventType data;
  if bool_decide (target c = OpenAIChat)
  then Some (convertSSEBlock (source c) (target c) eventType data (model c), c)
  else
  let c := with_usage (observe (source c) data (cv_usage c)) c in
  let c := if negb (String.eqb reason "") then with_finishReason reason c else c in
  match target c with
  | AnthropicMessages => Some (convertToAnthropic txt done c)
  | OpenAIResponses => Some (convertToResponses txt done c)
  | _ => None
  end.

(** ** Draining *)

(** What becomes of a write to the client: it may be cancelled before it is
    tried, or fail. *)
Inductive write_outcome := Accepted | Cancelled | Broken.

Record client := Client {
  sent : list string;
  gone : option write_outcome;       (* writeErr: why it is no longer written to *)
  schedule : list write_outcome
}.

Definition write (data : string) (c : client) : client :=
  match gone c with
  | Some _ => c
  | None =>
      match schedule c with
      | [] | Accepted :: _ => Client (sent c ++ [data]) None (tail (schedule c))
      | why :: rest => Client (sent c) (Some why) rest
      end
  end.

Definition writes (blocks : list string) (c : client) : client := foldl (λ c block, write block c) c blocks.

Inductive drain_error := LineTooLong | NotConvertible | ReadFailed.

Definition maxSSELineBytes : Z := 1048576.

(** One stream: its protocols, and the provider of the account. *)
Record stream_config := { protocol : Protocol; inboundProtocol : Protocol; cfg_provider : string }.

Record drain_state := Drain {
  accumulator : streamUsageAccumulator;
  converter : protocolSSEConverter;
  stream_done : bool;
  eventType : string;
  eventData : string;
  to_client : client
}.

Section drain.
  Context (cfg : stream_config).

(** The event that was collected goes to the client. *)
Definition flush (st : drain_state) : option drain_state :=
  if bool_decide (protocol cfg = inboundProtocol cfg) then
    Some (Drain (accumulator st) (converter st) (stream_done st) (eventType st) (eventData st)
            (write (eventSSEBlock (eventType st) (eventData st)) (to_client st)))
  else if String.eqb (eventData st) "" then Some st
  else
    '(blocks, c) ← convert (eventType st) (eventData st) (converter st);
    Some (Drain (accumulator st) c (stream_done st) (eventType st) (eventData st) (writes blocks (to_client st))).

Definition trim_suffix_byte (n : nat) (s : string) : string :=
  match str_rev s with String a r => if byte_is n a then str_rev r else s | EmptyString => s end.

Definition process_line (line : string) (st : drain_state) : option drain_state :=
  let trimmed := trim_space (trim_suffix_byte 13 (trim_suffix_byte 10 line)) in
  if has_prefix "event:" trimmed then
    Some (Drain (accumulator st) (converter st) (stream_done st) (trim_space (str_drop 6 trimmed)) (eventData st) (to_client st))
  else if has_prefix "data:" trimmed then
    let data := trim_space (str_drop 5 trimmed) in
    if String.eqb data "" then Some st
    else
    let data := normalizeProviderStreamEvent (cfg_provider cfg) data in
    Some (Drain (observe (protocol cfg) data (accumulator st)) (converter st)
            (stream_done st || streamEventDone (protocol cfg) (eventType st) data) (eventType st) data (to_client st))
  else if String.eqb trimmed "" then
    st ← flush st;
    Some (Drain (accumulator st) (converter st) (stream_done st) "" "" (to_client st))
  else Some st.

Fixpoint process_lines (lines : list string) (st : drain_state) : drain_state * option drain_error :=
  match lines with
  | [] => (st, None)
  | line :: lines =>
      if maxSSELineBytes <? str_len line then (st, Some LineTooLong)
      else match process_line line st with
           | None => (st, Some NotConvertible)
           | Some st => process_lines lines st
           end
  end.

(** What [ReadString] returns, call by call: lines with their line feed, and
    what is left at the end. *)
Fixpoint lines_of (s : string) : list string :=
  match s with
  | EmptyString => []
  | String a s' =>
      if byte_is 10 a then chr 10 :: lines_of s'
      else match lines_of s' with
           | [] => [String a EmptyString]
           | line :: lines => String a line :: lines
           end
  end.

(** usage, partial, writeErr, and the error *)
Record drain_result := DrainResult {
  dr_value : option usage;
  dr_partial_ : bool;
  dr_client : client;
  dr_err : option drain_error
}.

Definition incomplete (st : drain_state) : bool := negb (stream_done st) || bool_decide (is_Some (gone (to_client st))).

Definition drainSSEProtocol (body : string) (read_ok : bool) (model : string) (schedule : list write_outcome) : drain_result :=
  let st := Drain no_usage (newProtocolSSEConverter (protocol cfg) (inboundProtocol cfg) model) false "" "" (Client [] None schedule) in
  match process_lines (lines_of body) st with
  | (st, Some e) => DrainResult (value_of (accumulator st)) true (to_client st) (Some e)
  | (st, None) =>
      if negb read_ok then DrainResult (value_of (accumulator st)) (incomplete st) (to_client st) (Some ReadFailed)
      else if String.eqb (eventData st) "" then DrainResult (value_of (accumulator st)) (incomplete st) (to_client st) None
      else match flush st with
           | None => DrainResult (value_of (accumulator st)) true (to_client st) (Some NotConvertible)
           | Some st => DrainResult (value_of (accumulator st)) (incomplete st) (to_client st) None
           end
  end.
End drain.
