(* ===== verification/StreamFacts.v ===== *)
(** * Streams: what the client cannot change

    A client that goes away, or whose request is cancelled, does not change what
    the upstream is found to have used: the stream is drained to its end. *)

From S2P Require Import Prelude Decimal Utf8 GoJson GoJsonFacts Protokit Stream.

Open Scope Z_scope.

(** ** Two clients of the same stream *)

(** A client whose writes follow any schedule, and one that accepts them all. *)
Definition behind (c c0 : client) : Prop :=
  gone c0 = None ∧ schedule c0 = [] ∧ sent c `prefix_of` sent c0 ∧ (gone c = None → sent c = sent c0).

Definition alike (st st0 : drain_state) : Prop :=
  accumulator st = accumulator st0 ∧ converter st = converter st0 ∧ stream_done st = stream_done st0
  ∧ eventType st = eventType st0 ∧ eventData st = eventData st0 ∧ behind (to_client st) (to_client st0).

Lemma write_behind block c c0 : behind c c0 → behind (write block c) (write block c0).
Proof.
  intros (Hg0 & Hs0 & Hp & Heq). unfold behind, write. rewrite Hg0, Hs0. cbn.
  destruct (gone c) as [o|] eqn:Hg.
  { rewrite Hg. split_and!; try done. by apply prefix_app_r. }
  rewrite (Heq eq_refl) in *.
  destruct (schedule c) as [|[] rest]; cbn; split_and!; try done; by apply prefix_app_r.
Qed.

Lemma writes_behind blocks : ∀ c c0, behind c c0 → behind (writes blocks c) (writes blocks c0).
Proof. induction blocks as [|b l IH]; intros c c0 H; cbn; [done|]. by apply IH, write_behind. Qed.

Section alike.
  Context (cfg : stream_config).

Lemma flush_alike st st0 : alike st st0 →
  match flush cfg st, flush cfg st0 with
  | Some st', Some st0' => alike st' st0'
  | None, None => True
  | _, _ => False
  end.
Proof.
  intros (Ha & Hc & Hd & Ht & He & Hw). unfold flush. rewrite Ha, Hc, Hd, Ht, He.
  case_bool_decide; [by split_and!; try apply write_behind|].
  destruct (String.eqb (eventData st0) ""); [by split_and!|].
  destruct (convert _ _ _) as [[blocks c]|]; cbn; [|done]. by split_and!; try apply writes_behind.
Qed.

Lemma process_line_alike line st st0 : alike st st0 →
  match process_line cfg line st, process_line cfg line st0 with
  | Some st', Some st0' => alike st' st0'
  | None, None => True
  | _, _ => False
  end.
Proof.
  intros H. pose proof (flush_alike st st0 H) as Hf. destruct H as (Ha & Hc & Hd & Ht & He & Hw).
  unfold process_line. rewrite Ha, Hc, Hd, Ht, He.
  destruct (has_prefix "event:" _); [by split_and!|].
  destruct (has_prefix "data:" _).
  { destruct (String.eqb (trim_space _) "") in |- *; by split_and!. }
  destruct (String.eqb _ ""); [|by split_and!].
  destruct (flush cfg st) as [st'|], (flush cfg st0) as [st0'|]; cbn; try done.
  destruct Hf as (? & ? & ? & ? & ? & ?). by split_and!.
Qed.

Lemma process_alike lines : ∀ st st0, alike st st0 →
  alike (process_lines cfg lines st).1 (process_lines cfg lines st0).1 ∧ (process_lines cfg lines st).2 = (process_lines cfg lines st0).2.
Proof.
  induction lines as [|line lines IH]; intros st st0 H; cbn [process_lines]; [done|].
  destruct (maxSSELineBytes <? str_len line); [done|].
  pose proof (process_line_alike line st st0 H) as Hl.
  destruct (process_line cfg line st), (process_line cfg line st0); try done. by apply IH.
Qed.

Lemma incomplete_alike st st0 : alike st st0 →
  incomplete st = incomplete st0 || bool_decide (is_Some (gone (to_client st))).
Proof.
  intros (_ & _ & Hd & _ & _ & (Hg & _)). unfold incomplete. rewrite Hd, Hg.
  rewrite (bool_decide_eq_false_2 (is_Some None)) by (by intros [? ?]). by rewrite orb_false_r.
Qed.

(** Draining an upstream's stream does not depend on the client.  Whatever
    becomes of the writes (the client may disconnect or the request be cancelled
    at any point), the usage found, and so what the tenant is charged, and the
    error of the stream are those of a client that stays; the client has
    received a prefix of what it would have; and the release is marked partial
    when the stream is, or the client left. *)
Theorem usage_survives_the_client body read_ok model schedule :
  let r := drainSSEProtocol cfg body read_ok model schedule in
  let r0 := drainSSEProtocol cfg body read_ok model [] in
  dr_value r = dr_value r0 ∧ dr_err r = dr_err r0
  ∧ sent (dr_client r) `prefix_of` sent (dr_client r0)
  ∧ (gone (dr_client r) = None → sent (dr_client r) = sent (dr_client r0))
  ∧ dr_partial_ r = dr_partial_ r0 || bool_decide (is_Some (gone (dr_client r))).
Proof.
  unfold drainSSEProtocol.
  set (st := Drain _ _ _ _ _ (Client [] None schedule)). set (st0 := Drain _ _ _ _ _ (Client [] None [])).
  assert (alike st st0) as H by (by split_and!).
  destruct (process_alike (lines_of body) st st0 H) as [H' E].
  destruct (process_lines cfg (lines_of body) st) as [t e], (process_lines cfg (lines_of body) st0) as [t0 e0].
  cbn [fst snd] in *. subst e0. clear st st0 H.
  pose proof (flush_alike t t0 H') as Hf. pose proof (incomplete_alike t t0 H') as Hi.
  pose proof H' as (Ha & _ & _ & _ & He & (_ & _ & Hp & Hs)).
  destruct e as [e|]; [cbn; by rewrite Ha|]. destruct read_ok; cbn [negb]; [|cbn; by rewrite Ha].
  rewrite He. destruct (String.eqb (eventData t0) ""); [cbn; by rewrite Ha|].
  destruct (flush cfg t) as [u|], (flush cfg t0) as [u0|]; try done; [|cbn; by rewrite Ha].
  pose proof (incomplete_alike u u0 Hf) as Hiu. destruct Hf as (Hua & _ & _ & _ & _ & (_ & _ & Hup & Hus)).
  cbn. by rewrite Hua.
Qed.
End alike.

(** ** What the usage is *)

(** The reports of one event: its own usage, and that of the message or
    response it carries. *)
Definition reports (protocol : Protocol) (data : string) : list usage :=
  option_list (parseUsageForProtocol data protocol)
  ++ option_list (nested_usage protocol data ≫= λ raw, raw_report raw protocol).

(** The data of a line, as the provider's envelope leaves it. *)
Definition data_of (cfg : stream_config) (line : string) : option string :=
  let trimmed := trim_space (trim_suffix_byte 13 (trim_suffix_byte 10 line)) in
  if has_prefix "event:" trimmed then None
  else if has_prefix "data:" trimmed then
    let data := trim_space (str_drop 5 trimmed) in
    if String.eqb data "" then None else Some (normalizeProviderStreamEvent (cfg_provider cfg) data)
  else None.

(** The last report of a counter that is not zero. *)
Definition last_nonzero (l : list Z) : Z := default 0 (list.last (filter (λ z, z ≠ 0) l)).

Definition reported (l : list usage) : option usage :=
  match l with
  | [] => None
  | _ => Some {| Input := last_nonzero (Input <$> l); Output := last_nonzero (Output <$> l);
                 CacheRead := last_nonzero (CacheRead <$> l); CacheWrite := last_nonzero (CacheWrite <$> l) |}
  end.

Definition merged (l : list usage) (a : streamUsageAccumulator) : streamUsageAccumulator := foldl (λ a u, merge u a) a l.

Lemma observe_merged protocol data a : observe protocol data a = merged (reports protocol data) a.
Proof.
  unfold observe, reports, mergeRaw. destruct (nested_usage protocol data) as [raw|]; cbn [mbind option_bind];
    destruct (parseUsageForProtocol data protocol); cbn; try done; by destruct (raw_report raw protocol).
Qed.

Lemma merged_app l l' a : merged (l ++ l') a = merged l' (merged l a).
Proof. apply foldl_app. Qed.

Lemma last_nonzero_snoc l z : last_nonzero (l ++ [z]) = or_else z (last_nonzero l).
Proof.
  unfold last_nonzero, or_else. rewrite list.filter_app. destruct (Z.eqb_spec z 0) as [->|Hz].
  - rewrite list.filter_cons_False by auto. by rewrite app_nil_r.
  - by rewrite list.filter_cons_True, list.filter_nil, list.last_snoc.
Qed.

Lemma merged_reported l : merged l no_usage =
  match reported l with Some u => {| valueData := u; present := true |} | None => no_usage end.
Proof.
  induction l as [|u l IH] using rev_ind; [done|]. rewrite merged_app, IH. unfold reported.
  destruct (l ++ [u]) as [|x rest] eqn:E; [by destruct l|]. rewrite <-E, !fmap_app. cbn [fmap list_fmap].
  rewrite !last_nonzero_snoc. destruct l; reflexivity.
Qed.

Lemma flush_accumulator cfg st st' : flush cfg st = Some st' → accumulator st' = accumulator st.
Proof.
  unfold flush. case_bool_decide; [by intros [= <-]|]. destruct (String.eqb _ _); [by intros [= <-]|].
  intros ([blocks c] & _ & [= <-])%bind_Some. done.
Qed.

Lemma process_line_accumulator cfg line st st' : process_line cfg line st = Some st' →
  accumulator st' = merged (default [] (reports (protocol cfg) <$> data_of cfg line)) (accumulator st).
Proof.
  unfold process_line, data_of. destruct (has_prefix "event:" _); [by intros [= <-]|].
  destruct (has_prefix "data:" _).
  { destruct (String.eqb _ ""); intros [= <-]; [done|]. apply observe_merged. }
  destruct (String.eqb _ ""); [|by intros [= <-]].
  intros (u & Hu & [= <-])%bind_Some. cbn. by eapply flush_accumulator.
Qed.

Definition stream_reports (cfg : stream_config) (lines : list string) : list usage :=
  mjoin ((λ line, default [] (reports (protocol cfg) <$> data_of cfg line)) <$> lines).

(** The line is the blank one that ends an event. *)
Definition ends_event (line : string) : Prop :=
  trim_space (trim_suffix_byte 13 (trim_suffix_byte 10 line)) = ""%string.

(** What stopped the drain before the lines [rest]. *)
Definition stopped_by (e : option drain_error) (rest : list string) : Prop :=
  match e with
  | None => rest = []
  | Some LineTooLong => ∃ line more, rest = line :: more ∧ maxSSELineBytes < str_len line
  | Some NotConvertible => ∃ line more, rest = line :: more ∧ ends_event line
  | Some ReadFailed => False
  end.

Lemma process_line_stops cfg line st : process_line cfg line st = None → ends_event line.
Proof.
  unfold process_line, ends_event. destruct (has_prefix "event:" _); [done|].
  destruct (has_prefix "data:" _); [by destruct (String.eqb _ "")|].
  by destruct (String.eqb_spec (trim_space (trim_suffix_byte 13 (trim_suffix_byte 10 line))) "").
Qed.

(** The counters hold the reports of the lines that were read. *)
Lemma process_accumulator cfg lines : ∀ st st' e, process_lines cfg lines st = (st', e) →
  ∃ read rest, lines = read ++ rest ∧ stopped_by e rest ∧
    accumulator st' = merged (stream_reports cfg read) (accumulator st).
Proof.
  induction lines as [|line lines IH]; intros st st' e; cbn [process_lines].
  { intros [= <- <-]. by exists [], []. }
  destruct (Z.ltb_spec maxSSELineBytes (str_len line)) as [Hlong|_].
  { intros [= <- <-]. exists [], (line :: lines). split_and!; [done| |done]. by exists line, lines. }
  destruct (process_line cfg line st) as [st1|] eqn:E.
  - intros (read & rest & -> & Hs & Hacc)%IH. exists (line :: read), rest. split_and!; [done..|].
    change (stream_reports cfg (line :: read)) with
      (default [] (reports (protocol cfg) <$> data_of cfg line) ++ stream_reports cfg read).
    by rewrite merged_app, <-(process_line_accumulator _ _ _ _ E).
  - intros [= <- <-]. exists [], (line :: lines). split_and!; [done| |done].
    exists line, lines. split; [done|]. by eapply process_line_stops.
Qed.

(** C37 The usage of a stream is, counter by counter, the last report that is not
    zero, over the events that were read, in the event itself or in the message
    or response it carries; it is missing exactly when nothing reported any.
    Every line of the body was read unless the drain failed on a line beyond the
    length limit or at the end of an event that can not be converted: then the
    usage is that of the lines before it, and what is reported later is not
    counted.  This holds for each upstream protocol, for every client, and also
    when the connection to the upstream breaks. *)
Theorem usage_is_the_last_report cfg body read_ok model schedule :
  let r := drainSSEProtocol cfg body read_ok model schedule in
  ∃ read rest, lines_of body = read ++ rest ∧
    dr_value r = reported (stream_reports cfg read) ∧
    (rest = [] ∨
     (dr_err r = Some LineTooLong ∨ dr_err r = Some NotConvertible) ∧ stopped_by (dr_err r) rest).
Proof.
  unfold drainSSEProtocol. set (st0 := Drain _ _ _ _ _ _).
  destruct (process_lines cfg (lines_of body) st0) as [st e] eqn:E.
  destruct (process_accumulator cfg _ _ _ _ E) as (read & rest & Hl & Hs & Hacc). exists read, rest.
  cbn in Hacc. rewrite merged_reported in Hacc.
  assert (∀ a, a = accumulator st → value_of a = reported (stream_reports cfg read)) as Hv.
  { intros a ->. rewrite Hacc. by destruct (reported _). }
  destruct e as [e|]; cbn zeta.
  - split; [done|]. split; [by apply Hv|]. right. destruct e; cbn; auto. done.
  - cbn in Hs. split; [done|]. split; [|by left]. destruct read_ok; cbn [negb]; [|by apply Hv].
    destruct (String.eqb _ ""); [by apply Hv|].
    destruct (flush cfg st) as [st1|] eqn:Ef; [|by apply Hv]. apply Hv. by eapply flush_accumulator.
Qed.
