(* ===== verification/StreamConvert.v ===== *)
(** * Streams: conversion loses nothing

    What a client decodes from the events the gateway writes for its protocol is
    what the upstream said in its own. *)

From S2P Require Import Prelude Decimal Utf8 GoJson GoJsonFacts Protokit GoStruct Codecs Stream StreamFacts.

Open Scope Z_scope.
#[local] Arguments pair {A B} a%_string b.
#[local] Arguments VString s%_string.

(** ** Reading back what was marshalled *)

Lemma unmarshal_marshal {A} (d : decoder A) a0 v : plain v = true → height v <= max_depth →
  unmarshal d a0 (marshal v) = let '(a, ok) := d a0 (node_of v) in if ok : bool then Some a else None.
Proof. intros Hp Hh. unfold unmarshal, Unmarshal. by rewrite Parse_marshal. Qed.

Lemma raw_map_object text members : ∃ m, raw_map None (NObject text members) = (Some m, true).
Proof.
  unfold raw_map, d_map. generalize (default (∅ : gmap string string) None) as m.
  induction members as [|kv l IH]; intros m; [by exists m|]. apply IH.
Qed.

(** Values that can be marshalled and parsed, with at most [n] levels. *)
Definition flat (n : nat) (v : govalue) : Prop := plain v = true ∧ height v <= Z.of_nat n.

Lemma flat_leaf n v : match v with VNull | VBool _ | VInt _ | VString _ => True | _ => False end → flat n v.
Proof. destruct v; try done; intros _; split; cbn; lia || done. Qed.

Lemma flat_members n l : Forall (λ kv : string * govalue, flat n kv.2) l →
  forallb (λ kv, plain kv.2) l = true ∧ foldr (λ kv h, height kv.2 `max` h) 0 l <= Z.of_nat n.
Proof.
  induction 1 as [|kv l [Hp Hh] _ [IHp IHh]]; [split; [done|cbn; lia]|]. cbn. rewrite Hp, IHp. split; [done|lia].
Qed.

Lemma flat_map n l : Forall (λ kv : string * govalue, flat n kv.2) l → flat (S n) (VMap l).
Proof.
  intros H. assert (Forall (λ kv : string * govalue, flat n kv.2) (merge_sort field_le l)) as H'.
  { by rewrite merge_sort_Permutation. }
  apply flat_members in H' as [Hp Hh]. split; [exact Hp|]. unfold VMap. cbn [height]. lia.
Qed.

Lemma flat_array n l : Forall (flat n) l → flat (S n) (VArray l).
Proof.
  intros H. assert (forallb plain l = true ∧ foldr (λ v h, height v `max` h) 0 l <= Z.of_nat n) as [Hp Hh].
  { induction H as [|v l [Hp Hh] _ [IHp IHh]]; [split; [done|cbn; lia]|]. cbn. rewrite Hp, IHp. split; [done|lia]. }
  split; [exact Hp|]. cbn [height]. lia.
Qed.

Lemma flat_depth n v : (n <= 100)%nat → flat n v → plain v = true ∧ height v <= max_depth.
Proof. intros Hn [Hp Hh]. split; [done|]. unfold max_depth. lia. Qed.

(** Shows that a payload is [flat]. *)
Ltac flatten := repeat first [ apply flat_map | apply flat_array | apply flat_leaf; exact I
  | apply List.Forall_cons | apply List.Forall_nil | progress cbn [snd] | progress case_match ].

(** An object that [marshal] wrote passes the check that it is one. *)
Lemma unmarshal_envelope l n : (n <= 100)%nat → flat n (VMap l) → is_Some (unmarshal raw_map None (marshal (VMap l))).
Proof.
  intros Hn [Hp Hh]%flat_depth; [|done]. rewrite unmarshal_marshal by done. unfold VMap. cbn [node_of].
  match goal with |- context [raw_map None (NObject ?t ?m)] => destruct (raw_map_object t m) as [m' ->] end.
  by eexists.
Qed.

(** *** Decoding an object member by member

    Keys are known, so the field each one goes to can be computed; what the
    values hold need not be known. *)

Fixpoint field_index {A} (fs : fields_of A) (key : string) : option nat :=
  match fs with
  | [] => None
  | (name, _) :: fs => if same_name key name then Some O else S <$> field_index fs key
  end.

Definition field_at {A} (fs : fields_of A) (i : nat) : decoder A := nth i (snd <$> fs) (λ a _, (a, true)).

Lemma d_field_miss {A} (fs : fields_of A) key old n : field_index fs key = None → d_field fs key old n = (old, true).
Proof.
  induction fs as [|[name d] fs IH]; cbn; [done|]. destruct (same_name key name); [done|].
  destruct (field_index fs key); [done|]. intros _. by apply IH.
Qed.

Lemma d_field_hit {A} (fs : fields_of A) key i old n : field_index fs key = Some i → d_field fs key old n = field_at fs i old n.
Proof.
  revert i. induction fs as [|[name d] fs IH]; cbn; intros i; [done|]. destruct (same_name key name); [by intros [= <-]|].
  destruct (field_index fs key) as [j|]; [|done]. intros [= <-]. by rewrite (IH j).
Qed.

(** One member, or the string at hand. *)
Ltac read_member :=
  match goal with
  | |- context [read_members ?fs ?acc ((?k, ?v) :: ?l)] =>
      let i := eval vm_compute in (field_index fs k) in
      change (read_members fs acc ((k, v) :: l)) with
        (read_members fs (let '(a, ok) := d_field fs k acc.1 (node_of v) in (a, acc.2 && ok)) l);
      lazymatch i with
      | None => rewrite (d_field_miss fs k acc.1 (node_of v)) by (vm_compute; reflexivity)
      | Some ?i => rewrite (d_field_hit fs k i acc.1 (node_of v)) by (vm_compute; reflexivity);
                   cbn [field_at nth fmap list_fmap snd]
      end
  end.
Ltac eval_decoder :=
  repeat (first
    [ rewrite d_struct_object by (vm_compute; reflexivity)
    | rewrite d_string_read by first [assumption | vm_compute; reflexivity]
    | progress (cbv beta iota zeta delta [d_fst d_snd into d_pointer default from_option]; cbn [fst snd andb])
    | rewrite read_members_nil
    | read_member ]).

Create Rewrite HintDb gw_sorted.

(** Keys in the order in which they are written. *)
Lemma sorted_message a b : VMap [("type", a); ("message", b)] = VObject [("message", b); ("type", a)].
Proof. vm_compute. reflexivity. Qed.
Lemma sorted_block_start a b c : VMap [("type", a); ("index", b); ("content_block", c)] = VObject [("content_block", c); ("index", b); ("type", a)].
Proof. vm_compute. reflexivity. Qed.
Lemma sorted_text a b : VMap [("type", a); ("text", b)] = VObject [("text", b); ("type", a)].
Proof. vm_compute. reflexivity. Qed.
Lemma sorted_block_delta a b c : VMap [("type", a); ("index", b); ("delta", c)] = VObject [("delta", c); ("index", b); ("type", a)].
Proof. vm_compute. reflexivity. Qed.
Lemma sorted_block_stop a b : VMap [("type", a); ("index", b)] = VObject [("index", b); ("type", a)].
Proof. vm_compute. reflexivity. Qed.
Lemma sorted_message_delta a b c : VMap [("type", a); ("delta", b); ("usage", c)] = VObject [("delta", b); ("type", a); ("usage", c)].
Proof. vm_compute. reflexivity. Qed.
Lemma sorted_stop a b : VMap [("stop_reason", a); ("stop_sequence", b)] = VObject [("stop_reason", a); ("stop_sequence", b)].
Proof. vm_compute. reflexivity. Qed.
Lemma sorted_single k a : VMap [(k, a)] = VObject [(k, a)].
Proof. done. Qed.

#[export] Hint Rewrite sorted_message sorted_block_start sorted_text sorted_block_delta sorted_block_stop
  sorted_message_delta sorted_stop sorted_single : gw_sorted.

(** ** Anthropic events *)

Lemma anthropic_read eventType l n : (n <= 100)%nat → flat n (VMap l) →
  decodeProtocolStreamEvent AnthropicMessages eventType (marshal (VMap l)) =
  (let '(a, ok) := decode_anthropic ("", ("", ("", ("", "")))) (node_of (VMap l)) in if ok : bool then Some a else None)
    ≫= understand_anthropic eventType.
Proof.
  intros Hn Hf. destruct (unmarshal_envelope l n Hn Hf) as [m Hm]. unfold decodeProtocolStreamEvent.
  rewrite Hm. cbn [bool_decide andb mbind option_bind]. unfold decode_anthropic_event.
  destruct (flat_depth n (VMap l) Hn Hf) as [Hp Hh]. by rewrite unmarshal_marshal by done.
Qed.

(** Reads one event: [flat] for the depth, then the decoder. *)
Ltac read_event lemma :=
  rewrite (lemma _ _ 6%nat) by (lia || flatten); autorewrite with gw_sorted;
  unfold decode_anthropic; eval_decoder; cbn [mbind option_bind].

Lemma flat_usage_anthropic u : flat 1 (anthropicStreamUsage u).
Proof. destruct u as [u|]; unfold anthropicStreamUsage, nonzero_field; [|flatten]. repeat case_match; cbn [app]; flatten. Qed.

Lemma flat_weaken n m v : (n <= m)%nat → flat n v → flat m v.
Proof. intros Hn [Hp Hh]. split; [done|lia]. Qed.

Lemma read_message_start model u : decodeProtocolStreamEvent AnthropicMessages "message_start"
    (marshal (VMap [("type", VString "message_start");
       ("message", VMap [("id", VString "msg_stream"); ("type", VString "message"); ("role", VString "assistant");
          ("model", VString model); ("content", VArray []); ("stop_reason", VNull); ("stop_sequence", VNull);
          ("usage", anthropicStreamUsage u)])])) = Some ("", "", false).
Proof.
  pose proof (λ k Hk, flat_weaken 1 k _ Hk (flat_usage_anthropic u)). generalize dependent (anthropicStreamUsage u). intros g Hg.
  rewrite (anthropic_read _ _ 6%nat) by (lia || (repeat first [apply Hg; lia|progress flatten])).
  rewrite sorted_message. unfold decode_anthropic. eval_decoder. reflexivity.
Qed.

Lemma read_content_block_start : decodeProtocolStreamEvent AnthropicMessages "content_block_start"
    (marshal (VMap [("type", VString "content_block_start"); ("index", VInt 0);
      ("content_block", VMap [("type", VString "text"); ("text", VString "")])])) = Some ("", "", false).
Proof. vm_compute. reflexivity. Qed.

Lemma read_content_block_delta txt : clean txt →
  decodeProtocolStreamEvent AnthropicMessages "content_block_delta"
    (marshal (VMap [("type", VString "content_block_delta"); ("index", VInt 0);
       ("delta", VMap [("type", VString "text_delta"); ("text", VString txt)])]))
  = Some (txt, "", false).
Proof. intros Ht. read_event anthropic_read. reflexivity. Qed.

Lemma read_content_block_stop : decodeProtocolStreamEvent AnthropicMessages "content_block_stop"
    (marshal (VMap [("type", VString "content_block_stop"); ("index", VInt 0)])) = Some ("", "", false).
Proof. vm_compute. reflexivity. Qed.

Lemma read_message_delta (reason : string) u :
  decodeProtocolStreamEvent AnthropicMessages "message_delta"
    (marshal (VMap [("type", VString "message_delta");
      ("delta", VMap [("stop_reason", VString (if String.eqb reason "length" then "max_tokens" else "end_turn")%string); ("stop_sequence", VNull)]);
      ("usage", anthropicStreamUsage u)]))
  = Some ("", (if String.eqb reason "length" then "length" else "stop")%string, false).
Proof.
  pose proof (λ k Hk, flat_weaken 1 k _ Hk (flat_usage_anthropic u)). generalize dependent (anthropicStreamUsage u). intros g Hg.
  destruct (String.eqb reason "length");
    (rewrite (anthropic_read _ _ 6%nat) by (lia || (repeat first [apply Hg; lia|progress flatten])));
    rewrite sorted_message_delta, sorted_stop; unfold decode_anthropic; eval_decoder; vm_compute; reflexivity.
Qed.

Lemma read_message_stop : decodeProtocolStreamEvent AnthropicMessages "message_stop"
    (marshal (VMap [("type", VString "message_stop")])) = Some ("", "", true).
Proof. vm_compute. reflexivity. Qed.

(** ** Responses events *)

Lemma sorted_response a b c : VMap [("response", a); ("type", b); ("sequence_number", c)] =
  VObject [("response", a); ("sequence_number", c); ("type", b)].
Proof. vm_compute. reflexivity. Qed.
Lemma sorted_item a b c d : VMap [("output_index", a); ("item", b); ("type", c); ("sequence_number", d)] =
  VObject [("item", b); ("output_index", a); ("sequence_number", d); ("type", c)].
Proof. vm_compute. reflexivity. Qed.
Lemma sorted_part i o c p t s :
  VMap [("item_id", i); ("output_index", o); ("content_index", c); ("part", p); ("type", t); ("sequence_number", s)] =
  VObject [("content_index", c); ("item_id", i); ("output_index", o); ("part", p); ("sequence_number", s); ("type", t)].
Proof. vm_compute. reflexivity. Qed.
Lemma sorted_text_delta i o c d t s :
  VMap [("item_id", i); ("output_index", o); ("content_index", c); ("delta", d); ("type", t); ("sequence_number", s)] =
  VObject [("content_index", c); ("delta", d); ("item_id", i); ("output_index", o); ("sequence_number", s); ("type", t)].
Proof. vm_compute. reflexivity. Qed.
Lemma sorted_text_done i o c x t s :
  VMap [("item_id", i); ("output_index", o); ("content_index", c); ("text", x); ("type", t); ("sequence_number", s)] =
  VObject [("content_index", c); ("item_id", i); ("output_index", o); ("sequence_number", s); ("text", x); ("type", t)].
Proof. vm_compute. reflexivity. Qed.
Lemma sorted_response_object i o st m out u :
  VMap [("id", i); ("object", o); ("status", st); ("model", m); ("output", out); ("usage", u)] =
  VObject [("id", i); ("model", m); ("object", o); ("output", out); ("status", st); ("usage", u)].
Proof. vm_compute. reflexivity. Qed.
Lemma sorted_incomplete_object i o st m out u d :
  VMap [("id", i); ("object", o); ("status", st); ("model", m); ("output", out); ("usage", u); ("incomplete_details", d)] =
  VObject [("id", i); ("incomplete_details", d); ("model", m); ("object", o); ("output", out); ("status", st); ("usage", u)].
Proof. vm_compute. reflexivity. Qed.
Lemma sorted_opening_object i o st m out :
  VMap [("id", i); ("object", o); ("status", st); ("model", m); ("output", out)] =
  VObject [("id", i); ("model", m); ("object", o); ("output", out); ("status", st)].
Proof. vm_compute. reflexivity. Qed.
Lemma sorted_message_item i t st r c :
  VMap [("id", i); ("type", t); ("status", st); ("role", r); ("content", c)] =
  VObject [("content", c); ("id", i); ("role", r); ("status", st); ("type", t)].
Proof. vm_compute. reflexivity. Qed.
Lemma sorted_text_part t x a : VMap [("type", t); ("text", x); ("annotations", a)] = VObject [("annotations", a); ("text", x); ("type", t)].
Proof. vm_compute. reflexivity. Qed.

#[export] Hint Rewrite sorted_response sorted_item sorted_part sorted_text_delta sorted_text_done sorted_response_object
  sorted_incomplete_object sorted_opening_object sorted_message_item sorted_text_part : gw_sorted.

(** An event of the responses protocol, as [responsesEvent] writes it. *)
Lemma responses_read eventType l n : (n <= 100)%nat → flat n (VMap l) →
  decodeProtocolStreamEvent OpenAIResponses eventType (marshal (VMap l)) =
  (let '(a, ok) := decode_responses ("", ("", ("", ("", ("", None))))) (node_of (VMap l)) in if ok : bool then Some a else None)
    ≫= understand_responses eventType.
Proof.
  intros Hn Hf. destruct (unmarshal_envelope l n Hn Hf) as [m Hm]. unfold decodeProtocolStreamEvent.
  rewrite Hm. cbn [bool_decide andb mbind option_bind]. unfold decode_responses_event.
  destruct (flat_depth n (VMap l) Hn Hf) as [Hp Hh]. by rewrite unmarshal_marshal by done.
Qed.

Lemma flat_usage_responses u : flat 2 (responsesStreamUsage u).
Proof. destruct u as [u|]; unfold responsesStreamUsage; [|flatten]. destruct (CacheRead u =? 0); cbn [app]; flatten. Qed.

Lemma flat_message_item status content n : Forall (flat n) content → flat (S (S n)) (message_item status content).
Proof. intros H. unfold message_item. flatten. done. Qed.

Lemma flat_text_part txt : flat 2 (text_part txt).
Proof. unfold text_part. flatten. Qed.

Ltac read_response :=
  rewrite (responses_read _ _ 8%nat) by (lia || (repeat first [assumption | progress flatten]));
  autorewrite with gw_sorted; unfold decode_responses; eval_decoder; cbn [mbind option_bind].

Definition opening_response (model : string) : govalue :=
  VMap [("id", VString "resp_stream"); ("object", VString "response"); ("status", VString "in_progress");
    ("model", VString model); ("output", VArray [])].

Lemma read_created kind model z : kind = "response.created"%string ∨ kind = "response.in_progress"%string →
  decodeProtocolStreamEvent OpenAIResponses kind
    (marshal (VMap [("response", opening_response model); ("type", VString kind); ("sequence_number", VInt z)])) = Some ("", "", false).
Proof. intros [-> | ->]; unfold opening_response; read_response; vm_compute; reflexivity. Qed.

Lemma read_item_added z : decodeProtocolStreamEvent OpenAIResponses "response.output_item.added"
    (marshal (VMap [("output_index", VInt 0); ("item", message_item "in_progress" []);
      ("type", VString "response.output_item.added"); ("sequence_number", VInt z)])) = Some ("", "", false).
Proof. unfold message_item. read_response. vm_compute. reflexivity. Qed.

Lemma read_item_done txt z : decodeProtocolStreamEvent OpenAIResponses "response.output_item.done"
    (marshal (VMap [("output_index", VInt 0); ("item", message_item "completed" [text_part txt]);
      ("type", VString "response.output_item.done"); ("sequence_number", VInt z)])) = Some ("", "", false).
Proof. unfold message_item, text_part. read_response. vm_compute. reflexivity. Qed.

Lemma read_part kind txt z : kind = "response.content_part.added"%string ∨ kind = "response.content_part.done"%string →
  decodeProtocolStreamEvent OpenAIResponses kind
    (marshal (VMap (message_position ++ [("part", text_part txt); ("type", VString kind); ("sequence_number", VInt z)])))
  = Some ("", "", false).
Proof. intros [-> | ->]; cbn [message_position app]; unfold text_part; read_response; vm_compute; reflexivity. Qed.

Lemma read_text_delta txt z : clean txt →
  decodeProtocolStreamEvent OpenAIResponses "response.output_text.delta"
    (marshal (VMap (message_position ++ [("delta", VString txt); ("type", VString "response.output_text.delta"); ("sequence_number", VInt z)])))
  = Some (txt, "", false).
Proof. intros Ht. cbn [message_position app]. read_response. reflexivity. Qed.

Lemma read_text_done txt z :
  decodeProtocolStreamEvent OpenAIResponses "response.output_text.done"
    (marshal (VMap (message_position ++ [("text", VString txt); ("type", VString "response.output_text.done"); ("sequence_number", VInt z)])))
  = Some ("", "", false).
Proof. cbn [message_position app]. read_response. vm_compute. reflexivity. Qed.

Lemma read_completed c z :
  decodeProtocolStreamEvent OpenAIResponses "response.completed"
    (marshal (VMap [("response", final_response c (message_item "completed" [text_part (text c)]));
       ("type", VString "response.completed"); ("sequence_number", VInt z)]))
  = Some ("", (if String.eqb (finishReason c) "length" then "length" else "stop")%string, true).
Proof.
  pose proof (λ k Hk, flat_weaken 2 k _ Hk (flat_usage_responses (value_of (cv_usage c)))) as Hg.
  unfold final_response. generalize dependent (responsesStreamUsage (value_of (cv_usage c))). intros g Hg.
  unfold message_item, text_part. destruct (String.eqb (finishReason c) "length"); cbn [app];
    (rewrite (responses_read _ _ 8%nat) by (lia || (repeat first [apply Hg; lia | progress flatten])));
    autorewrite with gw_sorted; unfold decode_responses; eval_decoder; vm_compute; reflexivity.
Qed.

(** ** What is decoded is clean *)

Ltac keep := repeat first
  [ apply keeps_string | apply keeps_fst | apply keeps_snd | apply keeps_struct | apply List.Forall_cons | apply List.Forall_nil
  | progress cbn [snd] | done ].

Lemma decode_anthropic_clean data v : unmarshal decode_anthropic ("", ("", ("", ("", "")))) data = Some v → clean v.2.2.2.1.
Proof.
  intros H. apply (unmarshal_keeps (both clean (both clean (both clean (both clean clean))))) in H; [by destruct H as (_ & _ & _ & H & _)| |done].
  unfold decode_anthropic. keep.
Qed.

Lemma decode_responses_clean data v : unmarshal decode_responses ("", ("", ("", ("", ("", None))))) data = Some v → clean v.2.1.
Proof.
  intros H. apply (unmarshal_keeps (both clean (both clean (both clean (both clean (both clean (λ _, True))))))) in H; [by destruct H as (_ & H & _)| |done].
  unfold decode_responses. keep.
Qed.

Lemma unmarshal_string_clean data txt : unmarshal d_string "" data = Some txt → clean txt.
Proof. intros H. by apply (unmarshal_keeps clean) in H; [|apply keeps_string|]. Qed.

Lemma parts_clean l pieces : mapM part_text l = Some pieces → clean (texts id pieces).
Proof.
  revert pieces. induction l as [|part l IH]; intros pieces; [by intros [= <-]|].
  cbn [mapM]. intros (piece & Hp & (rest & Hr & [= <-])%bind_Some)%bind_Some. cbn [texts]. apply clean_app; [|by apply IH].
  unfold part_text in Hp. destruct (negb _); [done|]. apply bind_Some in Hp as (raw & _ & Hs). by apply unmarshal_string_clean in Hs.
Qed.

(** Text is clean, and a finish reason is one of two, or none. *)
Definition sound_event (ev : stream_event) : Prop :=
  clean ev.1.1 ∧ (ev.1.2 = "" ∨ ev.1.2 = "length" ∨ ev.1.2 = "stop")%string.

Lemma reason_sound r : canonicalStreamFinishReason r = ""%string ∨ canonicalStreamFinishReason r = "length"%string
  ∨ canonicalStreamFinishReason r = "stop"%string.
Proof. unfold canonicalStreamFinishReason. repeat case_match; auto. Qed.

Ltac sound := cbn; split; [first [done | assumption] | auto using reason_sound].

Lemma decoded_sound protocol eventType data ev : decodeProtocolStreamEvent protocol eventType data = Some ev → sound_event ev.
Proof.
  unfold decodeProtocolStreamEvent, sound_event. destruct (_ && _); [intros [= <-]; sound|].
  intros (m & _ & H)%bind_Some. destruct protocol.
  - unfold decode_chat_event in H. apply bind_Some in H as (choices & _ & H).
    destruct (elems choices) as [|[delta finish] [|]]; [injection H as <-; sound| |done].
    destruct (negb _); [done|]. apply bind_Some in H as (txt & Ht & [= <-]). cbn. split; [|apply reason_sound].
    destruct (_ && _) in Ht; [by apply unmarshal_string_clean in Ht|by injection Ht as <-].
  - unfold decode_responses_event in H. apply bind_Some in H as (v & Hv%decode_responses_clean & H).
    destruct v as (type & delta & item & part & status & incomplete). cbn in Hv. unfold understand_responses in H.
    repeat (case_match; try done); injection H as <-; sound.
  - unfold decode_anthropic_event in H. apply bind_Some in H as (v & Hv%decode_anthropic_clean & H).
    destruct v as (type & block & deltaType & txt & stop). cbn in Hv. unfold understand_anthropic in H.
    repeat (case_match; try done); injection H as <-; sound.
  - unfold decode_gemini_event in H. apply bind_Some in H as ([candidates um] & _ & H).
    destruct (elems candidates) as [|[parts finish] [|]]; [case_match; [injection H as <-; sound|done]| |done].
    apply bind_Some in H as (pieces & Hp & [= <-]). cbn. split; [by apply parts_clean in Hp|apply reason_sound].
Qed.

(** ** What a client reads *)

(** A block is an event of the protocol, and says [ev] in it. *)
Definition reads (target : Protocol) (block : string) (ev : stream_event) : Prop :=
  ∃ eventType data, block = eventSSEBlock eventType data ∧ decodeProtocolStreamEvent target eventType data = Some ev.

Definition quiet (ev : stream_event) : Prop := ev.1.2 = ""%string ∧ ev.2 = false.
Definition words (evs : list stream_event) : string := texts (λ ev, ev.1.1) evs.

Definition verdict (reason : string) : string := if String.eqb reason "length" then "length" else "stop".

(** How a finished stream ends. *)
Definition closing_events (target : Protocol) (reason : string) : list stream_event :=
  match target with
  | AnthropicMessages => [("", verdict reason, false); ("", "", true)]%string
  | _ => [("", verdict reason, true)]%string
  end.

(** The blocks say [txt], and end the stream for the reason given, if one is. *)
Definition delivers (target : Protocol) (blocks : list string) (txt : string) (ending : option string) : Prop :=
  ∃ front, Forall2 (reads target) blocks (front ++ match ending with Some r => closing_events target r | None => [] end)
    ∧ Forall quiet front ∧ words front = txt.

Lemma words_app l l' : words (l ++ l') = words l +:+ words l'.
Proof. apply texts_app. Qed.

Lemma delivers_nil target : delivers target [] "" None.
Proof. by exists []. Qed.

Lemma delivers_app target b1 b2 x y e : delivers target b1 x None → delivers target b2 y e → delivers target (b1 ++ b2) (x +:+ y) e.
Proof.
  intros (f1 & H1 & Q1 & <-) (f2 & H2 & Q2 & <-). rewrite app_nil_r in H1. exists (f1 ++ f2).
  rewrite <-app_assoc. split_and!; [by apply Forall2_app|by apply Forall_app|apply words_app].
Qed.

Lemma delivers_block target eventType data txt : decodeProtocolStreamEvent target eventType data = Some (txt, "", false) →
  delivers target [eventSSEBlock eventType data] txt None.
Proof.
  intros H. exists [(txt, ""%string, false)]. split_and!; [|by repeat constructor|apply str_app_nil_r].
  constructor; [by eexists _, _|constructor].
Qed.

Lemma delivers_cons target eventType data blocks txt txt' e :
  decodeProtocolStreamEvent target eventType data = Some (txt, "", false) → delivers target blocks txt' e →
  delivers target (eventSSEBlock eventType data :: blocks) (txt +:+ txt') e.
Proof. intros H H'. exact (delivers_app _ [_] _ _ _ _ (delivers_block _ _ _ _ H) H'). Qed.

(** A block that says nothing. *)
Lemma delivers_silent target eventType data blocks txt e :
  decodeProtocolStreamEvent target eventType data = Some ("", "", false) → delivers target blocks txt e →
  delivers target (eventSSEBlock eventType data :: blocks) txt e.
Proof. intros H H'. exact (delivers_cons _ _ _ _ "" txt e H H'). Qed.

(** What a step changes besides. *)
Definition steps (c c' : protocolSSEConverter) (done : bool) : Prop :=
  source c' = source c ∧ target c' = target c ∧ finishReason c' = finishReason c ∧ finished c' = finished c || done.

Lemma startAnthropic_delivers c : delivers AnthropicMessages (startAnthropic c).1 "" None ∧ steps c (startAnthropic c).2 false.
Proof.
  unfold startAnthropic, steps. destruct (started c); cbn; rewrite ?orb_false_r; (split; [|done]); [apply delivers_nil|].
  apply delivers_silent; [apply read_message_start|]. apply delivers_silent; [apply read_content_block_start|apply delivers_nil].
Qed.

Lemma convertToAnthropic_delivers txt done c : clean txt →
  delivers AnthropicMessages (convertToAnthropic txt done c).1 txt (if done then Some (finishReason c) else None)
  ∧ steps c (convertToAnthropic txt done c).2 done.
Proof.
  intros Ht. unfold convertToAnthropic.
  set (start := if negb (String.eqb txt "") || done then startAnthropic c else ([], c)).
  assert (delivers AnthropicMessages start.1 "" None ∧ steps c start.2 false) as [Hs Hc].
  { unfold start. destruct (_ || _); [apply startAnthropic_delivers|]. split; [apply delivers_nil|].
    unfold steps. by rewrite orb_false_r. }
  destruct start as [blocks c1]. cbn [fst snd] in *. destruct Hc as (Hsrc & Htgt & Hr & Hf).
  set (delta := if negb (String.eqb txt "") then _ else _).
  assert (delivers AnthropicMessages (blocks ++ delta) txt None) as Hd.
  { apply (delivers_app _ _ _ "" txt); [done|]. unfold delta. destruct (String.eqb_spec txt ""); cbn [negb].
    - subst. apply delivers_nil.
    - apply delivers_block. by apply read_content_block_delta. }
  destruct done; cbn [negb].
  - split; [|unfold steps; cbn; by rewrite orb_true_r].
    rewrite <-(str_app_nil_r txt). cbn [fst]. rewrite <-app_assoc. apply delivers_app; [done|].
    apply (delivers_app _ _ _ "" "").
    { destruct (contentStarted c1); [|apply delivers_nil]. apply delivers_block, read_content_block_stop. }
    exists []. split_and!; [|done..]. cbn [app closing_events]. rewrite <-Hr.
    constructor; [eexists _, _; split; [done|apply read_message_delta]|].
    constructor; [eexists _, _; split; [done|apply read_message_stop]|done].
  - by split.
Qed.

(** The responses events of a list, one block each. *)
Lemma responsesEvents_cons eventType fields l c :
  responsesEvents ((eventType, fields) :: l) c =
  (map_block eventType (fields ++ [("type", VString eventType); ("sequence_number", VInt (sequenceNumber c))])
     :: (responsesEvents l (numbered c)).1, (responsesEvents l (numbered c)).2).
Proof. cbn. by destruct (responsesEvents l (numbered c)). Qed.

Lemma responsesEvents_steps l : ∀ c, steps c (responsesEvents l c).2 false ∧ text (responsesEvents l c).2 = text c.
Proof.
  unfold steps. induction l as [|[eventType fields] l IH]; intros c; [cbn; by rewrite orb_false_r|].
  rewrite responsesEvents_cons. cbn [snd]. destruct (IH (numbered c)) as [(-> & -> & -> & ->) ->]. done.
Qed.

Lemma startResponses_delivers c : delivers OpenAIResponses (startResponses c).1 "" None ∧ steps c (startResponses c).2 false
  ∧ text (startResponses c).2 = text c.
Proof.
  unfold startResponses. destruct (started c).
  { cbn. split_and!; [apply delivers_nil| |done]. unfold steps. by rewrite orb_false_r. }
  split.
  - rewrite !responsesEvents_cons. cbn [fst snd responsesEvents].
    do 2 (apply delivers_silent; [apply read_created; auto|]).
    apply delivers_silent; [apply read_item_added|]. rewrite <-app_assoc.
    apply delivers_silent; [apply read_part; auto|apply delivers_nil].
  - set (l := _ :: _). destruct (responsesEvents_steps l (with_started (contentStarted c) c)) as [(E1 & E2 & E3 & E4) E5].
    split; [|exact E5]. by split_and!.
Qed.

Lemma convertToResponses_delivers txt done c : clean txt →
  delivers OpenAIResponses (convertToResponses txt done c).1 txt (if done then Some (finishReason c) else None)
  ∧ steps c (convertToResponses txt done c).2 done.
Proof.
  intros Ht. unfold convertToResponses.
  set (start := if negb (String.eqb txt "") || done then startResponses c else ([], c)).
  assert (delivers OpenAIResponses start.1 "" None ∧ steps c start.2 false) as [Hs Hc].
  { unfold start. destruct (_ || _); [pose proof (startResponses_delivers c); tauto|].
    split; [apply delivers_nil|]. unfold steps. by rewrite orb_false_r. }
  destruct start as [blocks c1]. cbn [fst snd] in *. destruct Hc as (Hsrc & Htgt & Hr & Hf).
  set (delta := if negb (String.eqb txt "") then _ else _).
  assert (delivers OpenAIResponses delta.1 txt None ∧ steps c1 delta.2 false) as [Hd Hc].
  { unfold delta. destruct (String.eqb_spec txt ""); cbn [negb].
    - subst. split; [apply delivers_nil|]. unfold steps. by rewrite orb_false_r.
    - split; [|exact (proj1 (responsesEvents_steps _ (with_text (text c1 +:+ txt) c1)))]. rewrite responsesEvents_cons. cbn [fst snd responsesEvents].
      rewrite <-app_assoc. by apply delivers_block, read_text_delta. }
  destruct delta as [dblocks c2]. cbn [fst snd] in *. destruct Hc as (Hsrc2 & Htgt2 & Hr2 & Hf2).
  pose proof (delivers_app _ _ _ "" txt None Hs Hd) as Hb.
  destruct done; cbn [negb].
  - rewrite !responsesEvents_cons. cbn [fst snd responsesEvents]. rewrite <-!(app_assoc message_position).
    split; [|unfold steps; cbn; split_and!; try congruence; by rewrite orb_true_r].
    rewrite <-(str_app_nil_r txt). apply delivers_app; [done|].
    apply delivers_silent; [apply read_text_done|].
    apply delivers_silent; [apply read_part; auto|].
    apply delivers_silent; [apply read_item_done|].
    exists []. split_and!; [|done..]. cbn [app closing_events]. rewrite <-Hr, <-Hr2.
    constructor; [eexists _, _; split; [done|apply read_completed]|done].
  - split; [done|]. unfold steps. cbn. split_and!; try congruence. rewrite Hf2, Hf. by rewrite !orb_false_r.
Qed.

(** ** Whole streams *)

Fixpoint convert_all (events : list (string * string)) (c : protocolSSEConverter) : option (list string * protocolSSEConverter) :=
  match events with
  | [] => Some ([], c)
  | (eventType, data) :: events =>
      '(blocks, c) ← convert eventType data c;
      '(rest, c) ← convert_all events c;
      Some (blocks ++ rest, c)
  end.

(** What a listener to the upstream hears, up to the end it announces. *)
Fixpoint heard (source : Protocol) (events : list (string * string)) : list stream_event :=
  match events with
  | [] => []
  | (eventType, data) :: events =>
      match decodeProtocolStreamEvent source eventType data with
      | Some ev => ev :: if ev.2 then [] else heard source events
      | None => []
      end
  end.

Definition ended (evs : list stream_event) : bool := existsb snd evs.
(** The last finish reason given. *)
Definition reason_after (r : string) (evs : list stream_event) : string :=
  foldl (λ r ev, if negb (String.eqb ev.1.2 "") then ev.1.2 else r) r evs.

Definition ending_of (r : string) (evs : list stream_event) : option string :=
  if ended evs then Some (reason_after r evs) else None.

Definition converted (target : Protocol) : Prop := target = AnthropicMessages ∨ target = OpenAIResponses.

Lemma convert_delivers eventType data c blocks c' : converted (target c) → finished c = false →
  convert eventType data c = Some (blocks, c') →
  ∃ ev, decodeProtocolStreamEvent (source c) eventType data = Some ev
  ∧ delivers (target c) blocks ev.1.1 (ending_of (finishReason c) [ev])
  ∧ source c' = source c ∧ target c' = target c ∧ finishReason c' = reason_after (finishReason c) [ev] ∧ finished c' = ev.2.
Proof.
  intros Ht Hf. unfold convert. rewrite Hf, andb_false_r.
  intros ([[txt reason] done] & Hev & H)%bind_Some. exists (txt, reason, done). split; [done|].
  pose proof (decoded_sound _ _ _ _ Hev) as [Hclean _]. cbn in Hclean.
  assert (target c ≠ OpenAIChat) as Hchat by (by destruct Ht as [-> | ->]).
  rewrite bool_decide_eq_false_2 in H by done.
  set (c1 := if negb (String.eqb reason "") then _ else _) in H.
  assert (source c1 = source c ∧ target c1 = target c ∧ finished c1 = false
    ∧ finishReason c1 = reason_after (finishReason c) [(txt, reason, done)]) as (E1 & E2 & E3 & E4).
  { unfold c1. cbn. by destruct (String.eqb reason ""). }
  unfold ending_of. cbn [ended existsb fst snd]. rewrite orb_false_r, <-E4, <-E1, <-E2.
  rewrite E2 in H. destruct Ht as [Ht|Ht]; rewrite Ht in H; injection H as H; rewrite E2, Ht.
  - destruct (convertToAnthropic_delivers txt done c1 Hclean) as [Hd (S1 & S2 & S3 & S4)].
    rewrite H in *. cbn [fst snd] in *. rewrite E3 in S4. split_and!; congruence || done.
  - destruct (convertToResponses_delivers txt done c1 Hclean) as [Hd (S1 & S2 & S3 & S4)].
    rewrite H in *. cbn [fst snd] in *. rewrite E3 in S4. split_and!; congruence || done.
Qed.

Lemma convert_all_finished events c : target c ≠ OpenAIChat → finished c = true → convert_all events c = Some ([], c).
Proof.
  intros Ht Hf. induction events as [|[t d] events IH]; cbn; [done|]. unfold convert. rewrite Hf, bool_decide_eq_false_2 by done.
  cbn. by rewrite IH.
Qed.

Lemma convert_all_delivers events : ∀ c blocks c', converted (target c) → finished c = false →
  convert_all events c = Some (blocks, c') →
  let evs := heard (source c) events in delivers (target c) blocks (words evs) (ending_of (finishReason c) evs).
Proof.
  induction events as [|[t d] events IH]; intros c blocks c' Ht Hf; cbn [convert_all heard].
  { intros [= <- <-]. apply delivers_nil. }
  intros ([b1 c1] & Hc & ([b2 c2] & Hrest & [= <- <-])%bind_Some)%bind_Some.
  apply convert_delivers in Hc as (ev & -> & Hd & E1 & E2 & E3 & E4); [|done..].
  destruct ev as [[txt reason] done]. cbn [fst snd] in *. destruct done.
  - rewrite convert_all_finished in Hrest by (try done; rewrite E2; by destruct Ht as [-> | ->]).
    injection Hrest as <- <-. rewrite app_nil_r. unfold words. cbn [texts fst]. by rewrite str_app_nil_r.
  - assert (converted (target c1)) as Ht1 by (by rewrite E2). specialize (IH c1 b2 c2 Ht1 E4 Hrest). cbv zeta in IH.
    rewrite E1, E2, E3 in IH. unfold words, ending_of in *. cbn [texts ended existsb fst snd orb reason_after foldl] in *.
    apply delivers_app; [exact Hd|exact IH].
Qed.

(** The events a body consists of, as lines of [event:] and [data:] make them. *)
Fixpoint events_of (cfg : stream_config) (lines : list string) (type data : string) : list (string * string) :=
  let pending := if String.eqb data "" then [] else [(type, data)] in
  match lines with
  | [] => pending
  | line :: lines =>
      let trimmed := trim_space (trim_suffix_byte 13 (trim_suffix_byte 10 line)) in
      if has_prefix "event:" trimmed then events_of cfg lines (trim_space (str_drop 6 trimmed)) data
      else if has_prefix "data:" trimmed then
        let d := trim_space (str_drop 5 trimmed) in
        events_of cfg lines type (if String.eqb d "" then data else normalizeProviderStreamEvent (cfg_provider cfg) d)
      else if String.eqb trimmed "" then pending ++ events_of cfg lines "" ""
      else events_of cfg lines type data
  end.

Definition finish (cfg : stream_config) (st : drain_state) : option drain_state :=
  if String.eqb (eventData st) "" then Some st else flush cfg st.

Lemma writes_app b1 b2 c : writes (b1 ++ b2) c = writes b2 (writes b1 c).
Proof. apply foldl_app. Qed.

Lemma flush_converts cfg st st' : protocol cfg ≠ inboundProtocol cfg → flush cfg st = Some st' →
  ∃ blocks, convert_all (if String.eqb (eventData st) "" then [] else [(eventType st, eventData st)]) (converter st) = Some (blocks, converter st')
    ∧ to_client st' = writes blocks (to_client st).
Proof.
  intros Hne. unfold flush. rewrite bool_decide_eq_false_2 by done.
  destruct (String.eqb (eventData st) ""); [by intros [= <-]; exists []|].
  intros ([b c] & Hc & [= <-])%bind_Some. exists b. cbn. rewrite Hc. cbn. by rewrite app_nil_r.
Qed.

Lemma convert_all_app e1 e2 c b1 c1 b2 c2 : convert_all e1 c = Some (b1, c1) → convert_all e2 c1 = Some (b2, c2) →
  convert_all (e1 ++ e2) c = Some (b1 ++ b2, c2).
Proof.
  revert c b1. induction e1 as [|[t d] e1 IH]; intros c b1; cbn; [by intros [= <- <-]|].
  intros ([b c'] & -> & ([b' c''] & Hr & [= <- <-])%bind_Some)%bind_Some H2. cbn. rewrite (IH _ _ Hr H2). cbn. by rewrite app_assoc.
Qed.

Lemma process_converts cfg lines : protocol cfg ≠ inboundProtocol cfg → ∀ st st' st'',
  process_lines cfg lines st = (st', None) → finish cfg st' = Some st'' →
  ∃ blocks, convert_all (events_of cfg lines (eventType st) (eventData st)) (converter st) = Some (blocks, converter st'')
    ∧ to_client st'' = writes blocks (to_client st).
Proof.
  intros Hne. induction lines as [|line lines IH]; intros st st' st''; cbn [process_lines events_of].
  { intros [= <-] Hf. unfold finish in Hf. destruct (String.eqb (eventData st) "") eqn:E.
    - injection Hf as <-. by exists [].
    - destruct (flush_converts cfg st st'' Hne Hf) as (b & Hb & Hw). rewrite E in Hb. by exists b. }
  destruct (maxSSELineBytes <? str_len line); [done|]. unfold process_line.
  destruct (has_prefix "event:" _); [intros Hp Hf; exact (IH _ _ _ Hp Hf)|].
  destruct (has_prefix "data:" _).
  { match goal with |- context [String.eqb ?d ""] => destruct (String.eqb d "") end; intros Hp Hf; exact (IH _ _ _ Hp Hf). }
  match goal with |- context [if String.eqb ?d "" then (_ ≫= _) else _] => destruct (String.eqb d "") end;
    [|intros Hp Hf; exact (IH _ _ _ Hp Hf)].
  destruct (flush cfg st) as [st1|] eqn:Ef; [|done]. intros Hp Hf.
  destruct (IH _ _ _ Hp Hf) as (b2 & Hb2 & Hw2). destruct (flush_converts cfg st st1 Hne Ef) as (b1 & Hb1 & Hw1).
  cbn in *. exists (b1 ++ b2). split; [by eapply convert_all_app|]. by rewrite Hw2, Hw1, writes_app.
Qed.

Lemma writes_kept blocks sent0 : writes blocks (Client sent0 None []) = Client (sent0 ++ blocks) None [].
Proof.
  revert sent0. induction blocks as [|b l IH]; intros sent0; [by rewrite app_nil_r|].
  change (writes (b :: l) (Client sent0 None [])) with (writes l (Client (sent0 ++ [b]) None [])).
  by rewrite IH, <-app_assoc.
Qed.

(** C36 A client that speaks another protocol than the upstream hears what the
    upstream says.  When a stream is converted to Anthropic messages or OpenAI
    responses without an error, every block written is an event of the client's
    protocol; the text of the events, as a reader of that protocol decodes it,
    is the text of the upstream's, up to the end it announces; the client is
    told the end exactly when the upstream told it, once, last, and whether it
    was for length. *)
Theorem client_hears_the_upstream cfg body model :
  protocol cfg ≠ inboundProtocol cfg → converted (inboundProtocol cfg) →
  let r := drainSSEProtocol cfg body true model [] in
  dr_err r = None →
  let evs := heard (protocol cfg) (events_of cfg (lines_of body) "" "") in
  delivers (inboundProtocol cfg) (sent (dr_client r)) (words evs) (ending_of "" evs).
Proof.
  intros Hne Ht. unfold drainSSEProtocol. set (st0 := Drain _ _ _ _ _ _). cbv zeta.
  pose proof (process_converts cfg (lines_of body) Hne st0) as H.
  destruct (process_lines cfg (lines_of body) st0) as [st [e|]]; [done|]. cbn [negb]. intros Herr.
  assert (∃ st', finish cfg st = Some st' ∧ dr_client (if String.eqb (eventData st) ""
    then DrainResult (value_of (accumulator st)) (incomplete st) (to_client st) None
    else match flush cfg st with
         | Some st => DrainResult (value_of (accumulator st)) (incomplete st) (to_client st) None
         | None => DrainResult (value_of (accumulator st)) true (to_client st) (Some NotConvertible)
         end) = to_client st') as (st' & Hst' & Hcl).
  { unfold finish. destruct (String.eqb (eventData st) ""); [by eexists|].
    destruct (flush cfg st) as [st'|]; [by eexists|done]. }
  destruct (H st st' eq_refl Hst') as (blocks & Hb & Hw). rewrite Hcl, Hw. cbn [to_client st0]. rewrite writes_kept.
  exact (convert_all_delivers _ (converter st0) blocks _ Ht eq_refl Hb).
Qed.

(** Two streams to try it on. *)
Module Demo.

Definition lf : string := chr 10.
(** An Anthropic upstream that stops for length. *)
Definition claude_stream : string := dq (
  "event: message_start" +:+ lf +:+ "data: {'type':'message_start','message':{'usage':{'input_tokens':4,'cache_read_input_tokens':1}}}" +:+ lf +:+ lf
  +:+ "event: content_block_delta" +:+ lf +:+ "data: {'type':'content_block_delta','delta':{'type':'text_delta','text':'hel'}}" +:+ lf +:+ lf
  +:+ "event: content_block_delta" +:+ lf +:+ "data: {'type':'content_block_delta','delta':{'type':'text_delta','text':'lo'}}" +:+ lf +:+ lf
  +:+ "event: message_delta" +:+ lf +:+ "data: {'type':'message_delta','delta':{'stop_reason':'max_tokens'},'usage':{'output_tokens':6}}" +:+ lf +:+ lf
  +:+ "event: message_stop" +:+ lf +:+ "data: {'type':'message_stop'}" +:+ lf +:+ lf).

Definition to_responses : stream_config :=
  {| protocol := AnthropicMessages; inboundProtocol := OpenAIResponses; cfg_provider := "claude" |}.
Definition to_chat : stream_config :=
  {| protocol := AnthropicMessages; inboundProtocol := OpenAIChat; cfg_provider := "claude" |}.

Example claude_usage : dr_value (drainSSEProtocol to_responses claude_stream true "m" []) =
  Some {| Input := 4; Output := 6; CacheRead := 1; CacheWrite := 0 |}.
Proof. vm_compute. reflexivity. Qed.

(** What a chat client decodes from the blocks it is sent. *)
Definition chat_events (blocks : list string) : list stream_event :=
  omap (λ block, decodeProtocolStreamEvent OpenAIChat "" (trim_space (str_drop 5 block))) blocks.

(** The other direction is not as faithful: a chat client of the same upstream
    is told the reason twice, and the last time wrongly; and the prompt tokens,
    which Anthropic reports first, never reach it. *)
Example length_becomes_stop :
  let blocks := sent (dr_client (drainSSEProtocol to_chat claude_stream true "m" [])) in
  filter (λ r, r ≠ "") ((λ ev, ev.1.2) <$> chat_events blocks) = ["length"; "stop"]%string
  ∧ omap (λ block, parseUsageForProtocol (trim_space (str_drop 5 block)) OpenAIChat) blocks =
    [{| Input := 0; Output := 6; CacheRead := 0; CacheWrite := 0 |}].
Proof. split; vm_compute; reflexivity. Qed.

(** And a comment that keeps the connection alive becomes an event without data
    for a client of the same protocol. *)
Example comment_becomes_event :
  sent (dr_client (drainSSEProtocol {| protocol := OpenAIChat; inboundProtocol := OpenAIChat; cfg_provider := "openai" |}
    (": keep-alive" +:+ lf +:+ lf) true "m" [])) = [eventSSEBlock "" ""].
Proof. vm_compute. reflexivity. Qed.

(** An event that can not be converted ends the drain: the output tokens that
    Anthropic reports after it are not counted. *)
Example unconvertible_loses_usage :
  let broken := dq (
    "data: {'type':'message_start','message':{'usage':{'input_tokens':4}}}" +:+ lf +:+ lf
    +:+ "data: broken" +:+ lf +:+ lf
    +:+ "data: {'type':'message_delta','usage':{'output_tokens':6}}" +:+ lf +:+ lf) in
  let r := drainSSEProtocol to_responses broken true "m" [] in
  dr_err r = Some NotConvertible ∧
  dr_value r = Some {| Input := 4; Output := 0; CacheRead := 0; CacheWrite := 0 |} ∧
  reported (stream_reports to_responses (lines_of broken))
    = Some {| Input := 4; Output := 6; CacheRead := 0; CacheWrite := 0 |}.
Proof. vm_compute. done. Qed.

Lemma client_hears_the_upstream_witness :
  delivers OpenAIResponses (sent (dr_client (drainSSEProtocol to_responses claude_stream true "m" []))) "hello" (Some "length"%string).
Proof.
  pose proof (client_hears_the_upstream to_responses claude_stream "m" ltac:(discriminate) (or_intror eq_refl) ltac:(vm_compute; reflexivity)) as H.
  cbv zeta in H. replace (words _) with "hello"%string in H by (vm_compute; reflexivity).
  replace (ending_of _ _) with (Some "length"%string) in H by (vm_compute; reflexivity). exact H.
Defined.
End Demo.
