(* ===== verification/Server.v ===== *)
(** * The gateway's request path

    internal/gateway/server.go: admission, account selection, the upstream
    call, failover, and the two events of every attempt, for the non-streaming
    and the streaming handlers.

    A handler is a program over the effects of [gwE]: its limiter, its chooser,
    its producer, the network.  What an effect answers is left open, so a
    theorem about all runs covers every state, fault and interleaving of the
    components; Chooser.v, Limiter.v and Events.v say what they really answer.
    kiro.go and two parsers of the standard library are parameters of the class
    [Conversions]; draining an event stream is an effect, and Stream.v and
    Streaming.v say what it answers.  Bytes are strings.  Deadlines show only
    as failing effects. *)

From S2P Require Import Prelude Decimal Money Contracts Chooser Numeric GoTime Db Redis Limiter Effects Utf8 GoJson Protokit GoStruct GoUrl GoAny ProtokitData ProtokitContent ProtokitConvert ProtokitReplies ChatRequest.

Open Scope Z_scope.

(** ** Requests and answers *)

Inductive server_error :=
| EUnauthorized
| EBillingBlocked
| EBadSession
| EAuthenticationRequired
| EModelRequired
| EUnsupportedCapability
| EStreamRequired
| EBadBody
| EServerSnapshotStale
| ELimited (e : limiter_error)
| ENoLease (e : chooser_error)
| EConversion
| EEncoding
| EAttemptFailed
| EReleaseFailed
| ENetwork
| EUsageUnavailable
| EUpstream (status : Z).

(** body, status, error *)
Record answer := Answer { an_body : option string; an_status : Z; an_err : option server_error }.
Definition refuse (status : Z) (e : server_error) : answer := Answer None status (Some e).

Record Server := {
  sv_Provider : string;
  sv_ChooseAllPlatforms : bool;
  sv_RequestTimeout : duration;
  sv_ProducerID : string
}.

(** What authFromContext finds. *)
Record auth_context := { ax_Limits : TenantLimits; ax_SessionKey : string }.

(** ** Effects *)

Abbreviation headers := (gmap string string).

Record upstream_request := {
  uq_endpoint : string;
  uq_headers : headers;
  uq_payload : string
}.

Record upstream_response := {
  ur_status : Z;
  ur_retry_after : string;       (* Retry-After, "" when absent *)
  ur_reset : string;             (* X-RateLimit-Reset *)
  ur_body : option string        (* [None]: reading it failed *)
}.

(** [Added], or why an attempt_started event is not on the stream. *)
Inductive add_answer := Added | NotEncoded | NotAdded.

(** What draining an SSE body comes to: usage, partial, and the error, [true]
    for an unsupported event, [false] for a broken stream. *)
Record drained := { dr_usage : option usage; dr_partial : bool; dr_error : option bool }.

Inductive gwE : Type → Type :=
| SnapshotFresh : gwE bool
| NewID (prefix : string) : gwE string
| Now : gwE time
| AcquireTenantE (tenantID : string) (limits : TenantLimits) : gwE (result limiter_error handle)
| AcquireE (lease : Lease) : gwE (result limiter_error handle)
| ReleaseE (h : handle) : gwE unit
| LookupE (tenantID sessionKey : string) : gwE string
| PinE (tenantID sessionKey accountID : string) (ttl : duration) : gwE unit
| ChooseE (criteria : Criteria) (preferred : string) (excluded : gset string) : gwE (result chooser_error Lease)
| MarkEgressE (lease : Lease) : gwE bool
| MarkFailureE (accountID model : string) (class : ErrorClass) (reset : duration) : gwE unit
| AddStartedE (started : AttemptStarted) : gwE add_answer
| AddReleaseE (release : Release) : gwE bool
| DoE (lease : Lease) (request : upstream_request) : gwE (option upstream_response)
| HeadersE (status : Z) : gwE unit
| DrainE (lease : Lease) (source target : Protocol) (model : string) : gwE drained.

Abbreviation gw := (prog gwE).

(** ** Small pieces *)

Fixpoint str_contains (sub s : string) : bool :=
  has_prefix sub s || match s with EmptyString => false | String _ s' => str_contains sub s' end.

Definition leaseProvider (s : Server) (lease : Lease) : string :=
  if negb (String.eqb (ls_Provider lease) "") then ls_Provider lease else sv_Provider s.

Definition criteriaPlatform (s : Server) : string := if sv_ChooseAllPlatforms s then "" else sv_Provider s.

Definition pinSession (tenantID sessionKey : string) (lease : Lease) : gw unit :=
  if String.eqb sessionKey "" then mret tt
  else perform (PinE tenantID sessionKey (ls_AccountID lease) (wrap64 (lim_StickyTTL (ls_Limits lease) * second))).

Definition selectedProtocol (provider : string) (profile : UpstreamProfile) : option Protocol :=
  if negb (String.eqb (prof_Protocol profile) "") then protocol_named (prof_Protocol profile)
  else if equal_fold provider "claude" then Some AnthropicMessages else Some OpenAIChat.

(** ** Error classes *)

Definition classifyHTTPWithReset (status : Z) (body : string) (reset : duration) : ErrorClass :=
  if status =? 401 then ErrorAuthExpired
  else if status =? 403 then
    if str_contains "<html" (to_lower body) || str_contains "<!doctype" (to_lower body)
    then ErrorForbiddenTransport else ErrorForbiddenCapability
  else if status =? 429 then
    if 0 <? reset then ErrorRateLimitedKnown else ErrorRateLimitedUnknown
  else if 500 <=? status then ErrorUpstream5xx else ErrorBlocked.

Definition shouldFailoverStatus (status : Z) : bool :=
  (status =? 401) || (status =? 403) || (status =? 429) || (500 <=? status).

Definition markTransportOrAccount (lease : Lease) (model : string) (class : ErrorClass) (reset : duration) : gw unit :=
  if String.eqb class ErrorForbiddenTransport then
    _ ← perform (MarkEgressE lease); mret tt
  else perform (MarkFailureE (ls_AccountID lease) model class reset).

(** ** The upstream request *)

(** [Header.Set] canonicalises the key; [Get] gives "" for none. *)
Definition header_set (k v : string) (h : headers) : headers := <[to_lower k := v]> h.
Definition header_get (k : string) (h : headers) : string := default ""%string (h !! to_lower k).
Definition header_default (k v : string) (h : headers) : headers :=
  if String.eqb (header_get k h) "" then header_set k v h else h.

Definition unreserved (a : Ascii.ascii) : bool :=
  let n := Ascii.nat_of_ascii a in
  (Nat.leb 48 n && Nat.leb n 57) || (Nat.leb 65 n && Nat.leb n 90) || (Nat.leb 97 n && Nat.leb n 122)
  || existsb (Nat.eqb n) [45; 95; 46; 126; 36; 38; 43; 58; 61; 64]%nat.

Definition hex_digit (n : nat) : Ascii.ascii := byte_of (if Nat.ltb n 10 then 48 + n else 55 + n)%nat.

(** [url.PathEscape]. *)
Fixpoint path_escape (s : string) : string :=
  match s with
  | EmptyString => EmptyString
  | String a s' =>
      if unreserved a then String a (path_escape s')
      else let n := Ascii.nat_of_ascii a in
           String (byte_of 37) (String (hex_digit (n / 16)) (String (hex_digit (n mod 16)) (path_escape s')))
  end.

(** [strings.ReplaceAll] for a non-empty [old]; a step consumes a byte. *)
Fixpoint replace_fuel (fuel : nat) (old new s : string) : string :=
  match fuel, s with
  | S fuel', String a s' =>
      if has_prefix old s then new +:+ replace_fuel fuel' old new (str_drop (String.length old) s)
      else String a (replace_fuel fuel' old new s')
  | _, _ => s
  end.
Definition replace_all (old new s : string) : string := replace_fuel (String.length s) old new s.

(** [strings.Replace(s, old, new, 1)] *)
Fixpoint replace_first (old new s : string) : string :=
  if has_prefix old s then new +:+ str_drop (String.length old) s
  else match s with EmptyString => EmptyString | String a s' => String a (replace_first old new s') end.

Definition resolveInferencePath (path model : string) : string := replace_all "{model}" (path_escape model) path.

Definition trim_slashes (s : string) : string := str_rev (trim_left_of ["/"%string] (str_rev s)).

Definition providerStreamingPath (provider path : string) : string :=
  if negb (equal_fold provider "antigravity") then path
  else
  let path := replace_first ":generateContent" ":streamGenerateContent" path in
  if negb (str_contains "?" path) then path +:+ "?alt=sse"
  else if negb (str_contains "alt=" path) then path +:+ "&alt=sse" else path.

Class Conversions := {
  prepareKiroPayload : UpstreamProfile → string → string → option string;
  normalizeKiroResponse : string → string → option string;
  ParseDuration : string → option duration;                     (* time.ParseDuration *)
  ParseTime : string → option time                              (* http.ParseTime *)
}.

Section server.
  Context `{Conversions} (s : Server).

Definition normalizeProviderResponse (provider model body : string) : option string :=
  if equal_fold provider "kiro" then normalizeKiroResponse body model
  else if negb (equal_fold provider "antigravity") then Some body
  else antigravity_response body.

Definition retryAfter (retry_after reset : string) (now : time) : duration :=
  let value := trim_space retry_after in
  let from_reset :=
    let value := trim_space reset in
    if String.eqb value "" then 0
    else let '(epoch, ok) := parse_int value in
         if ok : bool then
           let at_ := wrap64 (epoch + 62135596800) * second in
           if after at_ now then time_sub at_ now else 0
         else 0 in
  if String.eqb value "" then from_reset
  else match ParseDuration (value +:+ "s") with
       | Some seconds => if 0 <? seconds then seconds
                         else match ParseTime value with
                              | Some at_ => if after at_ now then time_sub at_ now else from_reset
                              | None => from_reset
                              end
       | None => match ParseTime value with
                 | Some at_ => if after at_ now then time_sub at_ now else from_reset
                 | None => from_reset
                 end
       end.

Definition copilot_defaults : list (string * string) :=
  [("User-Agent", "GitHubCopilotChat/0.44.0"); ("copilot-integration-id", "vscode-chat");
   ("editor-version", "vscode/1.109.3"); ("editor-plugin-version", "copilot-chat/0.44.0");
   ("openai-intent", "conversation-panel"); ("x-github-api-version", "2025-05-01");
   ("x-vscode-user-agent-library-version", "electron-fetch")]%string.

Definition applyProviderRequestHeaders (provider payload : string) (h : headers) : gw headers :=
  if equal_fold provider "windsurf" then
    let h := header_default "User-Agent" "Windsurf/1.20.9 Codeium/1.20.9" h in
    id ← perform (NewID "windsurf");
    mret (header_set "X-Codeium-Request-Id" id h)
  else if equal_fold provider "kiro" then
    let h := header_set "Accept" "*/*" h in
    id ← perform (NewID "kiro");
    let h := header_set "amz-sdk-invocation-id" id h in
    let h := header_set "amz-sdk-request" "attempt=1; max=3" h in
    let h := header_default "x-amzn-kiro-agent-mode" "vibe" h in
    let h := header_default "x-amzn-codewhisperer-optout" "true" h in
    mret (header_default "X-Amz-Target" "AmazonCodeWhispererStreamingService.GenerateAssistantResponse" h)
  else if equal_fold provider "antigravity" then
    mret (header_default "User-Agent" "antigravity/1.20.5 linux/x64" h)
  else if negb (equal_fold provider "copilot") then mret h
  else
    let h := foldl (λ h kv, header_default kv.1 kv.2 h) h copilot_defaults in
    requestID ← perform (NewID "copilot");
    let h := header_set "x-request-id" requestID h in
    let h := header_set "x-interaction-id" requestID h in
    let h := header_set "x-agent-task-id" requestID h in
    let h := header_set "x-interaction-type" (header_get "openai-intent" h) h in
    mret (header_set "X-Initiator" (copilotInitiator payload) h).

Definition credential_headers (protocol : Protocol) (c : Credential) (h : headers) : headers :=
  if String.eqb (cred_AccessToken c) "" then h
  else if bool_decide (protocol = AnthropicMessages) && String.eqb (cred_Kind c) "static"
  then header_set "x-api-key" (cred_AccessToken c) h
  else if bool_decide (protocol = GeminiGenerate) && String.eqb (cred_Kind c) "static"
  then header_set "x-goog-api-key" (cred_AccessToken c) h
  else header_set "Authorization" ("Bearer " +:+ cred_AccessToken c) h.

(** The headers of the upstream request; a profile's extra headers are set in
    the order of a map traversal, which shows only in keys that differ in case. *)
Definition upstream_headers (lease : Lease) (protocol : Protocol) (payload : string) : gw headers :=
  let profile := ls_Profile lease in
  let h := header_set "Content-Type" "application/json" ∅ in
  let h := credential_headers protocol (ls_Credential lease) h in
  let h := if String.eqb (prof_UserAgent profile) "" then h
           else header_set "User-Agent" (prof_UserAgent profile) h in
  let h := foldl (λ h kv, header_set kv.1 kv.2 h) h (map_to_list (prof_ExtraHeaders profile)) in
  h ← applyProviderRequestHeaders (leaseProvider s lease) payload h;
  mret (if bool_decide (protocol = AnthropicMessages)
        then header_set "anthropic-version" "2023-06-01" h else h).

Definition prepareProviderPayload (provider : string) (profile : UpstreamProfile) (model payload : string)
    : gw (option string) :=
  if equal_fold provider "kiro" then mret (prepareKiroPayload profile model payload)
  else if negb (equal_fold provider "antigravity") then mret (Some payload)
  else
  let projectID := trim_space (default ""%string (prof_ExtraHeaders profile !! "X-Goog-User-Project"%string)) in
  if String.eqb projectID "" then mret None
  else
  let userAgent := if String.eqb (prof_UserAgent profile) "" then "antigravity/1.20.5 linux/x64"%string
                   else prof_UserAgent profile in
  requestID ← perform (NewID "antigravity");
  mret (antigravity_payload model projectID requestID userAgent payload).

(** ** One upstream call *)

Record call_result := {
  cl_body : option string;
  cl_status : Z;
  cl_usage : option usage;
  cl_network : bool;
  cl_reset : duration;
  cl_err : option server_error
}.

Definition call_failed (status : Z) (usage_ : option usage) (reset : duration) (e : server_error) : call_result :=
  {| cl_body := None; cl_status := status; cl_usage := usage_; cl_network := false; cl_reset := reset; cl_err := Some e |}.
Definition call_network (status : Z) : call_result :=
  {| cl_body := None; cl_status := status; cl_usage := None; cl_network := true; cl_reset := 0; cl_err := Some ENetwork |}.

(** The path of a profile that configures none; Gemini has none here. *)
Definition default_path (protocol : Protocol) : option string :=
  match protocol with
  | OpenAIChat => Some "/v1/chat/completions"
  | AnthropicMessages => Some "/v1/messages"
  | OpenAIResponses => Some "/responses"
  | GeminiGenerate => None
  end%string.

Definition inference_path (profile : UpstreamProfile) (default_ : option string) : option string :=
  if String.eqb (prof_InferencePath profile) "" then default_ else Some (prof_InferencePath profile).

Definition endpoint_of (profile : UpstreamProfile) (path model : string) : string :=
  trim_slashes (prof_BaseURL profile) +:+ resolveInferencePath path model.

(** The response, read and converted. *)
Definition read_response (lease : Lease) (request : ChatCompletionRequest) (upstream inbound : Protocol)
    (response : upstream_response) (body : string) (now : time) : call_result :=
  let reset := retryAfter (ur_retry_after response) (ur_reset response) now in
  if 400 <=? ur_status response then
    {| cl_body := Some body; cl_status := ur_status response; cl_usage := None; cl_network := false;
       cl_reset := reset; cl_err := Some (EUpstream (ur_status response)) |}
  else match normalizeProviderResponse (leaseProvider s lease) (Model request) body with
  | None => call_failed 502 None reset EConversion
  | Some body =>
      let parsedUsage := parseUsageForProtocol body upstream in
      if bool_decide (upstream = inbound) then
        {| cl_body := Some body; cl_status := ur_status response; cl_usage := parsedUsage;
           cl_network := false; cl_reset := reset; cl_err := None |}
      else match converted (ConvertResponse body upstream inbound) with
      | None => call_failed 502 parsedUsage reset EConversion
      | Some converted =>
          {| cl_body := Some converted; cl_status := ur_status response; cl_usage := parsedUsage;
             cl_network := false; cl_reset := reset; cl_err := None |}
      end
  end.

Definition callUpstream (lease : Lease) (request : ChatCompletionRequest) (inbound : Protocol) : gw call_result :=
  let payload := marshal_request request in
  match selectedProtocol (leaseProvider s lease) (ls_Profile lease) with
  | None => mret (call_failed 502 None 0 EConversion)
  | Some upstream =>
  match (if bool_decide (upstream = OpenAIChat) then Some payload else converted (ConvertRequest payload OpenAIChat upstream)) with
  | None => mret (call_failed 400 None 0 EConversion)
  | Some payload =>
      prepared ← prepareProviderPayload (leaseProvider s lease) (ls_Profile lease) (Model request) payload;
      match prepared with
      | None => mret (call_failed 502 None 0 EConversion)
      | Some payload =>
      match inference_path (ls_Profile lease) (default_path upstream) with
      | None => mret (call_failed 502 None 0 EConversion)
      | Some path =>
          let endpoint := endpoint_of (ls_Profile lease) path (Model request) in
          if negb (request_ok endpoint) then mret (call_failed 502 None 0 EConversion)
          else
          h ← upstream_headers lease upstream payload;
          if negb (transport_ok (ls_Profile lease)) then mret (call_network 0)
          else
          response ← perform (DoE lease {| uq_endpoint := endpoint; uq_headers := h; uq_payload := payload |});
          match response with
          | None => mret (call_network 0)
          | Some response =>
              match ur_body response with
              | None => mret (call_network (ur_status response))
              | Some body =>
                  now ← perform Now;
                  mret (read_response lease request upstream inbound response body now)
              end
          end
      end end
  end end.

(** ** The two events of an attempt *)

Definition deadline_of : duration := if sv_RequestTimeout s <=? 0 then 120 * second else sv_RequestTimeout s.

Definition attempt_started (startID requestID attemptID tenantID model : string) (attemptNo : Z) (lease : Lease)
    (startedAt : time) : AttemptStarted :=
  {| as_SchemaVersion := SchemaVersion; as_EventID := startID; as_RequestID := requestID;
     as_AttemptID := attemptID; as_AttemptNo := attemptNo; as_ProducerID := sv_ProducerID s;
     as_OccurredAt := startedAt; as_AccountID := ls_AccountID lease; as_Provider := leaseProvider s lease;
     as_Model := model; as_TenantID := tenantID; as_DeadlineAt := startedAt + deadline_of |}.

Definition millis (d : duration) : Z := Z.quot d 1000000.

Definition release_event (requestID attemptID tenantID model : string) (attemptNo : Z) (lease : Lease)
    (inbound : Protocol) (startedAt at_ now : time) (status : Z) (class : ErrorClass) (parsedUsage : option usage)
    (partial : bool) : Release :=
  {| rel_SchemaVersion := SchemaVersion; rel_EventID := TerminalEventID attemptID; rel_RequestID := requestID;
     rel_AttemptID := attemptID; rel_AttemptNo := attemptNo; rel_ProducerID := sv_ProducerID s;
     rel_OccurredAt := at_; rel_AccountID := ls_AccountID lease; rel_Provider := leaseProvider s lease;
     rel_StatusCode := status; rel_LatencyMS := millis (time_sub now startedAt);
     rel_TokensIn := match parsedUsage with Some u => Input u | None => 0 end;
     rel_TokensOut := match parsedUsage with Some u => Output u | None => 0 end;
     rel_CacheReadTokens := match parsedUsage with Some u => CacheRead u | None => 0 end;
     rel_CacheWriteTokens := match parsedUsage with Some u => CacheWrite u | None => 0 end;
     rel_Model := model; rel_TenantID := tenantID; rel_ErrorClass := class;
     rel_UsageSource := match parsedUsage with Some _ => UsageSourceUpstream | None => UsageSourceMissing end;
     rel_Partial := partial; rel_InboundProtocol := protocol_name inbound |}.

(** An intact answer without usage, from a provider that did not opt out. *)
Definition integrity_failover (lease : Lease) (r : call_result) : bool :=
  negb (cl_network r) && (cl_status r <? 400) && negb (bool_decide (is_Some (cl_usage r)))
  && negb (String.eqb (ls_UsageIntegrity lease) UsageIntegrityZero)
  && negb (String.eqb (ls_UsageIntegrity lease) UsageIntegrityEstimated).

Definition attempt_class (lease : Lease) (r : call_result) : ErrorClass :=
  if cl_network r then ErrorNetwork
  else if 400 <=? cl_status r then
    if (cl_status r =? 401) && String.eqb (cred_Kind (ls_Credential lease)) "static" then ErrorAuthInvalid
    else classifyHTTPWithReset (cl_status r) (default ""%string (cl_body r)) (cl_reset r)
  else if integrity_failover lease r then ErrorUsageMissing else ErrorOK.

(** ** The non-streaming handler *)

(** The loop goes on to the next account, or the request is answered. *)
Inductive attempt_result :=
| Retry (lastStatus : Z) (lastErr : option server_error)
| Done (a : answer).

(** Both handlers open an attempt and write its release the same way. *)
Definition open_attempt (requestID tenantID model : string) (attemptNo : Z) (lease : Lease)
    : gw (string * time * add_answer) :=
  attemptID ← perform (NewID "attempt");
  startedAt ← perform Now;
  startID ← perform (NewID "start");
  added ← perform (AddStartedE (attempt_started startID requestID attemptID tenantID model attemptNo lease startedAt));
  mret (attemptID, startedAt, added).

Definition write_release (requestID attemptID tenantID model : string) (attemptNo : Z) (lease : Lease)
    (inbound : Protocol) (startedAt : time) (status : Z) (class : ErrorClass) (parsedUsage : option usage)
    (partial : bool) : gw bool :=
  at_ ← perform Now;
  now ← perform Now;
  perform (AddReleaseE (release_event requestID attemptID tenantID model attemptNo lease inbound startedAt at_ now
    status class parsedUsage partial)).

(** What follows the release of the attempt. *)
Definition conclude (request : ChatCompletionRequest) (attemptNo : Z) (lease : Lease) (slot : handle)
    (r : call_result) (persisted : bool) : gw attempt_result :=
  _ ← perform (ReleaseE slot);
  if negb persisted then mret (Done (refuse 503 EReleaseFailed))
  else if cl_network r then mret (Done (refuse 502 ENetwork))
  else if 400 <=? cl_status r then
    _ ← markTransportOrAccount lease (Model request) (attempt_class lease r) (cl_reset r);
    if shouldFailoverStatus (cl_status r) && (attemptNo <? 2) then mret (Retry (cl_status r) (cl_err r))
    else mret (Done (Answer None (cl_status r) (Some (default (EUpstream (cl_status r)) (cl_err r)))))
  else if integrity_failover lease r then
    if attemptNo <? 2 then mret (Retry 502 (Some EUsageUnavailable))
    else mret (Done (refuse 502 EUsageUnavailable))
  else mret (Done (Answer (cl_body r) 200 None)).

(** One turn of the loop once it holds the limiter [slot]. *)
Definition attempt_body (requestID tenantID : string) (request : ChatCompletionRequest) (inbound : Protocol)
    (attemptNo : Z) (lease : Lease) (slot : handle) : gw attempt_result :=
  '(attemptID, startedAt, added) ← open_attempt requestID tenantID (Model request) attemptNo lease;
  match added with
  | NotEncoded => _ ← perform (ReleaseE slot); mret (Done (refuse 500 EEncoding))
  | NotAdded => _ ← perform (ReleaseE slot); mret (Done (refuse 503 EAttemptFailed))
  | Added =>
      r ← callUpstream lease request inbound;
      persisted ← write_release requestID attemptID tenantID (Model request) attemptNo lease inbound startedAt
                    (cl_status r) (attempt_class lease r) (cl_usage r) false;
      conclude request attemptNo lease slot r persisted
  end.

Definition attempt_turn (requestID tenantID sessionKey group pinned : string) (request : ChatCompletionRequest)
    (inbound : Protocol) (attemptNo : Z) (attempted : gset string) (lastStatus : Z) (lastErr : option server_error)
    : gw (attempt_result * gset string) :=
  lease ← perform (ChooseE (MkCriteria (criteriaPlatform s) (Model request) group "") pinned attempted);
  match lease with
  | Err e =>
      mret (Done (match lastErr with
                  | Some _ => Answer None (if lastStatus =? 0 then 502 else lastStatus) lastErr
                  | None => match e with
                            | ErrQuotaExhausted => refuse 429 (ENoLease e)
                            | _ => refuse 503 (ENoLease e)
                            end
                  end), attempted)
  | Ok lease =>
      let attempted := {[ ls_AccountID lease ]} ∪ attempted in
      _ ← pinSession tenantID sessionKey lease;
      slot ← perform (AcquireE lease);
      match slot with
      | Err e => mret (Done (refuse 429 (ELimited e)), attempted)
      | Ok slot =>
          r ← attempt_body requestID tenantID request inbound attemptNo lease slot;
          mret (r, attempted)
      end
  end.

Fixpoint attempts (numbers : list Z) (requestID tenantID sessionKey group pinned : string)
    (request : ChatCompletionRequest) (inbound : Protocol) (attempted : gset string) (lastStatus : Z)
    (lastErr : option server_error) : gw answer :=
  match numbers with
  | [] => mret (Answer None 502 lastErr)
  | attemptNo :: numbers =>
      '(r, attempted) ← attempt_turn requestID tenantID sessionKey group pinned request inbound attemptNo
                          attempted lastStatus lastErr;
      match r with
      | Done a => mret a
      | Retry lastStatus lastErr =>
          attempts numbers requestID tenantID sessionKey group pinned request inbound attempted lastStatus lastErr
      end
  end.

Definition handleNonStreaming (auth : auth_context) (tenantID group : string) (request : ChatCompletionRequest)
    (inbound : Protocol) : gw answer :=
  if String.eqb tenantID "" then mret (refuse 401 EAuthenticationRequired)
  else if String.eqb (Model request) "" then mret (refuse 400 EModelRequired)
  else if Stream request || containsUnsupportedMessageFields (messages_of (Messages request))
  then mret (refuse 400 EUnsupportedCapability)
  else
  let group := if String.eqb group "" then "default"%string else group in
  fresh ← perform SnapshotFresh;
  if negb fresh then mret (refuse 503 EServerSnapshotStale)
  else
  requestID ← perform (NewID "req");
  tenant ← perform (AcquireTenantE tenantID (ax_Limits auth));
  match tenant with
  | Err e => mret (refuse 429 (ELimited e))
  | Ok slot =>
      pinned ← perform (LookupE tenantID (ax_SessionKey auth));
      a ← attempts [1; 2] requestID tenantID (ax_SessionKey auth) group pinned request inbound ∅ 0 None;
      _ ← perform (ReleaseE slot);
      mret a
  end.

Definition HandleNonStreaming (auth : auth_context) (tenantID group : string) (request : ChatCompletionRequest) : gw answer :=
  handleNonStreaming auth tenantID group request OpenAIChat.

(** [HandleMessages] and [HandleResponses]. *)
Definition handle_converted (inbound : Protocol) (auth : auth_context) (tenantID group body : string) : gw answer :=
  match converted (ConvertRequest body inbound OpenAIChat) ≫= unmarshal_request with
  | None => mret (refuse 400 EBadBody)
  | Some request => handleNonStreaming auth tenantID group request inbound
  end.
Definition HandleMessages := handle_converted AnthropicMessages.
Definition HandleResponses := handle_converted OpenAIResponses.

(** ** The streaming handler *)

(** [writeStreamingRelease]. *)
Definition writeStreamingRelease (requestID attemptID tenantID model : string) (lease : Lease) (inbound : Protocol)
    (startedAt : time) (status : Z) (class : ErrorClass) (parsedUsage : option usage) (partial : bool) : gw bool :=
  write_release requestID attemptID tenantID model 1 lease inbound startedAt status class parsedUsage partial.

(** [finishStreamingRelease] as it is called: after a network error. *)
Definition finish_network (requestID attemptID tenantID model : string) (lease : Lease) (inbound : Protocol)
    (startedAt : time) (status : Z) : gw answer :=
  persisted ← writeStreamingRelease requestID attemptID tenantID model lease inbound startedAt status ErrorNetwork None false;
  mret (if persisted : bool then refuse 502 ENetwork else refuse 503 EReleaseFailed).

Definition streaming_default_path (protocol : Protocol) : option string :=
  Some match protocol with
       | AnthropicMessages => "/v1/messages"
       | OpenAIResponses => "/responses"
       | GeminiGenerate => "/v1beta/models/{model}:streamGenerateContent?alt=sse"
       | OpenAIChat => "/v1/chat/completions"
       end%string.

(** From the response on. *)
Definition stream_response (requestID attemptID tenantID model : string) (lease : Lease)
    (upstream inbound : Protocol) (startedAt : time) (response : upstream_response) : gw answer :=
  if 400 <=? ur_status response then
    match ur_body response with
    | None => finish_network requestID attemptID tenantID model lease inbound startedAt (ur_status response)
    | Some body =>
        now ← perform Now;
        let class now := classifyHTTPWithReset (ur_status response) body
          (retryAfter (ur_retry_after response) (ur_reset response) now) in
        persisted ← writeStreamingRelease requestID attemptID tenantID model lease inbound startedAt (ur_status response)
                      (class now) None false;
        if negb persisted then mret (refuse 503 EReleaseFailed)
        else
        now' ← perform Now;
        now'' ← perform Now;
        _ ← markTransportOrAccount lease model (class now') (retryAfter (ur_retry_after response) (ur_reset response) now'');
        mret (refuse (ur_status response) (EUpstream (ur_status response)))
    end
  else
  _ ← perform (HeadersE 200);
  d ← perform (DrainE lease upstream inbound model);
  match dr_error d with
  | Some unsupported =>
      persisted ← writeStreamingRelease requestID attemptID tenantID model lease inbound startedAt 200
        (if unsupported : bool then ErrorForbiddenCapability else ErrorNetwork) (dr_usage d) (dr_partial d);
      mret (if negb persisted then refuse 503 EReleaseFailed
            else Answer None 200 (Some (if unsupported : bool then EUnsupportedCapability else ENetwork)))
  | None =>
      persisted ← writeStreamingRelease requestID attemptID tenantID model lease inbound startedAt 200 ErrorOK
        (dr_usage d) (dr_partial d);
      mret (if negb persisted then refuse 503 EReleaseFailed
            else match dr_usage d with
                 | None => refuse 502 EUsageUnavailable
                 | Some _ => Answer None 200 None
                 end)
  end.

(** The attempt, once the payload is ready and both limiter slots are held. *)
Definition stream_attempt (requestID tenantID model payload : string) (lease : Lease) (upstream inbound : Protocol)
    : gw answer :=
  '(attemptID, startedAt, added) ← open_attempt requestID tenantID model 1 lease;
  match added with
  | NotEncoded => mret (refuse 500 EEncoding)
  | NotAdded => mret (refuse 503 EAttemptFailed)
  | Added =>
      let path := default ""%string (inference_path (ls_Profile lease) (streaming_default_path upstream)) in
      let path := providerStreamingPath (leaseProvider s lease) path in
      let endpoint := endpoint_of (ls_Profile lease) path model in
      if negb (request_ok endpoint)
      then finish_network requestID attemptID tenantID model lease inbound startedAt 0
      else
      h ← upstream_headers lease upstream payload;
      if negb (transport_ok (ls_Profile lease))
      then finish_network requestID attemptID tenantID model lease inbound startedAt 0
      else
      response ← perform (DoE lease {| uq_endpoint := endpoint; uq_headers := h; uq_payload := payload |});
      match response with
      | None => finish_network requestID attemptID tenantID model lease inbound startedAt 0
      | Some response => stream_response requestID attemptID tenantID model lease upstream inbound startedAt response
      end
  end.

(** Between the tenant's slot and the account's. *)
Definition stream_leased (requestID tenantID sessionKey group model payload : string) (inbound : Protocol) : gw answer :=
  pinned ← perform (LookupE tenantID sessionKey);
  lease ← perform (ChooseE (MkCriteria (criteriaPlatform s) model group "") pinned ∅);
  match lease with
  | Err ErrQuotaExhausted => mret (refuse 429 (ENoLease ErrQuotaExhausted))
  | Err e => mret (refuse 503 (ENoLease e))
  | Ok lease =>
      _ ← pinSession tenantID sessionKey lease;
      match selectedProtocol (leaseProvider s lease) (ls_Profile lease) with
      | None => mret (refuse 502 EConversion)
      | Some upstream =>
      match (if bool_decide (upstream = inbound) then Some payload else convertStreamingRequest payload inbound upstream) with
      | None => mret (refuse 400 EConversion)
      | Some payload =>
          prepared ← prepareProviderPayload (leaseProvider s lease) (ls_Profile lease) model payload;
          match prepared with
          | None => mret (refuse 502 EConversion)
          | Some payload =>
              slot ← perform (AcquireE lease);
              match slot with
              | Err e => mret (refuse 429 (ELimited e))
              | Ok slot =>
                  a ← stream_attempt requestID tenantID model payload lease upstream inbound;
                  _ ← perform (ReleaseE slot);
                  mret a
              end
          end
      end end
  end.

Definition handleProtocolStreaming (auth : auth_context) (tenantID group payload : string) (inbound : Protocol)
    (model : string) : gw answer :=
  if String.eqb tenantID "" then mret (refuse 401 EAuthenticationRequired)
  else if blank model then mret (refuse 400 EModelRequired)
  else if streamingBodyHasTools payload then mret (refuse 400 EUnsupportedCapability)
  else
  let group := if String.eqb group "" then "default"%string else group in
  fresh ← perform SnapshotFresh;
  if negb fresh then mret (refuse 503 EServerSnapshotStale)
  else
  requestID ← perform (NewID "req");
  tenant ← perform (AcquireTenantE tenantID (ax_Limits auth));
  match tenant with
  | Err e => mret (refuse 429 (ELimited e))
  | Ok slot =>
      a ← stream_leased requestID tenantID (ax_SessionKey auth) group model payload inbound;
      _ ← perform (ReleaseE slot);
      mret a
  end.

Definition HandleStreaming (auth : auth_context) (tenantID group : string) (request : ChatCompletionRequest) : gw answer :=
  if String.eqb tenantID "" then mret (refuse 401 EAuthenticationRequired)
  else if String.eqb (Model request) "" then mret (refuse 400 EModelRequired)
  else if negb (Stream request) || containsUnsupportedMessageFields (messages_of (Messages request))
          || containsImageMessageFields (messages_of (Messages request)) then mret (refuse 400 EUnsupportedCapability)
  else if negb (bool_decide (elems (Tools request) = [])) then mret (refuse 400 EUnsupportedCapability)
  else match marshalStreamingRequest request with
  | None => mret (refuse 400 EEncoding)
  | Some payload => handleProtocolStreaming auth tenantID group payload OpenAIChat (Model request)
  end.

(** [HandleMessagesStreaming] and [HandleResponsesStreaming]. *)
Definition handle_streaming_body (inbound : Protocol) (auth : auth_context) (tenantID group body : string) : gw answer :=
  match streamingRequestMetadata body with
  | None => mret (refuse 400 EBadBody)
  | Some (model, stream) =>
      if negb stream then mret (refuse 400 EStreamRequired)
      else if negb (validateStreamingProtocolBody body inbound) then mret (refuse 400 EUnsupportedCapability)
      else handleProtocolStreaming auth tenantID group body inbound model
  end.
Definition HandleMessagesStreaming := handle_streaming_body AnthropicMessages.
Definition HandleResponsesStreaming := handle_streaming_body OpenAIResponses.
End server.
