(* ===== verification/ServerFacts.v ===== *)
(** * The request path keeps its promises

    Over every run of the handlers of Server.v, whatever the limiter, the
    chooser, the stream and the network answer: the discipline of
    [monitor], the accounting of attempts, and what is billed. *)

From S2P Require Import Prelude Sha256 Decimal Money Contracts Chooser Numeric GoTime Db Redis Limiter Effects Utf8 GoJson Protokit ChatRequest Server.

(** * Reasoning about the request path

    The monitor of a request, an instance of the class of Effects.v.  It is the
    specification of a well-behaved request: which effect of Server.v may
    follow which, and what the answers of the other components may be. *)

Open Scope Z_scope.

(** ** The monitor *)

(** An attempt that was closed: both of its events, and whether the release is
    known to be on the stream. *)
Record attempt := Attempt {
  at_started : AttemptStarted;
  at_release : Release;
  at_persisted : bool
}.

Record monitor := MkMonitor {
  mo_clock : time;
  mo_ids : gset string;                    (* ids drawn *)
  mo_held : list handle;                   (* limiter slots, newest first *)
  mo_leases : list Lease;                  (* newest first *)
  mo_open : option (AttemptStarted * bool); (* and whether the upstream was called *)
  mo_closed : list attempt                 (* newest first *)
}.

Definition monitor0 : monitor := MkMonitor 0 ∅ [] [] None [].

Definition with_clock t σ := MkMonitor t (mo_ids σ) (mo_held σ) (mo_leases σ) (mo_open σ) (mo_closed σ).
Definition with_ids ids σ := MkMonitor (mo_clock σ) ids (mo_held σ) (mo_leases σ) (mo_open σ) (mo_closed σ).
Definition with_held held σ := MkMonitor (mo_clock σ) (mo_ids σ) held (mo_leases σ) (mo_open σ) (mo_closed σ).
Definition with_leases leases σ := MkMonitor (mo_clock σ) (mo_ids σ) (mo_held σ) leases (mo_open σ) (mo_closed σ).
Definition with_open open σ := MkMonitor (mo_clock σ) (mo_ids σ) (mo_held σ) (mo_leases σ) open (mo_closed σ).
Definition with_closed closed σ := MkMonitor (mo_clock σ) (mo_ids σ) (mo_held σ) (mo_leases σ) None closed.

Definition leased (σ : monitor) : gset string := list_to_set (ls_AccountID <$> mo_leases σ).

Definition gw_next {X} (e : gwE X) : X → monitor → monitor :=
  match e in gwE X return X → monitor → monitor with
  | NewID _ => λ id σ, with_ids ({[ id ]} ∪ mo_ids σ) σ
  | Now => λ t σ, with_clock t σ
  | AcquireTenantE _ _ | AcquireE _ => λ r σ, match r with Ok h => with_held (h :: mo_held σ) σ | Err _ => σ end
  | ReleaseE _ => λ _ σ, with_held (tail (mo_held σ)) σ
  | ChooseE _ _ _ => λ r σ, match r with Ok lease => with_leases (lease :: mo_leases σ) σ | Err _ => σ end
  | AddStartedE started => λ r σ, match r with Added => with_open (Some (started, false)) σ | _ => σ end
  | AddReleaseE release => λ ok σ,
      match mo_open σ with
      | Some (started, _) => with_closed (Attempt started release ok :: mo_closed σ) σ
      | None => σ
      end
  | DoE _ _ => λ _ σ, with_open ((λ o, (o.1, true)) <$> mo_open σ) σ
  | _ => λ _ σ, σ
  end.

(** The release of the attempt [started] opened, dated after it. *)
Record releases (started : AttemptStarted) (release : Release) : Prop := {
  rl_version : rel_SchemaVersion release = SchemaVersion;
  rl_event : rel_EventID release = TerminalEventID (as_AttemptID started);
  rl_request : rel_RequestID release = as_RequestID started;
  rl_attempt : rel_AttemptID release = as_AttemptID started;
  rl_number : rel_AttemptNo release = as_AttemptNo started;
  rl_producer : rel_ProducerID release = as_ProducerID started;
  rl_account : rel_AccountID release = as_AccountID started;
  rl_provider : rel_Provider release = as_Provider started;
  rl_model : rel_Model release = as_Model started;
  rl_tenant : rel_TenantID release = as_TenantID started;
  rl_occurred : as_OccurredAt started <= rel_OccurredAt release;
  rl_latency : 0 <= rel_LatencyMS release;
  rl_status : 0 <= rel_StatusCode release
}.

(** What a request may do, and when.
    - A slot of an account is asked for while the tenant's is held, slots are
      returned newest first and not while an attempt is open.
    - An account is chosen while no attempt is open and no account's slot is
      held, and those already leased are excluded.
    - An attempt is opened on the account leased last, holding both slots, with
      an id, a number and an account that no earlier attempt of the request has.
    - The upstream is called inside an attempt, on its account, once.
    - A release closes the open attempt and carries its identity.
    - Only the account of the last attempt is marked, after its release, for an
      attempt that failed. *)
Definition gw_permits {X} (e : gwE X) (σ : monitor) : Prop :=
  match e with
  | AcquireTenantE _ _ => mo_held σ = []
  | AcquireE lease => list.head (mo_leases σ) = Some lease ∧ length (mo_held σ) = 1%nat
  | ReleaseE h => list.head (mo_held σ) = Some h ∧ mo_open σ = None
  | PinE _ _ accountID _ => (ls_AccountID <$> list.head (mo_leases σ)) = Some accountID
  | ChooseE _ _ excluded => mo_open σ = None ∧ length (mo_held σ) = 1%nat ∧ excluded = leased σ
  | AddStartedE started =>
      mo_open σ = None ∧ length (mo_held σ) = 2%nat
      ∧ (ls_AccountID <$> list.head (mo_leases σ)) = Some (as_AccountID started)
      ∧ as_AttemptNo started = Z.of_nat (S (length (mo_closed σ)))
      ∧ Forall (λ a, as_AttemptID (at_started a) ≠ as_AttemptID started
                     ∧ as_AccountID (at_started a) ≠ as_AccountID started) (mo_closed σ)
  | DoE lease _ => ∃ started, mo_open σ = Some (started, false) ∧ as_AccountID started = ls_AccountID lease
  | HeadersE _ => ∃ started, mo_open σ = Some (started, true)
  | DrainE lease _ _ _ => ∃ started, mo_open σ = Some (started, true) ∧ as_AccountID started = ls_AccountID lease
  | AddReleaseE release => ∃ started called, mo_open σ = Some (started, called) ∧ releases started release
  | MarkEgressE lease => mo_open σ = None ∧ ∃ a rest, mo_closed σ = a :: rest ∧ at_persisted a = true
      ∧ as_AccountID (at_started a) = ls_AccountID lease ∧ rel_ErrorClass (at_release a) ≠ ErrorOK
  | MarkFailureE accountID model class _ => mo_open σ = None ∧ ∃ a rest, mo_closed σ = a :: rest
      ∧ at_persisted a = true ∧ as_AccountID (at_started a) = accountID ∧ as_Model (at_started a) = model
      ∧ rel_ErrorClass (at_release a) ≠ ErrorOK ∧ class ≠ ErrorOK
  | _ => True
  end.

(** What the environment answers: fresh ids, a clock that does not go back,
    leases on accounts that were not excluded, HTTP statuses. *)
Definition gw_answers {X} (e : gwE X) : X → monitor → Prop :=
  match e in gwE X return X → monitor → Prop with
  | NewID _ => λ id σ, (id ∉ mo_ids σ) ∧ blank id = false
  | Now => λ t σ, 0 < t ∧ mo_clock σ <= t
  | ChooseE _ _ excluded => λ r _,
      match r with
      | Ok lease => (ls_AccountID lease ∉ excluded) ∧ blank (ls_AccountID lease) = false
      | Err _ => True
      end
  | DoE _ _ => λ r _, match r with Some response => 0 <= ur_status response | None => True end
  | _ => λ _ _, True
  end.

#[export] Instance gw_monitor : Monitor gwE monitor :=
  {| permits := @gw_permits; next := @gw_next; answers := @gw_answers |}.

(** ** Effects that leave the request where it is *)

(** Ids were drawn and time passed; the open attempt is another matter. *)
Record quiet (σ σ' : monitor) : Prop := {
  qt_clock : mo_clock σ <= mo_clock σ';
  qt_ids : mo_ids σ ⊆ mo_ids σ';
  qt_held : mo_held σ' = mo_held σ;
  qt_leases : mo_leases σ' = mo_leases σ;
  qt_closed : mo_closed σ' = mo_closed σ
}.

#[export] Instance quiet_preorder : PreOrder quiet.
Proof.
  split.
  - intros σ. by constructor.
  - intros σ1 σ2 σ3 [] []. constructor; [lia|set_solver|congruence..].
Qed.

Lemma must_now Q σ :
  (∀ t, 0 < t → mo_clock σ <= t → Q t (with_clock t σ)) → must (perform Now) Q σ.
Proof. intros HQ. apply must_perform; [done|]. intros t [??]. by apply HQ. Qed.

Lemma must_new_id prefix Q σ :
  (∀ id, id ∉ mo_ids σ → blank id = false → Q id (with_ids ({[ id ]} ∪ mo_ids σ) σ)) →
  must (perform (NewID prefix)) Q σ.
Proof. intros HQ. apply must_perform; [done|]. intros t [??]. by apply HQ. Qed.

Lemma quiet_clock t σ : mo_clock σ <= t → quiet σ (with_clock t σ).
Proof. by constructor. Qed.
Lemma quiet_open o σ : quiet σ (with_open o σ).
Proof. by constructor. Qed.
Lemma quiet_ids id σ : quiet σ (with_ids ({[ id ]} ∪ mo_ids σ) σ).
Proof. constructor; [done|cbn; set_solver|done..]. Qed.
#[export] Hint Resolve quiet_clock quiet_open quiet_ids : gw.

Open Scope Z_scope.

(** ** The classification of answers *)

Lemma classify_not_ok status body reset : classifyHTTPWithReset status body reset ≠ ErrorOK.
Proof. unfold classifyHTTPWithReset. repeat case_if_goal; discriminate. Qed.

Lemma http_class_valid status body reset : ErrorClass_Valid (classifyHTTPWithReset status body reset) = true.
Proof. unfold classifyHTTPWithReset. repeat case_if_goal; by vm_compute. Qed.

Lemma terminal_id_not_blank id : blank (TerminalEventID id) = false.
Proof.
  unfold blank, TerminalEventID. rewrite (trim_space_foreign is_hex); [|vm_compute; reflexivity|apply sha256_hex_digits].
  pose proof (sha256_hex_length (id +:+ ":terminal")). by destruct (sha256_hex _).
Qed.

Section facts.
  Context `{Conversions} (s : Server).

Lemma attempt_class_valid lease r : ErrorClass_Valid (attempt_class lease r) = true.
Proof. unfold attempt_class. repeat case_if_goal; first [apply http_class_valid | reflexivity]. Qed.

Lemma attempt_class_ok lease r :
  attempt_class lease r = ErrorOK ↔
  cl_network r = false ∧ cl_status r < 400 ∧ integrity_failover lease r = false.
Proof.
  unfold attempt_class. pose proof (classify_not_ok (cl_status r) (default ""%string (cl_body r)) (cl_reset r)).
  destruct (cl_network r); [split; [discriminate|by intros [? _]]|].
  destruct (Z.leb_spec 400 (cl_status r)) as [Hle|Hlt].
  - split; [|lia]. case_if_goal; [discriminate|congruence].
  - destruct (integrity_failover lease r); [split; [discriminate|by intros (_&_&?)]|done].
Qed.

(** ** The pieces of an attempt *)

Lemma must_prepare provider profile model payload Q σ :
  (∀ p σ', quiet σ σ' → mo_open σ' = mo_open σ → Q p σ') →
  must (prepareProviderPayload provider profile model payload) Q σ.
Proof.
  intros HQ. unfold prepareProviderPayload. repeat case_if_goal; try by apply must_ret, HQ.
  all: apply must_bind, must_new_id; intros id _ _; apply must_ret, HQ; auto with gw.
Qed.

Lemma must_provider_headers provider payload h Q σ :
  (∀ h' σ', quiet σ σ' → mo_open σ' = mo_open σ → Q h' σ') →
  must (applyProviderRequestHeaders provider payload h) Q σ.
Proof.
  intros HQ. unfold applyProviderRequestHeaders. cbv zeta.
  repeat case_if_goal; try by apply must_ret, HQ.
  all: apply must_bind, must_new_id; intros id _ _; apply must_ret, HQ; auto with gw.
Qed.

Lemma must_upstream_headers lease protocol payload Q σ :
  (∀ h σ', quiet σ σ' → mo_open σ' = mo_open σ → Q h σ') →
  must (upstream_headers s lease protocol payload) Q σ.
Proof.
  intros HQ. unfold upstream_headers. cbv zeta. apply must_bind, must_provider_headers.
  intros h σ' Hq Ho. by apply must_ret, HQ.
Qed.

Lemma must_do lease request started Q σ :
  mo_open σ = Some (started, false) → as_AccountID started = ls_AccountID lease →
  (∀ r, match r with Some response => 0 <= ur_status response | None => True end →
        Q r (with_open (Some (started, true)) σ)) →
  must (perform (DoE lease request)) Q σ.
Proof.
  intros Ho Hacc HQ. apply must_perform; [by exists started|]. intros r Hr. cbn [next gw_monitor gw_next]. rewrite Ho. by apply HQ.
Qed.

(** A call that did not fail comes with a body. *)
Record call_ok (called : bool) (r : call_result) : Prop := {
  co_status : 0 <= cl_status r;
  co_served : cl_network r = false → cl_status r < 400 →
              called = true ∧ is_Some (cl_body r) ∧ cl_err r = None
}.

Lemma call_failed_ok called status usage_ reset e : 400 <= status → call_ok called (call_failed status usage_ reset e).
Proof. intros Hs. constructor; cbn; lia. Qed.
Lemma call_network_ok called status : 0 <= status → call_ok called (call_network status).
Proof. intros Hs. by constructor. Qed.

Lemma read_response_ok lease request upstream inbound response body now :
  0 <= ur_status response →
  call_ok true (read_response s lease request upstream inbound response body now).
Proof.
  intros Hs. unfold read_response. cbv zeta.
  destruct (Z.leb_spec 400 (ur_status response)); [constructor; cbn; lia|].
  destruct (normalizeProviderResponse _ _ _); [|apply call_failed_ok; lia].
  case_if_goal; [by constructor|].
  destruct (converted _); [by constructor|apply call_failed_ok; lia].
Qed.

(** [callUpstream] calls the upstream at most once and does nothing else. *)
Lemma must_callUpstream lease request inbound started Q σ :
  mo_open σ = Some (started, false) → as_AccountID started = ls_AccountID lease →
  (∀ r σ' called, quiet σ σ' → mo_open σ' = Some (started, called) → call_ok called r → Q r σ') →
  must (callUpstream s lease request inbound) Q σ.
Proof.
  intros Ho Hacc HQ.
  assert (∀ status u reset e σ', 400 <= status → quiet σ σ' → mo_open σ' = mo_open σ →
    must (mret (call_failed status u reset e)) Q σ') as Hfail.
  { intros * ? ? Ho'. apply must_ret, (HQ _ _ false); [done|congruence|]. by apply call_failed_ok. }
  unfold callUpstream.
  destruct (selectedProtocol _ _) as [upstream|]; [|by apply Hfail].
  destruct (if bool_decide _ then _ else _) as [payload'|]; [|by apply Hfail].
  apply must_bind, must_prepare. intros prepared σ1 Hq1 Ho1.
  destruct prepared as [payload2|]; [|by apply Hfail].
  destruct (inference_path _ _) as [path|]; [|by apply Hfail].
  cbv zeta. destruct (negb (request_ok _)); [by apply Hfail|].
  apply must_bind, must_upstream_headers. intros h σ2 Hq2 Ho2.
  assert (quiet σ σ2) as Hq by by transitivity σ1.
  assert (mo_open σ2 = Some (started, false)) as Ho3 by congruence.
  destruct (negb (transport_ok _)); [by apply must_ret, (HQ _ _ false), call_network_ok|].
  apply must_bind, (must_do _ _ started); [done|done|]. intros response Hr.
  assert (quiet σ (with_open (Some (started, true)) σ2)) as Hq3 by (transitivity σ2; auto with gw).
  destruct response as [response|]; [|by apply must_ret, (HQ _ _ true), call_network_ok].
  destruct (ur_body response) as [body|]; [|by apply must_ret, (HQ _ _ true), call_network_ok].
  apply must_bind, must_now. intros now _ Hnow. apply must_ret, (HQ _ _ true); [|done|by apply read_response_ok].
  etransitivity; [done|]. by apply quiet_clock.
Qed.
(** ** The events of an attempt *)

(** The attempt_started event of a request, as its handler fills it in. *)
Record start_made (requestID tenantID model : string) (started : AttemptStarted) : Prop := {
  sm_version : as_SchemaVersion started = SchemaVersion;
  sm_request : as_RequestID started = requestID;
  sm_tenant : as_TenantID started = tenantID;
  sm_model : as_Model started = model;
  sm_producer : as_ProducerID started = sv_ProducerID s;
  sm_ids : existsb blank [as_EventID started; as_AttemptID started; as_AccountID started] = false;
  sm_number : 0 < as_AttemptNo started;
  sm_occurred : 0 < as_OccurredAt started;
  sm_deadline : as_DeadlineAt started = as_OccurredAt started + deadline_of s
}.

(** The request knows of it: its id was drawn, its account leased. *)
Record known (σ : monitor) (started : AttemptStarted) : Prop := {
  kn_id : as_AttemptID started ∈ mo_ids σ;
  kn_account : as_AccountID started ∈ leased σ;
  kn_time : as_OccurredAt started <= mo_clock σ
}.

Lemma known_frame σ σ' started :
  mo_ids σ ⊆ mo_ids σ' → mo_leases σ' = mo_leases σ → mo_clock σ <= mo_clock σ' →
  known σ started → known σ' started.
Proof. intros ? Hl ? []. constructor; [set_solver| |lia]. unfold leased in *. by rewrite Hl. Qed.

Lemma known_quiet σ σ' started : quiet σ σ' → known σ started → known σ' started.
Proof. intros []. by apply known_frame. Qed.

Record attempt_made (requestID tenantID model : string) (a : attempt) : Prop := {
  am_start : start_made requestID tenantID model (at_started a);
  am_release : releases (at_started a) (at_release a);
  am_class : ErrorClass_Valid (rel_ErrorClass (at_release a)) = true;
  am_source : rel_UsageSource (at_release a) ∈ [UsageSourceUpstream; UsageSourceEstimated; UsageSourceMissing]
}.

(** What every state of a request satisfies. *)
Record request_ok_at (requestID tenantID model : string) (σ : monitor) : Prop := {
  ro_made : Forall (attempt_made requestID tenantID model) (mo_closed σ);
  ro_known : Forall (λ a, known σ (at_started a)) (mo_closed σ);
  ro_leases : Forall (λ lease, blank (ls_AccountID lease) = false) (mo_leases σ)
}.

Lemma request_ok_quiet requestID tenantID model σ σ' :
  quiet σ σ' → request_ok_at requestID tenantID model σ → request_ok_at requestID tenantID model σ'.
Proof.
  intros Hq [Hm Hk Hl]. constructor; rewrite ?(qt_closed _ _ Hq), ?(qt_leases _ _ Hq); [done| |done].
  eapply list.Forall_impl; [done|]. intros a. by apply known_quiet.
Qed.

Lemma leased_head σ lease :
  list.head (mo_leases σ) = Some lease → ls_AccountID lease ∈ leased σ.
Proof. unfold leased. destruct (mo_leases σ); [done|]. intros [= ->]. cbn. set_solver. Qed.

Section attempt.
  Context (requestID tenantID model : string).

Lemma must_open_attempt attemptNo lease Q σ :
  mo_open σ = None → length (mo_held σ) = 2%nat → list.head (mo_leases σ) = Some lease →
  attemptNo = Z.of_nat (S (length (mo_closed σ))) →
  request_ok_at requestID tenantID model σ →
  Forall (λ a, as_AccountID (at_started a) ≠ ls_AccountID lease) (mo_closed σ) →
  (∀ attemptID startedAt added σ', quiet σ σ' →
     match added with
     | Added => ∃ started, mo_open σ' = Some (started, false) ∧ start_made requestID tenantID model started
         ∧ known σ' started ∧ as_AccountID started = ls_AccountID lease
         ∧ ∃ startID, started = attempt_started s startID requestID attemptID tenantID model attemptNo lease startedAt
     | _ => mo_open σ' = None
     end → Q (attemptID, startedAt, added) σ') →
  must (open_attempt s requestID tenantID model attemptNo lease) Q σ.
Proof.
  intros Ho Hh Hlease Hno Hok Hacc HQ. unfold open_attempt.
  apply must_bind, must_new_id. intros attemptID Hfresh Hb1.
  apply must_bind, must_now. intros startedAt Hpos Hclock.
  apply must_bind, must_new_id. intros startID Hfresh2 Hb2.
  set (σ1 := with_ids _ _). assert (quiet σ σ1) as Hq.
  { etransitivity; [apply (quiet_ids attemptID)|]. etransitivity; [by apply (quiet_clock startedAt)|]. apply quiet_ids. }
  set (started := attempt_started _ _ _ _ _ _ _ _ _).
  pose proof (ro_leases _ _ _ _ Hok) as Hbl.
  assert (blank (ls_AccountID lease) = false) as Hb3.
  { destruct (mo_leases σ) as [|l ls]; [done|]. injection Hlease as ->. exact (Forall_inv Hbl). }
  apply must_bind, must_perform.
  { cbn. split_and!; [done|done|by rewrite Hlease|done|].
    apply list.Forall_forall. intros a Ha.
    pose proof (proj1 (list.Forall_forall _ _) (ro_known _ _ _ _ Hok) a Ha) as [Hid _ _].
    pose proof (proj1 (list.Forall_forall _ _) Hacc a Ha) as Hne. cbn in Hne.
    split; [|done]. intros Heq. apply Hfresh. by rewrite <-Heq. }
  intros added _. apply must_ret, HQ.
  { destruct added; cbn; [|done..]. etransitivity; [done|auto with gw]. }
  destruct added; [|done..]. exists started. split_and!; [done| | |done|by exists startID].
  - constructor; try done; [|subst started; cbn [as_AttemptNo attempt_started]; lia].
    subst started. cbn [existsb as_EventID as_AttemptID as_AccountID attempt_started].
    by rewrite Hb1, Hb2, Hb3.
  - constructor;
      [cbn; set_solver|by apply leased_head|cbn; lia].
Qed.

(** The new state after [release] closed the open attempt. *)
Lemma must_write_release attemptID attemptNo lease inbound startID startedAt status class parsedUsage partial called Q σ :
  let started := attempt_started s startID requestID attemptID tenantID model attemptNo lease startedAt in
  mo_open σ = Some (started, called) → start_made requestID tenantID model started → known σ started →
  request_ok_at requestID tenantID model σ → 0 <= status → ErrorClass_Valid class = true →
  (∀ a σ', mo_held σ' = mo_held σ → mo_leases σ' = mo_leases σ → mo_open σ' = None →
     mo_closed σ' = a :: mo_closed σ → request_ok_at requestID tenantID model σ' →
     at_started a = started → rel_ErrorClass (at_release a) = class →
     rel_UsageSource (at_release a) = match parsedUsage with Some _ => UsageSourceUpstream | None => UsageSourceMissing end →
     rel_StatusCode (at_release a) = status →
     Q (at_persisted a) σ') →
  must (write_release s requestID attemptID tenantID model attemptNo lease inbound startedAt status class
        parsedUsage partial) Q σ.
Proof.
  intros started Ho Hmade Hkn Hok Hst Hclass HQ. unfold write_release.
  apply must_bind, must_now. intros at_ Hpos Hclock.
  apply must_bind, must_now. intros now Hpos' Hclock'. cbn in Hclock'.
  set (release := release_event _ _ _ _ _ _ _ _ _ _ _ _ _ _ _).
  assert (releases started release) as Hrel.
  { pose proof (kn_time _ _ Hkn) as Ht. cbn in Ht. constructor; try done.
    - cbn. lia.
    - cbn. apply Z.quot_pos; [|lia]. unfold time_sub, clamp64, min_int64, max_int64. lia. }
  apply must_perform; [by exists started, called|]. intros ok _. cbn [next gw_monitor gw_next]. cbn [mo_open with_clock].
  rewrite Ho. apply (HQ (Attempt started release ok)); try done.
  assert (quiet σ (with_clock now (with_clock at_ σ))) as Hq.
  { etransitivity; [by apply quiet_clock|]. by apply quiet_clock. }
  pose proof (request_ok_quiet _ _ _ _ _ Hq Hok) as [Hm Hk Hl].
  constructor; [|apply list.Forall_cons; split|done].
  - constructor; [|done]. constructor; [done|done|done|]. cbn. destruct parsedUsage; set_solver.
  - apply (known_frame (with_clock now (with_clock at_ σ))); [done|done|cbn; lia|]. by apply (known_quiet _ _ _ Hq).
  - eapply list.Forall_impl; [exact Hk|]. intros a. apply known_frame; [done|done|cbn; lia].
Qed.
End attempt.
(** ** The attempts of a request *)

(** The attempt's release is on the stream and says that it succeeded. *)
Definition succeeded_on_record (a : attempt) : bool :=
  at_persisted a && bool_decide (rel_ErrorClass (at_release a) = ErrorOK).

(** The answer agrees with what went on record. *)
Record settled_answer (a : answer) (closed : list attempt) : Prop := {
  sa_served : an_status a = 200 → is_Some (an_body a) ∧ an_err a = None ∧
    ∃ t rest, closed = t :: rest ∧ succeeded_on_record t = true ∧ 0 <= rel_StatusCode (at_release t) < 400;
  sa_refused : an_status a ≠ 200 → an_body a = None ∧ is_Some (an_err a) ∧
    Forall (λ t, succeeded_on_record t = false) closed;
  sa_earlier : Forall (λ t, rel_ErrorClass (at_release t) ≠ ErrorOK) (tail closed)
}.

Definition attempt_failed (a : attempt) : Prop := at_persisted a = true ∧ rel_ErrorClass (at_release a) ≠ ErrorOK.

Lemma attempt_failed_not_ok l : Forall attempt_failed l → Forall (λ t, rel_ErrorClass (at_release t) ≠ ErrorOK) l.
Proof. intros Hl. eapply list.Forall_impl; [exact Hl|]. by intros a []. Qed.

Lemma attempt_failed_not_succeeded l : Forall attempt_failed l → Forall (λ t, succeeded_on_record t = false) l.
Proof.
  intros Hl. eapply list.Forall_impl; [exact Hl|]. intros a [_ Ha]. unfold succeeded_on_record.
  by rewrite (bool_decide_eq_false_2 _ Ha), andb_false_r.
Qed.

Lemma filter_none {A} (P : A → Prop) `{∀ x, Decision (P x)} l : Forall (λ x, ¬ P x) l → filter P l = [].
Proof. induction 1 as [|x l Hx _ IH]; [done|]. by rewrite filter_cons, decide_False. Qed.

Lemma Forall_tail {A} (P : A → Prop) l : Forall P l → Forall P (tail l).
Proof. by intros []. Qed.

(** Refusing after failed attempts is always in order. *)
Lemma refused_settled status e closed :
  Forall attempt_failed closed → status ≠ 200 → is_Some e → settled_answer (Answer None status e) closed.
Proof.
  intros Hf Hs He. constructor; cbn; [done| |by apply attempt_failed_not_ok, Forall_tail].
  intros _. split_and!; [done|done|]. by apply attempt_failed_not_succeeded.
Qed.

(** ... and so it is when the last release did not get through, or failed. *)
Lemma refused_settled_last status e a closed :
  Forall attempt_failed closed → status ≠ 200 → is_Some e → at_persisted a = false ∨ rel_ErrorClass (at_release a) ≠ ErrorOK →
  settled_answer (Answer None status e) (a :: closed).
Proof.
  intros Hf Hs He Ha. constructor; cbn; [done| |by apply attempt_failed_not_ok].
  intros _. split_and!; [done|done|]. apply list.Forall_cons. split; [|by apply attempt_failed_not_succeeded].
  unfold succeeded_on_record. destruct Ha as [->|Ha]; [done|].
  by rewrite (bool_decide_eq_false_2 _ Ha), andb_false_r.
Qed.

(** Between two attempts. *)
Record between (requestID tenantID model : string) (slot : handle) (σ : monitor) : Prop := {
  bt_held : mo_held σ = [slot];
  bt_open : mo_open σ = None;
  bt_ok : request_ok_at requestID tenantID model σ;
  bt_failed : Forall attempt_failed (mo_closed σ)
}.

Record finished (requestID tenantID model : string) (slot : handle) (a : answer) (σ : monitor) : Prop := {
  fi_held : mo_held σ = [slot];
  fi_open : mo_open σ = None;
  fi_ok : request_ok_at requestID tenantID model σ;
  fi_settled : settled_answer a (mo_closed σ)
}.

(** What the [n]th turn of the loop leaves. *)
Definition turned (requestID tenantID model : string) (slot : handle) (n : nat) (r : attempt_result) (σ : monitor) : Prop :=
  match r with
  | Retry status _ => n = 1%nat ∧ 400 <= status ∧ between requestID tenantID model slot σ ∧ length (mo_closed σ) = n
  | Done a => finished requestID tenantID model slot a σ ∧ (length (mo_closed σ) <= n)%nat
  end.
Lemma must_release h rest Q σ :
  mo_held σ = h :: rest → mo_open σ = None →
  (∀ σ', σ' = with_held rest σ → Q tt σ') → must (perform (ReleaseE h)) Q σ.
Proof.
  intros Hh Ho HQ. apply must_perform; cbn; rewrite Hh; [done|]. intros [] _. by apply HQ.
Qed.

Lemma must_mark lease model class reset a rest Q σ :
  mo_open σ = None → mo_closed σ = a :: rest → at_persisted a = true →
  as_AccountID (at_started a) = ls_AccountID lease → as_Model (at_started a) = model →
  rel_ErrorClass (at_release a) ≠ ErrorOK → class ≠ ErrorOK → Q tt σ →
  must (markTransportOrAccount lease model class reset) Q σ.
Proof.
  intros Ho Hc Hp Hacc Hm Hne Hne' HQ. unfold markTransportOrAccount. case_if_goal.
  - apply must_bind, must_perform; [|by intros ? _; apply must_ret].
    split; [done|]. by exists a, rest.
  - apply must_perform; [|by intros [] _]. split; [done|]. by exists a, rest.
Qed.

Lemma request_ok_held requestID tenantID model held σ :
  request_ok_at requestID tenantID model σ → request_ok_at requestID tenantID model (with_held held σ).
Proof.
  intros [Hm Hk Hl]. constructor; [done| |done]. eapply list.Forall_impl; [exact Hk|].
  intros a. by apply known_frame.
Qed.

(** An account's slot is taken, and the attempt is about to start. *)
Record ready (requestID tenantID model : string) (slot slot' : handle) (lease : Lease) (σ : monitor) : Prop := {
  rd_held : mo_held σ = [slot'; slot];
  rd_open : mo_open σ = None;
  rd_lease : list.head (mo_leases σ) = Some lease;
  rd_ok : request_ok_at requestID tenantID model σ;
  rd_failed : Forall attempt_failed (mo_closed σ);
  rd_fresh : Forall (λ a, as_AccountID (at_started a) ≠ ls_AccountID lease) (mo_closed σ)
}.

(** The attempt's release was handed over: [a] is the newest closed attempt. *)
Lemma must_conclude requestID tenantID request attemptNo lease slot slot' called r a rest Q σ :
  mo_held σ = [slot'; slot] → mo_open σ = None → mo_closed σ = a :: rest → Forall attempt_failed rest →
  attemptNo = Z.of_nat (length (mo_closed σ)) → call_ok called r →
  request_ok_at requestID tenantID (Model request) σ →
  as_AccountID (at_started a) = ls_AccountID lease → as_Model (at_started a) = Model request →
  rel_ErrorClass (at_release a) = attempt_class lease r → rel_StatusCode (at_release a) = cl_status r →
  (∀ res σ', turned requestID tenantID (Model request) slot (length (mo_closed σ)) res σ' →
     mo_leases σ' = mo_leases σ → Q res σ') →
  must (conclude request attemptNo lease slot' r (at_persisted a)) Q σ.
Proof.
  intros Hheld Ho Hclosed Hf Hno [Hst Hserved] Hok Hacc Hmodel Hclass Hstatus HQ. unfold conclude.
  apply must_bind, (must_release _ [slot]); [done|done|]. intros σ1 Hσ1.
  pose proof (request_ok_held _ _ _ [slot] _ Hok) as Hok1. rewrite <-Hσ1 in Hok1.
  assert (mo_held σ1 = [slot] ∧ mo_open σ1 = None ∧ mo_leases σ1 = mo_leases σ ∧ mo_closed σ1 = a :: rest)
    as (Hh1 & Ho1 & Hl1 & Hc1) by (by subst σ1).
  assert (∀ status e, status ≠ 200 → at_persisted a = false ∨ attempt_class lease r ≠ ErrorOK →
    must (mret (Done (Answer None status (Some e)))) Q σ1) as Hrefuse.
  { intros status e Hne Ha. apply must_ret, HQ; [|done]. split; [|by rewrite Hc1, Hclosed].
    constructor; [done..|]. rewrite Hc1. apply refused_settled_last; [done|done|done|]. by rewrite Hclass. }
  assert (∀ status e, attemptNo < 2 → 400 <= status → at_persisted a = true → attempt_class lease r ≠ ErrorOK →
    must (mret (Retry status e)) Q σ1) as Hretry.
  { intros status e Hlt Hge Hp Ha. apply must_ret, HQ; [|done]. rewrite Hclosed in *. cbn [length] in *.
    destruct rest; [|cbn [length] in *; lia].
    split_and!; [done|done| |by rewrite Hc1]. constructor; [done..|]. rewrite Hc1.
    constructor; [|done]. split; [done|congruence]. }
  destruct (at_persisted a) eqn:Hp; cbn [negb]; [|apply Hrefuse; [done|by left]].
  pose proof (attempt_class_ok lease r) as Hoks.
  destruct (cl_network r) eqn:En; [apply Hrefuse; [done|]; right; rewrite Hoks; by intros []|].
  destruct (Z.leb_spec 400 (cl_status r)) as [Hge|Hlt].
  - assert (attempt_class lease r ≠ ErrorOK) as Hne by (rewrite Hoks; lia).
    apply must_bind, (must_mark _ _ _ _ a rest); try done; [congruence|].
    case_if_goal; [|apply Hrefuse; [lia|by right]].
    apply andb_true_iff in Heqb as [_ Hlt%Z.ltb_lt]. by apply Hretry.
  - destruct (integrity_failover lease r) eqn:Ei.
    + assert (attempt_class lease r ≠ ErrorOK) as Hne by (rewrite Hoks; by intros (_&_&?)).
      destruct (Z.ltb_spec attemptNo 2); [by apply Hretry|apply Hrefuse; [done|by right]].
    + apply must_ret, HQ; [|done]. split; [|by rewrite Hc1, Hclosed]. constructor; [done..|]. rewrite Hc1.
      assert (attempt_class lease r = ErrorOK) as Heq by by apply Hoks.
      destruct (Hserved eq_refl Hlt) as (_ & Hb & _).
      constructor; cbn [an_status an_body an_err tail]; [|done|by apply attempt_failed_not_ok].
      intros _. split_and!; [done|done|]. exists a, rest. split; [done|]. unfold succeeded_on_record.
      rewrite Hp, Hclass, Hstatus, Heq. split; [done|lia].
Qed.

Lemma must_attempt_body requestID tenantID request inbound attemptNo lease slot slot' Q σ :
  ready requestID tenantID (Model request) slot slot' lease σ →
  attemptNo = Z.of_nat (S (length (mo_closed σ))) →
  (∀ r σ', turned requestID tenantID (Model request) slot (S (length (mo_closed σ))) r σ' → mo_leases σ' = mo_leases σ →
     Q r σ') →
  must (attempt_body s requestID tenantID request inbound attemptNo lease slot') Q σ.
Proof.
  intros [Hheld Ho Hlease Hok Hf Hfresh] Hno HQ. unfold attempt_body.
  apply must_bind, must_open_attempt; [done|by rewrite Hheld|done|done|done|done|].
  intros attemptID startedAt added σ1 Hq1 Hadded. cbv beta iota.
  pose proof (request_ok_quiet _ _ _ _ _ Hq1 Hok) as Hok1.
  assert (mo_held σ1 = [slot'; slot]) as Hheld1 by (by rewrite (qt_held _ _ Hq1)).
  assert (∀ status e, mo_open σ1 = None → status ≠ 200 →
    must (_ ← perform (ReleaseE slot'); mret (Done (refuse status e))) Q σ1) as Habort.
  { intros status e Ho1 Hne. apply must_bind, (must_release _ [slot]); [done|done|]. intros ? ->.
    apply must_ret, HQ; [|by apply Hq1]. split; [constructor; [done|done|by apply request_ok_held|]|];
      cbn [mo_closed with_held]; rewrite (qt_closed _ _ Hq1); [by apply refused_settled|lia]. }
  destruct added; [|by apply Habort|by apply Habort].
  destruct Hadded as (started & Ho1 & Hmade & Hkn & Hacc & startID & ->).
  apply must_bind, (must_callUpstream _ _ _ _ _ _ Ho1 Hacc). intros r σ2 called Hq2 Ho2 [Hst Hserved].
  apply must_bind, (must_write_release requestID tenantID (Model request) _ _ _ _ startID _ _ _ _ _ called);
    [done|done|by apply (known_quiet _ _ _ Hq2)|by apply (request_ok_quiet _ _ _ _ _ Hq2)|done|apply attempt_class_valid|].
  intros a σ3 Hheld3 Hleases3 Ho3 Hclosed3 Hok3 Hstart Hclass _ Hstatus.
  rewrite (qt_closed _ _ Hq2), (qt_closed _ _ Hq1) in Hclosed3.
  rewrite (qt_held _ _ Hq2), Hheld1 in Hheld3. rewrite (qt_leases _ _ Hq2), (qt_leases _ _ Hq1) in Hleases3.
  apply (must_conclude requestID tenantID _ _ _ slot _ called _ _ _ _ _ Hheld3 Ho3 Hclosed3);
    rewrite ?Hclosed3, ?Hstart; try done.
  intros res σ4 Ht Hl. apply HQ; [done|congruence].
Qed.
Lemma must_pin tenantID sessionKey lease Q σ :
  list.head (mo_leases σ) = Some lease → Q tt σ → must (pinSession tenantID sessionKey lease) Q σ.
Proof.
  intros Hl HQ. unfold pinSession. case_if_goal; [by apply must_ret|].
  apply must_perform; [cbn; by rewrite Hl|]. by intros [] _.
Qed.

Lemma must_choose criteria preferred Q σ :
  mo_open σ = None → length (mo_held σ) = 1%nat →
  (∀ e, Q (Err e) σ) →
  (∀ lease, ls_AccountID lease ∉ leased σ → blank (ls_AccountID lease) = false →
     Q (Ok lease) (with_leases (lease :: mo_leases σ) σ)) →
  must (perform (ChooseE criteria preferred (leased σ))) Q σ.
Proof. intros Ho Hh He Hok. apply must_perform; [done|]. intros [lease|e] Ha; [by apply Hok; apply Ha|by apply He]. Qed.

Lemma must_acquire lease Q σ :
  list.head (mo_leases σ) = Some lease → length (mo_held σ) = 1%nat →
  (∀ e, Q (Err e) σ) → (∀ h, Q (Ok h) (with_held (h :: mo_held σ) σ)) →
  must (perform (AcquireE lease)) Q σ.
Proof. intros Hl Hh He Hok. apply must_perform; [done|]. intros [h|e] _; [apply Hok|apply He]. Qed.

(** A new lease leaves the earlier attempts as they were. *)
Lemma request_ok_lease requestID tenantID model lease σ :
  blank (ls_AccountID lease) = false → request_ok_at requestID tenantID model σ →
  request_ok_at requestID tenantID model (with_leases (lease :: mo_leases σ) σ).
Proof.
  intros Hb [Hm Hk Hl]. constructor; [done| |by constructor].
  eapply list.Forall_impl; [exact Hk|]. intros a [Hid Hacc Ht].
  constructor; [done| |done]. unfold leased in *. cbn. set_solver.
Qed.

Lemma must_attempt_turn requestID tenantID sessionKey group pinned request inbound attemptNo attempted lastStatus lastErr slot Q σ :
  between requestID tenantID (Model request) slot σ → attempted = leased σ →
  attemptNo = Z.of_nat (S (length (mo_closed σ))) → lastStatus = 0 ∨ 400 <= lastStatus →
  (∀ r attempted' σ', turned requestID tenantID (Model request) slot (S (length (mo_closed σ))) r σ' →
     (attempted' = leased σ' ∨ ∃ a, r = Done a) → Q (r, attempted') σ') →
  must (attempt_turn s requestID tenantID sessionKey group pinned request inbound attemptNo attempted lastStatus lastErr) Q σ.
Proof.
  intros [Hheld Ho Hok Hf] -> Hno Hlast HQ. unfold attempt_turn. cbv zeta.
  assert (∀ status e att σ', mo_held σ' = [slot] → mo_open σ' = None → mo_closed σ' = mo_closed σ → status ≠ 200 → is_Some e →
    request_ok_at requestID tenantID (Model request) σ' → must (mret (Done (Answer None status e), att)) Q σ') as Hrefuse.
  { intros * Hh' Ho' Hc' Hne He Hok'. apply must_ret, HQ; [|by right; eexists].
    split; [|rewrite Hc'; lia]. constructor; [done..|]. rewrite Hc'. by apply refused_settled. }
  apply must_bind, must_choose; [done|by rewrite Hheld| |].
  - intros e. cbv iota. destruct lastErr; [apply Hrefuse; try done; destruct (Z.eqb_spec lastStatus 0); lia|].
    by destruct e; apply Hrefuse.
  - intros lease Hnew Hb. apply must_bind, must_pin; [done|].
    apply must_bind, must_acquire; [done|by cbn; rewrite Hheld|by intros e; apply Hrefuse, request_ok_lease|].
    intros h. apply must_bind, (must_attempt_body _ _ _ _ _ _ slot); [|done|].
    + constructor; [cbn; by rewrite Hheld|done|done|by apply request_ok_held, request_ok_lease|done|].
      eapply list.Forall_impl; [exact (ro_known _ _ _ _ Hok)|]. intros a [_ Hin _] Heq. apply Hnew. by rewrite <-Heq.
    + intros r σ' Ht Hl. apply must_ret, HQ; [done|]. left. unfold leased. rewrite Hl. cbn. done.
Qed.

Lemma must_attempts requestID tenantID sessionKey group pinned request inbound slot Q σ :
  between requestID tenantID (Model request) slot σ → mo_closed σ = [] → mo_leases σ = [] →
  (∀ a σ', finished requestID tenantID (Model request) slot a σ' → (length (mo_closed σ') <= 2)%nat → Q a σ') →
  must (attempts s [1; 2] requestID tenantID sessionKey group pinned request inbound ∅ 0 None) Q σ.
Proof.
  intros Hb Hc Hl HQ. cbn [attempts].
  apply must_bind, (must_attempt_turn _ _ _ _ _ _ _ _ _ _ _ slot); [done|unfold leased; by rewrite Hl|by rewrite Hc|by left|].
  intros [status e|a] attempted σ1; cbn [turned]; rewrite Hc.
  - intros (_ & Hge & Hb1 & Hlen) [->|[? ?]]; [|done]. cbn [attempts].
    apply must_bind, (must_attempt_turn _ _ _ _ _ _ _ _ _ _ _ slot); [done|done|by rewrite Hlen|by right|].
    rewrite Hlen. intros [status' e'|a] attempted' σ2; cbn [turned]; [by intros [? _]|].
    intros [Hfin Hn] _. by apply must_ret, HQ.
  - intros [Hfin Hn] _. apply must_ret, HQ; [done|]. cbn [length] in Hn. lia.
Qed.
(** ** Streams *)

(** A stream ends without an error exactly when a successful, measured release
    is on record; a successful release without usage is answered as such. *)
Record stream_settled (a : answer) (closed : list attempt) : Prop := {
  ss_one : (length closed <= 1)%nat;
  ss_clean : an_err a = None ↔ ∃ t, closed = [t] ∧ succeeded_on_record t = true
                                  ∧ rel_UsageSource (at_release t) = UsageSourceUpstream;
  ss_failed : Forall (λ t, succeeded_on_record t = true → an_err a = None ∨ an_err a = Some EUsageUnavailable) closed
}.

Record streamed (requestID tenantID model : string) (held : list handle) (a : answer) (σ : monitor) : Prop := {
  sd_held : mo_held σ = held;
  sd_open : mo_open σ = None;
  sd_ok : request_ok_at requestID tenantID model σ;
  sd_settled : stream_settled a (mo_closed σ)
}.

Lemma stream_refused a : is_Some (an_err a) → stream_settled a [].
Proof. intros [e He]. constructor; [cbn; lia| |done]. rewrite He. split; [done|by intros (?&?&_)]. Qed.

Lemma stream_failed a t :
  is_Some (an_err a) → succeeded_on_record t = false → stream_settled a [t].
Proof.
  intros [e He] Ht. constructor; [done| |constructor; [congruence|done]].
  rewrite He. split; [done|]. intros (? & [= <-] & ? & _). congruence.
Qed.

Lemma on_record_no a : at_persisted a = false ∨ rel_ErrorClass (at_release a) ≠ ErrorOK → succeeded_on_record a = false.
Proof. unfold succeeded_on_record. intros [->|Ha]; [done|]. by rewrite (bool_decide_eq_false_2 _ Ha), andb_false_r. Qed.

Section stream.
  Context (requestID tenantID model : string) (inbound : Protocol) (lease : Lease).

(** The attempt is open on the only lease. *)
Record streaming (attemptID : string) (startedAt : time) (called : bool) (σ : monitor) : Prop := {
  sg_closed : mo_closed σ = [];
  sg_ok : request_ok_at requestID tenantID model σ;
  sg_open : ∃ startID, let started := attempt_started s startID requestID attemptID tenantID model 1 lease startedAt in
    mo_open σ = Some (started, called) ∧ start_made requestID tenantID model started ∧ known σ started
}.

Lemma streaming_quiet attemptID startedAt called σ σ' :
  quiet σ σ' → mo_open σ' = mo_open σ → streaming attemptID startedAt called σ → streaming attemptID startedAt called σ'.
Proof.
  intros Hq Ho [Hc Hok (startID & Hst & Hm & Hk)]. constructor.
  - by rewrite (qt_closed _ _ Hq).
  - by apply (request_ok_quiet _ _ _ _ _ Hq).
  - exists startID. split_and!; [congruence|done|by apply (known_quiet _ _ _ Hq)].
Qed.

Lemma must_stream_release attemptID startedAt called status class parsedUsage partial Q σ :
  streaming attemptID startedAt called σ → 0 <= status → ErrorClass_Valid class = true →
  (∀ a σ', mo_held σ' = mo_held σ → mo_open σ' = None → request_ok_at requestID tenantID model σ' →
     mo_closed σ' = [a] → as_AccountID (at_started a) = ls_AccountID lease → as_Model (at_started a) = model →
     rel_ErrorClass (at_release a) = class →
     rel_UsageSource (at_release a) = match parsedUsage with Some _ => UsageSourceUpstream | None => UsageSourceMissing end →
     Q (at_persisted a) σ') →
  must (writeStreamingRelease s requestID attemptID tenantID model lease inbound startedAt status class parsedUsage partial) Q σ.
Proof.
  intros [Hc Hok (startID & Hst & Hm & Hk)] Hs Hv HQ.
  apply (must_write_release requestID tenantID model _ _ _ _ startID _ _ _ _ _ called); try done.
  intros a σ' Hh _ Ho Hcl Hok' Hstart Hclass Hsrc _. rewrite Hc in Hcl. apply HQ; rewrite ?Hstart; done.
Qed.

Lemma must_finish_network attemptID startedAt called status Q σ :
  streaming attemptID startedAt called σ → 0 <= status →
  (∀ a σ', streamed requestID tenantID model (mo_held σ) a σ' → Q a σ') →
  must (finish_network s requestID attemptID tenantID model lease inbound startedAt status) Q σ.
Proof.
  intros Hst Hs HQ. apply must_bind, (must_stream_release _ _ called); [done|done|done|].
  intros a σ' Hh Ho Hok Hc _ _ Hclass _. apply must_ret, HQ. constructor; [done..|]. rewrite Hc.
  apply stream_failed; [by case_if_goal|]. apply on_record_no. right. by rewrite Hclass.
Qed.
(** The release of a stream that was sent to its end, or was cut. *)
Lemma must_stream_end attemptID startedAt class parsedUsage partial a Q σ :
  streaming attemptID startedAt true σ → ErrorClass_Valid class = true →
  (is_Some (an_err a) ∧ class ≠ ErrorOK) ∨
    (class = ErrorOK ∧ an_err a = match parsedUsage with Some _ => None | None => Some EUsageUnavailable end) →
  (∀ a σ', streamed requestID tenantID model (mo_held σ) a σ' → Q a σ') →
  must (persisted ← writeStreamingRelease s requestID attemptID tenantID model lease inbound startedAt 200 class parsedUsage partial;
      mret (if negb persisted then refuse 503 EReleaseFailed else a)) Q σ.
Proof.
  intros Hst Hv Ha HQ. apply must_bind, (must_stream_release _ _ true); [done|done|done|].
  intros t σ' Hh Ho Hok Hc _ _ Hclass Hsrc. apply must_ret, HQ. constructor; [done..|]. rewrite Hc.
  destruct (at_persisted t) eqn:Hp; [|by apply stream_failed; [|apply on_record_no; left]].
  cbn [negb]. destruct Ha as [[He Hne]|[-> He]].
  { apply stream_failed; [done|]. apply on_record_no. right. by rewrite Hclass. }
  assert (succeeded_on_record t = true) as Hrec by (unfold succeeded_on_record; by rewrite Hp, Hclass).
  constructor; [done| |].
  - rewrite He. destruct parsedUsage; split; try done.
    + intros _. by exists t.
    + intros (? & [= <-] & _ & Hup). by rewrite Hsrc in Hup.
  - constructor; [|done]. intros _. rewrite He. destruct parsedUsage; [by left|by right].
Qed.

Lemma must_stream_response attemptID startedAt upstream response Q σ :
  streaming attemptID startedAt true σ → 0 <= ur_status response →
  (∀ a σ', streamed requestID tenantID model (mo_held σ) a σ' → Q a σ') →
  must (stream_response s requestID attemptID tenantID model lease upstream inbound startedAt response) Q σ.
Proof.
  intros Hst Hs HQ. unfold stream_response.
  destruct (Z.leb_spec 400 (ur_status response)) as [Hge|Hlt].
  - destruct (ur_body response) as [body|]; [|by apply (must_finish_network _ _ true)].
    apply must_bind, must_now. intros now _ Hnow. cbv zeta.
    pose proof (classify_not_ok (ur_status response) body) as Hne.
    apply must_bind, (must_stream_release _ _ true); [|done|apply http_class_valid|].
    { by apply (streaming_quiet _ _ _ σ); [apply quiet_clock| |]. }
    intros a σ' Hh Ho Hok Hc Hacc Hmodel Hclass _.
    destruct (at_persisted a) eqn:Hp; cbn [negb].
    2: { apply must_ret, HQ. constructor; [done..|]. rewrite Hc. by apply stream_failed; [|apply on_record_no; left]. }
    apply must_bind, must_now. intros now' _ Hnow'. apply must_bind, must_now. intros now'' _ Hnow''.
    apply must_bind, (must_mark _ _ _ _ a []); try done; [by rewrite Hclass|].
    apply must_ret, HQ. constructor; [done|done| |cbn [mo_closed with_clock]; rewrite Hc].
    + apply (request_ok_quiet _ _ _ σ'); [|done]. etransitivity; [by apply quiet_clock|]. by apply quiet_clock.
    + apply stream_failed; [done|]. apply on_record_no. right. by rewrite Hclass.
  - pose proof (sg_open _ _ _ _ Hst) as (startID & Ho & _ & _).
    apply must_bind, must_perform; [by eexists|]. intros [] _. cbn [next gw_monitor gw_next].
    apply must_bind, must_perform; [by eexists|]. intros d _. cbn [next gw_monitor gw_next].
    destruct (dr_error d) as [unsupported|].
    + apply must_stream_end; [done|by destruct unsupported| |done]. left. by destruct unsupported.
    + apply must_stream_end; [done|done| |done]. right. by destruct (dr_usage d).
Qed.

Lemma must_stream_attempt payload upstream slot slot' Q σ :
  mo_held σ = [slot'; slot] → mo_open σ = None → mo_closed σ = [] → list.head (mo_leases σ) = Some lease →
  request_ok_at requestID tenantID model σ →
  (∀ a σ', streamed requestID tenantID model (mo_held σ) a σ' → Q a σ') →
  must (stream_attempt s requestID tenantID model payload lease upstream inbound) Q σ.
Proof.
  intros Hh Ho Hc Hl Hok HQ. unfold stream_attempt.
  apply must_bind, (must_open_attempt requestID tenantID model);
    [done|by rewrite Hh|done|by rewrite Hc|done|by rewrite Hc|].
  intros attemptID startedAt added σ1 Hq1 Hadded. cbv beta iota.
  pose proof (request_ok_quiet _ _ _ _ _ Hq1 Hok) as Hok1. rewrite <-(qt_held _ _ Hq1) in HQ.
  assert (mo_closed σ1 = []) as Hc1 by (by rewrite (qt_closed _ _ Hq1)).
  assert (∀ status e, mo_open σ1 = None → must (mret (refuse status e)) Q σ1) as Habort.
  { intros status e Ho1. apply must_ret, HQ. constructor; [done..|]. rewrite Hc1. by apply stream_refused. }
  destruct added; [|by apply Habort|by apply Habort].
  destruct Hadded as (started & Ho1 & Hmade & Hkn & Hacc & startID & ->).
  assert (streaming attemptID startedAt false σ1) as Hst by by (constructor; [done|done|]; exists startID).
  cbv zeta. destruct (negb (request_ok _)); [by apply (must_finish_network _ _ false)|].
  apply must_bind, must_upstream_headers. intros h σ2 Hq2 Ho2. rewrite <-(qt_held _ _ Hq2) in HQ.
  pose proof (streaming_quiet _ _ _ _ _ Hq2 Ho2 Hst) as Hst2.
  destruct (negb (transport_ok _)); [by apply (must_finish_network _ _ false)|].
  rewrite Ho1 in Ho2. apply must_bind, (must_do _ _ _ _ _ Ho2 Hacc). intros response Hr.
  assert (streaming attemptID startedAt true
    (with_open (Some (attempt_started s startID requestID attemptID tenantID model 1 lease startedAt, true)) σ2)) as Hst3.
  { destruct Hst2 as [Hc2 Hok2 _]. constructor; [done|by apply (request_ok_quiet _ _ _ σ2); [apply quiet_open|]|].
    exists startID. split_and!; [done|done|]. apply (known_quiet σ1); [|done]. transitivity σ2; [done|apply quiet_open]. }
  destruct response as [response|]; [by apply must_stream_response|by apply (must_finish_network _ _ true)].
Qed.
End stream.

Lemma must_stream_leased requestID tenantID sessionKey group model payload inbound slot Q σ :
  mo_held σ = [slot] → mo_open σ = None → mo_closed σ = [] → mo_leases σ = [] →
  (∀ a σ', streamed requestID tenantID model [slot] a σ' → Q a σ') →
  must (stream_leased s requestID tenantID sessionKey group model payload inbound) Q σ.
Proof.
  intros Hh Ho Hc Hl HQ. unfold stream_leased.
  assert (∀ a σ', is_Some (an_err a) → mo_held σ' = [slot] → mo_open σ' = None → mo_closed σ' = [] →
    request_ok_at requestID tenantID model σ' → must (mret a) Q σ') as Hrefuse.
  { intros a σ' He Hh' Ho' Hc' Hok. apply must_ret, HQ. constructor; [done..|]. rewrite Hc'. by apply stream_refused. }
  assert (request_ok_at requestID tenantID model σ) as Hok by (constructor; rewrite ?Hc, ?Hl; constructor).
  apply must_bind, must_perform; [done|]. intros pinned _. cbn [next gw_monitor gw_next].
  assert (∅ = leased σ) as -> by (unfold leased; by rewrite Hl).
  apply must_bind, must_choose; [done|by rewrite Hh|by intros []; apply Hrefuse|].
  intros lease _ Hb. pose proof (request_ok_lease _ _ _ _ _ Hb Hok) as Hok1.
  apply must_bind, must_pin; [done|].
  destruct (selectedProtocol _ _) as [upstream|]; [|by apply Hrefuse].
  destruct (if bool_decide _ then _ else _) as [payload'|]; [|by apply Hrefuse].
  apply must_bind, must_prepare. intros prepared σ1 Hq1 Ho1.
  pose proof (request_ok_quiet _ _ _ _ _ Hq1 Hok1) as Hok2.
  assert (mo_held σ1 = [slot] ∧ mo_open σ1 = None ∧ mo_closed σ1 = [] ∧ list.head (mo_leases σ1) = Some lease)
    as (Hh1 & Ho1' & Hc1 & Hl1).
  { by rewrite (qt_held _ _ Hq1), Ho1, (qt_closed _ _ Hq1), (qt_leases _ _ Hq1). }
  destruct prepared as [payload2|]; [|by apply Hrefuse].
  apply must_bind, must_acquire; [done|by rewrite Hh1|by intros e; apply Hrefuse|].
  intros slot'. apply must_bind, (must_stream_attempt requestID tenantID model _ _ _ _ slot slot'); try done.
  { cbn. by rewrite Hh1. }
  { by apply request_ok_held. }
  intros a σ2 [Hh2 Ho2 Hok3 Hset]. cbn [mo_held with_held] in Hh2. rewrite Hh1 in Hh2.
  apply must_bind, (must_release _ [slot]); [done|done|]. intros ? ->. apply must_ret, HQ.
  constructor; [done|done|by apply request_ok_held|done].
Qed.
(** ** What control makes of the events *)

Definition nonnegative_usage (r : Release) : bool :=
  (0 <=? rel_TokensIn r) && (0 <=? rel_TokensOut r) && (0 <=? rel_CacheReadTokens r) && (0 <=? rel_CacheWriteTokens r).

Lemma start_valid requestID tenantID model started :
  start_made requestID tenantID model started →
  blank requestID = false → blank tenantID = false → blank (sv_ProducerID s) = false →
  AttemptStarted_Validate started = Ok tt ↔ blank model = false ∧ blank (as_Provider started) = false.
Proof.
  intros [Hv <- <- <- Hp Hids Hno Hocc Hdl] Hr Ht Hpr. unfold AttemptStarted_Validate.
  rewrite Hv. cbn [existsb] in *. apply orb_false_iff in Hids as [-> Hids].
  apply orb_false_iff in Hids as [-> Hids]. apply orb_false_iff in Hids as [-> _].
  rewrite Hp, Hr, Ht, Hpr. cbn [orb negb].
  assert (0 < deadline_of s) as Hd by (unfold deadline_of; destruct (Z.leb_spec (sv_RequestTimeout s) 0); [done|lia]).
  assert (after (as_DeadlineAt started) (as_OccurredAt started) = true) as -> by (apply Z.ltb_lt; lia).
  rewrite (proj2 (Z.leb_gt _ _) Hno). assert (is_zero_time (as_OccurredAt started) = false) as -> by (apply Z.eqb_neq; lia).
  destruct (blank (as_Provider started)), (blank (as_Model started)); cbn; intuition congruence.
Qed.

Lemma release_valid requestID tenantID model a :
  attempt_made requestID tenantID model a →
  blank requestID = false → blank tenantID = false → blank (sv_ProducerID s) = false →
  Release_Validate (at_release a) = Ok tt ↔
  blank model = false ∧ blank (as_Provider (at_started a)) = false ∧ nonnegative_usage (at_release a) = true.
Proof.
  intros [Hm Hrel Hc Hs] Hr Ht Hpr. destruct Hm as [_ <- <- <- Hp Hids Hno Hocc _].
  destruct Hrel as [Hv He Hrq Hat Hn Hpd Hac Hpv Hmd Htn Ho Hl Hst]. unfold Release_Validate.
  rewrite Hv. cbn [existsb] in *. apply orb_false_iff in Hids as [_ Hids].
  apply orb_false_iff in Hids as [Hid Hids]. apply orb_false_iff in Hids as [Hacc _].
  assert (blank (rel_EventID (at_release a)) = false) as -> by (rewrite He; apply terminal_id_not_blank).
  rewrite Hrq, Hat, Hpd, Hac, Hpv, Hmd, Htn, Hr, Hid, Hp, Hpr, Hacc, Ht, Hc, He, bool_decide_eq_true_2 by done.
  rewrite (bool_decide_eq_true_2 _ Hs). cbn [orb negb].
  rewrite (proj2 (Z.ltb_ge _ _)) by lia.
  assert (is_zero_time (rel_OccurredAt (at_release a)) = false) as -> by (apply Z.eqb_neq; lia).
  rewrite (proj2 (Z.ltb_ge _ _) Hst), (proj2 (Z.ltb_ge _ _) Hl). unfold nonnegative_usage.
  rewrite !Z.ltb_antisym.
  destruct (blank (as_Provider _)), (blank (as_Model _)), (0 <=? rel_TokensIn _), (0 <=? rel_TokensOut _),
    (0 <=? rel_CacheReadTokens _), (0 <=? rel_CacheWriteTokens _); cbn; intuition congruence.
Qed.

(** ** The handlers *)

(** The answer agrees with the record: without an error there is a successful
    release, the newest, and no other; a stream that ended well but reported no
    usage is the one success answered with an error. *)
Record agrees (a : answer) (closed : list attempt) : Prop := {
  ag_clean : an_err a = None → ∃ t rest, closed = t :: rest ∧ succeeded_on_record t = true;
  ag_success : Forall (λ t, succeeded_on_record t = true → rel_UsageSource (at_release t) = UsageSourceUpstream →
                            an_err a = None) closed;
  ag_once : Forall (λ t, succeeded_on_record t = false) (tail closed)
}.

Lemma agrees_settled a closed : settled_answer a closed → agrees a closed.
Proof.
  intros [Hs Hr He]. destruct (decide (an_status a = 200)) as [H200|Hne].
  - destruct (Hs H200) as (_ & Herr & t & rest & -> & Ht & _). constructor.
    + intros _. by exists t, rest.
    + by apply list.Forall_forall.
    + eapply list.Forall_impl; [exact He|]. intros u Hu. apply on_record_no. by right.
  - destruct (Hr Hne) as (_ & [e Herr] & Hf). constructor.
    + by rewrite Herr.
    + eapply list.Forall_impl; [exact Hf|]. intros u Hu. cbn in Hu. congruence.
    + by apply Forall_tail.
Qed.

Lemma agrees_stream a closed : stream_settled a closed → agrees a closed.
Proof.
  intros [Hone Hclean _]. constructor.
  - intros Ha%Hclean. destruct Ha as (t & -> & Ht & _). by exists t, [].
  - apply list.Forall_forall. intros t Ht Hrec Hsrc. apply Hclean. exists t.
    destruct closed as [|u [|]]; [by inv Ht| |cbn in Hone; lia].
    apply list.list_elem_of_singleton in Ht as ->. done.
  - destruct closed as [|u [|]]; [done|done|cbn in Hone; lia].
Qed.

Lemma agrees_refused status e : agrees (refuse status e) [].
Proof. by constructor. Qed.

(** What is left of a request when its handler returns. *)
Record handled (tenantID : string) (a : answer) (σ : monitor) : Prop := {
  hd_held : mo_held σ = [];
  hd_open : mo_open σ = None;
  hd_budget : (length (mo_closed σ) <= 2)%nat;
  hd_made : ∃ requestID model, blank requestID = false ∧ Forall (attempt_made requestID tenantID model) (mo_closed σ);
  hd_agrees : agrees a (mo_closed σ)
}.

Lemma handled_refused tenantID status e σ :
  mo_held σ = [] → mo_open σ = None → mo_closed σ = [] → handled tenantID (refuse status e) σ.
Proof.
  intros Hh Ho Hc. constructor; rewrite ?Hc; [done|done|cbn; lia|by exists "r"%string, ""%string|apply agrees_refused].
Qed.

(** The tenant's slot is asked for once the snapshot is fresh and the request has an id. *)
Lemma must_admission tenantID limits (body : handle → string → gw answer) Q :
  (∀ status e σ, mo_held σ = [] → mo_open σ = None → mo_closed σ = [] → Q (refuse status e) σ) →
  (∀ slot requestID σ, blank requestID = false → mo_held σ = [slot] → mo_open σ = None → mo_closed σ = [] → mo_leases σ = [] →
     must (body slot requestID) Q σ) →
  must (fresh ← perform SnapshotFresh;
      if negb fresh then mret (refuse 503 EServerSnapshotStale)
      else requestID ← perform (NewID "req");
           tenant ← perform (AcquireTenantE tenantID limits);
           match tenant with
           | Err e => mret (refuse 429 (ELimited e))
           | Ok slot => body slot requestID
           end) Q monitor0.
Proof.
  intros Hrefuse Hbody. apply must_bind, must_perform; [done|]. intros fresh _.
  destruct fresh; [|by apply Hrefuse]. apply must_bind, must_new_id. intros requestID _ Hb.
  apply must_bind, must_perform; [done|]. intros [slot|e] _; [by apply Hbody|by apply Hrefuse].
Qed.

Lemma must_handleNonStreaming auth tenantID group request inbound Q :
  (∀ a σ, handled tenantID a σ → Q a σ) →
  must (handleNonStreaming s auth tenantID group request inbound) Q monitor0.
Proof.
  intros HQ. unfold handleNonStreaming.
  destruct (String.eqb tenantID ""); [by apply must_ret, HQ, handled_refused|].
  destruct (String.eqb (Model request) ""); [by apply must_ret, HQ, handled_refused|].
  destruct (_ || _); [by apply must_ret, HQ, handled_refused|].
  apply must_admission; [intros; by apply HQ, handled_refused|].
  intros slot requestID σ Hb Hh Ho Hc Hl.
  apply must_bind, must_perform; [done|]. intros pinned _. cbn [next gw_monitor gw_next].
  apply must_bind, (must_attempts _ _ _ _ _ _ _ slot); [|done|done|].
  { constructor; [done|done| |by rewrite Hc]. constructor; rewrite ?Hc, ?Hl; constructor. }
  intros a σ1 [Hh1 Ho1 [Hmade _ _] Hs] Hn. apply must_bind, (must_release _ []); [done|done|]. intros ? ->.
  apply must_ret, HQ. constructor; [done|done|done|by exists requestID, (Model request)|by apply agrees_settled].
Qed.

Lemma must_handleProtocolStreaming auth tenantID group payload inbound model Q :
  (∀ a σ, handled tenantID a σ → Q a σ) →
  must (handleProtocolStreaming s auth tenantID group payload inbound model) Q monitor0.
Proof.
  intros HQ. unfold handleProtocolStreaming.
  destruct (String.eqb tenantID ""); [by apply must_ret, HQ, handled_refused|].
  destruct (blank model); [by apply must_ret, HQ, handled_refused|].
  destruct (streamingBodyHasTools payload); [by apply must_ret, HQ, handled_refused|].
  apply must_admission; [intros; by apply HQ, handled_refused|].
  intros slot requestID σ Hb Hh Ho Hc Hl.
  apply must_bind, (must_stream_leased _ _ _ _ model _ _ slot); [done|done|done|done|].
  intros a σ1 [Hh1 Ho1 [Hmade _ _] Hs]. apply must_bind, (must_release _ []); [done|done|]. intros ? ->.
  apply must_ret, HQ. constructor; [done|done| | |by apply agrees_stream].
  - cbn [mo_closed with_held]. pose proof (ss_one _ _ Hs). lia.
  - by exists requestID, model.
Qed.
End facts.
