(* ===== verification/Gateway.v ===== *)
(** * A gateway's HTTP surface

    internal/gateway/run.go: authentication, the billing block and the session
    key in front of the three inference endpoints, and what holds of every
    request from its first byte to its answer: the discipline of its effects,
    the agreement of its answer with the record, the validity of its events. *)

From S2P Require Import Prelude Decimal Money Contracts Chooser ChooserFacts GoTime Db Billing BillingClaims Redis Limiter Snapshot Auth Effects Utf8 GoJson Protokit GoStruct ProtokitContent ProtokitConvert ChatRequest Server ServerFacts.

Open Scope Z_scope.

(** The chooser answers as [answers] expects: never with an excluded account. *)
Lemma AcquirePreferring_answers c now criteria preferred excluded lease :
  chooser_wf c → AcquirePreferring c now criteria preferred excluded = Ok lease → ls_AccountID lease ∉ excluded.
Proof.
  intros Hwf (id & a & Ha & Hj & ->)%acquire_Ok_inv. cbn.
  destruct (wf_account _ Hwf _ _ Ha) as [-> _]. unfold judge in Hj.
  destruct (bool_decide (id ∈ excluded)) eqn:E; [done|]. by apply bool_decide_eq_false in E.
Qed.

(** ** NewRouter *)

(** A body that could not be read, or is over its limit, is [None]. *)
Inductive inference :=
| ChatCompletions (body : string)
| MessagesBody (body : option string)
| ResponsesBody (body : option string).

Section router.
  Context `{Conversions} (s : Server).

(** POST /v1/messages and /v1/responses. *)
Definition body_handler (inbound : Protocol) (auth : auth_context) (tenantID group : string) (body : option string)
    : gw answer :=
  match body with
  | None => mret (refuse 400 EBadBody)
  | Some body =>
      match streamingRequestMetadata body with
      | Some (_, true) => handle_streaming_body s inbound auth tenantID group body
      | _ => handle_converted s inbound auth tenantID group body
      end
  end.

Definition inference_handler (auth : auth_context) (tenantID group : string) (request : inference) : gw answer :=
  match request with
  | ChatCompletions body =>
      match bind_request body with
      | None => mret (refuse 400 EBadBody)
      | Some request =>
          if Stream request then HandleStreaming s auth tenantID group request
          else HandleNonStreaming s auth tenantID group request
      end
  | MessagesBody body => body_handler AnthropicMessages auth tenantID group body
  | ResponsesBody body => body_handler OpenAIResponses auth tenantID group body
  end.

(** The middleware: [headers] are Authorization and x-api-key. *)
Definition authenticated (a : Authenticator) (now : time) (headers : option (string * string)) (session : string)
    (handler : AuthContext → string → gw answer) : gw answer :=
  match AuthenticateRequest a now headers with
  | Err _ => mret (refuse 401 EUnauthorized)
  | Ok auth =>
      if au_BillingBlocked auth then mret (refuse 402 EBillingBlocked)
      else match normalizeSessionKey session with
           | Err _ => mret (refuse 400 EBadSession)
           | Ok sessionKey => handler auth sessionKey
           end
  end.

Definition serve_inference (a : Authenticator) (now : time) (headers : option (string * string)) (session : string)
    (request : inference) : gw answer :=
  authenticated a now headers session (λ auth sessionKey,
    inference_handler {| ax_Limits := au_Limits auth; ax_SessionKey := sessionKey |}
      (au_TenantID auth) (au_Group auth) request).

(** ** Every request *)

Lemma must_body_handler inbound auth tenantID group body Q :
  (∀ a σ, handled s tenantID a σ → Q a σ) →
  must (body_handler inbound auth tenantID group body) Q monitor0.
Proof.
  intros HQ.
  assert (∀ status e, must (mret (refuse status e)) Q monitor0) as Hrefuse by (intros; by apply must_ret, HQ, handled_refused).
  destruct body as [body|]; cbn [body_handler]; [|apply Hrefuse].
  assert (must (handle_converted s inbound auth tenantID group body) Q monitor0) as Hconv.
  { unfold handle_converted. destruct (_ ≫= _); [by apply must_handleNonStreaming|apply Hrefuse]. }
  destruct (streamingRequestMetadata body) as [[model []]|] eqn:E; [|done..].
  unfold handle_streaming_body. rewrite E. cbn [negb].
  case_if_goal; [apply Hrefuse|by apply must_handleProtocolStreaming].
Qed.

Lemma must_inference auth tenantID group request Q :
  (∀ a σ, handled s tenantID a σ → Q a σ) →
  must (inference_handler auth tenantID group request) Q monitor0.
Proof.
  intros HQ.
  assert (∀ status e, must (mret (refuse status e)) Q monitor0) as Hrefuse by (intros; by apply must_ret, HQ, handled_refused).
  destruct request as [body|body|body]; cbn [inference_handler]; [|by apply must_body_handler..].
  destruct (bind_request body) as [request|]; [|apply Hrefuse].
  destruct (Stream request); [|by apply must_handleNonStreaming].
  unfold HandleStreaming. repeat (case_if_goal; [apply Hrefuse|]).
  destruct (marshalStreamingRequest request); [by apply must_handleProtocolStreaming|apply Hrefuse].
Qed.

Lemma must_serve a now headers session request :
  must (serve_inference a now headers session request) (λ ans σ, ∃ tenantID, handled s tenantID ans σ) monitor0.
Proof.
  assert (∀ status e, ∃ tenantID, handled s tenantID (refuse status e) monitor0) as Hrefuse
    by (intros; exists "t"%string; by apply handled_refused).
  unfold serve_inference, authenticated.
  destruct (AuthenticateRequest a now headers) as [auth|]; [|apply Hrefuse].
  destruct (au_BillingBlocked auth); [apply Hrefuse|].
  destruct (normalizeSessionKey session); [|apply Hrefuse].
  apply must_inference. intros ans σ Hh. by eexists.
Qed.

(** The tenant a request is served for. *)
Definition admitted (a : Authenticator) (now : time) (headers : option (string * string)) : option AuthContext :=
  match AuthenticateRequest a now headers with
  | Ok auth => if au_BillingBlocked auth then None else Some auth
  | Err _ => None
  end.

(** C7 A request keeps the gateway's discipline whatever the limiter, the
    chooser, the stream and the upstream answer, on all three endpoints,
    streaming or not.  Every slot taken is returned, newest first; the upstream
    is only called inside an attempt that is on the stream, once; each of the
    at most two attempts gets exactly one release carrying its identity before
    anything else is tried, on a different account under the next number; only
    the account that failed is marked.  A request without a token, or of a
    tenant that is blocked, touches nothing at all. *)
Theorem requests_are_disciplined a now headers session request tr ans :
  runs (serve_inference a now headers session request) tr ans → fair tr monitor0 →
  disciplined tr monitor0
  ∧ mo_held (watch tr monitor0) = [] ∧ mo_open (watch tr monitor0) = None
  ∧ (length (mo_closed (watch tr monitor0)) <= 2)%nat
  ∧ (admitted a now headers = None → tr = []).
Proof.
  intros Hr Hf. destruct (must_sound _ _ _ _ _ (must_serve a now headers session request) Hr Hf)
    as [Hd (tenantID & [])]. split_and!; try done.
  unfold serve_inference, authenticated in Hr. unfold admitted.
  destruct (AuthenticateRequest a now headers) as [auth|]; [|by destruct Hr].
  destruct (au_BillingBlocked auth); [by destruct Hr|done].
Qed.

(** What the policy does with a release. *)
Definition charged (r : Release) : bool :=
  bool_decide ((dispositionFor (UsageClass (rel_UsageSource r) (rel_Partial r)
    (releaseSucceeded (rel_StatusCode r) (rel_ErrorClass r)))).1 = dispositionBill).

Lemma charged_inv r : charged r = true → rel_UsageSource r = UsageSourceUpstream ∧ rel_ErrorClass r = ErrorOK.
Proof.
  intros [Hs Hok]%bool_decide_eq_true%policy_bills_only_measured_success. cbn in Hs, Hok. split; [done|].
  unfold releaseSucceeded in Hok. apply andb_true_iff in Hok as [[Hok _]%andb_true_iff _]. by apply String.eqb_eq in Hok.
Qed.

Lemma charged_succeeded t : at_persisted t && charged (at_release t) = true → succeeded_on_record t = true.
Proof.
  intros [Hp [_ Hok]%charged_inv]%andb_true_iff. unfold succeeded_on_record. by rewrite Hp, Hok.
Qed.

(** C8 A tenant pays for what was answered, once: of the attempts of a request at
    most one puts a release on the stream that the billing policy charges, and
    then the request was answered without an error; a request that was answered
    without an error has the release of its last attempt on record as a success. *)
Theorem charged_once_and_answered a now headers session request tr ans :
  runs (serve_inference a now headers session request) tr ans → fair tr monitor0 →
  let closed := mo_closed (watch tr monitor0) in
  (length (filter (λ t, at_persisted t && charged (at_release t) = true) closed) <= 1)%nat
  ∧ (∀ t, t ∈ closed → at_persisted t = true → charged (at_release t) = true → an_err ans = None)
  ∧ (an_err ans = None → ∃ t rest, closed = t :: rest ∧ succeeded_on_record t = true).
Proof.
  intros Hr Hf closed. destruct (must_sound _ _ _ _ _ (must_serve a now headers session request) Hr Hf)
    as [_ (tenantID & [_ _ _ _ [Hclean Hsucc Honce]])]. fold closed in Hclean, Hsucc, Honce.
  split_and!; [| |done].
  - destruct closed as [|t rest]; [cbn; lia|]. cbn [tail] in Honce.
    assert (filter (λ t, at_persisted t && charged (at_release t) = true) rest = []) as Hnil.
    { apply filter_none. eapply list.Forall_impl; [exact Honce|].
      intros u Hu Hc%charged_succeeded. cbn in Hu. congruence. }
    rewrite filter_cons. case_decide; rewrite Hnil; cbn; lia.
  - intros t Ht Hp Hc. pose proof (proj1 (list.Forall_forall _ _) Hsucc t Ht) as Ha. cbn in Ha.
    apply Ha; [by apply charged_succeeded, andb_true_iff|by apply charged_inv].
Qed.
(** C23 What a gateway puts on the stream control can use, except when the request
    or the upstream made it unusable.  For an authenticated request whose tenant's
    name is not blank, on a gateway whose producer id is not blank: the start
    event of each of its attempts passes validation exactly when the names of the
    model and of the provider are not blank; the release event passes exactly when
    they are not blank and no token count is negative. *)
Theorem events_valid_unless_blank a now headers session request tr ans auth t :
  runs (serve_inference a now headers session request) tr ans → fair tr monitor0 →
  admitted a now headers = Some auth → blank (au_TenantID auth) = false → blank (sv_ProducerID s) = false →
  t ∈ mo_closed (watch tr monitor0) →
  let named := blank (as_Model (at_started t)) = false ∧ blank (as_Provider (at_started t)) = false in
  (AttemptStarted_Validate (at_started t) = Ok tt ↔ named)
  ∧ (Release_Validate (at_release t) = Ok tt ↔ named ∧ nonnegative_usage (at_release t) = true).
Proof.
  intros Hr Hf Had Ht Hp Hin named.
  assert (must (serve_inference a now headers session request) (λ ans σ, handled s (au_TenantID auth) ans σ) monitor0) as Hmust.
  { assert (∀ status e, handled s (au_TenantID auth) (refuse status e) monitor0) as Hrefuse by (intros; by apply handled_refused).
    unfold serve_inference, authenticated. unfold admitted in Had.
    destruct (AuthenticateRequest a now headers) as [auth'|]; [|done].
    destruct (au_BillingBlocked auth'); [done|]. injection Had as ->.
    destruct (normalizeSessionKey session); [|apply Hrefuse]. by apply must_inference. }
  destruct (must_sound _ _ _ _ _ Hmust Hr Hf) as [_ [_ _ _ (requestID & model & Hreq & Hmade) _]].
  pose proof (proj1 (list.Forall_forall _ _) Hmade t Hin) as Ham. cbn in Ham. unfold named.
  pose proof (sm_model _ _ _ _ _ (am_start _ _ _ _ _ Ham)) as ->. split.
  - by apply (start_valid s requestID (au_TenantID auth)); [apply Ham|..].
  - rewrite (release_valid s requestID (au_TenantID auth) model); [|done..]. tauto.
Qed.
(** ** A request that cannot be converted *)

(** The steps of [open_attempt] and of [write_release] that persist their event. *)
Lemma runs_open_inv requestID tenantID model no lease {B} (f : string * time * add_answer → gw B) tr b :
  runs (open_attempt s requestID tenantID model no lease ≫= f) tr b →
  ∃ attemptID startedAt startID added tr',
    tr = [Ev (NewID "attempt") attemptID; Ev Now startedAt; Ev (NewID "start") startID;
          Ev (AddStartedE (attempt_started s startID requestID attemptID tenantID model no lease startedAt)) added] ++ tr'
    ∧ runs (f (attemptID, startedAt, added)) tr' b.
Proof.
  cbn. intros (attemptID & tr1 & -> & startedAt & tr2 & -> & startID & tr3 & -> & added & tr4 & -> & Hr).
  by exists attemptID, startedAt, startID, added, tr4.
Qed.

Lemma runs_release_inv requestID attemptID tenantID model no lease inbound startedAt status class u partial
    {B} (f : bool → gw B) tr b :
  runs (write_release s requestID attemptID tenantID model no lease inbound startedAt status class u partial ≫= f) tr b →
  ∃ at_ now ok tr',
    tr = [Ev Now at_; Ev Now now; Ev (AddReleaseE (release_event s requestID attemptID tenantID model no lease inbound
            startedAt at_ now status class u partial)) ok] ++ tr'
    ∧ runs (f ok) tr' b.
Proof. cbn. intros (at_ & tr1 & -> & now & tr2 & -> & ok & tr3 & -> & Hr). by exists at_, now, ok, tr3. Qed.

(** What a step calls, puts on the stream as a release, and marks. *)
Definition upstream_call (ev : event gwE) : option upstream_request :=
  match ev with Ev (DoE _ request) _ => Some request | _ => None end.
Definition released (ev : event gwE) : option Release :=
  match ev with Ev (AddReleaseE release) _ => Some release | _ => None end.
Definition marked (ev : event gwE) : option (string * string * ErrorClass * duration) :=
  match ev with Ev (MarkFailureE accountID model class reset) _ => Some (accountID, model, class, reset) | _ => None end.

Lemma blocked_account_skipped accountID model c now now' raw t criteria excluded account :
  is_byte raw → t < now + 48 * second → cr_Model criteria = model →
  judge (MarkFailure accountID model ErrorBlocked 0 now now' raw c) t criteria excluded accountID account ≠ Candidate.
Proof.
  intros Hb Ht Hm. apply MarkFailure_excludes; [done|done|vm_compute; discriminate| |done].
  change (t < now + 48 * second). done.
Qed.

(** C24 A request the gateway itself cannot convert, such as a chat request without
    max_tokens for an Anthropic account, is blamed on the account: the
    upstream is never called, yet the attempt's release says "blocked", the class
    of accounts refused by risk control, and unless an event could not be
    written the account is marked with it, so that for 48 seconds at least no
    request for the model, of any tenant, is given the account. *)
Theorem conversion_failure_blames_account requestID tenantID request inbound no lease slot e upstream tr r :
  selectedProtocol (leaseProvider s lease) (ls_Profile lease) = Some upstream → upstream ≠ OpenAIChat →
  ConvertRequest (marshal_request request) OpenAIChat upstream = Err e →
  runs (attempt_body s requestID tenantID request inbound no lease slot) tr r →
  omap upstream_call tr = []
  ∧ Forall (λ release, rel_ErrorClass release = ErrorBlocked) (omap released tr)
  ∧ (r = Done (Answer None 400 (Some EConversion)) →
     omap marked tr = [(ls_AccountID lease, Model request, ErrorBlocked, 0)])
  ∧ (r = Done (Answer None 400 (Some EConversion)) ∨ r = Done (refuse 500 EEncoding)
     ∨ r = Done (refuse 503 EAttemptFailed) ∨ r = Done (refuse 503 EReleaseFailed))
  ∧ (∀ c now now' raw t criteria excluded account, is_byte raw → t < now + 48 * second → cr_Model criteria = Model request →
     judge (MarkFailure (ls_AccountID lease) (Model request) ErrorBlocked 0 now now' raw c) t criteria excluded
       (ls_AccountID lease) account ≠ Candidate).
Proof.
  intros Hsel Hne Hconv Hr.
  assert (callUpstream s lease request inbound = mret (call_failed 400 None 0 EConversion)) as Hcall.
  { unfold callUpstream. cbv zeta. by rewrite Hsel, bool_decide_eq_false_2, Hconv by done. }
  assert (attempt_class lease (call_failed 400 None 0 EConversion) = ErrorBlocked) as Hclass by done.
  unfold attempt_body in Hr.
  apply runs_open_inv in Hr as (attemptID & startedAt & startID & added & tr1 & -> & Hr).
  destruct added.
  2,3: cbn in Hr; destruct Hr as ([] & tr2 & -> & -> & ->); split_and!;
    [done|by constructor|discriminate|by auto|intros *; apply blocked_account_skipped].
  rewrite Hcall in Hr. cbn [mret prog_mret mbind prog_mbind prog_bind] in Hr.
  apply runs_release_inv in Hr as (at_ & now & ok & tr2 & -> & Hr).
  unfold conclude, markTransportOrAccount in Hr. rewrite Hclass in *. 
  assert (tr2 = [Ev (ReleaseE slot) tt] ++ (if ok then [Ev (MarkFailureE (ls_AccountID lease) (Model request) ErrorBlocked 0) tt] else [])
    ∧ r = Done (if ok then Answer None 400 (Some EConversion) else refuse 503 EReleaseFailed)) as [-> ->].
  { cbn in Hr. destruct Hr as ([] & tr3 & -> & Hr). destruct ok; cbn in Hr; [|by destruct Hr as [-> ->]].
    by destruct Hr as ([] & tr4 & -> & -> & ->). }
  destruct ok; split_and!; try (by repeat constructor); try (intros *; apply blocked_account_skipped); by auto.
Qed.
End router.

(** ** A gateway to try it on *)

Module Demo.

#[local] Instance conversions : Conversions := {|
  prepareKiroPayload _ _ payload := Some payload;
  normalizeKiroResponse body _ := Some body;
  ParseDuration _ := None;
  ParseTime _ := None
|}.

Definition server : Server :=
  {| sv_Provider := "apikey"; sv_ChooseAllPlatforms := true; sv_RequestTimeout := 0; sv_ProducerID := "gw-1" |}.

Definition lease (id : string) : Lease := MkLease id "openai" zeroCredential zeroProfile (MkLimits 0 0 0 "") 0 "failover".

Definition answer_body : string := dq "{'id':'1','usage':{'prompt_tokens':12,'completion_tokens':3}}".

(** Account "a" is over its limit, "b" answers; everything else works. *)
Definition environment (n : nat) (X : Type) (e : gwE X) : X :=
  match e in gwE X return X with
  | SnapshotFresh => true
  | NewID prefix => (prefix +:+ "-" +:+ chr (48 + n))%string
  | Now => 1000 * (1 + Z.of_nat n)
  | AcquireTenantE _ _ => Ok (Some "tenant"%string)
  | AcquireE lease => Ok (Some (ls_AccountID lease))
  | ReleaseE _ => tt
  | LookupE _ _ => "a"%string
  | PinE _ _ _ _ => tt
  | ChooseE _ _ excluded => Ok (lease (if bool_decide ("a"%string ∈ excluded) then "b" else "a"))
  | MarkEgressE _ => false
  | MarkFailureE _ _ _ _ => tt
  | AddStartedE _ => Added
  | AddReleaseE _ => true
  | DoE lease _ => Some {| ur_status := if String.eqb (ls_AccountID lease) "a" then 429 else 200;
                           ur_retry_after := ""; ur_reset := ""; ur_body := Some answer_body |}
  | HeadersE _ => tt
  | DrainE _ _ _ _ => {| dr_usage := None; dr_partial := false; dr_error := None |}
  end.

(** One tenant, whose token is "secret". *)
Definition authenticator : Authenticator :=
  MkAuthenticator {[ HashToken "secret" := one_token ]} true.

(** A chat request for [model]. *)
Definition body (model : string) : inference :=
  ChatCompletions (dq ("{'model':'" +:+ model +:+ "','messages':[{'role':'user','content':'hi'}]}")).

Definition ask (model : string) : gw answer :=
  serve_inference server authenticator 7 (Some ("Bearer secret"%string, ""%string)) "" (body model).

Definition trace (model : string) : list (event gwE) := (execute environment 0 (ask model)).1.

(** Fairness of a concrete trace, decided. *)
Fixpoint fairb (tr : list (event gwE)) (σ : monitor) : bool :=
  match tr with
  | [] => true
  | Ev e x :: tr =>
      match e in gwE X return X → bool with
      | NewID _ => λ id, bool_decide (id ∉ mo_ids σ) && negb (blank id)
      | Now => λ t, (0 <? t) && (mo_clock σ <=? t)
      | ChooseE _ _ excluded => λ r, match r with
          | Ok lease => bool_decide (ls_AccountID lease ∉ excluded) && negb (blank (ls_AccountID lease))
          | Err _ => true
          end
      | DoE _ _ => λ r, match r with Some response => 0 <=? ur_status response | None => true end
      | _ => λ _, true
      end x && fairb tr (next e x σ)
  end.

Lemma fairb_fair tr σ : fairb tr σ = true → fair tr σ.
Proof.
  revert σ. induction tr as [|[X e x] tr IH]; intros σ; [done|]. cbn [fairb fair].
  intros [He Htr]%andb_true_iff. split; [|by apply IH]. clear IH Htr.
  destruct e; cbn [answers gw_monitor gw_answers] in *; try done.
  - apply andb_true_iff in He as [?%bool_decide_eq_true ?%negb_true_iff]. done.
  - apply andb_true_iff in He as [?%Z.ltb_lt ?%Z.leb_le]. done.
  - destruct x; [|done]. apply andb_true_iff in He as [?%bool_decide_eq_true ?%negb_true_iff]. done.
  - destruct x; [|done]. by apply Z.leb_le.
Qed.

Lemma trace_fair : fair (trace "gpt") monitor0.
Proof. apply fairb_fair. vm_compute. reflexivity. Qed.

Example served : (execute environment 0 (ask "gpt")).2 = Answer (Some answer_body) 200 None.
Proof. vm_compute. reflexivity. Qed.

Example both_on_record :
  (λ t, (as_AccountID (at_started t), rel_AttemptNo (at_release t), rel_ErrorClass (at_release t),
         charged (at_release t))) <$> mo_closed (watch (trace "gpt") monitor0) =
  [("b", 2, "ok", true); ("a", 1, "rate_limited_unknown", false)]%string.
Proof. vm_compute. reflexivity. Qed.

Lemma requests_are_disciplined_witness :
  disciplined (trace "gpt") monitor0
  ∧ mo_held (watch (trace "gpt") monitor0) = [] ∧ mo_open (watch (trace "gpt") monitor0) = None
  ∧ (length (mo_closed (watch (trace "gpt") monitor0)) <= 2)%nat
  ∧ (admitted authenticator 7 (Some ("Bearer secret"%string, ""%string)) = None → trace "gpt" = []).
Proof.
  exact (requests_are_disciplined server authenticator 7 _ "" (body "gpt") _ _
    (execute_runs environment 0 (ask "gpt")) trace_fair).
Defined.

Lemma charged_once_and_answered_witness :
  let closed := mo_closed (watch (trace "gpt") monitor0) in
  let ans := (execute environment 0 (ask "gpt")).2 in
  (length (filter (λ t, at_persisted t && charged (at_release t) = true) closed) <= 1)%nat
  ∧ (∀ t, t ∈ closed → at_persisted t = true → charged (at_release t) = true → an_err ans = None)
  ∧ (an_err ans = None → ∃ t rest, closed = t :: rest ∧ succeeded_on_record t = true).
Proof.
  exact (charged_once_and_answered server authenticator 7 _ "" (body "gpt") _ _
    (execute_runs environment 0 (ask "gpt")) trace_fair).
Defined.

Lemma closed_two : length (mo_closed (watch (trace "gpt") monitor0)) = 2%nat.
Proof. vm_compute. reflexivity. Qed.

Definition tenant_auth : AuthContext := context_of one_token.

Lemma events_valid_unless_blank_witness :
  ∃ t, t ∈ mo_closed (watch (trace "gpt") monitor0) ∧
  let named := blank (as_Model (at_started t)) = false ∧ blank (as_Provider (at_started t)) = false in
  (AttemptStarted_Validate (at_started t) = Ok tt ↔ named)
  ∧ (Release_Validate (at_release t) = Ok tt ↔ named ∧ nonnegative_usage (at_release t) = true).
Proof.
  pose proof closed_two as Hlen.
  destruct (mo_closed (watch (trace "gpt") monitor0)) as [|t rest] eqn:E; [discriminate Hlen|].
  exists t. split; [by left|].
  apply (events_valid_unless_blank server authenticator 7 (Some ("Bearer secret"%string, ""%string)) ""
    (body "gpt") (trace "gpt") (execute environment 0 (ask "gpt")).2 tenant_auth t).
  - exact (execute_runs environment 0 (ask "gpt")).
  - apply trace_fair.
  - vm_compute. reflexivity.
  - vm_compute. reflexivity.
  - vm_compute. reflexivity.
  - rewrite E. by left.
Defined.

Definition standing (t : attempt) :=
  (at_persisted t, charged (at_release t), AttemptStarted_Validate (at_started t), Release_Validate (at_release t)).

Example blank_standing :
  standing <$> mo_closed (watch (trace " ") monitor0) =
  [(true, true, Err MissingField, Err MissingField); (true, false, Err MissingField, Err MissingField)].
Proof. vm_compute. reflexivity. Qed.

(** A request for a blank model slips through unmetered.  The streaming handlers
    refuse a model of spaces, the non-streaming one only the empty string: such a
    request can be forwarded, answered with 200 and put on the stream as a
    release the policy would charge, while control rejects both of its events
    for their missing field. *)
Theorem blank_model_served_unmetered :
  let tr := trace " " in
  let ans := (execute environment 0 (ask " ")).2 in
  (∀ auth tenantID group payload inbound, tenantID ≠ ""%string →
     handleProtocolStreaming server auth tenantID group payload inbound " " = mret (refuse 400 EModelRequired))
  ∧ runs (ask " ") tr ans ∧ fair tr monitor0 ∧ an_status ans = 200 ∧ an_err ans = None
  ∧ ∃ t rest, mo_closed (watch tr monitor0) = t :: rest ∧ at_persisted t = true ∧ charged (at_release t) = true
    ∧ AttemptStarted_Validate (at_started t) = Err MissingField ∧ Release_Validate (at_release t) = Err MissingField.
Proof.
  cbv zeta. split_and!.
  - intros auth tenantID group payload inbound Ht. unfold handleProtocolStreaming.
    by rewrite (proj2 (String.eqb_neq _ _) Ht).
  - exact (execute_runs environment 0 (ask " ")).
  - apply fairb_fair. vm_compute. reflexivity.
  - vm_compute. reflexivity.
  - vm_compute. reflexivity.
  - pose proof blank_standing as Hst.
    destruct (mo_closed (watch (trace " ") monitor0)) as [|t rest]; [discriminate Hst|].
    exists t, rest. split; [done|]. cbn [fmap list_fmap] in Hst. unfold standing in Hst.
    injection Hst as Hp Hc Hs Hr _. done.
Qed.
End Demo.

(** A chat request without max_tokens, which Anthropic requires. *)
Module Refused.
#[local] Existing Instance Demo.conversions.

Definition chat : ChatCompletionRequest := {| Model := "sonnet"; Messages := made [Some [("role", JString "user"); ("content", JString "hi")]];
  Stream := false; Tools := None; MaxTokens := None; Temperature := None; TopP := None; Stop := JNull |}%string.
Definition claude_lease : Lease := MkLease "acct" "claude" zeroCredential zeroProfile (MkLimits 0 0 0 "") 0 "failover".
Definition body : gw attempt_result := attempt_body Demo.server "req" "tenant" chat OpenAIChat 1 claude_lease None.

Lemma chat_refused : ConvertRequest (marshal_request chat) OpenAIChat AnthropicMessages = Err InvalidMessage.
Proof. vm_compute. reflexivity. Qed.

Lemma conversion_failure_blames_account_witness :
  omap marked (execute Demo.environment 0 body).1 = [("acct", "sonnet", "blocked", 0)]%string.
Proof.
  assert (runs body (execute Demo.environment 0 body).1 (execute Demo.environment 0 body).2) as Hr by apply execute_runs.
  destruct (conversion_failure_blames_account Demo.server "req" "tenant" chat OpenAIChat 1 claude_lease None InvalidMessage
    AnthropicMessages _ _ eq_refl ltac:(discriminate) chat_refused Hr) as (_ & _ & Hmark & _).
  apply Hmark. vm_compute. reflexivity.
Defined.
End Refused.
