(* ===== verification/Streaming.v ===== *)
(** * Streaming and billing

    The drain of Stream.v in the request path of Server.v: what a streaming
    request puts on the event stream, and so what it costs, does not depend on
    how long the client stays. *)

From S2P Require Import Prelude Decimal Money Contracts Chooser Numeric GoTime Db Billing BillingClaims Redis Limiter Effects Utf8 GoJson Protokit ChatRequest Stream StreamFacts StreamConvert Server ServerFacts Gateway.

Open Scope Z_scope.

(** The error of a drain, as handleProtocolStreaming tells errors apart: one of
    the converter, or one of the connection. *)
Definition drained_of (r : drain_result) : drained :=
  {| dr_usage := dr_value r; dr_partial := dr_partial_ r;
     dr_error := (λ e, match e with NotConvertible => true | _ => false end) <$> dr_err r |}.

Lemma charged_not_partial r r' :
  rel_UsageSource r = rel_UsageSource r' → rel_StatusCode r = rel_StatusCode r' → rel_ErrorClass r = rel_ErrorClass r' →
  charged r = charged r'.
Proof.
  intros Hs Hc He. unfold charged. apply bool_decide_ext.
  rewrite !(proj1 (policy_bills_only_measured_success _)). cbn. by rewrite Hs, Hc, He.
Qed.

(** What a release says was used, and whether the tenant pays for it. *)
Definition metered_as (r : Release) : Z * Z * Z * Z * string * ErrorClass * bool :=
  (rel_TokensIn r, rel_TokensOut r, rel_CacheReadTokens r, rel_CacheWriteTokens r, rel_UsageSource r, rel_ErrorClass r, charged r).

Section streaming.
  Context `{Conversions} (s : Server).
  Context (requestID attemptID tenantID model : string) (lease : Lease) (upstream inbound : Protocol) (startedAt : time)
    (response : upstream_response).

Definition stream_program : gw answer :=
  stream_response s requestID attemptID tenantID model lease upstream inbound startedAt response.

Definition config : stream_config :=
  {| protocol := upstream; inboundProtocol := inbound; cfg_provider := leaseProvider s lease |}.

(** In this run the body of the response was [body], and the writes to the
    client fared as [schedule] says. *)
Definition drained_with (body : string) (read_ok : bool) (schedule : list write_outcome) (tr : list (event gwE)) : Prop :=
  ∀ d, Ev (DrainE lease upstream inbound model) d ∈ tr → d = drained_of (drainSSEProtocol config body read_ok model schedule).

Lemma stream_release_inv body read_ok schedule tr ans : ur_status response < 400 →
  runs stream_program tr ans → drained_with body read_ok schedule tr →
  let r := drainSSEProtocol config body read_ok model schedule in
  ∃ at_ now partial, omap released tr =
    [release_event s requestID attemptID tenantID model 1 lease inbound startedAt at_ now 200
      (match dr_err r with Some NotConvertible => ErrorForbiddenCapability | Some _ => ErrorNetwork | None => ErrorOK end)
      (dr_value r) partial].
Proof.
  intros Hst Hr Hd. unfold stream_program, stream_response in Hr.
  rewrite (proj2 (Z.leb_gt _ _)) in Hr by done.
  destruct Hr as ([] & tr1 & -> & d & tr2 & -> & Hr). assert (d = drained_of (drainSSEProtocol config body read_ok model schedule)) as E.
  { apply Hd. right. by left. }
  clear Hd. subst d. cbn in Hr.
  destruct (dr_err (drainSSEProtocol config body read_ok model schedule)) as [[]|] eqn:Herr; cbn in Hr;
    destruct Hr as (at_ & ? & -> & now & ? & -> & ok & ? & -> & -> & _);
    exists at_, now, (dr_partial_ (drainSSEProtocol config body read_ok model schedule)); cbn; by rewrite Herr.
Qed.

(** C35 A client cannot change what a stream costs by going away.  Take two runs
    of a streaming response (of any provider but Kiro, whose body is no SSE
    stream) whose upstream sends the same body, in one of which
    the client leaves (or its request is cancelled) at any moment while the
    other's stays: each puts exactly one release on the event stream, with the
    same tokens, source and error class, and the billing policy charges both or
    neither. *)
Theorem disconnect_keeps_the_charge body read_ok schedule tr ans tr0 ans0 :
  ur_status response < 400 →
  runs stream_program tr ans → drained_with body read_ok schedule tr →
  runs stream_program tr0 ans0 → drained_with body read_ok [] tr0 →
  ∃ release release0, omap released tr = [release] ∧ omap released tr0 = [release0] ∧ metered_as release = metered_as release0.
Proof.
  intros Hst Hr Hd Hr0 Hd0.
  destruct (stream_release_inv _ _ _ _ _ Hst Hr Hd) as (at_ & now & partial & ->).
  destruct (stream_release_inv _ _ _ _ _ Hst Hr0 Hd0) as (at0 & now0 & partial0 & ->).
  destruct (usage_survives_the_client config body read_ok model schedule) as (Hv & He & _). rewrite Hv, He.
  eexists _, _. split_and!; [done..|]. unfold metered_as. cbn. f_equal. by apply charged_not_partial.
Qed.
End streaming.

(** ** A client that leaves during the first event *)

Module Demo.
#[local] Existing Instance Gateway.Demo.conversions.

Definition broken : list write_outcome := [Cancelled].
Definition claude : Lease := MkLease "c" "claude" zeroCredential zeroProfile (MkLimits 0 0 0 "") 0 "failover".
Definition response : upstream_response :=
  {| ur_status := 200; ur_retry_after := ""; ur_reset := ""; ur_body := None |}.

(** Everything works, and the body of the response is [claude_stream]. *)
Definition environment (schedule : list write_outcome) (n : nat) (X : Type) (e : gwE X) : X :=
  match e in gwE X return X with
  | DrainE lease source target model =>
      drained_of (drainSSEProtocol (config Gateway.Demo.server lease source target)
        StreamConvert.Demo.claude_stream true model schedule)
  | e => Gateway.Demo.environment n _ e
  end.

Definition program : gw answer :=
  stream_program Gateway.Demo.server "req" "att" "tenant" "m" claude AnthropicMessages OpenAIResponses 5 response.
Abbreviation trace schedule := (execute (environment schedule) 0 program).1.

Definition drain_is_claude (schedule : list write_outcome) (X : Type) (e : gwE X) : X → Prop :=
  match e in gwE X return X → Prop with
  | DrainE lease source target model => λ d, d = drained_of (drainSSEProtocol (config Gateway.Demo.server lease source target)
      StreamConvert.Demo.claude_stream true model schedule)
  | _ => λ _, True
  end.

Lemma environment_is_claude schedule n X e : drain_is_claude schedule X e (environment schedule n X e).
Proof. destruct e; cbn [drain_is_claude environment]; (exact I || reflexivity). Qed.

Lemma drained_if_claude schedule tr : Forall (holds_of (drain_is_claude schedule)) tr →
  drained_with Gateway.Demo.server "m" claude AnthropicMessages OpenAIResponses StreamConvert.Demo.claude_stream true schedule tr.
Proof. rewrite list.Forall_forall. intros Hall d Hd. exact (Hall _ Hd). Qed.

Lemma trace_drained schedule : drained_with Gateway.Demo.server "m" claude AnthropicMessages OpenAIResponses
  StreamConvert.Demo.claude_stream true schedule (trace schedule).
Proof. apply drained_if_claude, execute_answers, environment_is_claude. Qed.

(** Cut off during the first event or not, the tokens are Anthropic's. *)
Example both_metered : (λ schedule, metered_as <$> omap released (trace schedule)) <$> [broken; []] =
  [[(4, 6, 1, 0, "upstream", "ok", true)]; [(4, 6, 1, 0, "upstream", "ok", true)]]%string.
Proof. vm_compute. reflexivity. Qed.

Example only_one_partial : (λ schedule, rel_Partial <$> omap released (trace schedule)) <$> [broken; []] = [[true]; [false]].
Proof. vm_compute. reflexivity. Qed.

Lemma disconnect_keeps_the_charge_witness :
  ∃ release release0, omap released (trace broken) = [release] ∧ omap released (trace []) = [release0]
    ∧ metered_as release = metered_as release0.
Proof.
  exact (disconnect_keeps_the_charge Gateway.Demo.server "req" "att" "tenant" "m" claude AnthropicMessages OpenAIResponses 5
    response StreamConvert.Demo.claude_stream true broken _ _ _ _ eq_refl
    (execute_runs (environment broken) 0 program) (trace_drained broken)
    (execute_runs (environment []) 0 program) (trace_drained [])).
Defined.
End Demo.
