(* ===== verification/Events.v ===== *)
(** * The event stream

    internal/events/stream.go: the gateway adds events to a Redis stream, a
    consumer group of control reads them, retries what its handler refuses and
    moves what it cannot use to a dead-letter stream.

    The consumer is written against its [Handler] interface, as in the source.
    A consumer's calls to Redis are the commands below; each may fail before or
    after it took effect.  encoding/json comes in as a [Wire]. *)

From S2P Require Import Prelude Decimal Contracts Numeric GoTime Db Redis Snapshot.

Open Scope Z_scope.

Definition MaxRetries : Z := 5.
Definition ReclaimIdle : duration := 60 * second.
Definition Retention : duration := 7 * 24 * hour.
Definition read_count : nat := 32.
Definition retry_ttl : Z := 7 * 24 * 3600.

(** encoding/json. *)
Class Wire := {
  wire_started :: Codec AttemptStarted;
  wire_release :: Codec Release;
  json_valid : string → bool
}.

(** contracts.NewStreamEvent. *)
Definition NewStreamEvent {A} `{Codec A} (eventType eventID requestID attemptID producerID : string)
    (occurredAt : time) (payload : A) : option StreamEvent :=
  b ← marshal payload;
  Some (MkStreamEvent eventType SchemaVersion eventID requestID attemptID producerID occurredAt b).

(** The events the gateway emits (server.go); the release's panics when the
    payload does not encode. *)
Definition started_event `{Wire} (started : AttemptStarted) : option StreamEvent :=
  NewStreamEvent EventTypeAttemptStarted (as_EventID started) (as_RequestID started)
    (as_AttemptID started) (as_ProducerID started) (as_OccurredAt started) started.

Definition mustStreamEvent `{Wire} (eventType : string) (release : Release) : option StreamEvent :=
  NewStreamEvent eventType (rel_EventID release) (rel_RequestID release) (rel_AttemptID release)
    (rel_ProducerID release) (rel_OccurredAt release) release.

(** ** Streams *)

Definition entry_id : Type := Z * Z.

Definition id_before (a b : entry_id) : bool :=
  (a.1 <? b.1) || ((a.1 =? b.1) && (a.2 <? b.2)).

(** An id as Redis spells it. *)
Definition id_text (i : entry_id) : string := format_int i.1 +:+ "-" +:+ format_int i.2.

Definition message : Type := entry_id * gmap string string.

(** A pending entry: who it was delivered to, and when. *)
Record pending := Pending { pe_consumer : string; pe_delivered : Z }.

Record group := Group { gr_last : entry_id; gr_pending : gmap entry_id pending }.

Record dead_letter := DeadLetter {
  dl_original : entry_id;
  dl_category : string;
  dl_attempts : string;
  dl_values : gmap string string
}.

(** ** The handler *)

Class Handler (W : Type) := {
  handler_error : Type;
  HandleAttemptStarted : AttemptStarted → W → result handler_error unit * W;
  HandleRelease : Release → W → result handler_error unit * W;
  RecoverAttempts : time → W → result handler_error Z * W
}.

Section consumer.
  Context {W : Type} `{Handler W} `{Wire}.

(** Everything a consumer reads or writes.  [bu_handled] lists the events its
    handler accepted (a ghost). *)
Record bus := Bus {
  bu_redis : redis;
  bu_entries : list message;
  bu_group : option group;
  bu_dlq : list dead_letter;
  bu_world : W;
  bu_handled : list entry_id;
  bu_faults : list fault
}.

Inductive bus_error :=
| BusUnavailable
| BusReply (e : redis_error)
| NoGroup
| HandlerRefused (e : handler_error).

Definition C (A : Type) : Type := bus → result bus_error A * bus.

#[export] Instance C_ret : MRet C := λ A a b, (Ok a, b).
#[export] Instance C_bind : MBind C := λ A B k m b,
  match m b with
  | (Ok a, b') => k a b'
  | (Err e, b') => (Err e, b')
  end.

Definition with_redis (st : redis) (b : bus) : bus :=
  Bus st (bu_entries b) (bu_group b) (bu_dlq b) (bu_world b) (bu_handled b) (bu_faults b).
Definition with_entries (l : list message) (b : bus) : bus :=
  Bus (bu_redis b) l (bu_group b) (bu_dlq b) (bu_world b) (bu_handled b) (bu_faults b).
Definition with_group (g : group) (b : bus) : bus :=
  Bus (bu_redis b) (bu_entries b) (Some g) (bu_dlq b) (bu_world b) (bu_handled b) (bu_faults b).
Definition with_dlq (l : list dead_letter) (b : bus) : bus :=
  Bus (bu_redis b) (bu_entries b) (bu_group b) l (bu_world b) (bu_handled b) (bu_faults b).
Definition with_faults (l : list fault) (b : bus) : bus :=
  Bus (bu_redis b) (bu_entries b) (bu_group b) (bu_dlq b) (bu_world b) (bu_handled b) l.
Definition with_world (w : W) (b : bus) : bus :=
  Bus (bu_redis b) (bu_entries b) (bu_group b) (bu_dlq b) w (bu_handled b) (bu_faults b).
Definition with_handled (l : list entry_id) (b : bus) : bus :=
  Bus (bu_redis b) (bu_entries b) (bu_group b) (bu_dlq b) (bu_world b) l (bu_faults b).

(** One command sent to Redis. *)
Definition cmd {A} (m : bus → result bus_error (A * bus)) : C A := λ b,
  let '(f, b) := match bu_faults b with [] => (NoFault, b) | f :: fs => (f, with_faults fs b) end in
  match f with
  | NoFault => match m b with Ok (a, b') => (Ok a, b') | Err e => (Err e, b) end
  | Lost => (Err BusUnavailable, b)
  | Unknown => match m b with Ok (_, b') => (Err BusUnavailable, b') | Err _ => (Err BusUnavailable, b) end
  end.

(** [_ = m.Err()]: the error is dropped. *)
Definition ignore {A} (m : C A) : C unit := λ b, (Ok tt, (m b).2).

(** A command on the keyspace. *)
Definition on_keys {A} (m : R A) : C A := cmd (λ b,
  match m (bu_redis b) with
  | (Ok a, st) => Ok (a, with_redis st b)
  | (Err e, st) => Err (BusReply e)
  end).

(** ** Stream commands *)

(** XGROUP CREATE ... MKSTREAM from "0"; BUSYGROUP is not an error here. *)
Definition ensureGroup : C unit := cmd (λ b,
  match bu_group b with
  | Some _ => Ok (tt, b)
  | None => Ok (tt, with_group (Group (0, 0) ∅) b)
  end).

(** XPENDING with "-" to "+": the ids in order, at most [count], idle long
    enough; the client sends no IDLE for 0. *)
Definition id_le (a b : entry_id) : Prop := id_before b a = false.
#[export] Instance id_le_dec : RelDecision id_le.
Proof. intros a b. unfold id_le. apply _. Defined.

Definition pending_ids (idle : Z) (b : bus) (g : group) : list entry_id :=
  merge_sort id_le ((map_to_list (gr_pending g)).*1 ≫=
    λ i, match gr_pending g !! i with
         | Some p => if (idle =? 0) || (idle <=? clock (bu_redis b) - pe_delivered p) then [i] else []
         | None => []
         end).

Definition XPENDING (idle : Z) (count : nat) : C (list entry_id) := cmd (λ b,
  match bu_group b with
  | None => Err NoGroup
  | Some g => Ok (take count (pending_ids idle b g), b)
  end).

Definition message_of (b : bus) (i : entry_id) : option message :=
  snd <$> list_find (λ e, e.1 = i) (bu_entries b).

(** XCLAIM: what is still pending and idle moves to [consumer]; an id whose
    entry is gone from the stream leaves the pending list instead. *)
Definition claim_one (consumer : string) (idle : Z) (acc : group * list message) (b : bus) (i : entry_id)
    : group * list message :=
  let '(g, claimed) := acc in
  match gr_pending g !! i with
  | Some p =>
      if idle <=? clock (bu_redis b) - pe_delivered p then
        match message_of b i with
        | Some m => (Group (gr_last g) (<[i := Pending consumer (clock (bu_redis b))]> (gr_pending g)), claimed ++ [m])
        | None => (Group (gr_last g) (delete i (gr_pending g)), claimed)
        end
      else acc
  | None => acc
  end.

Definition XCLAIM (consumer : string) (idle : Z) (ids : list entry_id) : C (list message) := cmd (λ b,
  match bu_group b with
  | None => Err NoGroup
  | Some g =>
      let '(g, claimed) := foldl (λ acc i, claim_one consumer idle acc b i) (g, []) ids in
      Ok (claimed, with_group g b)
  end).

(** XREADGROUP ">": the next entries after the last delivered one. *)
Definition next_messages (count : nat) (b : bus) (g : group) : list message :=
  take count (filter (λ m, id_before (gr_last g) m.1 = true) (bu_entries b)).

Definition deliver (consumer : string) (now : Z) (g : group) (m : message) : group :=
  Group m.1 (<[m.1 := Pending consumer now]> (gr_pending g)).

Definition XREADGROUP (consumer : string) (count : nat) : C (list message) := cmd (λ b,
  match bu_group b with
  | None => Err NoGroup
  | Some g =>
      let messages := next_messages count b g in
      Ok (messages, with_group (foldl (deliver consumer (clock (bu_redis b))) g messages) b)
  end).

Definition XACK (i : entry_id) : C unit := cmd (λ b,
  match bu_group b with
  | None => Ok (tt, b)
  | Some g => Ok (tt, with_group (Group (gr_last g) (delete i (gr_pending g))) b)
  end).

Definition XADD_dlq (d : dead_letter) : C unit := cmd (λ b, Ok (tt, with_dlq (bu_dlq b ++ [d]) b)).

Definition XTRIM (threshold : entry_id) : C unit := cmd (λ b,
  Ok (tt, with_entries (filter (λ m, id_before m.1 threshold = false) (bu_entries b)) b)).

(** ** Reading a message *)

Definition atoi_ok (s : string) : option Z := let '(z, ok) := parse_int s in if ok : bool then Some z else None.

Definition decode (values : gmap string string) : option StreamEvent :=
  event_type ← values !! "event_type"%string;
  schema ← values !! "schema_version"%string;
  event ← values !! "event_id"%string;
  request ← values !! "request_id"%string;
  att ← values !! "attempt_id"%string;
  producer ← values !! "producer_id"%string;
  occurred ← values !! "occurred_at"%string;
  payload ← values !! "payload"%string;
  version ← atoi_ok schema;
  at_ ← parse_rfc3339 occurred;
  Some {| ev_EventType := event_type; ev_SchemaVersion := version; ev_EventID := event;
          ev_RequestID := request; ev_AttemptID := att; ev_ProducerID := producer;
          ev_OccurredAt := at_; ev_Payload := payload |}.

Definition validateAttemptIdentity (event : StreamEvent) (payload : AttemptStarted) : bool :=
  String.eqb (ev_EventID event) (as_EventID payload) && String.eqb (ev_RequestID event) (as_RequestID payload)
  && String.eqb (ev_AttemptID event) (as_AttemptID payload) && String.eqb (ev_ProducerID event) (as_ProducerID payload).

Definition validateReleaseIdentity (event : StreamEvent) (payload : Release) : bool :=
  String.eqb (ev_EventID event) (rel_EventID payload) && String.eqb (ev_RequestID event) (rel_RequestID payload)
  && String.eqb (ev_AttemptID event) (rel_AttemptID payload) && String.eqb (ev_ProducerID event) (rel_ProducerID payload).

Inductive action := Started (payload : AttemptStarted) | Released (payload : Release).

(** The first half of [process]: what the message asks for, or the category it
    is dead-lettered under. *)
Definition read_started (event : StreamEvent) : string + AttemptStarted :=
  match unmarshal (ev_Payload event) with
  | None => inl "invalid_json"%string
  | Some payload =>
      if negb (validateAttemptIdentity event payload) then inl "invalid_contract"%string
      else if is_ok (AttemptStarted_Validate payload) then inr payload else inl "invalid_contract"%string
  end.

Definition read_release (event : StreamEvent) : string + Release :=
  match unmarshal (ev_Payload event) with
  | None => inl "invalid_json"%string
  | Some payload =>
      if negb (validateReleaseIdentity event payload) then inl "invalid_contract"%string
      else if is_ok (Release_Validate payload) then inr payload else inl "invalid_contract"%string
  end.

Definition classify (values : gmap string string) : string + action :=
  match decode values with
  | None => inl "invalid_envelope"%string
  | Some event =>
      if negb (is_ok (StreamEvent_Validate json_valid event)) then inl "invalid_contract"%string
      else if String.eqb (ev_EventType event) EventTypeAttemptStarted
      then match read_started event with inl c => inl c | inr p => inr (Started p) end
      else match read_release event with inl c => inl c | inr p => inr (Released p) end
  end.

(** ** The consumer *)

Definition retry_key (i : entry_id) : string := "gateway:events:retry:" +:+ id_text i.

(** The attempts read for the record are "" when Redis does not answer. *)
Definition retries_text (i : entry_id) : C string := λ b,
  match on_keys (GET (retry_key i)) b with
  | (Ok (Some v), b') => (Ok (reply_text v), b')
  | (_, b') => (Ok ""%string, b')
  end.

Definition deadLetter (m : message) (category : string) : C unit :=
  retries ← retries_text m.1;
  _ ← XADD_dlq {| dl_original := m.1; dl_category := category; dl_attempts := retries; dl_values := m.2 |};
  _ ← XACK m.1;
  ignore (on_keys (DEL (retry_key m.1))).

(** The handler call; the ghost records what it accepted. *)
Definition handle (i : entry_id) (a : action) : C unit := λ b,
  let '(r, w) := match a with
                 | Started p => HandleAttemptStarted p (bu_world b)
                 | Released p => HandleRelease p (bu_world b)
                 end in
  match r with
  | Ok _ => (Ok tt, with_handled (i :: bu_handled b) (with_world w b))
  | Err e => (Err (HandlerRefused e), with_world w b)
  end.

Definition process (m : message) : C unit :=
  match classify m.2 with
  | inl category => deadLetter m category
  | inr a =>
      tries ← on_keys (INCR (retry_key m.1));
      _ ← ignore (on_keys (EXPIRE (retry_key m.1) retry_ttl));
      if MaxRetries <? tries then deadLetter m "retry_exhausted"
      else
      _ ← handle m.1 a;
      _ ← XACK m.1;
      ignore (on_keys (DEL (retry_key m.1)))
  end.

Fixpoint process_all (l : list message) : C unit :=
  match l with
  | [] => mret tt
  | m :: rest => _ ← process m; process_all rest
  end.

Definition reclaim (consumer : string) : C unit :=
  ids ← XPENDING (Z.quot ReclaimIdle 1000000) read_count;
  if bool_decide (ids = []) then mret tt
  else
  claimed ← XCLAIM consumer (Z.quot ReclaimIdle 1000000) ids;
  process_all claimed.

(** [now] is what c.Now() answers at the end. *)
Definition recover (now : time) : C unit := λ b,
  match RecoverAttempts (now - 5 * minute) (bu_world b) with
  | (Ok _, w) => (Ok tt, with_world w b)
  | (Err e, w) => (Err (HandlerRefused e), with_world w b)
  end.

Definition RunOnce (consumer : string) (now : time) : C unit :=
  let consumer := if String.eqb consumer "" then "control-1"%string else consumer in
  _ ← ensureGroup;
  _ ← reclaim consumer;
  messages ← XREADGROUP consumer read_count;
  _ ← process_all messages;
  recover now.

(** ** Retention *)

Definition unix_milli (t : time) : Z := Z.div t 1000000 - 62135596800000.

(** The oldest pending id bounds the threshold. *)
Definition trim_threshold (now : time) (oldest : list entry_id) : entry_id :=
  let threshold := (unix_milli (now - Retention), 0) in
  match oldest with
  | [i] => if id_before i threshold then i else threshold
  | _ => threshold
  end.

Definition Trim (now : time) : C unit :=
  oldest ← XPENDING 0 1;
  XTRIM (trim_threshold now oldest).

(** ** The producer *)

(** XADD gives the new entry an id above every earlier one: [i]. *)
Definition event_values (event : StreamEvent) : gmap string string :=
  <["event_type" := ev_EventType event]> (<["schema_version" := format_int (ev_SchemaVersion event)]>
  (<["event_id" := ev_EventID event]> (<["request_id" := ev_RequestID event]>
  (<["attempt_id" := ev_AttemptID event]> (<["producer_id" := ev_ProducerID event]>
  (<["occurred_at" := format_rfc3339 true (ev_OccurredAt event)]> (<["payload" := ev_Payload event]> ∅)))))))%string.

Definition Add (client : bool) (event : StreamEvent) (i : entry_id) (b : bus) : result bus_error entry_id * bus :=
  if negb client then (Err BusUnavailable, b)
  else if negb (is_ok (StreamEvent_Validate json_valid event)) then (Err BusUnavailable, b)
  else cmd (λ b, Ok (i, with_entries (bu_entries b ++ [(i, event_values event)]) b)) b.
End consumer.
