(* ===== verification/EventsFacts.v ===== *)
(** * No event is lost

    The consumer of Events.v under every schedule of faults, against any
    handler that keeps the laws below: an event that was added is waiting,
    pending, handled, or in the dead-letter stream with its values. *)

From S2P Require Import Prelude Decimal Contracts Numeric GoTime Db Redis Snapshot Ledger LedgerFacts Events.

Open Scope Z_scope.

(** What the consumer may expect of its handler: a well-formed state stays
    well-formed, what was done stays done, and an accepted action is done. *)
Class HandlerLaws (W : Type) `{Handler W} := {
  admissible : action → Prop;
  wf : W → Prop;
  done_ : action → W → Prop;
  started_law p w : wf w → admissible (Started p) → is_ok (AttemptStarted_Validate p) = true →
    let '(r, w') := HandleAttemptStarted p w in
    wf w' ∧ (∀ a, done_ a w → done_ a w') ∧ (is_ok r = true → done_ (Started p) w');
  release_law p w : wf w → admissible (Released p) → is_ok (Release_Validate p) = true →
    let '(r, w') := HandleRelease p w in
    wf w' ∧ (∀ a, done_ a w → done_ a w') ∧ (is_ok r = true → done_ (Released p) w');
  recover_law t w : wf w → let '(_, w') := RecoverAttempts t w in wf w' ∧ (∀ a, done_ a w → done_ a w')
}.

(** A message is never acted upon before its payload is validated. *)
Lemma classify_valid `{Wire} values a :
  classify values = inr a →
  match a with Started p => is_ok (AttemptStarted_Validate p) | Released p => is_ok (Release_Validate p) end = true.
Proof.
  unfold classify. destruct (decode values) as [event|]; [|done].
  destruct (negb _); [done|]. destruct (String.eqb _ _).
  - unfold read_started. destruct (unmarshal _) as [p|]; [|done]. destruct (negb _); [done|].
    destruct (is_ok (AttemptStarted_Validate p)) eqn:E; [|done]. by intros [= <-].
  - unfold read_release. destruct (unmarshal _) as [p|]; [|done]. destruct (negb _); [done|].
    destruct (is_ok (Release_Validate p)) eqn:E; [|done]. by intros [= <-].
Qed.

Section facts.
  Context {W : Type} `{HandlerLaws W} `{Wire}.

(** The part of the state the invariant speaks of. *)
Record view := View {
  vw_entries : list message;
  vw_group : option group;
  vw_dlq : list dead_letter;
  vw_world : W;
  vw_handled : list entry_id
}.

Definition view_of (b : bus) : view :=
  View (bu_entries b) (bu_group b) (bu_dlq b) (bu_world b) (bu_handled b).

Definition dead (m : message) (v : view) : Prop :=
  ∃ d, d ∈ vw_dlq v ∧ dl_original d = m.1 ∧ dl_values d = m.2.

(** The event was accepted, and what it asks for is done. *)
Definition handled (m : message) (v : view) : Prop :=
  m.1 ∈ vw_handled v ∧ ∃ a, classify m.2 = inr a ∧ done_ a (vw_world v).

Definition settled (m : message) (v : view) : Prop := handled m v ∨ dead m v.

Definition undelivered (m : message) (v : view) : Prop :=
  match vw_group v with None => True | Some g => id_before (gr_last g) m.1 = true end.

Definition is_pending (m : message) (v : view) : Prop :=
  match vw_group v with None => False | Some g => is_Some (gr_pending g !! m.1) end.

(** ** The invariant; [log] are all events ever added *)

Definition ids_ascend (l : list message) : Prop := StronglySorted (λ a b, id_before a.1 b.1 = true) l.

Record stream_ok (log : list message) (v : view) : Prop := {
  so_world : wf (vw_world v);
  so_ascend : ids_ascend (vw_entries v);
  so_entries : ∀ m, m ∈ vw_entries v → m ∈ log;
  so_log : ∀ m, m ∈ log → m ∈ vw_entries v ∨ settled m v;
  so_positive : ∀ m, m ∈ log → id_before (0, 0) m.1 = true;
  so_unique : ∀ m m', m ∈ log → m' ∈ log → m.1 = m'.1 → m = m';
  so_last : ∀ g, vw_group v = Some g → gr_last g = (0, 0) ∨ ∃ m, m ∈ log ∧ gr_last g = m.1;
  so_delivered : ∀ m, m ∈ vw_entries v → undelivered m v ∨ is_pending m v ∨ settled m v;
  so_admissible : ∀ m a, m ∈ log → classify m.2 = inr a → admissible a
}.

(** ** Triples: the invariant survives every failure *)

Definition safe {A} (I P : view → Prop) (m : C A) (Q : A → view → Prop) : Prop :=
  ∀ b, P (view_of b) → let '(r, b') := m b in
    I (view_of b') ∧ ∀ a, r = Ok a → Q a (view_of b').

Lemma safe_ret {A} (I P : view → Prop) (a : A) (Q : A → view → Prop) :
  (∀ v, P v → I v ∧ Q a v) → safe I P (mret a) Q.
Proof. intros Hp b Hb. cbn. destruct (Hp _ Hb). split; [done|]. by intros ? [= <-]. Qed.

Lemma safe_bind {A B} I P (m : C A) (k : A → C B) Q R :
  safe I P m Q → (∀ a, safe I (Q a) (k a) R) → safe I P (m ≫= k) R.
Proof.
  intros Hm Hk b Hb. unfold mbind, C_bind. specialize (Hm b Hb). destruct (m b) as [[a|e] b'].
  - destruct Hm as [_ Hq]. apply (Hk a b'), Hq. done.
  - destruct Hm as [Hi _]. by split.
Qed.

Lemma safe_conseq {A} (I P P' : view → Prop) (m : C A) (Q Q' : A → view → Prop) :
  (∀ v, P v → P' v) → (∀ a v, Q' a v → Q a v) → safe I P' m Q' → safe I P m Q.
Proof.
  intros Hp Hq Hm b Hb. specialize (Hm b (Hp _ Hb)). destruct (m b) as [r b']. destruct Hm as [? Hm].
  split; [done|]. intros a E. by apply Hq, Hm.
Qed.

Lemma safe_cmd {A} (I P : view → Prop) (m : bus → result bus_error (A * bus)) Q :
  (∀ v, P v → I v) →
  (∀ b a b', P (view_of b) → m b = Ok (a, b') → I (view_of b') ∧ Q a (view_of b')) →
  safe I P (cmd m) Q.
Proof.
  intros Hi Hm b Hb. unfold cmd.
  set (fb := match bu_faults b with [] => (NoFault, b) | f :: fs => (f, with_faults fs b) end).
  assert (view_of fb.2 = view_of b) as E by (unfold fb; by destruct (bu_faults b)).
  destruct fb as [f b0]. cbn in E. rewrite <-E in Hb. specialize (Hm b0).
  destruct f; [destruct (m b0) as [[a b1]|e]| |destruct (m b0) as [[a b1]|e]]; cbn.
  - destruct (Hm a b1 Hb eq_refl). split; [done|]. by intros ? [= <-].
  - split; [by apply Hi|done].
  - split; [by apply Hi|done].
  - destruct (Hm a b1 Hb eq_refl). by split.
  - split; [by apply Hi|done].
Qed.

Lemma on_keys_view {A} (m : R A) b : view_of (on_keys m b).2 = view_of b.
Proof.
  unfold on_keys, cmd. set (fb := match bu_faults b with [] => (NoFault, b) | f :: fs => (f, with_faults fs b) end).
  assert (view_of fb.2 = view_of b) as E by (unfold fb; by destruct (bu_faults b)).
  destruct fb as [f b0]. cbn in E. rewrite <-E. destruct f; [| done|]; by destruct (m (bu_redis b0)) as [[]].
Qed.

Lemma safe_keys {A} (I P : view → Prop) (m : R A) : (∀ v, P v → I v) → safe I P (on_keys m) (λ _, P).
Proof.
  intros Hi b Hb. pose proof (on_keys_view m b) as E. destruct (on_keys m b) as [r b']. cbn in E. rewrite E.
  split; [by apply Hi|done].
Qed.

Lemma safe_ignore_keys {A} (I P : view → Prop) (m : R A) : (∀ v, P v → I v) → safe I P (ignore (on_keys m)) (λ _, P).
Proof.
  intros Hi b Hb. unfold ignore. pose proof (on_keys_view m b) as E. destruct (on_keys m b) as [r b']. cbn in *.
  rewrite E. split; [by apply Hi|done].
Qed.

(** ** What each part of the invariant needs *)

Definition set_group (g : group) (v : view) : view :=
  View (vw_entries v) (Some g) (vw_dlq v) (vw_world v) (vw_handled v).

Lemma settled_mono m v v' :
  (∀ i, i ∈ vw_handled v → i ∈ vw_handled v') → (∀ a, done_ a (vw_world v) → done_ a (vw_world v')) →
  (∀ d, d ∈ vw_dlq v → d ∈ vw_dlq v') → settled m v → settled m v'.
Proof.
  intros Hh Hw Hd [(Hi & a & Ha & Hdone)|(d & Hin & Hd1)].
  - left. split; [by apply Hh|]. exists a. auto.
  - right. exists d. auto.
Qed.

(** Nothing but the group, the letters, the handled events or the world moves. *)
Lemma stream_ok_grow log v v' :
  vw_entries v' = vw_entries v → vw_group v' = vw_group v → wf (vw_world v') →
  (∀ i, i ∈ vw_handled v → i ∈ vw_handled v') → (∀ a, done_ a (vw_world v) → done_ a (vw_world v')) →
  (∀ d, d ∈ vw_dlq v → d ∈ vw_dlq v') → stream_ok log v → stream_ok log v'.
Proof.
  intros He Hg Hwf Hh Hw Hd Hok. pose proof (λ m, settled_mono m v v' Hh Hw Hd) as Hs.
  destruct Hok. constructor; unfold undelivered, is_pending in *; rewrite ?He, ?Hg; try done.
  - intros m Hm. destruct (so_log0 m Hm); auto.
  - intros m Hm. destruct (so_delivered0 m Hm) as [|[|]]; auto.
Qed.

Lemma stream_ok_group log v g :
  stream_ok log v →
  (gr_last g = (0, 0) ∨ ∃ m, m ∈ log ∧ gr_last g = m.1) →
  (∀ m, m ∈ vw_entries v → undelivered m v ∨ is_pending m v →
    id_before (gr_last g) m.1 = true ∨ is_Some (gr_pending g !! m.1) ∨ settled m v) →
  stream_ok log (set_group g v).
Proof.
  intros Hok Hl Hg. destruct Hok. constructor; try done.
  - by intros ? [= <-].
  - intros m Hm. destruct (so_delivered0 m Hm) as [Hu|[Hp|Hs]].
    + apply Hg; auto.
    + apply Hg; auto.
    + by right; right.
Qed.

Lemma XACK_safe log m :
  m ∈ log → safe (stream_ok log) (λ v, stream_ok log v ∧ settled m v) (XACK m.1) (λ _, stream_ok log).
Proof.
  intros Hm. apply safe_cmd; [by intros v []|]. intros b [] b' [Hok Hs] E. cbn in E.
  enough (stream_ok log (view_of b')) by done.
  destruct (bu_group b) as [g|] eqn:Eg; injection E as <-; [|done].
  change (stream_ok log (set_group (Group (gr_last g) (delete m.1 (gr_pending g))) (view_of b))).
  apply stream_ok_group; [done|exact (so_last _ _ Hok g Eg)|].
  intros m' Hm'. unfold undelivered, is_pending. cbn. rewrite Eg.
  intros [Hu|Hp]; [by left|]. right. destruct (decide (m.1 = m'.1)) as [Hi|Hi].
  - right. replace m' with m; [done|]. apply (so_unique _ _ Hok); [done|by apply (so_entries _ _ Hok)|done].
  - left. by rewrite lookup_delete_ne.
Qed.

Lemma retries_text_safe (I P : view → Prop) i : (∀ v, P v → I v) → safe I P (retries_text i) (λ _, P).
Proof.
  intros Hi b Hb. unfold retries_text. pose proof (on_keys_view (GET (retry_key i)) b) as E.
  destruct (on_keys (GET (retry_key i)) b) as [r b']. cbn in E.
  destruct r as [[v|]|e]; rewrite E; (split; [by apply Hi|done]).
Qed.

Lemma deadLetter_safe log m category :
  m ∈ log → safe (stream_ok log) (stream_ok log) (deadLetter m category) (λ _, stream_ok log).
Proof.
  intros Hm. unfold deadLetter. eapply safe_bind; [by apply retries_text_safe|]. intros retries. cbn beta.
  eapply safe_bind.
  { apply (safe_cmd _ _ _ (λ _ v, stream_ok log v ∧ settled m v)); [done|].
    intros b [] b' Hok [= <-].
    set (d := {| dl_original := m.1; dl_category := category; dl_attempts := retries; dl_values := m.2 |}).
    enough (stream_ok log (view_of (with_dlq (bu_dlq b ++ [d]) b))) as Hok'.
    { split; [exact Hok'|]. split; [exact Hok'|]. right. exists d. split; [|done].
      apply elem_of_app. right. by apply list_elem_of_singleton. }
    eapply stream_ok_grow, Hok; try done; [by apply (so_world _ _ Hok)|].
    intros d' Hd. apply elem_of_app. by left. }
  intros ?. cbn beta. eapply safe_bind; [by apply XACK_safe|]. intros ?. by apply safe_ignore_keys.
Qed.

Lemma handle_safe log m a :
  m ∈ log → classify m.2 = inr a →
  safe (stream_ok log) (stream_ok log) (handle m.1 a) (λ _ v, stream_ok log v ∧ settled m v).
Proof.
  intros Hm Ha b Hok. pose proof (so_admissible _ _ Hok m a Hm Ha) as Hadm.
  pose proof (so_world _ _ Hok) as Hwf.
  assert (let '(r, w) := match a with
                         | Started p => HandleAttemptStarted p (bu_world b)
                         | Released p => HandleRelease p (bu_world b) end in
          wf w ∧ (∀ a', done_ a' (bu_world b) → done_ a' w) ∧ (is_ok r = true → done_ a w)) as Hh.
  { pose proof (classify_valid _ _ Ha) as Hv. destruct a; [by apply started_law|by apply release_law]. }
  unfold handle. destruct (match a with Started p => _ | Released p => _ end) as [r w].
  destruct Hh as (Hwf' & Hmono & Hdone). destruct r as [u|e].
  - enough (stream_ok log (view_of (with_handled (m.1 :: bu_handled b) (with_world w b)))) as Hok'.
    { split; [done|]. intros _ _. split; [done|]. left. split; [by left|]. exists a. cbn. auto. }
    eapply stream_ok_grow, Hok; try done. cbn. intros i Hi. by right.
  - split; [|done]. eapply stream_ok_grow, Hok; done.
Qed.

Lemma process_safe log m : m ∈ log → safe (stream_ok log) (stream_ok log) (process m) (λ _, stream_ok log).
Proof.
  intros Hm. unfold process. destruct (classify m.2) as [category|a] eqn:Ha; [by apply deadLetter_safe|].
  eapply safe_bind; [by apply safe_keys|]. intros tries. cbn beta.
  eapply safe_bind; [by apply safe_ignore_keys|]. intros ?. cbn beta.
  destruct (MaxRetries <? tries); [by apply deadLetter_safe|].
  eapply safe_bind; [by apply handle_safe|]. intros ?. cbn beta.
  eapply safe_bind; [by apply XACK_safe|]. intros ?. by apply safe_ignore_keys.
Qed.

Lemma process_all_safe log l :
  (∀ m, m ∈ l → m ∈ log) → safe (stream_ok log) (stream_ok log) (process_all l) (λ _, stream_ok log).
Proof.
  induction l as [|m l IH]; intros Hl; cbn; [by apply safe_ret|].
  eapply safe_bind; [apply process_safe, Hl; by left|]. intros ?. apply IH. intros m' Hm'. apply Hl. by right.
Qed.

Lemma ensureGroup_safe log : safe (stream_ok log) (stream_ok log) ensureGroup (λ _, stream_ok log).
Proof.
  apply safe_cmd; [done|]. intros b [] b' Hok E. enough (stream_ok log (view_of b')) by done.
  cbn in E. destruct (bu_group b) as [g|] eqn:Eg; injection E as <-; [done|].
  change (stream_ok log (set_group (Group (0, 0) ∅) (view_of b))).
  apply stream_ok_group; [done|by left|]. intros m Hm _. left. by apply (so_positive _ _ Hok), (so_entries _ _ Hok).
Qed.

Lemma XPENDING_safe log idle count :
  safe (stream_ok log) (stream_ok log) (XPENDING idle count) (λ _, stream_ok log).
Proof.
  apply safe_cmd; [done|]. intros b ids b' Hok E. cbn in E.
  destruct (bu_group b); [|done]. by injection E as _ <-.
Qed.

(** XCLAIM keeps every pending entry that is still in the stream. *)
Lemma message_of_Some (b : bus (W := W)) i m : message_of b i = Some m → m ∈ bu_entries b ∧ m.1 = i.
Proof.
  unfold message_of. destruct (list_find _ _) as [[k m']|] eqn:E; [|done]. intros [= <-].
  apply list_find_Some in E as (Hk & Hi & _). split; [by eapply list_elem_of_lookup_2|done].
Qed.

Lemma message_of_None (b : bus (W := W)) m : message_of b m.1 = None → m ∉ bu_entries b.
Proof.
  unfold message_of. destruct (list_find _ _) as [[k m']|] eqn:E; [done|]. intros _ Hm.
  apply list_find_None in E. rewrite list.Forall_forall in E. by apply (E m Hm).
Qed.

Record claim_ok (b : bus (W := W)) (g : group) (acc : group * list message) : Prop := {
  co_last : gr_last acc.1 = gr_last g;
  co_pending : ∀ m, m ∈ bu_entries b → is_Some (gr_pending g !! m.1) → is_Some (gr_pending acc.1 !! m.1);
  co_claimed : ∀ m, m ∈ acc.2 → m ∈ bu_entries b
}.

Lemma claim_one_ok consumer idle b g acc i : claim_ok b g acc → claim_ok b g (claim_one consumer idle acc b i).
Proof.
  intros Hok. destruct acc as [g' claimed]. unfold claim_one.
  destruct (gr_pending g' !! i) as [p|] eqn:Ep; [|done]. destruct (_ <=? _); [|done].
  destruct Hok as [Hl Hp Hc]. cbn in *. destruct (message_of b i) as [m|] eqn:Em; constructor; cbn; try done.
  - intros m' Hm' Hp'. destruct (decide (i = m'.1)) as [->|Hi].
    + by rewrite lookup_insert_eq.
    + rewrite lookup_insert_ne by done. auto.
  - intros m' [Hm'|Hm']%elem_of_app; [auto|]. apply list_elem_of_singleton in Hm' as ->.
    by apply message_of_Some in Em as [? _].
  - intros m' Hm' Hp'. destruct (decide (i = m'.1)) as [->|Hi].
    + by apply message_of_None in Em.
    + rewrite lookup_delete_ne by done. auto.
Qed.

Lemma claim_all_ok consumer idle b g ids acc :
  claim_ok b g acc → claim_ok b g (foldl (λ acc i, claim_one consumer idle acc b i) acc ids).
Proof. revert acc. induction ids as [|i ids IH]; intros acc Hok; cbn; [done|]. by apply IH, claim_one_ok. Qed.

Lemma XCLAIM_safe log consumer idle ids :
  safe (stream_ok log) (stream_ok log) (XCLAIM consumer idle ids)
    (λ claimed v, stream_ok log v ∧ ∀ m, m ∈ claimed → m ∈ log).
Proof.
  apply safe_cmd; [done|]. intros b claimed b' Hok E. cbn in E.
  destruct (bu_group b) as [g|] eqn:Eg; [|done].
  pose proof (claim_all_ok consumer idle b g ids (g, [])) as Hc.
  destruct (foldl _ _ _) as [g' claimed'] eqn:Ef. injection E as <- <-.
  destruct Hc as [Hl Hp Hc]; [by constructor; cbn; [done|auto|intros ? ?%elem_of_nil]|]. cbn in *.
  enough (stream_ok log (set_group g' (view_of b))) as Hok'.
  { split; [exact Hok'|]. split; [exact Hok'|]. intros m Hm. by apply (so_entries _ _ Hok), Hc. }
  apply stream_ok_group; [done|rewrite Hl; exact (so_last _ _ Hok g Eg)|].
  intros m Hm. unfold undelivered, is_pending. cbn. rewrite Eg, Hl. intros [Hu|Hd]; [by left|].
  right. left. by apply Hp.
Qed.

(** XREADGROUP: what it skips was delivered before. *)
Lemma ids_ascend_filter l (p : message → Prop) `{∀ m, Decision (p m)} : ids_ascend l → ids_ascend (filter p l).
Proof.
  unfold ids_ascend. induction 1 as [|m l Hs IH Hm]; [constructor|].
  rewrite filter_cons. destruct (decide (p m)); [|done]. constructor; [done|].
  rewrite list.Forall_forall in *. intros x [_ Hx]%list_elem_of_filter. auto.
Qed.

Lemma id_before_trans a b c : id_before a b = true → id_before b c = true → id_before a c = true.
Proof. unfold id_before. rewrite !orb_true_iff, !andb_true_iff, !Z.ltb_lt, !Z.eqb_eq. lia. Qed.

Lemma id_before_irrefl a : id_before a a = false.
Proof. unfold id_before. rewrite !Z.ltb_irrefl. by rewrite andb_false_r. Qed.

Lemma deliver_all consumer now g l :
  let g' := foldl (deliver consumer now) g l in
  (l = [] → g' = g) ∧
  (∀ m, list.last l = Some m → gr_last g' = m.1) ∧
  (∀ i, is_Some (gr_pending g !! i) → is_Some (gr_pending g' !! i)) ∧
  (∀ m, m ∈ l → is_Some (gr_pending g' !! m.1)).
Proof.
  cbn. revert g. induction l as [|x l IH]; intros g; cbn [foldl].
  { split; [done|]. split; [done|]. split; [done|]. by intros m ?%elem_of_nil. }
  destruct (IH (deliver consumer now g x)) as (Hn & Hl & Hp & Hm).
  assert (∀ i, is_Some (gr_pending g !! i) → is_Some (gr_pending (deliver consumer now g x) !! i)) as Hd.
  { intros i Hi. cbn. destruct (decide (x.1 = i)) as [->|?]; [by rewrite lookup_insert_eq|by rewrite lookup_insert_ne]. }
  split; [done|]. split; [|split].
  - intros m. destruct l as [|y l]; [|by apply Hl]. intros [= <-]. by rewrite Hn.
  - auto.
  - intros m [->|Hin]%elem_of_cons; [|by apply Hm]. apply Hp. cbn. by rewrite lookup_insert_eq.
Qed.

(** In an ascending list, what is not among the first [n] comes after them all. *)
Lemma ids_ascend_take l n m x :
  ids_ascend l → m ∈ l → m ∉ take n l → list.last (take n l) = Some x → id_before x.1 m.1 = true.
Proof.
  intros Hs. revert n. induction Hs as [|y l Hs IH Hy]; intros n Hm Hn Hl; [by apply elem_of_nil in Hm|].
  destruct n as [|n]; [done|]. cbn in Hn, Hl. apply elem_of_cons in Hm as [->|Hm]; [exfalso; apply Hn; by left|].
  rewrite list.Forall_forall in Hy. rewrite last_cons in Hl.
  match type of Hl with match ?o with _ => _ end = _ => destruct o as [z|] eqn:Et end; injection Hl as <-; [|by apply Hy].
  eapply IH; [done| |exact Et]. intros Hin. apply Hn. by right.
Qed.

Lemma XREADGROUP_safe log consumer count :
  safe (stream_ok log) (stream_ok log) (XREADGROUP consumer count)
    (λ messages v, stream_ok log v ∧ ∀ m, m ∈ messages → m ∈ log).
Proof.
  apply safe_cmd; [done|]. intros b messages b' Hok E. cbn in E.
  destruct (bu_group b) as [g|] eqn:Eg; [|done]. injection E as Em <-.
  pose proof (so_ascend _ _ Hok) as Hasc. cbn in Hasc.
  assert (∀ m, m ∈ messages → m ∈ bu_entries b) as Hin.
  { intros m Hm. rewrite <-Em in Hm. unfold next_messages in Hm.
    apply elem_of_take in Hm as (k & Hk & _). apply list_elem_of_lookup_2 in Hk.
    by apply list_elem_of_filter in Hk as [_ ?]. }
  rewrite Em.
  destruct (deliver_all consumer (clock (bu_redis b)) g messages) as (Hn & Hl & Hp & Hm).
  set (g' := foldl (deliver consumer (clock (bu_redis b))) g messages) in *.
  enough (stream_ok log (set_group g' (view_of b))) as Hok'.
  { split; [exact Hok'|]. split; [exact Hok'|]. intros m Hm'. by apply (so_entries _ _ Hok), Hin. }
  apply stream_ok_group; [done| |].
  - destruct (list.last messages) as [x|] eqn:Ex.
    + right. exists x. split; [|by apply Hl]. apply (so_entries _ _ Hok), Hin. by apply last_Some_elem_of.
    + apply last_None in Ex. rewrite Hn by done. exact (so_last _ _ Hok g Eg).
  - intros m Hm'. unfold undelivered, is_pending. cbn. rewrite Eg. intros [Hu|Hd]; [|right; left; by apply Hp].
    destruct (decide (m ∈ messages)) as [Hd|Hd]; [right; left; by apply Hm|]. left.
    destruct (list.last messages) as [x|] eqn:Ex; [|apply last_None in Ex; by rewrite Hn].
    rewrite (Hl x eq_refl). unfold next_messages in Em. rewrite <-Em in Ex, Hd.
    eapply ids_ascend_take; [| |exact Hd|exact Ex]; [by apply ids_ascend_filter|by apply list_elem_of_filter].
Qed.

Lemma reclaim_safe log consumer : safe (stream_ok log) (stream_ok log) (reclaim consumer) (λ _, stream_ok log).
Proof.
  unfold reclaim. eapply safe_bind; [apply XPENDING_safe|]. intros ids. cbn beta.
  destruct (bool_decide _); [by apply safe_ret|].
  eapply safe_bind; [apply XCLAIM_safe|]. intros claimed b Hb.
  destruct Hb as [Hok Hin]. by apply (process_all_safe log claimed Hin b).
Qed.

Lemma recover_safe log now : safe (stream_ok log) (stream_ok log) (recover now) (λ _, stream_ok log).
Proof.
  intros b Hok. unfold recover.
  pose proof (recover_law (now - 5 * minute) (bu_world b) (so_world _ _ Hok)) as Hr.
  destruct (RecoverAttempts _ _) as [r w]. destruct Hr as [Hwf Hmono].
  assert (stream_ok log (view_of (with_world w b))) as Hok' by (eapply stream_ok_grow, Hok; done).
  by destruct r.
Qed.

Lemma RunOnce_safe log consumer now :
  safe (stream_ok log) (stream_ok log) (RunOnce consumer now) (λ _, stream_ok log).
Proof.
  unfold RunOnce. eapply safe_bind; [apply ensureGroup_safe|]. intros ?. cbn beta.
  eapply safe_bind; [apply reclaim_safe|]. intros ?. cbn beta.
  eapply safe_bind; [apply XREADGROUP_safe|]. intros messages b [Hok Hin]. revert b Hok.
  change (safe (stream_ok log) (stream_ok log) (process_all messages ≫= λ _, recover now) (λ _, stream_ok log)).
  eapply safe_bind; [by apply process_all_safe|]. intros ?. apply recover_safe.
Qed.

(** ** Retention *)

(** Nothing that waits for its first delivery is as old as the retention. *)
Definition caught_up (now : time) (v : view) : Prop :=
  ∀ m, m ∈ vw_entries v → undelivered m v → id_before m.1 (unix_milli (now - Retention), 0) = false.

#[local] Instance id_le_total : Total id_le.
Proof. intros a b. unfold id_le, id_before. rewrite !orb_false_iff, !andb_false_iff, !Z.ltb_ge, !Z.eqb_neq. lia. Qed.

#[local] Instance id_le_trans : Transitive id_le.
Proof. intros a b c. unfold id_le, id_before. rewrite !orb_false_iff, !andb_false_iff, !Z.ltb_ge, !Z.eqb_neq. lia. Qed.

Lemma id_le_before a b c : id_le a b → id_before b c = true → id_before a c = true.
Proof.
  unfold id_le, id_before. rewrite orb_false_iff, andb_false_iff, !orb_true_iff, !andb_true_iff, !Z.ltb_ge, !Z.ltb_lt, !Z.eqb_eq, !Z.eqb_neq. lia.
Qed.

Lemma pending_ids_all (b : bus (W := W)) g i : is_Some (gr_pending g !! i) → i ∈ pending_ids 0 b g.
Proof.
  intros [p Hp]. unfold pending_ids. rewrite merge_sort_Permutation. apply list_elem_of_bind.
  exists i. rewrite Hp. split; [by left|]. apply list_elem_of_fmap. exists (i, p). split; [done|]. by apply elem_of_map_to_list.
Qed.

(** The threshold never passes a pending entry. *)
Lemma trim_threshold_pending now (b : bus (W := W)) g i :
  is_Some (gr_pending g !! i) → id_before i (trim_threshold now (take 1 (pending_ids 0 b g))) = false.
Proof.
  intros Hi%(pending_ids_all b). assert (StronglySorted id_le (pending_ids 0 b g)) as Hs.
  { apply StronglySorted_merge_sort; apply _. }
  destruct (pending_ids 0 b g) as [|j l]; [by apply elem_of_nil in Hi|]. cbn [take].
  assert (id_le j i) as Hj.
  { apply elem_of_cons in Hi as [->|Hi]; [by apply id_before_irrefl|].
    inversion_clear Hs as [|? ? _ Hf]. rewrite list.Forall_forall in Hf. by apply Hf. }
  unfold trim_threshold. destruct (id_before j _) eqn:Eb; [exact Hj|].
  destruct (id_before i _) eqn:Ei; [|done]. by rewrite (id_le_before _ _ _ Hj Ei) in Eb.
Qed.

Lemma trim_threshold_retention now oldest i :
  id_before i (unix_milli (now - Retention), 0) = false → id_before i (trim_threshold now oldest) = false.
Proof.
  intros Hi. unfold trim_threshold. destruct oldest as [|j [|? ?]]; [done| |done].
  destruct (id_before j _) eqn:Ej; [|done].
  destruct (id_before i j) eqn:Eij; [|done]. by rewrite (id_before_trans _ _ _ Eij Ej) in Hi.
Qed.

Lemma XTRIM_safe log threshold :
  safe (stream_ok log)
    (λ v, stream_ok log v ∧ ∀ m, m ∈ vw_entries v → undelivered m v ∨ is_pending m v → id_before m.1 threshold = false)
    (XTRIM threshold) (λ _, stream_ok log).
Proof.
  apply safe_cmd; [by intros v []|]. intros b [] b' [Hok Hkeep] [= <-].
  enough (stream_ok log (view_of (with_entries (filter (λ m, id_before m.1 threshold = false) (bu_entries b)) b))) as Hok'.
  { by split. }
  assert (∀ m, m ∈ filter (λ m, id_before m.1 threshold = false) (bu_entries b) → m ∈ bu_entries b) as Hsub.
  { intros m Hm. by apply list_elem_of_filter in Hm as [_ ?]. }
  pose proof (so_ascend _ _ Hok) as Hasc. cbn in Hasc.
  destruct Hok as [Hwf _ Hent Hlog Hpos Huni Hlast Hdel Hadm]. constructor; try done; cbn.
  - by apply ids_ascend_filter.
  - intros m Hm. by apply Hent, Hsub.
  - intros m Hm. destruct (Hlog m Hm) as [Hin|Hs]; [|by right].
    destruct (Hdel m Hin) as [Hu|[Hp|Hs]]; [| |by right].
    + left. apply list_elem_of_filter. split; [apply Hkeep; auto|exact Hin].
    + left. apply list_elem_of_filter. split; [apply Hkeep; auto|exact Hin].
  - intros m Hm. by apply Hdel, Hsub.
Qed.

Lemma Trim_safe log now :
  safe (stream_ok log) (λ v, stream_ok log v ∧ caught_up now v) (Trim now) (λ _, stream_ok log).
Proof.
  unfold Trim. eapply safe_bind; [|intros oldest; apply XTRIM_safe].
  apply safe_cmd; [by intros v []|]. intros b oldest b' [Hok Hc] E. cbn in E.
  destruct (bu_group b) as [g|] eqn:Eg; [|done]. injection E as <- <-. split; [done|]. split; [done|].
  intros m Hm [Hu|Hp].
  - by apply trim_threshold_retention, Hc.
  - apply trim_threshold_pending. unfold is_pending in Hp. cbn in Hp. by rewrite Eg in Hp.
Qed.

(** ** The producer *)

(** Redis numbers a new entry above every earlier one. *)
Definition fresh_id (log : list message) (i : entry_id) : Prop :=
  id_before (0, 0) i = true ∧ ∀ m, m ∈ log → id_before m.1 i = true.

Definition admitted (m : message) : Prop := ∀ a, classify m.2 = inr a → admissible a.

Lemma stream_ok_added log (b : bus (W := W)) m :
  fresh_id log m.1 → admitted m → stream_ok log (view_of b) →
  stream_ok (log ++ [m]) (view_of (with_entries (bu_entries b ++ [m]) b)).
Proof.
  intros [Hpos' Hlt] Hadm' Hok. pose proof (so_ascend _ _ Hok) as Hasc. cbn in Hasc.
  destruct Hok as [Hwf _ Hent Hlog Hpos Huni Hlast Hdel Hadm]. cbn in *.
  constructor; cbn; try done.
  - assert (∀ x, x ∈ bu_entries b → id_before x.1 m.1 = true) as Hx by auto. clear -Hasc Hx.
    unfold ids_ascend in *. induction Hasc as [|y l Hs IH Hy]; cbn; [by repeat constructor|].
    constructor; [apply IH; intros x Hin; apply Hx; by right|].
    apply list.Forall_app. split; [done|]. apply list.Forall_singleton, Hx. by left.
  - intros x [Hx|Hx]%elem_of_app; apply elem_of_app; auto.
  - intros x [Hx|Hx]%elem_of_app; [|left; apply elem_of_app; by right].
    destruct (Hlog x Hx); [left; apply elem_of_app; by left|by right].
  - intros x [Hx|Hx]%elem_of_app; [auto|]. apply list_elem_of_singleton in Hx as ->. done.
  - assert (∀ x, x ∈ log → x.1 = m.1 → x = m) as Hne.
    { intros x Hx E. pose proof (Hlt x Hx) as Hb. by rewrite E, id_before_irrefl in Hb. }
    intros x y [Hx|Hx]%elem_of_app [Hy|Hy]%elem_of_app E;
      repeat match goal with H : _ ∈ [_] |- _ => apply list_elem_of_singleton in H as -> end; [auto|auto| |done].
    symmetry. by apply Hne.
  - intros g Hg. destruct (Hlast g Hg) as [|(x & Hx & E)]; [by left|]. right. exists x. split; [apply elem_of_app; auto|done].
  - intros x [Hx|Hx]%elem_of_app; [by apply Hdel|]. apply list_elem_of_singleton in Hx as ->. left.
    unfold undelivered. cbn. destruct (bu_group b) as [g|] eqn:Eg; [|done].
    destruct (Hlast g eq_refl) as [->|(x & Hx & ->)]; [done|by apply Hlt].
  - intros x a [Hx|Hx]%elem_of_app; [by apply Hadm|]. apply list_elem_of_singleton in Hx as ->. apply Hadm'.
Qed.

(** ** Everything that can happen to the stream *)

(** The state with the list of all events added so far.  Consumers of any name
    run in any order, events are added, old ones trimmed, other code moves the
    handler's world and the other keys, time passes, and any command fails in
    any way. *)
Inductive stream_step : list message * bus (W := W) → list message * bus (W := W) → Prop :=
| step_run log b consumer now : stream_step (log, b) (log, (RunOnce consumer now b).2)
| step_trim log b now : caught_up now (view_of b) → stream_step (log, b) (log, (Trim now b).2)
| step_add log b event i b' id :
    fresh_id log i → admitted (i, event_values event) → Add true event i b = (Ok id, b') →
    stream_step (log, b) (log ++ [(i, event_values event)], b')
| step_add_unknown log b event i e b' :
    fresh_id log i → admitted (i, event_values event) → Add true event i b = (Err e, b') →
    stream_step (log, b)
      (if bool_decide (length (bu_entries b') = length (bu_entries b)) then log
       else log ++ [(i, event_values event)], b')
| step_world log b w : wf w → (∀ a, done_ a (bu_world b) → done_ a w) →
    stream_step (log, b) (log, with_world w b)
| step_keys log b st : stream_step (log, b) (log, with_redis st b)
| step_faults log b fs : stream_step (log, b) (log, with_faults fs b).

Definition empty_stream (st : redis) (w : W) : bus (W := W) := Bus st [] None [] w [] [].

Inductive stream_reachable (st : redis) (w : W) : list message → bus (W := W) → Prop :=
| stream_start : stream_reachable st w [] (empty_stream st w)
| stream_next log b log' b' : stream_reachable st w log b → stream_step (log, b) (log', b') →
    stream_reachable st w log' b'.

Lemma stream_start_ok st w : wf w → stream_ok [] (view_of (empty_stream st w)).
Proof. intros Hw. constructor; try done; try (intros m Hm; by apply elem_of_nil in Hm); try (intros m ? Hm; by apply elem_of_nil in Hm). constructor. Qed.

Lemma cmd_entries {A} (m : bus (W := W) → result bus_error (A * bus)) (b : bus (W := W)) :
  let '(r, b') := cmd m b in
  (view_of b' = view_of b ∧ ∃ e, r = Err e) ∨
  ∃ b0 a b1, view_of b0 = view_of b ∧ m b0 = Ok (a, b1) ∧ view_of b' = view_of b1 ∧ ∀ x, r = Ok x → x = a.
Proof.
  unfold cmd. set (fb := match bu_faults b with [] => (NoFault, b) | f :: fs => (f, with_faults fs b) end).
  assert (view_of fb.2 = view_of b) as E by (unfold fb; by destruct (bu_faults b)).
  destruct fb as [f b0]. cbn in E.
  destruct f; [destruct (m b0) as [[a b1]|e] eqn:Em| |destruct (m b0) as [[a b1]|e] eqn:Em]; cbn.
  - right. exists b0, a, b1. split_and!; [done..|]. by intros ? [= <-].
  - left. eauto.
  - left. eauto.
  - right. exists b0, a, b1. split_and!; done.
  - left. eauto.
Qed.

Lemma Add_effect event i b :
  let '(r, b') := Add true event i b in
  (view_of b' = view_of b ∧ ∃ e, r = Err e) ∨
  view_of b' = view_of (with_entries (bu_entries b ++ [(i, event_values event)]) b).
Proof.
  unfold Add. cbn [negb]. destruct (negb _); [left; eauto|].
  pose proof (cmd_entries (λ b, Ok (i, with_entries (bu_entries b ++ [(i, event_values event)]) b)) b) as Hc.
  destruct (cmd _ b) as [r b']. destruct Hc as [[E He]|(b0 & a & b1 & E & [= <- <-] & Ev & _)]; [by left|right].
  rewrite Ev. unfold view_of in *. cbn. by injection E as -> -> -> -> ->.
Qed.

Lemma Add_ok event i b :
  is_ok (StreamEvent_Validate json_valid event) = true → bu_faults b = [] →
  Add true event i b = (Ok i, (Add true event i b).2).
Proof. intros Hv Hf. unfold Add, cmd. by rewrite Hv, Hf. Qed.

Lemma stream_step_ok log b log' b' :
  stream_step (log, b) (log', b') → stream_ok log (view_of b) → stream_ok log' (view_of b').
Proof.
  intros Hs. inversion Hs as [? ? consumer now|? ? now Hc|? ? event i ? id Hf Ha E|? ? event i e ? Hf Ha E|? ? w Hw Hd|? ? st|? ? fs]; subst; intros Hok.
  - pose proof (RunOnce_safe log' consumer now b Hok) as Hr.
    destruct (RunOnce consumer now b) as [r b1]. apply Hr.
  - pose proof (Trim_safe log' now b (conj Hok Hc)) as Hr. destruct (Trim now b) as [r b1]. apply Hr.
  - pose proof (Add_effect event i b) as He. rewrite E in He. destruct He as [[_ [? ?]]|He]; [done|].
    rewrite He. by apply stream_ok_added.
  - pose proof (Add_effect event i b) as He. rewrite E in He.
    assert (length (bu_entries b') = length (vw_entries (view_of b'))) as El by done.
    destruct He as [[He _]|He]; rewrite He in El; cbn in El; rewrite He.
    + by rewrite bool_decide_true.
    + rewrite length_app in El. cbn in El. rewrite bool_decide_false by lia. by apply stream_ok_added.
  - by eapply stream_ok_grow, Hok.
  - done.
  - done.
Qed.

Lemma stream_reachable_ok st w log b : wf w → stream_reachable st w log b → stream_ok log (view_of b).
Proof. intros Hw. induction 1; [by apply stream_start_ok|]. by eapply stream_step_ok. Qed.

End facts.

(** ** Producer and consumer agree *)

(** What encoding/json does with the values of one event, whose instant is of
    a year of four digits. *)
Record wire_keeps `{Wire} {A} `{Codec A} (payload : A) (at_ : time) : Prop := {
  wk_payload : ∃ s, marshal payload = Some s ∧ unmarshal s = Some payload ∧ json_valid s = true ∧ s ≠ ""%string;
  wk_time : 0 <= at_ < end_of_years
}.

Lemma decode_event_values `{Wire} event :
  ev_SchemaVersion event = SchemaVersion → 0 <= ev_OccurredAt event < end_of_years →
  decode (event_values event) = Some event.
Proof.
  intros Hv Ht. unfold decode, event_values. rewrite Hv.
  repeat (rewrite lookup_insert_eq || rewrite lookup_insert_ne by done). cbn [mbind option_bind].
  assert (atoi_ok (format_int SchemaVersion) = Some SchemaVersion) as -> by (vm_compute; done).
  cbn [mbind option_bind]. rewrite parse_format_rfc3339 by done. cbn. destruct event. cbn in *. by rewrite Hv.
Qed.

Lemma existsb_weaken {A} (p : A → bool) l l' : (∀ x, x ∈ l' → x ∈ l) → existsb p l = false → existsb p l' = false.
Proof.
  intros Hs Hl. destruct (existsb p l') eqn:E; [|done]. apply existsb_exists in E as (x & Hx & Hp).
  rewrite <-Hl. symmetry. apply existsb_exists. exists x. split; [|done].
  by apply list_elem_of_In, Hs, list_elem_of_In.
Qed.

Lemma stream_event_valid `{Wire} {A} `{Codec A} ty i r at_id p at_ (payload : A) event :
  (ty = EventTypeAttemptStarted ∨ ty = EventTypeRelease) → wire_keeps payload at_ →
  existsb blank [i; r; at_id; p] = false → is_zero_time at_ = false →
  NewStreamEvent ty i r at_id p at_ payload = Some event →
  StreamEvent_Validate json_valid event = Ok tt ∧ decode (event_values event) = Some event ∧
  unmarshal (ev_Payload event) = Some payload ∧
  event = MkStreamEvent ty SchemaVersion i r at_id p at_ (ev_Payload event).
Proof.
  intros Hty [(s & Hm & Hu & Hv & Hs) Ht] Hb Hz E. unfold NewStreamEvent in E. rewrite Hm in E.
  injection E as <-. split; [|split; [by apply decode_event_values|by split]].
  unfold StreamEvent_Validate. cbn [ev_SchemaVersion ev_EventType ev_EventID ev_RequestID ev_AttemptID ev_ProducerID ev_Payload ev_OccurredAt].
  change (negb (supportedSchemaVersion SchemaVersion)) with false. cbv iota.
  assert (negb (bool_decide (ty = EventTypeAttemptStarted)) && negb (bool_decide (ty = EventTypeRelease)) = false) as ->.
  { destruct Hty as [->| ->]; reflexivity. }
  rewrite Hb, Hv, Hz, orb_false_r. cbv iota. destruct s; [done|]. reflexivity.
Qed.

(** ** A small stream *)

Definition toy_started : AttemptStarted :=
  MkAttemptStarted SchemaVersion "s" "r" "a1" 1 "gw" 100 "acct" "openai" "gpt" "t1" 200.

Definition toy_release : Release := one_release 10.

#[local] Instance toy_wire : Wire := {
  wire_started := {| marshal := λ _, Some "s"%string; unmarshal := λ s, if String.eqb s "s" then Some toy_started else None |};
  wire_release := {| marshal := λ _, Some "r"%string; unmarshal := λ s, if String.eqb s "r" then Some toy_release else None |};
  json_valid := λ s, String.eqb s "s" || String.eqb s "r"
}.

(** It notes the attempts whose releases it saw. *)
#[local] Instance toy_handler : Handler (list string) := {
  handler_error := unit;
  Events.HandleAttemptStarted := λ p w, (Ok tt, as_AttemptID p :: w);
  Events.HandleRelease := λ p w, (Ok tt, rel_AttemptID p :: w);
  Events.RecoverAttempts := λ _ w, (Ok 0, w)
}.

#[local] Instance toy_laws : HandlerLaws (list string).
Proof.
  refine {| admissible := λ _, True; wf := λ _, True;
    done_ := λ a w, (match a with Events.Started p => as_AttemptID p | Released p => rel_AttemptID p end) ∈ w |}.
  - intros p w _ _ _. cbn. split; [done|]. split; [by intros a; right|by left].
  - intros p w _ _ _. cbn. split; [done|]. split; [by intros a; right|by left].
  - intros t w _. done.
Defined.

Definition toy_event : StreamEvent :=
  MkStreamEvent EventTypeRelease SchemaVersion (TerminalEventID "a1") "r" "a1" "gw" 150 "r".

Definition toy_bus : bus (W := list string) := empty_stream (Redis ∅ 0) [].

(** One event is added, then a consumer runs. *)
Definition toy_added : bus (W := list string) := (Add true toy_event (1, 0) toy_bus).2.
Definition toy_end : bus (W := list string) := (RunOnce "" 0 toy_added).2.

Lemma toy_events :
  bu_handled toy_end = [(1, 0)] ∧ bu_world toy_end = ["a1"%string] ∧ bu_dlq toy_end = [] ∧
  (gr_pending <$> bu_group toy_end) = Some ∅.
Proof. vm_compute. done. Qed.

Lemma toy_classify : classify (event_values toy_event) = inr (Released toy_release).
Proof. vm_compute. reflexivity. Qed.

Lemma toy_add : Add true toy_event (1, 0) toy_bus = (Ok (1, 0), toy_added).
Proof. vm_compute. reflexivity. Qed.

Lemma toy_reachable : stream_reachable (Redis ∅ 0) [] [((1, 0), event_values toy_event)] toy_end.
Proof.
  apply (stream_next _ _ [((1, 0), event_values toy_event)] toy_added); [|apply step_run].
  apply (stream_next _ _ [] toy_bus); [apply stream_start|].
  apply (step_add [] toy_bus toy_event (1, 0) toy_added (1, 0)); [|intros ? ?; exact I|apply toy_add].
  split; [reflexivity|]. by intros m Hm%elem_of_nil.
Qed.

(** ** The properties *)

(** C19 No accepted event is ever lost.  Whatever consumers run, crash and
    reclaim in whatever order, whatever commands fail with their effect taken
    or not, and as long as retention is only enforced when nothing undelivered
    has aged out: every event the stream took is still in it and waiting for
    delivery or pending, or its handler accepted it and what it asks for is
    done, or it sits in the dead-letter stream with all its values. *)
Theorem events_never_lost {W} `{HandlerLaws W} `{Wire} (st : redis) (w : W) log b :
  wf w → stream_reachable st w log b →
  ∀ m, m ∈ log →
    (m ∈ bu_entries b ∧ (undelivered m (view_of b) ∨ is_pending m (view_of b))) ∨
    (m.1 ∈ bu_handled b ∧ ∃ a, classify m.2 = inr a ∧ done_ a (bu_world b)) ∨
    (∃ d, d ∈ bu_dlq b ∧ dl_original d = m.1 ∧ dl_values d = m.2).
Proof.
  intros Hw Hr m Hm. pose proof (stream_reachable_ok _ _ _ _ Hw Hr) as Hok.
  destruct (so_log _ _ Hok m Hm) as [Hin|[Hs|Hs]]; [|by right; left|by right; right].
  destruct (so_delivered _ _ Hok m Hin) as [Hu|[Hp|[Hs|Hs]]]; [by left; auto|by left; auto|by right; left|by right; right].
Qed.

Lemma events_never_lost_witness :
  let m := ((1, 0), event_values toy_event) in
  (m ∈ bu_entries toy_end ∧ (undelivered m (view_of toy_end) ∨ is_pending m (view_of toy_end))) ∨
  (m.1 ∈ bu_handled toy_end ∧ ∃ a, classify m.2 = inr a ∧ done_ a (bu_world toy_end)) ∨
  (∃ d, d ∈ bu_dlq toy_end ∧ dl_original d = m.1 ∧ dl_values d = m.2).
Proof.
  apply (events_never_lost (Redis ∅ 0) [] [((1, 0), event_values toy_event)] toy_end);
    [exact I|apply toy_reachable|left].
Defined.

(** C22 What the gateway puts on the stream is what control acts upon: the event
    of a valid release is accepted by the producer's validation, and the
    consumer reads back exactly that release and hands it to its handler,
    never to the dead-letter stream. *)
Theorem release_event_understood `{Wire} release event :
  Release_Validate release = Ok tt → wire_keeps release (rel_OccurredAt release) →
  mustStreamEvent EventTypeRelease release = Some event →
  StreamEvent_Validate json_valid event = Ok tt ∧ classify (event_values event) = inr (Released release).
Proof.
  intros Hval Hk E. pose proof Hval as Hval'. unfold Release_Validate in Hval.
  destruct (negb (supportedSchemaVersion _)); [done|].
  match type of Hval with context [existsb blank ?l] => destruct (existsb blank l) eqn:Hb; [done|] end.
  destruct (negb (bool_decide _)); [done|].
  destruct (is_zero_time (rel_OccurredAt release)) eqn:Hz; [by destruct (rel_AttemptNo release <? 0)|]. clear Hval.
  apply (stream_event_valid _ _ _ _ _ (rel_OccurredAt release)) in E as (Hv & Hd & Hu & Ee); [|by right|done| |done].
  2:{ eapply existsb_weaken, Hb. intros x Hx. set_solver. }
  split; [done|]. unfold classify. rewrite Hd, Hv, Ee. cbn -[String.eqb]. unfold read_release. cbn [ev_Payload].
  rewrite Hu. unfold validateReleaseIdentity. cbn. by rewrite !String.eqb_refl, Hval'.
Qed.

Lemma toy_wire_keeps : wire_keeps toy_release (rel_OccurredAt toy_release).
Proof. split; [by exists "r"%string|]. vm_compute. by split. Qed.

Lemma release_event_understood_witness :
  StreamEvent_Validate json_valid toy_event = Ok tt ∧
  classify (event_values toy_event) = inr (Released toy_release).
Proof.
  apply (release_event_understood toy_release toy_event);
    [vm_compute; reflexivity|apply toy_wire_keeps|vm_compute; reflexivity].
Defined.

(** Retention does discard work that was never delivered: an entry beyond the
    retention window that no consumer has read yet is removed by [Trim], which
    bounds itself by the pending entries only. *)
Theorem Trim_drops_undelivered {W} `{Handler W} (now : time) (b : bus (W := W)) g m :
  bu_faults b = [] → bu_group b = Some g → gr_pending g = ∅ → m ∈ bu_entries b →
  id_before (gr_last g) m.1 = true → id_before m.1 (unix_milli (now - Retention), 0) = true →
  let '(r, b') := Trim now b in
  r = Ok tt ∧ (m ∉ bu_entries b') ∧ bu_dlq b' = bu_dlq b ∧ bu_handled b' = bu_handled b ∧ bu_world b' = bu_world b.
Proof.
  intros Hf Hg Hp Hm Hu Hold. unfold Trim, mbind, C_bind, XPENDING, XTRIM, cmd. rewrite Hf, Hg.
  assert (pending_ids 0 b g = []) as -> by (unfold pending_ids; rewrite Hp; done). cbn [take]. rewrite Hf. cbn.
  split; [done|]. split; [|done]. intros [Hk _]%list_elem_of_filter. congruence.
Qed.

Lemma Trim_drops_undelivered_witness :
  let b := with_group (Group (0, 0) ∅) toy_added in
  let '(r, b') := Trim (63000000000 * second) b in
  r = Ok tt ∧ (((1, 0), event_values toy_event) ∉ bu_entries b') ∧ bu_dlq b' = [] ∧ bu_handled b' = [] ∧ bu_world b' = [].
Proof.
  apply (Trim_drops_undelivered (63000000000 * second) (with_group (Group (0, 0) ∅) toy_added) (Group (0, 0) ∅)
    ((1, 0), event_values toy_event)); try reflexivity.
  vm_compute. left.
Defined.
