(* ===== verification/Metering.v ===== *)
(** * Metering, from the stream to the ledger

    events_adapter.go hands the PostgreSQL ledger (Ledger.v) to the consumer of
    the event stream (Events.v) as its handler.  The ledger keeps the laws a
    handler is expected to keep, so that what EventsFacts.v proves of the
    stream holds of the two together, beside every other operation of control
    (System.v): a release the gateway emitted is metered exactly once. *)

From S2P Require Import Prelude Decimal Contracts Numeric GoTime Db Billing MoneyInvariant Ledger LedgerFacts System Redis Snapshot Events EventsFacts.

Open Scope Z_scope.

(** The ledger, what time.Now() answers it, and the attempts whose rows other
    transactions hold locked. *)
Record control := Control { ctl_clock : time; ctl_locked : gset string; ctl_world : world }.

Definition on_world {A B} (c : control) (f : A → B) (r : result db_error A * world) : result db_error B * control :=
  (match r.1 with Ok a => Ok (f a) | Err e => Err e end, Control (ctl_clock c) (ctl_locked c) r.2).

#[export] Instance ledger_handler : Handler control := {
  handler_error := db_error;
  Events.HandleAttemptStarted := λ event c, on_world c (λ x, x) (Ledger.HandleAttemptStarted event (ctl_world c));
  Events.HandleRelease := λ release c, on_world c (λ _, tt) (Ledger.HandleRelease release (ctl_world c));
  Events.RecoverAttempts := λ before_ c, on_world c (λ x, x) (Ledger.RecoverAttempts (ctl_locked c) before_ (ctl_clock c) (ctl_world c))
}.

Definition attempts_of (c : control) : gmap string attempt_row := request_attempts (tables (ctl_world c)).

(** A started attempt is persisted, a released one is closed. *)
Definition ledger_done (a : action) (c : control) : Prop :=
  match a with
  | Events.Started p => is_Some (attempts_of c !! as_AttemptID p)
  | Released r => ∃ row, attempts_of c !! rel_AttemptID r = Some row ∧ ra_state row ≠ "open"%string
  end.

Lemma ledger_done_grow a c c' : attempts_grow (attempts_of c) (attempts_of c') → ledger_done a c → ledger_done a c'.
Proof.
  intros Hg. destruct a as [p|r]; cbn.
  - intros [row Hr]. destruct (Hg _ _ Hr) as (row' & Hr' & _). by eexists.
  - intros (row & Hr & Hs). destruct (Hg _ _ Hr) as (row' & Hr' & E). rewrite E in Hr' by done. eauto.
Qed.

Section laws.
  Context (P : string → Prop) (HP : collision_free P).

Definition control_wf (c : control) : Prop := control_ok P ∅ ∅ (tables (ctl_world c)).

Lemma control_ok_attempts t : control_ok P ∅ ∅ t → control_ok P ∅ (request_attempts t) t.
Proof using Type. intros [? ? ? ? ?]. split; try done. apply attempts_grow_refl. Qed.

Lemma control_ok_forget m am t : control_ok P m am t → control_ok P ∅ ∅ t.
Proof using Type. intros [? ? ? ? ?]. by split; [| |intros ? ? ?%lookup_empty_Some|intros ? ? ?%lookup_empty_Some|]. Qed.

(** An operation of control keeps what is done. *)
Lemma kept_done c t' :
  control_ok P ∅ (attempts_of c) t' → ∀ clock locked fs,
    control_wf (Control clock locked (World t' fs)) ∧ (∀ a, ledger_done a c → ledger_done a (Control clock locked (World t' fs))).
Proof using Type.
  intros Hok clock locked fs. split; [by eapply control_ok_forget|]. intros a. apply ledger_done_grow. apply (ct_attempts _ _ _ _ Hok).
Qed.

Lemma HandleAttemptStarted_done event w :
  let '(r, w') := Ledger.HandleAttemptStarted event w in
  is_ok r = true → is_Some (request_attempts (tables w') !! as_AttemptID event).
Proof using Type.
  unfold Ledger.HandleAttemptStarted, exec, stmt. destruct (next_fault w) as [[| |] w0]; cbn; [|done..].
  intros _. destruct (request_attempts (tables w0) !! as_AttemptID event) eqn:E; [by rewrite E|].
  cbn. by rewrite lookup_insert_eq.
Qed.

Lemma HandleRelease_done release w :
  ledger_ok P (tables w) → derived release →
  let '(r, w') := Ledger.HandleRelease release w in
  is_ok r = true →
  ∃ row, request_attempts (tables w') !! rel_AttemptID release = Some row ∧ ra_state row ≠ "open"%string.
Proof using HP.
  intros Hl Hd. pose proof (HandleRelease_contract P HP release w Hl Hd) as H.
  destruct (Ledger.HandleRelease release w) as [r w']. intros Hr.
  destruct H as [[_ [e ->]]|(first & (a & Ha & H) & _)]; [done|]. destruct first; destruct H as [Ho Ht].
  - rewrite Ht. unfold released. cbn. rewrite lookup_insert_eq. eexists. split; [done|]. cbn. by rewrite Ho.
  - exists a. by rewrite Ht.
Qed.

#[export] Instance ledger_laws : HandlerLaws control.
Proof using P HP.
  refine {| admissible := λ a, match a with Events.Started p => P (as_AttemptID p) | Released _ => True end;
            wf := control_wf; done_ := ledger_done |}.
  - intros p [clock locked w] Hw Hp _. cbn in *. pose proof (control_ok_attempts _ Hw) as Hn.
    pose proof (HandleAttemptStarted_keeps P ∅ _ p Hp w Hn) as Hk.
    pose proof (HandleAttemptStarted_done p w) as Hd.
    destruct (Ledger.HandleAttemptStarted p w) as [r [t' fs]]. unfold on_world. cbn in *.
    destruct (kept_done (Control clock locked w) t' Hk clock locked fs) as [H1 H2]. split; [done|]. split; [done|].
    intros Hr. apply Hd. by destruct r.
  - intros p [clock locked w] Hw _ Hv. cbn in *. pose proof (control_ok_attempts _ Hw) as Hn.
    assert (derived p) as Hder.
    { apply Release_Validate_derived. by destruct (Release_Validate p) as [[]|]. }
    pose proof (HandleRelease_keeps P HP ∅ _ p Hder w Hn) as Hk.
    pose proof (HandleRelease_done p w (ct_ledger _ _ _ _ Hw) Hder) as Hd.
    destruct (Ledger.HandleRelease p w) as [r [t' fs]]. unfold on_world. cbn in *.
    destruct (kept_done (Control clock locked w) t' Hk clock locked fs) as [H1 H2]. split; [done|]. split; [done|].
    intros Hr. apply Hd. by destruct r.
  - intros t [clock locked w] Hw. cbn in *. pose proof (control_ok_attempts _ Hw) as Hn.
    pose proof (RecoverAttempts_keeps P HP ∅ _ locked t clock w Hn) as Hk.
    destruct (Ledger.RecoverAttempts locked t clock w) as [r [t' fs]]. unfold on_world. cbn in *.
    by apply (kept_done (Control clock locked w)).
Defined.

(** ** The stream and the rest of control *)

Context `{Wire}.

(** Beside the stream, any other operation of control runs on the database, with
    any clock, faults and locks for what comes next.  As in [stream_step],
    retention is enforced only when nothing undelivered has aged out. *)
Inductive metering_step : list message * bus (W := control) → list message * bus (W := control) → Prop :=
| ms_stream s s' : stream_step s s' → metering_step s s'
| ms_op log b o fs clock locked : op_ok P o →
    metering_step (log, b) (log, with_world (Control clock locked (World (run_op o (ctl_world (bu_world b))) fs)) b).

Inductive metering_reachable (st : redis) (c : control) : list message → bus (W := control) → Prop :=
| metering_start : metering_reachable st c [] (empty_stream st c)
| metering_next log b log' b' : metering_reachable st c log b → metering_step (log, b) (log', b') →
    metering_reachable st c log' b'.

Lemma metering_ok st c log b : control_wf c → metering_reachable st c log b → stream_ok log (view_of b).
Proof using HP.
  intros Hw. induction 1 as [|log b log' b' _ IH Hs]; [by apply stream_start_ok|].
  inversion Hs as [? ? Hss|? ? o fs clock locked Ho]; subst; [by eapply stream_step_ok|].
  destruct (kept_done (bu_world b) (run_op o (ctl_world (bu_world b)))) with clock locked fs as [Hwf Hmono].
  { apply run_op_keeps; [done|done|]. apply control_ok_attempts, (so_world _ _ IH). }
  by eapply stream_ok_grow, IH.
Qed.
End laws.

(** ** A request from the stream to the ledger *)

#[local] Existing Instance toy_wire.

Definition run_start : control := Control 0 ∅ (World tiny_start []).

Definition toy_start_event : StreamEvent :=
  MkStreamEvent EventTypeAttemptStarted SchemaVersion "s" "r" "a1" "gw" 100 "s".

Definition run_bus0 : bus (W := control) := empty_stream (Redis ∅ 0) run_start.
Definition run_bus1 : bus (W := control) := (Add true toy_start_event (1, 0) run_bus0).2.
Definition run_bus2 : bus (W := control) := (Add true toy_event (2, 0) run_bus1).2.

(** The acknowledgement of the release is lost on the way. *)
Definition run_bus3 : bus (W := control) :=
  (Events.RunOnce "" 0 (with_faults (replicate 9 NoFault ++ [Lost]) run_bus2)).2.

(** A minute later another consumer claims it and hands it on again. *)
Definition run_bus4 : bus (W := control) :=
  (Events.RunOnce "control-2" 0 (with_redis (elapse 60000 (bu_redis run_bus3)) (with_faults [] run_bus3))).2.

Definition run_log : list message := [((1, 0), event_values toy_start_event); ((2, 0), event_values toy_event)].

Example run_redelivered :
  (size (gr_pending (default (Group (0, 0) ∅) (bu_group run_bus3))), bu_handled run_bus3) = (1%nat, [(2, 0); (1, 0)]) ∧
  (size (gr_pending (default (Group (0, 0) ∅) (bu_group run_bus4))), bu_handled run_bus4) = (0%nat, [(2, 0); (2, 0); (1, 0)]) ∧
  length (usage_ledger (tables (ctl_world (bu_world run_bus4)))) = 1%nat.
Proof. vm_compute. done. Qed.

#[local] Instance run_laws : HandlerLaws control := ledger_laws only_a1 only_a1_free.

Lemma run_start_wf : control_wf only_a1 run_start.
Proof.
  exact (control_ok_forget only_a1 tiny_accounts ∅ tiny_start
    (start_ok only_a1 {["t1"%string]} 10 tiny_accounts tiny_credentials)).
Qed.

Lemma run_add1 : Add true toy_start_event (1, 0) run_bus0 = (Ok (1, 0), run_bus1).
Proof. apply Add_ok; vm_compute; reflexivity. Qed.

Lemma run_add2 : Add true toy_event (2, 0) run_bus1 = (Ok (2, 0), run_bus2).
Proof. apply Add_ok; vm_compute; reflexivity. Qed.

Lemma run_admitted1 : admitted ((1, 0), event_values toy_start_event).
Proof.
  assert (classify (event_values toy_start_event) = inr (Events.Started toy_started)) as E by (vm_compute; reflexivity).
  intros a Ha. cbn [snd] in Ha. rewrite E in Ha. injection Ha as <-. reflexivity.
Qed.

Lemma run_admitted2 : admitted ((2, 0), event_values toy_event).
Proof. intros a Ha. cbn [snd] in Ha. rewrite toy_classify in Ha. injection Ha as <-. exact I. Qed.

Lemma run_reachable : metering_reachable only_a1 only_a1_free (Redis ∅ 0) run_start run_log run_bus4.
Proof.
  assert (∀ log b b' b'', metering_reachable only_a1 only_a1_free (Redis ∅ 0) run_start log b →
    stream_step (log, b) (log, b') → stream_step (log, b') (log, b'') →
    metering_reachable only_a1 only_a1_free (Redis ∅ 0) run_start log b'') as Htwo.
  { intros log b b' b'' Hr H1 H2. eapply metering_next; [|by apply ms_stream].
    eapply metering_next; [exact Hr|]. by apply ms_stream. }
  eapply (Htwo _ (with_faults [] run_bus3) (with_redis (elapse 60000 (bu_redis run_bus3)) (with_faults [] run_bus3)));
    [|apply step_keys|apply step_run].
  eapply (Htwo _ (with_faults (replicate 9 NoFault ++ [Lost]) run_bus2) run_bus3); [|apply step_run|apply step_faults].
  eapply metering_next; [|apply ms_stream, step_faults].
  apply (metering_next _ _ _ _ [((1, 0), event_values toy_start_event)] run_bus1).
  2:{ apply ms_stream. apply (step_add [((1, 0), event_values toy_start_event)] run_bus1 toy_event (2, 0) run_bus2 (2, 0));
        [|apply run_admitted2|apply run_add2].
      split; [reflexivity|]. intros m Hm. apply list_elem_of_singleton in Hm as ->. reflexivity. }
  apply (metering_next _ _ _ _ [] run_bus0); [apply metering_start|].
  apply ms_stream. apply (step_add [] run_bus0 toy_start_event (1, 0) run_bus1 (1, 0));
    [|apply run_admitted1|apply run_add1].
  split; [reflexivity|]. by intros m Hm%elem_of_nil.
Qed.

(** C18 Metering is exactly-once end to end, as long as retention is only enforced
    when nothing undelivered has aged out; when it is enforced over a release
    nobody has read yet, that release is gone, [Trim_drops_undelivered].  From any
    well-formed start of control, for attempts whose terminal event ids do not
    collide, with consumers, redeliveries, faults and every other operation of
    control interleaved: each release event the stream took is still waiting, or
    in the dead-letter stream with its values, or its attempt has exactly one
    ledger row; and whatever was redelivered, no attempt ever has two. *)
Theorem stream_meters_exactly_once P `{Wire} (HP : collision_free P) st c log b :
  control_wf P c → metering_reachable P HP st c log b →
  let rows k := length (filter (λ row, ul_attempt_id row = k) (usage_ledger (tables (ctl_world (bu_world b))))) in
  (∀ m r, m ∈ log → classify m.2 = inr (Released r) →
     (m ∈ bu_entries b ∧ (undelivered m (view_of b) ∨ is_pending m (view_of b))) ∨
     (∃ d, d ∈ bu_dlq b ∧ dl_original d = m.1 ∧ dl_values d = m.2) ∨
     rows (rel_AttemptID r) = 1%nat) ∧
  (∀ k, (rows k <= 1)%nat).
Proof.
  intros Hw Hr rows. pose proof (metering_ok P HP _ _ _ _ Hw Hr) as Hok.
  pose proof (ct_ledger _ _ _ _ (so_world _ _ Hok)) as Hl.
  change (ledger_ok P (tables (ctl_world (bu_world b)))) in Hl.
  assert (∀ m r, classify m.2 = inr (Released r) → settled m (view_of b) →
    (∃ d, d ∈ bu_dlq b ∧ dl_original d = m.1 ∧ dl_values d = m.2) ∨ rows (rel_AttemptID r) = 1%nat) as Hs.
  { intros m r Ha [(_ & a & Ha' & Hd)|Hd]; [right|by left].
    rewrite Ha in Ha'. injection Ha' as <-. destruct Hd as (row & Hrow & Hst).
    change (attempts_of _) with (request_attempts (tables (ctl_world (bu_world b)))) in Hrow.
    unfold rows. rewrite (ledger_ok_count _ _ _ _ Hl Hrow). by apply String.eqb_neq in Hst as ->. }
  split.
  - intros m r Hm Ha. destruct (so_log _ _ Hok m Hm) as [Hin|Hse]; [|right; by eapply Hs].
    destruct (so_delivered _ _ Hok m Hin) as [Hu|[Hp|Hse]]; [by left; auto|by left; auto|right; by eapply Hs].
  - intros k. unfold rows.
    destruct (request_attempts (tables (ctl_world (bu_world b))) !! k) as [a|] eqn:E.
    + rewrite (ledger_ok_count _ _ _ _ Hl E). destruct (String.eqb _ _); lia.
    + destruct (filter _ _) as [|r l] eqn:Ef; [cbn; lia|]. exfalso.
      assert (r ∈ filter (λ row, ul_attempt_id row = k) (usage_ledger (tables (ctl_world (bu_world b))))) as Hin
        by (rewrite Ef; apply list_elem_of_here).
      apply list_elem_of_filter in Hin as [Hk Hin]. destruct (lo_closed _ _ Hl r Hin) as (b' & Hb & _). congruence.
Qed.

Lemma stream_meters_exactly_once_witness :
  let rows k := length (filter (λ row, ul_attempt_id row = k) (usage_ledger (tables (ctl_world (bu_world run_bus4))))) in
  (∀ m r, m ∈ run_log → classify m.2 = inr (Released r) →
     (m ∈ bu_entries run_bus4 ∧ (undelivered m (view_of run_bus4) ∨ is_pending m (view_of run_bus4))) ∨
     (∃ d, d ∈ bu_dlq run_bus4 ∧ dl_original d = m.1 ∧ dl_values d = m.2) ∨
     rows (rel_AttemptID r) = 1%nat) ∧
  (∀ k, (rows k <= 1)%nat).
Proof.
  apply (stream_meters_exactly_once only_a1 only_a1_free (Redis ∅ 0) run_start run_log run_bus4);
    [apply run_start_wf|apply run_reachable].
Defined.
