(* ===== verification/Cipher.v ===== *)
(** * Credentials at rest

    internal/control/credentials/cipher.go: a format byte, a nonce and the
    AES-256-GCM ciphertext of the credential, bound to its account through the
    additional data.  AES-GCM itself (crypto/aes, crypto/cipher) is the [Gcm]
    class: opening is the inverse of sealing, and the tag has sixteen bytes. *)

From S2P Require Import Prelude Sha256 Decimal Money.

Open Scope Z_scope.

(** [seal key nonce plaintext additional]. *)
Class Gcm := {
  seal : string → string → string → string → string;
  unseal : string → string → string → string → option string
}.

Definition nonceSize : Z := 12.
Definition overhead : Z := 16.

Class GcmLaws `{Gcm} := {
  seal_length key nonce p ad : str_len (seal key nonce p ad) = str_len p + overhead;
  unseal_seal key nonce c ad p : unseal key nonce c ad = Some p ↔ c = seal key nonce p ad
}.

Definition formatVersion : string := chr 1.
Definition MaxPlaintextBytes : Z := 1048576.

Inductive cipher_error :=
| ErrInvalidKey
| ErrInvalidPlaintext
| ErrPlaintextTooLarge
| ErrInvalidCiphertext
| ErrNonce.

Record Cipher := MkCipher { cipher_key : string }.

Definition NewCipher (key : string) : result cipher_error Cipher :=
  if negb (str_len key =? 32) then Err ErrInvalidKey else Ok (MkCipher key).

Definition additionalData (accountID : string) : string := "gateway-platform/credential/v1/" +:+ accountID.

Section cipher.
  Context `{Gcm}.

(** [nonce] is what the system's source of randomness yields. *)
Definition Encrypt (c : option Cipher) (accountID plaintext : string) (nonce : option string)
    : result cipher_error string :=
  match c with
  | None => Err ErrInvalidCiphertext
  | Some c =>
      if blank accountID then Err ErrInvalidCiphertext
      else if str_len plaintext =? 0 then Err ErrInvalidPlaintext
      else if MaxPlaintextBytes <? str_len plaintext then Err ErrPlaintextTooLarge
      else match nonce with
      | None => Err ErrNonce
      | Some nonce =>
          Ok (formatVersion +:+ nonce +:+ seal (cipher_key c) nonce plaintext (additionalData accountID))
      end
  end.

Definition Decrypt (c : option Cipher) (accountID ciphertext : string) : result cipher_error string :=
  match c with
  | None => Err ErrInvalidCiphertext
  | Some c =>
      if blank accountID || (str_len ciphertext <? 1 + nonceSize + overhead)
         || (1 + nonceSize + MaxPlaintextBytes + overhead <? str_len ciphertext)
      then Err ErrInvalidCiphertext
      else if negb (String.eqb (str_take 1 ciphertext) formatVersion) then Err ErrInvalidCiphertext
      else
        let sealed := str_drop 1 ciphertext in
        match unseal (cipher_key c) (str_take 12 sealed) (str_drop 12 sealed) (additionalData accountID) with
        | Some plaintext => Ok plaintext
        | None => Err ErrInvalidCiphertext
        end
  end.

Context `{!GcmLaws}.

Lemma str_len_app s t : str_len (s +:+ t) = str_len s + str_len t.
Proof. rewrite str_length_app. lia. Qed.

Lemma Decrypt_sealed c accountID nonce sealed :
  blank accountID = false → str_len nonce = nonceSize → overhead <= str_len sealed <= MaxPlaintextBytes + overhead →
  Decrypt (Some c) accountID (formatVersion +:+ nonce +:+ sealed)
  = match unseal (cipher_key c) nonce sealed (additionalData accountID) with
    | Some plaintext => Ok plaintext | None => Err ErrInvalidCiphertext
    end.
Proof.
  intros Hb Hn Hs. unfold Decrypt. rewrite Hb, !str_len_app. change (str_len formatVersion) with 1.
  rewrite (proj2 (Z.ltb_ge _ _)) by lia. rewrite (proj2 (Z.ltb_ge _ _)) by lia.
  change (str_take 1 (formatVersion +:+ ?x)) with formatVersion.
  change (str_drop 1 (formatVersion +:+ ?x)) with x. cbn [negb String.eqb].
  assert (12%nat = String.length nonce) as -> by (unfold nonceSize in Hn; lia).
  by rewrite str_take_app, str_drop_app.
Qed.

(** What is encrypted for an account is decrypted for it. *)
Lemma Decrypt_Encrypt c accountID plaintext nonce sealed :
  Encrypt c accountID plaintext (Some nonce) = Ok sealed → str_len nonce = nonceSize →
  Decrypt c accountID sealed = Ok plaintext.
Proof.
  unfold Encrypt. destruct c as [c|]; [|done].
  destruct (blank accountID) eqn:Hb; [done|]. case_match; [done|]. case_match eqn:Hm; [done|].
  apply Z.ltb_ge in Hm. intros [= <-] Hn. rewrite Decrypt_sealed; [|done..|rewrite seal_length; lia].
  by rewrite (proj2 (unseal_seal _ _ _ _ _) eq_refl).
Qed.
End cipher.

(** A cipher that keeps the laws and protects nothing. *)
Module Toy.
Definition pad : string := "................".
#[export] Instance gcm : Gcm := {|
  seal key nonce p ad := p +:+ pad;
  unseal key nonce c ad :=
    let p := str_take (String.length c - 16) c in if String.eqb (p +:+ pad) c then Some p else None
|}.
#[export] Instance gcm_laws : GcmLaws.
Proof.
  split; [intros; apply str_len_app|]. intros key nonce c ad p. cbn. split.
  - case_match eqn:E; [|done]. apply String.eqb_eq in E. by intros [= <-].
  - intros ->. rewrite str_length_app. change (String.length pad) with 16%nat.
    replace (String.length p + 16 - 16)%nat with (String.length p) by lia.
    by rewrite str_take_app, String.eqb_refl.
Qed.
End Toy.
