(* ===== verification/Provider.v ===== *)
(** * Providers

    internal/control/provider: provider.go (the registry and the dispatch of
    OAuth refresh and revocation), profile.go (the public endpoints) and
    quota.go (what a quota must satisfy).  What a provider answers is up to the
    callers' environment; here it is the record of what it declares. *)

From S2P Require Import Prelude Decimal Contracts GoJson GoUrl.

Open Scope Z_scope.
Open Scope string_scope.

(** ** Authentication modes *)

Definition AuthModeOAuth : string := "oauth".
Definition AuthModeAPIKey : string := "api_key".

Definition canonicalAuthMode (mode : string) : option string :=
  let is_ := lower_is (trim_space mode) in
  if is_ AuthModeAPIKey || is_ "static" then Some AuthModeAPIKey
  else if is_ AuthModeOAuth || is_ "pkce" || is_ "device" || is_ "cli" then Some AuthModeOAuth
  else None.

(** ** The registry *)

(** What a provider declares; [None] is a provider without [AuthMode], and the
    flags say which optional interfaces it implements. *)
Record Provider := MkProvider {
  pv_Kind : string;
  pv_AuthMode : option string;
  pv_UsageIntegrity : UsageIntegrity;
  pv_OAuthRefresher : bool;
  pv_OAuthRevoker : bool;
  pv_ImportProfileProvider : bool
}.

Record registry := Registry {
  rg_items : gmap string Provider;
  rg_byAuth : gmap string (gmap string Provider)
}.

Definition no_providers : registry := Registry ∅ ∅.

(** A nil provider is no provider. *)
Definition Register (p : Provider) (r : registry) : registry :=
  if String.eqb (pv_Kind p) "" then r
  else
    let mode := default "" (pv_AuthMode p ≫= canonicalAuthMode) in
    let byAuth := if String.eqb mode "" then rg_byAuth r
                  else <[pv_Kind p := <[mode := p]> (default ∅ (rg_byAuth r !! pv_Kind p))]> (rg_byAuth r) in
    let items := if negb (bool_decide (is_Some (rg_items r !! pv_Kind p)))
                    || String.eqb mode AuthModeOAuth || String.eqb mode ""
                 then <[pv_Kind p := p]> (rg_items r) else rg_items r in
    Registry items byAuth.

Definition Get (kind : string) (r : registry) : option Provider := rg_items r !! kind.

Definition GetForAuth (kind authMode : string) (r : registry) : option Provider :=
  mode ← canonicalAuthMode authMode;
  match rg_byAuth r !! kind ≫= (.!! mode) with
  | Some p => Some p
  | None =>
      p ← rg_items r !! kind;
      match pv_AuthMode p with
      | Some advertised => if bool_decide (canonicalAuthMode advertised = Some mode) then Some p else None
      | None => Some p
      end
  end.

(** A policy outside the contract is as good as none. *)
Definition UsageIntegrityFor (kind : string) (r : registry) : option UsageIntegrity :=
  p ← Get kind r;
  if UsageIntegrity_Valid (pv_UsageIntegrity p) then Some (pv_UsageIntegrity p) else None.

(** ** Errors *)

Inductive provider_error :=
| HTTPError (operation : string) (status : Z) (code : string) (class : ErrorClass)
| ErrOAuthRefreshUnsupported
| ErrUnsupportedCapability
| ErrInvalidProfile
| ProviderInvalid                 (* wraps contracts.ErrInvalidContract *)
| ProviderFailed.                 (* the network, or an unreadable answer *)

(** What a refresh or quota failure is recorded as. *)
Definition provider_ErrorClass (e : provider_error) : ErrorClass :=
  match e with HTTPError _ _ _ class => class | _ => ErrorNetwork end.

Definition newHTTPError (operation : string) (status : Z) (code : string) : provider_error :=
  HTTPError operation status code
    (if String.eqb code "invalid_grant" || String.eqb code "invalid_token" || (status =? 401)%Z then ErrorAuthInvalid
     else if (status =? 403)%Z then ErrorForbiddenTransport
     else if (status =? 429)%Z then ErrorRateLimitedKnown
     else if (500 <=? status)%Z then ErrorUpstream5xx
     else ErrorForbiddenCapability).

(** [RefreshOAuth] and [RevokeOAuth] up to the call of the provider. *)
Definition refresh_guard (p : Provider) (current : TokenBundle) : result provider_error unit :=
  if negb (pv_OAuthRefresher p) then Err ErrOAuthRefreshUnsupported
  else if blank (tb_RefreshToken current) then Err ProviderInvalid else Ok tt.

Definition revoke_guard (p : Provider) (current : TokenBundle) : result provider_error unit :=
  if negb (pv_OAuthRevoker p) then Err ErrUnsupportedCapability
  else if blank (tb_RefreshToken current) && blank (tb_AccessToken current) then Err ProviderInvalid else Ok tt.

(** ** Endpoint profiles *)

Definition KindCodex : string := "codex".
Definition KindClaude : string := "claude".
Definition KindGemini : string := "gemini".
Definition KindGrok : string := "grok".
Definition KindCopilot : string := "copilot".
Definition KindAntigravity : string := "antigravity".
Definition KindKiro : string := "kiro".
Definition KindWindsurf : string := "windsurf".

Record EndpointProfile := MkEndpoint {
  ep_Kind : string;
  ep_AuthMode : string;
  ep_OAuthAuthorizeURL : string;
  ep_OAuthTokenURL : string;
  ep_OAuthRevokeURL : string;
  ep_ClientID : string;
  ep_APIBaseURL : string;
  ep_InferencePath : string;
  ep_QuotaPath : string;
  ep_OAuthBetaHeader : string;
  ep_TLSFingerprint : string
}.

Definition CodexChatGPTProfile : EndpointProfile :=
  MkEndpoint KindCodex AuthModeOAuth "https://auth.openai.com/oauth/authorize" "https://auth.openai.com/oauth/token"
    "https://auth.openai.com/oauth/revoke" "app_EMoamEEZ73f0CkXaXp7hrann" "https://chatgpt.com/backend-api/codex"
    "/responses" "" "" "codex_rustls".
Definition CodexAPIKeyProfile : EndpointProfile :=
  MkEndpoint KindCodex AuthModeAPIKey "" "" "" "" "https://api.openai.com/v1" "/responses" "" "" "".
Definition ClaudeConsoleOAuthProfile : EndpointProfile :=
  MkEndpoint KindClaude AuthModeOAuth "https://platform.claude.com/oauth/authorize"
    "https://platform.claude.com/v1/oauth/token" "" "9d1c250a-e61b-44d9-88ed-5944d1962f5e" "https://api.anthropic.com"
    "/v1/messages" "" "oauth-2025-04-20" "node24".
Definition ClaudeAIOAuthProfile : EndpointProfile :=
  let p := ClaudeConsoleOAuthProfile in
  MkEndpoint (ep_Kind p) (ep_AuthMode p) "https://claude.com/cai/oauth/authorize" (ep_OAuthTokenURL p)
    (ep_OAuthRevokeURL p) (ep_ClientID p) (ep_APIBaseURL p) (ep_InferencePath p) (ep_QuotaPath p)
    (ep_OAuthBetaHeader p) (ep_TLSFingerprint p).
Definition ClaudeAPIKeyProfile : EndpointProfile :=
  MkEndpoint KindClaude AuthModeAPIKey "" "" "" "" "https://api.anthropic.com" "/v1/messages" "" "" "".
Definition GeminiAPIKeyProfile : EndpointProfile :=
  MkEndpoint KindGemini AuthModeAPIKey "" "" "" "" "https://generativelanguage.googleapis.com"
    "/v1beta/models/{model}:generateContent" "" "" "".
Definition GrokAPIKeyProfile : EndpointProfile :=
  MkEndpoint KindGrok AuthModeAPIKey "" "" "" "" "https://api.x.ai" "/v1/chat/completions" "" "" "".
Definition GitHubCopilotProfile : EndpointProfile :=
  MkEndpoint KindCopilot AuthModeOAuth "https://github.com/login/device/code"
    "https://api.github.com/copilot_internal/v2/token" "" "Iv1.b507a08c87ecfe98" "https://api.githubcopilot.com"
    "/chat/completions" "" "" "".
Definition AntigravityOAuthProfile : EndpointProfile :=
  MkEndpoint KindAntigravity AuthModeOAuth "https://accounts.google.com/o/oauth2/v2/auth"
    "https://oauth2.googleapis.com/token" "" "1071006060591-tmhssin2h21lcre235vtolojh4g403ep.apps.googleusercontent.com"
    "https://cloudcode-pa.googleapis.com" "/v1internal:generateContent" "" "" "".
Definition KiroOAuthProfile : EndpointProfile :=
  MkEndpoint KindKiro AuthModeOAuth "" "https://prod.us-east-1.auth.desktop.kiro.dev/refreshToken" "" ""
    "https://q.us-east-1.amazonaws.com" "/generateAssistantResponse" "" "" "".
Definition WindsurfAPIKeyProfile : EndpointProfile :=
  MkEndpoint KindWindsurf AuthModeAPIKey "" "" "" "" "https://server.codeium.com" "" "" "" "".

Definition ValidateImportAuthMode (profile : EndpointProfile) (requested : string) : bool :=
  blank requested || bool_decide (canonicalAuthMode requested = Some (ep_AuthMode profile)).

Definition parseHTTPURL (raw : string) : bool := (str_len raw <=? 2048)%Z && http_url raw.

(** All its errors wrap ErrInvalidProfile. *)
Definition EndpointProfile_Validate (p : EndpointProfile) : bool :=
  bool_decide (ep_Kind p ∈ [KindCodex; KindClaude; KindGemini; KindGrok; KindCopilot; KindAntigravity; KindKiro; KindWindsurf])
  && bool_decide (ep_AuthMode p ∈ [AuthModeOAuth; AuthModeAPIKey])
  && parseHTTPURL (ep_APIBaseURL p)
  && has_prefix "/" (ep_InferencePath p)
  && (String.eqb (ep_QuotaPath p) "" || has_prefix "/" (ep_QuotaPath p))
  && (negb (String.eqb (ep_AuthMode p) AuthModeOAuth)
      || (negb (bool_decide (ep_Kind p ∈ [KindGemini; KindGrok]))
          && (if String.eqb (ep_Kind p) KindKiro then parseHTTPURL (ep_OAuthTokenURL p)
              else parseHTTPURL (ep_OAuthAuthorizeURL p) && parseHTTPURL (ep_OAuthTokenURL p)
                   && negb (blank (ep_ClientID p))
                   && (String.eqb (ep_OAuthRevokeURL p) "" || parseHTTPURL (ep_OAuthRevokeURL p))))).

(** strings.TrimRight(s, "/") *)
Definition trim_slashes (s : string) : string := str_rev (trim_left_of ["/"] (str_rev s)).

Definition InferenceURL (p : EndpointProfile) : result provider_error string :=
  if EndpointProfile_Validate p then Ok (trim_slashes (ep_APIBaseURL p) +:+ ep_InferencePath p) else Err ErrInvalidProfile.

Definition QuotaURL (p : EndpointProfile) : result provider_error string :=
  if negb (EndpointProfile_Validate p) then Err ErrInvalidProfile
  else if String.eqb (ep_QuotaPath p) "" then Ok "" else Ok (trim_slashes (ep_APIBaseURL p) +:+ ep_QuotaPath p).

(** Windsurf's profile has no inference path of its own: it is for imports to fill in. *)
Example profiles_valid : EndpointProfile_Validate <$> [CodexChatGPTProfile; CodexAPIKeyProfile; ClaudeConsoleOAuthProfile;
    ClaudeAIOAuthProfile; ClaudeAPIKeyProfile; GeminiAPIKeyProfile; GrokAPIKeyProfile; GitHubCopilotProfile;
    AntigravityOAuthProfile; KiroOAuthProfile; WindsurfAPIKeyProfile]
  = [true; true; true; true; true; true; true; true; true; true; false].
Proof. vm_compute. reflexivity. Qed.

(** ** Quotas *)

Definition not_negative (d : Decimal) : bool := match Decimal_Sign d with Some s => (0 <=? s)%Z | None => false end.

(** [b] is at most [a]. *)
Definition covers (a b : Decimal) : bool := match Decimal_Sub a b with Some d => not_negative d | None => false end.

Definition given {A} (ok : A → bool) (v : option A) : bool := match v with Some a => ok a | None => true end.
Definition covered (a b : option Decimal) : bool := given (λ x, given (covers x) b) a.

Definition precision_ok (p : QuotaPrecision) : bool :=
  forallb (given not_negative)
    [qp_Used p; qp_Limit p; qp_Remaining p; qp_OverageRate p; qp_OverageCap p; qp_Overages p]
  && covered (qp_Limit p) (qp_Remaining p).

Definition quota_item_ok (i : QuotaItem) : bool :=
  bool_decide (qi_Scope i ∈ ["account"; "model"])
  && negb (String.eqb (qi_Scope i) "model" && blank (qi_Model i))
  && negb (String.eqb (qi_Scope i) "account" && negb (String.eqb (qi_Model i) ""))
  && bool_decide (qi_Unit i ∈ ["token"; "request"; "credit"; "fraction"])
  && given (Z.leb 0) (qi_Limit i) && given (Z.leb 0) (qi_Remaining i)
  && given not_negative (qi_LimitExact i) && given not_negative (qi_RemainingExact i)
  && given (λ f, not_negative f && covers "1" f) (qi_RemainingFraction i)
  && covered (qi_LimitExact i) (qi_RemainingExact i)
  && given precision_ok (qi_Precision i)
  && given (λ l, given (λ r, (r <=? l)%Z) (qi_Remaining i)) (qi_Limit i).

Definition validateQuotaInfo (quota : QuotaInfo) : bool := forallb quota_item_ok (default [] quota).
