(* ===== verification/RefreshData.v ===== *)
(** * Credential refresh and the quota outbox in the database

    internal/control/refresh.go and quota_refresh.go, the statements of
    [PGCredentialRepository]: a stored credential is read, written and failed
    under the fence epoch that was drawn for it, and a quota is committed
    together with a row of quota_snapshot_outbox, which reconcilers claim,
    acknowledge or put back. *)

From S2P Require Import Prelude Decimal Contracts Numeric Db Snapshot Fencing.

Open Scope Z_scope.

(** PostgreSQL's [text::jsonb], as the text it is read back as; [None] when it
    rejects the text. *)
Class Jsonb := jsonb : string → option string.

Record StoredCredential := MkStored {
  sc_AccountID : string;
  sc_Provider : string;
  sc_Platform : string;
  sc_Group : string;
  sc_Proxy : string;
  sc_CredentialKind : string;
  sc_FenceEpoch : Z;
  sc_EncryptedSecret : string
}.

Record QuotaOutboxItem := MkOutboxItem {
  qo_AccountID : string;
  qo_Platform : string;
  qo_Group : string;
  qo_FenceEpoch : Z;
  qo_Quota : QuotaInfo;
  qo_Attempts : Z
}.

#[export] Instance QuotaPrecision_eq_dec : EqDecision QuotaPrecision.
Proof. solve_decision. Defined.
#[export] Instance QuotaItem_eq_dec : EqDecision QuotaItem.
Proof. solve_decision. Defined.

(** ** Bounds *)

Definition quotaBatchSize : Z := 100.
Definition quotaReconcileInterval : duration := minute.
Definition quotaOutboxLease : duration := quotaReconcileInterval.
Definition quotaOutboxMinBackoff : duration := quotaReconcileInterval.
Definition quotaOutboxMaxBackoff : duration := 15 * minute.

Definition refreshBatchSize : Z := 100.
Definition refreshAhead : duration := 5 * minute.

(** for i := 1; i < attempts && delay < quotaOutboxMaxBackoff; i++ { delay *= 2 };
    the fuel is the number of doublings that can stay below the maximum. *)
Fixpoint double_delay (fuel : nat) (i attempts : Z) (delay : duration) : duration :=
  match fuel with
  | O => delay
  | S fuel => if (i <? attempts) && (delay <? quotaOutboxMaxBackoff)
              then double_delay fuel (i + 1) attempts (2 * delay) else delay
  end.

Definition quotaOutboxBackoff (attempts : Z) : duration :=
  let attempts := if attempts <? 1 then 1 else attempts in
  let delay := double_delay 5 1 attempts quotaOutboxMinBackoff in
  if quotaOutboxMaxBackoff <? delay then quotaOutboxMaxBackoff else delay.

(** ** The credential *)

(** The columns the SELECT of [Acquire] scans. *)
Record selected := Selected {
  sl_provider : string; sl_platform : string; sl_group : string; sl_proxy : string;
  sl_kind : string; sl_encrypted_secret : string
}.

Definition stored_of (accountID : string) (epoch : Z) (s : selected) : StoredCredential :=
  MkStored accountID (sl_provider s) (sl_platform s) (sl_group s) (sl_proxy s) (sl_kind s) epoch (sl_encrypted_secret s).

(** No row is [ErrFenceLost]. *)
Definition read_credential (accountID : string) (epoch : Z) : DB selected :=
  query (λ t, match account_rows t !! accountID, credential_rows t !! accountID with
    | Some a, Some c =>
        if ac_fence_epoch a =? epoch
        then Ok (Selected (ac_provider a) (ac_platform a) (ac_group a) (su_proxy (ac_setup a)) (cr_kind c) (cr_encrypted_secret c))
        else Err EFenceLost
    | _, _ => Err EFenceLost
    end).

Definition failed_account (class : string) (now : time) (a : account_row) : account_row :=
  {| ac_status := if String.eqb class "auth_invalid" then "disabled"%string else ac_status a;
     ac_fence_epoch := ac_fence_epoch a; ac_platform := ac_platform a;
     ac_last_error_class := Some class; ac_last_error_at := Some now;
     ac_consecutive_failures := ac_consecutive_failures a; ac_cooldown_until := ac_cooldown_until a;
     ac_excluded_models := ac_excluded_models a; ac_provider := ac_provider a; ac_group := ac_group a;
     ac_capabilities := ac_capabilities a; ac_setup := ac_setup a; ac_quota := ac_quota a |}.

Definition with_quota (quota : string) (a : account_row) : account_row :=
  {| ac_status := ac_status a; ac_fence_epoch := ac_fence_epoch a; ac_platform := ac_platform a;
     ac_last_error_class := ac_last_error_class a; ac_last_error_at := ac_last_error_at a;
     ac_consecutive_failures := ac_consecutive_failures a; ac_cooldown_until := ac_cooldown_until a;
     ac_excluded_models := ac_excluded_models a; ac_provider := ac_provider a; ac_group := ac_group a;
     ac_capabilities := ac_capabilities a; ac_setup := ac_setup a; ac_quota := quota |}.

(** UPDATE accounts SET ... WHERE id=$ AND fence_epoch=$; RowsAffected. *)
Definition update_account (accountID : string) (epoch : Z) (f : time → account_row → account_row) : DB Z :=
  stmt (λ t, Ok (if epoch_is accountID epoch t
                 then (1, set_accounts (alter (f (db_now t)) accountID) t) else (0, t))).

(** result.RowsAffected() != 1 *)
Definition one_row (m : DB Z) : DB unit :=
  affected ← m; if negb (affected =? 1) then fail EFenceLost else mret tt.

Definition Repository_Fail (stored : StoredCredential) (class : ErrorClass) : DB unit :=
  if negb (ErrorClass_Valid class) || String.eqb class ErrorOK then fail EBadInput
  else one_row (update_account (sc_AccountID stored) (sc_FenceEpoch stored) (failed_account class)).

Definition Repository_Commit (stored : StoredCredential) (encrypted : string) (expiresAt : time) : DB unit :=
  UpdateCredential (sc_AccountID stored) (sc_FenceEpoch stored) encrypted
    (if is_zero_time expiresAt then None else Some expiresAt).

Definition CurrentFence (accountID : string) : DB Z :=
  query (λ t, match account_rows t !! accountID with
    | Some a => Ok (ac_fence_epoch a)
    | None => Err EFenceLost
    end).

(** The accounts RefreshLoop and QuotaLoop go through. *)
Definition refresh_due (before_ : time) (a : account_row) (c : credential_row) : bool :=
  String.eqb (ac_status a) "active" && String.eqb (cr_kind c) "oauth"
  && match cr_expires_at c with Some t => t <=? before_ | None => false end.
Definition quota_due (a : account_row) (c : credential_row) : bool :=
  String.eqb (ac_status a) "active" && bool_decide (ac_provider a ∈ ["codex"; "claude"]%string).

Definition joined (t : db) : list (string * (account_row * credential_row)) :=
  omap (λ kv, c ← credential_rows t !! kv.1; Some (kv.1, (kv.2, c))) (map_to_list (account_rows t)).

Definition expires_le (a b : string * (account_row * credential_row)) : Prop :=
  default 0 (cr_expires_at a.2.2) <= default 0 (cr_expires_at b.2.2).
#[export] Instance expires_le_dec : RelDecision expires_le.
Proof. intros a b. unfold expires_le. apply _. Defined.

Definition refresh_list (before_ : time) : DB (list string) :=
  query (λ t, Ok (fst <$> take (Z.to_nat refreshBatchSize)
    (merge_sort expires_le (filter (λ x, refresh_due before_ x.2.1 x.2.2 = true) (joined t))))).

(** The update times of accounts, by which the source orders the list, are not
    kept: [order] stands for them. *)
Definition quota_list (order : list string → list string) (limit : Z) : DB (list string) :=
  query (λ t, Ok (take (Z.to_nat limit)
    (order (fst <$> filter (λ x, quota_due x.2.1 x.2.2 = true) (joined t))))).

(** ** The outbox *)

Section outbox.
  Context `{Jsonb, Codec QuotaInfo}.

(** json.Marshal, then the cast of the parameter. *)
Definition cast_quota (quota : QuotaInfo) : DB string :=
  match marshal quota with
  | None => fail EBadInput
  | Some payload => match jsonb payload with None => fail EInvalidText | Some text => mret text end
  end.

Definition CommitQuota (stored : StoredCredential) (quota : QuotaInfo) : DB unit :=
  text ← cast_quota quota;
  one_row (update_account (sc_AccountID stored) (sc_FenceEpoch stored) (λ _, with_quota text)).

Definition queued_row (stored : StoredCredential) (text : string) (now : time) : outbox_row :=
  {| ob_platform := sc_Platform stored; ob_group := sc_Group stored; ob_fence_epoch := sc_FenceEpoch stored;
     ob_quota := text; ob_attempts := 0; ob_next_attempt_at := now; ob_locked_until := None;
     ob_last_error := EmptyString; ob_updated_at := now |}.

(** INSERT INTO quota_snapshot_outbox ... ON CONFLICT (account_id) DO UPDATE. *)
Definition queue_quota (stored : StoredCredential) (text : string) : DB unit :=
  exec (λ t, Ok (set_outbox <[sc_AccountID stored := queued_row stored text (db_now t)]> t)).

Definition CommitQuotaAndQueue (stored : StoredCredential) (quota : QuotaInfo) : DB unit :=
  match marshal quota with
  | None => fail EBadInput
  | Some payload =>
      transaction (
        text ← match jsonb payload with None => fail EInvalidText | Some text => mret text end;
        _ ← one_row (update_account (sc_AccountID stored) (sc_FenceEpoch stored) (λ _, with_quota text));
        queue_quota stored text)
  end.

Definition outbox_le (a b : string * outbox_row) : Prop :=
  ob_next_attempt_at a.2 < ob_next_attempt_at b.2
  ∨ (ob_next_attempt_at a.2 = ob_next_attempt_at b.2 ∧ ob_updated_at a.2 <= ob_updated_at b.2).
#[export] Instance outbox_le_dec : RelDecision outbox_le.
Proof. intros a b. unfold outbox_le. apply _. Defined.

Definition outbox_due (now : time) (row : outbox_row) : bool :=
  (ob_next_attempt_at row <=? now)
  && match ob_locked_until row with Some until => until <=? now | None => true end.

(** [skip]: the rows that transactions in flight hold locked. *)
Definition due_rows (skip : gset string) (limit : Z) (t : db) : list (string * outbox_row) :=
  take (Z.to_nat limit) (merge_sort outbox_le
    (filter (λ kv, outbox_due (db_now t) kv.2 = true ∧ kv.1 ∉ skip) (map_to_list (quota_outbox t)))).

(** Quota and attempts of a claimed row; a text that does not decode fails the
    whole batch. *)
Definition outbox_item (kv : string * outbox_row) : option QuotaOutboxItem :=
  quota ← unmarshal (ob_quota kv.2);
  Some (MkOutboxItem kv.1 (ob_platform kv.2) (ob_group kv.2) (ob_fence_epoch kv.2) quota (ob_attempts kv.2 + 1)).

Definition leased_row (now : time) (row : outbox_row) : outbox_row :=
  {| ob_platform := ob_platform row; ob_group := ob_group row; ob_fence_epoch := ob_fence_epoch row;
     ob_quota := ob_quota row; ob_attempts := ob_attempts row + 1;
     ob_next_attempt_at := ob_next_attempt_at row; ob_locked_until := Some (now + quotaOutboxLease);
     ob_last_error := ob_last_error row; ob_updated_at := now |}.

(** WHERE account_id=$ AND fence_epoch=$ *)
Definition outbox_at (accountID : string) (epoch : Z) (t : db) : option outbox_row :=
  row ← quota_outbox t !! accountID; if ob_fence_epoch row =? epoch then Some row else None.

Definition update_outbox (accountID : string) (epoch : Z) (f : time → outbox_row → outbox_row) : DB Z :=
  stmt (λ t, Ok match outbox_at accountID epoch t with
    | Some row => (1, set_outbox <[accountID := f (db_now t) row]> t)
    | None => (0, t)
    end).

Definition lease_item (_ : Z) (item : QuotaOutboxItem) : DB Z :=
  update_outbox (qo_AccountID item) (qo_FenceEpoch item) leased_row.

Definition ClaimQuotaOutbox (skip : gset string) (limit : Z) : DB (list QuotaOutboxItem) :=
  if limit <=? 0 then fail EBadInput
  else transaction (
    rows ← query (λ t, Ok (due_rows skip limit t));
    items ← match mapM outbox_item rows with Some items => mret items | None => fail EInvalidText end;
    _ ← foldM lease_item 0 items;
    mret items).

Definition AckQuotaOutbox (accountID : string) (epoch : Z) : DB unit :=
  one_row (stmt (λ t, Ok match outbox_at accountID epoch t with
    | Some _ => (1, set_outbox (delete accountID) t)
    | None => (0, t)
    end)).

Definition retried_row (nextAttempt : time) (lastError : string) (now : time) (row : outbox_row) : outbox_row :=
  {| ob_platform := ob_platform row; ob_group := ob_group row; ob_fence_epoch := ob_fence_epoch row;
     ob_quota := ob_quota row; ob_attempts := ob_attempts row; ob_next_attempt_at := nextAttempt;
     ob_locked_until := None; ob_last_error := lastError; ob_updated_at := now |}.

Definition RetryQuotaOutbox (accountID : string) (epoch : Z) (lastError : string) (nextAttempt : time) : DB unit :=
  one_row (update_outbox accountID epoch (retried_row nextAttempt lastError)).
End outbox.
