(* ===== verification/Refresh.v ===== *)
(** * Refreshing credentials and quotas

    internal/control/refresh.go, quota_refresh.go, refresh_loop.go and the
    advisory locks of fencing.go: one run at a time refreshes an account, under
    a PostgreSQL session lock and a fence epoch drawn for the run; a quota that
    was fetched is committed, published into the Redis snapshot, and otherwise
    left to the reconciler.

    The services are programs over their calls ([rE]); [exec] says what each
    call does to the store they share.  Sessions may die at any moment, and
    with them the locks they hold; every call may fail before or after it took
    effect. *)

From S2P Require Import Prelude Sha256 Decimal Contracts Numeric Db Redis Snapshot Fencing Effects Cipher Provider RefreshData.

Open Scope Z_scope.

(** ** Errors *)

(** What [errors.Is] finds of the context in an error of a client library. *)
Inductive context_error := Canceled | DeadlineExceeded.

Inductive refresh_error :=
| RDatabase (e : db_error) (ctx : option context_error)
| RPool (ctx : option context_error)
| RSnapshot (e : snapshot_error) (ctx : option context_error)
| RContext (ctx : context_error)
| RInvalid                                   (* wraps ErrInvalidContract *)
| ErrRefreshBusy
| ErrProviderMissing
| RNotConfigured
| RLockNotHeld
| RCipher (e : cipher_error)
| RBadBundle
| RMarshal
| RProvider (e : provider_error)
| RJoined (e e' : refresh_error).

Fixpoint is_context (c : context_error) (e : refresh_error) : bool :=
  match e with
  | RDatabase _ ctx | RPool ctx | RSnapshot _ ctx =>
      match ctx, c with Some Canceled, Canceled | Some DeadlineExceeded, DeadlineExceeded => true | _, _ => false end
  | RContext ctx => match ctx, c with Canceled, Canceled | DeadlineExceeded, DeadlineExceeded => true | _, _ => false end
  | RJoined e e' => is_context c e || is_context c e'
  | _ => false
  end.
Fixpoint is_busy (e : refresh_error) : bool :=
  match e with ErrRefreshBusy => true | RJoined e e' => is_busy e || is_busy e' | _ => false end.
Fixpoint is_fence_lost (e : refresh_error) : bool :=
  match e with RDatabase EFenceLost _ => true | RJoined e e' => is_fence_lost e || is_fence_lost e' | _ => false end.
Fixpoint is_stale_epoch (e : refresh_error) : bool :=
  match e with RSnapshot ErrStaleEpoch _ => true | RJoined e e' => is_stale_epoch e || is_stale_epoch e' | _ => false end.

Definition quotaOutboxErrorState (cause : refresh_error) : string :=
  if is_context Canceled cause then "canceled"
  else if is_context DeadlineExceeded cause then "deadline_exceeded"
  else if is_busy cause then "busy"
  else if is_fence_lost cause then "fence_lost"
  else if is_stale_epoch cause then "stale_epoch"
  else "snapshot_publish_failed".

(** ** The database's calls *)

Inductive sql : Type → Type :=
| AcquireQ (accountID : string) : sql Z
| ReadQ (accountID : string) (epoch : Z) : sql selected
| CommitQ (stored : StoredCredential) (encrypted : string) (expiresAt : time) : sql unit
| FailQ (stored : StoredCredential) (class : ErrorClass) : sql unit
| CommitQuotaQ (stored : StoredCredential) (quota : QuotaInfo) : sql unit
| QueueQuotaQ (stored : StoredCredential) (quota : QuotaInfo) : sql unit
| FenceQ (accountID : string) : sql Z
| ClaimQ (limit : Z) : sql (list QuotaOutboxItem)
| AckQ (accountID : string) (epoch : Z) : sql unit
| RetryQ (accountID : string) (epoch : Z) (lastError : string) (nextAttempt : time) : sql unit
| RefreshListQ (before_ : time) : sql (list string)
| QuotaListQ (limit : Z) : sql (list string).

(** What the source leaves open: the rows other transactions hold locked, and
    the order of update times. *)
Record planner := Planner { pl_locked : gset string; pl_order : list string → list string }.

Section sql.
  Context `{Jsonb, Codec QuotaInfo}.

Definition run_sql {A} (pl : planner) (q : sql A) : DB A :=
  match q with
  | AcquireQ accountID => Acquire accountID
  | ReadQ accountID epoch => read_credential accountID epoch
  | CommitQ stored encrypted expiresAt => Repository_Commit stored encrypted expiresAt
  | FailQ stored class => Repository_Fail stored class
  | CommitQuotaQ stored quota => CommitQuota stored quota
  | QueueQuotaQ stored quota => CommitQuotaAndQueue stored quota
  | FenceQ accountID => CurrentFence accountID
  | ClaimQ limit => ClaimQuotaOutbox (pl_locked pl) limit
  | AckQ accountID epoch => AckQuotaOutbox accountID epoch
  | RetryQ accountID epoch lastError nextAttempt => RetryQuotaOutbox accountID epoch lastError nextAttempt
  | RefreshListQ before_ => refresh_list before_
  | QuotaListQ limit => quota_list (pl_order pl) limit
  end.
End sql.

(** ** Calls *)

Inductive rE : Type → Type :=
| NowE : rE time
| ContextE : rE (option context_error)                                    (* ctx.Err() *)
| SessionE : rE (result (option context_error) nat)                       (* pool.Acquire *)
| TryLockE (session : nat) (key : Z) : rE (result (option context_error) bool)
| UnlockE (session : nat) (key : Z) : rE (result (option context_error) bool)
| ReleaseE (session : nat) : rE unit                                      (* back to the pool *)
| CloseE (session : nat) : rE unit                                        (* Hijack, Close *)
| SqlE {A} (q : sql A) : rE (result (db_error * option context_error) A)
| NonceE : rE (option string)
| RefreshOAuthE (p : Provider) (current : TokenBundle) : rE (result provider_error TokenBundle)
| QuotaE (p : Provider) (credential : Credential) : rE (result provider_error QuotaInfo)
| LoadE (platform group : string) : rE (result (snapshot_error * option context_error) Snapshot)
| PublishE (platform group : string) (epoch : Z) (accounts : list Account)
    : rE (result (snapshot_error * option context_error) Z)
| SameQuotaE (current quota : list QuotaItem) : rE bool.                  (* reflect.DeepEqual *)

(** A program that may return an error. *)
Abbreviation P A := (prog rE (result refresh_error A)).

(** [v, err := m; if err != nil { return err }] *)
Definition on_ok {A B} (m : P A) (k : A → P B) : P B :=
  r ← m; match r with Ok a => k a | Err e => mret (Err e) end.
Definition throw {A} (e : refresh_error) : P A := mret (Err e).
Definition lift {A} (r : result refresh_error A) : P A := mret r.
Definition return_ {A} (a : A) : P A := mret (Ok a).

Declare Scope refresh_scope.
Notation "x ⇐ m ; k" := (on_ok m (λ x, k)) (at level 100, m at next level, k at level 200, right associativity) : refresh_scope.
Open Scope refresh_scope.

Definition query_ {A} (q : sql A) : P A :=
  r ← perform (SqlE q);
  mret (match r with Ok a => Ok a | Err (e, ctx) => Err (RDatabase e ctx) end).

(** ** The singleton lock (fencing.go) *)

Definition accountLockKey (accountID : string) : Z :=
  wrap64 (foldl (λ acc b, acc * 256 + b) 0 (take 8 (sha256 ("gateway-platform/refresh/" +:+ accountID)))).

(** The session and the key of a held lock.  The closure that unlocks it does
    so once ([sync.Once]): programs below call it once. *)
Record held_lock := Held { hl_session : nat; hl_key : Z }.

Definition TryAcquireSingleton (key : Z) : P (option held_lock) :=
  conn ← perform SessionE;
  match conn with
  | Err ctx => throw (RPool ctx)
  | Ok session =>
      acquired ← perform (TryLockE session key);
      match acquired with
      | Err ctx => _ ← perform (ReleaseE session); throw (RDatabase EIO ctx)
      | Ok false => _ ← perform (ReleaseE session); return_ None
      | Ok true => return_ (Some (Held session key))
      end
  end.

Definition unlock (l : held_lock) : P unit :=
  unlocked ← perform (UnlockE (hl_session l) (hl_key l));
  match unlocked with
  | Ok true => _ ← perform (ReleaseE (hl_session l)); return_ tt
  | Ok false => _ ← perform (CloseE (hl_session l)); throw RLockNotHeld
  | Err ctx => _ ← perform (CloseE (hl_session l)); throw (RDatabase EIO ctx)
  end.

Definition TryLock (accountID : string) : P (option held_lock) :=
  if blank accountID then throw RInvalid else TryAcquireSingleton (accountLockKey accountID).

(** [released]: the lock is given back before an answer is returned, and by the
    deferred call -- whose error is dropped -- before an error is. *)
Definition with_lock {A} (accountID : string) (body : P A) : P A :=
  lock ⇐ TryLock accountID;
  match lock with
  | None => throw ErrRefreshBusy
  | Some l =>
      r ← body;
      match r with
      | Err e => _ ← unlock l; throw e
      | Ok a => _ ⇐ unlock l; return_ a
      end
  end.

(** ** OAuth refresh (refresh.go) *)

Definition with_metadata (m : gmap string string) (b : TokenBundle) : TokenBundle :=
  MkTokenBundle (tb_AccessToken b) (tb_RefreshToken b) (tb_IDToken b) (tb_ExpiresAt b) (tb_Scopes b)
    (tb_AccountID b) (tb_Email b) m.

(** The account's proxy, unless the bundle names one. *)
Definition with_proxy (proxy : string) (b : TokenBundle) : TokenBundle :=
  if String.eqb proxy "" then b
  else if String.eqb (default EmptyString (tb_Metadata b !! "proxy"%string)) ""
  then with_metadata (<["proxy"%string := proxy]> (tb_Metadata b)) b else b.

Definition Repository_Acquire (accountID : string) : P StoredCredential :=
  epoch ⇐ query_ (AcquireQ accountID);
  row ⇐ query_ (ReadQ accountID epoch);
  return_ (stored_of accountID epoch row).

(** [Provider] of a service; [None] is the registry. *)
Definition find_provider (custom : option (string → option Provider)) (reg : registry) (stored : StoredCredential)
    : option Provider :=
  match custom with
  | Some f => f (sc_Provider stored)
  | None => GetForAuth (sc_Provider stored) (sc_CredentialKind stored) reg
  end.

Definition call_refresh (p : Provider) (current : TokenBundle) : prog rE (result provider_error TokenBundle) :=
  match refresh_guard p current with
  | Err e => mret (Err e)
  | Ok _ => perform (RefreshOAuthE p current)
  end.

(** A failure of the provider is recorded; a failure to record it joins it. *)
Definition provider_failed {A} (stored : StoredCredential) (e : provider_error) : P A :=
  r ← query_ (FailQ stored (provider_ErrorClass e));
  match r with
  | Ok _ => throw (RProvider e)
  | Err e' => throw (RJoined (RProvider e) e')
  end.

Section services.
  Context `{Jsonb, Codec QuotaInfo, Codec TokenBundle, Gcm}.

Record RefreshService := {
  rs_Cipher : option Cipher;
  rs_Provider : option (string → option Provider)
}.

Definition decryptTokenBundle (c : option Cipher) (stored : StoredCredential) : result refresh_error TokenBundle :=
  match Decrypt c (sc_AccountID stored) (sc_EncryptedSecret stored) with
  | Err e => Err (RCipher e)
  | Ok plaintext => match unmarshal plaintext with Some b => Ok b | None => Err RBadBundle end
  end.

(** json.Marshal, then the cipher with a fresh nonce. *)
Definition encryptTokenBundle (c : option Cipher) (accountID : string) (b : TokenBundle) : P string :=
  match marshal b with
  | None => throw RMarshal
  | Some plaintext =>
      nonce ← perform NonceE;
      mret (match Encrypt c accountID plaintext nonce with Ok s => Ok s | Err e => Err (RCipher e) end)
  end.

Definition refresh_body (s : RefreshService) (reg : registry) (accountID : string) : P TokenBundle :=
  stored ⇐ Repository_Acquire accountID;
  current ⇐ lift (decryptTokenBundle (rs_Cipher s) stored);
  let current := with_proxy (sc_Proxy stored) current in
  match find_provider (rs_Provider s) reg stored with
  | None => throw ErrProviderMissing
  | Some p =>
      refreshed ← call_refresh p current;
      match refreshed with
      | Err e => provider_failed stored e
      | Ok refreshed =>
          if blank (tb_AccessToken refreshed) || blank (tb_RefreshToken refreshed) then throw RInvalid
          else
          encrypted ⇐ encryptTokenBundle (rs_Cipher s) accountID refreshed;
          _ ⇐ query_ (CommitQ stored encrypted (tb_ExpiresAt refreshed));
          return_ refreshed
      end
  end.

Definition RefreshService_Refresh (s : RefreshService) (reg : registry) (accountID : string) : P TokenBundle :=
  match rs_Cipher s with
  | None => throw RNotConfigured
  | Some _ => with_lock accountID (refresh_body s reg accountID)
  end.

(** ** Publishing a quota *)

Definition set_quota (quota : list QuotaItem) (a : Account) : Account :=
  MkAccount (acc_ID a) (acc_Provider a) (acc_Platform a) (acc_Group a) (acc_Credential a) (acc_Profile a)
    (acc_Limits a) (acc_Status a) (acc_FenceEpoch a) quota (acc_Capabilities a) (acc_ExcludedModels a)
    (acc_UsageIntegrity a).

(** The first account with the id, and the accounts with its quota replaced. *)
Fixpoint replace_quota (id : string) (quota : list QuotaItem) (accounts : list Account)
    : option (Account * list Account) :=
  match accounts with
  | [] => None
  | a :: rest =>
      if String.eqb (acc_ID a) id then Some (a, set_quota quota a :: rest)
      else '(found, rest) ← replace_quota id quota rest; Some (found, a :: rest)
  end.

Definition RedisPublishQuota (stored : StoredCredential) (quota : QuotaInfo) : P unit :=
  if String.eqb (sc_Platform stored) "" || String.eqb (sc_Group stored) "" then throw RInvalid
  else
  loaded ← perform (LoadE (sc_Platform stored) (sc_Group stored));
  match loaded with
  | Err (e, ctx) => throw (RSnapshot e ctx)
  | Ok current =>
      match replace_quota (sc_AccountID stored) (default [] quota) (sn_Accounts current) with
      | None => throw RInvalid
      | Some (found, accounts) =>
          same ← perform (SameQuotaE (acc_Quota found) (default [] quota));
          if same : bool then return_ tt
          else
          published ← perform (PublishE (sc_Platform stored) (sc_Group stored) (sn_Epoch current) accounts);
          match published with
          | Err (e, ctx) => throw (RSnapshot e ctx)
          | Ok _ => return_ tt
          end
      end
  end.

(** ** Quota refresh (quota_refresh.go) *)

(** [qs_outbox]: the repository is a [QuotaOutboxRepository], as
    [PGCredentialRepository] is; [qs_Snapshot]: a publisher is configured. *)
Record QuotaService := {
  qs_Cipher : option Cipher;
  qs_Provider : option (string → option Provider);
  qs_outbox : bool;
  qs_Snapshot : option (StoredCredential → QuotaInfo → P unit)
}.

Definition quota_credential (stored : StoredCredential) (current : TokenBundle) : Credential :=
  {| cred_Kind := sc_CredentialKind stored; cred_AccessToken := tb_AccessToken current;
     cred_Proxy := sc_Proxy stored; cred_Metadata := tb_Metadata current;
     cred_ExpiresAt := tb_ExpiresAt current; cred_Version := 0 |}.

Definition publish_now (s : QuotaService) (stored : StoredCredential) (quota : QuotaInfo) : P unit :=
  match qs_Snapshot s with
  | None => return_ tt
  | Some publish =>
      _ ⇐ publish stored quota;
      if qs_outbox s then query_ (AckQ (sc_AccountID stored) (sc_FenceEpoch stored)) else return_ tt
  end.

Definition quota_body (s : QuotaService) (reg : registry) (accountID : string) : P QuotaInfo :=
  stored ⇐ Repository_Acquire accountID;
  current ⇐ lift (decryptTokenBundle (qs_Cipher s) stored);
  match find_provider (qs_Provider s) reg stored with
  | None => throw ErrProviderMissing
  | Some p =>
      quota ← perform (QuotaE p (quota_credential stored current));
      match quota with
      | Err e => provider_failed stored e
      | Ok None => return_ None
      | Ok (Some items) =>
          _ ⇐ query_ (if qs_outbox s then QueueQuotaQ stored (Some items) else CommitQuotaQ stored (Some items));
          _ ⇐ publish_now s stored (Some items);
          return_ (Some items)
      end
  end.

Definition QuotaService_Refresh (s : QuotaService) (reg : registry) (accountID : string) : P QuotaInfo :=
  match qs_Cipher s with
  | None => throw RNotConfigured
  | Some _ => with_lock accountID (quota_body s reg accountID)
  end.
End services.

(** ** The reconciler *)

Definition fenced_of (item : QuotaOutboxItem) : StoredCredential :=
  MkStored (qo_AccountID item) EmptyString (qo_Platform item) (qo_Group item) EmptyString EmptyString
    (qo_FenceEpoch item) EmptyString.

(** [retry] answers with the cause. *)
Definition retry (item : QuotaOutboxItem) (cause : refresh_error) (currentTime : time) : P unit :=
  ctx ← perform ContextE;
  match ctx with
  | Some ctx => throw (RContext ctx)
  | None =>
      r ← query_ (RetryQ (qo_AccountID item) (qo_FenceEpoch item) (quotaOutboxErrorState cause)
                    (currentTime + quotaOutboxBackoff (qo_Attempts item)));
      match r with Ok _ => throw cause | Err e => throw (RJoined cause e) end
  end.

(** Under the lock of the item's account. *)
Definition reconcile_locked (publish : StoredCredential → QuotaInfo → P unit) (item : QuotaOutboxItem)
    (currentTime : time) : P unit :=
  fence ← query_ (FenceQ (qo_AccountID item));
  match fence with
  | Err e => retry item e currentTime
  | Ok currentFence =>
      if negb (currentFence =? qo_FenceEpoch item) then query_ (AckQ (qo_AccountID item) (qo_FenceEpoch item))
      else
      published ← publish (fenced_of item) (qo_Quota item);
      match published with
      | Err e => retry item e currentTime
      | Ok _ =>
          acked ← query_ (AckQ (qo_AccountID item) (qo_FenceEpoch item));
          match acked with Err e => retry item e currentTime | Ok _ => return_ tt end
      end
  end.

Definition reconcileItem (publish : StoredCredential → QuotaInfo → P unit) (item : QuotaOutboxItem)
    (currentTime : time) : P unit :=
  lock ← TryLock (qo_AccountID item);
  match lock with
  | Err e => retry item e currentTime
  | Ok None => retry item ErrRefreshBusy currentTime
  | Ok (Some l) =>
      r ← reconcile_locked publish item currentTime;
      _ ← unlock l;
      mret r
  end.

(** The errors of the items are collected. *)
Fixpoint reconcile_all (publish : StoredCredential → QuotaInfo → P unit) (items : list QuotaOutboxItem)
    : prog rE (list refresh_error) :=
  match items with
  | [] => mret []
  | item :: rest =>
      now ← perform NowE;
      r ← reconcileItem publish item now;
      errs ← reconcile_all publish rest;
      mret (match r with Ok _ => errs | Err e => e :: errs end)
  end.

Definition QuotaReconciler_RunOnce (publish : option (StoredCredential → QuotaInfo → P unit))
    : prog rE (list refresh_error) :=
  match publish with
  | None => mret [RNotConfigured]
  | Some publish =>
      r ← query_ (ClaimQ quotaBatchSize);
      match r with
      | Err e => mret [e]
      | Ok items => reconcile_all publish items
      end
  end.

(** ** The loops *)

(** A busy account is no error. *)
Fixpoint each_account {A} (refresh : string → P A) (ids : list string) : prog rE (list refresh_error) :=
  match ids with
  | [] => mret []
  | id :: rest =>
      r ← refresh id;
      errs ← each_account refresh rest;
      mret (match r with Err e => if is_busy e then errs else e :: errs | Ok _ => errs end)
  end.

Section loops.
  Context `{Jsonb, Codec QuotaInfo, Codec TokenBundle, Gcm}.

Definition RefreshLoop_RunOnce (s : RefreshService) (reg : registry) : prog rE (list refresh_error) :=
  now ← perform NowE;
  r ← query_ (RefreshListQ (now + refreshAhead));
  match r with
  | Err e => mret [e]
  | Ok ids => each_account (RefreshService_Refresh s reg) ids
  end.

Definition QuotaLoop_RunOnce (s : QuotaService) (reg : registry) : prog rE (list refresh_error) :=
  r ← query_ (QuotaListQ quotaBatchSize);
  match r with
  | Err e => mret [e]
  | Ok ids => each_account (QuotaService_Refresh s reg) ids
  end.
End loops.
