(* ===== verification/RefreshStore.v ===== *)
(** * The store the refreshers share

    The database, the Redis keyspace, the sessions with their advisory locks,
    and what each call of Refresh.v does to them.  What the environment does by
    itself is [moves]: sessions die, locks of dead sessions are let go, Redis
    changes, and the rest of control writes the database, drawing a new fence
    epoch whenever it replaces a credential. *)

From S2P Require Import Prelude Decimal Contracts Numeric Db Fencing Redis Snapshot Effects Cipher Provider RefreshData Refresh.

(** * What the refreshers' statements do

    The effect of every statement of [run_sql] on the tables, whatever fails:
    either nothing and an error, or the whole change. *)

Open Scope Z_scope.

(** ** Outcomes *)

(** [m] left the tables alone and failed, or made them [t'] and, unless it
    failed, answered [a]. *)
Definition outcome {A} (P : A → db → Prop) (t : db) (r : result db_error A) (t' : db) : Prop :=
  (t' = t ∧ ∃ e, r = Err e) ∨ (∃ a, P a t' ∧ (r = Ok a ∨ ∃ e, r = Err e)).

Lemma outcome_mono {A} (P P' : A → db → Prop) t r t' :
  (∀ a, P a t' → P' a t') → outcome P t r t' → outcome P' t r t'.
Proof. intros HP [H|(a & Ha & Hr)]; [by left|right; eauto]. Qed.

Lemma outcome_Ok {A} (P : A → db → Prop) t a t' : outcome P t (Ok a) t' → P a t'.
Proof. intros [(_ & e & [=])|(b & Hb & [[= ->]|[e [=]]])]. done. Qed.

Lemma stmt_outcome {A} (f : db → result db_error (A * db)) t fs r w' :
  stmt f (World t fs) = (r, w') → outcome (λ a t', f t = Ok (a, t')) t r (tables w').
Proof.
  unfold stmt, next_fault. cbn. destruct fs as [|fl fs]; cbn; [|destruct fl; cbn];
    try (destruct (f t) as [[a t1]|e] eqn:E); intros [= <- <-]; cbn;
    try (left; eauto; fail); right; exists a; (split; [done|]); eauto.
Qed.

Lemma query_outcome {A} (f : db → result db_error A) t fs r w' :
  query f (World t fs) = (r, w') → tables w' = t ∧ ∀ a, r = Ok a → f t = Ok a.
Proof.
  intros H%stmt_outcome. destruct H as [(-> & e & ->)|(a & (b & Hf & [= -> <-])%result_bind_Ok & Hr)]; [done|].
  split; [done|]. intros a' ->. destruct Hr as [[= ->]|[e [=]]]. done.
Qed.

Lemma transaction_outcome {A} (body : DB A) (P : A → db → Prop) t fs r w' :
  wp body P t → transaction body (World t fs) = (r, w') → outcome P t r (tables w').
Proof.
  intros Hb H. pose proof (transaction_spec body P (World t fs) Hb) as Hs. rewrite H in Hs. cbn in Hs.
  destruct Hs as [Hs|(a & Ha & Hr)]; [by left|]. right. exists a. split; [done|]. destruct Hr; eauto.
Qed.

(** An UPDATE or DELETE by primary key. *)
Lemma one_row_outcome (f : db → result db_error (Z * db)) (P : db → Prop) t fs r w' :
  (∀ n t', f t = Ok (n, t') → (n = 1 ∧ P t') ∨ (n = 0 ∧ t' = t)) →
  one_row (stmt f) (World t fs) = (r, w') → outcome (λ _ : unit, P) t r (tables w').
Proof.
  intros Hf. unfold one_row, mbind, DB_bind. destruct (stmt f (World t fs)) as [r1 w1] eqn:E.
  apply stmt_outcome in E. destruct E as [(Ht & e & ->)|(n & Hn & Hr)].
  - intros [= <- <-]. left. eauto.
  - destruct (Hf n _ Hn) as [[-> HP]|[-> Ht]].
    + destruct Hr as [->|[e ->]]; intros [= <- <-]; right; exists tt; eauto.
    + destruct Hr as [->|[e ->]]; intros [= <- <-]; left; eauto.
Qed.

(** ** The statements *)

Lemma Acquire_outcome accountID t fs r w' :
  Acquire accountID (World t fs) = (r, w') →
  outcome (λ epoch t', ∃ a, account_rows t !! accountID = Some a ∧ epoch = ac_fence_epoch a + 1 ∧
    t' = set_accounts <[accountID := with_epoch epoch a]> t) t r (tables w').
Proof.
  intros H%stmt_outcome. eapply outcome_mono; [|exact H]. intros epoch Hf. cbn in Hf.
  destruct (account_rows t !! accountID) as [a|]; [|done]. simplify_eq. by exists a.
Qed.

Lemma update_account_outcome accountID epoch f t fs r w' :
  one_row (update_account accountID epoch f) (World t fs) = (r, w') →
  outcome (λ _ : unit, λ t', epoch_is accountID epoch t = true ∧ t' = set_accounts (alter (f (db_now t)) accountID) t)
    t r (tables w').
Proof.
  apply one_row_outcome. intros n t' Hf. destruct (epoch_is accountID epoch t); simplify_eq; auto.
Qed.

Lemma update_outbox_outcome accountID epoch f t fs r w' :
  one_row (update_outbox accountID epoch f) (World t fs) = (r, w') →
  outcome (λ _ : unit, λ t', ∃ row, outbox_at accountID epoch t = Some row ∧
    t' = set_outbox <[accountID := f (db_now t) row]> t) t r (tables w').
Proof.
  apply one_row_outcome. intros n t' Hf. destruct (outbox_at accountID epoch t); simplify_eq; eauto.
Qed.

Lemma Ack_outcome accountID epoch t fs r w' :
  AckQuotaOutbox accountID epoch (World t fs) = (r, w') →
  outcome (λ _ : unit, λ t', ∃ row, outbox_at accountID epoch t = Some row ∧ t' = set_outbox (delete accountID) t)
    t r (tables w').
Proof.
  apply one_row_outcome. intros n t' Hf. destruct (outbox_at accountID epoch t); simplify_eq; eauto.
Qed.

Lemma Commit_outcome stored encrypted expiresAt t fs r w' :
  Repository_Commit stored encrypted expiresAt (World t fs) = (r, w') →
  outcome (λ _ : unit, λ t', epoch_is (sc_AccountID stored) (sc_FenceEpoch stored) t = true ∧ ∃ c exp,
    credential_rows t !! sc_AccountID stored = Some c ∧
    t' = set_credentials <[sc_AccountID stored := CredentialRow (cr_kind c) encrypted exp (cr_version c + 1)]> t)
    t r (tables w').
Proof.
  intros H. unfold Repository_Commit, UpdateCredential in H. eapply transaction_outcome; [|exact H].
  eapply wp_mono; [|apply update_body_wp]. intros [] t' (He & c & Hc & ->). split; [done|]. eauto.
Qed.

Section quotas.
  Context `{Jsonb, Codec QuotaInfo}.

(** A text of the database that stands for a quota. *)
Definition carries (text : string) (quota : QuotaInfo) : Prop :=
  (∃ payload, marshal quota = Some payload ∧ jsonb payload = Some text) ∨ unmarshal text = Some quota.

Lemma Queue_outcome stored quota t fs r w' :
  CommitQuotaAndQueue stored quota (World t fs) = (r, w') →
  outcome (λ _ : unit, λ t', ∃ text, carries text quota ∧ epoch_is (sc_AccountID stored) (sc_FenceEpoch stored) t = true ∧
    t' = set_outbox <[sc_AccountID stored := queued_row stored text (db_now t)]>
           (set_accounts (alter (with_quota text) (sc_AccountID stored)) t)) t r (tables w').
Proof.
  unfold CommitQuotaAndQueue. destruct (marshal quota) as [payload|] eqn:Em; [|intros [= <- <-]; left; eauto].
  apply transaction_outcome. destruct (jsonb payload) as [text|] eqn:Ej.
  - do 2 wp_step. unfold one_row, update_account. do 3 wp_step. destruct (epoch_is _ _ t) eqn:Ee; simplify_eq; cbn [Z.eqb Pos.eqb negb];
      [|wp_step]. wp_step. unfold queue_quota. wp_step. simplify_eq. exists text.
    split_and!; [left; by exists payload|done|done].
  - wp_step. wp_step.
Qed.

(** Rows of the outbox are put off, and nothing else of them changes. *)
Record put_off (now : time) (row row' : outbox_row) : Prop := {
  po_platform : ob_platform row' = ob_platform row;
  po_group : ob_group row' = ob_group row;
  po_epoch : ob_fence_epoch row' = ob_fence_epoch row;
  po_quota : ob_quota row' = ob_quota row;
  po_next : ob_next_attempt_at row' = ob_next_attempt_at row;
  po_locked : ob_locked_until row' = ob_locked_until row ∨ ob_locked_until row' = Some (now + quotaOutboxLease)
}.

Definition leased (now : time) (m m' : gmap string outbox_row) : Prop :=
  ∀ id, match m !! id, m' !! id with
        | Some row, Some row' => put_off now row row'
        | None, None => True
        | _, _ => False
        end.

Lemma leased_refl now m : leased now m m.
Proof. intros id. destruct (m !! id); [|done]. split; auto. Qed.

Lemma leased_trans now m1 m2 m3 : leased now m1 m2 → leased now m2 m3 → leased now m1 m3.
Proof.
  intros H1 H2 id. specialize (H1 id). specialize (H2 id).
  destruct (m1 !! id), (m2 !! id), (m3 !! id); try done. destruct H1 as [? ? ? ? ? L1], H2 as [? ? ? ? ? L2].
  split; try congruence. destruct L2 as [->|]; [done|by right].
Qed.

Lemma leased_insert now m id row : m !! id = Some row → leased now m (<[id := leased_row now row]> m).
Proof.
  intros Hrow k. destruct (decide (id = k)) as [<-|Hne].
  - rewrite Hrow, lookup_insert_eq. split; auto.
  - rewrite lookup_insert_ne by done. apply leased_refl.
Qed.

Lemma outbox_at_Some accountID epoch t row :
  outbox_at accountID epoch t = Some row ↔ quota_outbox t !! accountID = Some row ∧ ob_fence_epoch row = epoch.
Proof.
  unfold outbox_at. destruct (quota_outbox t !! accountID) as [row'|]; cbn; [|by split; [|intros []]].
  destruct (Z.eqb_spec (ob_fence_epoch row') epoch) as [He|He]; (split; [intros [= <-]|intros [[= <-] Hr]]); done.
Qed.

(** A claimed item is a row of the outbox. *)
Definition item_of_row (t : db) (item : QuotaOutboxItem) : Prop :=
  ∃ row, quota_outbox t !! qo_AccountID item = Some row ∧ outbox_item (qo_AccountID item, row) = Some item.

Lemma item_of_row_facts t item : item_of_row t item →
  ∃ row, quota_outbox t !! qo_AccountID item = Some row ∧ ob_fence_epoch row = qo_FenceEpoch item
    ∧ carries (ob_quota row) (qo_Quota item).
Proof.
  intros (row & Hrow & Hi). exists row. unfold outbox_item in Hi. cbn in Hi.
  destruct (unmarshal (ob_quota row)) as [quota|] eqn:Eu; [|done]. cbn in Hi.
  assert (qo_FenceEpoch item = ob_fence_epoch row ∧ qo_Quota item = quota) as [-> ->] by (by injection Hi as <-).
  split_and!; [done|done|by right].
Qed.

Lemma due_rows_outbox skip limit t kv : kv ∈ due_rows skip limit t → quota_outbox t !! kv.1 = Some kv.2.
Proof.
  intros Hin%(subseteq_take _ _). rewrite merge_sort_Permutation in Hin. apply list_elem_of_filter in Hin as [_ Hin].
  destruct kv. by apply elem_of_map_to_list in Hin.
Qed.

Lemma outbox_item_id kv item : outbox_item kv = Some item → qo_AccountID item = kv.1.
Proof. unfold outbox_item. destruct (unmarshal (ob_quota kv.2)); [|done]. by intros [= <-]. Qed.

Lemma outbox_items_rows t rows items :
  (∀ kv, kv ∈ rows → quota_outbox t !! kv.1 = Some kv.2) → mapM outbox_item rows = Some items →
  Forall (item_of_row t) items.
Proof.
  intros Hrows Hm%mapM_Some. induction Hm as [|kv item rows items Hi Hm IH]; [constructor|].
  constructor; [|apply IH; intros kv' Hin; apply Hrows; by right].
  exists kv.2. rewrite (outbox_item_id _ _ Hi). split; [apply Hrows; by left|]. by destruct kv.
Qed.

Lemma lease_items_wp items t :
  wp (foldM lease_item 0 items) (λ _ t', ∃ m, t' = set_outbox (λ _, m) t ∧ leased (db_now t) (quota_outbox t) m) t.
Proof.
  apply (wp_foldM lease_item (λ _ _ t', ∃ m, t' = set_outbox (λ _, m) t ∧ leased (db_now t) (quota_outbox t) m)).
  - exists (quota_outbox t). split; [by destruct t|apply leased_refl].
  - intros seen item rest n t' _ (m & -> & Hm). unfold lease_item, update_outbox. wp_step. simplify_eq.
    destruct (outbox_at _ _ _) as [row|] eqn:Eo; simplify_eq; [|by exists m].
    apply outbox_at_Some in Eo as [Hrow _]. exists (<[qo_AccountID item := leased_row (db_now t) row]> m).
    split; [done|]. eapply leased_trans; [exact Hm|]. by apply leased_insert.
Qed.

Lemma Claim_outcome skip limit t fs r w' :
  ClaimQuotaOutbox skip limit (World t fs) = (r, w') →
  outcome (λ items t', Forall (item_of_row t) items ∧
    ∃ m, t' = set_outbox (λ _, m) t ∧ leased (db_now t) (quota_outbox t) m) t r (tables w').
Proof.
  unfold ClaimQuotaOutbox. destruct (limit <=? 0); [intros [= <- <-]; left; eauto|].
  apply transaction_outcome. do 2 wp_step. simplify_eq. destruct (mapM outbox_item _) as [items|] eqn:Em; [|do 2 wp_step].
  do 3 wp_step. eapply wp_mono; [|apply lease_items_wp]. intros n t' Hm. wp_step. split; [|done].
  eapply outbox_items_rows; [|exact Em]. apply due_rows_outbox.
Qed.

Lemma CommitQuota_outcome stored quota t fs r w' :
  CommitQuota stored quota (World t fs) = (r, w') →
  outcome (λ _ : unit, λ t', ∃ text, t' = set_accounts (alter (with_quota text) (sc_AccountID stored)) t) t r (tables w').
Proof.
  unfold CommitQuota, cast_quota. destruct (marshal quota) as [payload|]; [|intros [= <- <-]; left; eauto].
  destruct (jsonb payload) as [text|]; [|intros [= <- <-]; left; eauto].
  change (((mret text : DB string) ≫= ?k)) with (k text). intros Hu%update_account_outcome.
  eapply outcome_mono; [|exact Hu]. intros _ [_ ->]. by exists text.
Qed.
End quotas.

Open Scope Z_scope.

(** The secret a refresh replaced, and the one it wrote. *)
Record rotation := Rotation { ro_account : string; ro_proxy : string; ro_from : string; ro_to : string }.

(** The last five fields are ghosts: the keyspaces so far, the credentials that
    were rotated, what providers answered to refreshes, the quotas that were
    queued (account, epoch, text), and the quotas that snapshots showed. *)
Record rstore := RStore {
  rs_db : db;
  rs_redis : redis;
  rs_out : gset nat;                    (* sessions handed out by the pool *)
  rs_gone : gset nat;                   (* sessions that died *)
  rs_locks : list (Z * nat);            (* key and session *)
  rs_past : list redis;
  rs_rotated : list rotation;
  rs_answers : list (TokenBundle * TokenBundle);
  rs_queued : list (string * Z * string);
  rs_shown : list (string * list QuotaItem)
}.

Definition with_db (t : db) (st : rstore) : rstore :=
  RStore t (rs_redis st) (rs_out st) (rs_gone st) (rs_locks st) (rs_past st) (rs_rotated st) (rs_answers st)
    (rs_queued st) (rs_shown st).
Definition with_redis (r : redis) (st : rstore) : rstore :=
  RStore (rs_db st) r (rs_out st) (rs_gone st) (rs_locks st) (rs_redis st :: rs_past st) (rs_rotated st)
    (rs_answers st) (rs_queued st) (rs_shown st).
Definition with_sessions (out gone : gset nat) (locks : list (Z * nat)) (st : rstore) : rstore :=
  RStore (rs_db st) (rs_redis st) out gone locks (rs_past st) (rs_rotated st) (rs_answers st) (rs_queued st) (rs_shown st).
Definition log_rotated (l : list rotation) (st : rstore) : rstore :=
  RStore (rs_db st) (rs_redis st) (rs_out st) (rs_gone st) (rs_locks st) (rs_past st) (l ++ rs_rotated st)
    (rs_answers st) (rs_queued st) (rs_shown st).
Definition log_answers (l : list (TokenBundle * TokenBundle)) (st : rstore) : rstore :=
  RStore (rs_db st) (rs_redis st) (rs_out st) (rs_gone st) (rs_locks st) (rs_past st) (rs_rotated st)
    (l ++ rs_answers st) (rs_queued st) (rs_shown st).
Definition log_queued (l : list (string * Z * string)) (st : rstore) : rstore :=
  RStore (rs_db st) (rs_redis st) (rs_out st) (rs_gone st) (rs_locks st) (rs_past st) (rs_rotated st)
    (rs_answers st) (l ++ rs_queued st) (rs_shown st).
Definition log_shown (l : list (string * list QuotaItem)) (st : rstore) : rstore :=
  RStore (rs_db st) (rs_redis st) (rs_out st) (rs_gone st) (rs_locks st) (rs_past st) (rs_rotated st)
    (rs_answers st) (rs_queued st) (l ++ rs_shown st).

(** ** Sessions *)

(** pg_try_advisory_lock: a session gets a lock that no other session has. *)
Definition lock_free (key : Z) (session : nat) (st : rstore) : bool :=
  negb (existsb (λ l, (l.1 =? key) && negb (Nat.eqb l.2 session)) (rs_locks st)).
Definition lock_step (key : Z) (session : nat) (st : rstore) : rstore :=
  if lock_free key session st
  then with_sessions (rs_out st) (rs_gone st) ((key, session) :: rs_locks st) st else st.

(** pg_advisory_unlock *)
Fixpoint remove_lock (key : Z) (session : nat) (l : list (Z * nat)) : list (Z * nat) :=
  match l with
  | [] => []
  | p :: l => if (p.1 =? key) && Nat.eqb p.2 session then l else p :: remove_lock key session l
  end.
Definition unlock_step (key : Z) (session : nat) (st : rstore) : rstore :=
  with_sessions (rs_out st) (rs_gone st) (remove_lock key session (rs_locks st)) st.

Definition kill (session : nat) (st : rstore) : rstore :=
  with_sessions (rs_out st) ({[ session ]} ∪ rs_gone st) (rs_locks st) st.
Definition give_back (session : nat) (st : rstore) : rstore :=
  with_sessions (rs_out st ∖ {[ session ]}) (rs_gone st) (rs_locks st) st.
Definition let_go (session : nat) (st : rstore) : rstore :=
  with_sessions (rs_out st) (rs_gone st) (filter (λ l, l.2 ≠ session) (rs_locks st)) st.

(** A query on a session: it goes through, or the session is dead, or it dies,
    before or after the query took effect. *)
Definition on_session {A} (session : nat) (m : rstore → A * rstore) (st : rstore)
    (x : result (option context_error) A) (st' : rstore) : Prop :=
  ((session ∉ rs_gone st) ∧ x = Ok (m st).1 ∧ st' = (m st).2)
  ∨ (∃ ctx, x = Err ctx ∧ (st' = kill session st ∨ ((session ∉ rs_gone st) ∧ st' = kill session (m st).2))).

(** ** Statements *)

(** Only an error of the connection says something about the context. *)
Definition replies {A} {E : Type} (fails : E → Prop) (r : result E A) (x : result (E * option context_error) A) : Prop :=
  match r with
  | Ok a => x = Ok a
  | Err e => ∃ ctx, x = Err (e, ctx) ∧ (is_Some ctx → fails e)
  end.

Definition io_error (e : db_error) : Prop := e = EIO.
Definition redis_down (e : snapshot_error) : Prop := e = ErrRedis Unavailable.

Section exec.
  Context `{Jsonb, Codec QuotaInfo, Codec Entry, Codec (list string)}.
  (** How far the clocks of the hosts and of the database are apart. *)
  Context (skew : Z).

(** The ghosts a statement leaves, given the tables before and after it. *)
Definition rotated_by {A} (q : sql A) (t t' : db) : list rotation :=
  match q with
  | CommitQ stored encrypted _ =>
      match credential_rows t !! sc_AccountID stored with
      | Some c => if bool_decide (cr_version <$> credential_rows t' !! sc_AccountID stored = Some (cr_version c)) then []
                  else [Rotation (sc_AccountID stored) (sc_Proxy stored) (cr_encrypted_secret c) encrypted]
      | None => []
      end
  | _ => []
  end.

Definition queued_by {A} (q : sql A) (t' : db) : list (string * Z * string) :=
  match q with
  | QueueQuotaQ stored quota =>
      match outbox_at (sc_AccountID stored) (sc_FenceEpoch stored) t' with
      | Some row => [(sc_AccountID stored, sc_FenceEpoch stored, ob_quota row)]
      | None => []
      end
  | _ => []
  end.

Definition after_sql {A} (q : sql A) (t' : db) (st : rstore) : rstore :=
  log_rotated (rotated_by q (rs_db st) t') (log_queued (queued_by q t') (with_db t' st)).

Definition quotas_in (accounts : list Account) : list (string * list QuotaItem) :=
  (λ a, (acc_ID a, acc_Quota a)) <$> accounts.

Definition exec {X} (e : rE X) : rstore → X → rstore → Prop :=
  match e in rE X return rstore → X → rstore → Prop with
  | NowE => λ st x st', st' = st ∧ x <= db_now (rs_db st) + skew
  | ContextE => λ st x st', st' = st
  | SessionE => λ st x st',
      (∃ ctx, x = Err ctx ∧ st' = st)
      ∨ (∃ s, (s ∉ rs_out st) ∧ x = Ok s ∧ st' = with_sessions ({[ s ]} ∪ rs_out st) (rs_gone st) (rs_locks st) st)
  | TryLockE session key => on_session session (λ st, (lock_free key session st, lock_step key session st))
  | UnlockE session key => on_session session (λ st, (bool_decide ((key, session) ∈ rs_locks st), unlock_step key session st))
  | ReleaseE session => λ st x st', st' = give_back session st
  | CloseE session => λ st x st', st' = kill session (give_back session st)
  | SqlE q => λ st x st', ∃ pl fs r w',
      run_sql pl q (World (rs_db st) fs) = (r, w') ∧ replies io_error r x ∧ st' = after_sql q (tables w') st
  | NonceE => λ st x st', st' = st
  | RefreshOAuthE p current => λ st x st',
      st' = log_answers (match x with Ok b => [(current, b)] | Err _ => [] end) st
  | QuotaE p credential => λ st x st', st' = st
  | LoadE platform group => λ st x st',
      ∃ now f1 f2 f3 f4 s1 s2 s3 s4, Forall (.∈ rs_redis st :: rs_past st) [s1; s2; s3; s4] ∧
      replies redis_down (Load true platform group now f1 f2 f3 f4 s1 s2 s3 s4) x ∧
      st' = log_shown (match x with Ok sn => quotas_in (sn_Accounts sn) | Err _ => [] end) st
  | PublishE platform group epoch accounts => λ st x st',
      ∃ f graceUntil r rd, Publish (Some f) platform group epoch accounts graceUntil (rs_redis st) = (r, rd) ∧
      replies redis_down r x ∧
      st' = log_shown (match r with Ok _ => quotas_in accounts | Err _ => [] end) (with_redis rd st)
  | SameQuotaE current quota => λ st x st', st' = st ∧ (x = true → current = quota)
  end.
End exec.

(** ** What happens by itself *)

(** Time passes and other writers of the database: epochs only grow, and a
    credential only changes together with its account's epoch; the outbox is
    the refreshers'. *)
Record db_moves (t t' : db) : Prop := {
  dm_now : db_now t <= db_now t';
  dm_accounts : ∀ id a, account_rows t !! id = Some a → ∃ a', account_rows t' !! id = Some a'
    ∧ ac_fence_epoch a <= ac_fence_epoch a'
    ∧ (ac_fence_epoch a = ac_fence_epoch a' → credential_rows t' !! id = credential_rows t !! id);
  dm_outbox : quota_outbox t' = quota_outbox t
}.

Inductive moves : rstore → rstore → Prop :=
| session_dies st session : moves st (kill session st)
| locks_go st session : session ∈ rs_gone st → moves st (let_go session st)
| redis_changes st r : moves st (with_redis r st)
| others_write st t : db_moves (rs_db st) t → moves st (with_db t st).

#[export] Instance db_moves_preorder : PreOrder db_moves.
Proof.
  split.
  - intros t. split; [lia| |done]. intros id a Ha. exists a. done.
  - intros t1 t2 t3 [N1 A1 O1] [N2 A2 O2]. split; [lia| |congruence]. intros id a Ha.
    destruct (A1 id a Ha) as (b & Hb & L1 & C1). destruct (A2 id b Hb) as (c & Hc & L2 & C2).
    exists c. split_and!; [done|lia|]. intros He. rewrite C2, C1 by lia. done.
Qed.

(** The tables some time later. *)
Definition later (d : duration) (t : db) : db :=
  MkDb (tenants t) (request_attempts t) (usage_ledger t) (model_prices t) (tenant_wallets t)
    (wallet_transactions t) (billing_runs t) (billing_resolutions t) (account_rows t)
    (account_actions t) (credential_rows t) (quota_outbox t) (db_seq t) (db_now t + d).

Lemma later_moves d t : 0 <= d → db_moves t (later d t).
Proof. intros Hd. split; [cbn; lia| |done]. intros id a Ha. by exists a. Qed.
