(* ===== verification/RefreshFacts.v ===== *)
(** * What a refresher does

    The monitor of one client: what it knows after the answers it got, and what
    it may do then.  Every operation of Refresh.v obeys it. *)

From S2P Require Import Prelude Decimal Contracts Numeric Db Redis Snapshot Fencing Effects Cipher Provider RefreshData Refresh RefreshStore.

Open Scope Z_scope.

(** ** Backoff *)

(** The doublings stop at the first delay of at least fifteen minutes. *)
Lemma double_delay_spec fuel i attempts delay :
  0 < delay → 1 <= i <= attempts → quotaOutboxMaxBackoff <= delay * 2 ^ Z.of_nat fuel →
  Z.min quotaOutboxMaxBackoff (double_delay fuel i attempts delay)
  = Z.min quotaOutboxMaxBackoff (delay * 2 ^ (attempts - i)).
Proof.
  revert i delay. induction fuel as [|fuel IH]; intros i delay Hd Hi Hf; cbn [double_delay].
  - rewrite Z.mul_1_r in Hf. rewrite !Z.min_l; [done| |done].
    assert (1 <= 2 ^ (attempts - i)) by (apply (Z.pow_le_mono_r 2 0); lia). nia.
  - destruct (Z.ltb_spec i attempts) as [Hlt|Hge]; cbn [andb].
    + destruct (Z.ltb_spec delay quotaOutboxMaxBackoff) as [Hb|Hb].
      * rewrite IH; [|lia|lia|].
        -- f_equal. replace (attempts - i) with (Z.succ (attempts - (i + 1))) by lia. rewrite Z.pow_succ_r by lia. lia.
        -- rewrite Nat2Z.inj_succ, Z.pow_succ_r in Hf by lia. lia.
      * rewrite !Z.min_l; [done| |done]. assert (1 <= 2 ^ (attempts - i)) by (apply (Z.pow_le_mono_r 2 0); lia). nia.
    + replace (attempts - i) with 0 by lia. by rewrite Z.mul_1_r.
Qed.

(** One minute, doubled with every attempt after the first, at most fifteen. *)
Lemma quotaOutboxBackoff_spec attempts :
  quotaOutboxBackoff attempts = Z.min quotaOutboxMaxBackoff (quotaOutboxMinBackoff * 2 ^ (Z.max 1 attempts - 1)).
Proof.
  unfold quotaOutboxBackoff.
  assert ((if attempts <? 1 then 1 else attempts) = Z.max 1 attempts) as -> by (destruct (Z.ltb_spec attempts 1); lia).
  rewrite <-(double_delay_spec 5 1); [|done|lia|done].
  destruct (Z.ltb_spec quotaOutboxMaxBackoff (double_delay 5 1 (Z.max 1 attempts) quotaOutboxMinBackoff)); lia.
Qed.

Lemma quotaOutboxBackoff_range attempts : quotaOutboxMinBackoff <= quotaOutboxBackoff attempts <= quotaOutboxMaxBackoff.
Proof.
  rewrite quotaOutboxBackoff_spec. split; [|lia].
  assert (1 <= 2 ^ (Z.max 1 attempts - 1)) by (apply (Z.pow_le_mono_r 2 0); lia).
  assert (quotaOutboxMinBackoff <= quotaOutboxMaxBackoff) by done. assert (0 < quotaOutboxMinBackoff) by done. nia.
Qed.

(** ** What a client knows *)

Inductive phase :=
| Idle
| Drawn (accountID : string) (epoch : Z)
| Fetched (stored : StoredCredential)
| Refreshed (stored : StoredCredential) (refreshed : TokenBundle).

Record refresher := Refresher {
  rf_conn : option (nat * option Z);             (* its session, and the lock held *)
  rf_phase : phase;
  rf_quotas : list (string * Z * QuotaInfo);     (* queued by it, or claimed *)
  rf_shown : list (string * list QuotaItem);     (* seen in snapshots, or published *)
  rf_passed : list (string * Z);                 (* epochs it saw superseded *)
  rf_now : time
}.

Definition refresher0 : refresher := Refresher None Idle [] [] [] 0.

Definition set_conn (c : option (nat * option Z)) (σ : refresher) : refresher :=
  Refresher c (rf_phase σ) (rf_quotas σ) (rf_shown σ) (rf_passed σ) (rf_now σ).
Definition set_phase (p : phase) (σ : refresher) : refresher :=
  Refresher (rf_conn σ) p (rf_quotas σ) (rf_shown σ) (rf_passed σ) (rf_now σ).
Definition add_quotas (l : list (string * Z * QuotaInfo)) (σ : refresher) : refresher :=
  Refresher (rf_conn σ) (rf_phase σ) (l ++ rf_quotas σ) (rf_shown σ) (rf_passed σ) (rf_now σ).
Definition add_shown (l : list (string * list QuotaItem)) (σ : refresher) : refresher :=
  Refresher (rf_conn σ) (rf_phase σ) (rf_quotas σ) (l ++ rf_shown σ) (rf_passed σ) (rf_now σ).
Definition add_passed (l : list (string * Z)) (σ : refresher) : refresher :=
  Refresher (rf_conn σ) (rf_phase σ) (rf_quotas σ) (rf_shown σ) (l ++ rf_passed σ) (rf_now σ).
Definition set_time (t : time) (σ : refresher) : refresher :=
  Refresher (rf_conn σ) (rf_phase σ) (rf_quotas σ) (rf_shown σ) (rf_passed σ) t.

Definition locked (accountID : string) (σ : refresher) : Prop :=
  ∃ s, rf_conn σ = Some (s, Some (accountLockKey accountID)).

Definition item_key (i : QuotaOutboxItem) : string * Z * QuotaInfo := (qo_AccountID i, qo_FenceEpoch i, qo_Quota i).

Definition sql_next {A} (q : sql A) : result (db_error * option context_error) A → refresher → refresher :=
  match q in sql A return result (db_error * option context_error) A → refresher → refresher with
  | AcquireQ accountID => λ x, set_phase match x with Ok epoch => Drawn accountID epoch | Err _ => Idle end
  | ReadQ accountID epoch => λ x,
      match x with Ok row => set_phase (Fetched (stored_of accountID epoch row)) | Err _ => id end
  | CommitQ _ _ _ => λ _, set_phase Idle
  | QueueQuotaQ stored quota => λ x σ,
      set_phase Idle (match x with Ok _ => add_quotas [(sc_AccountID stored, sc_FenceEpoch stored, quota)] σ | Err _ => σ end)
  | ClaimQ _ => λ x, match x with Ok items => add_quotas (item_key <$> items) | Err _ => id end
  | FenceQ accountID => λ x σ,
      match x with
      | Ok fence => add_passed (fst <$> filter (λ k, k.1.1 = accountID ∧ k.1.2 ≠ fence) (rf_quotas σ)) σ
      | Err _ => σ
      end
  | _ => λ _, id
  end.

Definition r_next {X} (e : rE X) : X → refresher → refresher :=
  match e in rE X return X → refresher → refresher with
  | NowE => set_time
  | SessionE => λ x, match x with Ok s => set_conn (Some (s, None)) | Err _ => id end
  | TryLockE s key => λ x, match x with Ok true => set_conn (Some (s, Some key)) | _ => id end
  | UnlockE s _ => λ _ σ, set_conn (Some (s, None)) (set_phase Idle σ)
  | ReleaseE _ | CloseE _ => λ _, set_conn None
  | SqlE q => sql_next q
  | RefreshOAuthE _ _ => λ x σ,
      match x, rf_phase σ with Ok b, Fetched stored => set_phase (Refreshed stored b) σ | _, _ => σ end
  | LoadE _ _ => λ x, match x with Ok sn => add_shown (quotas_in (sn_Accounts sn)) | Err _ => id end
  | PublishE _ _ _ accounts => λ x, match x with Ok _ => add_shown (quotas_in accounts) | Err _ => id end
  | SameQuotaE current quota => λ x σ,
      if x : bool then add_shown ((λ s, (s.1, quota)) <$> filter (λ s, s.2 = current) (rf_shown σ)) σ else σ
  | _ => λ _, id
  end.

Section refreshers.
  Context `{Jsonb, Codec QuotaInfo, Codec TokenBundle, Gcm}.
  Context (c : Cipher).

(** ** What a client may do *)

Definition sealed (accountID : string) (b : TokenBundle) (encrypted : string) : Prop :=
  ∃ plaintext nonce, marshal b = Some plaintext ∧ Encrypt (Some c) accountID plaintext nonce = Ok encrypted.

Definition publicly_known (accountID : string) (epoch : Z) (σ : refresher) : Prop :=
  (∃ quota, (accountID, epoch, quota) ∈ rf_quotas σ ∧ (accountID, default [] quota) ∈ rf_shown σ)
  ∨ (accountID, epoch) ∈ rf_passed σ.

(** A credential is fetched and a provider asked under the account's lock; only
    what the provider answered is written, only for what was fetched; a quota
    leaves the outbox when it is public or superseded. *)
Definition sql_permits {A} (q : sql A) (σ : refresher) : Prop :=
  match q with
  | AcquireQ accountID => locked accountID σ
  | ReadQ accountID epoch => rf_phase σ = Drawn accountID epoch ∧ locked accountID σ
  | CommitQ stored encrypted _ => ∃ refreshed, rf_phase σ = Refreshed stored refreshed
      ∧ sealed (sc_AccountID stored) refreshed encrypted ∧ locked (sc_AccountID stored) σ
  | FailQ stored _ | CommitQuotaQ stored _ | QueueQuotaQ stored _ =>
      rf_phase σ = Fetched stored ∧ locked (sc_AccountID stored) σ
  | AckQ accountID epoch => publicly_known accountID epoch σ
  | RetryQ _ _ _ nextAttempt => nextAttempt <= rf_now σ + quotaOutboxMaxBackoff
  | _ => True
  end.

Definition r_permits {X} (e : rE X) (σ : refresher) : Prop :=
  match e with
  | SessionE => rf_conn σ = None
  | TryLockE s _ => rf_conn σ = Some (s, None)
  | UnlockE s key => rf_conn σ = Some (s, Some key)
  | ReleaseE s | CloseE s => rf_conn σ = Some (s, None)
  | SqlE q => sql_permits q σ
  | RefreshOAuthE _ current => ∃ stored b, rf_phase σ = Fetched stored ∧ locked (sc_AccountID stored) σ
      ∧ decryptTokenBundle (Some c) stored = Ok b ∧ current = with_proxy (sc_Proxy stored) b
  | QuotaE _ _ => ∃ stored, rf_phase σ = Fetched stored ∧ locked (sc_AccountID stored) σ
  | _ => True
  end.

#[export] Instance refresh_monitor : Monitor rE refresher :=
  {| permits := @r_permits; next := @r_next; answers := λ _ _ _ _, True |}.

Lemma must_ask {X} (e : rE X) Q σ : r_permits e σ → (∀ x, Q x (r_next e x σ)) → must (perform e) Q σ.
Proof. intros Hp HQ. apply must_perform; [done|]. by intros x _. Qed.

Lemma must_on_ok {A B} (m : P A) (k : A → P B) Q σ :
  must m (λ r, match r with Ok a => must (k a) Q | Err e => Q (Err e) end) σ → must (on_ok m k) Q σ.
Proof. intros Hm. apply must_bind. eapply must_mono; [exact Hm|]. by intros [a|e] σ'. Qed.

Lemma must_query {A} (q : sql A) Q σ :
  sql_permits q σ → (∀ a, Q (Ok a) (sql_next q (Ok a) σ)) → (∀ e ctx, Q (Err (RDatabase e ctx)) (sql_next q (Err (e, ctx)) σ)) →
  must (query_ q) Q σ.
Proof. intros Hp Hok Herr. apply must_bind, must_ask; [done|]. intros [a|[e ctx]]; apply must_ret; [apply Hok|apply Herr]. Qed.

(** Knowledge of quotas only grows. *)
Record learns (σ σ' : refresher) : Prop := {
  le_quotas : rf_quotas σ ⊆ rf_quotas σ';
  le_shown : rf_shown σ ⊆ rf_shown σ';
  le_now : rf_now σ' = rf_now σ
}.
#[export] Instance learns_preorder : PreOrder learns.
Proof. split; [by intros σ|]. intros σ1 σ2 σ3 [] []. split; (congruence || set_solver). Qed.

(** The lock stays as well. *)
Definition keeps (σ σ' : refresher) : Prop := learns σ σ' ∧ rf_conn σ' = rf_conn σ.
#[export] Instance keeps_preorder : PreOrder keeps.
Proof. split; [by intros σ|]. intros σ1 σ2 σ3 [L1 E1] [L2 E2]. split; [by etransitivity|congruence]. Qed.

Lemma keeps_locked id σ σ' : keeps σ σ' → locked id σ → locked id σ'.
Proof. intros [_ Hc] [s Hs]. exists s. congruence. Qed.

Lemma keeps_sql {A} (q : sql A) x σ : keeps σ (sql_next q x σ).
Proof. destruct q; cbn [sql_next]; repeat case_match; repeat split; cbn; done || set_solver. Qed.

Lemma keeps_phase p σ σ' : keeps σ σ' → keeps σ (set_phase p σ').
Proof. by intros [[] ]. Qed.

(** ** Locks *)

Lemma must_TryLock accountID Q σ :
  rf_conn σ = None →
  (∀ e σ', rf_conn σ' = None → learns σ σ' → Q (Err e) σ') →
  (∀ σ', rf_conn σ' = None → learns σ σ' → Q (Ok None) σ') →
  (∀ s σ', rf_conn σ' = Some (s, Some (accountLockKey accountID)) → learns σ σ' →
     Q (Ok (Some (Held s (accountLockKey accountID)))) σ') →
  must (TryLock accountID) Q σ.
Proof.
  intros Hc He Hn Hs. unfold TryLock. case_match; [by apply must_ret, He|].
  unfold TryAcquireSingleton. apply must_bind, must_ask; [done|]. intros [s|ctx]; cbn; [|by apply He].
  split; [done|]. intros [[]|ctx] _; cbn; [by apply Hs|(split; [done|]; intros [] _)..]; [by apply Hn|by apply He].
Qed.

Lemma must_unlock s key Q σ :
  rf_conn σ = Some (s, Some key) → (∀ u σ', rf_conn σ' = None → learns σ σ' → Q u σ') →
  must (unlock (Held s key)) Q σ.
Proof.
  intros Hc HQ. unfold unlock. apply must_bind, must_ask; [done|].
  intros [[]|ctx]; cbn; (split; [done|]; intros [] _; by apply HQ).
Qed.

(** A body under the lock of an account, wherever it stops. *)
Lemma must_with_lock {A} accountID (body : P A) σ :
  rf_conn σ = None → (∀ σ', locked accountID σ' → must body (λ _, keeps σ') σ') →
  must (with_lock accountID body) (λ _ σ', rf_conn σ' = None) σ.
Proof.
  intros Hc Hbody. unfold with_lock. apply must_on_ok, must_TryLock; [done|done|done|].
  intros s σ' Hs _. apply must_bind. eapply must_mono; [apply Hbody; by eexists|]. intros r σ1 [_ Hr]. rewrite Hs in Hr.
  destruct r as [a|e].
  - apply must_on_ok. apply must_unlock; [done|]. intros [u|e] σ2 Hn _; exact Hn.
  - apply must_bind. apply must_unlock; [done|]. intros u σ2 Hn _. exact Hn.
Qed.

(** ** The services *)

Lemma must_Repository_Acquire accountID Q σ :
  locked accountID σ → (∀ e σ', keeps σ σ' → Q (Err e) σ') →
  (∀ stored σ', keeps σ σ' → rf_phase σ' = Fetched stored → sc_AccountID stored = accountID → Q (Ok stored) σ') →
  must (Repository_Acquire accountID) Q σ.
Proof.
  intros Hl He Hs. unfold Repository_Acquire.
  apply must_on_ok, must_query; [done| |intros; apply He, (keeps_sql (AcquireQ accountID))].
  intros epoch. pose proof (keeps_sql (AcquireQ accountID) (Ok epoch) σ) as Hk.
  apply must_on_ok, must_query; [split; [done|by eapply keeps_locked]| |].
  - intros row. apply must_ret, Hs; [|done|done]. etransitivity; [exact Hk|apply (keeps_sql (ReadQ accountID epoch))].
  - intros e ctx. apply He. etransitivity; [exact Hk|apply (keeps_sql (ReadQ accountID epoch))].
Qed.

Lemma must_provider_failed {A} stored e σ σ0 :
  keeps σ0 σ → rf_phase σ = Fetched stored → locked (sc_AccountID stored) σ →
  must (@provider_failed A stored e) (λ _, keeps σ0) σ.
Proof.
  intros Hk Hp Hl. unfold provider_failed. apply must_bind, must_query; [done|intros u|intros e' ctx]; exact Hk.
Qed.

Lemma must_refresh_body s reg accountID σ :
  rs_Cipher s = Some c → locked accountID σ → must (refresh_body s reg accountID) (λ _, keeps σ) σ.
Proof.
  intros Hc Hl. unfold refresh_body. apply must_on_ok, must_Repository_Acquire; [done|done|].
  intros stored σ1 Hk Hp Hid. pose proof (keeps_locked _ _ _ Hk Hl) as Hl1. rewrite <-Hid in Hl1.
  apply must_on_ok. rewrite Hc. apply must_ret. destruct (decryptTokenBundle (Some c) stored) as [current|e] eqn:Ed; [|done].
  destruct (find_provider _ reg stored) as [p|]; [|done]. apply must_bind. unfold call_refresh.
  destruct (refresh_guard p _); [|apply must_ret; by apply must_provider_failed].
  apply must_ask; [by exists stored, current|]. intros [refreshed|e]; [|by apply must_provider_failed].
  cbn [r_next]. rewrite Hp. pose proof (keeps_phase (Refreshed stored refreshed) _ _ Hk) as Hk2.
  case_if_goal; [done|]. apply must_on_ok. unfold encryptTokenBundle.
  destruct (marshal refreshed) as [plaintext|] eqn:Em; [|done].
  apply must_bind, must_ask; [done|]. intros nonce. cbn [r_next id]. destruct (Encrypt (Some c) accountID plaintext nonce) as [encrypted|e] eqn:Ee; [|done].
  apply must_on_ok, must_query; [|intros u; by apply keeps_phase|intros; by apply keeps_phase].
  exists refreshed. split_and!; [done| |done]. exists plaintext, nonce. rewrite Hid. done.
Qed.

(** ** Quotas *)

Lemma replace_quota_found id quota accounts found accounts' :
  replace_quota id quota accounts = Some (found, accounts') →
  found ∈ accounts ∧ acc_ID found = id ∧ (id, quota) ∈ quotas_in accounts'.
Proof.
  revert accounts'. induction accounts as [|a rest IH]; intros accounts'; cbn [replace_quota]; [done|].
  destruct (String.eqb_spec (acc_ID a) id) as [<-|].
  - intros [= <- <-]. split_and!; [by left|done|]. by left.
  - destruct (replace_quota id quota rest) as [[f l]|]; [|done]. intros [= -> <-].
    destruct (IH l eq_refl) as (Hf & Hi & Hq). split_and!; [by right|done|]. by right.
Qed.

(** What was published is public. *)
Lemma must_publish stored quota Q σ :
  (∀ e σ', keeps σ σ' → Q (Err e) σ') →
  (∀ σ', keeps σ σ' → (sc_AccountID stored, default [] quota) ∈ rf_shown σ' → Q (Ok tt) σ') →
  must (RedisPublishQuota stored quota) Q σ.
Proof.
  intros He Hok. unfold RedisPublishQuota. case_if_goal; [by apply must_ret, He|].
  apply must_bind, must_ask; [done|]. intros [sn|[e ctx]]; [|by apply must_ret, He]. cbn [r_next].
  set (σ1 := add_shown _ σ). assert (keeps σ σ1) as Hk1 by (repeat split; set_solver).
  destruct (replace_quota _ _ _) as [[found accounts]|] eqn:Er; [|by apply must_ret, He].
  destruct (replace_quota_found _ _ _ _ _ Er) as (Hf & Hid & Hq).
  apply must_bind, must_ask; [done|]. intros [].
  - apply must_ret, Hok; [etransitivity; [exact Hk1|]; repeat split; set_solver|].
    cbn. apply elem_of_app. left. apply list_elem_of_fmap. exists (acc_ID found, acc_Quota found). split; [by rewrite Hid|].
    apply list_elem_of_filter. split; [done|]. apply elem_of_app. left. by apply (list_elem_of_fmap_2 (λ a, (acc_ID a, acc_Quota a))).
  - apply must_bind, must_ask; [done|]. intros [v|[e ctx]]; cbn [r_next]; apply must_ret.
    + apply Hok; [etransitivity; [exact Hk1|]; repeat split; set_solver|]. cbn. apply elem_of_app. by left.
    + by apply He.
Qed.

Lemma must_publish_now s stored quota σ :
  qs_Snapshot s = None ∨ qs_Snapshot s = Some RedisPublishQuota →
  (qs_outbox s = true → (sc_AccountID stored, sc_FenceEpoch stored, quota) ∈ rf_quotas σ) →
  must (publish_now s stored quota) (λ _, keeps σ) σ.
Proof.
  intros Hs Hq. unfold publish_now. destruct Hs as [->| ->]; [done|]. apply must_on_ok, must_publish; [done|].
  intros σ' Hk Hsh. destruct (qs_outbox s); [|done]. apply must_query; [|done..].
  left. exists quota. split; [|done]. by apply Hk, Hq.
Qed.

Lemma must_quota_body s reg accountID σ :
  qs_Cipher s = Some c → qs_Snapshot s = None ∨ qs_Snapshot s = Some RedisPublishQuota → locked accountID σ →
  must (quota_body s reg accountID) (λ _, keeps σ) σ.
Proof.
  intros Hc Hs Hl. unfold quota_body. apply must_on_ok, must_Repository_Acquire; [done|done|].
  intros stored σ1 Hk Hp Hid. pose proof (keeps_locked _ _ _ Hk Hl) as Hl1. rewrite <-Hid in Hl1.
  apply must_on_ok. rewrite Hc. apply must_ret. destruct (decryptTokenBundle (Some c) stored) as [current|e] eqn:Ed; [|done].
  destruct (find_provider _ reg stored) as [p|]; [|done].
  apply must_bind, must_ask; [by exists stored|]. intros [[items|]|e]; [|done|by apply must_provider_failed].
  cbn [r_next id]. apply must_on_ok.
  destruct (qs_outbox s) eqn:Ho.
  - assert (∀ x, keeps σ (sql_next (QueueQuotaQ stored (Some items)) x σ1)) as Hk2
      by (intros x; etransitivity; [exact Hk|apply keeps_sql]).
    apply must_query; [done| |intros; apply Hk2]. intros []. apply must_on_ok.
    eapply must_mono; [apply must_publish_now; [done|]; intros _; cbn; by left|].
    intros [u|e] σ2 Hk3; cbn; (etransitivity; [apply (Hk2 (Ok tt))|exact Hk3]).
  - apply must_query; [done| |done]. intros []. apply must_on_ok.
    eapply must_mono; [apply must_publish_now; [done|by rewrite Ho]|].
    by intros [u|e] σ2 Hk3; cbn; etransitivity.
Qed.

(** ** The reconciler *)

Lemma must_retry item cause t σ : rf_now σ = t → must (retry item cause t) (λ _, keeps σ) σ.
Proof.
  intros Ht. unfold retry. apply must_bind, must_ask; [done|]. intros [ctx|]; [done|].
  apply must_bind, must_query; [|done..]. cbn. pose proof (quotaOutboxBackoff_range (qo_Attempts item)). lia.
Qed.

Lemma must_reconcile_locked item t σ :
  item_key item ∈ rf_quotas σ → rf_now σ = t → must (reconcile_locked RedisPublishQuota item t) (λ _, keeps σ) σ.
Proof.
  intros Hin Ht.
  assert (∀ e σ', keeps σ σ' → must (retry item e t) (λ _, keeps σ) σ') as Hretry.
  { intros e σ' Hk. eapply must_mono; [apply must_retry; rewrite <-Ht; apply Hk|]. intros r σ2 Hk2. by etransitivity. }
  unfold reconcile_locked. apply must_bind, must_query; [done| |intros e ctx; by apply Hretry].
  intros fence. cbn [sql_next]. set (σ1 := add_passed _ σ). assert (keeps σ σ1) as Hk1 by (repeat split; set_solver).
  destruct (Z.eqb_spec fence (qo_FenceEpoch item)) as [->|Hne]; cbn [negb].
  - apply must_bind, must_publish; [intros e σ' Hk; apply Hretry; by etransitivity|].
    intros σ2 Hk2 Hsh. assert (keeps σ σ2) as Hk by by etransitivity.
    apply must_bind, must_query; [|done|intros e ctx; by apply Hretry].
    left. exists (qo_Quota item). split; [by apply Hk|done].
  - apply must_query; [|done..]. right. cbn. apply elem_of_app. left.
    apply list_elem_of_fmap. exists (item_key item). split; [done|]. apply list_elem_of_filter. done.
Qed.

Lemma must_reconcileItem item t σ :
  rf_conn σ = None → item_key item ∈ rf_quotas σ → rf_now σ = t →
  must (reconcileItem RedisPublishQuota item t) (λ _ σ', rf_conn σ' = None ∧ learns σ σ') σ.
Proof.
  intros Hc Hin Ht.
  assert (∀ e σ', rf_conn σ' = None → learns σ σ' →
    must (retry item e t) (λ _ σ', rf_conn σ' = None ∧ learns σ σ') σ') as Hretry.
  { intros e σ' Hc' Hl. eapply must_mono; [apply must_retry; rewrite <-Ht; apply Hl|]. intros r σ2 [Hl2 Hc2].
    split; [congruence|by etransitivity]. }
  unfold reconcileItem. apply must_bind, must_TryLock; [done|done|intros σ' Hc' Hl; by apply Hretry|].
  intros s σ1 Hc1 Hl1. apply must_bind. eapply must_mono; [apply must_reconcile_locked; [by apply Hl1|rewrite <-Ht; apply Hl1]|].
  intros r σ2 [Hl2 Hc2]. apply must_bind, must_unlock; [congruence|]. intros u σ3 Hc3 Hl3. split; [done|].
  etransitivity; [exact Hl1|]. by etransitivity.
Qed.

Lemma must_reconcile_all items σ :
  rf_conn σ = None → (∀ i, i ∈ items → item_key i ∈ rf_quotas σ) →
  must (reconcile_all RedisPublishQuota items) (λ _ σ', rf_conn σ' = None) σ.
Proof.
  revert σ. induction items as [|item rest IH]; intros σ Hc Hin; cbn [reconcile_all]; [done|].
  apply must_bind, must_ask; [done|]. intros t. apply must_bind.
  eapply must_mono; [apply must_reconcileItem; [done|by apply Hin; left|done]|]. intros r σ1 [Hc1 Hl1].
  apply must_bind. eapply must_mono; [apply IH; [done|]|].
  - intros i Hi. apply Hl1. by apply Hin; right.
  - by intros errs σ2 Hc2.
Qed.

(** ** Operations *)

(** What clients of this store run: the services and loops as control wires
    them, with one cipher and the Redis publisher, or none. *)
Inductive operation : ∀ A, prog rE A → Prop :=
| op_refresh s reg accountID : rs_Cipher s = Some c → operation _ (RefreshService_Refresh s reg accountID)
| op_quota s reg accountID : qs_Cipher s = Some c → qs_Snapshot s = None ∨ qs_Snapshot s = Some RedisPublishQuota →
    operation _ (QuotaService_Refresh s reg accountID)
| op_reconcile publish : publish = None ∨ publish = Some RedisPublishQuota → operation _ (QuotaReconciler_RunOnce publish)
| op_refresh_loop s reg : rs_Cipher s = Some c → operation _ (RefreshLoop_RunOnce s reg)
| op_quota_loop s reg : qs_Cipher s = Some c → qs_Snapshot s = None ∨ qs_Snapshot s = Some RedisPublishQuota →
    operation _ (QuotaLoop_RunOnce s reg).

Lemma must_RefreshService s reg accountID σ :
  rs_Cipher s = Some c → rf_conn σ = None → must (RefreshService_Refresh s reg accountID) (λ _ σ', rf_conn σ' = None) σ.
Proof.
  intros Hs Hc. unfold RefreshService_Refresh. rewrite Hs. apply must_with_lock; [done|].
  intros σ' Hl. by apply must_refresh_body.
Qed.

Lemma must_QuotaService s reg accountID σ :
  qs_Cipher s = Some c → qs_Snapshot s = None ∨ qs_Snapshot s = Some RedisPublishQuota → rf_conn σ = None →
  must (QuotaService_Refresh s reg accountID) (λ _ σ', rf_conn σ' = None) σ.
Proof.
  intros Hs Hp Hc. unfold QuotaService_Refresh. rewrite Hs. apply must_with_lock; [done|].
  intros σ' Hl. by apply must_quota_body.
Qed.

Lemma must_each_account {A} (f : string → P A) ids σ :
  (∀ id σ, rf_conn σ = None → must (f id) (λ _ σ', rf_conn σ' = None) σ) →
  rf_conn σ = None → must (each_account f ids) (λ _ σ', rf_conn σ' = None) σ.
Proof.
  intros Hf. revert σ. induction ids as [|id ids IH]; intros σ Hc; cbn [each_account]; [done|].
  apply must_bind. eapply must_mono; [by apply Hf|]. intros r σ1 Hc1.
  apply must_bind. eapply must_mono; [by apply IH|]. by intros errs σ2 Hc2.
Qed.

Lemma refreshers_disciplined A (m : prog rE A) σ :
  operation A m → rf_conn σ = None → must m (λ _ σ', rf_conn σ' = None) σ.
Proof.
  intros Hop Hc. destruct Hop as [s reg id Hs|s reg id Hs Hp|publish Hp|s reg Hs|s reg Hs Hp].
  - by apply must_RefreshService.
  - by apply must_QuotaService.
  - destruct Hp as [->| ->]; [done|]. cbn [QuotaReconciler_RunOnce]. apply must_bind, must_query; [done| |done].
    intros items. apply must_reconcile_all; [done|]. intros i Hi. cbn. apply elem_of_app. left. by apply list_elem_of_fmap_2.
  - unfold RefreshLoop_RunOnce. apply must_bind, must_ask; [done|]. intros t.
    apply must_bind, must_query; [done| |done]. intros ids. apply must_each_account; [|done].
    intros id σ' Hc'. by apply must_RefreshService.
  - unfold QuotaLoop_RunOnce. apply must_bind, must_query; [done| |done]. intros ids. apply must_each_account; [|done].
    intros id σ' Hc'. by apply must_QuotaService.
Qed.
End refreshers.
