(* ===== verification/RefreshInvariant.v ===== *)
(** * What the store and its refreshers agree on

    Two invariants of the store of RefreshStore.v and the knowledge of all its
    clients: about locks, that at most one live session holds a key; about
    data, that fence epochs keep runs apart, so that a credential is only
    replaced by what was made of it, and that a queued quota is in the outbox,
    public, or superseded. *)

From S2P Require Import Prelude Decimal Contracts Numeric Db Fencing Redis Snapshot Effects Cipher Provider RefreshData Refresh RefreshStore RefreshFacts.

Open Scope Z_scope.

Section invariants.
  Context `{Jsonb, Codec QuotaInfo, Codec TokenBundle, Gcm, Codec Entry, Codec (list string)}.
  Context (c : Cipher) (skew : Z) (Hskew : 0 <= skew).

#[local] Instance monitor : Monitor rE refresher := refresh_monitor c.
#[local] Arguments step_client : simpl never.

(** ** Locks *)

Definition holds (st : rstore) (s : nat) (key : Z) : Prop := s ∈ rs_gone st ∨ (key, s) ∈ rs_locks st.

Record locks_ok (st : rstore) (σ : nat → refresher) : Prop := {
  lo_exclusive : ∀ key s s', (key, s) ∈ rs_locks st → (key, s') ∈ rs_locks st → s = s';
  lo_session : ∀ i s k, rf_conn (σ i) = Some (s, k) → s ∈ rs_out st ∧ ∀ key, k = Some key → holds st s key;
  lo_apart : ∀ i j s k k', rf_conn (σ i) = Some (s, k) → rf_conn (σ j) = Some (s, k') → i = j
}.

Lemma locks_ok_ext st σ σ' : (∀ i, rf_conn (σ i) = rf_conn (σ' i)) → locks_ok st σ → locks_ok st σ'.
Proof.
  intros Hext [Hx Hs Ha]. split; [done|intros i s k; rewrite <-Hext; apply Hs|].
  intros i j s k k'. rewrite <-!Hext. apply Ha.
Qed.

(** Nothing but sessions and locks matters. *)
Lemma locks_ok_frame st st' σ :
  rs_out st' = rs_out st → rs_gone st ⊆ rs_gone st' → rs_locks st' = rs_locks st → locks_ok st σ → locks_ok st' σ.
Proof.
  intros Ho Hg Hl [Hx Hs Ha]. split; rewrite ?Hl; [done| |done].
  intros i s k Hc. rewrite Ho. destruct (Hs i s k Hc) as [Hin Hk]. split; [done|]. intros key Hkey.
  destruct (Hk key Hkey) as [Hgone|Hlock]; [left; set_solver|right; by rewrite Hl].
Qed.

Lemma remove_lock_sub key s l p : p ∈ remove_lock key s l → p ∈ l.
Proof.
  induction l as [|q l IH]; [done|]. cbn [remove_lock]. case_match; [by right|].
  intros [->|Hin]%elem_of_cons; [by left|right; by apply IH].
Qed.

Lemma remove_lock_other key s l p : p ∈ l → p ≠ (key, s) → p ∈ remove_lock key s l.
Proof.
  intros Hin Hne. induction l as [|q l IH]; [done|]. cbn [remove_lock].
  case_match eqn:E.
  - apply andb_true_iff in E as [E1%Z.eqb_eq E2%Nat.eqb_eq]. apply elem_of_cons in Hin as [->|]; [|done].
    destruct q; cbn in *. by subst.
  - apply elem_of_cons in Hin as [->|]; [by left|right; by apply IH].
Qed.

Lemma lock_free_only key s st s' : lock_free key s st = true → (key, s') ∈ rs_locks st → s' = s.
Proof.
  unfold lock_free. intros Hf%negb_true_iff Hin. destruct (Nat.eqb_spec s' s) as [|Hne]; [done|].
  exfalso. eapply eq_true_false_abs; [|exact Hf]. apply existsb_exists. exists (key, s').
  split; [by apply list_elem_of_In|]. cbn. rewrite Z.eqb_refl. by apply Nat.eqb_neq in Hne as ->.
Qed.

Definition exclusive (st : rstore) : Prop := ∀ key s s', (key, s) ∈ rs_locks st → (key, s') ∈ rs_locks st → s = s'.

Lemma lock_step_exclusive key s st : exclusive st → exclusive (lock_step key s st).
Proof.
  intros Hx. unfold lock_step. destruct (lock_free key s st) eqn:Ef; [|done].
  intros k s1 s2 L1%elem_of_cons L2%elem_of_cons. destruct L1 as [L1|L1], L2 as [L2|L2]; simplify_eq; [done|..].
  - symmetry. by eapply lock_free_only.
  - by eapply lock_free_only.
  - by eapply Hx.
Qed.

Lemma lock_step_frame key s st :
  rs_out (lock_step key s st) = rs_out st ∧ rs_gone (lock_step key s st) = rs_gone st
  ∧ (∀ p, p ∈ rs_locks st → p ∈ rs_locks (lock_step key s st))
  ∧ (lock_free key s st = true → (key, s) ∈ rs_locks (lock_step key s st)).
Proof.
  unfold lock_step. destruct (lock_free key s st); [|by split_and!].
  cbn. split_and!; [done|done|by right|by left].
Qed.

(** Client [tid] and its session changed. *)
Lemma locks_ok_set st st' (σ σ' : nat → refresher) tid :
  locks_ok st σ → (∀ i, tid ≠ i → rf_conn (σ' i) = rf_conn (σ i)) → exclusive st' →
  (∀ i s k, tid ≠ i → rf_conn (σ i) = Some (s, k) → s ∈ rs_out st' ∧ ∀ key, holds st s key → holds st' s key) →
  (∀ s k, rf_conn (σ' tid) = Some (s, k) →
     s ∈ rs_out st' ∧ (∀ key, k = Some key → holds st' s key) ∧ ((∃ k0, rf_conn (σ tid) = Some (s, k0)) ∨ s ∉ rs_out st)) →
  locks_ok st' σ'.
Proof.
  intros [Hx Hs Ha] Hother Hx' Hkeep Hnew. split; [done| |].
  - intros i s k Hc. destruct (decide (tid = i)) as [<-|Hne]; [destruct (Hnew s k Hc) as (? & ? & _); done|].
    rewrite Hother in Hc by done. destruct (Hs i s k Hc) as [_ Hk]. destruct (Hkeep i s k Hne Hc) as [Hout Hh].
    split; [done|]. intros key Hkey. by apply Hh, Hk.
  - assert (∀ j s k k', tid ≠ j → rf_conn (σ' tid) = Some (s, k) → rf_conn (σ j) = Some (s, k') → False) as Hclash.
    { intros j s k k' Hne Hc Hj. destruct (Hnew s k Hc) as (_ & _ & [[k0 E0]|Hout]).
      - by specialize (Ha tid j s k0 k' E0 Hj).
      - by destruct (Hs j s k' Hj). }
    intros i j s k k' Hi Hj. destruct (decide (tid = i)) as [<-|Hne], (decide (tid = j)) as [<-|Hne']; [done|..].
    + rewrite Hother in Hj by done. by destruct (Hclash j s k k').
    + rewrite Hother in Hi by done. by destruct (Hclash i s k' k).
    + rewrite Hother in Hi, Hj by done. by eapply Ha.
Qed.

(** Client [tid] changed its session's entry, everyone else's is as before. *)
Lemma step_conn {X} tid (e : rE X) x (σ : nat → refresher) i :
  rf_conn (step_client tid e x σ i) = if decide (tid = i) then rf_conn (r_next e x (σ i)) else rf_conn (σ i).
Proof. unfold step_client. by destruct (decide (tid = i)). Qed.

Lemma r_next_conn {X} (e : rE X) x σ :
  rf_conn (r_next e x σ) =
    match e in rE X return X → option (nat * option Z) with
    | SessionE => λ x, match x with Ok s => Some (s, None) | Err _ => rf_conn σ end
    | TryLockE s key => λ x, match x with Ok true => Some (s, Some key) | _ => rf_conn σ end
    | UnlockE s _ => λ _, Some (s, None)
    | ReleaseE _ | CloseE _ => λ _, None
    | _ => λ _, rf_conn σ
    end x.
Proof.
  destruct e as [| | | | | | |A q| | | | | |]; cbn [r_next]; repeat case_match; try done.
  destruct q; cbn [sql_next]; repeat case_match; done.
Qed.

Lemma locks_step X (e : rE X) x st st' tid σ :
  exec skew e st x st' → r_permits c e (σ tid) → locks_ok st σ → locks_ok st' (step_client tid e x σ).
Proof.
  intros He Hp Hok.
  assert (∀ st', rs_out st' = rs_out st → rs_gone st' = rs_gone st → rs_locks st' = rs_locks st →
    (rf_conn (r_next e x (σ tid)) = rf_conn (σ tid)) → locks_ok st' (step_client tid e x σ)) as Hframe.
  { intros s1 Ho Hg Hl Hc. eapply locks_ok_ext; [|eapply locks_ok_frame; [exact Ho|set_solver|exact Hl|exact Hok]].
    intros i. rewrite step_conn. destruct (decide (tid = i)) as [<-|]; [by rewrite Hc|done]. }
  assert (∀ i, tid ≠ i → rf_conn (step_client tid e x σ i) = rf_conn (σ i)) as Hother
    by (intros i Hne; by rewrite step_conn, decide_False).
  assert (rf_conn (step_client tid e x σ tid) = rf_conn (r_next e x (σ tid))) as Hself by (by rewrite step_conn, decide_True).
  rewrite r_next_conn in Hself.
  pose proof (lo_exclusive _ _ Hok) as Hx.
  assert (∀ i s k, rf_conn (σ i) = Some (s, k) → s ∈ rs_out st) as Hout by (intros i s k Hc; by apply (lo_session _ _ Hok i s k)).
  destruct e as [| | |s key|s key|s|s|A q| |p current|p credential|platform group|platform group epoch accounts|current quota];
    cbn [exec r_permits] in He, Hp.
  - apply Hframe; [by destruct He as [-> _]..|by rewrite r_next_conn].
  - apply Hframe; [by subst..|by rewrite r_next_conn].
  - destruct He as [(ctx & -> & ->)|(s & Hs & -> & ->)]; [by apply Hframe; rewrite ?r_next_conn|].
    apply (locks_ok_set st _ σ _ tid Hok Hother); [done| |].
    + intros i s' k _ Hc. cbn. split; [apply Hout in Hc; set_solver|done].
    + intros s' k. rewrite Hself. intros [= <- <-]. split_and!; [cbn; set_solver|done|by right].
  - destruct (lock_step_frame key s st) as (Eo & Eg & Hkeep & Hnew). destruct (lo_session _ _ Hok tid s None Hp) as [Hs _].
    apply (locks_ok_set st _ σ _ tid Hok Hother).
    + destruct He as [(_ & _ & ->)|(ctx & _ & [->|[_ ->]])]; [by apply lock_step_exclusive|done|].
      by apply (lock_step_exclusive key s st).
    + intros i s' k _ Hc. apply Hout in Hc. unfold holds.
      destruct He as [(_ & _ & ->)|(ctx & _ & [->|[_ ->]])]; cbn; rewrite ?Eo, ?Eg; (split; [done|]); intros k' [Hg|Hl];
        first [left; by apply elem_of_union_r|left; exact Hg|right; exact Hl|right; by apply Hkeep].
    + intros s' k. rewrite Hself. unfold holds.
      destruct He as [(_ & -> & ->)|(ctx & -> & [->|[_ ->]])]; cbn; rewrite ?Eo, ?Eg.
      * destruct (lock_free key s st); [intros [= <- <-]|rewrite Hp; intros [= <- <-]]; (split_and!; [done| |left; by eexists]); [|done].
        intros k' [= <-]. right. by apply Hnew.
      * rewrite Hp. intros [= <- <-]. split_and!; [done|done|left; by eexists].
      * rewrite Hp. intros [= <- <-]. split_and!; [done|done|left; by eexists].
  - destruct (lo_session _ _ Hok tid s (Some key) Hp) as [Hs _].
    assert (∀ i s' k, tid ≠ i → rf_conn (σ i) = Some (s', k) → s' ≠ s) as Hne.
    { intros i s' k Hi Hc ->. apply Hi. by eapply (lo_apart _ _ Hok). }
    apply (locks_ok_set st _ σ _ tid Hok Hother).
    + assert (exclusive (unlock_step key s st)) as Hx'
        by (intros k s1 s2 L1%remove_lock_sub L2%remove_lock_sub; by eapply Hx).
      destruct He as [(_ & _ & ->)|(ctx & _ & [->|[_ ->]])]; done.
    + intros i s' k Hi Hc. specialize (Hne i s' k Hi Hc). apply Hout in Hc. unfold holds.
      destruct He as [(_ & _ & ->)|(ctx & _ & [->|[_ ->]])]; cbn; (split; [done|]); intros k' [Hg|Hl];
        first [left; by apply elem_of_union_r|left; exact Hg|right; exact Hl|right; apply remove_lock_other; [exact Hl|congruence]].
    + intros s' k. rewrite Hself. intros [= <- <-].
      destruct He as [(_ & _ & ->)|(ctx & _ & [->|[_ ->]])]; (split_and!; [done|done|left; by eexists]).
  - subst. apply (locks_ok_set st _ σ _ tid Hok Hother); [done| |by rewrite Hself].
    intros i s' k Hne Hc. split; [|done]. cbn. apply elem_of_difference. split; [by eapply Hout|].
    intros ->%elem_of_singleton. apply Hne. by eapply (lo_apart _ _ Hok).
  - subst. apply (locks_ok_set st _ σ _ tid Hok Hother); [done| |by rewrite Hself].
    intros i s' k Hne Hc. split; [|intros key [Hh|Hh]; [left; cbn; set_solver|by right]]. cbn. apply elem_of_difference. split; [by eapply Hout|].
    intros ->%elem_of_singleton. apply Hne. by eapply (lo_apart _ _ Hok).
  - destruct He as (pl & fs & r & w' & _ & _ & ->). apply Hframe; [done..|]. by rewrite r_next_conn.
  - apply Hframe; [by subst..|by rewrite r_next_conn].
  - apply Hframe; [by subst..|by rewrite r_next_conn].
  - apply Hframe; [by subst..|by rewrite r_next_conn].
  - destruct He as (? & ? & ? & ? & ? & ? & ? & ? & ? & _ & _ & ->). apply Hframe; [done..|by rewrite r_next_conn].
  - destruct He as (? & ? & ? & ? & _ & _ & ->). apply Hframe; [done..|by rewrite r_next_conn].
  - apply Hframe; [by destruct He as [-> _]..|by rewrite r_next_conn].
Qed.

Lemma locks_move st st' σ : moves st st' → locks_ok st σ → locks_ok st' σ.
Proof.
  intros Hm Hok. destruct Hm as [st s|st s Hs|st r|st t Ht]; try (by apply (locks_ok_frame st)).
  - apply (locks_ok_frame st); cbn; [done|set_solver|done|done].
  - destruct Hok as [Hx Hses Ha]. split; [|intros i s' k Hc|done].
    + intros key s1 s2 L1%list_elem_of_filter L2%list_elem_of_filter. by eapply Hx; [apply L1|apply L2].
    + destruct (Hses i s' k Hc) as [Ho Hk]. split; [done|]. intros key Hkey. destruct (Hk key Hkey) as [Hg|Hl]; [by left|].
      destruct (decide (s' = s)) as [->|Hne]; [by left|right]. apply list_elem_of_filter. done.
Qed.

Lemma locks_ok_run st tr st' σ :
  interleaved (@exec _ _ _ _ skew) moves st tr st' → (∀ tid, disciplined (calls_of tid tr) (σ tid)) →
  locks_ok st σ → locks_ok st' (λ tid, watch (calls_of tid tr) (σ tid)).
Proof.
  apply interleaved_inv.
  - intros st0 σ0 σ1 Hext. apply locks_ok_ext. intros i. by rewrite Hext.
  - intros X e x st0 st1 tid σ0 He Hp. by eapply locks_step.
  - apply locks_move.
Qed.

(** ** Data *)

Definition epoch_upto (t : db) (id : string) (e : Z) : Prop :=
  ∃ a, account_rows t !! id = Some a ∧ e <= ac_fence_epoch a.
Definition epoch_past (t : db) (id : string) (e : Z) : Prop :=
  ∃ a, account_rows t !! id = Some a ∧ e < ac_fence_epoch a.

(** A quota that a snapshot showed for the account. *)
Definition public (st : rstore) (id text : string) : Prop :=
  ∃ quota, carries text quota ∧ (id, default [] quota) ∈ rs_shown st.

Definition in_outbox (t : db) (id : string) (e : Z) (text : string) : Prop :=
  ∃ row, outbox_at id e t = Some row ∧ ob_quota row = text.

Definition scheduled (now : time) (row : outbox_row) : Prop :=
  ob_next_attempt_at row <= now + skew + quotaOutboxMaxBackoff
  ∧ ∀ until, ob_locked_until row = Some until → until <= now + quotaOutboxLease.

(** Decryption looks at the account and the secret only. *)
Definition opens (id secret : string) (b : TokenBundle) : Prop :=
  ∀ stored, sc_AccountID stored = id → sc_EncryptedSecret stored = secret → decryptTokenBundle (Some c) stored = Ok b.

(** The new secret is what the provider made of the bundle in the old one. *)
Definition justified (st : rstore) (w : rotation) : Prop :=
  ∃ b refreshed, opens (ro_account w) (ro_from w) b ∧ (with_proxy (ro_proxy w) b, refreshed) ∈ rs_answers st
    ∧ sealed c (ro_account w) refreshed (ro_to w).

Record data_ok (st : rstore) : Prop := {
  da_outbox : ∀ id row, quota_outbox (rs_db st) !! id = Some row →
    (id, ob_fence_epoch row, ob_quota row) ∈ rs_queued st ∧ scheduled (db_now (rs_db st)) row;
  da_queued : ∀ id e text, (id, e, text) ∈ rs_queued st → epoch_upto (rs_db st) id e ∧
    (in_outbox (rs_db st) id e text ∨ public st id text ∨ epoch_past (rs_db st) id e);
  da_unique : ∀ id e text text', (id, e, text) ∈ rs_queued st → (id, e, text') ∈ rs_queued st → text = text';
  da_carries : ∀ id e text, (id, e, text) ∈ rs_queued st → ∃ quota, carries text quota;
  da_rotated : ∀ w, w ∈ rs_rotated st → justified st w
}.

(** The epoch a run drew and has not used up. *)
Definition drawn (p : phase) : option (string * Z) :=
  match p with
  | Idle => None
  | Drawn id e => Some (id, e)
  | Fetched stored | Refreshed stored _ => Some (sc_AccountID stored, sc_FenceEpoch stored)
  end.

Definition fresh (st : rstore) (id : string) (e : Z) : Prop :=
  epoch_upto (rs_db st) id e ∧ ∀ text, (id, e, text) ∉ rs_queued st.

(** While the epoch lasts, the secret is the one that was fetched. *)
Definition current (st : rstore) (stored : StoredCredential) : Prop :=
  ∀ a, account_rows (rs_db st) !! sc_AccountID stored = Some a → ac_fence_epoch a = sc_FenceEpoch stored →
  ∃ cr, credential_rows (rs_db st) !! sc_AccountID stored = Some cr ∧ cr_encrypted_secret cr = sc_EncryptedSecret stored.

Definition answered (st : rstore) (stored : StoredCredential) (refreshed : TokenBundle) : Prop :=
  ∃ b, decryptTokenBundle (Some c) stored = Ok b ∧ (with_proxy (sc_Proxy stored) b, refreshed) ∈ rs_answers st.

Record knows_ok (st : rstore) (σ : refresher) : Prop := {
  kn_drawn : ∀ id e, drawn (rf_phase σ) = Some (id, e) → fresh st id e;
  kn_phase : match rf_phase σ with
             | Fetched stored => current st stored
             | Refreshed stored refreshed => current st stored ∧ answered st stored refreshed
             | _ => True
             end;
  kn_quotas : ∀ id e quota, (id, e, quota) ∈ rf_quotas σ → ∃ text, (id, e, text) ∈ rs_queued st ∧ carries text quota;
  kn_shown : ∀ x, x ∈ rf_shown σ → x ∈ rs_shown st;
  kn_passed : ∀ id e, (id, e) ∈ rf_passed σ → epoch_past (rs_db st) id e;
  kn_now : rf_now σ <= db_now (rs_db st) + skew
}.

Record agree (st : rstore) (σ : nat → refresher) : Prop := {
  ag_data : data_ok st;
  ag_knows : ∀ i, knows_ok st (σ i);
  ag_apart : ∀ i j k, drawn (rf_phase (σ i)) = Some k → drawn (rf_phase (σ j)) = Some k → i = j
}.

(** The store moves on; [key] is the epoch of the run that moves it. *)
Record advances (key : option (string * Z)) (st st' : rstore) : Prop := {
  ad_now : db_now (rs_db st) <= db_now (rs_db st');
  ad_accounts : ∀ id a, account_rows (rs_db st) !! id = Some a → ∃ a', account_rows (rs_db st') !! id = Some a'
    ∧ ac_fence_epoch a <= ac_fence_epoch a'
    ∧ (ac_fence_epoch a = ac_fence_epoch a' →
       credential_rows (rs_db st') !! id = credential_rows (rs_db st) !! id ∨ key = Some (id, ac_fence_epoch a));
  ad_queued : ∀ x, x ∈ rs_queued st → x ∈ rs_queued st';
  ad_fresh : ∀ id e text, (id, e, text) ∈ rs_queued st' → (id, e, text) ∈ rs_queued st ∨ key = Some (id, e);
  ad_shown : ∀ x, x ∈ rs_shown st → x ∈ rs_shown st';
  ad_answers : ∀ x, x ∈ rs_answers st → x ∈ rs_answers st'
}.

Lemma epoch_upto_advances key st st' id e : advances key st st' → epoch_upto (rs_db st) id e → epoch_upto (rs_db st') id e.
Proof. intros Had (a & Ha & He). destruct (ad_accounts _ _ _ Had id a Ha) as (a' & Ha' & Hle & _). exists a'. split; [done|lia]. Qed.
Lemma epoch_past_advances key st st' id e : advances key st st' → epoch_past (rs_db st) id e → epoch_past (rs_db st') id e.
Proof. intros Had (a & Ha & He). destruct (ad_accounts _ _ _ Had id a Ha) as (a' & Ha' & Hle & _). exists a'. split; [done|lia]. Qed.
Lemma public_advances key st st' id text : advances key st st' → public st id text → public st' id text.
Proof. intros Had (q & Hq & Hin). exists q. split; [done|]. by apply (ad_shown _ _ _ Had). Qed.

Lemma current_advances key st st' stored :
  advances key st st' → key ≠ Some (sc_AccountID stored, sc_FenceEpoch stored) → fresh st (sc_AccountID stored) (sc_FenceEpoch stored) →
  current st stored → current st' stored.
Proof.
  intros Had Hkey [(a & Ha & Hle) _] Hc a' Ha' He.
  destruct (ad_accounts _ _ _ Had _ a Ha) as (b & Hb & Hle' & Hcr). rewrite Ha' in Hb. injection Hb as <-.
  assert (ac_fence_epoch a = ac_fence_epoch a') as E by lia. destruct (Hcr E) as [->|Hk].
  - apply (Hc a Ha). lia.
  - exfalso. apply Hkey. rewrite Hk. do 2 f_equal. lia.
Qed.

Lemma answered_advances key st st' stored refreshed :
  advances key st st' → answered st stored refreshed → answered st' stored refreshed.
Proof. intros Had (b & Hb & Hin). exists b. split; [done|]. by apply (ad_answers _ _ _ Had). Qed.

(** Whoever is on another epoch, or on none, is right as before. *)
Lemma knows_advances key st st' σ :
  advances key st st' → (∀ k, drawn (rf_phase σ) = Some k → key ≠ Some k) → knows_ok st σ → knows_ok st' σ.
Proof.
  intros Had Hkey [Hd Hp Hq Hs Hpa Hn].
  assert (∀ id e, drawn (rf_phase σ) = Some (id, e) → fresh st' id e) as Hd'.
  { intros id e Hdr. destruct (Hd id e Hdr) as [Hu Hf]. split; [by eapply epoch_upto_advances|]. intros text Hin.
    destruct (ad_fresh _ _ _ Had id e text Hin) as [Hin'|Hk]; [by apply (Hf text)|]. by apply (Hkey (id, e)). }
  split; [done| | | | |].
  - destruct (rf_phase σ) as [|id e|stored|stored refreshed]; [done..| |].
    + by apply (current_advances key st); [|apply Hkey|apply Hd|].
    + destruct Hp. split; [by apply (current_advances key st); [|apply Hkey|apply Hd|]|by eapply answered_advances].
  - intros id e q Hin. destruct (Hq id e q Hin) as (text & Ht & Hc). exists text. split; [by apply (ad_queued _ _ _ Had)|done].
  - intros x Hin. by apply (ad_shown _ _ _ Had), Hs.
  - intros id e Hin. by eapply epoch_past_advances, Hpa.
  - pose proof (ad_now _ _ _ Had). lia.
Qed.

Lemma scheduled_later now now' row : now <= now' → scheduled now row → scheduled now' row.
Proof. intros Hle [Hn Hl]. split; [lia|]. intros u Hu. specialize (Hl u Hu). lia. Qed.

(** Rows of the outbox may be put off, and leave it once their quota is public
    or their epoch superseded. *)
Lemma data_ok_outbox key st st' :
  advances key st st' → rs_queued st' = rs_queued st → (∀ w, w ∈ rs_rotated st' → w ∈ rs_rotated st ∨ justified st' w) →
  (∀ id row', quota_outbox (rs_db st') !! id = Some row' → ∃ row, quota_outbox (rs_db st) !! id = Some row
     ∧ ob_fence_epoch row' = ob_fence_epoch row ∧ ob_quota row' = ob_quota row ∧ scheduled (db_now (rs_db st')) row') →
  (∀ id row, quota_outbox (rs_db st) !! id = Some row →
     (∃ row', quota_outbox (rs_db st') !! id = Some row' ∧ ob_fence_epoch row' = ob_fence_epoch row ∧ ob_quota row' = ob_quota row)
     ∨ public st' id (ob_quota row) ∨ epoch_past (rs_db st') id (ob_fence_epoch row)) →
  data_ok st → data_ok st'.
Proof.
  intros Had Hq Hrot Hback Hforth [Do Dq Du Dc Dr]. split.
  - intros id row' Hrow'. destruct (Hback id row' Hrow') as (row & Hrow & -> & -> & Hs). destruct (Do id row Hrow). by rewrite Hq.
  - intros id e text. rewrite Hq. intros Hin. destruct (Dq id e text Hin) as [Hu Hwhere]. split; [by eapply epoch_upto_advances|].
    destruct Hwhere as [(row & [Hrow He]%outbox_at_Some & Ht)|[Hp|Hp]].
    + destruct (Hforth id row Hrow) as [(row' & Hrow' & He' & Ht')|[Hp|Hp]].
      * left. exists row'. split; [apply outbox_at_Some; split; congruence|congruence].
      * right; left. by rewrite <-Ht.
      * right; right. by rewrite <-He.
    + right; left. by eapply public_advances.
    + right; right. by eapply epoch_past_advances.
  - intros id e text text'. rewrite Hq. apply Du.
  - intros id e text. rewrite Hq. apply Dc.
  - intros w Hw. destruct (Hrot w Hw) as [Hw'|]; [|done]. destruct (Dr w Hw') as (b & refreshed & Ho & Ha & Hs).
    exists b, refreshed. split_and!; [done|by apply (ad_answers _ _ _ Had)|done].
Qed.

Lemma data_ok_frame key st st' :
  advances key st st' → rs_queued st' = rs_queued st → rs_rotated st' = rs_rotated st →
  quota_outbox (rs_db st') = quota_outbox (rs_db st) → data_ok st → data_ok st'.
Proof.
  intros Had Hq Hr Ho Hok. apply (data_ok_outbox key st); [done|done|rewrite Hr; auto| | |done]; rewrite Ho.
  - intros id row Hrow. exists row. split_and!; try done. eapply scheduled_later; [apply (ad_now _ _ _ Had)|].
    by apply (da_outbox _ Hok id).
  - intros id row Hrow. left. by exists row.
Qed.

(** Client [tid] moved the store and learnt something. *)
Lemma agree_set key st st' (σ σ' : nat → refresher) tid :
  agree st σ → advances key st st' → data_ok st' → (∀ i, tid ≠ i → σ' i = σ i) →
  key = None ∨ key = drawn (rf_phase (σ tid)) → knows_ok st' (σ' tid) →
  (∀ k, drawn (rf_phase (σ' tid)) = Some k →
     drawn (rf_phase (σ tid)) = Some k ∨ ∀ j, drawn (rf_phase (σ j)) ≠ Some k) →
  agree st' σ'.
Proof.
  intros [Hd Hk Ha] Had Hd' Hother Hkey Hself Hdr. split; [done| |].
  - intros i. destruct (decide (tid = i)) as [<-|Hne]; [done|]. rewrite Hother by done.
    apply (knows_advances key st); [done| |apply Hk]. intros k Hi ->. destruct Hkey as [[=]|Hkey]. apply Hne. by eapply Ha.
  - assert (∀ j k, tid ≠ j → drawn (rf_phase (σ' tid)) = Some k → drawn (rf_phase (σ j)) = Some k → False) as Hclash.
    { intros j k Hne Ht Hj. destruct (Hdr k Ht) as [Ht'|Hno]; [by specialize (Ha tid j k Ht' Hj)|by apply (Hno j)]. }
    intros i j k Hi Hj. destruct (decide (tid = i)) as [<-|Hi'], (decide (tid = j)) as [<-|Hj']; [done|..].
    + rewrite Hother in Hj by done. by destruct (Hclash j k Hj' Hi).
    + rewrite Hother in Hi by done. by destruct (Hclash i k Hi' Hj).
    + rewrite Hother in Hi, Hj by done. by eapply Ha.
Qed.

(** ** What a client may add to its knowledge *)

Lemma knows_idle st σ : knows_ok st σ → knows_ok st (set_phase Idle σ).
Proof. intros []. by split. Qed.
Lemma knows_conn k st σ : knows_ok st σ → knows_ok st (set_conn k σ).
Proof. intros []. by split. Qed.
Lemma knows_time t st σ : t <= db_now (rs_db st) + skew → knows_ok st σ → knows_ok st (set_time t σ).
Proof. intros Ht []. by split. Qed.
Lemma knows_shown l st σ : (∀ x, x ∈ l → x ∈ rs_shown st) → knows_ok st σ → knows_ok st (add_shown l σ).
Proof. intros Hl []. split; try done. intros x [Hin|Hin]%elem_of_app; auto. Qed.
Lemma knows_passed l st σ : (∀ id e, (id, e) ∈ l → epoch_past (rs_db st) id e) → knows_ok st σ → knows_ok st (add_passed l σ).
Proof. intros Hl []. split; try done. intros id e [Hin|Hin]%elem_of_app; auto. Qed.
Lemma knows_quotas l st σ :
  (∀ id e quota, (id, e, quota) ∈ l → ∃ text, (id, e, text) ∈ rs_queued st ∧ carries text quota) →
  knows_ok st σ → knows_ok st (add_quotas l σ).
Proof. intros Hl []. split; try done. intros id e q [Hin|Hin]%elem_of_app; auto. Qed.
Lemma knows_drawn st σ id e : fresh st id e → knows_ok st σ → knows_ok st (set_phase (Drawn id e) σ).
Proof. intros Hf []. split; try done. by intros id' e' [= <- <-]. Qed.
Lemma knows_fetched st σ stored :
  rf_phase σ = Drawn (sc_AccountID stored) (sc_FenceEpoch stored) → current st stored → knows_ok st σ →
  knows_ok st (set_phase (Fetched stored) σ).
Proof. intros Hp Hc []. rewrite Hp in *. by split. Qed.
Lemma knows_refreshed st σ stored refreshed :
  rf_phase σ = Fetched stored → answered st stored refreshed → knows_ok st σ →
  knows_ok st (set_phase (Refreshed stored refreshed) σ).
Proof. intros Hp Ha []. rewrite Hp in *. by split. Qed.

(** ** Statements *)

Definition quiet {A} (q : sql A) : Prop :=
  match q with CommitQ _ _ _ | QueueQuotaQ _ _ => False | _ => True end.

Lemma after_quiet {A} (q : sql A) t st : quiet q → after_sql q t st = with_db t st.
Proof. by destruct q. Qed.

Lemma advances_moves st t : db_moves (rs_db st) t → advances None st (with_db t st).
Proof.
  intros [Hn Ha _]. split; try done; [|intros id e text Hin; by left].
  intros id a Hrow. destruct (Ha id a Hrow) as (a' & Ha' & Hle & Hc). exists a'. split_and!; [done|done|]. intros He. left. auto.
Qed.

(** Writing a column of an account that is no epoch. *)
Lemma moves_alter t id f : (∀ a, ac_fence_epoch (f a) = ac_fence_epoch a) → db_moves t (set_accounts (alter f id) t).
Proof.
  intros Hf. split; [done| |done]. intros k a Ha. cbn. destruct (decide (id = k)) as [<-|Hne].
  - exists (f a). rewrite lookup_alter_eq, Ha, Hf. done.
  - exists a. by rewrite lookup_alter_ne.
Qed.

Lemma moves_epoch t id a : account_rows t !! id = Some a →
  db_moves t (set_accounts <[id := with_epoch (ac_fence_epoch a + 1) a]> t).
Proof.
  intros Ha. split; [done| |done]. intros k b Hb. cbn. destruct (decide (id = k)) as [<-|Hne].
  - exists (with_epoch (ac_fence_epoch a + 1) a). rewrite lookup_insert_eq. simplify_eq. cbn. split_and!; [done|lia|lia].
  - exists b. by rewrite lookup_insert_ne.
Qed.

Section step.
  Context (st : rstore) (σ : nat → refresher) (tid : nat) (Hag : agree st σ).

Lemma queued_upto id e text : (id, e, text) ∈ rs_queued st → epoch_upto (rs_db st) id e.
Proof. intros Hin. by apply (da_queued _ (ag_data _ _ Hag) id e text). Qed.

Lemma drawn_upto j id e : drawn (rf_phase (σ j)) = Some (id, e) → epoch_upto (rs_db st) id e.
Proof. intros Hd. by apply (kn_drawn _ _ (ag_knows _ _ Hag j)). Qed.

(** A call that changes no table, or none that matters; the client goes on to [σ1]. *)
Lemma agree_moves t (σ' : nat → refresher) :
  db_moves (rs_db st) t → (∀ i, tid ≠ i → σ' i = σ i) →
  (knows_ok (with_db t st) (σ tid) → knows_ok (with_db t st) (σ' tid)) →
  (∀ k, drawn (rf_phase (σ' tid)) = Some k → drawn (rf_phase (σ tid)) = Some k ∨ ∀ j, drawn (rf_phase (σ j)) ≠ Some k) →
  agree (with_db t st) σ'.
Proof.
  intros Hm Hother Hself Hdr. pose proof (advances_moves st t Hm) as Had.
  apply (agree_set None st _ σ _ tid); try done.
  - apply (data_ok_frame None st); try done; [apply Hm|apply Hag].
  - by left.
  - apply Hself. eapply knows_advances; [exact Had|done|apply Hag].
Qed.

Lemma step_acquire id t r (x : result (db_error * option context_error) Z) :
  outcome (λ epoch t', ∃ a, account_rows (rs_db st) !! id = Some a ∧ epoch = ac_fence_epoch a + 1 ∧
    t' = set_accounts <[id := with_epoch epoch a]> (rs_db st)) (rs_db st) r t →
  replies io_error r x → agree (with_db t st) (step_client tid (SqlE (AcquireQ id)) x σ).
Proof.
  intros Ho Hx. assert (db_moves (rs_db st) t) as Hm.
  { destruct Ho as [[-> _]|(e & (a & Ha & -> & ->) & _)]; [done|by apply moves_epoch]. }
  apply agree_moves; [done|intros i Hne; by unfold step_client; rewrite decide_False|..];
    unfold step_client; rewrite decide_True by done; cbn [next monitor refresh_monitor r_next sql_next].
  - intros Hk. destruct x as [e|e]; [|by apply knows_idle]. apply knows_drawn; [|done].
    destruct r as [e'|e']; [|by destruct Hx as (? & [=] & _)]. injection Hx as ->.
    apply outcome_Ok in Ho as (a & Ha & -> & ->). split.
    + eexists. cbn. rewrite lookup_insert_eq. split; [done|]. cbn. lia.
    + intros text Hin. destruct (queued_upto id _ text Hin) as (b & Hb & Hle). simplify_eq. lia.
  - intros k Hd. right. intros j Hj. destruct x as [e|e]; [|done]. injection Hd as <-.
    destruct r as [e'|e']; [|by destruct Hx as (? & [=] & _)]. injection Hx as ->.
    apply outcome_Ok in Ho as (a & Ha & -> & _). destruct (drawn_upto j _ _ Hj) as (b & Hb & Hle). simplify_eq. lia.
Qed.

Lemma step_read id e t r (x : result (db_error * option context_error) selected) :
  rf_phase (σ tid) = Drawn id e → t = rs_db st → (∀ row, r = Ok row → ∃ a cr, account_rows t !! id = Some a
    ∧ credential_rows t !! id = Some cr ∧ ac_fence_epoch a = e ∧ sl_encrypted_secret row = cr_encrypted_secret cr) →
  replies io_error r x → agree (with_db t st) (step_client tid (SqlE (ReadQ id e)) x σ).
Proof.
  intros Hp -> Hr Hx. apply agree_moves; [done|intros i Hne; by unfold step_client; rewrite decide_False|..];
    unfold step_client; rewrite decide_True by done; cbn [next monitor refresh_monitor r_next sql_next];
    (destruct x as [row|err]; [|by auto]).
  - intros Hk. apply knows_fetched; [done| |done]. destruct r as [row'|e']; [|by destruct Hx as (? & [=] & _)]. injection Hx as ->.
    destruct (Hr row' eq_refl) as (a & cr & Ha & Hcr & He & Hs). intros a' Ha' _. cbn in *. simplify_eq. by exists cr.
  - intros k [= <-]. left. by rewrite Hp.
Qed.

(** Only rows of the outbox change. *)
Lemma agree_outbox m (σ' : nat → refresher) :
  (∀ id row', m !! id = Some row' → ∃ row, quota_outbox (rs_db st) !! id = Some row
     ∧ ob_fence_epoch row' = ob_fence_epoch row ∧ ob_quota row' = ob_quota row ∧ scheduled (db_now (rs_db st)) row') →
  (∀ id row, quota_outbox (rs_db st) !! id = Some row →
     (∃ row', m !! id = Some row' ∧ ob_fence_epoch row' = ob_fence_epoch row ∧ ob_quota row' = ob_quota row)
     ∨ public st id (ob_quota row) ∨ epoch_past (rs_db st) id (ob_fence_epoch row)) →
  (∀ i, tid ≠ i → σ' i = σ i) → rf_phase (σ' tid) = rf_phase (σ tid) →
  (knows_ok st (σ tid) → knows_ok st (σ' tid)) →
  agree (with_db (set_outbox (λ _, m) (rs_db st)) st) σ'.
Proof.
  intros Hback Hforth Hother Hphase Hself. set (st' := with_db _ st).
  assert (advances None st st') as Had.
  { split; try done; [|intros id e text Hin; by left]. intros id a Ha. exists a. split_and!; [done|done|by left]. }
  apply (agree_set None st _ σ _ tid); try done; [|by left| |intros k; rewrite Hphase; by left].
  - apply (data_ok_outbox None st); try done; [by left|apply Hag].
  - eapply knows_advances; [exact Had|done|]. apply Hself, Hag.
Qed.

Lemma step_claim limit t r (x : result (db_error * option context_error) (list QuotaOutboxItem)) :
  outcome (λ items t', Forall (item_of_row (rs_db st)) items ∧
    ∃ m, t' = set_outbox (λ _, m) (rs_db st) ∧ leased (db_now (rs_db st)) (quota_outbox (rs_db st)) m) (rs_db st) r t →
  replies io_error r x → agree (with_db t st) (step_client tid (SqlE (ClaimQ limit)) x σ).
Proof.
  intros Ho Hx. assert (∃ m, t = set_outbox (λ _, m) (rs_db st) ∧ leased (db_now (rs_db st)) (quota_outbox (rs_db st)) m) as (m & Ht & Hm).
  { destruct Ho as [[-> _]|(items & (_ & Hm) & _)]; [|done]. exists (quota_outbox (rs_db st)). split; [by destruct (rs_db st)|apply leased_refl]. }
  assert (∀ items, x = Ok items → Forall (item_of_row (rs_db st)) items) as Hitems.
  { intros items ->. destruct r as [i|e]; [|by destruct Hx as (? & [=] & _)]. injection Hx as ->. by apply outcome_Ok in Ho as [? _]. }
  clear Ho Hx. subst t. apply agree_outbox.
  - intros id row' Hrow'. specialize (Hm id). rewrite Hrow' in Hm. destruct (quota_outbox (rs_db st) !! id) as [row|] eqn:Hrow; [|done].
    exists row. destruct Hm as [_ _ He Hq Hn Hl]. split_and!; [done|done|done|].
    destruct (da_outbox _ (ag_data _ _ Hag) id row Hrow) as [_ [Hs1 Hs2]]. split; [by rewrite Hn|].
    intros u Hu. destruct Hl as [Hl|Hl]; [apply Hs2; congruence|]. rewrite Hl in Hu. injection Hu as <-. done.
  - intros id row Hrow. left. specialize (Hm id). rewrite Hrow in Hm. destruct (m !! id) as [row'|]; [|done].
    exists row'. by destruct Hm.
  - intros i Hne. unfold step_client. by rewrite decide_False.
  - unfold step_client. rewrite decide_True by done. by destruct x.
  - unfold step_client. rewrite decide_True by done. cbn [next monitor refresh_monitor r_next sql_next].
    intros Hk. destruct x as [items|e]; [|done]. specialize (Hitems items eq_refl). apply knows_quotas; [|done].
    intros id e quota Hin. apply list_elem_of_fmap in Hin as (item & [= -> -> ->] & Hin).
    apply list.Forall_forall with (x := item) in Hitems; [|done]. apply item_of_row_facts in Hitems as (row & Hrow & He & Hc).
    exists (ob_quota row). split; [|done]. rewrite <-He. by apply (da_outbox _ (ag_data _ _ Hag)).
Qed.

Lemma publicly_known_public id e row :
  publicly_known id e (σ tid) → quota_outbox (rs_db st) !! id = Some row → ob_fence_epoch row = e →
  public st id (ob_quota row) ∨ epoch_past (rs_db st) id e.
Proof.
  intros Hkn Hrow He. destruct (ag_knows _ _ Hag tid) as [_ _ Hq Hs Hp _]. destruct Hkn as [(quota & Hin & Hsh)|Hin]; [left|right; by apply Hp].
  destruct (Hq id e quota Hin) as (text & Ht & Hc). exists quota. split; [|by apply Hs].
  destruct (da_outbox _ (ag_data _ _ Hag) id row Hrow) as [Hrq _]. rewrite He in Hrq.
  by rewrite (da_unique _ (ag_data _ _ Hag) _ _ _ _ Hrq Ht).
Qed.

Lemma step_ack id e t r (x : result (db_error * option context_error) unit) :
  publicly_known id e (σ tid) →
  outcome (λ _ : unit, λ t', ∃ row, outbox_at id e (rs_db st) = Some row ∧ t' = set_outbox (delete id) (rs_db st)) (rs_db st) r t →
  agree (with_db t st) (step_client tid (SqlE (AckQ id e)) x σ).
Proof.
  intros Hkn Ho.
  assert (∀ i, step_client tid (SqlE (AckQ id e)) x σ i = σ i) as Hsame.
  { intros i. unfold step_client. by destruct (decide (tid = i)). }
  destruct Ho as [[-> _]|(_ & (row & [Hrow He]%outbox_at_Some & ->) & _)].
  - apply agree_moves; [done|by intros i _|by rewrite Hsame|intros k; rewrite Hsame; by left].
  - change (set_outbox (delete id) (rs_db st)) with (set_outbox (λ _, delete id (quota_outbox (rs_db st))) (rs_db st)).
    apply agree_outbox; [| |by intros i _|by rewrite Hsame|by rewrite Hsame].
    + intros k row' [Hne Hk]%lookup_delete_Some. exists row'. split_and!; [done..|]. by apply (da_outbox _ (ag_data _ _ Hag) k).
    + intros k row' Hk. destruct (decide (id = k)) as [<-|Hne]; [|left; exists row'; by rewrite lookup_delete_ne].
      right. simplify_eq. by apply publicly_known_public.
Qed.

Lemma step_retry id e lastError nextAttempt t r (x : result (db_error * option context_error) unit) :
  nextAttempt <= rf_now (σ tid) + quotaOutboxMaxBackoff →
  outcome (λ _ : unit, λ t', ∃ row, outbox_at id e (rs_db st) = Some row ∧
    t' = set_outbox <[id := retried_row nextAttempt lastError (db_now (rs_db st)) row]> (rs_db st)) (rs_db st) r t →
  agree (with_db t st) (step_client tid (SqlE (RetryQ id e lastError nextAttempt)) x σ).
Proof.
  intros Hnext Ho.
  assert (∀ i, step_client tid (SqlE (RetryQ id e lastError nextAttempt)) x σ i = σ i) as Hsame.
  { intros i. unfold step_client. by destruct (decide (tid = i)). }
  destruct Ho as [[-> _]|(_ & (row & [Hrow He]%outbox_at_Some & ->) & _)].
  - apply agree_moves; [done|by intros i _|by rewrite Hsame|intros k; rewrite Hsame; by left].
  - set (row2 := retried_row _ _ _ row).
    change (set_outbox <[id := row2]> (rs_db st)) with (set_outbox (λ _, <[id := row2]> (quota_outbox (rs_db st))) (rs_db st)).
    apply agree_outbox; [| |by intros i _|by rewrite Hsame|by rewrite Hsame].
    + intros k row'. destruct (decide (id = k)) as [<-|Hne].
      * rewrite lookup_insert_eq. intros [= <-]. exists row. split_and!; [done..|]. split; [|done].
        pose proof (kn_now _ _ (ag_knows _ _ Hag tid)). cbn. lia.
      * rewrite lookup_insert_ne by done. intros Hk. exists row'. split_and!; [done..|]. by apply (da_outbox _ (ag_data _ _ Hag) k).
    + intros k row' Hk. left. destruct (decide (id = k)) as [<-|Hne].
      * exists row2. rewrite lookup_insert_eq. by simplify_eq.
      * exists row'. by rewrite lookup_insert_ne.
Qed.

Lemma epoch_is_row id e t : epoch_is id e t = true → ∃ a, account_rows t !! id = Some a ∧ ac_fence_epoch a = e.
Proof. unfold epoch_is. destruct (account_rows t !! id) as [a|]; [|done]. intros ?%Z.eqb_eq. by exists a. Qed.

Lemma opens_stored stored b :
  decryptTokenBundle (Some c) stored = Ok b → opens (sc_AccountID stored) (sc_EncryptedSecret stored) b.
Proof. intros Hd stored' Hid Hs. unfold decryptTokenBundle in *. by rewrite Hid, Hs. Qed.

Lemma step_commit stored encrypted expiresAt t r (x : result (db_error * option context_error) unit) :
  (∃ refreshed, rf_phase (σ tid) = Refreshed stored refreshed ∧ sealed c (sc_AccountID stored) refreshed encrypted) →
  outcome (λ _ : unit, λ t', epoch_is (sc_AccountID stored) (sc_FenceEpoch stored) (rs_db st) = true ∧ ∃ cr exp,
    credential_rows (rs_db st) !! sc_AccountID stored = Some cr ∧
    t' = set_credentials <[sc_AccountID stored := CredentialRow (cr_kind cr) encrypted exp (cr_version cr + 1)]> (rs_db st))
    (rs_db st) r t →
  agree (after_sql (CommitQ stored encrypted expiresAt) t st)
        (step_client tid (SqlE (CommitQ stored encrypted expiresAt)) x σ).
Proof.
  intros (refreshed & Hp & Hsealed) Ho. set (q := CommitQ stored encrypted expiresAt). set (σ' := step_client _ _ _ _).
  assert (∀ i, tid ≠ i → σ' i = σ i) as Hother by (intros i Hne; by apply decide_False).
  assert (σ' tid = set_phase Idle (σ tid)) as Hself by (by apply decide_True).
  destruct Ho as [[-> _]|(_ & (He & cr & exp & Hcr & ->) & _)].
  - assert (after_sql q (rs_db st) st = with_db (rs_db st) st) as ->.
    { unfold after_sql. cbn. destruct (credential_rows (rs_db st) !! sc_AccountID stored) as [cr|]; [|done]. cbn. by rewrite bool_decide_true. }
    apply agree_moves; [done|done|rewrite Hself; apply knows_idle|by rewrite Hself].
  - destruct (epoch_is_row _ _ _ He) as (a & Ha & Hepoch).
    set (t := set_credentials _ (rs_db st)). set (st' := after_sql q t st).
    assert (advances (Some (sc_AccountID stored, sc_FenceEpoch stored)) st st') as Had.
    { split; try done; [|intros id e text Hin; by left]. intros id b Hb. exists b. split_and!; [done|done|]. intros _. cbn.
      destruct (decide (sc_AccountID stored = id)) as [<-|Hne]; [right; rewrite Ha in Hb; injection Hb as <-; by rewrite Hepoch|left; by rewrite lookup_insert_ne]. }
    assert (∀ w, w ∈ rs_rotated st' → w ∈ rs_rotated st ∨ w = Rotation (sc_AccountID stored) (sc_Proxy stored) (cr_encrypted_secret cr) encrypted) as Hrot.
    { intros w. unfold st', after_sql. cbn. rewrite Hcr, lookup_insert_eq. cbn.
      rewrite bool_decide_false by (intros [= E]; lia). intros [->|Hin]%elem_of_cons; [by right|by left]. }
    pose proof (ag_knows _ _ Hag tid) as Hk. pose proof (kn_phase _ _ Hk) as Hcur. rewrite Hp in Hcur. destruct Hcur as [Hcur (b & Hb & Hans)].
    apply (agree_set (Some (sc_AccountID stored, sc_FenceEpoch stored)) st _ σ _ tid); try done.
    + apply (data_ok_outbox (Some (sc_AccountID stored, sc_FenceEpoch stored)) st); try done; [| | |apply Hag].
      * intros w Hw. destruct (Hrot w Hw) as [| ->]; [by left|right]. exists b, refreshed. split_and!; [|done|done].
        destruct (Hcur a Ha Hepoch) as (cr' & Hcr' & Hs). simplify_eq. cbn [ro_account ro_from]. rewrite Hs. by apply opens_stored.
      * intros id row Hrow. exists row. split_and!; [done..|]. by apply (da_outbox _ (ag_data _ _ Hag) id).
      * intros id row Hrow. left. by exists row.
    + right. by rewrite Hp.
    + rewrite Hself. destruct Hk as [_ _ Hq Hs Hpa Hn]. split; try done.
    + by rewrite Hself.
Qed.

Lemma step_queue stored quota t r (x : result (db_error * option context_error) unit) :
  rf_phase (σ tid) = Fetched stored →
  outcome (λ _ : unit, λ t', ∃ text, carries text quota ∧ epoch_is (sc_AccountID stored) (sc_FenceEpoch stored) (rs_db st) = true ∧
    t' = set_outbox <[sc_AccountID stored := queued_row stored text (db_now (rs_db st))]>
           (set_accounts (alter (with_quota text) (sc_AccountID stored)) (rs_db st))) (rs_db st) r t →
  replies io_error r x →
  agree (after_sql (QueueQuotaQ stored quota) t st) (step_client tid (SqlE (QueueQuotaQ stored quota)) x σ).
Proof.
  intros Hp Ho Hx. set (q := QueueQuotaQ stored quota). set (σ' := step_client _ _ _ _).
  assert (∀ i, tid ≠ i → σ' i = σ i) as Hother by (intros i Hne; by apply decide_False).
  assert (σ' tid = sql_next q x (σ tid)) as Hself by (by apply decide_True).
  set (id := sc_AccountID stored) in *. set (e := sc_FenceEpoch stored) in *.
  destruct (kn_drawn _ _ (ag_knows _ _ Hag tid) id e) as [Hupto Hfresh]; [by rewrite Hp|].
  pose proof (ag_data _ _ Hag) as Hd. destruct Ho as [[-> (err & ->)]|(_ & (text & Hc & He & ->) & _)].
  - assert (after_sql q (rs_db st) st = with_db (rs_db st) st) as ->.
    { unfold after_sql. cbn. fold id e. destruct (outbox_at id e (rs_db st)) as [row|] eqn:Eo; [|done].
      apply outbox_at_Some in Eo as [Hrow Hre]. destruct (Hfresh (ob_quota row)). rewrite <-Hre. by apply (da_outbox _ Hd id). }
    destruct Hx as (ctx & -> & _).
    apply agree_moves; [done|done|rewrite Hself; apply knows_idle|by rewrite Hself].
  - destruct (epoch_is_row _ _ _ He) as (a & Ha & Hepoch).
    set (row0 := queued_row stored text (db_now (rs_db st))).
    set (t := set_outbox _ _). set (st' := after_sql q t st).
    assert (rs_queued st' = (id, e, text) :: rs_queued st) as Hq.
    { unfold st', after_sql. cbn. unfold outbox_at. cbn. fold id. rewrite lookup_insert_eq. cbn. by rewrite Z.eqb_refl. }
    assert (db_moves (rs_db st) (set_accounts (alter (with_quota text) id) (rs_db st))) as Hm by by apply moves_alter.
    assert (advances (Some (id, e)) st st') as Had.
    { split; [apply Hm| | | |done|done].
      - intros k b Hb. destruct (dm_accounts _ _ Hm k b Hb) as (b' & Hb' & Hle & Hcr). exists b'. split_and!; [done|done|]. intros E. left. by apply Hcr.
      - intros k Hk. rewrite Hq. by right.
      - intros k e' text'. rewrite Hq. intros [[= -> -> ->]|Hin]%elem_of_cons; [by right|by left]. }
    assert (in_outbox (rs_db st') id e text) as Hnew.
    { exists row0. split; [apply outbox_at_Some; cbn; by rewrite lookup_insert_eq|done]. }
    apply (agree_set (Some (id, e)) st _ σ _ tid); try done.
    + split.
      * intros k row Hrow. destruct (decide (id = k)) as [<-|Hne].
        -- cbn in Hrow. fold id in Hrow. rewrite lookup_insert_eq in Hrow. injection Hrow as <-. rewrite Hq. split; [by left|].
           split; [|done]. cbn. assert (0 <= quotaOutboxMaxBackoff) by done. lia.
        -- cbn in Hrow. fold id in Hrow. rewrite lookup_insert_ne in Hrow by done. destruct (da_outbox _ Hd k row Hrow). rewrite Hq. split; [by right|done].
      * intros k e' text'. rewrite Hq. intros [[= -> -> ->]|Hin]%elem_of_cons.
        -- split; [by eapply epoch_upto_advances|by left].
        -- destruct (da_queued _ Hd k e' text' Hin) as [Hu Hw]. split; [by eapply epoch_upto_advances|].
           destruct Hw as [Hin'|[Hpub|Hpast]]; [|right; left; by eapply public_advances|right; right; by eapply epoch_past_advances].
           destruct (decide (id = k)) as [<-|Hne].
           ++ right; right. eapply epoch_past_advances; [exact Had|]. destruct Hu as (a' & Ha' & Hle). rewrite Ha in Ha'; injection Ha' as <-. exists a. split; [done|].
              assert (e' ≠ e) by (intros ->; by apply (Hfresh text')). lia.
           ++ left. destruct Hin' as (row & [Hrow Hre]%outbox_at_Some & Hrt). exists row. split; [|done]. apply outbox_at_Some. cbn. fold id.
              by rewrite lookup_insert_ne.
      * intros k e' t1 t2. rewrite Hq. intros [[= -> -> ->]|L1]%elem_of_cons [L2|L2]%elem_of_cons; simplify_eq; try done.
        -- by destruct (Hfresh t2).
        -- by destruct (Hfresh t1).
        -- by apply (da_unique _ Hd k e').
      * intros k e' text'. rewrite Hq. intros [[= -> -> ->]|Hin]%elem_of_cons; [by exists quota|by apply (da_carries _ Hd k e')].
      * intros w Hw. destruct (da_rotated _ Hd w Hw) as (b & refreshed & ? & ? & ?). by exists b, refreshed.
    + right. by rewrite Hp.
    + rewrite Hself. cbn [sql_next q]. destruct (ag_knows _ _ Hag tid) as [_ _ Kq Ks Kp Kn].
      assert (knows_ok st' (set_phase Idle (σ tid))) as Hk.
      { split; try done; [|intros k e' Hin; by eapply epoch_past_advances, Kp].
        intros k e' q' Hin. destruct (Kq k e' q' Hin) as (text' & Hin' & Hc'). exists text'. split; [by apply (ad_queued _ _ _ Had)|done]. }
      destruct x as [u|err]; [|done].
      change (knows_ok st' (add_quotas [(id, e, quota)] (set_phase Idle (σ tid)))). apply knows_quotas; [|done].
      intros k e' q' Hin%list_elem_of_singleton. simplify_eq. exists text. split; [rewrite Hq; by left|done].
    + rewrite Hself. cbn. by destruct x.
Qed.
(** Statements that say nothing to the client, and change at most a column of
    an account. *)
Lemma step_column {A} (q : sql A) t (x : result (db_error * option context_error) A) :
  quiet q → (∀ σ0, sql_next q x σ0 = σ0) → db_moves (rs_db st) t →
  agree (after_sql q t st) (step_client tid (SqlE q) x σ).
Proof.
  intros Hq Hn Hm. rewrite after_quiet by done. unfold step_client.
  apply agree_moves; [done|intros i Hne; by rewrite decide_False|..]; rewrite decide_True by done;
    cbn [next monitor refresh_monitor r_next]; rewrite Hn; auto.
Qed.

Lemma step_fence id t r (x : result (db_error * option context_error) Z) :
  t = rs_db st → (∀ fence, r = Ok fence → ∃ a, account_rows t !! id = Some a ∧ ac_fence_epoch a = fence) →
  replies io_error r x → agree (with_db t st) (step_client tid (SqlE (FenceQ id)) x σ).
Proof.
  intros -> Hr Hx. unfold step_client.
  apply agree_moves; [done|intros i Hne; by rewrite decide_False|..]; rewrite decide_True by done;
    cbn [next monitor refresh_monitor r_next sql_next]; (destruct x as [fence|err]; [|by auto]); [|by auto].
  intros Hk. apply knows_passed; [|done]. destruct r as [f|e']; [|by destruct Hx as (? & [=] & _)]. injection Hx as ->.
  destruct (Hr f eq_refl) as (a & Ha & He). intros id' e (((k & e') & q) & [= -> ->] & Hin)%list_elem_of_fmap.
  apply list_elem_of_filter in Hin as [[Heq Hne] Hin]. cbn in Heq, Hne. subst k.
  destruct (kn_quotas _ _ Hk id e' q Hin) as (text & Hqu & _). destruct (queued_upto id e' text Hqu) as (b & Hb & Hle).
  exists b. split; [done|]. cbn in Ha. rewrite Ha in Hb. injection Hb as <-. lia.
Qed.

(** No statement: only ghosts and sessions. *)
Lemma agree_ghost st' (σ' : nat → refresher) :
  rs_db st' = rs_db st → rs_queued st' = rs_queued st → rs_rotated st' = rs_rotated st →
  (∀ x, x ∈ rs_shown st → x ∈ rs_shown st') → (∀ x, x ∈ rs_answers st → x ∈ rs_answers st') →
  (∀ i, tid ≠ i → σ' i = σ i) → (knows_ok st' (σ tid) → knows_ok st' (σ' tid)) →
  (∀ k, drawn (rf_phase (σ' tid)) = Some k → drawn (rf_phase (σ tid)) = Some k) →
  agree st' σ'.
Proof.
  intros Hdb Hq Hr Hs Ha Hother Hself Hdr.
  assert (advances None st st') as Had.
  { split; rewrite ?Hdb, ?Hq; try done; [|intros id e text Hin; by left].
    intros id a Hrow. exists a. split_and!; [done|done|by left]. }
  apply (agree_set None st _ σ _ tid); try done.
  - apply (data_ok_frame None st); try done; [by rewrite Hdb|apply Hag].
  - by left.
  - apply Hself. eapply knows_advances; [exact Had|done|apply Hag].
  - intros k Hk. left. by apply Hdr.
Qed.

Lemma column_moves {A} f id (P : A → db → Prop) t r t' :
  (∀ now a, ac_fence_epoch (f now a) = ac_fence_epoch a) →
  (∀ a t', P a t' → t' = set_accounts (alter (f (db_now t)) id) t) → outcome P t r t' → db_moves t t'.
Proof. intros Hf HP [[-> _]|(a & Ha & _)]; [done|]. apply HP in Ha as ->. by apply moves_alter. Qed.

Lemma agree_sql {A} (q : sql A) pl fs r w' x :
  sql_permits c q (σ tid) → run_sql pl q (World (rs_db st) fs) = (r, w') → replies io_error r x →
  agree (after_sql q (tables w') st) (step_client tid (SqlE q) x σ).
Proof.
  intros Hp Hrun Hx.
  destruct q as [id|id e|stored encrypted exp|stored class|stored quota|stored quota|id|limit|id e|id e err t|b|limit];
    cbn [run_sql sql_permits] in Hrun, Hp; try rewrite after_quiet by done.
  - eapply step_acquire; [by eapply Acquire_outcome|done].
  - destruct Hp as [Hp _]. apply query_outcome in Hrun as [Ht Hr]. eapply step_read; [done|done| |done].
    intros row Hrow. apply Hr in Hrow. rewrite Ht. destruct (account_rows _ !! id) as [a|]; [|done].
    destruct (credential_rows _ !! id) as [cr|]; [|done]. destruct (Z.eqb_spec (ac_fence_epoch a) e); [|done].
    injection Hrow as <-. by exists a, cr.
  - destruct Hp as (refreshed & Hp & Hs & _). eapply step_commit; [by exists refreshed|by eapply Commit_outcome].
  - rewrite <-(after_quiet (FailQ stored class)) by done. apply step_column; [done|done|]. unfold Repository_Fail in Hrun.
    destruct (_ || _); [injection Hrun as <- <-; done|]. apply update_account_outcome in Hrun.
    eapply (column_moves (failed_account class)); [done| |exact Hrun]. by intros _ t' [_ ->].
  - rewrite <-(after_quiet (CommitQuotaQ stored quota)) by done. apply step_column; [done|done|].
    apply CommitQuota_outcome in Hrun. destruct Hrun as [[-> _]|(_ & (text & ->) & _)]; [done|by apply moves_alter].
  - destruct Hp as [Hp _]. eapply step_queue; [done|by eapply Queue_outcome|done].
  - apply query_outcome in Hrun as [Ht Hr]. eapply step_fence; [done| |done]. intros fence Hf. apply Hr in Hf. rewrite Ht.
    destruct (account_rows _ !! id) as [a|]; [|done]. injection Hf as <-. by exists a.
  - eapply step_claim; [by eapply Claim_outcome|done].
  - eapply step_ack; [done|by eapply Ack_outcome].
  - eapply step_retry; [done|by eapply update_outbox_outcome].
  - rewrite <-(after_quiet (RefreshListQ b)) by done. apply step_column; [done|done|]. by apply query_outcome in Hrun as [-> _].
  - rewrite <-(after_quiet (QuotaListQ limit)) by done. apply step_column; [done|done|]. by apply query_outcome in Hrun as [-> _].
Qed.

Lemma agree_step X (e : rE X) x st' :
  exec skew e st x st' → r_permits c e (σ tid) → agree st' (step_client tid e x σ).
Proof.
  intros He Hp.
  assert (∀ i, tid ≠ i → step_client tid e x σ i = σ i) as Hother by (intros i Hne; by apply decide_False).
  assert (step_client tid e x σ tid = r_next e x (σ tid)) as Hself by (by apply decide_True).
  destruct e as [| | |s key|s key|s|s|A q| |p current0|p credential|platform group|platform group epoch accounts|shown quota];
    cbn [exec r_permits] in He, Hp; cbn [r_next id] in Hself.
  - destruct He as [-> Hx]. apply agree_ghost; try done; rewrite Hself; [by apply knows_time|done].
  - subst. apply agree_ghost; try done; by rewrite Hself.
  - assert (rs_db st' = rs_db st ∧ rs_queued st' = rs_queued st ∧ rs_rotated st' = rs_rotated st ∧ rs_shown st' = rs_shown st
      ∧ rs_answers st' = rs_answers st) as (E1 & E2 & E3 & E4 & E5) by (destruct He as [(? & _ & ->)|(? & _ & _ & ->)]; done).
    apply agree_ghost; rewrite ?E4, ?E5; try done; rewrite Hself; destruct x; try done. by apply knows_conn.
  - assert (rs_db st' = rs_db st ∧ rs_queued st' = rs_queued st ∧ rs_rotated st' = rs_rotated st ∧ rs_shown st' = rs_shown st
      ∧ rs_answers st' = rs_answers st) as (E1 & E2 & E3 & E4 & E5)
      by (unfold on_session, lock_step in He; destruct He as [(_ & _ & ->)|(? & _ & [->|[_ ->]])]; cbn; by try destruct (lock_free _ _ _)).
    apply agree_ghost; rewrite ?E4, ?E5; try done; rewrite Hself; destruct x as [[]|]; try done. by apply knows_conn.
  - assert (rs_db st' = rs_db st ∧ rs_queued st' = rs_queued st ∧ rs_rotated st' = rs_rotated st ∧ rs_shown st' = rs_shown st
      ∧ rs_answers st' = rs_answers st) as (E1 & E2 & E3 & E4 & E5)
      by (destruct He as [(_ & _ & ->)|(? & _ & [->|[_ ->]])]; done).
    apply agree_ghost; rewrite ?E4, ?E5; try done; rewrite Hself; [|done]. intros Hk. by apply knows_conn, knows_idle.
  - subst. apply agree_ghost; try done; rewrite Hself; [by apply knows_conn|done].
  - subst. apply agree_ghost; try done; rewrite Hself; [by apply knows_conn|done].
  - destruct He as (pl & fs & r & w' & Hrun & Hx & ->). by eapply agree_sql.
  - subst. apply agree_ghost; try done; by rewrite Hself.
  - subst st'. destruct x as [b|e]; [|by apply agree_ghost; try done; rewrite Hself].
    destruct Hp as (stored & b0 & Hph & _ & Hd & ->). rewrite Hph in Hself.
    apply agree_ghost; try done; [by intros y Hy; right|rewrite Hself..].
    + intros Hk. apply knows_refreshed; [done| |done]. exists b0. split; [done|by left].
    + cbn. by rewrite Hph.
  - subst. apply agree_ghost; try done; by rewrite Hself.
  - destruct He as (now & f1 & f2 & f3 & f4 & s1 & s2 & s3 & s4 & _ & _ & ->).
    apply agree_ghost; try done; [intros y Hy; apply elem_of_app; by right|rewrite Hself; destruct x; try done..].
    intros Hk. apply knows_shown; [|done]. intros y Hy. apply elem_of_app. by left.
  - destruct He as (f & gu & r & rd & _ & Hx & ->).
    apply agree_ghost; try done; [intros y Hy; apply elem_of_app; by right|rewrite Hself; destruct x; try done..].
    destruct r as [v'|e']; [|by destruct Hx as (? & [=] & _)].
    intros Hk. apply knows_shown; [|done]. intros y Hy. apply elem_of_app. by left.
  - destruct He as [-> Hx]. apply agree_ghost; try done; rewrite Hself; destruct x; try done.
    intros Hk. apply knows_shown; [|done]. rewrite (Hx eq_refl). intros y ([k q] & -> & Hy)%list_elem_of_fmap.
    apply list_elem_of_filter in Hy as [Heq Hy]. cbn in *. subst q. by apply (kn_shown _ _ Hk).
Qed.
End step.

Lemma agree_ext st (σ σ' : nat → refresher) : (∀ i, σ i = σ' i) → agree st σ → agree st σ'.
Proof. intros Hext [Hd Hk Ha]. split; [done|intros i; by rewrite <-Hext|]. intros i j k. rewrite <-!Hext. apply Ha. Qed.

Lemma agree_move st st' σ : moves st st' → agree st σ → agree st' σ.
Proof.
  intros Hm Hag.
  assert (∀ st', rs_db st' = rs_db st → rs_queued st' = rs_queued st → rs_rotated st' = rs_rotated st → rs_shown st' = rs_shown st →
    rs_answers st' = rs_answers st → agree st' σ) as Hsame.
  { intros s1 E1 E2 E3 E4 E5. by apply (agree_ghost st σ 0%nat Hag); rewrite ?E4, ?E5. }
  destruct Hm as [st s|st s Hs|st r|st t Ht]; [by apply Hsame..|].
  by apply (agree_moves st σ 0%nat Hag); auto.
Qed.

Lemma agree_run st tr st' σ :
  interleaved (@exec _ _ _ _ skew) moves st tr st' → (∀ tid, disciplined (calls_of tid tr) (σ tid)) →
  agree st σ → agree st' (λ tid, watch (calls_of tid tr) (σ tid)).
Proof.
  apply interleaved_inv; [apply agree_ext| |apply agree_move].
  intros X e x st0 st1 tid σ0 He Hp Hag. by eapply agree_step.
Qed.
End invariants.
