(* ===== verification/RefreshCalm.v ===== *)
(** * Refreshers left alone

    What the programs of Refresh.v come to when nothing disturbs them: no call
    fails, nobody else runs.  [calm_run] executes a program so; it is one of
    the executions of RefreshStore.v.  A reconciler left alone publishes what is
    due and empties the outbox of it. *)

From S2P Require Import Prelude Decimal Contracts Numeric Db Fencing Redis Snapshot Effects Cipher Provider RefreshData Refresh RefreshStore.

Open Scope Z_scope.

Section calm.
  Context `{Jsonb, Codec QuotaInfo, Codec Entry, Codec (list string)}.
  (** What the random source and the providers answer. *)
  Context (nonce : option string) (refresh : Provider → TokenBundle → result provider_error TokenBundle)
    (quota_of : Provider → Credential → result provider_error QuotaInfo).

Definition no_context {E A} (r : result E A) : result (E * option context_error) A :=
  match r with Ok a => Ok a | Err e => Err (e, None) end.

(** A session the pool has to give. *)
Definition new_session (st : rstore) : nat := fresh (rs_out st ∪ rs_gone st).

Definition session_alive {A} (session : nat) (m : rstore → A * rstore) (st : rstore) : result (option context_error) A * rstore :=
  if decide (session ∈ rs_gone st) then (Err None, st) else ((λ r, (Ok r.1, r.2)) (m st)).

Definition answer {X} (e : rE X) : rstore → X * rstore :=
  match e in rE X return rstore → X * rstore with
  | NowE => λ st, (db_now (rs_db st), st)
  | ContextE => λ st, (None, st)
  | SessionE => λ st, (Ok (new_session st), with_sessions ({[ new_session st ]} ∪ rs_out st) (rs_gone st) (rs_locks st) st)
  | TryLockE session key => session_alive session (λ st, (lock_free key session st, lock_step key session st))
  | UnlockE session key => session_alive session (λ st, (bool_decide ((key, session) ∈ rs_locks st), unlock_step key session st))
  | ReleaseE session => λ st, (tt, give_back session st)
  | CloseE session => λ st, (tt, kill session (give_back session st))
  | SqlE q => λ st, let '(r, w') := run_sql (Planner ∅ id) q (World (rs_db st) []) in
                    (no_context r, after_sql q (tables w') st)
  | NonceE => λ st, (nonce, st)
  | RefreshOAuthE p current => λ st,
      (refresh p current, log_answers (match refresh p current with Ok b => [(current, b)] | Err _ => [] end) st)
  | QuotaE p credential => λ st, (quota_of p credential, st)
  | LoadE platform group => λ st,
      let r := rs_redis st in
      let x := Load true platform group (db_now (rs_db st)) NoFault NoFault NoFault NoFault r r r r in
      (no_context x, log_shown (match x with Ok sn => quotas_in (sn_Accounts sn) | Err _ => [] end) st)
  | PublishE platform group epoch accounts => λ st,
      let '(r, rd) := Publish (Some NoFault) platform group epoch accounts
                        ((db_now (rs_db st) + GraceTTL) / 1000000) (rs_redis st) in
      (no_context r, log_shown (match r with Ok _ => quotas_in accounts | Err _ => [] end) (with_redis rd st))
  | SameQuotaE current quota => λ st, (bool_decide (current = quota), st)
  end.

Fixpoint calm_run {A} (m : prog rE A) (st : rstore) : A * rstore :=
  match m with
  | Return a => (a, st)
  | Perform e k => let '(x, st') := answer e st in calm_run (k x) st'
  end.

(** ** One of the executions *)

Lemma no_context_replies {E A} (fails : E → Prop) (r : result E A) : replies fails r (no_context r).
Proof. destruct r as [a|e]; cbn; [done|]. exists None. split; [done|by intros []]. Qed.

Lemma with_same_sessions st : with_sessions (rs_out st) (rs_gone st) (rs_locks st) st = st.
Proof. by destruct st. Qed.

Lemma session_alive_exec {A} session (m : rstore → A * rstore) st :
  on_session session m st (session_alive session m st).1 (session_alive session m st).2.
Proof.
  unfold session_alive. destruct (decide (session ∈ rs_gone st)) as [Hin|]; [right|by left].
  exists None. split; [done|left]. cbn. unfold kill.
  replace ({[session]} ∪ rs_gone st) with (rs_gone st) by set_solver. by rewrite with_same_sessions.
Qed.

Lemma answer_exec skew {X} (e : rE X) st :
  0 <= skew → exec skew e st (answer e st).1 (answer e st).2.
Proof.
  intros Hskew.
  destruct e as [| | |s key|s key|s|s|A q| |p current|p credential|platform group|platform group epoch accounts|current quota];
    cbn [exec answer]; try done; try apply session_alive_exec.
  - cbn. split; [done|lia].
  - right. exists (new_session st). split_and!; [|done|done].
    intros Hin. apply (is_fresh (rs_out st ∪ rs_gone st)). apply elem_of_union. by left.
  - destruct (run_sql _ q _) as [r w'] eqn:E. exists (Planner ∅ id), [], r, w'. split_and!; [done|apply no_context_replies|done].
  - exists (db_now (rs_db st)), NoFault, NoFault, NoFault, NoFault, (rs_redis st), (rs_redis st), (rs_redis st), (rs_redis st).
    split_and!; [|apply no_context_replies|].
    + repeat constructor.
    + by destruct (Load _ _ _ _ _ _ _ _ _ _ _ _).
  - destruct (Publish _ _ _ _ _ _ _) as [r rd] eqn:E. exists NoFault, ((db_now (rs_db st) + GraceTTL) / 1000000), r, rd.
    split_and!; [done|apply no_context_replies|done].
  - split; [done|]. intros Hb. by apply bool_decide_eq_true in Hb.
Qed.

(** A program left alone is a client that takes all the turns. *)
Lemma calm_run_interleaved skew {A} (m : prog rE A) tid st :
  0 <= skew → ∃ tr, interleaved (@exec _ _ _ _ skew) moves st (pair tid <$> tr) (calm_run m st).2 ∧ runs m tr (calm_run m st).1.
Proof.
  intros Hskew. revert st. induction m as [a|X e k IH]; intros st; cbn [calm_run].
  - exists []. split; [constructor|done].
  - pose proof (answer_exec skew e st Hskew) as He. destruct (answer e st) as [x st1].
    destruct (IH x st1) as (tr & Htr & Hr). exists (Ev e x :: tr). split; [|by exists x, tr].
    cbn. by eapply il_call.
Qed.

Lemma calm_run_bind {A B} (m : prog rE A) (f : A → prog rE B) st :
  calm_run (m ≫= f) st = calm_run (f (calm_run m st).1) (calm_run m st).2.
Proof.
  change (m ≫= f) with (prog_bind m f). revert st. induction m as [a|X e k IH]; intros st; [done|].
  cbn [calm_run prog_bind]. destruct (answer e st) as [x st1]. apply IH.
Qed.

Lemma calm_on_ok {A B} (m : P A) (k : A → P B) st a st' :
  calm_run m st = (Ok a, st') → calm_run (on_ok m k) st = calm_run (k a) st'.
Proof. intros E. unfold on_ok. by rewrite calm_run_bind, E. Qed.

Lemma calm_query {A} (q : sql A) st r w' :
  run_sql (Planner ∅ id) q (World (rs_db st) []) = (Ok r, w') →
  calm_run (query_ q) st = (Ok r, after_sql q (tables w') st).
Proof. intros E. unfold query_. rewrite calm_run_bind. cbn. by rewrite E. Qed.

Lemma after_quiet_ack accountID epoch t st : after_sql (AckQ accountID epoch) t st = with_db t st.
Proof. done. Qed.
Lemma after_quiet_fence accountID t st : after_sql (FenceQ accountID) t st = with_db t st.
Proof. done. Qed.

(** ** The lock *)

Record same_sessions (st st' : rstore) : Prop := {
  ss_out : rs_out st' = rs_out st;
  ss_gone : rs_gone st' = rs_gone st;
  ss_locks : rs_locks st' = rs_locks st
}.
#[export] Instance same_sessions_preorder : PreOrder same_sessions.
Proof. split; [by intros st|]. intros s1 s2 s3 [] []. split; congruence. Qed.

(** Session [s] is out, with the lock. *)
Definition held (s : nat) (key : Z) (st : rstore) : rstore :=
  with_sessions ({[ s ]} ∪ rs_out st) (rs_gone st) ((key, s) :: rs_locks st) st.

Definition unlocked (key : Z) (st : rstore) : Prop := ∀ s, (key, s) ∉ rs_locks st.

Lemma new_session_fresh st : (new_session st ∉ rs_out st) ∧ (new_session st ∉ rs_gone st).
Proof. pose proof (is_fresh (rs_out st ∪ rs_gone st)) as Hf. unfold new_session. set_solver. Qed.

Lemma unlocked_free key s st : unlocked key st → lock_free key s st = true.
Proof.
  intros Hu. unfold lock_free. apply negb_true_iff, not_true_iff_false. intros ([k s'] & Hin & Hk)%existsb_exists.
  apply andb_true_iff in Hk as [Hk%Z.eqb_eq _]. cbn in Hk. subst k. by apply (Hu s'), list_elem_of_In.
Qed.

Lemma TryLock_calm accountID st :
  blank accountID = false → unlocked (accountLockKey accountID) st →
  calm_run (TryLock accountID) st =
    (Ok (Some (Held (new_session st) (accountLockKey accountID))), held (new_session st) (accountLockKey accountID) st).
Proof.
  intros Hb Hu. unfold TryLock. rewrite Hb. unfold TryAcquireSingleton. rewrite calm_run_bind. cbn [perform calm_run answer fst snd].
  rewrite calm_run_bind. cbn [perform calm_run answer]. unfold session_alive.
  rewrite decide_False by (cbn; apply new_session_fresh). cbn [fst snd].
  rewrite unlocked_free by done. unfold lock_step. rewrite unlocked_free by done. done.
Qed.

Lemma unlock_calm s key st st0 :
  s ∉ rs_gone st0 → s ∉ rs_out st0 → same_sessions (held s key st0) st →
  ∃ st', calm_run (unlock (Held s key)) st = (Ok tt, st') ∧ rs_db st' = rs_db st ∧ rs_redis st' = rs_redis st ∧ same_sessions st0 st'.
Proof.
  intros Hg Ho [Eo Eg El]. unfold unlock. cbn [hl_session hl_key]. rewrite calm_run_bind. cbn [perform calm_run answer].
  unfold session_alive. rewrite decide_False by (by rewrite Eg). cbn [fst snd].
  rewrite bool_decide_true by (rewrite El; by left). cbn.
  eexists. split_and!; [done|done|done|]. split; cbn; [rewrite Eo; cbn; set_solver|done|].
  rewrite El. cbn. by rewrite Z.eqb_refl, Nat.eqb_refl.
Qed.

(** ** One item *)

(** A publisher that has what it needs of Redis publishes, and what the others
    need stays there. *)
Definition works (publish : StoredCredential → QuotaInfo → P unit) (ready : redis → QuotaOutboxItem → Prop) : Prop :=
  ∀ st item rest, ready (rs_redis st) item → Forall (ready (rs_redis st)) rest →
  ∃ st', calm_run (publish (fenced_of item) (qo_Quota item)) st = (Ok tt, st')
    ∧ rs_db st' = rs_db st ∧ same_sessions st st' ∧ Forall (ready (rs_redis st')) rest.

Lemma Ack_calm accountID epoch st row :
  outbox_at accountID epoch (rs_db st) = Some row →
  calm_run (query_ (AckQ accountID epoch)) st = (Ok tt, with_db (set_outbox (delete accountID) (rs_db st)) st).
Proof.
  intros Hrow. rewrite (calm_query (AckQ accountID epoch) st tt (World (set_outbox (delete accountID) (rs_db st)) [])); [done|].
  cbn [run_sql]. unfold AckQuotaOutbox, one_row. by erewrite bind_calm by (rewrite stmt_calm, Hrow; reflexivity).
Qed.

Lemma reconcileItem_calm publish ready item rest row st t :
  works publish ready → ready (rs_redis st) item → Forall (ready (rs_redis st)) rest →
  blank (qo_AccountID item) = false → unlocked (accountLockKey (qo_AccountID item)) st →
  is_Some (account_rows (rs_db st) !! qo_AccountID item) → outbox_at (qo_AccountID item) (qo_FenceEpoch item) (rs_db st) = Some row →
  ∃ st', calm_run (reconcileItem publish item t) st = (Ok tt, st')
    ∧ rs_db st' = set_outbox (delete (qo_AccountID item)) (rs_db st) ∧ same_sessions st st' ∧ Forall (ready (rs_redis st')) rest.
Proof.
  intros Hw Hr Hrest Hb Hu [a Ha] Hrow. set (id := qo_AccountID item) in *. set (key := accountLockKey id) in *.
  destruct (new_session_fresh st) as [Hso Hsg]. set (s := new_session st) in *.
  assert (∃ st', calm_run (reconcile_locked publish item t) (held s key st) = (Ok tt, st')
    ∧ rs_db st' = set_outbox (delete id) (rs_db st) ∧ same_sessions (held s key st) st' ∧ Forall (ready (rs_redis st')) rest)
    as (st1 & E1 & Hdb & Hss & Hr1).
  { unfold reconcile_locked. fold id. rewrite calm_run_bind.
    erewrite calm_query by (cbn [run_sql]; unfold CurrentFence; rewrite query_calm; cbn; rewrite Ha; reflexivity).
    rewrite after_quiet_fence. cbn [fst snd tables].
    assert (with_db (rs_db st) (held s key st) = held s key st) as -> by (by destruct st).
    destruct (ac_fence_epoch a =? qo_FenceEpoch item); cbn [negb].
    - rewrite calm_run_bind. destruct (Hw (held s key st) item rest) as (st2 & -> & Hdb2 & Hss2 & Hr2); [done|done|].
      cbn [fst snd]. rewrite calm_run_bind. erewrite Ack_calm by (rewrite Hdb2; exact Hrow). cbn.
      eexists. split_and!; [done| | |done]; [by cbn; rewrite Hdb2|]. destruct Hss2. by split.
    - erewrite Ack_calm by exact Hrow. eexists. split_and!; done. }
  unfold reconcileItem. fold id. rewrite calm_run_bind, TryLock_calm by done. cbn [fst snd].
  fold key. fold s. rewrite calm_run_bind, E1. cbn [fst snd]. rewrite calm_run_bind.
  destruct (unlock_calm s key st1 st) as (st2 & -> & Hdb2 & Hrd2 & Hss2); [done|done|done|].
  cbn. exists st2. split_and!; [done|congruence|done|by rewrite Hrd2].
Qed.

(** ** A batch *)

Definition batch (t : db) : list (string * outbox_row) := due_rows ∅ quotaBatchSize t.

Lemma batch_NoDup t : NoDup (batch t).*1.
Proof.
  unfold batch, due_rows. rewrite fmap_take. eapply sublist_NoDup; [|apply sublist_take].
  rewrite merge_sort_Permutation. eapply sublist_NoDup; [apply (NoDup_fst_map_to_list (quota_outbox t))|].
  apply fmap_sublist, sublist_filter.
Qed.

Lemma outbox_items_ids rows items : mapM outbox_item rows = Some items → qo_AccountID <$> items = rows.*1.
Proof.
  intros Hm%mapM_Some. induction Hm as [|kv item rows items Hi Hm IH]; [done|]. cbn. by rewrite IH, (outbox_item_id _ _ Hi).
Qed.

(** Leases touch the claimed rows only, and nothing the reconciler looks at. *)
Lemma lease_items_calm items n t m :
  ∃ n' m', foldM lease_item n items (World (set_outbox (λ _, m) t) []) = (Ok n', World (set_outbox (λ _, m') t) [])
    ∧ leased (db_now t) m m' ∧ ∀ id, id ∉ (qo_AccountID <$> items) → m' !! id = m !! id.
Proof.
  revert n m. induction items as [|item items IH]; intros n m; cbn [foldM].
  - exists n, m. split_and!; [done|apply leased_refl|done].
  - set (o := outbox_at (qo_AccountID item) (qo_FenceEpoch item) (set_outbox (λ _, m) t)).
    set (m1 := match o with Some row => <[qo_AccountID item := leased_row (db_now t) row]> m | None => m end).
    assert (∃ n1, lease_item n item (World (set_outbox (λ _, m) t) []) = (Ok n1, World (set_outbox (λ _, m1) t) [])) as (n1 & E).
    { unfold lease_item, update_outbox. rewrite stmt_calm. fold o. unfold m1. destruct o; eexists; reflexivity. }
    destruct (IH n1 m1) as (n' & m' & E' & Hl & Hsame). exists n', m'. rewrite (bind_calm _ _ _ _ _ E). split_and!; [done| |].
    + eapply leased_trans; [|exact Hl]. unfold m1. destruct o as [row|] eqn:Eo; [|apply leased_refl].
      apply leased_insert. by apply outbox_at_Some in Eo as [Hrow _].
    + intros id [Hne Hin]%not_elem_of_cons. rewrite Hsame by done. unfold m1. destruct o; [|done]. by rewrite lookup_insert_ne.
Qed.

Lemma Claim_calm t :
  (∀ kv, kv ∈ batch t → is_Some (unmarshal (A := QuotaInfo) (ob_quota kv.2))) →
  ∃ items m, ClaimQuotaOutbox ∅ quotaBatchSize (World t []) = (Ok items, World (set_outbox (λ _, m) t) [])
    ∧ mapM outbox_item (batch t) = Some items ∧ leased (db_now t) (quota_outbox t) m
    ∧ ∀ id, id ∉ (batch t).*1 → m !! id = quota_outbox t !! id.
Proof.
  intros Hd. destruct (mapM outbox_item (batch t)) as [items|] eqn:Em.
  2:{ apply mapM_None, list.Exists_exists in Em as (kv & Hin & Hn). destruct (Hd kv Hin) as [q Hq].
      unfold outbox_item in Hn. by rewrite Hq in Hn. }
  destruct (lease_items_calm items 0 t (quota_outbox t)) as (n & m & E & Hl & Hsame).
  assert (set_outbox (λ _, quota_outbox t) t = t) as Ht by (by destruct t). rewrite Ht in E.
  exists items, m. split_and!; [|done|done|by rewrite <-(outbox_items_ids _ _ Em)].
  unfold ClaimQuotaOutbox. cbn [Z.leb]. apply transaction_calm.
  rewrite (bind_calm _ _ _ (batch t) (World t [])) by done. rewrite Em.
  rewrite (bind_calm _ _ _ items (World t [])) by done. by rewrite (bind_calm _ _ _ _ _ E).
Qed.

Lemma reconcile_all_calm publish ready items others st :
  works publish ready → Forall (ready (rs_redis st)) (items ++ others) → NoDup (qo_AccountID <$> items) →
  (∀ item, item ∈ items → blank (qo_AccountID item) = false ∧ unlocked (accountLockKey (qo_AccountID item)) st
     ∧ is_Some (account_rows (rs_db st) !! qo_AccountID item)
     ∧ is_Some (outbox_at (qo_AccountID item) (qo_FenceEpoch item) (rs_db st))) →
  ∃ st', calm_run (reconcile_all publish items) st = ([], st')
    ∧ rs_db st' = set_outbox (filter (λ kv, kv.1 ∉ (qo_AccountID <$> items))) (rs_db st)
    ∧ same_sessions st st' ∧ Forall (ready (rs_redis st')) others.
Proof.
  intros Hw. revert st. induction items as [|item items IH]; intros st Hr Hnd Hok.
  - exists st. split_and!; [done| |done|done]. cbn. destruct (rs_db st) as [? ? ? ? ? ? ? ? ? ? ? m ? ?]. cbn.
    unfold set_outbox. cbn. f_equal. symmetry. apply map_filter_id.
    intros k row _. apply not_elem_of_nil.
  - cbn in Hr. apply list.Forall_cons in Hr as [Hr Hrest]. rewrite fmap_cons in Hnd. apply list.NoDup_cons in Hnd as [Hnew Hnd].
    destruct (Hok item) as (Hb & Hu & Ha & [row Hrow]); [by left|].
    destruct (reconcileItem_calm publish ready item (items ++ others) row st (db_now (rs_db st)) Hw Hr Hrest Hb Hu Ha Hrow)
      as (st1 & E1 & Hdb1 & Hss1 & Hr1).
    destruct (IH st1 Hr1 Hnd) as (st2 & E2 & Hdb2 & Hss2 & Hr2).
    { intros i Hi. destruct (Hok i) as (Hbi & Hui & Hai & Hoi); [by right|]. rewrite Hdb1. split_and!; [done| |done|].
      - unfold unlocked. by rewrite (ss_locks _ _ Hss1).
      - destruct Hoi as [r Hoi]. exists r. apply outbox_at_Some in Hoi as [? ?]. apply outbox_at_Some. cbn.
        rewrite lookup_delete_ne; [done|]. intros E. apply Hnew. rewrite E. by apply list_elem_of_fmap_2. }
    exists st2. split_and!; [| |by etransitivity|done].
    + cbn [reconcile_all]. rewrite calm_run_bind. cbn [perform calm_run answer fst snd].
      rewrite calm_run_bind, E1. cbn [fst snd]. by rewrite calm_run_bind, E2.
    + rewrite Hdb2, Hdb1. unfold set_outbox. cbn. f_equal. apply map_eq. intros k. apply option_eq. intros r.
      rewrite !map_lookup_filter_Some, lookup_delete_Some, not_elem_of_cons. naive_solver.
Qed.

(** ** Draining *)

(** Every quota of the outbox can be delivered: the account is there, its lock
    free, the text decodes, and a publisher has what it needs. *)
Definition parcels (t : db) : list QuotaOutboxItem := omap outbox_item (map_to_list (quota_outbox t)).

Record deliverable (ready : redis → QuotaOutboxItem → Prop) (st : rstore) : Prop := {
  dv_account : ∀ id row, quota_outbox (rs_db st) !! id = Some row →
    blank id = false ∧ is_Some (account_rows (rs_db st) !! id) ∧ unlocked (accountLockKey id) st;
  dv_decodes : ∀ id row, quota_outbox (rs_db st) !! id = Some row → is_Some (unmarshal (A := QuotaInfo) (ob_quota row));
  dv_ready : Forall (ready (rs_redis st)) (parcels (rs_db st))
}.

Lemma parcels_in t item : item ∈ parcels t ↔ item_of_row t item.
Proof.
  unfold parcels. rewrite list_elem_of_omap. split.
  - intros ([id row] & Hin%elem_of_map_to_list & Hi). exists row. by rewrite (outbox_item_id _ _ Hi).
  - intros (row & Hrow & Hi). exists (qo_AccountID item, row). split; [by apply elem_of_map_to_list|done].
Qed.

(** What is left after a run. *)
Definition without_batch (t : db) : db := set_outbox (filter (λ kv, kv.1 ∉ (batch t).*1)) t.

Lemma RunOnce_calm publish ready st :
  works publish ready → deliverable ready st →
  ∃ st', calm_run (QuotaReconciler_RunOnce (Some publish)) st = ([], st')
    ∧ rs_db st' = without_batch (rs_db st) ∧ deliverable ready st'.
Proof.
  intros Hw [Ha Hd Hr]. set (t := rs_db st) in *.
  destruct (Claim_calm t) as (items & m & Ec & Em & Hl & Hsame).
  { intros [id row] Hin. by apply (Hd id), (due_rows_outbox _ _ _ _ Hin). }
  pose proof (outbox_items_ids _ _ Em) as Hids.
  assert (∀ item, item ∈ items → item_of_row t item) as Hitems.
  { apply list.Forall_forall. eapply outbox_items_rows; [|exact Em]. apply due_rows_outbox. }
  destruct (reconcile_all_calm publish ready items (parcels (without_batch t)) (with_db (set_outbox (λ _, m) t) st) Hw)
    as (st' & E & Hdb & Hss & Hr').
  - apply list.Forall_app. rewrite !list.Forall_forall in *. split; intros item Hin; apply Hr, parcels_in; [by apply Hitems|].
    apply parcels_in in Hin as (row & Hrow & Hi). exists row. split; [|done]. by apply map_lookup_filter_Some in Hrow as [? _].
  - rewrite Hids. apply batch_NoDup.
  - intros item Hin. destruct (item_of_row_facts _ _ (Hitems item Hin)) as (row & Hrow & He & _).
    destruct (Ha _ _ Hrow) as (Hb & Hacc & Hu). split_and!; [done|done|done|].
    specialize (Hl (qo_AccountID item)). rewrite Hrow in Hl. cbn. unfold outbox_at. cbn.
    destruct (m !! qo_AccountID item) as [row'|]; [|done]. destruct Hl as [_ _ Hepoch _ _ _]. cbn. rewrite Hepoch, He, Z.eqb_refl. by eexists.
  - assert (rs_db st' = without_batch t) as Hdb'.
    { rewrite Hdb. cbn. unfold without_batch, set_outbox. cbn. f_equal. rewrite Hids. apply map_eq. intros k. apply option_eq. intros r.
      rewrite !map_lookup_filter_Some. split; intros [Hk Hn]; (split; [|done]); [by rewrite <-Hsame|by rewrite Hsame]. }
    exists st'. split_and!; [|done|].
    + cbn [QuotaReconciler_RunOnce]. rewrite calm_run_bind, (calm_query (ClaimQ quotaBatchSize) st items (World (set_outbox (λ _, m) t) [])); [exact E|].
      exact Ec.
    + assert (∀ id row, quota_outbox (without_batch t) !! id = Some row → quota_outbox t !! id = Some row) as Hsub
        by (intros id row; apply map_lookup_filter_Some_1_1).
      split; rewrite Hdb'; [| |done].
      * intros id row Hrow%Hsub. destruct (Ha _ _ Hrow) as (? & ? & Hu). split_and!; [done|done|]. unfold unlocked.
        by rewrite (ss_locks _ _ Hss).
      * intros id row Hrow%Hsub. by eapply Hd.
Qed.

(** Runs one after another, while time stands still. *)
Fixpoint reconcile_runs (n : nat) (publish : StoredCredential → QuotaInfo → P unit) (st : rstore) : list (list refresh_error) * rstore :=
  match n with
  | O => ([], st)
  | S n => let '(errs, st1) := calm_run (QuotaReconciler_RunOnce (Some publish)) st in
           let '(rest, st2) := reconcile_runs n publish st1 in (errs :: rest, st2)
  end.

Definition all_due (t : db) : Prop := ∀ id row, quota_outbox t !! id = Some row → outbox_due (db_now t) row = true.

Lemma filter_all {A} (Q : A → Prop) `{!∀ x, Decision (Q x)} l : Forall Q l → filter Q l = l.
Proof. induction 1 as [|x l Hx Hl IH]; [done|]. by rewrite filter_cons_True, IH. Qed.

(** A run takes a hundred rows, or all. *)
Lemma without_batch_size t : all_due t → size (quota_outbox (without_batch t)) = (size (quota_outbox t) - 100)%nat.
Proof.
  intros Hdue. unfold without_batch. cbn.
  assert (length (batch t) = Nat.min 100 (size (quota_outbox t))) as Hlen.
  { unfold batch, due_rows. rewrite length_take, merge_sort_Permutation, filter_all, length_map_to_list; [done|].
    apply list.Forall_forall. intros [id row] Hin%elem_of_map_to_list. split; [by eapply Hdue|apply not_elem_of_empty]. }
  rewrite <-!size_dom. rewrite (dom_filter_L _ _ (dom (quota_outbox t) ∖ list_to_set (batch t).*1)).
  - rewrite size_difference.
    + rewrite size_list_to_set by apply batch_NoDup. rewrite length_fmap, Hlen, size_dom. lia.
    + intros id Hin. apply elem_of_list_to_set, list_elem_of_fmap in Hin as (kv & -> & Hin).
      apply elem_of_dom. exists kv.2. by apply (due_rows_outbox _ _ _ _ Hin).
  - intros id. rewrite elem_of_difference, elem_of_list_to_set, elem_of_dom. split.
    + intros [[row Hrow] Hn]. by exists row.
    + intros (row & Hrow & Hn). split; [by exists row|done].
Qed.

Lemma reconcile_runs_drain n publish ready st :
  works publish ready → deliverable ready st → all_due (rs_db st) → (size (quota_outbox (rs_db st)) <= 100 * n)%nat →
  ∃ st', reconcile_runs n publish st = (replicate n [], st') ∧ quota_outbox (rs_db st') = ∅.
Proof.
  intros Hw. revert st. induction n as [|n IH]; intros st Hd Hdue Hsize; cbn [reconcile_runs].
  - exists st. split; [done|]. apply map_size_empty_inv. lia.
  - destruct (RunOnce_calm publish ready st Hw Hd) as (st1 & -> & Hdb1 & Hd1).
    destruct (IH st1 Hd1) as (st2 & -> & He); [rewrite Hdb1..|by exists st2].
    + intros id row Hrow%map_lookup_filter_Some_1_1. by apply (Hdue id).
    + rewrite without_batch_size by done. lia.
Qed.
End calm.
