(* ===== verification/RefreshClaims.v ===== *)
(** * What the refreshers guarantee

    The properties of credential and quota refresh over every execution of
    RefreshStore.v, and what a reconciler that is left alone comes to. *)

From S2P Require Import Prelude Decimal Contracts Numeric Db Fencing Redis Snapshot Effects Cipher Provider RefreshData Refresh RefreshStore RefreshFacts RefreshInvariant RefreshCalm.

Open Scope Z_scope.

Section claims.
  Context `{Jsonb, Codec QuotaInfo, Codec TokenBundle, Gcm, Codec Entry, Codec (list string)}.
  Context (c : Cipher) (skew : Z) (Hskew : 0 <= skew).

#[local] Instance refresh_knowledge : Monitor rE refresher := refresh_monitor c.

(** ** Executions *)

(** Any number of clients run one operation each, or as much of it as they got
    to. *)
Definition refreshers (tr : list (nat * event rE)) : Prop :=
  ∀ tid, ∃ A (m : prog rE A), operation c A m ∧ partial m (calls_of tid tr).

(** Nothing was queued yet, and no session is out. *)
Record beginning (st : rstore) : Prop := {
  bg_outbox : quota_outbox (rs_db st) = ∅;
  bg_now : 0 <= db_now (rs_db st);
  bg_locks : rs_locks st = [];
  bg_rotated : rs_rotated st = [];
  bg_queued : rs_queued st = []
}.

Abbreviation execution := (interleaved (@RefreshStore.exec _ _ _ _ skew) moves).

Definition knows (tr : list (nat * event rE)) (tid : nat) : refresher := watch (calls_of tid tr) refresher0.

Lemma clients_obey tr tid : refreshers tr → disciplined (calls_of tid tr) refresher0.
Proof.
  intros Hcl. destruct (Hcl tid) as (A & m & Hop & Hp).
  apply (partial_disciplined m (λ _ σ', rf_conn σ' = None)); [done| |done]. by apply refreshers_disciplined.
Qed.

Lemma beginning_agrees st : beginning st → agree c skew st (λ _, refresher0).
Proof.
  intros [Ho Hn _ Hr Hq]. split; [|intros i|done].
  - split; rewrite ?Ho, ?Hr, ?Hq; [by intros id row; rewrite lookup_empty|by intros * ?%elem_of_nil..].
  - split; cbn; try done; [..|lia]; by intros * ?%elem_of_nil.
Qed.

Lemma beginning_locks st : beginning st → locks_ok st (λ _, refresher0).
Proof.
  intros Hb. split; [|done..]. intros key s s'. rewrite (bg_locks _ Hb). by intros ?%elem_of_nil.
Qed.

Lemma execution_agrees st0 tr st :
  beginning st0 → refreshers tr → execution st0 tr st → agree c skew st (knows tr).
Proof.
  intros Hb Hcl Hx. apply (agree_run c skew Hskew st0 tr st (λ _, refresher0) Hx); [|by apply beginning_agrees].
  intros tid. by apply clients_obey.
Qed.

Lemma execution_locks st0 tr st : beginning st0 → refreshers tr → execution st0 tr st → locks_ok st (knows tr).
Proof.
  intros Hb Hcl Hx. apply (locks_ok_run c skew Hskew st0 tr st (λ _, refresher0) Hx); [|by apply beginning_locks].
  intros tid. by apply clients_obey.
Qed.

(** C29 No refresh loses a credential: whatever refreshers do in whatever
    interleaving, with sessions that die in mid-run, locks that are lost, calls
    that fail before or after their effect, and others that rewrite credentials
    under new epochs -- each secret a refresh writes holds what the provider
    answered when it was given the very bundle, with the account's proxy, that
    was in the secret the write replaced.  A rotation is never laid over
    another one's. *)
Theorem rotations_follow_the_provider st0 tr st w :
  beginning st0 → refreshers tr → execution st0 tr st → w ∈ rs_rotated st →
  ∃ current refreshed plaintext nonce,
    (∀ stored, sc_AccountID stored = ro_account w → sc_EncryptedSecret stored = ro_from w →
       decryptTokenBundle (Some c) stored = Ok current)
    ∧ (with_proxy (ro_proxy w) current, refreshed) ∈ rs_answers st
    ∧ marshal refreshed = Some plaintext ∧ Encrypt (Some c) (ro_account w) plaintext nonce = Ok (ro_to w).
Proof.
  intros Hb Hcl Hx Hw. destruct (da_rotated _ _ _ (ag_data _ _ _ _ (execution_agrees _ _ _ Hb Hcl Hx)) w Hw)
    as (b & refreshed & Ho & Ha & plaintext & nonce & Hm & He).
  by exists b, refreshed, plaintext, nonce.
Qed.

(** C30 A quota that was committed and queued is not lost before it is of no use: it is in the
    outbox under its epoch, or a snapshot showed it for its account, or the
    account's epoch has moved on -- whatever refreshers and reconcilers do,
    lose and fail at. *)
Theorem queued_quota_never_lost st0 tr st id e text :
  beginning st0 → refreshers tr → execution st0 tr st → (id, e, text) ∈ rs_queued st →
  (∃ row, outbox_at id e (rs_db st) = Some row ∧ ob_quota row = text)
  ∨ (∃ quota, carries text quota ∧ (id, default [] quota) ∈ rs_shown st)
  ∨ (∃ a, account_rows (rs_db st) !! id = Some a ∧ e < ac_fence_epoch a).
Proof.
  intros Hb Hcl Hx Hin. by destruct (da_queued _ _ _ (ag_data _ _ _ _ (execution_agrees _ _ _ Hb Hcl Hx)) id e text Hin) as [_ Hw].
Qed.

(** ** One run at a time *)

(** A statement of a run for account [id]. *)
Definition works_on {A} (id : string) (q : sql A) : Prop :=
  match q with
  | AcquireQ id' | ReadQ id' _ => id' = id
  | CommitQ stored _ _ | FailQ stored _ | CommitQuotaQ stored _ | QueueQuotaQ stored _ => sc_AccountID stored = id
  | _ => False
  end.

Lemma works_on_locked {A} id (q : sql A) σ : works_on id q → sql_permits c q σ → locked id σ.
Proof. destruct q; cbn; try done; [intros ->|intros ->|intros <-|intros <-|intros <-|intros <-]; tauto || (intros (? & ? & ? & ?); done). Qed.

(** A lock is kept until it is given back. *)
Lemma lock_kept l σ s key :
  disciplined l σ → rf_conn σ = Some (s, Some key) → (∀ x, Ev (UnlockE s key) x ∉ l) →
  rf_conn (watch l σ) = Some (s, Some key).
Proof.
  revert σ. induction l as [|[X e x] l IH]; intros σ; [done|]. cbn [disciplined watch]. intros [Hp Hd] Hc Hno.
  assert (∀ x', Ev (UnlockE s key) x' ∉ l) as Hno' by (intros x' Hin; apply (Hno x'); by right).
  apply IH; [done| |done]. cbn [permits next refresh_knowledge refresh_monitor] in *. rewrite r_next_conn.
  destruct e; cbn [r_permits] in Hp; try done; try congruence.
  rewrite Hc in Hp. simplify_eq. destruct (Hno x). by left.
Qed.

(** Whoever has a lock took it. *)
Lemma lock_taken l σ s key :
  rf_conn (watch l σ) = Some (s, Some key) → rf_conn σ = Some (s, Some key) ∨ Ev (TryLockE s key) (Ok true) ∈ l.
Proof.
  revert σ. induction l as [|[X e x] l IH]; intros σ; [by left|]. cbn [watch next refresh_knowledge refresh_monitor].
  intros [Hc|Hin]%IH; [|right; by right]. rewrite r_next_conn in Hc.
  destruct e; try (by left); try done; repeat case_match; simplify_eq; try (by left). right. by left.
Qed.

(** C32 Single flight: while a client holds the lock of an account nobody else runs for
    it -- draws an epoch, reads its credential, writes or fails it, writes or
    queues its quota -- unless a session that holds the lock for one of the two
    has died. *)
Theorem one_run_at_a_time st0 (tr1 tr2 : list (nat * event rE)) st (i j : nat) s key id A (q : sql A) x :
  beginning st0 → i ≠ j → key = accountLockKey id → works_on id q → (∀ y, (i, Ev (UnlockE s key) y) ∉ tr2) →
  let tr := (tr1 ++ (i, Ev (TryLockE s key) (Ok true)) :: tr2 ++ [(j, Ev (SqlE q) x)])%list in
  refreshers tr → execution st0 tr st →
  s ∈ rs_gone st ∨ ∃ s', s' ∈ rs_gone st ∧ (j, Ev (TryLockE s' key) (Ok true)) ∈ tr.
Proof.
  intros Hb Hij -> Hw Hno tr Hcl Hx. set (key := accountLockKey id) in *.
  destruct (execution_locks st0 tr st Hb Hcl Hx) as [Hex Hses Hap].
  assert (rf_conn (knows tr i) = Some (s, Some key)) as Hi.
  { pose proof (clients_obey tr i Hcl) as Hd. unfold knows, tr in *. rewrite calls_of_app, calls_of_cons, decide_True in Hd |- * by done.
    apply disciplined_app in Hd as [_ [_ Hd]]. rewrite watch_app. cbn [watch]. apply lock_kept; [exact Hd|done|]. intros y.
    rewrite elem_of_calls_of. intros [Hin|Hin]%elem_of_app; [by apply (Hno y)|].
    apply list_elem_of_singleton in Hin. by apply Hij, (f_equal fst Hin). }
  assert (∃ s', rf_conn (knows tr j) = Some (s', Some key)) as [s' Hj].
  { pose proof (clients_obey tr j Hcl) as Hd. unfold knows, tr in *. rewrite app_comm_cons, app_assoc in Hd |- *.
    rewrite calls_of_app, calls_of_cons, decide_True in Hd |- * by done. apply disciplined_app in Hd as [_ [Hp _]].
    destruct (works_on_locked id q _ Hw Hp) as [s' Hs']. exists s'. rewrite watch_app. cbn -[r_next].
    by rewrite r_next_conn. }
  destruct (Hses i s _ Hi) as [_ Hhi]. destruct (Hses j s' _ Hj) as [_ Hhj].
  destruct (Hhi key eq_refl) as [|Hli]; [by left|right]. destruct (Hhj key eq_refl) as [Hgone|Hlj].
  - exists s'. split; [done|]. destruct (lock_taken _ _ _ _ Hj) as [[=]|Hin]. by apply elem_of_calls_of.
  - exfalso. pose proof (Hex key s s' Hli Hlj) as ->.
    by apply Hij, (Hap i j s' _ _ Hi Hj).
Qed.

(** ** Deliveries *)

Lemma exec_queued X (e : rE X) x st st' : RefreshStore.exec skew e st x st' → rs_queued st ⊆ rs_queued st'.
Proof.
  intros He. destruct e; cbn in He; unfold on_session, lock_step, after_sql in He.
  all: repeat match goal with
       | He : _ ∨ _ |- _ => destruct He as [He|He]
       | He : ∃ _, _ |- _ => destruct He as [? He]
       | He : _ ∧ _ |- _ => destruct He as [? He]
       end; subst; cbn; try done; try (case_match; done).
  by apply list_subseteq_app_r.
Qed.

Lemma execution_queued st tr st' : execution st tr st' → rs_queued st ⊆ rs_queued st'.
Proof.
  induction 1 as [st|st tid X e x st1 tr st2 He Hil IH|st st1 tr st2 Hm Hil IH]; [done| |].
  - etransitivity; [by eapply exec_queued|done].
  - etransitivity; [|done]. by destruct Hm.
Qed.

(** A client that starts afresh and is left alone. *)
Lemma calm_client nonce refresh quota_of {A} (m : prog rE A) st σ tid :
  agree c skew st σ → rf_conn (σ tid) = None → operation c A m →
  rs_queued st ⊆ rs_queued (calm_run nonce refresh quota_of m st).2
  ∧ ∃ σ', agree c skew (calm_run nonce refresh quota_of m st).2 σ' ∧ rf_conn (σ' tid) = None.
Proof.
  intros Hag Hc Hop. destruct (calm_run_interleaved nonce refresh quota_of skew m tid st Hskew) as (tr & Hx & Hr).
  split; [by eapply execution_queued|].
  destruct (must_sound _ _ _ _ _ (refreshers_disciplined c A m (σ tid) Hop Hc) Hr) as [Hd Hq].
  { clear. generalize (σ tid) as σ0. induction tr as [|[X e x] tr IH]; intros σ0; [done|split; [done|apply IH]]. }
  exists (λ i, watch (calls_of i (pair tid <$> tr)) (σ i)). split.
  - apply (agree_run c skew Hskew st _ _ _ Hx); [|done]. intros i. rewrite calls_of_pair. by case_decide; subst.
  - by rewrite calls_of_pair, decide_True.
Qed.

Lemma reconcile_runs_agree nonce refresh quota_of n st σ tid :
  agree c skew st σ → rf_conn (σ tid) = None →
  rs_queued st ⊆ rs_queued (reconcile_runs nonce refresh quota_of n RedisPublishQuota st).2
  ∧ ∃ σ', agree c skew (reconcile_runs nonce refresh quota_of n RedisPublishQuota st).2 σ'.
Proof.
  revert st σ. induction n as [|n IH]; intros st σ Hag Hc; cbn [reconcile_runs]; [split; [done|by exists σ]|].
  destruct (calm_client nonce refresh quota_of (QuotaReconciler_RunOnce (Some RedisPublishQuota)) st σ tid Hag Hc)
    as (Hq & σ1 & Hag1 & Hc1); [constructor; by right|].
  destruct (calm_run _ _ _ _ st) as [errs st1]. cbn [snd] in *.
  destruct (IH st1 σ1 Hag1 Hc1) as (Hq2 & σ2 & Hag2).
  destruct (reconcile_runs _ _ _ n _ st1) as [rest st2]. cbn [snd] in *. split; [by etransitivity|by exists σ2].
Qed.

Definition decodes : Prop := ∀ (quota : QuotaInfo) payload text,
  marshal quota = Some payload → jsonb payload = Some text → is_Some (unmarshal (A := QuotaInfo) text).

(** C31 The outbox drains, when nothing stands in its way: after any execution, let
    the longest backoff (and the skew of the clocks) pass; suppose that what is
    queued can be published -- the accounts are in snapshots that load, so that
    [RedisPublishQuota] succeeds for each and leaves the others as able --, that a
    quota once encoded decodes, and that no queued account has a blank id or its
    lock held.  Then one undisturbed
    run for every hundred rows empties the outbox without an error, and every
    quota that was ever queued has been shown in a snapshot, or its account's
    epoch has moved on.  (Without these it need not: a row whose payload does not
    decode stops every claim.) *)
Theorem outbox_drains st0 tr st d n nonce refresh quota_of ready :
  beginning st0 → refreshers tr → execution st0 tr st → decodes →
  works nonce refresh quota_of RedisPublishQuota ready → Forall (ready (rs_redis st)) (parcels (rs_db st)) →
  (∀ id, is_Some (quota_outbox (rs_db st) !! id) → blank id = false ∧ unlocked (accountLockKey id) st) →
  quotaOutboxMaxBackoff + skew <= d → (size (quota_outbox (rs_db st)) <= 100 * n)%nat →
  ∃ st', reconcile_runs nonce refresh quota_of n RedisPublishQuota (with_db (later d (rs_db st)) st) = (replicate n [], st')
    ∧ quota_outbox (rs_db st') = ∅
    ∧ ∀ id e text, (id, e, text) ∈ rs_queued st →
        (∃ quota, carries text quota ∧ (id, default [] quota) ∈ rs_shown st')
        ∨ (∃ a, account_rows (rs_db st') !! id = Some a ∧ e < ac_fence_epoch a).
Proof.
  intros Hb Hcl Hx Hdec Hw Hready Hnamed Hlate Hn. pose proof (execution_agrees _ _ _ Hb Hcl Hx) as Hag.
  set (st1 := with_db _ st).
  assert (0 <= d) as Hd0 by (assert (0 <= quotaOutboxMaxBackoff) by done; lia).
  assert (moves st st1) as Hm by (apply others_write, later_moves; done).
  pose proof (agree_move c skew st st1 _ Hm Hag) as Hag1. pose proof (ag_data _ _ _ _ Hag) as Hdata.
  destruct (reconcile_runs_drain nonce refresh quota_of n RedisPublishQuota ready st1 Hw) as (st' & E & He).
  - split; [| |done].
    + intros id row Hrow. cbn in Hrow. destruct (Hnamed id) as [Hbl Hu]; [by exists row|]. split_and!; [done| |done].
      destruct (da_outbox _ _ _ Hdata id row Hrow) as [Hq _]. destruct (da_queued _ _ _ Hdata _ _ _ Hq) as [(a & Ha & _) _]. by exists a.
    + intros id row Hrow. destruct (da_outbox _ _ _ Hdata id row Hrow) as [Hq _].
      destruct (da_carries _ _ _ Hdata _ _ _ Hq) as (quota & [(payload & Hpl & Ht)|Hu]); [by eapply Hdec|by exists quota].
  - intros id row Hrow. destruct (da_outbox _ _ _ Hdata id row Hrow) as [_ [Hnext Hlock]]. unfold outbox_due. cbn.
    rewrite (proj2 (Z.leb_le _ _)) by lia. destruct (ob_locked_until row) as [u|]; [|done]. specialize (Hlock u eq_refl).
    apply Z.leb_le. assert (quotaOutboxLease <= quotaOutboxMaxBackoff) by done. lia.
  - done.
  - exists st'. split_and!; [done|done|]. intros id e text Hin.
    set (tid := base.fresh (list_to_set (fst <$> tr) : gset nat)).
    assert (rf_conn (knows tr tid) = None) as Hc.
    { unfold knows. replace (calls_of tid tr) with (@nil (event rE)); [done|]. symmetry. apply elem_of_nil_inv. intros ev.
      rewrite elem_of_calls_of. intros Hev. apply (is_fresh (list_to_set (fst <$> tr) : gset nat)), elem_of_list_to_set.
      by apply (list_elem_of_fmap_2 fst) in Hev. }
    destruct (reconcile_runs_agree nonce refresh quota_of n st1 _ tid Hag1 Hc) as (Hq & σ' & Hag').
    rewrite E in Hq, Hag'. cbn [snd] in *.
    destruct (da_queued _ _ _ (ag_data _ _ _ _ Hag') id e text) as [_ [Ho|Hwhere]]; [by apply Hq|exfalso|exact Hwhere].
    destruct Ho as (row & Hrow%outbox_at_Some & _). rewrite He in Hrow. by destruct Hrow.
Qed.
End claims.

(** ** One account *)

Module Demo.
#[local] Existing Instance Toy.gcm.

Definition remaining4 : QuotaItem := MkQuotaItem "account" "" "requests" (Some 10) (Some 4) None None None None None.
Definition quota : QuotaInfo := Some [remaining4].
Definition plain : Account :=
  MkAccount "a1" "codex" "openai" "default" zeroCredential zeroProfile (MkLimits 0 0 0 "") "active" 0 [] [] [] "".
Definition full : Account := set_quota [remaining4] plain.
Definition old : TokenBundle := MkTokenBundle "old" "r0" "" 0 [] "" "" ∅.
Definition new : TokenBundle := MkTokenBundle "new" "r1" "" 0 [] "" "" ∅.

(** Texts for the values at hand. *)
#[local] Instance json_column : Jsonb := λ s, Some s.
#[local] Instance quota_codec : Codec QuotaInfo := {|
  marshal q := if decide (q = quota) then Some "quota"%string else None;
  unmarshal s := if String.eqb s "quota" then Some quota else None
|}.
#[local] Instance bundle_codec : Codec TokenBundle := {|
  marshal b := Some (tb_AccessToken b);
  unmarshal s := if String.eqb s "old" then Some old else if String.eqb s "new" then Some new else None
|}.
#[local] Instance entry_codec : Codec Entry := {|
  marshal e := Some (match acc_Quota (en_Account e) with [] => "plain" | _ => "full" end)%string;
  unmarshal s := Some (if String.eqb s "plain" then entry_of "openai" "default" 1 plain
                       else entry_of "openai" "default" 2 full)
|}.
#[local] Instance ident_codec : Codec (list string) := {|
  marshal _ := Some "ident"%string;
  unmarshal _ := Some ["openai"; "default"]%string
|}.

Definition cipher : Cipher := MkCipher "key".
Definition secret : string := formatVersion +:+ "0123456789ab" +:+ "old" +:+ Toy.pad.
Definition keyspace1 : redis := (Publish (Some NoFault) "openai" "default" 0 [plain] 61000 (Redis ∅ 1000)).2.
Definition tables1 : db :=
  set_accounts (λ _, {[ "a1"%string := AccountRow "active" 3 "openai" None None 0 None [] "codex" "default" []
                                         (AccountSetup "" "" "" "" "" "") "[]" ]})
    (set_credentials (λ _, {[ "a1"%string := CredentialRow "oauth" secret None 1 ]}) (empty_db ∅ 1000)).
Definition start : rstore := RStore tables1 keyspace1 ∅ ∅ [] [] [] [] [] [].
Definition codex : registry := Register (MkProvider "codex" (Some "oauth"%string) "" true false false) no_providers.

(** A provider that refreshes and has a quota. *)
Abbreviation run := (calm_run (Some "0123456789ab"%string) (λ _ _, Ok new) (λ _ _, Ok quota)).

Lemma start_begins : beginning start.
Proof. split; vm_compute; done. Qed.

Definition refreshing : P TokenBundle := RefreshService_Refresh {| rs_Cipher := Some cipher; rs_Provider := None |} codex "a1".
(** The publication is left to the reconciler. *)
Definition fetching : P QuotaInfo :=
  QuotaService_Refresh {| qs_Cipher := Some cipher; qs_Provider := None; qs_outbox := true; qs_Snapshot := None |} codex "a1".

Definition refreshed : rstore := (run refreshing start).2.
Definition fetched : rstore := (run fetching start).2.

Example refreshed_once : (run refreshing start).1 = Ok new
  ∧ rs_rotated refreshed = [Rotation "a1" "" secret (formatVersion +:+ "0123456789ab" +:+ "new" +:+ Toy.pad)].
Proof. vm_compute. done. Qed.

Example fetched_once : (run fetching start).1 = Ok quota ∧ rs_queued fetched = [("a1", 4, "quota")]%string.
Proof. vm_compute. done. Qed.

(** An operation left alone is an execution of one client. *)
Lemma alone {A} (m : prog rE A) : operation cipher A m →
  ∃ tr, refreshers cipher tr ∧ interleaved (@RefreshStore.exec _ _ _ _ 0) moves start tr (run m start).2.
Proof.
  intros Hop. destruct (calm_run_interleaved (Some "0123456789ab"%string) (λ _ _, Ok new) (λ _ _, Ok quota) 0 m 0%nat start (Z.le_refl 0))
    as (tr & Hx & Hr).
  exists (pair 0%nat <$> tr). split; [|done]. intros tid. rewrite calls_of_pair. case_decide.
  - exists A, m. split; [done|by eapply runs_partial].
  - exists _, (QuotaReconciler_RunOnce None). split; [constructor; by left|done].
Qed.

Lemma rotations_follow_the_provider_witness :
  ∃ current bundle, (with_proxy "" current, bundle) ∈ rs_answers refreshed ∧ marshal bundle = Some "new"%string.
Proof.
  destruct (alone refreshing) as (tr & Hcl & Hx); [by constructor|].
  destruct (rotations_follow_the_provider cipher 0 (Z.le_refl 0) start tr refreshed
    (Rotation "a1" "" secret (formatVersion +:+ "0123456789ab" +:+ "new" +:+ Toy.pad)) start_begins Hcl Hx)
    as (current & bundle & plaintext & nonce & _ & Ha & _ & _); [vm_compute; by left|].
  assert (rs_answers refreshed = [(old, new)]) as Hans by (vm_compute; reflexivity).
  pose proof Ha as Hin. rewrite Hans in Hin. apply list_elem_of_singleton in Hin. injection Hin as _ ->.
  exists current, new. split; [exact Ha|reflexivity].
Defined.

Lemma queued_quota_never_lost_witness :
  (∃ row, outbox_at "a1" 4 (rs_db fetched) = Some row ∧ ob_quota row = "quota"%string)
  ∨ (∃ q, carries "quota" q ∧ ("a1"%string, default [] q) ∈ rs_shown fetched)
  ∨ (∃ a, account_rows (rs_db fetched) !! "a1"%string = Some a ∧ 4 < ac_fence_epoch a).
Proof.
  destruct (alone fetching) as (tr & Hcl & Hx); [constructor; [done|by left]|].
  apply (queued_quota_never_lost cipher 0 (Z.le_refl 0) start tr fetched "a1" 4 "quota" start_begins Hcl Hx).
  vm_compute. by left.
Defined.

(** ** The delivery *)

Definition keyspace2 (graceUntil : Z) : redis :=
  (Publish (Some NoFault) "openai" "default" 1 [full] graceUntil keyspace1).2.

Lemma loads1 now : Load true "openai" "default" now NoFault NoFault NoFault NoFault keyspace1 keyspace1 keyspace1 keyspace1
  = Ok (MkSnapshot "openai" "default" (BucketID "openai" "default") 1 1 (now + 120 * second) [plain]).
Proof. vm_compute. reflexivity. Qed.

Lemma publishes graceUntil :
  Publish (Some NoFault) "openai" "default" 1 [full] graceUntil keyspace1 = (Ok 2, keyspace2 graceUntil).
Proof. vm_compute. reflexivity. Qed.

Lemma loads2 now gu : let r := keyspace2 gu in Load true "openai" "default" now NoFault NoFault NoFault NoFault r r r r
  = Ok (MkSnapshot "openai" "default" (BucketID "openai" "default") 2 2 (now + 120 * second) [full]).
Proof. vm_compute. reflexivity. Qed.

Definition ready (r : redis) (i : QuotaOutboxItem) : Prop :=
  (r = keyspace1 ∨ ∃ gu, r = keyspace2 gu)
  ∧ qo_AccountID i = "a1"%string ∧ qo_Platform i = "openai"%string ∧ qo_Group i = "default"%string ∧ qo_Quota i = quota.

Lemma ready_elsewhere r r' i : (r' = keyspace1 ∨ ∃ gu, r' = keyspace2 gu) → ready r i → ready r' i.
Proof. intros Hr' [_ Hi]. by split. Qed.

#[local] Opaque keyspace1 keyspace2.

Lemma publisher_works : works (Some "0123456789ab"%string) (λ _ _, Ok new) (λ _ _, Ok quota) RedisPublishQuota ready.
Proof.
  intros st i rest (Hr & Hid & Hp & Hg & Hq) Hrest. unfold RedisPublishQuota, fenced_of. cbn [sc_Platform sc_Group sc_AccountID].
  rewrite Hid, Hp, Hg, Hq. cbn [String.eqb orb Ascii.eqb Bool.eqb]. rewrite calm_run_bind. cbn [perform calm_run answer].
  destruct Hr as [Hr|[gu Hr]]; rewrite Hr.
  - rewrite loads1. cbn [no_context fst snd sn_Accounts sn_Epoch replace_quota].
    cbn [plain acc_ID String.eqb Ascii.eqb Bool.eqb]. rewrite calm_run_bind. cbn [perform calm_run answer fst snd].
    rewrite bool_decide_false by done. rewrite calm_run_bind. cbn [perform calm_run answer fst snd with_redis log_shown rs_db rs_redis].
    rewrite Hr. change [set_quota (default [] quota) plain] with [full]. rewrite publishes. cbn [no_context fst snd calm_run].
    eexists. split; [reflexivity|]. split; [reflexivity|]. split; [by split|].
    eapply list.Forall_impl; [exact Hrest|]. intros j. apply ready_elsewhere. right. eexists. reflexivity.
  - rewrite loads2. cbn [no_context fst snd sn_Accounts sn_Epoch replace_quota].
    cbn [plain full set_quota acc_ID String.eqb Ascii.eqb Bool.eqb]. rewrite calm_run_bind. cbn [perform calm_run answer fst snd].
    rewrite bool_decide_true by done. eexists. split; [reflexivity|]. split; [reflexivity|]. split; [by split|exact Hrest].
Qed.

Lemma outbox_drains_witness :
  ∃ st', quota_outbox (rs_db st') = ∅ ∧
    ((∃ q, carries "quota" q ∧ ("a1"%string, default [] q) ∈ rs_shown st')
     ∨ (∃ a, account_rows (rs_db st') !! "a1"%string = Some a ∧ 4 < ac_fence_epoch a)).
Proof.
  destruct (alone fetching) as (tr & Hcl & Hx); [constructor; [done|by left]|].
  destruct (outbox_drains cipher 0 (Z.le_refl 0) start tr fetched quotaOutboxMaxBackoff 1
    (Some "0123456789ab"%string) (λ _ _, Ok new) (λ _ _, Ok quota) ready start_begins Hcl Hx) as (st' & _ & He & Hq).
  - intros q payload text Hm. cbn in Hm. case_decide; [|done]. injection Hm as <-. intros [= <-]. by exists quota.
  - apply publisher_works.
  - assert (rs_redis fetched = keyspace1) as -> by (vm_compute; reflexivity).
    assert (parcels (rs_db fetched) = [MkOutboxItem "a1" "openai" "default" 4 quota 1]) as -> by (vm_compute; reflexivity).
    apply list.Forall_singleton. split; [by left|done].
  - intros id. assert (quota_outbox (rs_db fetched) = {[ "a1"%string := queued_row
      (MkStored "a1" "codex" "openai" "default" "" "oauth" 4 secret) "quota" 1000 ]}) as -> by (vm_compute; reflexivity).
    intros [row [<- _]%lookup_singleton_Some]. split; [done|]. intros s.
    assert (rs_locks fetched = []) as -> by (vm_compute; reflexivity). apply not_elem_of_nil.
  - vm_compute. discriminate.
  - vm_compute. lia.
  - exists st'. split; [exact He|]. apply (Hq "a1"%string 4 "quota"%string). vm_compute. by left.
Defined.

(** ** The locks *)

Definition key : Z := accountLockKey "a1".

(** Client 0 has the lock when its session dies; client 1 gets it then. *)
Definition stolen : list (nat * event rE) :=
  [(0%nat, Ev SessionE (Ok 0%nat))] ++ (0%nat, Ev (TryLockE 0 key) (Ok true)) ::
  [(1%nat, Ev SessionE (Ok 1%nat)); (1%nat, Ev (TryLockE 1 key) (Ok true))] ++ [(1%nat, Ev (SqlE (AcquireQ "a1")) (Ok 4))].

Lemma refreshing_partial (s : nat) (tr : list (event rE)) :
  tr = [] ∨ tr = [Ev (SqlE (AcquireQ "a1")) (Ok 4)] →
  partial refreshing (Ev SessionE (Ok s) :: Ev (TryLockE s key) (Ok true) :: tr).
Proof.
  intros Htr. right. exists (Ok s), (Ev (TryLockE s key) (Ok true) :: tr). split; [done|].
  right. exists (Ok true), tr. split; [done|]. destruct Htr as [->| ->]; [by left|right].
  exists (Ok 4), []. split; [done|]. by left.
Qed.

Lemma one_run_at_a_time_witness :
  ∃ st, 0%nat ∈ rs_gone st ∨ ∃ s, s ∈ rs_gone st ∧ (1%nat, Ev (TryLockE s key) (Ok true)) ∈ stolen.
Proof.
  assert (∃ st, interleaved (@RefreshStore.exec _ _ _ _ 0) moves start stolen st) as [st Hx].
  { unfold stolen. cbn [app]. generalize key as k. intros k. eexists.
    eapply il_call; [right; exists 0%nat; split_and!; [apply not_elem_of_empty|reflexivity|reflexivity]|].
    eapply il_call; [left; split_and!; [apply not_elem_of_empty|reflexivity|reflexivity]|].
    eapply il_move; [apply (session_dies _ 0%nat)|]. eapply il_move; [apply (locks_go _ 0%nat); cbn; set_solver|].
    eapply il_call; [right; exists 1%nat; split_and!; [cbn; set_solver|reflexivity|reflexivity]|].
    eapply il_call; [left; split_and!; [cbn; set_solver|reflexivity|reflexivity]|].
    eapply il_call; [|apply il_done]. exists (Planner ∅ id), [], (Ok 4). eexists. split_and!; [|done|reflexivity].
    cbn. unfold lock_step, kill, let_go, with_sessions. cbn. reflexivity. }
  exists st. apply (one_run_at_a_time cipher 0 (Z.le_refl 0) start [(0%nat, Ev SessionE (Ok 0%nat))]
    [(1%nat, Ev SessionE (Ok 1%nat)); (1%nat, Ev (TryLockE 1 key) (Ok true))] st 0%nat 1%nat 0%nat key "a1" Z (AcquireQ "a1") (Ok 4)
    start_begins); [lia|reflexivity|reflexivity| | |exact Hx].
  - intros y [E|[E|E%elem_of_nil]%elem_of_cons]%elem_of_cons; [by apply (f_equal fst) in E..|done].
  - intros [|[|tid]].
    + exists _, refreshing. split; [by constructor|]. apply (refreshing_partial 0 []). by left.
    + exists _, refreshing. split; [by constructor|]. apply (refreshing_partial 1). by right.
    + exists _, (QuotaReconciler_RunOnce None). split; [constructor; by left|reflexivity].
Defined.
End Demo.
