(* ===== verification/WrapperQueue.v ===== *)
(** * The wrapper job queue

    internal/control/wrapper/queue.go and worker.go: control puts jobs
    (authorise or refresh an account) on a Redis stream, worker processes claim
    them under leases, execute them and record one terminal result.

    Queue and worker are programs over their Redis calls ([qE]); [exec] says
    what each call does to the store.  The stream is never trimmed, so the
    consumer group's position is the number of entries it delivered.  Every
    call may fail before or after it took effect. *)

From S2P Require Import Prelude Decimal Contracts Numeric Db Redis Snapshot Effects.

Open Scope Z_scope.

(** ** Keys and bounds *)

Definition TerminalPrefix : string := "control:wrapper:terminal:v1:".
Definition enqueuePrefix : string := "control:wrapper:enqueued:v1:".
Definition leaseIDPrefix : string := "control:wrapper:lease:id:v1:".
Definition leaseMsgPrefix : string := "control:wrapper:lease:message:v1:".
(** In seconds. *)
Definition terminalTTL : Z := 7 * 24 * 3600.
Definition maxLeaseSeconds : Z := 15 * 60.
(** In milliseconds. *)
Definition minClaimIdle : Z := 1000.

Record leasedMessage := LeasedMessage { lm_MessageID : string; lm_Lease : WrapperLease }.

Inductive terminalEnvelope :=
| Completed (completion : WrapperCompletion)
| Failed (failure : WrapperFailure).

Class WrapperWire := {
  wire_job :: Codec WrapperJob;
  wire_leased :: Codec leasedMessage;
  wire_terminal :: Codec terminalEnvelope
}.

Inductive queue_error :=
| QueueInvalid (e : contract_error)
| LeaseTooLong
| QueueEncoding
| QueueUnavailable
| QueueEmpty                  (* redis.Nil *)
| NoRandomness
| ErrLeaseLost
| ErrTerminalConflict
| EmptyJobID.

(** ** The store *)

Definition queue_message : Type := string * gmap string string.

Record queue_pending := QueuePending { qp_consumer : string; qp_delivered : Z }.

Record queue_store := QueueStore {
  qs_keys : redis;
  qs_entries : list queue_message;
  qs_delivered : option nat;                (* [None]: the group does not exist *)
  qs_pending : gmap string queue_pending;
  qs_dlq : list (string * string);
  qs_results : list (Z * string * string)   (* when, key and payload of every result written (a ghost) *)
}.

Definition with_keys (r : redis) (st : queue_store) : queue_store :=
  QueueStore r (qs_entries st) (qs_delivered st) (qs_pending st) (qs_dlq st) (qs_results st).
Definition with_stream (l : list queue_message) (st : queue_store) : queue_store :=
  QueueStore (qs_keys st) l (qs_delivered st) (qs_pending st) (qs_dlq st) (qs_results st).
Definition with_delivery (n : option nat) (p : gmap string queue_pending) (st : queue_store) : queue_store :=
  QueueStore (qs_keys st) (qs_entries st) n p (qs_dlq st) (qs_results st).
Definition with_dead (l : list (string * string)) (st : queue_store) : queue_store :=
  QueueStore (qs_keys st) (qs_entries st) (qs_delivered st) (qs_pending st) l (qs_results st).

Definition with_result (terminal payload : string) (st : queue_store) : queue_store :=
  QueueStore (qs_keys st) (qs_entries st) (qs_delivered st) (qs_pending st) (qs_dlq st)
    ((clock (qs_keys st), terminal, payload) :: qs_results st).

(** ** Calls *)

(** A reply, or an error of Redis. *)
Abbreviation reply A := (option A).

(** What an executor comes back with. *)
Inductive execution :=
| Output (encrypted : string)
| ExecutionError (code : string) (retryable : bool)
| OtherError.

Inductive qE : Type → Type :=
| NowE : qE time
| LeaseIDE : qE (option string)
| CancelledE : qE bool                                            (* ctx.Err() *)
| ExecuteE (job : WrapperJob) : qE execution
| GroupE : qE (reply unit)                                        (* BUSYGROUP is no error *)
| GetE (k : string) : qE (reply (option string))
| ExistsE (k : string) : qE (reply bool)
| SetNXE (k v : string) (seconds : Z) : qE (reply bool)
| DelE (k : string) : qE (reply unit)
| PendingE (count : nat) : qE (reply (list string))
| ClaimE (worker : string) (idle : Z) (id : string) : qE (reply (list queue_message))
| ReadGroupE (worker : string) : qE (reply (list queue_message))
| AckE (id : string) : qE (reply unit)
| DeadE (id reason : string) : qE (reply unit)
| SetBothE (k v k' v' : string) (seconds : Z) : qE (reply unit)   (* MULTI *)
| EnqueueE (key jobID payload : string) : qE (reply string)
| TerminalE (terminal lease owner : string) (payload leaseID : string) (now expires : Z) (id : string) : qE (reply Z).

(** ** What the calls do *)

Definition text_of (e : rentry) : string := reply_text (re_value e).
Definition lookup_text (st : queue_store) (k : string) : option string := text_of <$> find (qs_keys st) k.
Definition set_text (k v : string) (seconds : Z) (st : queue_store) : queue_store :=
  with_keys (put k (REntry (RStr v) (Some (clock (qs_keys st) + 1000 * seconds))) (qs_keys st)) st.
Definition del_key (k : string) (st : queue_store) : queue_store := with_keys (drop k (qs_keys st)) st.

Definition ack (id : string) (st : queue_store) : queue_store :=
  with_delivery (qs_delivered st) (delete id (qs_pending st)) st.

(** Pending ids in the order of the stream. *)
Definition pending_in_order (st : queue_store) : list string :=
  filter (λ id, is_Some (qs_pending st !! id)) (fst <$> qs_entries st).

Definition stream_entry (st : queue_store) (id : string) : option queue_message :=
  snd <$> list_find (λ m, m.1 = id) (qs_entries st).

Definition claim_entry (worker : string) (idle : Z) (id : string) (st : queue_store)
    : list queue_message * queue_store :=
  match qs_pending st !! id, stream_entry st id with
  | Some p, Some m =>
      if idle <=? clock (qs_keys st) - qp_delivered p
      then ([m], with_delivery (qs_delivered st) (<[id := QueuePending worker (clock (qs_keys st))]> (qs_pending st)) st)
      else ([], st)
  | _, _ => ([], st)
  end.

Definition read_group (worker : string) (st : queue_store) : list queue_message * queue_store :=
  match qs_delivered st with
  | None => ([], st)
  | Some n => match qs_entries st !! n with
              | None => ([], st)
              | Some m => ([m], with_delivery (Some (S n))
                                  (<[m.1 := QueuePending worker (clock (qs_keys st))]> (qs_pending st)) st)
              end
  end.

Definition enqueue_script (key jobID payload id : string) (st : queue_store) : string * queue_store :=
  match lookup_text st key with
  | Some existing => (existing, st)
  | None => (id, set_text key id terminalTTL
                   (with_stream (qs_entries st ++ [(id, <["job_id" := jobID]> (<["payload" := payload]> ∅))]) st))
  end%string.

Definition terminal_script (terminal lease owner payload leaseID : string) (now expires : Z) (id : string)
    (st : queue_store) : Z * queue_store :=
  match lookup_text st terminal with
  | Some existing => if String.eqb existing payload then (1, st) else (-2, st)
  | None =>
      if expires <=? now then (-1, st)
      else if negb (bool_decide (is_Some (lookup_text st lease))) then (-1, st)
      else if negb (bool_decide (lookup_text st owner = Some leaseID)) then (-1, st)
      else (0, del_key owner (del_key lease (ack id (with_result terminal payload (set_text terminal payload terminalTTL st)))))
  end.

(** A call goes through, or fails with or without its effect. *)
Definition does {A} (m : queue_store → A * queue_store) (st : queue_store) (x : reply A) (st' : queue_store) : Prop :=
  (x = Some (m st).1 ∧ st' = (m st).2) ∨ (x = None ∧ (st' = st ∨ st' = (m st).2)).

(** A read, or an answer from outside. *)
Definition reads {A} (f : queue_store → A) : queue_store → reply A → queue_store → Prop := does (λ st, (f st, st)).

(** The group's commands fail while it does not exist. *)
Definition grouped {A} (m : queue_store → A * queue_store) (st : queue_store) (x : reply A) (st' : queue_store) : Prop :=
  match qs_delivered st with
  | None => x = None ∧ st' = st
  | Some _ => does m st x st'
  end.

(** XADD's id is new. *)
Definition exec {X} (e : qE X) : queue_store → X → queue_store → Prop :=
  match e in qE X return queue_store → X → queue_store → Prop with
  | NowE | LeaseIDE | CancelledE | ExecuteE _ => λ st _ st', st' = st
  | GroupE => does (λ st, (tt, match qs_delivered st with Some _ => st | None => with_delivery (Some 0%nat) ∅ st end))
  | GetE k => reads (λ st, lookup_text st k)
  | ExistsE k => reads (λ st, bool_decide (is_Some (lookup_text st k)))
  | SetNXE k v seconds => does (λ st, match lookup_text st k with Some _ => (false, st) | None => (true, set_text k v seconds st) end)
  | DelE k => does (λ st, (tt, del_key k st))
  | PendingE count => grouped (λ st, (take count (pending_in_order st), st))
  | ClaimE worker idle id => grouped (claim_entry worker idle id)
  | ReadGroupE worker => grouped (read_group worker)
  | AckE id => does (λ st, (tt, ack id st))
  | DeadE id reason => does (λ st, (tt, with_dead (qs_dlq st ++ [(id, reason)]) st))
  | SetBothE k v k' v' seconds => does (λ st, (tt, set_text k' v' seconds (set_text k v seconds st)))
  | EnqueueE key jobID payload => λ st x st', ∃ id, (id ∉ (fst <$> qs_entries st)) ∧ does (enqueue_script key jobID payload id) st x st'
  | TerminalE terminal lease owner payload leaseID now expires id =>
      does (terminal_script terminal lease owner payload leaseID now expires id)
  end.

(** ** The queue *)

Abbreviation Q := (prog qE).

(** [v, err := call]: an error of Redis is returned. *)
Definition try_ {A B} (e : qE (reply A)) (k : A → Q (result queue_error B)) : Q (result queue_error B) :=
  r ← perform e;
  match r with None => mret (Err QueueUnavailable) | Some a => k a end.

Definition unix_milli_of (t : time) : Z := Z.div t 1000000 - 62135596800000.

Section queue.
  Context `{WrapperWire}.

Definition Enqueue (client : bool) (job : WrapperJob) : Q (result queue_error string) :=
  if negb client then mret (Err QueueUnavailable)
  else match WrapperJob_Validate job with
  | Err e => mret (Err (QueueInvalid e))
  | Ok _ =>
      match marshal job with
      | None => mret (Err QueueEncoding)
      | Some payload =>
          try_ (EnqueueE (enqueuePrefix +:+ wj_JobID job) (wj_JobID job) payload) (λ id, mret (Ok id))
      end
  end.

(** Why a message is no job; the texts of the errors are not modelled. *)
Definition decodeJob (message : queue_message) : option WrapperJob :=
  match message.2 !! "payload"%string ≫= unmarshal with
  | None => None
  | Some job =>
      if negb (is_ok (WrapperJob_Validate job)) then None
      else if negb (String.eqb (default "<nil>"%string (message.2 !! "job_id"%string)) (wj_JobID job)) then None
      else Some job
  end.

(** The marker of a worker that is about to claim; dropped when it did not. *)
Definition claim_marker (workerID : string) : string := "claiming:" +:+ workerID.

Definition drop_marker (workerID id : string) : Q unit :=
  current ← perform (GetE (leaseMsgPrefix +:+ id));
  match current with
  | Some (Some v) => if String.eqb v (claim_marker workerID)
                     then _ ← perform (DelE (leaseMsgPrefix +:+ id)); mret tt else mret tt
  | _ => mret tt
  end.

(** The loop of [nextMessage] over the pending ids. *)
Fixpoint claim_pending (workerID : string) (seconds : Z) (ids : list string)
    : Q (result queue_error (option queue_message)) :=
  match ids with
  | [] => mret (Ok None)
  | id :: ids =>
      try_ (ExistsE (leaseMsgPrefix +:+ id)) (λ exists_,
      if exists_ : bool then claim_pending workerID seconds ids
      else
      try_ (SetNXE (leaseMsgPrefix +:+ id) (claim_marker workerID) seconds) (λ acquired,
      if negb acquired then claim_pending workerID seconds ids
      else
      claimed ← perform (ClaimE workerID minClaimIdle id);
      match claimed with
      | None => _ ← drop_marker workerID id; mret (Err QueueUnavailable)
      | Some [m] => mret (Ok (Some m))
      | Some _ => _ ← drop_marker workerID id; claim_pending workerID seconds ids
      end))
  end.

Definition nextMessage (workerID : string) (seconds : Z) : Q (result queue_error (option queue_message)) :=
  try_ (PendingE 32) (λ ids,
  r ← claim_pending workerID seconds ids;
  match r with
  | Err e => mret (Err e)
  | Ok (Some m) => mret (Ok (Some m))
  | Ok None =>
      try_ (ReadGroupE workerID) (λ messages,
      match messages with
      | [] => mret (Ok None)
      | m :: _ =>
          try_ (SetNXE (leaseMsgPrefix +:+ m.1) (claim_marker workerID) seconds) (λ acquired,
          mret (Ok (if acquired : bool then Some m else None)))
      end)
  end).

Definition queueDeadLetter (message : queue_message) : Q (result queue_error unit) :=
  try_ (DeadE message.1 "invalid") (λ _, try_ (AckE message.1) (λ _, mret (Ok tt))).

(** One turn of [Claim]: [None] goes on to the next message. *)
Definition claim_turn (claim : WrapperClaim) : Q (result queue_error (option (WrapperJob * WrapperLease))) :=
  next_ ← nextMessage (wc_WorkerID claim) (wc_LeaseTTLSeconds claim);
  match next_ with
  | Err e => mret (Err e)
  | Ok None => mret (Err QueueEmpty)
  | Ok (Some message) =>
      match decodeJob message with
      | None =>
          dead ← queueDeadLetter message;
          mret (match dead with Err e => Err e | Ok _ => Ok None end)
      | Some job =>
          try_ (ExistsE (TerminalPrefix +:+ wj_JobID job)) (λ done_,
          if done_ : bool then try_ (AckE message.1) (λ _, mret (Ok None))
          else
          leaseID ← perform LeaseIDE;
          match leaseID with
          | None => mret (Err NoRandomness)
          | Some leaseID =>
              now ← perform NowE;
              let lease := {| wl_SchemaVersion := SchemaVersion; wl_JobID := wj_JobID job; wl_LeaseID := leaseID;
                              wl_WorkerID := wc_WorkerID claim; wl_AccountID := wj_AccountID job;
                              wl_FenceEpoch := wj_FenceEpoch job;
                              wl_ExpiresAt := now + wc_LeaseTTLSeconds claim * second |} in
              match marshal (LeasedMessage message.1 lease) with
              | None => mret (Err QueueEncoding)
              | Some record =>
                  try_ (SetBothE (leaseIDPrefix +:+ leaseID) record (leaseMsgPrefix +:+ message.1) leaseID
                          (wc_LeaseTTLSeconds claim)) (λ _, mret (Ok (Some (job, lease))))
              end
          end)
      end
  end.

Fixpoint claim_loop (turns : nat) (claim : WrapperClaim) : Q (result queue_error (WrapperJob * WrapperLease)) :=
  match turns with
  | O => mret (Err QueueEmpty)
  | S turns =>
      r ← claim_turn claim;
      match r with
      | Err e => mret (Err e)
      | Ok (Some leased) => mret (Ok leased)
      | Ok None => claim_loop turns claim
      end
  end.

Definition Claim (client : bool) (claim : WrapperClaim) : Q (result queue_error (WrapperJob * WrapperLease)) :=
  if negb client then mret (Err QueueUnavailable)
  else match WrapperClaim_Validate claim with
  | Err e => mret (Err (QueueInvalid e))
  | Ok _ =>
      if maxLeaseSeconds <? wc_LeaseTTLSeconds claim then mret (Err LeaseTooLong)
      else try_ GroupE (λ _, claim_loop 32 claim)
  end.

Definition sameLease (a b : WrapperLease) : bool :=
  (wl_SchemaVersion a =? wl_SchemaVersion b) && String.eqb (wl_JobID a) (wl_JobID b)
  && String.eqb (wl_LeaseID a) (wl_LeaseID b) && String.eqb (wl_WorkerID a) (wl_WorkerID b)
  && String.eqb (wl_AccountID a) (wl_AccountID b) && (wl_FenceEpoch a =? wl_FenceEpoch b)
  && (wl_ExpiresAt a =? wl_ExpiresAt b).

(** From the lease's record on; [existing] tells whether a result was read. *)
Definition terminal_owned (lease : WrapperLease) (payload : string) (existing : bool) : Q (result queue_error unit) :=
  now ← perform NowE;
  if negb (before now (wl_ExpiresAt lease)) then mret (Err ErrLeaseLost)
  else
  try_ (GetE (leaseIDPrefix +:+ wl_LeaseID lease)) (λ recordRaw,
  match recordRaw with
  | None => mret (if existing : bool then Ok tt else Err ErrLeaseLost)
  | Some raw =>
      match unmarshal raw with
      | None => mret (Err ErrLeaseLost)
      | Some record =>
          if negb (sameLease (lm_Lease record) lease) then mret (Err ErrLeaseLost)
          else
          owner ← perform (GetE (leaseMsgPrefix +:+ lm_MessageID record));
          match owner with
          | Some (Some v) =>
              if negb (String.eqb v (wl_LeaseID lease)) then mret (Err ErrLeaseLost)
              else
              now ← perform NowE;
              try_ (TerminalE (TerminalPrefix +:+ wl_JobID lease) (leaseIDPrefix +:+ wl_LeaseID lease)
                      (leaseMsgPrefix +:+ lm_MessageID record) payload (wl_LeaseID lease) (unix_milli_of now)
                      (unix_milli_of (wl_ExpiresAt lease)) (lm_MessageID record)) (λ code,
              mret (if (code =? 0) || (code =? 1) then Ok tt
                    else if code =? -2 then Err ErrTerminalConflict else Err ErrLeaseLost))
          | _ => mret (Err ErrLeaseLost)
          end
      end
  end).

Definition terminal (client : bool) (lease : WrapperLease) (envelope : terminalEnvelope) : Q (result queue_error unit) :=
  if negb client then mret (Err QueueUnavailable)
  else match WrapperLease_Validate lease with
  | Err e => mret (Err (QueueInvalid e))
  | Ok _ =>
      match marshal envelope with
      | None => mret (Err QueueEncoding)
      | Some payload =>
          try_ (GetE (TerminalPrefix +:+ wl_JobID lease)) (λ existing,
          match existing with
          | Some v =>
              if negb (String.eqb v payload) then mret (Err ErrTerminalConflict)
              else
              now ← perform NowE;
              if negb (before now (wl_ExpiresAt lease)) then mret (Ok tt)
              else terminal_owned lease payload (negb (String.eqb v ""))
          | None => terminal_owned lease payload false
          end)
      end
  end.

Definition Complete (client : bool) (lease : WrapperLease) (completion : WrapperCompletion) : Q (result queue_error unit) :=
  match WrapperCompletion_ValidateLease completion lease with
  | Err e => mret (Err (QueueInvalid e))
  | Ok _ => terminal client lease (Completed completion)
  end.

Definition Fail (client : bool) (lease : WrapperLease) (failure : WrapperFailure) : Q (result queue_error unit) :=
  match WrapperFailure_ValidateLease failure lease with
  | Err e => mret (Err (QueueInvalid e))
  | Ok _ => terminal client lease (Failed failure)
  end.

Definition Terminal (client : bool) (jobID : string) : Q (result queue_error string) :=
  if negb client || blank jobID then mret (Err EmptyJobID)
  else try_ (GetE (TerminalPrefix +:+ jobID)) (λ v, mret (match v with Some s => Ok s | None => Err QueueEmpty end)).
End queue.

(** ** The worker *)

Record Worker := { wk_WorkerID : string; wk_LeaseTTLSeconds : Z }.

Inductive worker_error :=
| WorkerNoRedis
| WorkerNoID
| WorkerBadTTL
| WorkerNoExecutor
| WorkerClaim (e : queue_error)
| WorkerFail (e : queue_error)
| WorkerComplete (e : queue_error).

Definition classifyExecutionError (e : execution) : string * bool :=
  match e with
  | ExecutionError code retryable =>
      if negb (blank code) && (str_len code <=? 128) then (code, retryable) else ("executor_failed"%string, true)
  | _ => ("executor_failed"%string, true)
  end.

(** What a turn of the worker's loop comes to: another turn, at once or after
    the poll interval, or the end of [Run]. *)
Inductive turn := Again | Poll | Quit (e : option worker_error).

Section worker.
  Context `{WrapperWire}.

Definition failure_of (job : WrapperJob) (lease : WrapperLease) (code : string) (retryable : bool) : WrapperFailure :=
  {| wf_SchemaVersion := SchemaVersion; wf_JobID := wj_JobID job; wf_LeaseID := wl_LeaseID lease;
     wf_WorkerID := wl_WorkerID lease; wf_AccountID := wl_AccountID lease; wf_FenceEpoch := wl_FenceEpoch lease;
     wf_Code := code; wf_Retryable := retryable |}.

Definition completion_of (job : WrapperJob) (lease : WrapperLease) (output : string) : WrapperCompletion :=
  {| wcp_SchemaVersion := SchemaVersion; wcp_JobID := wj_JobID job; wcp_LeaseID := wl_LeaseID lease;
     wcp_WorkerID := wl_WorkerID lease; wcp_AccountID := wl_AccountID lease; wcp_FenceEpoch := wl_FenceEpoch lease;
     wcp_EncryptedOutput := output |}.

(** The result could not be written: a lost lease, or a cancelled context, ends
    [Run] quietly. *)
Definition unwritten (e : queue_error) (wrap : queue_error → worker_error) : Q turn :=
  cancelled ← perform CancelledE;
  mret (Quit (if cancelled : bool then None
              else match e with ErrLeaseLost => None | _ => Some (wrap e) end)).

Definition run_job (job : WrapperJob) (lease : WrapperLease) : Q turn :=
  result_ ← perform (ExecuteE job);
  cancelled ← perform CancelledE;
  if cancelled : bool then mret (Quit None)
  else
  match result_ with
  | Output output =>
      done_ ← Complete true lease (completion_of job lease output);
      match done_ with Ok _ => mret Again | Err e => unwritten e WorkerComplete end
  | _ =>
      let '(code, retryable) := classifyExecutionError result_ in
      done_ ← Fail true lease (failure_of job lease code retryable);
      match done_ with Ok _ => mret Again | Err e => unwritten e WorkerFail end
  end.

Definition work_once (w : Worker) : Q turn :=
  cancelled ← perform CancelledE;
  if cancelled : bool then mret (Quit None)
  else
  claimed ← Claim true {| wc_SchemaVersion := SchemaVersion; wc_WorkerID := wk_WorkerID w;
                          wc_LeaseTTLSeconds := wk_LeaseTTLSeconds w |};
  match claimed with
  | Err QueueEmpty => mret Poll
  | Err e =>
      cancelled ← perform CancelledE;
      mret (Quit (if cancelled : bool then None else Some (WorkerClaim e)))
  | Ok (job, lease) => run_job job lease
  end.

(** [Run], for [turns] turns of its loop; a cancelled context shows in the next. *)
Fixpoint work (turns : nat) (w : Worker) : Q (option worker_error) :=
  match turns with
  | O => mret None
  | S turns =>
      t ← work_once w;
      match t with
      | Quit e => mret e
      | Again | Poll => work turns w
      end
  end.

Definition Worker_Run (client executor : bool) (turns : nat) (w : Worker) : Q (option worker_error) :=
  if negb client then mret (Some WorkerNoRedis)
  else if String.eqb (wk_WorkerID w) "" then mret (Some WorkerNoID)
  else if wk_LeaseTTLSeconds w <=? 0 then mret (Some WorkerBadTTL)
  else if negb executor then mret (Some WorkerNoExecutor)
  else work turns w.
End worker.
