(* ===== verification/QueueFacts.v ===== *)
(** * The wrapper queue loses no job and decides each once

    Any number of clients and workers, stopped wherever they are, interleaved
    call by call over one store, with calls that fail before or after they took
    effect.  The monitor says what a client may do given what it has seen; every
    operation of WrapperQueue.v obeys it, and stores on which only such clients
    act keep [queue_ok]. *)

From S2P Require Import Prelude Decimal Contracts Numeric Db Redis Snapshot Effects WrapperQueue.

Open Scope Z_scope.

(** ** What a client knows and may do *)

Record client := Client {
  ct_msgs : list queue_message;                (* messages Redis handed to it *)
  ct_settled : gset string;                    (* ids it knows need no worker any more *)
  ct_records : list (string * leasedMessage);  (* what it read under which key *)
  ct_results : list (string * string)          (* results it saw or wrote *)
}.
Definition client0 : client := Client [] ∅ [] [].

(** Time passes. *)
Definition ticks (st st' : queue_store) : Prop := ∃ d, st' = with_keys (elapse d (qs_keys st)) st.

Abbreviation interleaving := (interleaved (@exec) ticks).

Section queue.
  Context `{WrapperWire}.

Definition settles (k : string) (m : queue_message) : bool :=
  match decodeJob m with Some job => bool_decide (k = TerminalPrefix +:+ wj_JobID job) | None => false end.

Definition q_next {X} (e : qE X) : X → client → client :=
  match e in qE X return X → client → client with
  | ClaimE _ _ _ | ReadGroupE _ => λ r σ,
      Client (default [] r ++ ct_msgs σ) (ct_settled σ) (ct_records σ) (ct_results σ)
  | ExistsE k => λ r σ,
      match r with
      | Some true => Client (ct_msgs σ) (list_to_set (fst <$> filter (λ m, settles k m = true) (ct_msgs σ)) ∪ ct_settled σ)
                       (ct_records σ) (ct_results σ)
      | _ => σ
      end
  | DeadE id _ => λ r σ,
      match r with Some _ => Client (ct_msgs σ) ({[ id ]} ∪ ct_settled σ) (ct_records σ) (ct_results σ) | None => σ end
  | GetE k => λ r σ,
      match r with
      | Some (Some raw) => Client (ct_msgs σ) (ct_settled σ)
                             (match unmarshal raw with Some record => [(k, record)] | None => [] end ++ ct_records σ)
                             ((k, raw) :: ct_results σ)
      | _ => σ
      end
  | TerminalE terminal _ _ payload _ _ _ _ => λ r σ,
      match r with
      | Some code => if (code =? 0) || (code =? 1)
                     then Client (ct_msgs σ) (ct_settled σ) (ct_records σ) ((terminal, payload) :: ct_results σ) else σ
      | None => σ
      end
  | _ => λ _ σ, σ
  end.

(** Acknowledge only what needs no worker, dead-letter only what is no job,
    lease a job under its own message, and write a result for the job whose
    lease record was read. *)
Definition q_permits {X} (e : qE X) (σ : client) : Prop :=
  match e with
  | AckE id => id ∈ ct_settled σ
  | DeadE id _ => ∃ m, m ∈ ct_msgs σ ∧ m.1 = id ∧ decodeJob m = None
  | DelE k | SetNXE k _ _ => ∃ id, k = leaseMsgPrefix +:+ id
  | SetBothE k v k' _ _ => ∃ leaseID m job lease, k = leaseIDPrefix +:+ leaseID ∧ k' = leaseMsgPrefix +:+ m.1
      ∧ m ∈ ct_msgs σ ∧ decodeJob m = Some job ∧ wl_JobID lease = wj_JobID job
      ∧ marshal (LeasedMessage m.1 lease) = Some v
  | EnqueueE key _ _ => ∃ jobID, key = enqueuePrefix +:+ jobID
  | TerminalE terminal lease owner _ leaseID _ _ id => ∃ record,
      lease = leaseIDPrefix +:+ leaseID ∧ owner = leaseMsgPrefix +:+ id
      ∧ (lease, record) ∈ ct_records σ ∧ lm_MessageID record = id
      ∧ terminal = TerminalPrefix +:+ wl_JobID (lm_Lease record)
  | _ => True
  end.

#[export] Instance queue_monitor : Monitor qE client :=
  {| permits := @q_permits; next := @q_next; answers := λ _ _ _ _, True |}.

Lemma must_call {X} (e : qE X) Q σ : q_permits e σ → (∀ x, Q x (q_next e x σ)) → must (perform e) Q σ.
Proof. intros Hp HQ. apply must_perform; [done|]. by intros x _. Qed.

Lemma must_try {A B} (e : qE (reply A)) (k : A → WrapperQueue.Q (result queue_error B)) Q σ :
  q_permits e σ → Q (Err QueueUnavailable) (q_next e None σ) →
  (∀ a, must (k a) Q (q_next e (Some a) σ)) → must (try_ e k) Q σ.
Proof.
  intros Hp HN HS. unfold try_. apply must_bind, must_call; [done|]. intros [a|]; [apply HS|by apply must_ret].
Qed.

(** Knowledge only grows. *)
Record learns (σ σ' : client) : Prop := {
  le_msgs : ct_msgs σ ⊆ ct_msgs σ';
  le_settled : ct_settled σ ⊆ ct_settled σ';
  le_results : ct_results σ ⊆ ct_results σ'
}.

#[export] Instance learns_preorder : PreOrder learns.
Proof. split; [by intros σ|]. intros σ1 σ2 σ3 [] []. split; set_solver. Qed.

Lemma learns_next {X} (e : qE X) x σ : learns σ (q_next e x σ).
Proof. destruct e; cbn [q_next]; repeat case_match; split; cbn; set_solver. Qed.
(** ** Every operation obeys the monitor *)

Lemma must_drop_marker workerID id Q σ :
  (∀ σ', learns σ σ' → Q tt σ') → must (drop_marker workerID id) Q σ.
Proof.
  intros HQ. unfold drop_marker. apply must_bind, must_call; [done|]. intros current.
  assert (∀ σ', learns σ σ' → must (mret tt) Q σ') as Hret by (intros; by apply must_ret, HQ).
  destruct current as [[v|]|]; [|apply Hret, learns_next..].
  case_if_goal; [|apply Hret, learns_next].
  apply must_bind, must_call; [by exists id|]. intros r. apply Hret.
  etransitivity; [|apply learns_next]. apply learns_next.
Qed.

Lemma must_claim_pending workerID seconds ids Q σ :
  (∀ r σ', learns σ σ' → (∀ m, r = Ok (Some m) → m ∈ ct_msgs σ') → Q r σ') →
  must (claim_pending workerID seconds ids) Q σ.
Proof.
  revert Q σ. induction ids as [|id ids IH]; intros Q σ HQ; cbn [claim_pending].
  { apply must_ret, HQ; [done|]. discriminate. }
  assert (∀ σ', learns σ σ' → must (claim_pending workerID seconds ids) Q σ') as Hgo.
  { intros σ' Hl. apply IH. intros r σ'' Hl' Hm. apply HQ; [by transitivity σ'|done]. }
  assert (∀ σ' e, learns σ σ' → Q (Err e) σ') as Hfail by (intros; by apply HQ).
  apply must_try; [done|apply Hfail, learns_next|]. intros [|]; [apply Hgo, learns_next|].
  set (σ1 := q_next _ _ σ). assert (learns σ σ1) as H1 by apply learns_next.
  apply must_try; [by exists id|apply Hfail; etransitivity; [exact H1|apply learns_next]|].
  intros [|]; cbn [negb]; [|apply Hgo; etransitivity; [exact H1|apply learns_next]].
  set (σ2 := q_next _ _ σ1). assert (learns σ σ2) as H2 by (etransitivity; [exact H1|apply learns_next]).
  apply must_bind, must_call; [done|]. intros claimed.
  set (σ3 := q_next _ _ σ2). assert (learns σ σ3) as H3 by (etransitivity; [exact H2|apply learns_next]).
  assert (∀ k, (∀ σ', learns σ σ' → must k Q σ') → must (_ ← drop_marker workerID id; k) Q σ3) as Hdrop.
  { intros k Hk. apply must_bind, must_drop_marker. intros σ' Hl. apply Hk. by transitivity σ3. }
  destruct claimed as [[|m [|]]|].
  - apply Hdrop, Hgo.
  - apply must_ret, HQ; [done|]. intros ? [= <-]. cbn. by left.
  - apply Hdrop, Hgo.
  - apply Hdrop. intros σ' Hl. by apply must_ret, Hfail.
Qed.

Lemma must_nextMessage workerID seconds Q σ :
  (∀ r σ', learns σ σ' → (∀ m, r = Ok (Some m) → m ∈ ct_msgs σ') → Q r σ') →
  must (nextMessage workerID seconds) Q σ.
Proof.
  intros HQ. unfold nextMessage.
  assert (∀ σ' e, learns σ σ' → Q (Err e) σ') as Hfail by (intros; by apply HQ).
  apply must_try; [done|by apply Hfail|]. intros ids. cbn [q_next].
  apply must_bind, must_claim_pending. intros r σ1 H1 Hm.
  destruct r as [[m|]|e]; [| |by apply must_ret, Hfail].
  { apply must_ret, HQ; [done|]. intros ? [= <-]. by apply Hm. }
  apply must_try; [done|apply Hfail; etransitivity; [exact H1|apply learns_next]|].
  intros messages. set (σ2 := q_next _ _ σ1). assert (learns σ σ2) as H2 by (etransitivity; [exact H1|apply learns_next]).
  destruct messages as [|m rest]; [by apply must_ret, HQ|].
  apply must_try; [by exists m.1|by apply Hfail|]. intros acquired. apply must_ret, HQ; [done|].
  destruct acquired; [|done]. intros ? [= <-]. cbn. by left.
Qed.

Lemma must_claim_turn claim σ : must (claim_turn claim) (λ r σ', True) σ.
Proof.
  unfold claim_turn. apply must_bind, must_nextMessage. intros r σ1 H1 Hm.
  destruct r as [[m|]|e]; [|by apply must_ret..].
  specialize (Hm m eq_refl). destruct (decodeJob m) as [job|] eqn:Ej.
  - apply must_try; [done|done|]. intros [|].
    + apply must_try; [|done|by intros; apply must_ret]. cbn. apply elem_of_union_l, elem_of_list_to_set, list_elem_of_fmap.
      exists m. split; [done|]. apply list_elem_of_filter. split; [|done]. unfold settles. rewrite Ej. by apply bool_decide_eq_true.
    + apply must_bind, must_call; [done|]. intros [leaseID|]; [|by apply must_ret].
      apply must_bind, must_call; [done|]. intros now. cbv zeta.
      destruct (marshal _) as [record|] eqn:Er; [|by apply must_ret].
      apply must_try; [|done|by intros; apply must_ret]. cbn. eexists leaseID, m, job, _.
      split_and!; [done|done|done|done| |exact Er]. done.
  - apply must_bind. unfold queueDeadLetter.
    apply must_try; [by exists m|by apply must_ret|]. intros u.
    apply must_try; [cbn; set_solver|by apply must_ret|]. intros u'. by repeat apply must_ret.
Qed.

Lemma must_Claim connected claim σ : must (Claim connected claim) (λ _ _, True) σ.
Proof.
  unfold Claim. repeat case_match; try (by apply must_ret). apply must_try; [done|done|]. intros u.
  generalize 32%nat as turns. intros turns. generalize (q_next GroupE (Some u) σ) as σ'.
  induction turns as [|turns IH]; intros σ'; cbn [claim_loop]; [done|].
  apply must_bind. eapply must_mono; [apply must_claim_turn|]. intros [[|]|] σ'' _; [done|apply IH|done].
Qed.

(** A result that was accepted was seen, or written. *)
Definition accepted (lease : WrapperLease) (payload : string) (r : result queue_error unit) (σ : client) : Prop :=
  r = Ok tt → (TerminalPrefix +:+ wl_JobID lease, payload) ∈ ct_results σ.

Lemma must_terminal_owned lease payload existing σ :
  (existing = true → (TerminalPrefix +:+ wl_JobID lease, payload) ∈ ct_results σ) →
  must (terminal_owned lease payload existing) (accepted lease payload) σ.
Proof.
  intros Hex. unfold terminal_owned. apply must_bind, must_call; [done|]. intros now. case_if_goal; [done|].
  apply must_try; [done|done|]. intros [raw|]; [|apply must_ret; destruct existing; [intros _; by apply Hex|done]].
  destruct (unmarshal raw) as [record|] eqn:Er; [|done].
  destruct (sameLease (lm_Lease record) lease) eqn:Es; cbn [negb]; [|done].
  assert (wl_JobID lease = wl_JobID (lm_Lease record)) as Hjob.
  { unfold sameLease in Es. repeat (apply andb_true_iff in Es as [Es ?]). symmetry. by apply String.eqb_eq. }
  apply must_bind, must_call; [done|]. intros [[v|]|]; [|done..]. case_if_goal; [done|].
  apply must_bind, must_call; [done|]. intros now'. apply must_try; [|done|].
  - cbn [q_permits]. exists record. split_and!; [done|done| |done|by rewrite Hjob].
    cbn [q_next ct_records]. rewrite Er. apply elem_of_app. right. by left.
  - intros code. apply must_ret. unfold accepted. cbn [q_next].
    destruct ((code =? 0) || (code =? 1)); [by left|by case_if_goal].
Qed.

Lemma must_terminal connected lease envelope σ :
  must (terminal connected lease envelope)
    (λ r σ', r = Ok tt → ∃ payload, marshal envelope = Some payload ∧
                         (TerminalPrefix +:+ wl_JobID lease, payload) ∈ ct_results σ') σ.
Proof.
  unfold terminal. destruct connected; [|done]. cbn [negb].
  destruct (WrapperLease_Validate lease); [|done]. destruct (marshal envelope) as [payload|]; [|done].
  assert (∀ ex σ, (ex = true → (TerminalPrefix +:+ wl_JobID lease, payload) ∈ ct_results σ) →
    must (terminal_owned lease payload ex) (λ r σ', r = Ok tt → ∃ payload', Some payload = Some payload' ∧
                         (TerminalPrefix +:+ wl_JobID lease, payload') ∈ ct_results σ') σ) as Howned.
  { intros ex σ' Hex. eapply must_mono; [by apply must_terminal_owned|]. intros r σ'' Hacc Hr. exists payload. eauto. }
  apply must_try; [done|done|]. intros [v|]; [|by apply Howned].
  destruct (String.eqb_spec v payload) as [->|]; cbn [negb]; [|done].
  apply must_bind, must_call; [done|]. intros now. case_if_goal; [|apply Howned; intros _; by left].
  apply must_ret. intros _. exists payload. split; [done|]. by left.
Qed.

(** The calls clients make. *)
Inductive operation : ∀ A, WrapperQueue.Q A → Prop :=
| op_enqueue connected job : operation _ (Enqueue connected job)
| op_claim connected claim : operation _ (Claim connected claim)
| op_complete connected lease completion : operation _ (Complete connected lease completion)
| op_fail connected lease failure : operation _ (Fail connected lease failure)
| op_terminal connected jobID : operation _ (Terminal connected jobID)
| op_work connected executor turns w : operation _ (Worker_Run connected executor turns w).

(** A verdict of a worker on the job it leased. *)
Inductive verdict (lease : WrapperLease) : terminalEnvelope → WrapperQueue.Q (result queue_error unit) → Prop :=
| verdict_complete connected completion : verdict lease (Completed completion) (Complete connected lease completion)
| verdict_fail connected failure : verdict lease (Failed failure) (Fail connected lease failure).

Lemma must_verdict lease envelope m σ :
  verdict lease envelope m →
  must m (λ r σ', r = Ok tt → ∃ payload, marshal envelope = Some payload ∧
                  (TerminalPrefix +:+ wl_JobID lease, payload) ∈ ct_results σ') σ.
Proof.
  intros [connected completion|connected failure]; [unfold Complete|unfold Fail];
    (case_match; [apply must_terminal|done]).
Qed.

Lemma must_complete connected lease c σ : must (Complete connected lease c) (λ _ _, True) σ.
Proof. eapply must_mono; [apply must_verdict; constructor|done]. Qed.
Lemma must_fail connected lease f σ : must (Fail connected lease f) (λ _ _, True) σ.
Proof. eapply must_mono; [apply must_verdict; constructor|done]. Qed.

Lemma must_unwritten e wrap σ : must (unwritten e wrap) (λ _ _, True) σ.
Proof. unfold unwritten. by apply must_bind, must_call. Qed.

Lemma must_work_once w σ : must (work_once w) (λ _ _, True) σ.
Proof.
  unfold work_once. apply must_bind, must_call; [done|]. intros [|]; [done|].
  apply must_bind. eapply must_mono; [apply must_Claim|]. intros [[job lease]|e] σ1 _.
  - unfold run_job. apply must_bind, must_call; [done|]. intros result_.
    apply must_bind, must_call; [done|]. intros [|]; [done|].
    destruct result_ as [output|code retryable|]; [|destruct (classifyExecutionError _) as [code' retryable']..];
      (apply must_bind; eapply must_mono; [first [apply must_complete|apply must_fail]|]; intros [|] σ2 _;
       [done|apply must_unwritten]).
  - destruct e; try done; by apply must_bind, must_call.
Qed.

Lemma operations_disciplined A (m : WrapperQueue.Q A) σ : operation A m → must m (λ _ _, True) σ.
Proof.
  intros [connected job|connected claim|connected lease c|connected lease f|connected jobID|connected executor turns w].
  - unfold Enqueue. repeat case_match; try done. apply must_try; [by eexists|done|done].
  - apply must_Claim.
  - apply must_complete.
  - apply must_fail.
  - unfold Terminal. case_match; [done|]. by apply must_try.
  - unfold Worker_Run. repeat case_match; try done. clear. revert σ.
    induction turns as [|turns IH]; intros σ; cbn [work]; [done|].
    apply must_bind. eapply must_mono; [apply must_work_once|]. intros [] σ' _; [apply IH..|done].
Qed.
(** ** The store *)

(** A job is settled when it has a result; what is no job, when it is in the
    dead-letter stream. *)
Definition settled (st : queue_store) (m : queue_message) : Prop :=
  match decodeJob m with
  | Some job => ∃ t payload, (t, TerminalPrefix +:+ wj_JobID job, payload) ∈ qs_results st
  | None => m.1 ∈ (fst <$> qs_dlq st)
  end.

(** A lease record names a message and its job. *)
Definition record_ok (st : queue_store) (record : leasedMessage) : Prop :=
  ∃ m job, m ∈ qs_entries st ∧ m.1 = lm_MessageID record ∧ decodeJob m = Some job
           ∧ wj_JobID job = wl_JobID (lm_Lease record).

Definition result_key (r : Z * string * string) : string := r.1.2.

(** A later result for the same job comes after the earlier one has expired. *)
Definition later_result (newer older : Z * string * string) : Prop :=
  result_key newer = result_key older → older.1.1 + 1000 * terminalTTL < newer.1.1.

Record keys_ok (st : queue_store) : Prop := {
  ko_lease : ∀ leaseID e record, keyspace (qs_keys st) !! (leaseIDPrefix +:+ leaseID) = Some e →
    unmarshal (text_of e) = Some record → record_ok st record;
  ko_terminal : ∀ jobID e, keyspace (qs_keys st) !! (TerminalPrefix +:+ jobID) = Some e →
    ∃ t, (t, TerminalPrefix +:+ jobID, text_of e) ∈ qs_results st ∧ re_expires e = Some (t + 1000 * terminalTTL);
  ko_result : ∀ t k payload, (t, k, payload) ∈ qs_results st → t <= clock (qs_keys st) ∧
    ∃ e te, keyspace (qs_keys st) !! k = Some e ∧ re_expires e = Some te ∧ t + 1000 * terminalTTL <= te;
  ko_named : ∀ t k payload, (t, k, payload) ∈ qs_results st → ∃ jobID, k = TerminalPrefix +:+ jobID;
  ko_spread : StronglySorted later_result (qs_results st)
}.

Record queue_ok (st : queue_store) : Prop := {
  qo_ids : NoDup (fst <$> qs_entries st);
  qo_bound : (default 0 (qs_delivered st) <= length (qs_entries st))%nat;
  qo_kept : ∀ i m, qs_entries st !! i = Some m → (i < default 0 (qs_delivered st))%nat →
    is_Some (qs_pending st !! m.1) ∨ settled st m;
  qo_keys : keys_ok st
}.

(** What a client believes is true of the store. *)
Record client_ok (st : queue_store) (σ : client) : Prop := {
  co_msgs : ∀ m, m ∈ ct_msgs σ → m ∈ qs_entries st;
  co_settled : ∀ id, id ∈ ct_settled σ → ∃ m, m ∈ qs_entries st ∧ m.1 = id ∧ settled st m;
  co_records : ∀ leaseID record, (leaseIDPrefix +:+ leaseID, record) ∈ ct_records σ → record_ok st record;
  co_results : ∀ jobID payload, (TerminalPrefix +:+ jobID, payload) ∈ ct_results σ →
    ∃ t, (t, TerminalPrefix +:+ jobID, payload) ∈ qs_results st
}.

(** The store only grows in what clients know. *)
Record grows (st st' : queue_store) : Prop := {
  gs_entries : qs_entries st ⊆ qs_entries st';
  gs_dlq : qs_dlq st ⊆ qs_dlq st';
  gs_results : qs_results st ⊆ qs_results st'
}.

#[export] Instance grows_preorder : PreOrder grows.
Proof. split; [by intros st|]. intros st1 st2 st3 [] []. split; set_solver. Qed.

Lemma settled_grows st st' m : grows st st' → settled st m → settled st' m.
Proof.
  intros [_ Hd Hr]. unfold settled. destruct (decodeJob m); [intros (t & p & Hin); exists t, p; by apply Hr|].
  rewrite !list_elem_of_fmap. intros (x & -> & Hx). exists x. split; [done|]. by apply Hd.
Qed.

Lemma record_ok_grows st st' r : grows st st' → record_ok st r → record_ok st' r.
Proof. intros [He _ _] (m & job & Hm & Hrest). exists m, job. split; [by apply He|done]. Qed.

Lemma client_ok_grows st st' σ : grows st st' → client_ok st σ → client_ok st' σ.
Proof.
  intros Hg [Hm Hs Hr Hx]. constructor.
  - intros m Hin. by apply Hg, Hm.
  - intros id (m & Hin & Hid & Hset)%Hs. exists m. split_and!; [by apply Hg|done|by apply (settled_grows st)].
  - intros leaseID record Hin. by apply (record_ok_grows st), (Hr leaseID).
  - intros jobID payload (t & Hin)%Hx. exists t. by apply Hg.
Qed.

(** ** The name spaces of the keys *)

Lemma key_terminal_lease a b : TerminalPrefix +:+ a ≠ leaseIDPrefix +:+ b.
Proof. discriminate. Qed.
Lemma key_terminal_owner a b : TerminalPrefix +:+ a ≠ leaseMsgPrefix +:+ b.
Proof. discriminate. Qed.
Lemma key_terminal_enqueue a b : TerminalPrefix +:+ a ≠ enqueuePrefix +:+ b.
Proof. discriminate. Qed.
Lemma key_lease_owner a b : leaseIDPrefix +:+ a ≠ leaseMsgPrefix +:+ b.
Proof. discriminate. Qed.
Lemma key_lease_enqueue a b : leaseIDPrefix +:+ a ≠ enqueuePrefix +:+ b.
Proof. discriminate. Qed.

(** A key of neither name space. *)
Definition other_key (k : string) : Prop :=
  (∀ jobID, k ≠ TerminalPrefix +:+ jobID) ∧ (∀ leaseID, k ≠ leaseIDPrefix +:+ leaseID).

Lemma owner_other id : other_key (leaseMsgPrefix +:+ id).
Proof. split; intros j E; [by apply (key_terminal_owner j id)|by apply (key_lease_owner j id)]. Qed.
Lemma enqueue_other id : other_key (enqueuePrefix +:+ id).
Proof. split; intros j E; [by apply (key_terminal_enqueue j id)|by apply (key_lease_enqueue j id)]. Qed.

(** [keys_ok] only looks at the entries, the results and those two name spaces. *)
Lemma keys_ok_frame st st' :
  (∀ k, ¬ other_key k → keyspace (qs_keys st') !! k = keyspace (qs_keys st) !! k) →
  clock (qs_keys st) <= clock (qs_keys st') → qs_entries st ⊆ qs_entries st' → qs_results st' = qs_results st →
  keys_ok st → keys_ok st'.
Proof.
  intros Hk Hc He Hr [Hl Ht Hres Hn Hs].
  assert (∀ j, keyspace (qs_keys st') !! (TerminalPrefix +:+ j) = keyspace (qs_keys st) !! (TerminalPrefix +:+ j)) as Hkt.
  { intros j. apply Hk. intros [Hj _]. by apply (Hj j). }
  assert (∀ j, keyspace (qs_keys st') !! (leaseIDPrefix +:+ j) = keyspace (qs_keys st) !! (leaseIDPrefix +:+ j)) as Hkl.
  { intros j. apply Hk. intros [_ Hj]. by apply (Hj j). }
  constructor; rewrite ?Hr.
  - intros j e record Hj Hu. rewrite Hkl in Hj.
    destruct (Hl j e record Hj Hu) as (m & job & Hm & Hrest). exists m, job. split; [by apply He|done].
  - intros j e Hj. rewrite Hkt in Hj. by apply Ht.
  - intros t k p Hin. destruct (Hres t k p Hin) as [Hle (e & te & Hke & Hrest)]. split; [lia|].
    exists e, te. split; [|done]. destruct (Hn t k p Hin) as [j ->]. by rewrite Hkt.
  - done.
  - done.
Qed.
(** ** Every call keeps the store in order *)

(** The store after a call took effect. *)
Definition fine (st st' : queue_store) : Prop := queue_ok st' ∧ grows st st'.

Lemma fine_refl st : queue_ok st → fine st st.
Proof. done. Qed.

(** The parts of [queue_ok] when the stream is left alone. *)
Lemma fine_keys st st' :
  qs_entries st' = qs_entries st → qs_delivered st' = qs_delivered st → qs_pending st' = qs_pending st →
  qs_dlq st' = qs_dlq st → qs_results st' = qs_results st → keys_ok st' → queue_ok st → fine st st'.
Proof.
  intros He Hn Hp Hd Hr Hk [Hids Hbound Hkept _].
  assert (grows st st') as Hg by (by constructor; rewrite ?He, ?Hd, ?Hr).
  split; [|done]. constructor; [by rewrite He|by rewrite He, Hn| |done]. intros i m Hi Hlt. rewrite He in Hi. rewrite Hn in Hlt. rewrite Hp.
  destruct (Hkept i m Hi Hlt) as [?|Hs]; [by left|]. right. by apply (settled_grows st).
Qed.

Lemma fine_other f st :
  queue_ok st → (∀ k, ¬ other_key k → keyspace f !! k = keyspace (qs_keys st) !! k) → clock f = clock (qs_keys st) →
  fine st (with_keys f st).
Proof.
  intros Hok Hk Hc. apply fine_keys; try done. apply (keys_ok_frame st); [done|cbn; lia|set_solver|done|apply Hok].
Qed.

Lemma fine_set_other k v seconds st : queue_ok st → other_key k → fine st (set_text k v seconds st).
Proof.
  intros Hok Hk. apply fine_other; [done| |done]. intros k' Hk'. cbn. rewrite lookup_insert_ne; [done|]. by intros ->.
Qed.

Lemma fine_del_other k st : queue_ok st → other_key k → fine st (del_key k st).
Proof.
  intros Hok Hk. apply fine_other; [done| |done]. intros k' Hk'. cbn. rewrite lookup_delete_ne; [done|]. by intros ->.
Qed.

(** Deleting a lease's record only forgets. *)
Lemma fine_del_lease leaseID st : queue_ok st → fine st (del_key (leaseIDPrefix +:+ leaseID) st).
Proof.
  intros Hok. apply fine_keys; try done. destruct (qo_keys _ Hok) as [Hl Ht Hres Hn Hs].
  assert (∀ j, keyspace (qs_keys (del_key (leaseIDPrefix +:+ leaseID) st)) !! (TerminalPrefix +:+ j) =
               keyspace (qs_keys st) !! (TerminalPrefix +:+ j)) as Hkt.
  { intros j. cbn. apply lookup_delete_ne. intros E. by apply (key_terminal_lease j leaseID). }
  constructor; [| | |done|done].
  - intros j e r Hj. cbn in Hj. apply lookup_delete_Some in Hj as [_ Hj]. by apply (Hl j).
  - intros j e. rewrite Hkt. apply Ht.
  - intros t k p Hin. destruct (Hres t k p Hin) as [Hle (e & te & Hke & Hrest)]. split; [done|].
    exists e, te. split; [|done]. destruct (Hn t k p Hin) as [j ->]. by rewrite Hkt.
Qed.

Lemma unique_id st m m' :
  queue_ok st → m ∈ qs_entries st → m' ∈ qs_entries st → m.1 = m'.1 → m = m'.
Proof.
  intros Hok [i Hi]%list_elem_of_lookup [j Hj]%list_elem_of_lookup Heq.
  assert (i = j) as ->; [|congruence].
  apply (NoDup_lookup (fst <$> qs_entries st) i j m.1 (qo_ids _ Hok)).
  - by rewrite list_lookup_fmap, Hi.
  - by rewrite list_lookup_fmap, Hj, Heq.
Qed.

(** Acknowledging a settled message. *)
Lemma fine_ack id st :
  queue_ok st → (∃ m, m ∈ qs_entries st ∧ m.1 = id ∧ settled st m) → fine st (ack id st).
Proof.
  intros Hok (m & Hm & Hid & Hs). split; [|done]. constructor; [apply Hok|apply Hok| |by apply (keys_ok_frame st), Hok].
  intros i m' Hi Hlt. destruct (decide (m'.1 = id)) as [Heq|Hne].
  - right. assert (m' = m) as ->; [|done]. apply (unique_id st); [done|by eapply list_elem_of_lookup_2|done|congruence].
  - cbn [qs_pending ack with_delivery]. rewrite lookup_delete_ne by congruence. by apply (qo_kept _ Hok i).
Qed.

Lemma fine_dead id reason st : queue_ok st → fine st (with_dead (qs_dlq st ++ [(id, reason)]) st).
Proof.
  intros Hok. assert (grows st (with_dead (qs_dlq st ++ [(id, reason)]) st)) as Hg by (constructor; cbn; set_solver).
  split; [|done]. constructor; [apply Hok|apply Hok| |by apply (keys_ok_frame st), Hok].
  intros i m Hi Hlt. destruct (qo_kept _ Hok i m Hi Hlt) as [?|Hs]; [by left|]. right. by apply (settled_grows st).
Qed.

Lemma fine_claim worker idle id st : queue_ok st → fine st (claim_entry worker idle id st).2.
Proof.
  intros Hok. unfold claim_entry. repeat case_match; try by apply fine_refl. cbn [snd].
  split; [|done]. constructor; [apply Hok|apply Hok| |by apply (keys_ok_frame st), Hok].
  intros i m Hi Hlt. destruct (qo_kept _ Hok i m Hi Hlt) as [Hp|Hs]; [left|by right].
  cbn. destruct (decide (id = m.1)) as [->|]; [rewrite lookup_insert_eq; by eexists|by rewrite lookup_insert_ne].
Qed.

Lemma fine_read worker st : queue_ok st → fine st (read_group worker st).2.
Proof.
  intros Hok. unfold read_group. destruct (qs_delivered st) as [n|] eqn:En; [|by apply fine_refl].
  destruct (qs_entries st !! n) as [m|] eqn:Em; [|by apply fine_refl]. cbn [snd].
  pose proof (lookup_lt_Some _ _ _ Em) as Hn.
  split; [|done]. constructor; [apply Hok|done| |by apply (keys_ok_frame st), Hok].
  intros i m' Hi Hlt. cbn in *. destruct (decide (m.1 = m'.1)) as [->|Hne]; [left; rewrite lookup_insert_eq; by eexists|].
  rewrite lookup_insert_ne by done. apply (qo_kept _ Hok i m' Hi). rewrite En. cbn.
  assert (i ≠ n); [|lia]. intros ->. congruence.
Qed.

Lemma fine_group st :
  queue_ok st → fine st (match qs_delivered st with Some _ => st | None => with_delivery (Some 0%nat) ∅ st end).
Proof.
  intros Hok. destruct (qs_delivered st); [by apply fine_refl|]. split; [|done].
  constructor; [apply Hok|cbn; lia| |by apply (keys_ok_frame st), Hok]. intros i m _ Hlt. cbn in Hlt. lia.
Qed.

Lemma fine_enqueue jobID jid payload id st :
  queue_ok st → id ∉ (fst <$> qs_entries st) → fine st (enqueue_script (enqueuePrefix +:+ jobID) jid payload id st).2.
Proof.
  intros Hok Hid. unfold enqueue_script. destruct (lookup_text st _); [by apply fine_refl|]. cbn [snd].
  set (m := (id, _)). set (st1 := with_stream (qs_entries st ++ [m]) st).
  assert (grows st st1) as Hg by (constructor; cbn; set_solver).
  assert (queue_ok st1) as Hok1.
  { constructor.
    - cbn. rewrite fmap_app. apply list.NoDup_app. split_and!; [apply Hok| |apply NoDup_singleton].
      intros x Hx ->%list_elem_of_singleton. done.
    - cbn. rewrite length_app. pose proof (qo_bound _ Hok). lia.
    - intros i m' Hi Hlt. cbn in Hi, Hlt. destruct (decide (i < length (qs_entries st))%nat) as [Hl|Hl].
      + rewrite lookup_app_l in Hi by done. destruct (qo_kept _ Hok i m' Hi Hlt) as [?|Hs]; [by left|].
        right. by apply (settled_grows st).
      + pose proof (qo_bound _ Hok). lia.
    - apply (keys_ok_frame st); [done|done|apply Hg|done|apply Hok]. }
  destruct (fine_set_other (enqueuePrefix +:+ jobID) id terminalTTL st1 Hok1 (enqueue_other jobID)) as [? Hg'].
  split; [done|]. by transitivity st1.
Qed.
Lemma fine_lease leaseID v seconds st :
  queue_ok st → (∀ record, unmarshal v = Some record → record_ok st record) →
  fine st (set_text (leaseIDPrefix +:+ leaseID) v seconds st).
Proof.
  intros Hok Hv. apply fine_keys; try done. destruct (qo_keys _ Hok) as [Hl Ht Hres Hn Hs].
  assert (∀ j, keyspace (qs_keys (set_text (leaseIDPrefix +:+ leaseID) v seconds st)) !! (TerminalPrefix +:+ j) =
               keyspace (qs_keys st) !! (TerminalPrefix +:+ j)) as Hkt.
  { intros j. cbn. apply lookup_insert_ne. intros E. by apply (key_terminal_lease j leaseID). }
  constructor; [| | |done|done].
  - intros j e r Hj Hu. cbn in Hj. apply lookup_insert_Some in Hj as [[_ <-]|[_ Hj]]; [by apply Hv|by apply (Hl j e)].
  - intros j e. rewrite Hkt. apply Ht.
  - intros t k p Hin. destruct (Hres t k p Hin) as [Hle (e & te & Hke & Hrest)]. split; [done|].
    exists e, te. split; [|done]. destruct (Hn t k p Hin) as [j ->]. by rewrite Hkt.
Qed.

(** Writing a result where none is left. *)
Lemma fine_result jobID payload st :
  queue_ok st → lookup_text st (TerminalPrefix +:+ jobID) = None →
  fine st (with_result (TerminalPrefix +:+ jobID) payload (set_text (TerminalPrefix +:+ jobID) payload terminalTTL st)).
Proof.
  intros Hok Hnone. set (k := TerminalPrefix +:+ jobID) in *. set (st' := with_result _ _ _).
  assert (grows st st') as Hg by (constructor; cbn; [done|done|set_solver]).
  split; [|done]. constructor; [apply Hok|apply Hok| |].
  { intros i m Hi Hlt. destruct (qo_kept _ Hok i m Hi Hlt) as [?|Hs]; [by left|]. right. by apply (settled_grows st). }
  destruct (qo_keys _ Hok) as [Hl Ht Hres Hn Hs]. constructor.
  - intros j e r Hj Hu. cbn in Hj. rewrite lookup_insert_ne in Hj by (unfold k; apply key_terminal_lease).
    apply (record_ok_grows st); [done|]. by apply (Hl j e).
  - intros j e Hj. cbn in Hj. apply lookup_insert_Some in Hj as [[<- <-]|[_ Hj]].
    + exists (clock (qs_keys st)). split; [by left|done].
    + destruct (Ht j e Hj) as (t & Hin & He). exists t. split; [by right|done].
  - intros t k' p [Heq|Hin]%elem_of_cons.
    + injection Heq as -> -> ->. split; [done|]. eexists _, _. cbn. rewrite lookup_insert_eq. split_and!; [done|done|lia].
    + destruct (Hres t k' p Hin) as [Hle (e & te & Hke & Hte & Hlt)]. split; [done|].
      destruct (decide (k' = k)) as [->|Hne].
      * eexists _, _. cbn. rewrite lookup_insert_eq. split_and!; [done|done|lia].
      * exists e, te. cbn. by rewrite lookup_insert_ne by done.
  - intros t k' p [[= _ -> _]|Hin]%elem_of_cons; [by exists jobID|by eapply Hn].
  - constructor; [done|]. apply list.Forall_forall. intros [[t k'] p] Hin Heq. cbn in Heq. subst k'.
    destruct (Hres t k p Hin) as [_ (e & te & Hke & Hte & Hlt)]. cbn.
    unfold lookup_text, find in Hnone. rewrite Hke in Hnone. unfold live in Hnone. rewrite Hte in Hnone.
    destruct (Z.leb_spec (clock (qs_keys st)) te); [done|lia].
Qed.

Lemma fine_terminal record leaseID payload now expires st :
  queue_ok st → record_ok st record →
  fine st (terminal_script (TerminalPrefix +:+ wl_JobID (lm_Lease record)) (leaseIDPrefix +:+ leaseID)
             (leaseMsgPrefix +:+ lm_MessageID record) payload leaseID now expires (lm_MessageID record) st).2.
Proof.
  intros Hok (m & job & Hm & Hid & Hj & Hjid). unfold terminal_script.
  destruct (lookup_text st _) eqn:En; [case_if_goal; by apply fine_refl|].
  repeat (case_if_goal; [by apply fine_refl|]). cbn [snd].
  destruct (fine_result (wl_JobID (lm_Lease record)) payload st Hok En) as [H1 G1].
  set (st1 := with_result _ _ _) in *.
  destruct (fine_ack (lm_MessageID record) st1 H1) as [H2 G2].
  { exists m. split_and!; [by apply G1|done|]. unfold settled. rewrite Hj, Hjid. eexists _, _. by left. }
  destruct (fine_del_lease leaseID _ H2) as [H3 G3].
  destruct (fine_del_other (leaseMsgPrefix +:+ lm_MessageID record) _ H3 (owner_other _)) as [H4 G4].
  split; [done|]. do 3 (etransitivity; [|eassumption]). done.
Qed.

(** json.Marshal and json.Unmarshal keep the ids of a lease record; they are
    valid UTF-8, for they come from a decoded message. *)
Definition records_survive : Prop := ∀ m job lease s,
  decodeJob m = Some job → wl_JobID lease = wj_JobID job → marshal (LeasedMessage m.1 lease) = Some s →
  ∀ record, unmarshal s = Some record → lm_MessageID record = m.1 ∧ wl_JobID (lm_Lease record) = wj_JobID job.

Lemma does_inv {A} (m : queue_store → A * queue_store) st x st' :
  does m st x st' → st' = st ∨ st' = (m st).2.
Proof. intros [[_ ->]|[_ [->| ->]]]; auto. Qed.

Lemma does_fine {A} (m : queue_store → A * queue_store) st x st' :
  does m st x st' → queue_ok st → fine st (m st).2 → fine st st'.
Proof. intros [->| ->]%does_inv Hok Hf; [by apply fine_refl|done]. Qed.

Lemma grouped_fine {A} (m : queue_store → A * queue_store) st x st' :
  grouped m st x st' → queue_ok st → fine st (m st).2 → fine st st'.
Proof. unfold grouped. destruct (qs_delivered st); [apply does_fine|]. intros [_ ->] Hok _. by apply fine_refl. Qed.

Lemma exec_fine {X} (e : qE X) st x st' σ :
  records_survive → exec e st x st' → q_permits e σ → client_ok st σ → queue_ok st → fine st st'.
Proof.
  intros Hjson He Hp Hc Hok. destruct e; cbn [exec q_permits] in *; try (subst st'; by apply fine_refl).
  - eapply does_fine; [exact He|done|]. by apply fine_group.
  - eapply does_fine; [exact He|done|by apply fine_refl].
  - eapply does_fine; [exact He|done|by apply fine_refl].
  - eapply does_fine; [exact He|done|]. destruct Hp as [id ->]. destruct (lookup_text st _); [by apply fine_refl|].
    apply fine_set_other; [done|apply owner_other].
  - eapply does_fine; [exact He|done|]. destruct Hp as [id ->]. apply fine_del_other; [done|apply owner_other].
  - eapply grouped_fine; [exact He|done|by apply fine_refl].
  - eapply grouped_fine; [exact He|done|by apply fine_claim].
  - eapply grouped_fine; [exact He|done|by apply fine_read].
  - eapply does_fine; [exact He|done|]. apply fine_ack; [done|]. by apply (co_settled _ _ Hc).
  - eapply does_fine; [exact He|done|by apply fine_dead].
  - eapply does_fine; [exact He|done|]. destruct Hp as (leaseID & m & job & lease & -> & -> & Hm & Hj & Hjid & Hmar).
    cbn [snd]. destruct (fine_lease leaseID v seconds st Hok) as [H1 G1].
    { intros record Hu. destruct (Hjson m job lease v Hj Hjid Hmar record Hu) as [Ei Ej].
      exists m, job. split_and!; [by apply (co_msgs _ _ Hc)|done|done|done]. }
    destruct (fine_set_other (leaseMsgPrefix +:+ m.1) v' seconds _ H1 (owner_other _)) as [H2 G2].
    split; [done|]. etransitivity; [exact G1|done].
  - destruct He as (id & Hid & He). destruct Hp as [jid ->]. eapply does_fine; [exact He|done|by apply fine_enqueue].
  - eapply does_fine; [exact He|done|]. destruct Hp as (record & -> & -> & Hin & <- & ->).
    apply fine_terminal; [done|]. by apply (co_records _ _ Hc leaseID).
Qed.
(** ** Every call tells its client the truth *)

Lemma entry_in_stream st id m : stream_entry st id = Some m → m ∈ qs_entries st.
Proof.
  unfold stream_entry. intros ([i m'] & Hf & ->)%fmap_Some. apply list_find_Some in Hf as (Hi & _ & _).
  by eapply list_elem_of_lookup_2.
Qed.

Lemma grouped_reply {A} (m : queue_store → A * queue_store) st x st' :
  grouped m st x st' → x = None ∨ x = Some (m st).1.
Proof. unfold grouped. destruct (qs_delivered st); [intros [[? _]|[? _]]|intros [? _]]; auto. Qed.

Lemma messages_known st σ l :
  client_ok st σ → (∀ m, m ∈ l → m ∈ qs_entries st) →
  client_ok st (Client (l ++ ct_msgs σ) (ct_settled σ) (ct_records σ) (ct_results σ)).
Proof.
  intros [Hm Hs Hr Hx] Hl. constructor; [|done|done|done].
  intros m [Hin|Hin]%elem_of_app; [by apply Hl|by apply Hm].
Qed.

Lemma lookup_text_entry st k v :
  lookup_text st k = Some v → ∃ e, keyspace (qs_keys st) !! k = Some e ∧ text_of e = v.
Proof. unfold lookup_text. intros (e & Hf & ->)%fmap_Some. exists e. split; [|done]. by apply find_live in Hf as [? _]. Qed.

Lemma exec_true {X} (e : qE X) st x st' σ :
  records_survive → exec e st x st' → q_permits e σ → client_ok st σ → queue_ok st → client_ok st' (q_next e x σ).
Proof.
  intros Hjson He Hp Hc Hok. destruct (exec_fine e st x st' σ Hjson He Hp Hc Hok) as [Hok' Hg].
  pose proof (client_ok_grows _ _ _ Hg Hc) as Hc'. destruct e; cbn [exec q_permits q_next] in *; try done.
  - destruct He as [[-> ->]|[-> _]]; [|done]. cbn. destruct (lookup_text st k) as [raw|] eqn:Ek; [|done].
    destruct Hc as [Hm Hs Hr Hx]. pose proof (lookup_text_entry _ _ _ Ek) as (en & Hk & <-). constructor; [done|done| |].
    + intros leaseID record [Hin|Hin]%elem_of_app; [|by apply (Hr leaseID)].
      destruct (unmarshal (text_of en)) as [record'|] eqn:Eu; [|by inv Hin].
      apply list_elem_of_singleton in Hin. injection Hin as <- ->. by apply (ko_lease _ (qo_keys _ Hok) leaseID en).
    + intros jobID payload [Heq|Hin]%elem_of_cons; [|by apply Hx]. injection Heq as <- ->.
      destruct (ko_terminal _ (qo_keys _ Hok) jobID en Hk) as (t & Hin & _). by exists t.
  - destruct He as [[-> ->]|[-> _]]; [|done]. cbn. case_bool_decide as Hk; [|done].
    destruct Hc as [Hm Hs Hr Hx]. constructor; [done| |done|done].
    intros id [Hin|Hin]%elem_of_union; [|by apply Hs]. apply elem_of_list_to_set, list_elem_of_fmap in Hin as (m & -> & Hin).
    apply list_elem_of_filter in Hin as [Hset Hin]. exists m. split_and!; [by apply Hm|done|].
    unfold settles in Hset. unfold settled. destruct (decodeJob m) as [job|]; [|done]. apply bool_decide_eq_true in Hset as ->.
    destruct Hk as [v Hv]. apply lookup_text_entry in Hv as (en & Hk & <-).
    destruct (ko_terminal _ (qo_keys _ Hok) _ en Hk) as (t & Ht & _). by eexists t, _.
  - apply messages_known; [done|]. apply grouped_reply in He as [->| ->]; cbn; [by intros m ?%elem_of_nil|].
    intros m Hin. apply Hg. unfold claim_entry in Hin. repeat case_match; try by inv Hin.
    apply list_elem_of_singleton in Hin as ->. by eapply entry_in_stream.
  - apply messages_known; [done|]. apply grouped_reply in He as [->| ->]; cbn; [by intros m ?%elem_of_nil|].
    intros m Hin. apply Hg. unfold read_group in Hin. repeat case_match; try by inv Hin.
    apply list_elem_of_singleton in Hin as ->. by eapply list_elem_of_lookup_2.
  - destruct x as [u|]; [|done]. destruct He as [[_ ->]|[? _]]; [|done]. destruct Hc' as [Hm Hs Hr Hx].
    constructor; [done| |done|done]. intros id' [->%elem_of_singleton|Hin]%elem_of_union; [|by apply Hs].
    destruct Hp as (m & Hin & <- & Hj). exists m. split_and!; [by apply Hm|done|]. unfold settled. rewrite Hj.
    cbn. rewrite fmap_app. apply elem_of_app. right. by left.
  - destruct x as [code|]; [|done]. case_if_goal; [|done]. destruct He as [[[= Hcode] Hst]|[? _]]; [|done].
    destruct Hc' as [Hm Hs Hr Hx]. constructor; [done|done|done|].
    intros jobID p [Heq|Hin]%elem_of_cons; [|by apply Hx]. injection Heq as Hk ->.
    subst st'. unfold terminal_script in Hcode |- *. rewrite <-Hk in *.
    destruct (lookup_text st (TerminalPrefix +:+ jobID)) as [existing|] eqn:Ek.
    + apply lookup_text_entry in Ek as (en & Hk' & He').
      destruct (String.eqb_spec existing payload) as [->|]; [|by subst code].
      destruct (ko_terminal _ (qo_keys _ Hok) jobID en Hk') as (t & Hin & _). exists t. cbn. by rewrite <-He'.
    + repeat (case_if_goal; [by subst code|]). exists (clock (qs_keys st)). cbn. by left.
Qed.

(** ** Executions *)

(** Every client performs one operation, or as much of it as it got to. *)
Definition clients (tr : list (nat * event qE)) : Prop :=
  ∀ tid, ∃ A (m : WrapperQueue.Q A), operation A m ∧ partial m (calls_of tid tr).

Definition empty_store (now : Z) : queue_store := QueueStore (Redis ∅ now) [] None ∅ [] [].

Lemma fine_time d st : queue_ok st → fine st (with_keys (elapse d (qs_keys st)) st).
Proof. intros Hok. apply fine_keys; try done. apply (keys_ok_frame st); [done|cbn; lia|done|done|apply Hok]. Qed.

Definition all_ok (st : queue_store) (σ : nat → client) : Prop := queue_ok st ∧ ∀ tid, client_ok st (σ tid).

Lemma interleaving_ok st tr st' (σ : nat → client) :
  records_survive → interleaving st tr st' → (∀ tid, disciplined (calls_of tid tr) (σ tid)) → all_ok st σ →
  all_ok st' (λ tid, watch (calls_of tid tr) (σ tid)).
Proof.
  intros Hjson. apply interleaved_inv.
  - intros st0 σ0 σ1 Heq [Hok Hc]. split; [done|]. intros tid. rewrite <-Heq. apply Hc.
  - intros X e x st0 st1 tid σ0 He Hp [Hok Hc]. destruct (exec_fine e st0 x st1 _ Hjson He Hp (Hc tid) Hok) as [Hok1 Hg].
    split; [done|]. intros i. unfold step_client. destruct (decide (tid = i)) as [<-|]; [|by apply (client_ok_grows st0)].
    exact (exec_true e st0 x st1 _ Hjson He Hp (Hc tid) Hok).
  - intros st0 st1 σ0 [d ->] [Hok Hc]. destruct (fine_time d st0 Hok) as [Hok1 Hg]. split; [done|].
    intros tid. by apply (client_ok_grows st0).
Qed.

Lemma empty_ok now : queue_ok (empty_store now).
Proof.
  constructor; [constructor|done| |].
  - intros i m Hi. cbn in Hi. by rewrite lookup_nil in Hi.
  - constructor; try (by intros * ?%elem_of_nil); try (by intros * Hl; cbn in Hl; rewrite lookup_empty in Hl). constructor.
Qed.

Lemma clients_disciplined tr tid σ : clients tr → disciplined (calls_of tid tr) σ.
Proof.
  intros Hcl. destruct (Hcl tid) as (A & m & Hop & Hpart).
  by apply (partial_disciplined m (λ _ _, True)); [|apply operations_disciplined|].
Qed.

Lemma execution_ok now tr st :
  records_survive → clients tr → interleaving (empty_store now) tr st →
  queue_ok st ∧ ∀ tid, client_ok st (watch (calls_of tid tr) client0).
Proof.
  intros Hjson Hcl Hil. apply (interleaving_ok _ _ _ (λ _, client0) Hjson Hil).
  - intros tid. by apply clients_disciplined.
  - split; [apply empty_ok|]. intros tid. by constructor; intros * ?%elem_of_nil || intros ? ?%elem_of_empty.
Qed.
End queue.
