(* ===== verification/QueueClaims.v ===== *)
(** * What the wrapper queue guarantees

    The properties of the queue over every execution, and a small execution of
    it: one client enqueues a job, one claims it, one completes it. *)

From S2P Require Import Prelude Decimal Contracts Numeric Db Redis Snapshot Effects WrapperQueue QueueFacts.

Open Scope Z_scope.

Section claims.
  Context `{WrapperWire}.

(** C34 The queue loses no job: whatever clients enqueue, claim, complete, fail and
    work, in whatever interleaving of their calls to Redis, stopped at any
    point, with calls that fail before or after their effect, every message of
    the stream still waits for its delivery, or is pending so that a worker can
    claim it again, or has a result on record -- or, when it is no job at all,
    lies in the dead-letter stream. *)
Theorem wrapper_jobs_never_lost now tr st i m :
  records_survive → clients tr → interleaving (empty_store now) tr st →
  qs_entries st !! i = Some m →
  (default 0 (qs_delivered st) <= i)%nat ∨ is_Some (qs_pending st !! m.1) ∨
  match decodeJob m with
  | Some job => ∃ t payload, (t, TerminalPrefix +:+ wj_JobID job, payload) ∈ qs_results st
  | None => m.1 ∈ (fst <$> qs_dlq st)
  end.
Proof.
  intros Hjson Hcl Hil Hi. destruct (execution_ok now tr st Hjson Hcl Hil) as [Hok _].
  destruct (decide (i < default 0 (qs_delivered st))%nat) as [Hlt|]; [right|left; lia].
  by apply (qo_kept _ Hok i m).
Qed.

Lemma later_apart (l : list (Z * string * string)) t1 t2 k p1 p2 :
  StronglySorted later_result l → (t1, k, p1) ∈ l → (t2, k, p2) ∈ l →
  p1 = p2 ∨ 1000 * terminalTTL < Z.abs (t1 - t2).
Proof.
  intros Hs [i Hi]%list_elem_of_lookup [j Hj]%list_elem_of_lookup.
  assert (∀ i j a b, l !! i = Some a → l !! j = Some b → (i < j)%nat → later_result a b) as Hlater.
  { clear -Hs. induction Hs as [|x l Hs IH Hx]; intros i j a b Ha Hb Hlt; [done|].
    destruct j as [|j]; [lia|]. cbn in Hb. destruct i as [|i]; cbn in Ha.
    - injection Ha as ->. exact (proj1 (list.Forall_forall _ _) Hx b (list_elem_of_lookup_2 _ _ _ Hb)).
    - apply (IH i j); [done|done|lia]. }
  destruct (lt_eq_lt_dec i j) as [[Hlt|Heq]|Hlt].
  - pose proof (Hlater _ _ _ _ Hi Hj Hlt eq_refl) as Hl. cbn in Hl. right. lia.
  - left. congruence.
  - pose proof (Hlater _ _ _ _ Hj Hi Hlt eq_refl) as Hl. cbn in Hl. right. lia.
Qed.

(** C33 A job is decided once: when two verdicts on it are both accepted -- by
    whichever workers, under whichever leases, however their calls interleave
    -- both results are on record, and unless they are the same result one was
    written more than seven days after the other, when the first had expired. *)
Theorem wrapper_verdict_final now tr st lease1 envelope1 m1 lease2 envelope2 m2 tid1 tid2 :
  records_survive → clients tr → interleaving (empty_store now) tr st →
  verdict lease1 envelope1 m1 → verdict lease2 envelope2 m2 → wl_JobID lease1 = wl_JobID lease2 →
  runs m1 (calls_of tid1 tr) (Ok tt) → runs m2 (calls_of tid2 tr) (Ok tt) →
  ∃ t1 t2 payload1 payload2, marshal envelope1 = Some payload1 ∧ marshal envelope2 = Some payload2
    ∧ (t1, TerminalPrefix +:+ wl_JobID lease1, payload1) ∈ qs_results st
    ∧ (t2, TerminalPrefix +:+ wl_JobID lease1, payload2) ∈ qs_results st
    ∧ (payload1 = payload2 ∨ 1000 * terminalTTL < Z.abs (t1 - t2)).
Proof.
  intros Hjson Hcl Hil Hv1 Hv2 Hjob Hr1 Hr2. destruct (execution_ok now tr st Hjson Hcl Hil) as [Hok Hc].
  assert (∀ lease envelope m tid, verdict lease envelope m → runs m (calls_of tid tr) (Ok tt) →
    ∃ t payload, marshal envelope = Some payload ∧ (t, TerminalPrefix +:+ wl_JobID lease, payload) ∈ qs_results st) as Hacc.
  { intros lease envelope m tid Hv Hr.
    assert (fair (calls_of tid tr) client0) as Hfair.
    { clear. generalize client0 as σ. induction (calls_of tid tr) as [|[X e x] l IH]; intros σ; [done|split; [done|apply IH]]. }
    destruct (must_sound _ _ _ _ _ (must_verdict lease envelope m client0 Hv) Hr Hfair) as [_ Hq].
    destruct (Hq eq_refl) as (payload & Hm & Hin). destruct (co_results _ _ (Hc tid) _ _ Hin) as [t Ht]. by exists t, payload. }
  destruct (Hacc _ _ _ _ Hv1 Hr1) as (t1 & p1 & Hm1 & H1). destruct (Hacc _ _ _ _ Hv2 Hr2) as (t2 & p2 & Hm2 & H2).
  rewrite <-Hjob in H2. exists t1, t2, p1, p2. split_and!; try done.
  by apply (later_apart (qs_results st) _ _ (TerminalPrefix +:+ wl_JobID lease1)); [apply Hok|..].
Qed.
End claims.

(** ** An execution *)

Module Demo.

Definition job : WrapperJob := MkWrapperJob SchemaVersion "j" "claude" WrapperAuthorize "" 0 "input".
Definition lease : WrapperLease := MkWrapperLease SchemaVersion "j" "l" "w" "" 0 (60 * second).
Definition record : leasedMessage := LeasedMessage "1-0" lease.
Definition completion : WrapperCompletion := MkWrapperCompletion SchemaVersion "j" "l" "w" "" 0 "output".

#[local] Instance lease_dec : EqDecision WrapperLease.
Proof. solve_decision. Defined.
#[local] Instance leased_dec : EqDecision leasedMessage.
Proof. solve_decision. Defined.

(** Texts for the values of this execution. *)
#[local] Instance wire : WrapperWire := {|
  wire_job := {| marshal _ := Some "job"%string; unmarshal s := if String.eqb s "job" then Some job else None |};
  wire_leased := {| marshal r := if decide (r = record) then Some "record"%string else None;
                    unmarshal s := if String.eqb s "record" then Some record else None |};
  wire_terminal := {| marshal e := Some (match e with Completed _ => "completed" | Failed _ => "failed" end)%string;
                      unmarshal s := if String.eqb s "completed" then Some (Completed completion) else None |}
|}.

Lemma survive : records_survive.
Proof.
  intros m job' lease' s Hj Hjid Hmar r Hu. cbn in Hmar, Hu. case_decide as Heq; [|done].
  injection Heq as Hid ->. injection Hmar as <-. cbn in Hu. injection Hu as <-. by rewrite Hid.
Qed.

Definition message : queue_message := ("1-0", <["job_id" := "j"]> (<["payload" := "job"]> ∅))%string.
Definition claim : WrapperClaim := MkWrapperClaim SchemaVersion "w" 60.

Definition environment (n : nat) (X : Type) (e : qE X) : X :=
  match e in qE X return X with
  | NowE => Z.of_nat n
  | LeaseIDE => Some "l"
  | CancelledE => false
  | ExecuteE _ => Output "output"
  | GroupE | DelE _ | AckE _ | DeadE _ _ | SetBothE _ _ _ _ _ => Some tt
  | GetE k => Some (if String.eqb k (TerminalPrefix +:+ "j") then None
                    else if String.eqb k (leaseIDPrefix +:+ "l") then Some "record" else Some "l")
  | ExistsE _ => Some false
  | SetNXE _ _ _ => Some true
  | PendingE _ => Some []
  | ClaimE _ _ _ => Some []
  | ReadGroupE _ => Some [message]
  | EnqueueE _ _ _ => Some "1-0"
  | TerminalE _ _ _ _ _ _ _ _ => Some 0
  end%string.

(** Client 0 enqueues, client 1 claims at the epoch, client 2 completes. *)
Definition enqueueing := execute environment 0 (Enqueue true job).
Definition claiming := execute (λ _, environment 0) 0 (Claim true claim).
Definition completing := execute environment 0 (Complete true lease completion).
Definition trace : list (nat * event qE) :=
  (pair 0%nat <$> enqueueing.1) ++ (pair 1%nat <$> claiming.1) ++ (pair 2%nat <$> completing.1).

Lemma enqueue_run : runs (Enqueue true job) (calls_of 0 trace) enqueueing.2.
Proof. replace (calls_of 0 trace) with enqueueing.1 by (vm_compute; reflexivity). apply execute_runs. Qed.
Lemma claim_run : runs (Claim true claim) (calls_of 1 trace) claiming.2.
Proof. replace (calls_of 1 trace) with claiming.1 by (vm_compute; reflexivity). apply execute_runs. Qed.
Lemma complete_run : runs (Complete true lease completion) (calls_of 2 trace) completing.2.
Proof. replace (calls_of 2 trace) with completing.1 by (vm_compute; reflexivity). apply execute_runs. Qed.

Example claimed : claiming.2 = Ok (job, lease).
Proof. vm_compute. reflexivity. Qed.
Example completed : completing.2 = Ok tt.
Proof. vm_compute. reflexivity. Qed.

Lemma trace_clients : clients trace.
Proof.
  intros [|[|[|tid]]].
  - exists _, (Enqueue true job). split; [constructor|]. eapply runs_partial, enqueue_run.
  - exists _, (Claim true claim). split; [constructor|]. eapply runs_partial, claim_run.
  - exists _, (Complete true lease completion). split; [constructor|]. eapply runs_partial, complete_run.
  - exists _, (Claim true claim). split; [constructor|].
    replace (calls_of (S (S (S tid))) trace) with (@nil (event qE)) by (vm_compute; reflexivity). by left.
Qed.

Lemma trace_execution : ∃ st, interleaving (empty_store 0) trace st ∧ qs_entries st !! 0%nat = Some message
  ∧ qs_delivered st = Some 1%nat ∧ qs_pending st = ∅.
Proof.
  eexists. split.
  - let t := eval vm_compute in trace in replace trace with t by (vm_compute; reflexivity).
    eapply il_call; [exists "1-0"%string; split; [apply not_elem_of_nil|left; split; reflexivity]|].
    repeat (eapply il_call; [first [reflexivity|left; split; [vm_compute; reflexivity|reflexivity]]|]). apply il_done.
  - vm_compute. done.
Qed.

Lemma wrapper_jobs_never_lost_witness :
  ∃ st, qs_entries st !! 0%nat = Some message ∧
    ((default 0 (qs_delivered st) <= 0)%nat ∨ is_Some (qs_pending st !! "1-0"%string) ∨
     ∃ t payload, (t, TerminalPrefix +:+ "j", payload) ∈ qs_results st).
Proof.
  destruct trace_execution as (st & Hil & Hm & _). exists st. split; [exact Hm|].
  pose proof (wrapper_jobs_never_lost 0 trace st 0 message survive trace_clients Hil Hm) as Hkept. exact Hkept.
Defined.

Lemma wrapper_verdict_final_witness :
  ∃ st t1 t2, (t1, TerminalPrefix +:+ "j", "completed"%string) ∈ qs_results st
    ∧ (t2, TerminalPrefix +:+ "j", "completed"%string) ∈ qs_results st.
Proof.
  destruct trace_execution as (st & Hil & _). pose proof complete_run as Hr. rewrite completed in Hr.
  destruct (wrapper_verdict_final 0 trace st lease (Completed completion) _ lease (Completed completion) _ 2 2
    survive trace_clients Hil (verdict_complete lease true completion) (verdict_complete lease true completion)
    eq_refl Hr Hr) as (t1 & t2 & p1 & p2 & Hp1 & Hp2 & H1 & H2 & _).
  injection Hp1 as <-. injection Hp2 as <-. by exists st, t1, t2.
Defined.
End Demo.
